(* ===== verification/_CoqProject ===== *)
-Q . S2P
Prelude.v
Settings.v
Floats.v
Prog.v
Embed.v
Shape.v
Memory.v
Interleave.v
Schema.v
Rules.v
Views.v
Domain.v
PayoutHop.v
PayoutSafety.v
PayoutBooks.v
PayoutOverlap.v
Rpc.v
OperatorSigning.v
OperatorSafety.v
PayoutSigner.v
Chain.v
Clients.v
Intents.v
IntentBooks.v
IntentSafety.v
IntentOverlap.v
Keeper.v
KeeperSafety.v
JobQueue.v
KeeperProcess.v
Monitor.v
Indexer.v
IndexerSafety.v
IndexerLife.v
Webhooks.v
WebhookFanOut.v
WebhookDeliver.v
ApiKeys.v
ApiKeySafety.v
Idempotency.v
IdempotencyOverlap.v
IssuerHttp.v
Gateway.v
GatewayOverlap.v
GatewaySafety.v
PayoutProcess.v
Sanctions.v
SanctionsSafety.v
Compliance.v
ComplianceSafety.v
ManualReview.v
Seed.v
Alerting.v
Reconcile.v
PriceGuard.v
PriceGuardSafety.v
Api.v
ClientsSafety.v
ReadRoutes.v
ReadSafety.v
LineRoutes.v
DealRoutes.v
RouteSpec.v
RouteSafety.v
Lifecycle.v
AccountRoutes.v
AccountSafety.v
AccountView.v
KeyLifecycle.v
Server.v
ServerSafety.v
ApiTimers.v
Console.v
ConsolePages.v
ConsoleSafety.v
ConsoleUi.v
ConsoleBorrower.v
ConsoleLender.v
ConsoleDeals.v
ConsoleFrame.v
