(* ===== verification/Prelude.v ===== *)
(** * Ballast: a verification development

    Ballast lends and trades against tokenised securities on Stellar.  Soroban contracts (Rust) hold
    the collateral and the rules; the TypeScript services around them hand out unsigned transactions,
    watch what becomes of them, keep the books in Postgres, push liquidations and margin calls, pay
    exits out through an anchor and tell subscribers.  This library models the services and proves
    what makes each of them correct.  The contracts, the Stellar SDK, the RPC node, the issuers and
    Node's cryptography are outside it: parameters ([Class]es of pure functions) or calls whose
    answers an environment decides.

    ** How a service is modelled

    [Prog] gives awaited code as a free monad [prog]: SQL statements, transactions, calls, clock and
    UUID reads, outputs, with JavaScript exceptions as results ([catch], [attempt]).  [run] executes a
    program against an environment [env] that decides every answer, every stamp, and for every
    statement and commit whether it works, fails before having an effect, or takes effect and loses
    its acknowledgement.  [wp] is the weakest precondition over all environments a regime
    ([admissible]) allows, [wp_sound] its soundness ([wp_sound_logged] for
    a regime that speaks of what the run will have logged); a theorem about [run] is proved with the rules of
    [Prog] and [Rules] and holds for every environment.  [Schema] is [packages/db/src/schema.ts]: one
    list of rows per table, with 32-bit columns, unique indexes and foreign keys, and the statements
    the services run.  A transaction's rollback restores the database as it was when it began.
    [Interleave] runs several programs at once under a schedule of their operations, a transaction
    counting as one: threads that follow a protocol refine the protocol's abstract system, whose
    invariants then hold of every interleaving.  Payouts, idempotency keys and executions of a quote
    are treated so; the other theorems about sequences of operations run them one after another.

    ** The parts

    Shared: [Prelude] (this file), [Floats] (doubles where the source computes with them, and their texts), [Prog] and
    [Rules] (programs, their runs and how to reason about them), [Memory] (programs that keep something
    in memory), [Shape] (what a program does at most), [Embed] (a component's program inside a larger
    one), [Views] (runs that look the same on two databases), [Interleave], [Schema].

    - [Domain]: money, price, risk and margin of [packages/domain-types/src], and the double-entry
      journal of [packages/db/src/journal.ts].  Decimal strings round trip ([money_roundtrip]), the
      margin state is exact ([classifyMargin_ltv_exact]), a double entry is written entirely or not at
      all ([recordDoubleEntry_atomic]).
    - [PayoutHop], [PayoutSafety], [PayoutOverlap], [PayoutBooks]: [services/payout-hop/src] (hop.ts,
      firstLeg.ts, repair.ts, the route of index.ts).  However its requests overlap, a first leg is
      paid again only after a submission that was refused or that nobody answered (C1), an answer tells the truth about the payment and its booking (C18), an
      accepted first leg pays ([checkReceived_pays]).  [PayoutProcess] starts the process (index.ts) and
      runs its requests and repairs at once: nothing is paid but what a holder of the token asked for and
      the policy allows, after its first leg was shown (C2).  [PayoutSigner] is signer.ts: what is
      submitted is the signer's envelope of just the payment asked for ([submits_what_it_was_asked]).
    - [OperatorSigning], [OperatorSafety]: [packages/operator-signing/src], the Vault client and signer,
      the KMS envelope, the local key and the factory.  A key held in Vault signs what it was asked to and
      nothing else (C9); production's signers keep their keys elsewhere
      ([production_signers_keep_keys_elsewhere]).
    - [Chain], [Intents], [IntentBooks], [IntentSafety], [IntentOverlap]: contract reads of [packages/contract-clients]
      and [services/api/src/intents.ts] with [routes/tx.ts].  Settling applies the effect an intent
      stands for, down to the amounts the contract answered, wholly or not at all (C3), at most once when
      the API's operations run one after another and no acknowledgement is lost (C10), and when they overlap at most once more for each
      failure they report (C4); a sweep writes off only what cannot land (C27); a submission that was
      sent is not reported as an error (C28).
    - [Api], [LineRoutes], [DealRoutes]: [routes/credit-lines.ts], [exit.ts], [repo.ts] and
      [helpers.ts], [schemas.ts] and the error handler of [server.ts], all of [services/api/src].
      [RouteSpec] says as a relation what a caller is entitled to have built and what it leaves in the
      books; [RouteSafety] shows that every route refines it (C7, C14); [RouteSafety.RouteOverlap] shows two
      overlapping executions of one quote.  [Lifecycle] puts requests,
      submissions, settlements and sweeps into one history: each is a sequence of few kinds of step,
      nothing waits for a transaction nobody tracks, and intents stay well typed (C21, C37).
    - [ReadRoutes], [ReadSafety]: the routes that only read (assets.ts, positions.ts, markets.ts and
      reports.ts).  What they show a party depends on its own
      rows and the public ones alone (C26).
    - [Settings]: the environment's settings, [packages/network-config/src/index.ts] and
      [services/api/src/config.ts]; what a process in production can count on
      ([production_is_configured]).
    - [Server], [ServerSafety]: [server.ts] and [auth.ts] put together: the hooks, the gate, every route
      under its method and URL, and the errors' answers.  A request is refused, answered in public, held, or
      handled for the party it proved to be, and each leaves no more than it may (C6).
    - [ApiTimers]: the passes and timers of [services/api/src/index.ts]: a sweep does not overlap a
      sweep, nor a webhook round a round, and a failing pass locks none out ([passes_do_not_overlap]).
    - [Clients], [ClientsSafety]: [packages/contract-clients/src] (scval.ts, unsigned-tx.ts,
      base-client.ts and the six clients).  The envelope handed out for an invocation is that invocation
      and no other (C20); an asset's configuration survives the way to the contract and back
      ([asset_config_round_trips]).
    - [Rpc]: [packages/network-config/src/retry.ts] and [packages/operator-signing/src/submit.ts]: one
      to four calls, the last answer ([withRpcRetry_last_answer]).
    - [Keeper], [KeeperSafety], [JobQueue], [KeeperProcess]: [services/keeper/src].  Every
      liquidation, margin call and close-out is backed by contract reads of the same run and booked whole
      (C8, C23, [liquidation_booked_whole]); the lane never jams (C36); the advisory lock is
      always returned ([lock_always_returned]); from the first signal on no job enters the lane, and what
      is in it may end ([keeper_shuts_down]).
    - [Monitor]: [services/margin-monitor/src]: transitions recorded and alerted exactly
      ([recompute_records_transitions]), which makes every line's record a chain (C22), and what an LTV
      beyond 32 bits does ([oversized_ltv_is_silent]).
    - [Indexer], [IndexerSafety], [IndexerLife]: [services/indexer/src].  Every event the RPC returned is on file
      ([poll_keeps_every_event]), every ledger is scanned or recorded as a gap
      ([poll_accounts_for_every_ledger]), paging ends (C39).
      [IndexerLife] is the process's loop (index.ts): through errors, faults and restarts no event of the
      chain is lost but what the node leaves out of an answer that is not full (C5).
    - [Webhooks], [WebhookFanOut], [WebhookDeliver]: [services/api/src/webhooks].  A fan-out queues
      exactly what concerns each subscription, once; a delivery is retried with backoff and dies after
      six attempts; a request goes only to a host whose addresses lie outside the blocks
      that are not public, said of the numbers they are the text of, and its signature verifies (C30, C29,
      C31, [signature_verifies]).
    - [ApiKeys], [ApiKeySafety]: [apiKeys.ts], [session-token.ts] and [auth.ts] of
      [services/api/src].  No replay, no identity without proof ([authenticated_only_with_proof]), what a
      signature covers ([canonical_request_pins_every_part]), and the bound of a rate window (C16, C38).
    - [AccountRoutes], [AccountSafety], [AccountView], [KeyLifecycle]: [routes/auth.ts],
      [dev-auth.ts], [api-keys.ts], [webhooks.ts] and [parties.ts] of [services/api/src].  Each request
      is one of a few changes to the caller's own rows ([account_effect]); it touches and shows nothing
      of another party's (C25); a key works from its creation to its revocation (C17).
    - [Idempotency], [IdempotencyOverlap], [IssuerHttp], [Gateway], [GatewayOverlap], [GatewaySafety]:
      [services/issuer-gateway/src] (idempotency.ts, adapters/, registry.ts, index.ts) behind the token
      of [packages/network-config/src/internalAuth.ts].  [Idempotency] takes the issuer's call as an
      argument; a call that [asks_once], and returns exactly if the answer is usable, keeps the promise of
      the keys, and the adapters' HTTP requests are such calls.  A key's request goes out again only after
      one that failed, however its requests overlap (C15); a usable answer is passed on and audited, and any
      other reply tells a refusal or an outcome nobody knows (C13).
    - [Sanctions], [SanctionsSafety], [Compliance], [ComplianceSafety]:
      [services/api/src/compliance].  The CSV parser inverts printing ([csv_parses]), names match by
      their words (C40), screening finds every listing (C34), files, words, aliases and addresses being
      said in [SanctionsSafety] apart from the code; the gate and the hook let only the
      cleared through (C24, [gated_routes_need_everyone_cleared]); the screener uses a list only while it is
      fresh or cannot be renewed and is not too old, and fails closed otherwise (C35).
      [ManualReview] is the operator's command of [packages/db/src/complianceCli.ts]: clearing lifts a
      hold ([clear_lifts_the_hold]).  [Seed] is [packages/db/src/seed.ts] and
      [services/price-guard/src/seedShadow.ts]: a seed that ended well is made once ([seed_is_made_once],
      [shadow_seed_is_made_once]).
    - [Alerting]: the alerter and the balance check of [packages/observability/src]: an alert goes out
      once per cooldown ([alerts_once_per_cooldown], [balance_check_alerts_exactly_when_low]).
    - [PriceGuard], [PriceGuardSafety]: [services/price-guard/src] with the network settings of
      [packages/network-config/src].  What a price cycle publishes and records is what it read,
      attested by the publisher's key; an asset nobody was alerted about went through every step
      (C19, C32).
    - [Reconcile]: [services/ledger/src]: a reconciliation reports exactly the breaks between pledges
      and vault events (C33).
    - [Console], [ConsoleSafety]: [apps/console/src/lib], its configuration, amounts, API client and
      session.  A click on sensible input reaches the API as its form says it (C11); a session ends when the API says so
      ([request_ends_only_expired_sessions]).
    - [ConsolePages], [ConsoleUi]: what the pages share: the API's replies, the panel that signs one envelope
      at a time ([panel_signs_one_at_a_time]), what the buttons ask for, the refresh of the lines with the
      polling that starts it; and the trees a page renders with what can be done on them.
    - [ConsoleBorrower], [ConsoleLender], [ConsoleDeals]: the pages ([apps/console/src/pages]), each a state, its
      events, the tree it renders and its histories, in which only what the tree offers is clicked and only
      what was asked is answered.  A borrower's line builds one envelope at a time (C12); the
      lender's, the exit's and the repo's page ask only what they show ([lender_asks_only_as_lender],
      [exit_executes_the_quote_shown], [repo_asks_what_the_trade_allows]).
    - [ConsoleFrame]: the price page, which shows only readings ([price_page_shows_only_readings]), the
      routes, the frame, the login page and the error panels ([App.tsx], [main.tsx], [components]).  Every
      path ends on one screen ([visitor_arrives]); a login ends in a session or says why ([connect_lands]).

    In every pair, the first file holds the definitions, named after the source, and the [...Safety],
    [...Books], [...FanOut], [...Deliver] and [...Life] files the theorems.  This file holds the shared part:
    exceptions and outcomes, strings and the printing and parsing of integers, JSON values.

    ** Bounds, fuel and readings

    - Integers are [Z]: the source computes money with [bigint]; the 32-bit columns are checked by
      [Schema.in_range].  Times are milliseconds since the epoch.
    - Strings are byte strings, read as ASCII where the source looks into them; the white space of [trim] and
      of patterns is ASCII's.  Names on the sanctions list are UTF-8, with Unicode's normal form and letter
      case a parameter ([Sanctions.Unicode]).
    - Loops with a bound of their own keep it (45 polls in the submit route, 30 after a keeper's
      transaction, four calls of a retry).  [Indexer.drain] takes fuel: C39 shows that it only runs
      out on as many full pages, so the [OutOfFuel] a model run can end in stands for a node that
      never ends its pages.  [Idempotency.runIdempotent] takes fuel for retries that only concurrent
      writers can cause ([retry_only_after_concurrent_release]).  [Sanctions.parse_rows] and the scanners of remarks run with the length
      of the text, which each step shortens.
    - [db.transaction] exists (the source's fallback for handles without it is left out); statements
      sent with [Promise.all] are run in order; timers, timeouts and log lines are not observed, a
      timeout being an error the call may answer.
    - Rows tied in an [ORDER BY] come in insertion order.

    ** What is not modelled

    The Rust contracts; the API process's singletons; in the console, layout and styling that do not depend
    on the state; the migration runner; the smoke, end-to-end and deployment scripts; the logger.  The routes that record an intent
    together with the rows of its deal run one at a time in the histories of [Lifecycle]; only the
    recording itself, submissions, settlements and sweeps overlap in [IntentOverlap]. *)
From Stdlib Require Export ZArith Lia Permutation Sorted Ascii.
From stdpp Require Export base list strings pretty.
Export ListNotations.
#[global] Open Scope Z_scope.

(** ** Errors: a JavaScript exception is its class and its message. *)
Record exn := Exn { exn_class : string; exn_message : string }.

#[export] Instance exn_eq_dec : EqDecision exn.
Proof. solve_decision. Defined.

Definition Error (msg : string) : exn := Exn "Error" msg.

(** What a JavaScript expression, call or awaited promise ends with. *)
Inductive outcome (A : Type) : Type :=
| Ok (a : A)
| Err (e : exn).
Arguments Ok {A} _.
Arguments Err {A} _.

Definition is_ok {A} (r : outcome A) : bool := match r with Ok _ => true | Err _ => false end.

Definition obind {A B} (r : outcome A) (f : A -> outcome B) : outcome B :=
  match r with Ok a => f a | Err e => Err e end.

Definition omap' {A B} (f : A -> B) (r : outcome A) : outcome B :=
  match r with Ok a => Ok (f a) | Err e => Err e end.

Create HintDb ballast.

Declare Scope js_scope.
Delimit Scope js_scope with js.
Notation "x <-? c ;; k" := (obind c (fun x => k))
  (at level 100, c at next level, right associativity) : js_scope.
#[global] Open Scope js_scope.

Lemma obind_ok {A B} (r : outcome A) (f : A -> outcome B) b :
  obind r f = Ok b <-> exists a, r = Ok a /\ f a = Ok b.
Proof. destruct r; simpl; split; intros H; [by eauto | by destruct H as (? & [= ->] & ?) | done | by destruct H as (? & ? & ?)]. Qed.

(** A left fold that stops at the first exception ([Array.prototype.reduce] over a throwing body). *)
Fixpoint ofold {A B} (f : B -> A -> outcome B) (acc : B) (l : list A) : outcome B :=
  match l with
  | [] => Ok acc
  | a :: l' => acc' <-? f acc a ;; ofold f acc' l'
  end.

(** [xs.map(f)] where [f] may throw. *)
Fixpoint omap_list {A B} (f : A -> outcome B) (l : list A) : outcome (list B) :=
  match l with
  | [] => Ok []
  | a :: l' => b <-? f a ;; bs <-? omap_list f l' ;; Ok (b :: bs)
  end.

Lemma ofold_app {A B} (f : B -> A -> outcome B) acc l1 l2 :
  ofold f acc (l1 ++ l2) = obind (ofold f acc l1) (fun acc' => ofold f acc' l2).
Proof.
  revert acc. induction l1 as [|a l1 IH]; intros acc; simpl; [done|].
  destruct (f acc a); simpl; auto.
Qed.

(** ** Characters and strings *)
Definition char_code (c : ascii) : Z := Z.of_N (N_of_ascii c).

Definition is_digit (c : ascii) : bool := (48 <=? char_code c) && (char_code c <=? 57).

Definition digit_value (c : ascii) : Z := char_code c - 48.

(** The characters [String.prototype.trim] strips, within ASCII. *)
Definition is_space (c : ascii) : bool :=
  (char_code c =? 32) || ((9 <=? char_code c) && (char_code c <=? 13)).

Fixpoint string_to_list (s : string) : list ascii :=
  match s with EmptyString => [] | String c s' => c :: string_to_list s' end.

Fixpoint list_to_string (l : list ascii) : string :=
  match l with [] => EmptyString | c :: l' => String c (list_to_string l') end.

Definition slen (s : string) : nat := List.length (string_to_list s).

Definition string_forall (p : ascii -> bool) (s : string) : bool := forallb p (string_to_list s).

Definition string_take (n : nat) (s : string) : string := list_to_string (take n (string_to_list s)).
Definition string_drop (n : nat) (s : string) : string := list_to_string (drop n (string_to_list s)).

Definition starts_with (p s : string) : bool := String.prefix p s.

Definition ends_with (suf s : string) : bool :=
  bool_decide (string_drop (slen s - slen suf) s = suf) && (slen suf <=? slen s)%nat.

Fixpoint trim_left (s : string) : string :=
  match s with
  | EmptyString => EmptyString
  | String c s' => if is_space c then trim_left s' else s
  end.

Definition string_rev (s : string) : string := list_to_string (rev (string_to_list s)).
Definition trim (s : string) : string := string_rev (trim_left (string_rev (trim_left s))).

(** [String.prototype.split] on a one-character separator: always at least one part. *)
Fixpoint split_on (sep : ascii) (s : string) : list string :=
  match s with
  | EmptyString => [EmptyString]
  | String c s' =>
      match split_on sep s' with
      | [] => [EmptyString]
      | p :: ps => if bool_decide (c = sep) then EmptyString :: p :: ps else String c p :: ps
      end
  end.

Fixpoint join (sep : string) (l : list string) : string :=
  match l with
  | [] => EmptyString
  | [s] => s
  | s :: l' => s +:+ sep +:+ join sep l'
  end.

Fixpoint repeat_char (c : ascii) (n : nat) : string :=
  match n with O => EmptyString | S n' => String c (repeat_char c n') end.

Definition pad_start (n : nat) (c : ascii) (s : string) : string :=
  repeat_char c (n - slen s) +:+ s.

Definition js_or (s t : string) : string := if bool_decide (s = "") then t else s.

Definition to_upper (c : ascii) : ascii :=
  if (97 <=? char_code c) && (char_code c <=? 122)
  then ascii_of_N (Z.to_N (char_code c - 32)) else c.
Definition to_lower (c : ascii) : ascii :=
  if (65 <=? char_code c) && (char_code c <=? 90)
  then ascii_of_N (Z.to_N (char_code c + 32)) else c.
Definition string_map (f : ascii -> ascii) (s : string) : string :=
  list_to_string (map f (string_to_list s)).
Definition toUpperCase : string -> string := string_map to_upper.
Definition toLowerCase : string -> string := string_map to_lower.

(** ** [BigInt(text)]: the StringToBigInt grammar (trimmed, empty is zero, a sign only before
    decimal digits, [0x]/[0o]/[0b] prefixes), and printing with [toString]. *)
Fixpoint read_digits (base : Z) (value : ascii -> option Z) (acc : Z) (s : string) : option Z :=
  match s with
  | EmptyString => Some acc
  | String c s' =>
      match value c with
      | Some d => if (d <? base) then read_digits base value (acc * base + d) s' else None
      | None => None
      end
  end.

Definition hex_value (c : ascii) : option Z :=
  if is_digit c then Some (digit_value c)
  else if (97 <=? char_code c) && (char_code c <=? 102) then Some (char_code c - 87)
  else if (65 <=? char_code c) && (char_code c <=? 70) then Some (char_code c - 55)
  else None.

Definition digits (base : Z) (s : string) : option Z :=
  if bool_decide (s = "") then None else read_digits base hex_value 0 s.

(** [Buffer.from(s, "hex")]: pairs of hex digits up to the first that is not one. *)
Fixpoint Buffer_from_hex (s : string) : list Z :=
  match s with
  | String a (String b s') =>
      match hex_value a, hex_value b with
      | Some x, Some y => (16 * x + y) :: Buffer_from_hex s'
      | _, _ => []
      end
  | _ => []
  end.

(** [bytes.toString("hex")]. *)
Definition hex_digit (d : Z) : ascii := ascii_of_N (Z.to_N (if d <? 10 then 48 + d else 87 + d)).
Definition Buffer_to_hex (bytes : list Z) : string :=
  List.fold_right (fun b s => String (hex_digit (b / 16)) (String (hex_digit (b mod 16)) s)) "" bytes.

Definition parse_bigint (s : string) : option Z :=
  match trim s with
  | EmptyString => Some 0
  | String c s' as t =>
      if starts_with "0x" t || starts_with "0X" t then digits 16 (string_drop 2 t)
      else if starts_with "0o" t || starts_with "0O" t then digits 8 (string_drop 2 t)
      else if starts_with "0b" t || starts_with "0B" t then digits 2 (string_drop 2 t)
      else if bool_decide (c = "-"%char) then Z.opp <$> digits 10 s'
      else if bool_decide (c = "+"%char) then digits 10 s'
      else digits 10 t
  end.

Definition BigInt (s : string) : outcome Z :=
  match parse_bigint s with
  | Some z => Ok z
  | None => Err (Exn "SyntaxError" ("Cannot convert " +:+ s +:+ " to a BigInt"))
  end.

(** [BigInt(null)] is a [TypeError]; a nullable text column goes through this. *)
Definition BigInt_nullable (s : option string) : outcome Z :=
  match s with
  | Some s => BigInt s
  | None => Err (Exn "TypeError" "Cannot convert null to a BigInt")
  end.

Definition Z_to_string (z : Z) : string := pretty z.

(** [new Date(ts * 1000)] as a column value: an invalid date cannot be written. *)
Definition date_of_seconds (ts : Z) : outcome Z :=
  if Z.abs (ts * 1000) <=? 8640000000000000 then Ok (ts * 1000) else Err (Exn "RangeError" "Invalid time value").

(** ** Lemmas on strings and numbers *)
Lemma string_to_list_app s t : string_to_list (s +:+ t) = string_to_list s ++ string_to_list t.
Proof. induction s as [|c s IH]; simpl; [done|]. by f_equal. Qed.

Lemma list_to_string_to_list s : list_to_string (string_to_list s) = s.
Proof. induction s as [|c s IH]; [done|]. simpl. by f_equal. Qed.

Lemma string_to_list_to_string l : string_to_list (list_to_string l) = l.
Proof. induction l as [|c l IH]; [done|]. simpl. by f_equal. Qed.

Lemma slen_app s t : slen (s +:+ t) = (slen s + slen t)%nat.
Proof. unfold slen. rewrite string_to_list_app. apply length_app. Qed.

Lemma string_cons_app c s t : String c s +:+ t = String c (s +:+ t).
Proof. done. Qed.

Lemma string_app_nil_r s : s +:+ "" = s.
Proof. induction s as [|c s IH]; [done|]. rewrite string_cons_app. by f_equal. Qed.

Lemma slen_repeat c n : slen (repeat_char c n) = n.
Proof. induction n as [|n IH]; [done|]. unfold slen in *. simpl. by rewrite IH. Qed.

Lemma slen_pad_start n c s : slen (pad_start n c s) = Nat.max n (slen s).
Proof. unfold pad_start. rewrite slen_app, slen_repeat. lia. Qed.

Lemma string_take_app_exact n s t : slen s = n -> string_take n (s +:+ t) = s.
Proof.
  intros <-. unfold string_take, slen. rewrite string_to_list_app, take_app_length.
  apply list_to_string_to_list.
Qed.

Lemma string_drop_app_exact s t n : slen s = n -> string_drop n (s +:+ t) = t.
Proof.
  intros <-. unfold string_drop, slen. by rewrite string_to_list_app, drop_app_length, list_to_string_to_list.
Qed.

Lemma slen_map f s : slen (string_map f s) = slen s.
Proof. unfold slen, string_map. by rewrite string_to_list_to_string, length_map. Qed.

Lemma char_code_nat c : char_code c = Z.of_nat (nat_of_ascii c).
Proof. unfold char_code, nat_of_ascii. by rewrite N_nat_Z. Qed.

Lemma starts_with_head c d s : starts_with (String c "") (String d s) = true <-> c = d.
Proof. unfold starts_with. simpl. destruct (ascii_dec c d) as [->|]; simpl; [by destruct s|]. done. Qed.

Lemma starts_with_append p s : starts_with p (p +:+ s) = true.
Proof.
  unfold starts_with. induction p as [|c p IH]; simpl; [by destruct s|].
  by destruct (ascii_dec c c).
Qed.

Lemma string_app_assoc (s t u : string) : s +:+ (t +:+ u) = (s +:+ t) +:+ u.
Proof. induction s as [|c s IH]; [done|]. rewrite !string_cons_app. by f_equal. Qed.

Lemma starts_with_drop p s : starts_with p s = true -> s = p +:+ string_drop (slen p) s.
Proof.
  unfold starts_with, string_drop, slen. revert s. induction p as [|c p IH]; intros s.
  - intros _. simpl. symmetry. apply list_to_string_to_list.
  - destruct s as [|d s]; [done|]. cbn [String.prefix string_to_list List.length].
    destruct (ascii_dec c d) as [<-|]; [|done]. intros H. rewrite string_cons_app, skipn_cons. f_equal. by apply IH.
Qed.

Lemma split_on_none sep s :
  string_forall (fun c => negb (bool_decide (c = sep))) s = true -> split_on sep s = [s].
Proof.
  induction s as [|c s IH]; simpl; [done|]. unfold string_forall. simpl.
  rewrite andb_true_iff. intros [Hc Hs]. rewrite IH by done.
  case_bool_decide; [done|]. done.
Qed.

Lemma split_on_app sep s t :
  string_forall (fun c => negb (bool_decide (c = sep))) s = true ->
  split_on sep (s +:+ String sep t) = s :: split_on sep t.
Proof.
  induction s as [|c s IH]; simpl.
  - intros _. rewrite bool_decide_true by done. destruct (split_on sep t) eqn:E; [|done].
    destruct t; simpl in E; [done|]. by destruct (split_on sep t); [|case_bool_decide].
  - unfold string_forall. simpl. rewrite andb_true_iff. intros [Hc Hs].
    rewrite IH by done. by case_bool_decide.
Qed.

(** Entries that are the only ones of their key. *)
Lemma NoDup_map_eq {A B} (f : A -> B) l x y : NoDup (List.map f l) -> In x l -> In y l -> f x = f y -> x = y.
Proof.
  induction l as [|a l IH]; [done|]. cbn. rewrite NoDup_cons. intros [Ha Hnd] [->|Hx] [->|Hy] E; auto.
  - destruct Ha. rewrite E. by apply list_elem_of_In, in_map.
  - destruct Ha. rewrite <- E. by apply list_elem_of_In, in_map.
Qed.

Lemma filter_filter {A} (P Q : A -> bool) l : List.filter P (List.filter Q l) = List.filter (fun r => Q r && P r) l.
Proof. induction l as [|r l IH]; [done|]. cbn. destruct (Q r); cbn; [destruct (P r)|]; by rewrite IH. Qed.

(** Two filters that both let through what [P] lets through. *)
Lemma filter_within {A} (P N1 N2 : A -> bool) l1 l2 :
  (forall r, P r = true -> N1 r = true /\ N2 r = true) -> List.filter N1 l1 = List.filter N2 l2 -> List.filter P l1 = List.filter P l2.
Proof.
  intros HP HN. assert (Hcut : forall N l, (forall r, P r = true -> N r = true) -> List.filter P l = List.filter P (List.filter N l)).
  { intros N l HN'. rewrite filter_filter. apply List.filter_ext. intros r. destruct (P r) eqn:E; [by rewrite (HN' r E)|by rewrite andb_false_r]. }
  rewrite (Hcut N1 l1), (Hcut N2 l2); [by rewrite HN|intros r Hr; by apply HP..].
Qed.

(** The row a unique column picks out. *)
Lemma head_filter_unique {A} (f : A -> string) l x s :
  NoDup (List.map f l) -> In x l -> f x = s -> hd_error (List.filter (fun y => bool_decide (f y = s)) l) = Some x.
Proof.
  intros Hnd Hin <-. assert (Hf : In x (List.filter (fun y => bool_decide (f y = f x)) l))
    by (apply List.filter_In; split; [done|by apply bool_decide_eq_true]).
  destruct (List.filter _ _) as [|y l'] eqn:E; [done|]. assert (In y (y :: l')) as Hy by (by left).
  rewrite <- E in Hy. apply List.filter_In in Hy as [Hy Hfy]. apply bool_decide_eq_true in Hfy.
  cbn. f_equal. by apply (NoDup_map_eq f l).
Qed.

(** [s] does not hold the separator. *)
Definition lacks (sep : ascii) (s : string) : Prop := string_forall (fun c => negb (bool_decide (c = sep))) s = true.

(** [split] undoes [join] on parts without the separator. *)
Lemma split_join sep l : l <> [] -> Forall (lacks sep) l -> split_on sep (join (String sep "") l) = l.
Proof.
  intros Hne Hl. induction Hl as [|s l Hs Hl IH]; [done|]. destruct l as [|s' l]; [by apply split_on_none|].
  change (join (String sep "") (s :: s' :: l)) with (s +:+ String sep (join (String sep "") (s' :: l))).
  rewrite split_on_app by done. f_equal. by apply IH.
Qed.

Lemma split_lacks sep s : Forall (lacks sep) (split_on sep s).
Proof.
  induction s as [|c s IH]; simpl; [by repeat constructor|].
  destruct (split_on sep s) as [|p ps]; [by repeat constructor|]. inversion IH as [|? ? Hp Hps]; subst.
  case_bool_decide as E; constructor; try done. unfold lacks, string_forall in *. simpl.
  by rewrite bool_decide_false.
Qed.

(** The last separator of a text is where a part without separators begins. *)
Lemma last_separator sep s t x y :
  lacks sep x -> lacks sep y -> s +:+ String sep x = t +:+ String sep y -> s = t /\ x = y.
Proof.
  assert (Hin : forall u z, lacks sep z -> z <> u +:+ String sep y).
  { intros u z Hz ->. unfold lacks, string_forall in Hz. rewrite string_to_list_app in Hz. simpl in Hz.
    rewrite forallb_app in Hz. simpl in Hz. rewrite bool_decide_true in Hz by done. by rewrite andb_false_r in Hz. }
  intros Hx Hy. revert t. induction s as [|c s IH]; intros [|d t]; rewrite ?string_cons_app.
  - intros [= ->]. done.
  - intros [= <- E]. by apply Hin in E.
  - intros [= -> E]. exfalso. clear IH Hin Hx. revert Hy. rewrite <- E. unfold lacks, string_forall.
    rewrite string_to_list_app, forallb_app. simpl. rewrite bool_decide_true by done. by rewrite andb_false_r.
  - intros [= <- E]. destruct (IH t E) as [-> ->]. done.
Qed.

Lemma string_forall_app p s t : string_forall p (s +:+ t) = string_forall p s && string_forall p t.
Proof. unfold string_forall. by rewrite string_to_list_app, forallb_app. Qed.

Lemma string_forall_impl (p q : ascii -> bool) s :
  (forall c, p c = true -> q c = true) -> string_forall p s = true -> string_forall q s = true.
Proof.
  unfold string_forall. intros Hpq. induction (string_to_list s) as [|c l IH]; simpl; [done|].
  rewrite !andb_true_iff. naive_solver.
Qed.

Lemma ascii_cases (P : ascii -> Prop) :
  (forall n, (n < 256)%nat -> P (ascii_of_nat n)) -> forall c, P c.
Proof.
  intros H c. rewrite <- (ascii_nat_embedding c). apply H. apply nat_ascii_bounded.
Qed.

(** ** Printing and parsing of integers *)
Lemma pretty_char_digit (x : N) :
  (x < 10)%N ->
  is_digit (pretty_N_char x) = true /\ hex_value (pretty_N_char x) = Some (Z.of_N x).
Proof.
  intros Hx.
  assert (x = 0 \/ x = 1 \/ x = 2 \/ x = 3 \/ x = 4 \/ x = 5 \/ x = 6 \/ x = 7 \/ x = 8 \/ x = 9)%N
    as Hcases by lia.
  repeat destruct Hcases as [->|Hcases]; [done..|]. by subst.
Qed.

Lemma read_pretty_go (x : N) s :
  read_digits 10 hex_value 0 (pretty_N_go x s) = read_digits 10 hex_value (Z.of_N x) s.
Proof.
  revert s. induction (N.lt_wf_0 x) as [x _ IH]. intros s.
  destruct (decide (x = 0%N)) as [->|Hx]; [by rewrite pretty_N_go_0|].
  rewrite pretty_N_go_step by lia. rewrite IH by (apply N.div_lt; lia).
  cbn [read_digits].
  destruct (pretty_char_digit (x `mod` 10)%N) as [_ ->]; [apply N.mod_lt; lia|].
  assert (Hm : (x `mod` 10 < 10)%N) by (apply N.mod_lt; lia).
  destruct (Z.ltb_spec (Z.of_N (x `mod` 10)) 10) as [_|]; [|lia].
  f_equal. pose proof (N.div_mod x 10). lia.
Qed.

Lemma forall_pretty_go (x : N) s :
  string_forall is_digit s = true -> string_forall is_digit (pretty_N_go x s) = true.
Proof.
  revert s. induction (N.lt_wf_0 x) as [x _ IH]. intros s Hs.
  destruct (decide (x = 0%N)) as [->|Hx]; [by rewrite pretty_N_go_0|].
  rewrite pretty_N_go_step by lia. apply IH; [apply N.div_lt; lia|].
  unfold string_forall in *. simpl. rewrite Hs, andb_true_r.
  apply pretty_char_digit, N.mod_lt. lia.
Qed.

Lemma pretty_go_cons (x : N) c s : exists c' s', pretty_N_go x (String c s) = String c' s'.
Proof.
  revert c s. induction (N.lt_wf_0 x) as [x _ IH]. intros c s.
  destruct (decide (x = 0%N)) as [->|Hx]; [rewrite pretty_N_go_0; by eauto|].
  rewrite pretty_N_go_step by lia. apply IH, N.div_lt; lia.
Qed.

Lemma Z_to_string_nonneg n :
  0 <= n ->
  Z_to_string n <> "" /\ string_forall is_digit (Z_to_string n) = true /\
  read_digits 10 hex_value 0 (Z_to_string n) = Some n.
Proof.
  intros Hn. destruct n as [|p|p]; [done| |lia].
  unfold Z_to_string, pretty, pretty_Z, pretty, pretty_positive, pretty, pretty_N.
  destruct (decide (N.pos p = 0%N)) as [|Hp]; [done|].
  split; [|split].
  - rewrite pretty_N_go_step by lia.
    destruct (pretty_go_cons (N.pos p `div` 10) (pretty_N_char (N.pos p `mod` 10)) "")
      as (c & s & ->). done.
  - by apply forall_pretty_go.
  - by rewrite read_pretty_go.
Qed.

Lemma digit_not_space c : is_digit c = true -> is_space c = false.
Proof. unfold is_digit, is_space. intros H. apply andb_true_iff in H as [H1%Z.leb_le H2%Z.leb_le].
  destruct (Z.eqb_spec (char_code c) 32), (Z.leb_spec 9 (char_code c)),
    (Z.leb_spec (char_code c) 13); simpl; auto; lia.
Qed.

Lemma trim_left_digits s : string_forall is_digit s = true -> trim_left s = s.
Proof.
  destruct s as [|c s]; [done|]. unfold string_forall. simpl. rewrite andb_true_iff.
  intros [Hc _]. by rewrite digit_not_space.
Qed.

Lemma string_forall_rev p s : string_forall p (string_rev s) = string_forall p s.
Proof.
  unfold string_forall, string_rev. rewrite string_to_list_to_string.
  induction (string_to_list s) as [|c l IH]; simpl; [done|].
  rewrite forallb_app. simpl. rewrite IH, andb_true_r. apply andb_comm.
Qed.

Lemma string_rev_involutive s : string_rev (string_rev s) = s.
Proof. unfold string_rev. by rewrite string_to_list_to_string, rev_involutive, list_to_string_to_list. Qed.

Lemma trim_digits s : string_forall is_digit s = true -> trim s = s.
Proof.
  intros Hs. unfold trim. rewrite (trim_left_digits s) by done.
  rewrite trim_left_digits by (by rewrite string_forall_rev). apply string_rev_involutive.
Qed.

Lemma digit_char c : is_digit c = true -> c <> "-"%char /\ c <> "+"%char /\ c <> "x"%char /\
  c <> "X"%char /\ c <> "o"%char /\ c <> "O"%char /\ c <> "b"%char /\ c <> "B"%char /\ c <> "."%char.
Proof. intros H. repeat split; intros ->; vm_compute in H; discriminate H. Qed.

Lemma prefix2_digits a b s :
  string_forall is_digit s = true -> is_digit b = false ->
  starts_with (String a (String b "")) s = false.
Proof.
  intros Hs Hb. unfold starts_with, string_forall in *.
  destruct s as [|c [|d s]]; simpl in *.
  - done.
  - by destruct (ascii_dec a c).
  - destruct (ascii_dec a c); [|done]. destruct (ascii_dec b d) as [->|]; [|done].
    rewrite Hb in Hs. by destruct (is_digit c).
Qed.

(** [BigInt] reads a non-empty string of decimal digits as the number it denotes. *)
Lemma BigInt_digits s n :
  s <> "" -> string_forall is_digit s = true -> read_digits 10 hex_value 0 s = Some n ->
  BigInt s = Ok n.
Proof.
  intros Hne Hs Hr. unfold BigInt, parse_bigint. rewrite trim_digits by done.
  destruct s as [|c s]; [done|].
  rewrite !prefix2_digits by done. simpl orb.
  assert (Hc : is_digit c = true) by (unfold string_forall in Hs; simpl in Hs; by apply andb_true_iff in Hs as [? _]).
  destruct (digit_char c Hc) as (H1 & H2 & _).
  rewrite !bool_decide_false by done. unfold digits. rewrite bool_decide_false by done.
  by rewrite Hr.
Qed.

(** [BigInt(n.toString())] is [n]. *)
Lemma BigInt_Z_to_string n : 0 <= n -> BigInt (Z_to_string n) = Ok n.
Proof. intros Hn. destruct (Z_to_string_nonneg n Hn) as (? & ? & ?). by apply BigInt_digits. Qed.

(** A decimal without leading zeros has as many digits as its value needs. *)
Lemma pretty_go_length (x : N) s k :
  (x < 10 ^ N.of_nat k)%N -> (slen (pretty_N_go x s) <= k + slen s)%nat.
Proof.
  revert s k. induction (N.lt_wf_0 x) as [x _ IH]. intros s k Hk.
  destruct (decide (x = 0%N)) as [->|Hx]; [rewrite pretty_N_go_0; lia|].
  rewrite pretty_N_go_step by lia.
  destruct k as [|k]; [simpl in Hk; lia|].
  assert (Hdiv : (x `div` 10 < 10 ^ N.of_nat k)%N).
  { apply N.Div0.div_lt_upper_bound. rewrite Nat2N.inj_succ, N.pow_succ_r' in Hk. lia. }
  specialize (IH (x `div` 10)%N ltac:(apply N.div_lt; lia)
                 (String (pretty_N_char (x `mod` 10)) s) k Hdiv).
  unfold slen in *. simpl in IH. lia.
Qed.

Lemma Z_to_string_length n k :
  (0 < k)%nat -> 0 <= n < 10 ^ Z.of_nat k -> (slen (Z_to_string n) <= k)%nat.
Proof.
  intros Hk [Hn Hlt]. destruct n as [|p|p]; [cbv; lia| |lia].
  unfold Z_to_string, pretty, pretty_Z, pretty, pretty_positive, pretty, pretty_N.
  destruct (decide (N.pos p = 0%N)); [cbv; lia|].
  assert (N.pos p < 10 ^ N.of_nat k)%N as Hp.
  { apply N2Z.inj_lt. rewrite N2Z.inj_pow, nat_N_Z. done. }
  pose proof (pretty_go_length (N.pos p) "" k Hp) as Hl.
  replace (slen "") with 0%nat in Hl by done. lia.
Qed.

Lemma read_zeros n s : read_digits 10 hex_value 0 (repeat_char "0" n +:+ s) = read_digits 10 hex_value 0 s.
Proof. induction n as [|n IH]; [done|]. simpl repeat_char. rewrite string_cons_app. exact IH. Qed.

Lemma forall_repeat p c n : p c = true -> string_forall p (repeat_char c n) = true.
Proof. intros Hc. unfold string_forall. induction n as [|n IH]; [done|]. simpl. by rewrite Hc, IH. Qed.

Lemma no_minus_head w t :
  w <> "" -> string_forall is_digit w = true -> starts_with "-" (w +:+ t) = false.
Proof.
  destruct w as [|c w]; [done|]. intros _ Hw. rewrite string_cons_app.
  apply not_true_is_false. intros <-%starts_with_head. by vm_compute in Hw.
Qed.

(** ** Lists *)
Lemma map_if_filter_nil {A} (q : A -> bool) (f : A -> A) l :
  List.filter q l = [] -> List.map (fun r => if q r then f r else r) l = l.
Proof.
  induction l as [|a l IH]; simpl; [done|]. destruct (q a); [done|]. intros E. by rewrite IH.
Qed.

Lemma head_filter_In {A} (q : A -> bool) l a :
  hd_error (List.filter q l) = Some a -> In a l /\ q a = true.
Proof.
  intros Ha. apply filter_In. destruct (List.filter q l); [done|]. injection Ha as ->. by left.
Qed.

Lemma filter_true {A} (l : list A) : List.filter (fun _ => true) l = l.
Proof. induction l as [|a l IH]; simpl; [done|by rewrite IH]. Qed.

Lemma map_insert_same {A B} (f : A -> B) l i a a' : l !! i = Some a -> f a' = f a -> List.map f (<[i := a']> l) = List.map f l.
Proof.
  revert i. induction l as [|b l IH]; intros [|i] Hi E; try done; cbn in *; [injection Hi as ->; by rewrite E|].
  f_equal. by apply IH.
Qed.

(** Where an element of a list with one more at its end is. *)
Lemma snoc_split {A} (log : list A) x l1 e l2 :
  log ++ [x] = l1 ++ e :: l2 -> (l2 = [] /\ log = l1 /\ x = e) \/ exists l2', log = l1 ++ e :: l2'.
Proof.
  intros E. destruct l2 as [|y l2 _] using rev_ind.
  - left. apply app_inj_tail in E as [-> ->]. done.
  - right. exists l2. change (l1 ++ e :: l2 ++ [y]) with (l1 ++ (e :: l2) ++ [y]) in E.
    rewrite app_assoc in E. by apply app_inj_tail in E as [-> _].
Qed.

(** The sum of a figure over a list, and a loop that adds up figures it may fail to read. *)
Definition sum_of {A} (f : A -> Z) (l : list A) : Z := foldr (fun a acc => f a + acc) 0 l.

Lemma sum_of_cons {A} (f : A -> Z) a l : sum_of f (a :: l) = f a + sum_of f l.
Proof. done. Qed.

Lemma sum_of_app {A} (f : A -> Z) l l' : sum_of f (l ++ l') = sum_of f l + sum_of f l'.
Proof. induction l as [|a l IH]; [done|]. simpl app. rewrite !sum_of_cons. lia. Qed.

Definition value_or_0 (r : outcome Z) : Z := match r with Ok z => z | Err _ => 0 end.

Lemma ofold_sum {A} (f : A -> outcome Z) (g : A -> Z -> Z) l s :
  match ofold (fun sum a => u <-? f a ;; Ok (sum + g a u)) s l with
  | Ok z => Forall (fun a => is_ok (f a)) l /\ z = s + sum_of (fun a => g a (value_or_0 (f a))) l
  | Err _ => ~ Forall (fun a => is_ok (f a)) l
  end.
Proof.
  revert s. induction l as [|a l IH]; intros s; [split; [done|]; change (sum_of _ []) with 0; symmetry; apply Z.add_0_r|].
  cbn [ofold]. destruct (f a) as [u|x] eqn:Ef; cbn [obind].
  - specialize (IH (s + g a u)). destruct (ofold _ _ l).
    + destruct IH as [Hl ->]. split; [constructor; [by rewrite Ef|done]|]. rewrite sum_of_cons, Ef. cbn [value_or_0]. lia.
    + intros Hal. inversion Hal. by apply IH.
  - intros Hal. inversion Hal as [|? ? Hx]; subst. by rewrite Ef in Hx.
Qed.

(** [===] on strings, and SQL's [=]. *)
Definition eqs (s s' : string) : bool := bool_decide (s = s').

Lemma eqs_sym s s' : eqs s s' = eqs s' s.
Proof. by apply bool_decide_ext. Qed.

(** ** The environment variables *)
Definition ProcessEnv : Type := string -> option string.

(** [env[key]] where an empty value counts as unset. *)
Definition setting (env : ProcessEnv) (key : string) : option string :=
  match env key with Some "" => None | v => v end.

(** A text in double quotes, as messages have it. *)
Definition quoted (s : string) : string := String "034" (s +:+ String "034" "").

(** [replace(/\/+$/, "")]. *)
Fixpoint without_slashes (s : string) : string :=
  match s with
  | EmptyString => ""
  | String c s' =>
      match without_slashes s' with
      | EmptyString => if bool_decide (c = "/"%char) then "" else String c ""
      | rest => String c rest
      end
  end.

(** [new Set([...xs])] as an array: first occurrences in order. *)
Fixpoint dedup (seen xs : list string) : list string :=
  match xs with
  | [] => []
  | x :: xs' => if existsb (fun y => bool_decide (x = y)) seen then dedup seen xs' else x :: dedup (x :: seen) xs'
  end.

Lemma dedup_In seen xs x : In x (dedup seen xs) <-> In x xs /\ ~ In x seen.
Proof.
  revert seen. induction xs as [|y xs IH]; intros seen; cbn; [tauto|].
  destruct (existsb (fun z => bool_decide (y = z)) seen) eqn:E.
  - apply existsb_exists in E as (z & Hz & ->%bool_decide_eq_true). rewrite IH. split; [tauto|]. intros [[->|H] Hn]; [done|tauto].
  - assert (Hy : ~ In y seen).
    { intros Hy. apply not_true_iff_false in E. apply E, existsb_exists. exists y. split; [done|]. by apply bool_decide_eq_true. }
    cbn. rewrite IH. cbn. destruct (decide (y = x)) as [->|]; tauto.
Qed.

Lemma dedup_NoDup seen xs : NoDup (dedup seen xs).
Proof.
  revert seen. induction xs as [|y xs IH]; intros seen; cbn; [constructor|]. destruct (existsb _ seen); [done|].
  constructor; [|done]. rewrite list_elem_of_In, dedup_In. cbn. tauto.
Qed.

(** ** [Number(text)], where only an integer is of use: the StringNumericLiteral grammar, and the
    nearest double, ties to even.  [None] is a fraction, an infinity or [NaN]. *)
Fixpoint span_digits (s : string) : string * string :=
  match s with
  | String c s' => if is_digit c then let '(d, rest) := span_digits s' in (String c d, rest) else ("", s)
  | EmptyString => ("", "")
  end.

(** [p / q] to the nearest double. *)
Definition integer_of_ratio (p q : Z) : option Z :=
  if p =? 0 then Some 0
  else
    let top := if p * 2 ^ Z.log2 q <? q * 2 ^ Z.log2 p then Z.log2 p - Z.log2 q - 1 else Z.log2 p - Z.log2 q in
    let k := Z.max (top - 52) (-1074) in
    let num := p * 2 ^ Z.max 0 (- k) in
    let den := q * 2 ^ Z.max 0 k in
    let n := num / den in
    let twice := 2 * (num mod den) in
    let n := if (den <? twice) || ((twice =? den) && Z.odd n) then n + 1 else n in
    if k <? 0 then if n mod 2 ^ (- k) =? 0 then Some (n / 2 ^ (- k)) else None
    else if n * 2 ^ k <? 2 ^ 1024 then Some (n * 2 ^ k) else None.

Definition exponent_part (s : string) : option Z :=
  match s with
  | EmptyString => Some 0
  | String c s' =>
      if bool_decide (c = "e"%char) || bool_decide (c = "E"%char)
      then match s' with
           | String "-" t => Z.opp <$> digits 10 t
           | String "+" t => digits 10 t
           | _ => digits 10 s'
           end
      else None
  end.

Definition decimal_literal (s : string) : option Z :=
  let '(whole, rest) := span_digits s in
  let '(frac, rest) := match rest with String "." t => span_digits t | _ => ("", rest) end in
  match digits 10 (whole +:+ frac), exponent_part rest with
  | Some m, Some e =>
      let e := e - Z.of_nat (slen frac) in integer_of_ratio (m * 10 ^ Z.max 0 e) (10 ^ Z.max 0 (- e))
  | _, _ => None
  end.

Definition prefixed (base : Z) (s : string) : option Z :=
  match digits base s with Some z => integer_of_ratio z 1 | None => None end.

Definition Number_of_text (s : string) : option Z :=
  match trim s with
  | EmptyString => Some 0
  | String c s' as t =>
      if starts_with "0x" t || starts_with "0X" t then prefixed 16 (string_drop 2 t)
      else if starts_with "0o" t || starts_with "0O" t then prefixed 8 (string_drop 2 t)
      else if starts_with "0b" t || starts_with "0B" t then prefixed 2 (string_drop 2 t)
      else if bool_decide (c = "-"%char) then Z.opp <$> decimal_literal s'
      else if bool_decide (c = "+"%char) then decimal_literal s'
      else decimal_literal t
  end.

(** ** JavaScript values as JSON columns and decoded contract values hold them. *)
Inductive jsval :=
| JNull
| JBool (b : bool)
| JNum (z : Z)
| JBig (z : Z)
| JStr (s : string)
| JArr (l : list jsval)
| JObj (l : list (string * jsval)).

(** Property lookup [v.k] / [v[k]]; [JNull] stands for [undefined] and [null]. *)
Fixpoint assoc {V} (k : string) (l : list (string * V)) : option V :=
  match l with
  | [] => None
  | (k', v) :: l' => if bool_decide (k = k') then Some v else assoc k l'
  end.

(** [v.k], [None] when it is [undefined]; reading a property of [null] throws. *)
Definition js_field (k : string) (v : jsval) : outcome (option jsval) :=
  match v with
  | JNull => Err (Exn "TypeError" ("Cannot read properties of null (reading '" +:+ k +:+ "')"))
  | JObj l => Ok (assoc k l)
  | _ => Ok None
  end.

(** An object whose [undefined] fields are left out, as JSON has it. *)
Definition js_object (fields : list (string * option jsval)) : jsval :=
  JObj (List.concat (List.map (fun kv => match snd kv with Some v => [(fst kv, v)] | None => [] end) fields)).

Definition js_get (k : string) (v : jsval) : jsval :=
  match v with JObj l => default JNull (assoc k l) | _ => JNull end.

Definition js_nth (n : nat) (v : jsval) : jsval :=
  match v with JArr l => default JNull (nth_error l n) | _ => JNull end.

(** [String(v)]. *)
Fixpoint String_of (v : jsval) : string :=
  match v with
  | JNull => "null"
  | JBool b => if b then "true" else "false"
  | JNum z | JBig z => Z_to_string z
  | JStr s => s
  | JArr l => join "," ((fix texts (l : list jsval) : list string :=
      match l with [] => [] | JNull :: l' => "" :: texts l' | v :: l' => String_of v :: texts l' end) l)
  | JObj _ => "[object Object]"
  end.
