(* ===== verification/Settings.v ===== *)
(** The settings the services read from the environment: the Stellar network
    ([packages/network-config/src/index.ts]), the source accounts of simulations and pokes
    ([packages/contract-clients/src/unsigned-tx.ts]) and the API's configuration
    ([services/api/src/config.ts]). *)
From S2P Require Import Prelude.

(** ** network-config/src/index.ts *)
Record NetworkConfig := Network {
  nc_network : string; nc_rpcUrl : string; nc_horizonUrl : string; nc_networkPassphrase : string;
  nc_contracts : list (string * option string) }.

Definition NETWORK_NAMES : list string := ["local"; "testnet"; "mainnet"].
Definition TESTNET_PASSPHRASE : string := "Test SDF Network ; September 2015".
Definition MAINNET_PASSPHRASE : string := "Public Global Stellar Network ; September 2015".
Definition PUBLIC_PASSPHRASES (network : string) : option string :=
  if eqs network "testnet" then Some TESTNET_PASSPHRASE
  else if eqs network "mainnet" then Some MAINNET_PASSPHRASE else None.
Definition REQUIRED : list string := ["STELLAR_RPC_URL"; "STELLAR_HORIZON_URL"; "STELLAR_NETWORK_PASSPHRASE"].

Definition loadNetworkConfig (env : ProcessEnv) : outcome NetworkConfig :=
  let missing := List.filter (fun key => match setting env key with None => true | Some _ => false end) REQUIRED in
  match missing with
  | _ :: _ => Err (Error ("network-config: missing required env vars: " +:+ join ", " missing))
  | [] =>
      let network := default "local" (setting env "STELLAR_NETWORK") in
      let passphrase := default "" (env "STELLAR_NETWORK_PASSPHRASE") in
      if negb (existsb (eqs network) NETWORK_NAMES) then
        Err (Error ("network-config: STELLAR_NETWORK " +:+ quoted network +:+ " is not one of " +:+ join ", " NETWORK_NAMES))
      else
        _ <-? match PUBLIC_PASSPHRASES network with
        | Some expected =>
            if eqs passphrase expected then Ok tt
            else Err (Error ("network-config: STELLAR_NETWORK=" +:+ network +:+ " but STELLAR_NETWORK_PASSPHRASE is " +:+
              quoted passphrase +:+ " (" +:+ network +:+ " uses " +:+ quoted expected +:+ ")"))
        | None =>
            if existsb (eqs passphrase) [TESTNET_PASSPHRASE; MAINNET_PASSPHRASE]
            then Err (Error ("network-config: STELLAR_NETWORK=local but STELLAR_NETWORK_PASSPHRASE is a public network's (" +:+
              quoted passphrase +:+ ")"))
            else Ok tt
        end ;;
        Ok (Network network (default "" (env "STELLAR_RPC_URL")) (default "" (env "STELLAR_HORIZON_URL")) passphrase
          (List.map (fun kv => (fst kv, setting env (snd kv)))
            [("registry", "REGISTRY_CONTRACT_ID"); ("priceGuard", "PRICE_GUARD_CONTRACT_ID");
             ("pledgeVault", "PLEDGE_VAULT_CONTRACT_ID"); ("creditLine", "CREDIT_LINE_CONTRACT_ID");
             ("exitDesk", "EXIT_DESK_CONTRACT_ID"); ("repoDvp", "REPO_DVP_CONTRACT_ID");
             ("usdcSac", "USDC_SAC_CONTRACT_ID")]))
  end.

Definition requireContractId (config : NetworkConfig) (key : string) : outcome string :=
  match assoc key (nc_contracts config) with
  | Some (Some id) => Ok id
  | _ => Err (Error ("network-config: contract id for " +:+ quoted key +:+ " is not set (deploy it first)"))
  end.

(** ** unsigned-tx.ts: the source account of a simulation, and of a poke *)
Definition resolveSimulationSource (env : ProcessEnv) : outcome string :=
  match setting env "STELLAR_SIMULATION_SOURCE" with
  | Some source => Ok source
  | None => Err (Error ("contract-clients: STELLAR_SIMULATION_SOURCE env var is not set (required for read-only " +:+
      "contract simulation — point it at any existing account on the target network)"))
  end.

Definition resolvePokeSource (env : ProcessEnv) : outcome string :=
  match match env "STELLAR_POKE_SOURCE" with None => env "STELLAR_SIMULATION_SOURCE" | v => v end with
  | None | Some "" => Err (Error ("contract-clients: STELLAR_POKE_SOURCE (or STELLAR_SIMULATION_SOURCE) env var is not set " +:+
      "(required to build the unsigned poke tx's fee-paying source account)"))
  | Some source => Ok source
  end.

(** ** services/api/src/config.ts *)
(** [trustProxy]: [false], [true], a number of hops, or a list of addresses. *)
Inductive TrustProxy := TrustNone | TrustAll | TrustHops (hops : Z) | TrustList (addresses : string).

(** [port] is [None] when it is no number ([NaN]). *)
Record ApiConfig := Config {
  port : option Z; jwtSigningSecret : string; sep10ServerSecret : string; sep10HomeDomain : string; sep10WebAuthDomain : string;
  networkPassphrase : string; webhookSecretKey : string; apiKeySecretKey : string; complianceEnforced : bool;
  trustProxy : TrustProxy; consoleOrigin : string }.

Definition PRODUCTION_REQUIRED : list string :=
  ["SEP10_SERVER_SECRET"; "JWT_SIGNING_SECRET"; "WEBHOOK_SECRET_KEY"; "API_KEY_SECRET_KEY"; "CONSOLE_ORIGIN"].
Definition SECRETS : list string := ["SEP10_SERVER_SECRET"; "JWT_SIGNING_SECRET"; "WEBHOOK_SECRET_KEY"; "API_KEY_SECRET_KEY"].
Definition HEX_KEYS : list string := ["WEBHOOK_SECRET_KEY"; "API_KEY_SECRET_KEY"].

(** [/^[0-9a-fA-F]{64}$/], as in secretBox.ts. *)
Definition is_hex (c : ascii) : bool :=
  is_digit c || ((97 <=? char_code c) && (char_code c <=? 102)) || ((65 <=? char_code c) && (char_code c <=? 70)).
Definition KEY_HEX (keyHex : string) : bool := (slen keyHex =? 64)%nat && string_forall is_hex keyHex.

Definition non_empty (s : string) : option string := match s with EmptyString => None | s => Some s end.

(** Reading a file is Node's. *)
Definition readSecret (readFile : string -> outcome string) (name : string) (env : ProcessEnv) : outcome (option string) :=
  match setting env name with
  | Some value => Ok (Some value)
  | None =>
      match setting env (name +:+ "_FILE") with
      | None => Ok None
      | Some file =>
          match readFile file with
          | Ok contents => Ok (non_empty (trim contents))
          | Err err => Err (Error ("services/api: cannot read " +:+ name +:+ "_FILE (" +:+ file +:+ "): " +:+ exn_message err))
          end
      end
  end.

(** The warning about a gate switched off in production is left out. *)
Definition parseComplianceEnforced (value nodeEnv : option string) : outcome bool :=
  let v := toLowerCase (trim (default "" value)) in
  if eqs v "" then Ok (bool_decide (nodeEnv = Some "production"))
  else if eqs v "true" || eqs v "1" then Ok true
  else if eqs v "false" || eqs v "0" then Ok false
  else Err (Error ("services/api: invalid COMPLIANCE_ENFORCED value '" +:+ default "undefined" value +:+
    "'. Expected boolean (true/false, 1/0) or leave unset for environment default")).

Definition parseTrustProxy (value : option string) : TrustProxy :=
  let v := trim (default "" value) in
  if eqs v "" || eqs v "false" then TrustNone
  else if eqs v "true" then TrustAll
  else if string_forall is_digit v then TrustHops (default 0 (Number_of_text v))
  else TrustList v.

(** [env[name] = value] for each secret found. *)
Definition with_secret (readFile : string -> outcome string) (rawEnv : ProcessEnv) (env : ProcessEnv) (name : string) : outcome ProcessEnv :=
  value <-? readSecret readFile name rawEnv ;;
  Ok match value with Some value => fun key => if eqs key name then Some value else env key | None => env end.

Fixpoint with_secrets (readFile : string -> outcome string) (rawEnv env : ProcessEnv) (names : list string) : outcome ProcessEnv :=
  match names with
  | [] => Ok env
  | name :: names => env <-? with_secret readFile rawEnv env name ;; with_secrets readFile rawEnv env names
  end.

Definition is_production (env : ProcessEnv) : bool := bool_decide (env "NODE_ENV" = Some "production").

(** The first of the keys that is set and no 64 hexadecimal digits. *)
Definition check_key (env : ProcessEnv) (name : string) : outcome unit :=
  match setting env name with
  | Some key => if KEY_HEX key then Ok tt else Err (Error ("services/api: " +:+ name +:+ " must be 32 bytes as 64 hex characters"))
  | None => Ok tt
  end.

Definition loadApiConfig (readFile : string -> outcome string) (rawEnv : ProcessEnv) : outcome ApiConfig :=
  env <-? with_secrets readFile rawEnv rawEnv SECRETS ;;
  _ <-? (if is_production env
         then match List.filter (fun key => match setting env key with None => true | Some _ => false end) PRODUCTION_REQUIRED with
              | [] => Ok tt
              | missing => Err (Error ("services/api: missing required env vars in production: " +:+ join ", " missing))
              end
         else Ok tt) ;;
  _ <-? check_key env "WEBHOOK_SECRET_KEY" ;;
  _ <-? check_key env "API_KEY_SECRET_KEY" ;;
  network <-? loadNetworkConfig env ;;
  enforced <-? parseComplianceEnforced (env "COMPLIANCE_ENFORCED") (env "NODE_ENV") ;;
  Ok {| port := match setting env "API_PORT" with Some p => Number_of_text p | None => Some 3000 end;
        jwtSigningSecret := default "" (env "JWT_SIGNING_SECRET");
        sep10ServerSecret := default "" (env "SEP10_SERVER_SECRET");
        sep10HomeDomain := default "localhost" (env "SEP10_HOME_DOMAIN");
        sep10WebAuthDomain := default (default "localhost" (env "SEP10_HOME_DOMAIN")) (env "SEP10_WEB_AUTH_DOMAIN");
        networkPassphrase := nc_networkPassphrase network;
        webhookSecretKey := default "" (env "WEBHOOK_SECRET_KEY");
        apiKeySecretKey := default "" (env "API_KEY_SECRET_KEY");
        trustProxy := parseTrustProxy (env "TRUST_PROXY");
        complianceEnforced := enforced;
        consoleOrigin := default "http://localhost:5173" (env "CONSOLE_ORIGIN") |}.

(** ** What the configuration promises *)
Lemma with_secret_other readFile rawEnv env name env' key :
  with_secret readFile rawEnv env name = Ok env' -> key <> name -> env' key = env key.
Proof.
  unfold with_secret. destruct (readSecret readFile name rawEnv) as [[v|]|x]; cbn; intros [= <-] Hk; [|done].
  unfold eqs. by rewrite bool_decide_false.
Qed.

Lemma with_secrets_other readFile rawEnv names env env' key :
  with_secrets readFile rawEnv env names = Ok env' -> ~ In key names -> env' key = env key.
Proof.
  revert env. induction names as [|name names IH]; intros env; cbn; [by intros [= ->]|].
  destruct (with_secret readFile rawEnv env name) as [env1|x] eqn:E; cbn; [|done]. intros H Hk.
  rewrite (IH env1 H) by tauto. eapply with_secret_other; [done|]. intros ->. tauto.
Qed.

Lemma missing_none env keys : List.filter (fun key => match setting env key with None => true | Some _ => false end) keys = [] ->
  forall key, In key keys -> exists v, setting env key = Some v.
Proof.
  intros H key Hin. destruct (setting env key) as [v|] eqn:E; [by exists v|]. exfalso.
  assert (In key []) as []. rewrite <- H. apply List.filter_In. by rewrite E.
Qed.

Lemma setting_default env key v : setting env key = Some v -> env key = Some v /\ v <> "".
Proof. unfold setting. destruct (env key) as [[|c s]|]; [done| |done]. by intros [= <-]. Qed.

(** A process in production starts with real secrets, keys that are keys, a console origin of its own,
    and its compliance gate on unless it was switched off by name. *)
Theorem production_is_configured readFile (env : ProcessEnv) (config : ApiConfig) :
  env "NODE_ENV" = Some "production" -> loadApiConfig readFile env = Ok config ->
  sep10ServerSecret config <> "" /\ jwtSigningSecret config <> "" /\ consoleOrigin config <> "" /\
  KEY_HEX (webhookSecretKey config) = true /\ KEY_HEX (apiKeySecretKey config) = true /\
  (complianceEnforced config = true \/ exists v, env "COMPLIANCE_ENFORCED" = Some v /\ In (toLowerCase (trim v)) ["false"; "0"]).
Proof.
  intros Hprod. unfold loadApiConfig. destruct (with_secrets readFile env env SECRETS) as [env'|x] eqn:Es; cbn [obind]; [|done].
  assert (Hother : forall key, ~ In key SECRETS -> env' key = env key) by (intros; by eapply with_secrets_other).
  unfold is_production. rewrite (Hother "NODE_ENV"), Hprod, bool_decide_true by (done || (cbn; intuition congruence)).
  destruct (List.filter _ PRODUCTION_REQUIRED) eqn:Em; [|done]. cbn [obind].
  assert (Hset : forall key, In key PRODUCTION_REQUIRED -> exists v, env' key = Some v /\ v <> "").
  { intros key Hin. destruct (missing_none env' PRODUCTION_REQUIRED Em key Hin) as [v Hv]. exists v. by apply setting_default. }
  assert (Hkey : forall name v, env' name = Some v -> v <> "" -> check_key env' name = Ok tt -> KEY_HEX v = true).
  { intros name v E Hv. unfold check_key, setting. rewrite E. destruct v as [|c v]; [done|]. by destruct (KEY_HEX _). }
  destruct (Hset "SEP10_SERVER_SECRET") as (v1 & E1 & N1); [cbn; tauto|]. destruct (Hset "JWT_SIGNING_SECRET") as (v2 & E2 & N2); [cbn; tauto|].
  destruct (Hset "WEBHOOK_SECRET_KEY") as (v3 & E3 & N3); [cbn; tauto|]. destruct (Hset "API_KEY_SECRET_KEY") as (v4 & E4 & N4); [cbn; tauto|].
  destruct (Hset "CONSOLE_ORIGIN") as (v5 & E5 & N5); [cbn; tauto|].
  destruct (check_key env' "WEBHOOK_SECRET_KEY") as [[]|x] eqn:Ek1; [|done]. cbn [obind].
  destruct (check_key env' "API_KEY_SECRET_KEY") as [[]|x] eqn:Ek2; [|done]. cbn [obind].
  destruct (loadNetworkConfig env') as [network|x]; [|done]. cbn [obind].
  destruct (parseComplianceEnforced (env' "COMPLIANCE_ENFORCED") _) as [enforced|x] eqn:Ec; [|done]. cbn [obind].
  intros [= <-]. cbn. rewrite E1, E2, E3, E4, E5. cbn. split_and!; eauto.
  rewrite (Hother "COMPLIANCE_ENFORCED") in Ec by (cbn; intuition congruence). revert Ec. unfold parseComplianceEnforced.
  rewrite bool_decide_true by done. destruct (env "COMPLIANCE_ENFORCED") as [v|]; cbn [default]; [|intros [= <-]; by left].
  cbv zeta. destruct (eqs _ ""); [intros [= <-]; by left|]. destruct (_ || _); [intros [= <-]; by left|].
  destruct (eqs _ "false" || _) eqn:Eo; [|done]. intros [= <-]. right. exists v. split; [done|].
  apply orb_true_iff in Eo as [E|E]; apply bool_decide_eq_true in E; change (id v) with v in E; rewrite E; cbn; tauto.
Qed.
