(* ===== verification/Floats.v ===== *)
(** The numbers JavaScript computes with where the source leaves [bigint]: IEEE 754 doubles, as the
    Standard Library specifies them.
    Then [Number(text)] of any text, [toFixed], and what the console writes with them
    ([apps/console/src/lib/format.ts], [pages/Markets.tsx]). *)
From Stdlib Require Import SpecFloat.
From S2P Require Import Prelude.

Notation double := spec_float.
Definition add : double -> double -> double := SFadd 53 1024.
Definition sub : double -> double -> double := SFsub 53 1024.
Definition mul : double -> double -> double := SFmul 53 1024.
Definition div : double -> double -> double := SFdiv 53 1024.
Definition isFinite (x : double) : bool := match x with S754_zero _ | S754_finite _ _ _ => true | _ => false end.

(** The double nearest to [m / 10^k]. *)
Definition nearest (negative : bool) (m : Z) (k : nat) : double :=
  match m, 10 ^ Z.of_nat k with
  | Z.pos m, Z.pos p => div (S754_finite negative m 0) (S754_finite false p 0)
  | _, _ => S754_zero negative
  end.

(** [Number] on the text of a decimal column: digits, a fraction perhaps, and a sign perhaps.  Other
    texts give [NaN]. *)
Definition digits_value (s : string) : option Z :=
  if negb (bool_decide (s = "")) && string_forall is_digit s
  then Some (foldl (fun n c => 10 * n + (char_code c - 48)) 0 (string_to_list s)) else None.
Definition unsigned (negative : bool) (s : string) : double :=
  match split_on "." s with
  | [whole] => match digits_value whole with Some m => nearest negative m 0 | None => S754_nan end
  | [whole; fraction] =>
      match digits_value whole, digits_value (whole +:+ fraction) with
      | Some _, Some m => nearest negative m (slen fraction)
      | _, _ => S754_nan
      end
  | _ => S754_nan
  end.
Definition Number (s : string) : double :=
  match s with
  | String "-" s => unsigned true s
  | s => unsigned false s
  end.

(** [Math.round]: the integer nearest, ties upwards; [None] on [NaN] and the infinities. *)
Definition Math_round (x : double) : option Z :=
  match x with
  | S754_zero _ => Some 0
  | S754_finite negative m e =>
      let n := if negative then Z.neg m else Z.pos m in
      Some (if 0 <=? e then n * 2 ^ e else (2 * n + 2 ^ (- e)) / 2 ^ (- e + 1))
  | _ => None
  end.

(** [Math.round(n / 1000)] of an integer of less than 53 bits is exact. *)
Definition round_thousandth (n : Z) : Z := (n + 500) / 1000.

Example number_examples :
  Number "1.5" = S754_finite false 6755399441055744 (-52) /\ Number "0" = S754_zero false /\ Number "x" = S754_nan /\
  Math_round (Number "2.5") = Some 3 /\ Math_round (Number "-2.5") = Some (-2) /\ Math_round (mul (Number "1.005") (Number "1000")) = Some 1005.
Proof. vm_compute. auto 10. Qed.

(** Rounding is within a half: the rounded value's distance to the double, doubled and scaled to the
    double's exponent, is at most one unit. *)
Lemma round_within_half negative m e z : Math_round (S754_finite negative m e) = Some z -> e < 0 ->
  let n := if negative then Z.neg m else Z.pos m in
  2 * n - 2 ^ (- e) < 2 * z * 2 ^ (- e) <= 2 * n + 2 ^ (- e).
Proof.
  cbn. intros [= <-] He. replace (0 <=? e) with false by lia. set (n := if negative then Z.neg m else Z.pos m).
  assert (Hp : 0 < 2 ^ (- e)) by (apply Z.pow_pos_nonneg; lia).
  rewrite Z.pow_add_r, Z.pow_1_r by lia. set (p := 2 ^ (- e)) in *.
  pose proof (Z.div_mod (2 * n + p) (p * 2) ltac:(lia)). pose proof (Z.mod_pos_bound (2 * n + p) (p * 2) ltac:(lia)). nia.
Qed.

(** * Numbers and their texts, as ECMAScript has them *)
(** ** [Number(text)] *)
Definition double_of (z : Z) : double := nearest (z <? 0) (Z.abs z) 0.

(** [m * 10^exponent] as the nearest double. *)
Definition scaled_double (negative : bool) (m exponent : Z) : double :=
  if 0 <=? exponent then nearest negative (m * 10 ^ exponent) 0 else nearest negative m (Z.to_nat (- exponent)).

(** [SignedInteger] after the [e] of a literal; no text is no exponent. *)
Definition exponent_of (s : string) : option Z :=
  match s with
  | String "-" s => option_map Z.opp (digits_value s)
  | String "+" s => digits_value s
  | s => digits_value s
  end.

(** [StrUnsignedDecimalLiteral]. *)
Definition unsigned_literal (negative : bool) (s : string) : double :=
  if eqs s "Infinity" then S754_infinity negative
  else
    let '(mantissa, exponent) :=
      match split_on "e" (toLowerCase s) with
      | [m] => (m, Some 0)
      | [m; x] => (m, exponent_of x)
      | _ => ("", None)
      end in
    match exponent with
    | None => S754_nan
    | Some x =>
        match split_on "." mantissa with
        | [whole] => match digits_value whole with Some m => scaled_double negative m x | None => S754_nan end
        | [whole; fraction] =>
            if eqs (whole +:+ fraction) "" then S754_nan
            else match digits_value (whole +:+ fraction) with
                 | Some m => scaled_double negative m (x - Z.of_nat (slen fraction))
                 | None => S754_nan
                 end
        | _ => S754_nan
        end
    end.

Definition prefixed_literal (base : Z) (s : string) : double :=
  match digits base (string_drop 2 s) with Some m => double_of m | None => S754_nan end.

Definition Number_of (text : string) : double :=
  let s := trim text in
  match s with
  | "" => S754_zero false
  | String "-" s => unsigned_literal true s
  | String "+" s => unsigned_literal false s
  | _ =>
      if starts_with "0x" (toLowerCase s) then prefixed_literal 16 s
      else if starts_with "0o" (toLowerCase s) then prefixed_literal 8 s
      else if starts_with "0b" (toLowerCase s) then prefixed_literal 2 s
      else unsigned_literal false s
  end.

Example Number_of_examples :
  List.map Math_round (List.map Number_of ["7"; " 24 "; "1e2"; "2.5E1"; ".5"; "5."; "0x10"; ""; "-3"]) =
    [Some 7; Some 24; Some 100; Some 25; Some 1; Some 5; Some 16; Some 0; Some (-3)] /\
  List.map Number_of ["."; "1 2"; "abc"; "1e"; "--1"; "Infinity"] =
    [S754_nan; S754_nan; S754_nan; S754_nan; S754_nan; S754_infinity false].
Proof. vm_compute. auto. Qed.

(** ** [toFixed] *)
(** The nearest multiple of [10^-places], the larger of two. *)
Definition fixed_units (m e : Z) (places : nat) : Z :=
  let p := 10 ^ Z.of_nat places in
  if 0 <=? e then m * 2 ^ e * p else (2 * m * p + 2 ^ (- e)) / 2 ^ (- e + 1).

Definition fixed_text (n : Z) (places : nat) : string :=
  let p := 10 ^ Z.of_nat places in
  Z_to_string (n / p) +:+ (if (places =? 0)%nat then "" else "." +:+ pad_start places "0" (Z_to_string (n mod p))).

(** The engine's text of a number too large for [toFixed] to write out. *)
Class NumberLib := { Number_toString : double -> string }.

Definition toFixed `{NumberLib} (x : double) (places : nat) : string :=
  match x with
  | S754_nan => "NaN"
  | S754_infinity negative => if negative then "-Infinity" else "Infinity"
  | S754_zero _ => fixed_text 0 places
  | S754_finite negative m e =>
      if 10 ^ 21 * 2 ^ Z.max 0 (- e) <=? Z.pos m * 2 ^ Z.max 0 e then Number_toString x
      else (if negative then "-" else "") +:+ fixed_text (fixed_units (Z.pos m) e places) places
  end.

(** The text stands for the multiple nearest to the number. *)
Lemma fixed_units_nearest m e places :
  let p := 10 ^ Z.of_nat places in let n := fixed_units m e places in
  if 0 <=? e then n = m * 2 ^ e * p else 2 * m * p - 2 ^ (- e) < 2 * n * 2 ^ (- e) <= 2 * m * p + 2 ^ (- e).
Proof.
  cbv zeta. unfold fixed_units. destruct (Z.leb_spec 0 e) as [|He]; [done|]. set (x := 2 * m * _).
  assert (Hp : 0 < 2 ^ (- e)) by (apply Z.pow_pos_nonneg; lia).
  rewrite Z.pow_add_r, Z.pow_1_r by lia. set (p := 2 ^ (- e)) in *.
  pose proof (Z.div_mod (x + p) (p * 2) ltac:(lia)). pose proof (Z.mod_pos_bound (x + p) (p * 2) ltac:(lia)). nia.
Qed.

(** ** What the console writes *)
(** [`${Number(t)}`] of a text [t] with one decimal: a last zero is not written. *)
Definition without_zero (t : string) : string := if ends_with ".0" t then string_take (slen t - 2) t else t.

(** [formatDuration]; a number of seconds is an integer, so finite. *)
Definition formatDuration `{NumberLib} (seconds : Z) : string :=
  if seconds <? 0 then "--"
  else if seconds <? 3600 then Z_to_string ((seconds + 30) / 60) +:+ " min"
  else if seconds <? 172800 then without_zero (toFixed (div (double_of seconds) (double_of 3600)) 1) +:+ " h"
  else without_zero (toFixed (div (double_of seconds) (double_of 86400)) 1) +:+ " d".

(** [formatAge] of [Markets.tsx]. *)
Definition formatAge (seconds : Z) : string :=
  if seconds <? 90 then Z_to_string seconds +:+ "s"
  else
    let m := (seconds + 30) / 60 in
    if m <? 90 then Z_to_string m +:+ "m"
    else
      let h := seconds / 3600 in
      if h <? 48 then Z_to_string h +:+ "h " +:+ Z_to_string ((seconds mod 3600 + 30) / 60) +:+ "m"
      else Z_to_string (h / 24) +:+ "d " +:+ Z_to_string (h mod 24) +:+ "h".

(** An age in hours may be followed by sixty minutes, the minutes being rounded on their own. *)
Example written :
  let _ := {| Number_toString _ := "" |} in
  List.map formatDuration [-1; 90; 3600; 5400; 21600; 86400; 172800; 216000] =
    ["--"; "2 min"; "1 h"; "1.5 h"; "6 h"; "24 h"; "2 d"; "2.5 d"] /\
  List.map formatAge [-5; 89; 90; 3599; 5369; 5370; 7190; 172800; 266400] =
    ["-5s"; "89s"; "2m"; "60m"; "89m"; "1h 30m"; "1h 60m"; "2d 0h"; "3d 2h"] /\
  toFixed (Number_of "1.005") 2 = "1.00" /\ toFixed (Number_of "-0.5") 0 = "-1" /\ toFixed (Number_of "1.0049999") 4 = "1.0050".
Proof. vm_compute. auto 10. Qed.
