(* ===== verification/Prog.v ===== *)
(** Asynchronous service code as a free monad.

    A handler of the services is a sequence of awaited operations: one SQL statement, one
    transaction, one call to something outside the program (an RPC node, a signer, a subscriber's
    HTTP endpoint), a read of the clock or of [randomUUID], or an output nobody answers (an alert, a
    metric).  [prog] is the inductive type of such sequences, so every handler terminates by
    construction; [run] executes one against an environment that decides every answer and every
    database fault; [wp] is the demonic weakest precondition over all environments, proved sound
    for [run]. *)
From S2P Require Import Prelude.

(** What the database driver does with one statement or commit: it works, it fails before having
    any effect, or it takes effect and the acknowledgement is lost. *)
Inductive fault_kind :=
| NoFault
| FailBefore (e : exn)
| AckLost (e : exn).

(** The values drawn by one operation: the clock, in ms since the epoch, and a fresh UUID. *)
Record stamp := Stamp { st_now : Z; st_uuid : string }.

Section Prog.
Context {D : Type} {Ext : Type -> Type} {Out : Type}.

Inductive prog : Type -> Type :=
| Ret {A} (a : A) : prog A
| Throw {A} (e : exn) : prog A
| Stmt {A X} (q : stamp -> D -> outcome (X * D)) (k : outcome X -> prog A) : prog A
| Call {A X} (c : Ext X) (k : outcome X -> prog A) : prog A
| Sample {A} (k : stamp -> prog A) : prog A
| Emit {A} (o : Out) (k : prog A) : prog A
| Tx {A X} (body : prog X) (k : outcome X -> prog A) : prog A.

Fixpoint bind {A B} (p : prog A) : (A -> prog B) -> prog B :=
  match p in prog A return (A -> prog B) -> prog B with
  | Ret a => fun f => f a
  | Throw e => fun _ => Throw e
  | Stmt q k => fun f => Stmt q (fun r => bind (k r) f)
  | Call c k => fun f => Call c (fun r => bind (k r) f)
  | Sample k => fun f => Sample (fun s => bind (k s) f)
  | Emit o k => fun f => Emit o (bind k f)
  | Tx body k => fun f => Tx body (fun r => bind (k r) f)
  end.

(** [try { p } catch (e) { h(e) }]. *)
Fixpoint catch {A} (p : prog A) : (exn -> prog A) -> prog A :=
  match p in prog A return (exn -> prog A) -> prog A with
  | Ret a => fun _ => Ret a
  | Throw e => fun h => h e
  | Stmt q k => fun h => Stmt q (fun r => catch (k r) h)
  | Call c k => fun h => Call c (fun r => catch (k r) h)
  | Sample k => fun h => Sample (fun s => catch (k s) h)
  | Emit o k => fun h => Emit o (catch k h)
  | Tx body k => fun h => Tx body (fun r => catch (k r) h)
  end.

(** Programs that only run statements, transactions and clock reads. *)
Fixpoint stmt_only {A} (p : prog A) : Prop :=
  match p with
  | Ret _ | Throw _ => True
  | Stmt _ k => forall r, stmt_only (k r)
  | Call _ _ | Emit _ _ => False
  | Sample k => forall s, stmt_only (k s)
  | Tx body k => stmt_only body /\ forall r, stmt_only (k r)
  end.

(** Programs that leave the database alone. *)
Fixpoint call_only {A} (p : prog A) : Prop :=
  match p with
  | Ret _ | Throw _ => True
  | Stmt _ _ | Tx _ _ => False
  | Call _ k => forall r, call_only (k r)
  | Sample k => forall s, call_only (k s)
  | Emit _ k => call_only k
  end.

Definition lift {A} (r : outcome A) : prog A :=
  match r with Ok a => Ret a | Err e => Throw e end.

Definition stmt {X} (q : stamp -> D -> outcome (X * D)) : prog X := Stmt q lift.
Definition call {X} (c : Ext X) : prog X := Call c lift.
Definition sample : prog stamp := Sample Ret.
Definition emit (o : Out) : prog unit := Emit o (Ret tt).
Definition transaction {X} (body : prog X) : prog X := Tx body lift.

(** [try { return Ok(await p) } catch (e) { return Err(e) }]. *)
Definition attempt {A} (p : prog A) : prog (outcome A) :=
  catch (bind p (fun a => Ret (Ok a))) (fun e => Ret (Err e)).

(** [for (const x of l) { s = await body(s, x) }]. *)
Fixpoint fold {A S} (body : S -> A -> prog S) (s : S) (l : list A) : prog S :=
  match l with
  | [] => Ret s
  | x :: l' => bind (body s x) (fun s' => fold body s' l')
  end.

(** ** Execution *)
Inductive entry :=
| ECall {X} (c : Ext X) (r : outcome X)
| EOut (o : Out).

Record world := World { w_db : D; w_tick : nat; w_log : list entry }.

Definition with_db (w : world) (d : D) : world := World d (w_tick w) (w_log w).
Definition tick (w : world) : world := World (w_db w) (S (w_tick w)) (w_log w).
Definition note (w : world) (e : entry) : world :=
  World (w_db w) (S (w_tick w)) (w_log w ++ [e]).

Record env := Env {
  answer : forall X, nat -> Ext X -> outcome X;
  db_fault : nat -> fault_kind;
  stamps : nat -> stamp }.

Definition run_stmt {X} (e : env) (q : stamp -> D -> outcome (X * D)) (w : world)
  : outcome X * world :=
  match db_fault e (w_tick w) with
  | FailBefore x => (Err x, tick w)
  | f =>
      match q (stamps e (w_tick w)) (w_db w) with
      | Err x => (Err x, tick w)
      | Ok (v, d') => (match f with AckLost x => Err x | _ => Ok v end, tick (with_db w d'))
      end
  end.

(** The end of a transaction opened in world [w0] whose body ended in [w] with [r]: a throw rolls
    the database back, and so does a failed commit. *)
Definition run_commit {X} (e : env) (w0 w : world) (r : outcome X) : outcome X * world :=
  match r with
  | Err x => (Err x, tick (with_db w (w_db w0)))
  | Ok v =>
      match db_fault e (w_tick w) with
      | NoFault => (Ok v, tick w)
      | FailBefore x => (Err x, tick (with_db w (w_db w0)))
      | AckLost x => (Err x, tick w)
      end
  end.

Fixpoint run {A} (e : env) (p : prog A) (w : world) : outcome A * world :=
  match p in prog A return outcome A * world with
  | Ret a => (Ok a, w)
  | Throw x => (Err x, w)
  | Stmt q k => let '(r, w') := run_stmt e q w in run e (k r) w'
  | Call c k => let r := answer e _ (w_tick w) c in run e (k r) (note w (ECall c r))
  | Sample k => run e (k (stamps e (w_tick w))) (tick w)
  | Emit o k => run e k (note w (EOut o))
  | Tx body k =>
      let '(r, w') := run e body w in
      let '(r', w'') := run_commit e w w' r in
      run e (k r') w''
  end.

Lemma run_catch {A} e (p : prog A) h w :
  run e (catch p h) w =
  (let '(r, w') := run e p w in match r with Ok a => (Ok a, w') | Err x => run e (h x) w' end).
Proof.
  revert h w. induction p as [A a|A x|A X q k IH|A X c k IH|A k IH|A o k IH|A X body IHb k IH];
    intros h w; simpl; try apply IH; try done.
  - destruct (run_stmt e q w) as [r w']. apply IH.
  - destruct (run e body w) as [r w']. destruct (run_commit e w w' r) as [r' w'']. apply IH.
Qed.

Lemma run_bind {A B} e (p : prog A) (f : A -> prog B) w :
  run e (bind p f) w =
  (let '(r, w') := run e p w in match r with Ok a => run e (f a) w' | Err x => (Err x, w') end).
Proof.
  revert f w. induction p as [A a|A x|A X q k IH|A X c k IH|A k IH|A o k IH|A X body IHb k IH];
    intros h w; simpl; try apply IH; try done.
  - destruct (run_stmt e q w) as [r w']. apply IH.
  - destruct (run e body w) as [r w']. destruct (run_commit e w w' r) as [r' w'']. apply IH.
Qed.

Lemma run_attempt {A} e (p : prog A) w : run e (attempt p) w = (let '(r, w') := run e p w in (Ok r, w')).
Proof. unfold attempt. rewrite run_catch, run_bind. by destruct (run e p w) as [[a|x] w']. Qed.

Lemma run_call {X} e (c : Ext X) w :
  run e (call c) w = (answer e X (w_tick w) c, note w (ECall c (answer e X (w_tick w) c))).
Proof. unfold call. simpl. by destruct (answer e X (w_tick w) c). Qed.

Lemma run_stmt_op {X} e (q : stamp -> D -> outcome (X * D)) w : run e (stmt q) w = run_stmt e q w.
Proof. simpl. destruct (run_stmt e q w) as [[v|x] w']; done. Qed.

(** A statement does what it says, unless the database fails somewhere. *)
Lemma run_stmt_works {X} e (q : stamp -> D -> outcome (X * D)) w :
  run_stmt e q w = match q (stamps e (w_tick w)) (w_db w) with
                   | Ok (v, d') => (Ok v, tick (with_db w d'))
                   | Err x => (Err x, tick w)
                   end \/ exists n, db_fault e n <> NoFault.
Proof.
  unfold run_stmt. destruct (db_fault e (w_tick w)) eqn:E; [by left|right; exists (w_tick w); by rewrite E..].
Qed.

(** From the same tick, a program that leaves the database alone has the same result. *)
Lemma run_call_only {A} e (p : prog A) w1 w2 :
  call_only p -> w_tick w1 = w_tick w2 ->
  exists r w1' w2', run e p w1 = (r, w1') /\ run e p w2 = (r, w2') /\ w_tick w1' = w_tick w2' /\
    w_db w1' = w_db w1 /\ w_db w2' = w_db w2.
Proof.
  revert w1 w2. induction p as [A a|A x|A X q k IH|A X c k IH|A k IH|A o k IH|A X body _ k IH]; intros w1 w2 Hp Ht; cbn in *; try done.
  - by eexists _, w1, w2.
  - by eexists _, w1, w2.
  - rewrite <- Ht. set (x := ECall c _). destruct (IH (answer e X (w_tick w1) c) (note w1 x) (note w2 x)) as (r & w1' & w2' & ?); [done|cbn; congruence|].
    by exists r, w1', w2'.
  - rewrite <- Ht. destruct (IH (stamps e (w_tick w1)) (tick w1) (tick w2)) as (r & w1' & w2' & ?); [done|cbn; congruence|].
    by exists r, w1', w2'.
  - destruct (IH (note w1 (EOut o)) (note w2 (EOut o))) as (r & w1' & w2' & ?); [done|cbn; congruence|].
    by exists r, w1', w2'.
Qed.

(** Every answer in a log is one of the environment's. *)
Definition answered (e : env) (x : entry) : Prop :=
  match x with ECall c r => exists n, r = answer e _ n c | EOut _ => True end.

Lemma run_answered {A} e (p : prog A) w :
  Forall (answered e) (w_log w) -> Forall (answered e) (w_log (snd (run e p w))).
Proof.
  revert w. induction p as [A a|A x|A X q k IH|A X c k IH|A k IH|A o k IH|A X body IHb k IH]; intros w Hw; simpl; auto.
  - assert (Hl : w_log (snd (run_stmt e q w)) = w_log w).
    { unfold run_stmt. destruct (db_fault e (w_tick w)), (q (stamps e (w_tick w)) (w_db w)) as [[v d']|x]; done. }
    destruct (run_stmt e q w) as [r w']. apply IH. simpl in Hl. by rewrite Hl.
  - apply IH. simpl. apply Forall_app. split; [done|]. apply Forall_singleton. by exists (w_tick w).
  - apply IH. simpl. apply Forall_app. split; [done|]. by apply Forall_singleton.
  - specialize (IHb w Hw). destruct (run e body w) as [r w']. simpl in IHb.
    assert (Hl : w_log (snd (run_commit e w w' r)) = w_log w').
    { unfold run_commit. destruct r; [destruct (db_fault e (w_tick w'))|]; done. }
    destruct (run_commit e w w' r) as [r' w'']. apply IH. simpl in Hl. by rewrite Hl.
Qed.

(** ** Weakest preconditions: [wp p Q w] when every run of [p] from [w] ends in [Q].
    [Adm] says what an external call may answer, whether the acknowledgement of a statement or
    commit that took effect may be lost, and which stamp an operation may draw at its tick. *)
Record admissible := Admissible {
  adm_answer :> forall X, Ext X -> outcome X -> Prop;
  adm_lost_ack : Prop;
  adm_stamp : nat -> stamp -> Prop }.
Definition any_answer : admissible := Admissible (fun _ _ _ => True) True (fun _ _ => True).
Definition acks_arrive : admissible := Admissible (fun _ _ _ => True) False (fun _ _ => True).
Definition stamped_by (e : env) : admissible :=
  Admissible (fun _ _ _ => True) True (fun n s => s = stamps e n).

Definition respects (Adm : admissible) (e : env) : Prop :=
  (forall X n (c : Ext X), Adm X c (answer e X n c)) /\
  (forall n x, db_fault e n = AckLost x -> adm_lost_ack Adm) /\
  (forall n, adm_stamp Adm n (stamps e n)).

Section Wp.
Context (Adm : admissible).

Definition wp_stmt {X} (q : stamp -> D -> outcome (X * D)) (Q : outcome X -> world -> Prop)
    (w : world) : Prop :=
  (forall x, Q (Err x) (tick w)) /\
  (forall s, adm_stamp Adm (w_tick w) s -> match q s (w_db w) with
             | Err x => Q (Err x) (tick w)
             | Ok (v, d') =>
                 Q (Ok v) (tick (with_db w d')) /\
                 forall x, adm_lost_ack Adm -> Q (Err x) (tick (with_db w d'))
             end).

Definition wp_commit {X} (w0 : world) (Q : outcome X -> world -> Prop)
    (r : outcome X) (w : world) : Prop :=
  match r with
  | Err x => Q (Err x) (tick (with_db w (w_db w0)))
  | Ok v =>
      Q (Ok v) (tick w) /\ (forall x, Q (Err x) (tick (with_db w (w_db w0)))) /\
      (forall x, adm_lost_ack Adm -> Q (Err x) (tick w))
  end.

Fixpoint wp {A} (p : prog A) : (outcome A -> world -> Prop) -> world -> Prop :=
  match p in prog A return (outcome A -> world -> Prop) -> world -> Prop with
  | Ret a => fun Q w => Q (Ok a) w
  | Throw x => fun Q w => Q (Err x) w
  | Stmt q k => fun Q w => wp_stmt q (fun r w' => wp (k r) Q w') w
  | Call c k => fun Q w => forall r, Adm _ c r -> wp (k r) Q (note w (ECall c r))
  | Sample k => fun Q w => forall s, adm_stamp Adm (w_tick w) s -> wp (k s) Q (tick w)
  | Emit o k => fun Q w => wp k Q (note w (EOut o))
  | Tx body k => fun Q w => wp body (wp_commit w (fun r w' => wp (k r) Q w')) w
  end.

Lemma wp_stmt_sound {X} e (q : stamp -> D -> outcome (X * D)) (Q : outcome X -> world -> Prop) w :
  respects Adm e -> wp_stmt q Q w -> let '(r, w') := run_stmt e q w in Q r w'.
Proof.
  intros (_ & Hack & Hst) [Hf Hq]. unfold run_stmt. specialize (Hq (stamps e (w_tick w)) (Hst _)).
  destruct (db_fault e (w_tick w)) eqn:Ef; [| apply Hf |];
    destruct (q _ _) as [[v d']|x]; [apply Hq| |apply Hq; eauto|]; apply Hf.
Qed.

Lemma wp_commit_sound {X} e w0 w r (Q : outcome X -> world -> Prop) :
  respects Adm e -> wp_commit w0 Q r w -> let '(r', w') := run_commit e w0 w r in Q r' w'.
Proof.
  unfold wp_commit, run_commit. intros (_ & Hack & _). destruct r as [v|x]; [|done].
  intros (H1 & H2 & H3). destruct (db_fault e (w_tick w)) eqn:Ef; eauto.
Qed.

(** Every execution meets a postcondition whose weakest precondition holds. *)
Lemma wp_sound {A} e (p : prog A) (Q : outcome A -> world -> Prop) w :
  respects Adm e -> wp p Q w -> let '(r, w') := run e p w in Q r w'.
Proof.
  intros He. revert Q w.
  induction p as [A a|A x|A X q k IH|A X c k IH|A k IH|A o k IH|A X body IHb k IH];
    intros Q w; simpl; auto.
  - intros H. apply (wp_stmt_sound e) in H; [|done].
    destruct (run_stmt e q w) as [r w']. by apply IH.
  - intros H. apply IH. apply H. apply (proj1 He).
  - intros H. apply IH, H. apply He.
  - apply IH.
  - intros H. apply IHb in H. destruct (run e body w) as [r w'].
    apply (wp_commit_sound e) in H; [|done]. destruct (run_commit e w w' r) as [r' w'']. by apply IH.
Qed.

Lemma wp_stmt_mono {X} (q : stamp -> D -> outcome (X * D)) (Q Q' : outcome X -> world -> Prop) w :
  (forall r w', Q r w' -> Q' r w') -> wp_stmt q Q w -> wp_stmt q Q' w.
Proof.
  intros HQ [Hf Hq]. split; [auto|]. intros s Hs. specialize (Hq s Hs).
  destruct (q s (w_db w)) as [[v d']|x]; naive_solver.
Qed.

(** A commit whose acknowledgement may be lost whenever the regime allows it. *)
Lemma wp_commit_any {X} w0 (Q : outcome X -> world -> Prop) r w :
  match r with
  | Err x => Q (Err x) (tick (with_db w (w_db w0)))
  | Ok v => Q (Ok v) (tick w) /\ (forall x, Q (Err x) (tick (with_db w (w_db w0)))) /\
            (forall x, Q (Err x) (tick w))
  end -> wp_commit w0 Q r w.
Proof. destruct r; simpl; naive_solver. Qed.

Lemma wp_commit_mono {X} w0 (Q Q' : outcome X -> world -> Prop) r w :
  (forall r w', Q r w' -> Q' r w') -> wp_commit w0 Q r w -> wp_commit w0 Q' r w.
Proof. intros HQ. destruct r; simpl; naive_solver. Qed.

Lemma wp_mono {A} (p : prog A) (Q Q' : outcome A -> world -> Prop) w :
  (forall r w', Q r w' -> Q' r w') -> wp p Q w -> wp p Q' w.
Proof.
  revert Q Q' w.
  induction p as [A a|A x|A X q k IH|A X c k IH|A k IH|A o k IH|A X body IHb k IH];
    intros Q Q' w HQ; simpl; eauto.
  - apply wp_stmt_mono. eauto.
  - apply IHb. intros r w'. apply wp_commit_mono. eauto.
Qed.

Lemma wp_stmt_and {X} (q : stamp -> D -> outcome (X * D)) (Q Q' : outcome X -> world -> Prop) w :
  wp_stmt q Q w -> wp_stmt q Q' w -> wp_stmt q (fun r w' => Q r w' /\ Q' r w') w.
Proof.
  intros [Hf Hq] [Hf' Hq']. split; [auto|]. intros s Hs. specialize (Hq s Hs). specialize (Hq' s Hs).
  destruct (q s (w_db w)) as [[v d']|x]; [|auto]. destruct Hq, Hq'. auto.
Qed.

Lemma wp_and {A} (p : prog A) (Q Q' : outcome A -> world -> Prop) w :
  wp p Q w -> wp p Q' w -> wp p (fun r w' => Q r w' /\ Q' r w') w.
Proof.
  revert Q Q' w.
  induction p as [A a|A x|A X q k IH|A X c k IH|A k IH|A o k IH|A X body IHb k IH];
    intros Q Q' w; simpl; eauto.
  - intros H H'. eapply wp_stmt_mono; [|exact (wp_stmt_and _ _ _ _ H H')]. intros r w' [? ?]. auto.
  - intros H H'. eapply wp_mono; [|exact (IHb _ _ _ H H')]. intros r w'.
    destruct r; simpl; naive_solver.
Qed.

(** The log only grows. *)
Definition grown (w w' : world) : Prop := exists l, w_log w' = w_log w ++ l.

Lemma grown_refl w w' : w_log w' = w_log w -> grown w w'.
Proof. exists []. by rewrite app_nil_r. Qed.

Lemma grown_trans w1 w2 w3 : grown w1 w2 -> grown w2 w3 -> grown w1 w3.
Proof. intros [l1 H1] [l2 H2]. exists (l1 ++ l2). by rewrite H2, H1, app_assoc. Qed.

Lemma wp_grown {A} (p : prog A) w : wp p (fun _ w' => grown w w') w.
Proof.
  revert w. induction p as [A a|A x|A X q k IH|A X c k IH|A k IH|A o k IH|A X body IHb k IH];
    intros w; simpl; try (by apply grown_refl).
  - assert (forall r w', w_log w' = w_log w -> wp (k r) (fun _ w'' => grown w w'') w') as Hk.
    { intros r w' Hl. eapply wp_mono; [|apply IH]. intros ? w'' [l Hl']. exists l. by rewrite Hl', Hl. }
    split; [intros x; by apply Hk|]. intros s _. destruct (q s _) as [[v d']|x]; [split; [|intros x _]|]; by apply Hk.
  - intros r _. eapply wp_mono; [|apply IH]. intros ? w'. apply grown_trans. by exists [ECall c r].
  - intros s _. eapply wp_mono; [|apply IH]. intros ? w'. apply grown_trans. by apply grown_refl.
  - eapply wp_mono; [|apply IH]. intros ? w'. apply grown_trans. by exists [EOut o].
  - eapply wp_mono; [|apply IHb]. intros r w' Hw.
    assert (forall r' w'', w_log w'' = w_log w' -> wp (k r') (fun _ w3 => grown w w3) w'') as Hk.
    { intros r' w'' Hl. eapply wp_mono; [|apply IH]. intros ? w3. apply grown_trans.
      eapply grown_trans; [exact Hw|by apply grown_refl]. }
    destruct r; simpl; [split; [|split; intros x]; [| |intros _]|]; by apply Hk.
Qed.

(** Ticks only pass. *)
Lemma wp_ticks {A} (p : prog A) w : wp p (fun _ w' => (w_tick w <= w_tick w')%nat) w.
Proof.
  revert w. induction p as [A a|A x|A X q k IH|A X c k IH|A k IH|A o k IH|A X body IHb k IH]; intros w; simpl; try done.
  - assert (forall r w', w_tick w' = S (w_tick w) -> wp (k r) (fun _ w'' => (w_tick w <= w_tick w'')%nat) w') as Hk.
    { intros r w' Ht. eapply wp_mono; [|apply IH]. intros ? w'' ?. simpl in *. lia. }
    split; [intros x; by apply Hk|]. intros s _. destruct (q s _) as [[v d']|x]; [split; [|intros x _]|]; by apply Hk.
  - intros r _. eapply wp_mono; [|apply IH]. intros ? w' ?. simpl in *. lia.
  - intros s _. eapply wp_mono; [|apply IH]. intros ? w' ?. simpl in *. lia.
  - eapply wp_mono; [|apply IH]. intros ? w' ?. simpl in *. lia.
  - eapply wp_mono; [|apply IHb]. intros r w' Hw.
    assert (forall r' w'', w_tick w'' = S (w_tick w') -> wp (k r') (fun _ w3 => (w_tick w <= w_tick w3)%nat) w'') as Hk.
    { intros r' w'' Ht. eapply wp_mono; [|apply IH]. intros ? w3 ?. simpl in *. lia. }
    destruct r; simpl; [split; [|split; intros x]; [| |intros _]|]; by apply Hk.
Qed.

Lemma wp_bind {A B} (p : prog A) (f : A -> prog B) (Q : outcome B -> world -> Prop) w :
  wp p (fun r w' => match r with Ok a => wp (f a) Q w' | Err x => Q (Err x) w' end) w ->
  wp (bind p f) Q w.
Proof.
  revert f Q w.
  induction p as [A a|A x|A X q k IH|A X c k IH|A k IH|A o k IH|A X body IHb k IH];
    intros f Q w; simpl; eauto.
  - apply wp_stmt_mono. eauto.
  - apply wp_mono. intros r w'. apply wp_commit_mono. eauto.
Qed.

Lemma wp_bind_inv {A B} (p : prog A) (f : A -> prog B) (Q : outcome B -> world -> Prop) w :
  wp (bind p f) Q w ->
  wp p (fun r w' => match r with Ok a => wp (f a) Q w' | Err x => Q (Err x) w' end) w.
Proof.
  revert f Q w.
  induction p as [A a|A x|A X q k IH|A X c k IH|A k IH|A o k IH|A X body IHb k IH];
    intros f Q w; simpl; eauto.
  - apply wp_stmt_mono. eauto.
  - apply wp_mono. intros r w'. apply wp_commit_mono. eauto.
Qed.

Lemma wp_bind_assoc {A B C} (p : prog A) (f : A -> prog B) (g : B -> prog C) (Q : outcome C -> world -> Prop) w :
  wp (bind p (fun a => bind (f a) g)) Q w -> wp (bind (bind p f) g) Q w.
Proof.
  intros H. apply wp_bind, wp_bind. eapply wp_mono; [|exact (wp_bind_inv _ _ _ _ H)].
  intros [a|x] w'; [|done]. apply wp_bind_inv.
Qed.

Lemma wp_catch {A} (p : prog A) (h : exn -> prog A) (Q : outcome A -> world -> Prop) w :
  wp p (fun r w' => match r with Ok a => Q (Ok a) w' | Err x => wp (h x) Q w' end) w ->
  wp (catch p h) Q w.
Proof.
  revert h Q w.
  induction p as [A a|A x|A X q k IH|A X c k IH|A k IH|A o k IH|A X body IHb k IH];
    intros h Q w; simpl; eauto.
  - apply wp_stmt_mono. eauto.
  - apply wp_mono. intros r w'. apply wp_commit_mono. eauto.
Qed.

Lemma wp_attempt {A} (p : prog A) (Q : outcome (outcome A) -> world -> Prop) w :
  wp p (fun r w' => Q (Ok r) w') w -> wp (attempt p) Q w.
Proof.
  intros H. apply wp_catch, wp_bind. eapply wp_mono; [|done]. by intros [a|x] w'.
Qed.

Lemma wp_lift {A} (r : outcome A) (Q : outcome A -> world -> Prop) w :
  Q r w -> wp (lift r) Q w.
Proof. by destruct r. Qed.

Lemma wp_transaction {X} (body : prog X) (Q : outcome X -> world -> Prop) w :
  wp body (wp_commit w Q) w -> wp (transaction body) Q w.
Proof.
  unfold transaction. simpl. apply wp_mono. intros r w'. apply wp_commit_mono.
  intros. by apply wp_lift.
Qed.

Lemma wp_stmt_op {X} (q : stamp -> D -> outcome (X * D)) (Q : outcome X -> world -> Prop) w :
  wp_stmt q Q w -> wp (stmt q) Q w.
Proof. apply wp_stmt_mono. intros. by apply wp_lift. Qed.

Lemma wp_call_op {X} (c : Ext X) (Q : outcome X -> world -> Prop) w :
  (forall r, Adm _ c r -> Q r (note w (ECall c r))) -> wp (call c) Q w.
Proof. intros H r Hr. by apply wp_lift, H. Qed.

(** A program of statements leaves the log alone. *)
Lemma wp_stmt_only {A} (p : prog A) w : stmt_only p -> wp p (fun _ w' => w_log w' = w_log w) w.
Proof.
  revert w. induction p as [A a|A x|A X q k IH|A X c k IH|A k IH|A o k IH|A X body IHb k IH];
    intros w; simpl; try done.
  - intros Hk. assert (forall r w', w_log w' = w_log w -> wp (k r) (fun _ w'' => w_log w'' = w_log w) w') as Hk'.
    { intros r w' <-. by apply IH. }
    split; [intros x; by apply Hk'|]. intros s _. destruct (q s _) as [[v d']|x]; [split; [|intros x _]|]; by apply Hk'.
  - intros Hk s _. by apply (IH s (tick w)).
  - intros [Hb Hk]. eapply wp_mono; [|by apply IHb]. intros r w' Hw.
    assert (forall r' w'', w_log w'' = w_log w' -> wp (k r') (fun _ w3 => w_log w3 = w_log w) w'') as Hk'.
    { intros r' w'' Hl. rewrite <- Hw, <- Hl. by apply IH. }
    destruct r; simpl; [split; [|split; intros x; [|intros _]]|]; by apply Hk'.
Qed.

(** Loop rule: the invariant may mention the elements already processed. *)
Lemma wp_fold_split {A S} (I : list A -> S -> world -> Prop) (E : exn -> world -> Prop)
    (body : S -> A -> prog S) (Q : outcome S -> world -> Prop) l0 l s w :
  (forall done x rest s w, l0 ++ l = done ++ x :: rest -> I done s w ->
     wp (body s x) (fun r w' => match r with Ok s' => I (done ++ [x]) s' w' | Err e => E e w' end) w) ->
  (forall s w, I (l0 ++ l) s w -> Q (Ok s) w) ->
  (forall e w, E e w -> Q (Err e) w) ->
  I l0 s w -> wp (fold body s l) Q w.
Proof.
  revert l0 s w. induction l as [|x l IH]; intros l0 s w Hbody HQ HE HI; simpl.
  - apply HQ. by rewrite app_nil_r.
  - apply wp_bind. eapply wp_mono; [|by apply (Hbody l0 x l)].
    assert (Eq : (l0 ++ [x]) ++ l = l0 ++ x :: l) by (by rewrite <- app_assoc).
    intros [s'|e] w' H'; [|auto]. apply (IH (l0 ++ [x])); rewrite ?Eq; auto.
Qed.

Lemma wp_fold {A S} (I : list A -> S -> world -> Prop) (E : exn -> world -> Prop)
    (body : S -> A -> prog S) (Q : outcome S -> world -> Prop) l0 l s w :
  (forall done x s w, I done s w ->
     wp (body s x) (fun r w' => match r with Ok s' => I (done ++ [x]) s' w' | Err e => E e w' end) w) ->
  (forall s w, I (l0 ++ l) s w -> Q (Ok s) w) ->
  (forall e w, E e w -> Q (Err e) w) ->
  I l0 s w -> wp (fold body s l) Q w.
Proof. intros Hbody. apply wp_fold_split. eauto. Qed.

End Wp.

(** The log of a run only grows. *)
Lemma run_grown {A} e (p : prog A) w : exists l, w_log (snd (run e p w)) = w_log w ++ l.
Proof.
  assert (H : let '(_, w') := run e p w in grown w w').
  { apply (wp_sound any_answer e p (fun _ w' => grown w w')); [done|]. apply wp_grown. }
  by destruct (run e p w).
Qed.

(** Soundness for what was asked: only the answers on the log need be admissible. *)
Lemma wp_sound_logged Adm {A} e (p : prog A) (Q : outcome A -> world -> Prop) w :
  (forall n x, db_fault e n = AckLost x -> adm_lost_ack Adm) -> (forall n, adm_stamp Adm n (stamps e n)) ->
  (forall X c r, In (@ECall X c r) (w_log (snd (run e p w))) -> (exists n, r = answer e X n c) -> Adm X c r) ->
  wp Adm p Q w -> let '(r, w') := run e p w in Q r w'.
Proof.
  intros Hack Hst. revert Q w.
  assert (Hstmt : forall X (q : stamp -> D -> outcome (X * D)) Q w, wp_stmt Adm q Q w -> let '(r, w') := run_stmt e q w in Q r w').
  { intros X q Q w [Hf Hq]. unfold run_stmt. specialize (Hq (stamps e (w_tick w)) (Hst _)).
    destruct (db_fault e (w_tick w)) eqn:Ef; [| apply Hf |];
      destruct (q _ _) as [[v d']|x]; [apply Hq| |apply Hq; eauto|]; apply Hf. }
  assert (Hcommit : forall X w0 w (r : outcome X) Q, wp_commit Adm w0 Q r w -> let '(r', w') := run_commit e w0 w r in Q r' w').
  { unfold wp_commit, run_commit. intros X w0 w [v|x] Q; [|done]. intros (H1 & H2 & H3). destruct (db_fault e (w_tick w)) eqn:Ef; eauto. }
  induction p as [A a|A x|A X q k IH|A X c k IH|A k IH|A o k IH|A X body IHb k IH]; intros Q w; cbn [run wp]; auto.
  - intros Hlog H. apply Hstmt in H. destruct (run_stmt e q w) as [r w']. by apply IH.
  - intros Hlog H. apply IH; [exact Hlog|]. apply H, Hlog; [|by eexists].
    destruct (run_grown e (k (answer e X (w_tick w) c)) (note w (ECall c (answer e X (w_tick w) c)))) as [l ->].
    cbn. rewrite <- app_assoc. apply in_app_iff. right. by left.
  - intros Hlog H. apply IH; [exact Hlog|]. apply H, Hst.
  - apply IH.
  - intros Hlog H. destruct (run e body w) as [r w'] eqn:Eb. destruct (run_commit e w w' r) as [r' w''] eqn:Ec.
    assert (Hb : let '(r, w') := run e body w in wp_commit Adm w (fun r0 w0 => wp Adm (k r0) Q w0) r w').
    { apply IHb; [|exact H]. rewrite Eb. cbn [snd]. intros Y c y Hin. apply Hlog.
      destruct (run_grown e (k r') w'') as [l ->]. apply in_app_iff. left.
      assert (w_log w'' = w_log w') as ->; [|done]. revert Ec. unfold run_commit.
      destruct r; [destruct (db_fault e (w_tick w'))|]; by intros [= _ <-]. }
    rewrite Eb in Hb. apply Hcommit in Hb. rewrite Ec in Hb. by apply IH.
Qed.

Lemma stmt_only_bind {A B} (p : prog A) (f : A -> prog B) :
  stmt_only p -> (forall a, stmt_only (f a)) -> stmt_only (bind p f).
Proof.
  intros Hp Hf. revert f Hf.
  induction p as [A a|A x|A X q k IH|A X c k IH|A k IH|A o k IH|A X body IHb k IH];
    intros f Hf; simpl in *; try done; [auto|auto|]. destruct Hp as [Hb Hk]. split; [done|auto].
Qed.

Lemma stmt_only_lift {A} (r : outcome A) : stmt_only (lift r).
Proof. by destruct r. Qed.

Lemma stmt_only_stmt {X} (q : stamp -> D -> outcome (X * D)) : stmt_only (stmt q).
Proof. intros r. apply stmt_only_lift. Qed.

Lemma stmt_only_fold {A S} (body : S -> A -> prog S) s l :
  (forall s x, stmt_only (body s x)) -> stmt_only (fold body s l).
Proof.
  intros Hb. revert s. induction l as [|x l IH]; intros s; simpl; [done|]. by apply stmt_only_bind.
Qed.
End Prog.

Arguments prog : clear implicits.
Arguments world : clear implicits.
Arguments entry : clear implicits.
Arguments env : clear implicits.
Arguments World {D Ext Out} _ _ _.

Declare Scope prog_scope.
Delimit Scope prog_scope with prog.
Notation "x <- c ;; k" := (bind c (fun x => k))
  (at level 100, c at next level, right associativity) : prog_scope.
Notation "c ;;; k" := (bind c (fun _ => k)) (at level 100, right associativity) : prog_scope.
#[global] Open Scope prog_scope.

Lemma stamped_by_respects {Ext} (e : env Ext) : respects (stamped_by e) e.
Proof. done. Qed.

Lemma any_answer_respects {Ext} (e : env Ext) : respects any_answer e.
Proof. done. Qed.
#[export] Hint Resolve any_answer_respects stamped_by_respects : ballast.

Create HintDb stmt_only.
#[export] Hint Resolve stmt_only_bind stmt_only_lift stmt_only_stmt stmt_only_fold : stmt_only.
#[export] Hint Extern 1 (stmt_only (Ret _)) => exact I : stmt_only.
#[export] Hint Extern 1 (stmt_only (Throw _)) => exact I : stmt_only.
#[export] Hint Extern 2 (stmt_only (match ?x with _ => _ end)) => destruct x : stmt_only.
