(* ===== verification/Embed.v ===== *)
(** A component's program inside a larger one: its calls and outputs become calls and outputs of the
    whole, its statements run on the same database, and it behaves as it does on its own. *)
From S2P Require Import Prelude Prog.

Section Embed.
Context {D : Type} {E1 E2 : Type -> Type} {O1 O2 : Type} (calls : forall X, E1 X -> E2 X) (outs : O1 -> O2).

Fixpoint embed {A} (p : prog D E1 O1 A) : prog D E2 O2 A :=
  match p with
  | Ret a => Ret a
  | Throw x => Throw x
  | Stmt q k => Stmt q (fun r => embed (k r))
  | Call c k => Call (calls _ c) (fun r => embed (k r))
  | Sample k => Sample (fun s => embed (k s))
  | Emit o k => Emit (outs o) (embed k)
  | Tx body k => Tx (embed body) (fun r => embed (k r))
  end.

(** The environment of the whole, as the component sees it. *)
Definition part (e : env E2) : env E1 := Env (fun X n c => answer e X n (calls X c)) (db_fault e) (stamps e).

Definition embed_entry (x : entry E1 O1) : entry E2 O2 :=
  match x with ECall c r => ECall (calls _ c) r | EOut o => EOut (outs o) end.

(** A world of the whole that has logged [l] before the component's own entries. *)
Definition around (l : list (entry E2 O2)) (w : world D E1 O1) : world D E2 O2 :=
  World (w_db w) (w_tick w) (l ++ List.map embed_entry (w_log w)).

Lemma around_note l w x : around l (note w x) = note (around l w) (embed_entry x).
Proof. unfold around, note. cbn. by rewrite map_app, app_assoc. Qed.

Lemma run_embed_around {A} e (p : prog D E1 O1 A) l w :
  run e (embed p) (around l w) = (let '(r, w') := run (part e) p w in (r, around l w')).
Proof.
  revert w. induction p as [A a|A x|A X q k IH|A X c k IH|A k IH|A o k IH|A X body IHb k IH]; intros w; cbn; try done.
  - assert (Hs : run_stmt e q (around l w) = (let '(r, w') := run_stmt (part e) q w in (r, around l w'))).
    { unfold run_stmt. cbn. destruct (db_fault e (w_tick w)); [| done |]; by destruct (q _ _) as [[v d']|x]. }
    rewrite Hs. destruct (run_stmt (part e) q w) as [r w']. apply IH.
  - rewrite <- IH. by rewrite around_note.
  - apply (IH _ (tick w)).
  - rewrite <- IH. by rewrite around_note.
  - rewrite IHb. destruct (run (part e) body w) as [r w'].
    assert (Hc : run_commit e (around l w) (around l w') r = (let '(r', w'') := run_commit (part e) w w' r in (r', around l w''))).
    { destruct r as [v|x]; [|done]. cbn. by destruct (db_fault e (w_tick w')). }
    rewrite Hc. destruct (run_commit (part e) w w' r) as [r' w'']. apply IH.
Qed.

(** A component run inside the whole does what it does from the same database and tick, and logs what
    it logs. *)
Lemma run_embed {A} e (p : prog D E1 O1 A) w :
  run e (embed p) w =
  (let '(r, w') := run (part e) p (World (w_db w) (w_tick w) []) in (r, around (w_log w) w')).
Proof. rewrite <- run_embed_around. f_equal. destruct w as [d n l]. unfold around. cbn. by rewrite app_nil_r. Qed.

(** What holds of the component alone holds of it inside the whole. *)
Lemma wp_embed {A} (p : prog D E1 O1 A) (Q : outcome A -> world D E1 O1 -> Prop) (Q' : outcome A -> world D E2 O2 -> Prop) l w :
  (forall r w', Q r w' -> Q' r (around l w')) -> wp any_answer p Q w -> wp any_answer (embed p) Q' (around l w).
Proof.
  intros HQ. revert Q Q' HQ w.
  induction p as [A a|A x|A X q k IH|A X c k IH|A k IH|A o k IH|A X body IHb k IH]; intros Q Q' HQ w; cbn [embed wp]; auto.
  - intros [H1 H2]. split; [intros x; exact (IH _ _ _ HQ (tick w) (H1 x))|]. intros s Hs. specialize (H2 s Hs). cbn [around w_db] in *.
    destruct (q s (w_db w)) as [[v d']|x]; [|exact (IH _ _ _ HQ (tick w) H2)]. destruct H2 as [H2 H3].
    split; [exact (IH _ _ _ HQ (tick (with_db w d')) H2)|]. intros x Hx. exact (IH _ _ _ HQ (tick (with_db w d')) (H3 x Hx)).
  - intros Hc r Hr. pose proof (IH _ _ _ HQ _ (Hc r Hr)) as Hk. by rewrite around_note in Hk.
  - intros Hc s Hs. exact (IH s _ _ HQ (tick w) (Hc s Hs)).
  - intros Hc. pose proof (IH _ _ HQ _ Hc) as Hk. by rewrite around_note in Hk.
  - intros Hc. eapply IHb; [|exact Hc]. intros [v|x] w'; cbn [wp_commit].
    + intros (H1 & H2 & H3). split; [exact (IH _ _ _ HQ (tick w') H1)|]. split; intros x; [exact (IH _ _ _ HQ _ (H2 x))|].
      intros Hx. exact (IH _ _ _ HQ (tick w') (H3 x Hx)).
    + intros H1. exact (IH _ _ _ HQ _ H1).
Qed.
End Embed.
