(* ===== verification/Shape.v ===== *)
(** What a program may do at most, read off its operations: the statements it runs and the calls it
    makes.  A program whose statements all leave the database as it is leaves it as it is; the entries
    it logs are those of the calls it may make. *)
From S2P Require Import Prelude Prog Embed.

Section Shape.
Context {D : Type} {Ext : Type -> Type} {Out : Type}.
Notation prog := (prog D Ext Out).
Notation world := (world D Ext Out).
Notation query X := (stamp -> D -> outcome (X * D)).
Implicit Types w : world.

Section Bounds.
Context (stmts : forall X, query X -> Prop) (calls : forall X, Ext X -> Prop).

Fixpoint within {A} (p : prog A) : Prop :=
  match p with
  | Ret _ | Throw _ => True
  | Stmt q k => stmts _ q /\ forall r, within (k r)
  | Call c k => calls _ c /\ forall r, within (k r)
  | Sample k => forall s, within (k s)
  | Emit _ k => within k
  | Tx body k => within body /\ forall r, within (k r)
  end.

Lemma within_bind {A B} (p : prog A) (f : A -> prog B) : within p -> (forall a, within (f a)) -> within (bind p f).
Proof.
  intros Hp Hf. revert f Hf.
  induction p as [A a|A x|A X q k IH|A X c k IH|A k IH|A o k IH|A X body IHb k IH]; intros f Hf; cbn in *; auto;
    destruct Hp as [H1 H2]; (split; [done|]); intros r; by apply IH.
Qed.

Lemma within_catch {A} (p : prog A) (h : exn -> prog A) : within p -> (forall x, within (h x)) -> within (catch p h).
Proof.
  intros Hp Hh. revert h Hh.
  induction p as [A a|A x|A X q k IH|A X c k IH|A k IH|A o k IH|A X body IHb k IH]; intros h Hh; cbn in *; auto;
    destruct Hp as [H1 H2]; (split; [done|]); intros r; by apply IH.
Qed.

Lemma within_lift {A} (r : outcome A) : within (lift r).
Proof. by destruct r. Qed.
Lemma within_ret {A} (a : A) : within (Ret a).
Proof. done. Qed.
Lemma within_throw {A} x : within (@Throw D Ext Out A x).
Proof. done. Qed.
Lemma within_sample : within sample.
Proof. done. Qed.
Lemma within_emit o : within (emit o).
Proof. done. Qed.
Lemma within_attempt {A} (p : prog A) : within p -> within (attempt p).
Proof. intros Hp. apply within_catch; [|done]. by apply within_bind. Qed.
Lemma within_stmt {X} (q : query X) : stmts _ q -> within (stmt q).
Proof. intros Hq. split; [done|]. apply within_lift. Qed.
Lemma within_call {X} (c : Ext X) : calls _ c -> within (call c).
Proof. intros Hc. split; [done|]. apply within_lift. Qed.
Lemma within_transaction {A} (p : prog A) : within p -> within (transaction p).
Proof. intros Hp. split; [done|]. apply within_lift. Qed.
Lemma within_fold {A S} (body : S -> A -> prog S) s l : (forall s a, within (body s a)) -> within (fold body s l).
Proof. intros Hb. revert s. induction l as [|a l IH]; intros s; cbn; [done|]. by apply within_bind. Qed.
End Bounds.

(** ** What follows for a run *)
Definition leaves_db (X : Type) (q : query X) : Prop := forall s d, match q s d with Ok (_, d') => d' = d | Err _ => True end.
Definition any_stmt (X : Type) (q : query X) : Prop := True.
Definition any_call (X : Type) (c : Ext X) : Prop := True.

Lemma wp_leaves_db {A} Adm calls (p : prog A) w : within leaves_db calls p -> wp Adm p (fun _ w' => w_db w' = w_db w) w.
Proof.
  revert w. induction p as [A a|A x|A X q k IH|A X c k IH|A k IH|A o k IH|A X body IHb k IH]; intros w Hp; cbn in *; try done.
  - destruct Hp as [Hq Hk]. assert (Hs : forall r w', w_db w' = w_db w -> wp Adm (k r) (fun _ w'' => w_db w'' = w_db w) w').
    { intros r w' <-. by apply IH. }
    split; [intros x; by apply Hs|]. intros s _. specialize (Hq s (w_db w)).
    destruct (q s _) as [[v d']|x]; [split; [|intros x _]|]; by apply Hs.
  - destruct Hp as [_ Hk]. intros r _. by apply (IH r (note w _)).
  - intros s _. by apply (IH s (tick w)).
  - by apply (IH (note w _)).
  - destruct Hp as [Hb Hk]. eapply wp_mono; [|by apply IHb]. intros r w' Ed.
    assert (Hs : forall r' w'', w_db w'' = w_db w -> wp Adm (k r') (fun _ w3 => w_db w3 = w_db w) w'').
    { intros r' w'' <-. by apply IH. }
    destruct r; cbn; [split; [|split; intros x; [|intros _]]|]; by apply Hs.
Qed.

Lemma run_leaves_db {A} calls e (p : prog A) w : within leaves_db calls p -> w_db (snd (run e p w)) = w_db w.
Proof.
  intros Hp. pose proof (wp_sound any_answer e _ _ _ (any_answer_respects e) (wp_leaves_db any_answer _ p w Hp)) as Hw.
  by destruct (run e p w).
Qed.

Definition made_by (calls : forall X, Ext X -> Prop) (x : entry Ext Out) : Prop :=
  match x with ECall c _ => calls _ c | EOut _ => True end.
Definition logged (calls : forall X, Ext X -> Prop) w w' : Prop :=
  exists l, w_log w' = w_log w ++ l /\ Forall (made_by calls) l.

Lemma logged_same calls w w' : w_log w' = w_log w -> logged calls w w'.
Proof. exists []. by rewrite app_nil_r. Qed.
Lemma logged_trans calls w1 w2 w3 : logged calls w1 w2 -> logged calls w2 w3 -> logged calls w1 w3.
Proof.
  intros (l1 & E1 & H1) (l2 & E2 & H2). exists (l1 ++ l2). rewrite E2, E1, app_assoc. split; [done|]. by apply Forall_app.
Qed.
Lemma logged_note calls w x : made_by calls x -> logged calls w (note w x).
Proof. exists [x]. split; [done|]. by apply Forall_singleton. Qed.

Lemma wp_logged {A} Adm stmts calls (p : prog A) w : within stmts calls p -> wp Adm p (fun _ w' => logged calls w w') w.
Proof.
  revert w. induction p as [A a|A x|A X q k IH|A X c k IH|A k IH|A o k IH|A X body IHb k IH]; intros w Hp; cbn in *; try by apply logged_same.
  - destruct Hp as [_ Hk]. assert (Hs : forall r w', w_log w' = w_log w -> wp Adm (k r) (fun _ w'' => logged calls w w'') w').
    { intros r w' El. eapply wp_mono; [|by apply IH]. intros ? w''. apply logged_trans. by apply logged_same. }
    split; [intros x; by apply Hs|]. intros s _. destruct (q s _) as [[v d']|x]; [split; [|intros x _]|]; by apply Hs.
  - destruct Hp as [Hc Hk]. intros r _. eapply wp_mono; [|by apply IH]. intros ? w''. apply logged_trans. by apply logged_note.
  - intros s _. eapply wp_mono; [|by apply IH]. intros ? w''. apply logged_trans. by apply logged_same.
  - eapply wp_mono; [|by apply IH]. intros ? w''. apply logged_trans. by apply logged_note.
  - destruct Hp as [Hb Hk]. eapply wp_mono; [|by apply IHb]. intros r w' Hw.
    assert (Hs : forall r' w'', w_log w'' = w_log w' -> wp Adm (k r') (fun _ w3 => logged calls w w3) w'').
    { intros r' w'' El. eapply wp_mono; [|by apply IH]. intros ? w3. apply logged_trans.
      eapply logged_trans; [exact Hw|by apply logged_same]. }
    destruct r; cbn; [split; [|split; intros x; [|intros _]]|]; by apply Hs.
Qed.

Lemma run_logged {A} stmts calls e (p : prog A) w : within stmts calls p -> logged calls w (snd (run e p w)).
Proof.
  intros Hp. pose proof (wp_sound any_answer e _ _ _ (any_answer_respects e) (wp_logged any_answer _ _ p w Hp)) as Hw.
  by destruct (run e p w).
Qed.
End Shape.

(** ** How often a program makes a call *)
Section Spending.
Context {D : Type} {Ext : Type -> Type} {Out : Type} (counted : forall X, Ext X -> bool).
Notation prog := (prog D Ext Out).
Notation world := (world D Ext Out).
Implicit Types w : world.

(** At most [n] counted calls, whatever the answers. *)
Fixpoint spends {A} (n : nat) (p : prog A) : Prop :=
  match p with
  | Ret _ | Throw _ => True
  | Stmt _ k => forall r, spends n (k r)
  | Call c k => if counted _ c then match n with O => False | S n' => forall r, spends n' (k r) end else forall r, spends n (k r)
  | Sample k => forall s, spends n (k s)
  | Emit _ k => spends n k
  | Tx body k => exists n1 n2, (n1 + n2 <= n)%nat /\ spends n1 body /\ forall r, spends n2 (k r)
  end.

Lemma spends_mono {A} (p : prog A) n n' : (n <= n')%nat -> spends n p -> spends n' p.
Proof.
  revert n n'. induction p as [A a|A x|A X q k IH|A X c k IH|A k IH|A o k IH|A X body IHb k IH]; intros n n' Hn Hp; cbn in *; eauto.
  - destruct (counted X c); [|eauto]. destruct n as [|n], n' as [|n']; [done..|lia|]. intros r. apply (IH r n); [lia|done].
  - destruct Hp as (n1 & n2 & Hs & H1 & H2). exists n1, n2. split; [lia|done].
Qed.

Lemma spends_bind {A B} n1 n2 (p : prog A) (f : A -> prog B) :
  spends n1 p -> (forall a, spends n2 (f a)) -> spends (n1 + n2) (bind p f).
Proof.
  revert n1 f. induction p as [A a|A x|A X q k IH|A X c k IH|A k IH|A o k IH|A X body IHb k IH]; intros n1 f Hp Hf; cbn in *; auto.
  - apply (spends_mono _ n2); [lia|done].
  - destruct (counted X c); [|intros r; by apply IH]. destruct n1 as [|n1]; [done|]. intros r. by apply IH.
  - destruct Hp as (a & b & Hs & H1 & H2). exists a, (b + n2)%nat. split; [lia|]. split; [done|]. intros r. by apply IH.
Qed.

Lemma spends_attempt {A} n (p : prog A) : spends n p -> spends n (attempt p).
Proof.
  unfold attempt. revert n.
  induction p as [A a|A x|A X q k IH|A X c k IH|A k IH|A o k IH|A X body IHb k IH]; intros n Hp; cbn in *; eauto.
  - destruct (counted X c); [|intros r; by apply IH]. destruct n; [done|]. intros r. by apply IH.
  - destruct Hp as (a & b & Hs & H1 & H2). exists a, b. split; [done|]. split; [done|]. intros r. by apply IH.
Qed.

(** The counted calls of a log. *)
Definition counts (x : entry Ext Out) : bool := match x with ECall c _ => counted _ c | EOut _ => false end.
Definition spent (l : list (entry Ext Out)) : nat := length (List.filter counts l).

Lemma spent_app l1 l2 : spent (l1 ++ l2) = (spent l1 + spent l2)%nat.
Proof. unfold spent. by rewrite List.filter_app, length_app. Qed.

Lemma spent_note w x : spent (w_log (note w x)) = (spent (w_log w) + if counts x then 1 else 0)%nat.
Proof. unfold note. cbn [w_log]. rewrite spent_app. f_equal. unfold spent. cbn. by destruct (counts x). Qed.

Lemma wp_spends {A} Adm n (p : prog A) w :
  spends n p -> wp Adm p (fun _ w' => (spent (w_log w') <= spent (w_log w) + n)%nat) w.
Proof.
  revert n w. induction p as [A a|A x|A X q k IH|A X c k IH|A k IH|A o k IH|A X body IHb k IH]; intros n w Hp; cbn in *; try lia.
  - assert (Hs : forall r w', w_log w' = w_log w -> wp Adm (k r) (fun _ w'' => spent (w_log w'') <= spent (w_log w) + n)%nat w').
    { intros r w' <-. by apply IH. }
    split; [intros x; by apply Hs|]. intros s _. destruct (q s _) as [[v d']|x]; [split; [|intros x _]|]; by apply Hs.
  - intros r _. pose proof (spent_note w (ECall c r)) as E. cbn [counts] in E. destruct (counted X c).
    + destruct n as [|n]; [done|]. eapply wp_mono; [|by apply (IH r n)]. intros ? w'. cbn in *. lia.
    + eapply wp_mono; [|by apply (IH r n)]. intros ? w'. cbn in *. lia.
  - intros s _. by apply (IH s n (tick w)).
  - pose proof (spent_note w (EOut o)) as E. cbn in E. eapply wp_mono; [|by apply (IH n)]. intros ? w'. cbn in *. lia.
  - destruct Hp as (a & b & Hn & Hb & Hk). eapply wp_mono; [|by apply (IHb a)]. intros r w' Hw.
    assert (Hs : forall r' w'', w_log w'' = w_log w' -> wp Adm (k r') (fun _ w3 => spent (w_log w3) <= spent (w_log w) + n)%nat w'').
    { intros r' w'' El. eapply wp_mono; [|by apply (IH r' b)]. intros ? w3 Hw3. rewrite El in Hw3. cbn beta in *. lia. }
    destruct r; cbn; [split; [|split; intros x; [|intros _]]|]; by apply Hs.
Qed.
End Spending.

(** A component keeps to its bounds inside a larger program. *)
Lemma within_embed {D E1 E2 O1 O2} (stmts : forall X, (stamp -> D -> outcome (X * D)) -> Prop) (calls1 : forall X, E1 X -> Prop)
    (calls2 : forall X, E2 X -> Prop) (f : forall X, E1 X -> E2 X) (g : O1 -> O2) {A} (p : prog D E1 O1 A) :
  within stmts calls1 p -> (forall X c, calls1 X c -> calls2 X (f X c)) -> within stmts calls2 (embed f g p).
Proof.
  intros Hp Hf. induction p as [A a|A x|A X q k IH|A X c k IH|A k IH|A o k IH|A X body IHb k IH]; cbn in *; auto;
    destruct Hp as [H1 H2]; (split; [auto|]); intros r; by apply IH.
Qed.

Lemma within_anything {D Ext Out A} (p : prog D Ext Out A) : within any_stmt any_call p.
Proof. induction p as [A a|A x|A X q k IH|A X c k IH|A k IH|A o k IH|A X body IHb k IH]; cbn; auto; split; done. Qed.

Lemma made_by_mono {Ext Out} (P Q : forall X, Ext X -> Prop) (l : list (entry Ext Out)) :
  (forall X c, P X c -> Q X c) -> Forall (made_by P) l -> Forall (made_by Q) l.
Proof. intros H Hl. eapply Forall_impl; [exact Hl|]. intros [X c r|o]; cbn; auto. Qed.

(** Programs are taken apart down to their statements and calls. *)
Create HintDb within.
#[export] Hint Resolve within_bind within_catch within_lift within_ret within_throw within_sample within_emit within_attempt
  within_stmt within_call within_transaction within_fold : within.
#[export] Hint Extern 2 (within _ _ (match ?x with _ => _ end)) => destruct x : within.
#[export] Hint Extern 1 (any_stmt _ _) => exact I : within.
#[export] Hint Extern 1 (any_call _ _) => exact I : within.

(** The same, for programs too long for [auto]. *)
Ltac stay_within :=
  cbv zeta;
  repeat lazymatch goal with
         | |- forall _, _ => intros
         | |- within _ _ (bind _ _) => apply within_bind; [|intros]
         | |- within _ _ (attempt _) => apply within_attempt
         | |- within _ _ (catch _ _) => apply within_catch; [|intros]
         | |- within _ _ (transaction _) => apply within_transaction
         | |- within _ _ (fold _ _ _) => apply within_fold; intros
         | |- within _ _ (match ?x with _ => _ end) => destruct x
         | |- within _ _ _ => progress cbv zeta
         end;
  auto with within.
