(* ===== verification/Memory.v ===== *)
(** Service code that keeps something in memory between its awaits: a client's token, what a page shows.
    Such a program takes the memory and returns it with its result; an exception keeps what was changed
    before it. *)
From S2P Require Import Prelude Prog Shape.

Section Memory.
Context {Ext : Type -> Type} {M : Type}.
Notation prog := (prog unit Ext unit).
Notation world := (world unit Ext unit).
Implicit Types (w : world) (m : M).

Definition mem (A : Type) : Type := M -> prog (outcome A * M).

Definition m_ret {A} (a : A) : mem A := fun m => Ret (Ok a, m).
Definition m_throw {A} (x : exn) : mem A := fun m => Ret (Err x, m).
Definition m_lift {A} (r : outcome A) : mem A := fun m => Ret (r, m).
Definition m_bind {A B} (p : mem A) (k : A -> mem B) : mem B := fun m =>
  r <- p m ;; match fst r with Ok a => k a (snd r) | Err x => Ret (Err x, snd r) end.
(** [p.then(Ok, Err)]. *)
Definition m_try {A} (p : mem A) : mem (outcome A) := fun m => r <- p m ;; Ret (Ok (fst r), snd r).
Definition m_read : mem M := fun m => Ret (Ok m, m).
Definition m_write (f : M -> M) : mem unit := fun m => Ret (Ok tt, f m).
Definition m_call {A} (c : Ext A) : mem A := fun m => r <- attempt (call c) ;; Ret (r, m).
Definition m_now : mem Z := fun m => s <- sample ;; Ret (Ok (st_now s), m).

(** ** Reasoning about it: a result is a value or an exception, whatever is answered. *)
Definition mwp {A} (p : mem A) (Q : outcome A -> M -> world -> Prop) m w : Prop :=
  wp any_answer (p m) (fun r w' => match r with Ok (o, m') => Q o m' w' | Err _ => False end) w.

Lemma mwp_mono {A} (p : mem A) (Q Q' : outcome A -> M -> world -> Prop) m w :
  (forall o m' w', Q o m' w' -> Q' o m' w') -> mwp p Q m w -> mwp p Q' m w.
Proof. intros HQ. apply wp_mono. intros [[o m']|x] w'; auto. Qed.

Lemma mwp_bind {A B} (p : mem A) (k : A -> mem B) Q m w :
  mwp p (fun o m' w' => match o with Ok a => mwp (k a) Q m' w' | Err x => Q (Err x) m' w' end) m w -> mwp (m_bind p k) Q m w.
Proof.
  intros Hp. unfold mwp, m_bind. apply wp_bind. eapply wp_mono; [|exact Hp]. intros [[[a|x] m']|x] w' Hr; done.
Qed.

Lemma mwp_try {A} (p : mem A) (Q : outcome (outcome A) -> M -> world -> Prop) m w :
  mwp p (fun o m' w' => Q (Ok o) m' w') m w -> mwp (m_try p) Q m w.
Proof. intros Hp. unfold mwp, m_try. apply wp_bind. eapply wp_mono; [|exact Hp]. by intros [[o m']|x] w' Hr. Qed.

Lemma mwp_call {A} (c : Ext A) (Q : outcome A -> M -> world -> Prop) m w :
  (forall r, Q r m (note w (ECall c r))) -> mwp (m_call c) Q m w.
Proof. intros Hc r _. destruct r; cbn; apply Hc. Qed.

Lemma mwp_now (Q : outcome Z -> M -> world -> Prop) m w : (forall t, Q (Ok t) m (tick w)) -> mwp m_now Q m w.
Proof. intros Hs s _. cbn. apply Hs. Qed.

Lemma mwp_lift {A} (r : outcome A) (Q : outcome A -> M -> world -> Prop) m w : Q r m w -> mwp (m_lift r) Q m w.
Proof. done. Qed.
Lemma mwp_read (Q : outcome M -> M -> world -> Prop) m w : Q (Ok m) m w -> mwp m_read Q m w.
Proof. done. Qed.
Lemma mwp_write f (Q : outcome unit -> M -> world -> Prop) m w : Q (Ok tt) (f m) w -> mwp (m_write f) Q m w.
Proof. done. Qed.

(** ** Three properties of such a program: a part of the memory survives it, the calls it makes are of a
    kind, and the counted ones are few.  All pass through sequencing. *)
Definition keeps {P A} (part : M -> P) (p : mem A) : Prop := forall m w, mwp p (fun _ m' _ => part m' = part m) m w.
Definition mwithin (calls : forall X, Ext X -> Prop) {A} (p : mem A) : Prop := forall m, within any_stmt calls (p m).
Definition mspends (counted : forall X, Ext X -> bool) (n : nat) {A} (p : mem A) : Prop := forall m, spends counted n (p m).

Section Keeps.
Context {P : Type} (part : M -> P).
Notation keeps := (keeps part).
Lemma keeps_bind {A B} (p : mem A) (k : A -> mem B) : keeps p -> (forall a, keeps (k a)) -> keeps (m_bind p k).
Proof.
  intros Hp Hk m w. apply mwp_bind. eapply mwp_mono; [|apply Hp]. intros [a|x] m' w' E; [|done].
  eapply mwp_mono; [|apply Hk]. intros ? m'' ? ->. done.
Qed.
Lemma keeps_try {A} (p : mem A) : keeps p -> keeps (m_try p).
Proof. intros Hp m w. apply mwp_try, Hp. Qed.
Lemma keeps_call {A} (c : Ext A) : keeps (m_call c).
Proof. intros m w. by apply mwp_call. Qed.
Lemma keeps_now : keeps m_now.
Proof. intros m w. by apply mwp_now. Qed.
Lemma keeps_lift {A} (r : outcome A) : keeps (m_lift r).
Proof. done. Qed.
Lemma keeps_read : keeps m_read.
Proof. done. Qed.
Lemma keeps_write f : (forall m, part (f m) = part m) -> keeps (m_write f).
Proof. intros Hf m w. apply Hf. Qed.
End Keeps.

Section Within.
Context (calls : forall X, Ext X -> Prop).
Lemma mwithin_bind {A B} (p : mem A) (k : A -> mem B) : mwithin calls p -> (forall a, mwithin calls (k a)) -> mwithin calls (m_bind p k).
Proof. intros Hp Hk m. apply within_bind; [apply Hp|]. intros [[a|x] m']; [apply Hk|done]. Qed.
Lemma mwithin_bind_lift {A B} (r : outcome A) (k : A -> mem B) :
  (forall a, r = Ok a -> mwithin calls (k a)) -> mwithin calls (m_bind (m_lift r) k).
Proof. intros Hk m. unfold m_bind, m_lift. cbn. destruct r as [a|x]; [by apply Hk|done]. Qed.
Lemma mwithin_try {A} (p : mem A) : mwithin calls p -> mwithin calls (m_try p).
Proof. intros Hp m. by apply within_bind. Qed.
Lemma mwithin_call {A} (c : Ext A) : calls _ c -> mwithin calls (m_call c).
Proof. intros Hc m. apply within_bind; [by apply within_attempt, within_call|done]. Qed.
Lemma mwithin_now : mwithin calls m_now.
Proof. done. Qed.
Lemma mwithin_lift {A} (r : outcome A) : mwithin calls (m_lift r).
Proof. done. Qed.
Lemma mwithin_read : mwithin calls m_read.
Proof. done. Qed.
Lemma mwithin_write f : mwithin calls (m_write f).
Proof. done. Qed.
End Within.

Section Spends.
Context (counted : forall X, Ext X -> bool).
Lemma mspends_mono {A} (p : mem A) n n' : (n <= n')%nat -> mspends counted n p -> mspends counted n' p.
Proof. intros Hn Hp m. by eapply spends_mono. Qed.
Lemma mspends_bind {A B} n1 n2 (p : mem A) (k : A -> mem B) :
  mspends counted n1 p -> (forall a, mspends counted n2 (k a)) -> mspends counted (n1 + n2) (m_bind p k).
Proof. intros Hp Hk m. apply spends_bind; [apply Hp|]. intros [[a|x] m']; [apply Hk|done]. Qed.
Lemma mspends_free {A B} n (p : mem A) (k : A -> mem B) :
  mspends counted 0 p -> (forall a, mspends counted n (k a)) -> mspends counted n (m_bind p k).
Proof. apply (mspends_bind 0). Qed.
Lemma mspends_one {A B} n (p : mem A) (k : A -> mem B) :
  mspends counted 1 p -> (forall a, mspends counted n (k a)) -> mspends counted (S n) (m_bind p k).
Proof. apply (mspends_bind 1). Qed.
Lemma mspends_try {A} n (p : mem A) : mspends counted n p -> mspends counted n (m_try p).
Proof. intros Hp m. unfold m_try. rewrite <- (Nat.add_0_r n). apply spends_bind; [apply Hp|done]. Qed.
Lemma mspends_call {A} (c : Ext A) : mspends counted (if counted _ c then 1 else 0) (m_call c).
Proof. intros m. unfold m_call. cbn. destruct (counted A c); by intros [a|x]. Qed.
Lemma mspends_lift {A} n (r : outcome A) : mspends counted n (m_lift r).
Proof. done. Qed.
Lemma mspends_read n : mspends counted n m_read.
Proof. done. Qed.
Lemma mspends_write n f : mspends counted n (m_write f).
Proof. done. Qed.
Lemma mspends_now n : mspends counted n m_now.
Proof. done. Qed.
End Spends.
End Memory.
#[global] Arguments mem : clear implicits.
Notation "x <~ c ;; k" := (m_bind c (fun x => k)) (at level 100, c at next level, right associativity).

Create HintDb memory.
#[export] Hint Resolve keeps_bind keeps_try keeps_call keeps_now keeps_lift keeps_read keeps_write : memory.
#[export] Hint Resolve mwithin_bind mwithin_try mwithin_call mwithin_now mwithin_lift mwithin_read mwithin_write : memory.
#[export] Hint Resolve mspends_free mspends_try mspends_lift mspends_read mspends_write mspends_now : memory.
#[export] Hint Extern 1 (keeps _ (m_ret ?a)) => exact (keeps_lift _ (Ok a)) : memory.
#[export] Hint Extern 1 (keeps _ (m_throw ?x)) => exact (keeps_lift _ (Err x)) : memory.
#[export] Hint Extern 1 (mwithin _ (m_ret ?a)) => exact (mwithin_lift _ (Ok a)) : memory.
#[export] Hint Extern 1 (mwithin _ (m_throw ?x)) => exact (mwithin_lift _ (Err x)) : memory.
#[export] Hint Extern 1 (mspends _ _ (m_ret ?a)) => exact (mspends_lift _ _ (Ok a)) : memory.
#[export] Hint Extern 1 (mspends _ _ (m_throw ?x)) => exact (mspends_lift _ _ (Err x)) : memory.
(** Steps through a program, to the parts the hints know. *)
Ltac mem_steps :=
  repeat lazymatch goal with
         | |- forall _, _ => intros
         | |- keeps _ (m_bind _ _) => apply keeps_bind; [|intros]
         | |- mwithin _ (m_bind _ _) => apply mwithin_bind; [|intros]
         | |- mspends _ _ (m_bind _ _) => first [apply mspends_free; [solve [mem_steps]|intros]|apply mspends_one; [solve [mem_steps]|intros]]
         | |- context [match ?x with _ => _ end] => 
             first [progress cbv beta iota|lazymatch x with context [match ?y with _ => _ end] => destruct y | _ => destruct x end]
         end;
  auto with memory.

