(* ===== verification/Interleave.v ===== *)
(** Requests that overlap.  Threads are programs over one world; an operation of a thread (a
    statement, a call, a clock read, an output, a transaction as a whole) is atomic, and a schedule
    decides which thread moves next.  A thread [follows] a protocol when each of its operations, in
    whatever world it happens, is a step its protocol state allows; then any interleaving of such
    threads is a run of the protocol's abstract system, and an invariant of that system holds of it. *)
From stdpp Require Import relations.
From S2P Require Import Prelude Prog.

Section Interleave.
Context {D : Type} {Ext : Type -> Type} {Out : Type}.
Notation prog := (prog D Ext Out).
Notation world := (world D Ext Out).

(** ** Execution *)
(** One operation of a thread; none when it has ended. *)
Definition operate {A} (e : env Ext) (p : prog A) (w : world) : option (prog A * world) :=
  match p in Prog.prog _ _ _ A return option (prog A * world) with
  | Ret _ | Throw _ => None
  | Stmt q k => let '(r, w') := run_stmt e q w in Some (k r, w')
  | Call c k => let r := answer e _ (w_tick w) c in Some (k r, note w (ECall c r))
  | Sample k => Some (k (stamps e (w_tick w)), tick w)
  | Emit o k => Some (k, note w (EOut o))
  | Tx body k =>
      let '(r, w') := run e body w in
      let '(r', w'') := run_commit e w w' r in
      Some (k r', w'')
  end.

(** The thread the schedule names moves, if there is one and it has not ended. *)
Definition move {A} (e : env Ext) (c : list (prog A) * world) (i : nat) : list (prog A) * world :=
  match fst c !! i with
  | Some p => match operate e p (snd c) with Some (p', w') => (<[i := p']> (fst c), w') | None => c end
  | None => c
  end.
Definition interleave {A} (e : env Ext) (schedule : list nat) (c : list (prog A) * world) : list (prog A) * world :=
  List.fold_left (move e) schedule c.

Definition ended {A} (r : outcome A) : prog A := match r with Ok a => Ret a | Err x => Throw x end.

Lemma move_on {A} e (p p' q : prog A) ps i w w' w'' :
  ps !! i = Some p -> operate e p w = Some (p', w') ->
  (<[i := p']> ps !! i = Some p' -> exists n, interleave e (List.repeat i n) (<[i := p']> ps, w') = (<[i := q]> (<[i := p']> ps), w'')) ->
  exists n, interleave e (List.repeat i n) (ps, w) = (<[i := q]> ps, w'').
Proof.
  intros Hi Ho Hrest. destruct Hrest as [n Hn]; [by eapply list_lookup_insert_eq, lookup_lt_Some|].
  rewrite list_insert_insert_eq in Hn. exists (S n). cbn [List.repeat interleave List.fold_left]. unfold move at 2.
  cbn [fst snd]. rewrite Hi, Ho. exact Hn.
Qed.

(** A thread that runs alone, to its end. *)
Lemma run_thread {A} e (p : prog A) ps i w :
  ps !! i = Some p ->
  exists n, interleave e (List.repeat i n) (ps, w) = (<[i := ended (fst (run e p w))]> ps, snd (run e p w)).
Proof.
  revert ps w. induction p as [A a|A x|A X q k IH|A X c k IH|A k IH|A o k IH|A X body IHb k IH]; intros ps w Hi; simpl.
  - exists 0%nat. simpl. by rewrite list_insert_id.
  - exists 0%nat. simpl. by rewrite list_insert_id.
  - destruct (run_stmt e q w) as [r w'] eqn:E.
    eapply move_on; [done|cbn; by rewrite E|apply IH].
  - eapply move_on; [done|reflexivity|apply IH].
  - eapply move_on; [done|reflexivity|apply IH].
  - eapply move_on; [done|reflexivity|apply IH].
  - destruct (run e body w) as [r w'] eqn:Eb. destruct (run_commit e w w' r) as [r' w''] eqn:Ec.
    eapply move_on; [done|cbn; by rewrite Eb, Ec|apply IH].
Qed.

(** Running one program is one of its interleavings. *)
Lemma run_is_interleaving {A} e (p : prog A) w :
  exists n, interleave e (List.repeat 0%nat n) ([p], w) = ([ended (fst (run e p w))], snd (run e p w)).
Proof. by apply (run_thread e p [p]). Qed.

(** Programs run one after another. *)
Fixpoint run_each {A} (e : env Ext) (ps : list (prog A)) (w : world) : list (outcome A) * world :=
  match ps with
  | [] => ([], w)
  | p :: ps => let '(r, w') := run e p w in let '(rs, w'') := run_each e ps w' in (r :: rs, w'')
  end.

Lemma in_turn_is_interleaving {A} e (ps : list (prog A)) w :
  exists schedule, interleave e schedule (ps, w) = (List.map ended (fst (run_each e ps w)), snd (run_each e ps w)).
Proof.
  enough (H : forall before, exists schedule, interleave e schedule (before ++ ps, w) =
    (before ++ List.map ended (fst (run_each e ps w)), snd (run_each e ps w))) by exact (H []).
  revert w. induction ps as [|p ps IH]; intros w before; [by exists []|].
  destruct (run_thread e p (before ++ p :: ps) (List.length before) w) as [n Hn].
  { rewrite lookup_app_r by lia. by rewrite Nat.sub_diag. }
  rewrite insert_app_r_alt, Nat.sub_diag in Hn by lia. cbn [list_insert] in Hn.
  destruct (run e p w) as [r w'] eqn:E. cbn [fst snd] in Hn. destruct (IH w' (before ++ [ended r])) as [schedule Hs].
  exists (List.repeat (List.length before) n ++ schedule). unfold interleave in *. rewrite List.fold_left_app, Hn.
  rewrite <- app_assoc in Hs. cbn [run_each]. rewrite E. destruct (run_each e ps w') as [rs w'']. cbn in Hs |- *.
  rewrite Hs. by rewrite <- app_assoc.
Qed.

(** ** Protocols *)
Section Protocol.
Context (Adm : @admissible Ext) {S : Type} (allowed : S -> world -> world -> S -> Prop).

(** Every operation of [p] is one [s] allows, up to its end in a state [Fin] accepts. *)
Fixpoint follows {A} (p : prog A) : (S -> outcome A -> Prop) -> S -> Prop :=
  match p in Prog.prog _ _ _ A return (S -> outcome A -> Prop) -> S -> Prop with
  | Ret a => fun Fin s => Fin s (Ok a)
  | Throw x => fun Fin s => Fin s (Err x)
  | Stmt q k => fun Fin s =>
      forall w, wp_stmt Adm q (fun r w' => exists s', allowed s w w' s' /\ follows (k r) Fin s') w
  | Call c k => fun Fin s =>
      forall w r, Adm _ c r -> exists s', allowed s w (note w (ECall c r)) s' /\ follows (k r) Fin s'
  | Sample k => fun Fin s =>
      forall w st, adm_stamp Adm (w_tick w) st -> exists s', allowed s w (tick w) s' /\ follows (k st) Fin s'
  | Emit o k => fun Fin s => forall w, exists s', allowed s w (note w (EOut o)) s' /\ follows k Fin s'
  | Tx body k => fun Fin s =>
      forall w, wp Adm body (wp_commit Adm w (fun r w' => exists s', allowed s w w' s' /\ follows (k r) Fin s')) w
  end.

Lemma follows_mono {A} (p : prog A) (Fin Fin' : S -> outcome A -> Prop) s :
  (forall s r, Fin s r -> Fin' s r) -> follows p Fin s -> follows p Fin' s.
Proof.
  intros HF. revert s. induction p as [A a|A x|A X q k IH|A X c k IH|A k IH|A o k IH|A X body IHb k IH]; intros s; simpl; auto.
  - intros H w. eapply wp_stmt_mono; [|apply H]. intros r w' (s' & Ha & Hf). exists s'. split; [done|by eapply IH].
  - intros H w r Hr. destruct (H w r Hr) as (s' & Ha & Hf). exists s'. split; [done|by eapply IH].
  - intros H w st Hst. destruct (H w st Hst) as (s' & Ha & Hf). exists s'. split; [done|by eapply IH].
  - intros H w. destruct (H w) as (s' & Ha & Hf). exists s'. split; [done|by eapply IH].
  - intros H w. eapply wp_mono; [|apply H]. intros r w'. apply wp_commit_mono.
    intros r' w'' (s' & Ha & Hf). exists s'. split; [done|by eapply IH].
Qed.

Lemma follows_bind {A B} (p : prog A) (f : A -> prog B) Fin s :
  follows p (fun s' r => match r with Ok a => follows (f a) Fin s' | Err x => Fin s' (Err x) end) s ->
  follows (bind p f) Fin s.
Proof.
  revert f Fin s. induction p as [A a|A x|A X q k IH|A X c k IH|A k IH|A o k IH|A X body IHb k IH]; intros f Fin s; simpl; auto.
  - intros H w. eapply wp_stmt_mono; [|apply H]. intros r w' (s' & Ha & Hf). exists s'. split; [done|by apply IH].
  - intros H w r Hr. destruct (H w r Hr) as (s' & Ha & Hf). exists s'. split; [done|by apply IH].
  - intros H w st Hst. destruct (H w st Hst) as (s' & Ha & Hf). exists s'. split; [done|by apply IH].
  - intros H w. destruct (H w) as (s' & Ha & Hf). exists s'. split; [done|by apply IH].
  - intros H w. eapply wp_mono; [|apply H]. intros r w'. apply wp_commit_mono.
    intros r' w'' (s' & Ha & Hf). exists s'. split; [done|by apply IH].
Qed.

Lemma follows_catch {A} (p : prog A) (h : exn -> prog A) Fin s :
  follows p (fun s' r => match r with Ok a => Fin s' (Ok a) | Err x => follows (h x) Fin s' end) s ->
  follows (catch p h) Fin s.
Proof.
  revert h Fin s. induction p as [A a|A x|A X q k IH|A X c k IH|A k IH|A o k IH|A X body IHb k IH]; intros h Fin s; simpl; auto.
  - intros H w. eapply wp_stmt_mono; [|apply H]. intros r w' (s' & Ha & Hf). exists s'. split; [done|by apply IH].
  - intros H w r Hr. destruct (H w r Hr) as (s' & Ha & Hf). exists s'. split; [done|by apply IH].
  - intros H w st Hst. destruct (H w st Hst) as (s' & Ha & Hf). exists s'. split; [done|by apply IH].
  - intros H w. destruct (H w) as (s' & Ha & Hf). exists s'. split; [done|by apply IH].
  - intros H w. eapply wp_mono; [|apply H]. intros r w'. apply wp_commit_mono.
    intros r' w'' (s' & Ha & Hf). exists s'. split; [done|by apply IH].
Qed.

Lemma follows_attempt {A} (p : prog A) (Fin : S -> outcome (outcome A) -> Prop) s :
  follows p (fun s' r => Fin s' (Ok r)) s -> follows (attempt p) Fin s.
Proof.
  intros H. apply follows_catch, follows_bind. eapply follows_mono; [|exact H]. by intros s' [a|x].
Qed.

Lemma follows_lift {A} (r : outcome A) (Fin : S -> outcome A -> Prop) s : Fin s r -> follows (lift r) Fin s.
Proof. by destruct r. Qed.

Lemma follows_stmt {X} (q : stamp -> D -> outcome (X * D)) (Fin : S -> outcome X -> Prop) s :
  (forall w, wp_stmt Adm q (fun r w' => exists s', allowed s w w' s' /\ Fin s' r) w) -> follows (stmt q) Fin s.
Proof.
  intros H w. eapply wp_stmt_mono; [|apply H]. intros r w' (s' & Ha & Hf). exists s'. split; [done|by apply follows_lift].
Qed.

Lemma follows_call {X} (c : Ext X) (Fin : S -> outcome X -> Prop) s :
  (forall w r, Adm _ c r -> exists s', allowed s w (note w (ECall c r)) s' /\ Fin s' r) -> follows (call c) Fin s.
Proof. intros H w r Hr. destruct (H w r Hr) as (s' & Ha & Hf). exists s'. split; [done|by apply follows_lift]. Qed.

(** The value an operation that cannot fail returns is used at once. *)
Lemma follows_emit_seq {A} (o : Out) (p : prog A) (Fin : S -> outcome A -> Prop) s :
  (forall w, allowed s w (note w (EOut o)) s) -> follows p Fin s -> follows (bind (emit o) (fun _ => p)) Fin s.
Proof. intros Ha Hp w. by exists s. Qed.

Lemma follows_fold {A X} (I : S -> Prop) (body : X -> A -> prog X) (l : list A) acc (Fin : S -> outcome X -> Prop) s :
  (forall acc a s, I s -> follows (body acc a) (fun s' r => match r with Ok _ => I s' | Err x => Fin s' (Err x) end) s) ->
  (forall acc s, I s -> Fin s (Ok acc)) -> I s -> follows (fold body acc l) Fin s.
Proof.
  intros Hbody HF. revert acc s. induction l as [|a l IH]; intros acc s Hs; cbn [fold]; [by apply HF|].
  apply follows_bind. eapply follows_mono; [|by apply Hbody]. intros s' [acc'|x]; [apply IH|done].
Qed.

(** ** The abstract system *)
(** One member moves as its state allows. *)
Definition abstract_step (c c' : list S * world) : Prop :=
  exists i s s', fst c !! i = Some s /\ allowed s (snd c) (snd c') s' /\ fst c' = <[i := s']> (fst c).

(** A thread's operation is a step of its protocol. *)
Lemma operate_allowed {A} e (p p' : prog A) Fin s w w' :
  respects Adm e -> follows p Fin s -> operate e p w = Some (p', w') ->
  exists s', allowed s w w' s' /\ follows p' Fin s'.
Proof.
  intros He. destruct p as [A a|A x|A X q k|A X c k|A k|A o k|A X body k]; cbn [operate follows]; intros Hf; try discriminate.
  - specialize (Hf w). apply (wp_stmt_sound Adm e) in Hf; [|done]. destruct (run_stmt e q w) as [r w1]. by intros [= <- <-].
  - intros [= <- <-]. apply Hf. apply He.
  - intros [= <- <-]. apply Hf. apply He.
  - intros [= <- <-]. apply Hf.
  - specialize (Hf w). apply (wp_sound Adm e) in Hf; [|done]. destruct (run e body w) as [r w1].
    apply (wp_commit_sound Adm e) in Hf; [|done]. destruct (run_commit e w w1 r) as [r' w2]. by intros [= <- <-].
Qed.

(** Any interleaving of threads that follow the protocol is a run of the abstract system. *)
Lemma interleave_refines {A} e (Fin : S -> outcome A -> Prop) schedule ps ss w :
  respects Adm e -> Forall2 (fun p s => follows p Fin s) ps ss ->
  exists ss', rtc abstract_step (ss, w) (ss', snd (interleave e schedule (ps, w))) /\
    Forall2 (fun p s => follows p Fin s) (fst (interleave e schedule (ps, w))) ss'.
Proof.
  intros He. revert ps ss w. induction schedule as [|i schedule IH]; intros ps ss w Hps; [by exists ss|].
  cbn [interleave List.fold_left]. change (List.fold_left (move e) schedule) with (interleave (A := A) e schedule).
  assert (Hstep : exists ss1, rtc abstract_step (ss, w) (ss1, snd (move e (ps, w) i)) /\
    Forall2 (fun p s => follows p Fin s) (fst (move e (ps, w) i)) ss1).
  { unfold move. cbn [fst snd]. destruct (ps !! i) as [p|] eqn:Ep; [|by exists ss].
    destruct (operate e p w) as [[p' w']|] eqn:Eo; [|by exists ss].
    destruct (Forall2_lookup_l _ _ _ _ _ Hps Ep) as (s & Es & Hf).
    destruct (operate_allowed _ _ _ _ _ _ _ He Hf Eo) as (s' & Ha & Hf'). exists (<[i := s']> ss). split.
    - apply rtc_once. exists i, s, s'. done.
    - by apply Forall2_insert. }
  destruct Hstep as (ss1 & H1 & Hps1). destruct (move e (ps, w) i) as [ps1 w1]. cbn [fst snd] in *.
  destruct (IH ps1 ss1 w1 Hps1) as (ss2 & H2 & Hps2). exists ss2. split; [by etrans|done].
Qed.

(** An invariant of the abstract system holds of every interleaving. *)
Lemma interleave_invariant {A} e (Fin : S -> outcome A -> Prop) (J : list S -> world -> Prop) schedule ps ss w :
  respects Adm e -> Forall2 (fun p s => follows p Fin s) ps ss -> J ss w ->
  (forall ss w i s w' s', J ss w -> ss !! i = Some s -> allowed s w w' s' -> J (<[i := s']> ss) w') ->
  exists ss', J ss' (snd (interleave e schedule (ps, w))) /\
    Forall2 (fun p s => follows p Fin s) (fst (interleave e schedule (ps, w))) ss'.
Proof.
  intros He Hps HJ Hpres. destruct (interleave_refines e Fin schedule ps ss w He Hps) as (ss' & Hrun & Hf).
  exists ss'. split; [|done]. clear Hf Hps. remember (ss, w) as c eqn:Ec. remember (ss', snd (interleave e schedule (ps, w))) as c' eqn:Ec'.
  assert (Hinv : J (fst c') (snd c')); [|by subst c'].
  assert (HJc : J (fst c) (snd c)) by (by subst c). clear Ec Ec' HJ.
  induction Hrun as [|c1 c2 c3 (i & s & s' & Hs & Ha & E) _ IH]; [done|]. apply IH. rewrite E. by eapply Hpres.
Qed.
End Protocol.

(** A protocol seen as part of another. *)
Lemma follows_embed {S1 S2 : Type} (Adm : @admissible Ext) (allowed1 : S1 -> world -> world -> S1 -> Prop)
    (allowed2 : S2 -> world -> world -> S2 -> Prop) (g : S1 -> S2) {A} (p : prog A)
    (Fin1 : S1 -> outcome A -> Prop) (Fin2 : S2 -> outcome A -> Prop) s :
  (forall s w w' s', allowed1 s w w' s' -> allowed2 (g s) w w' (g s')) ->
  (forall s r, Fin1 s r -> Fin2 (g s) r) -> follows Adm allowed1 p Fin1 s -> follows Adm allowed2 p Fin2 (g s).
Proof.
  intros Ha HF. revert s. induction p as [A a|A x|A X q k IH|A X c k IH|A k IH|A o k IH|A X body IHb k IH]; intros s; simpl; auto.
  - intros H w. eapply wp_stmt_mono; [|apply H]. intros r w' (s' & H1 & Hf). exists (g s'). split; [by apply Ha|by eapply IH].
  - intros H w r Hr. destruct (H w r Hr) as (s' & H1 & Hf). exists (g s'). split; [by apply Ha|by eapply IH].
  - intros H w st Hst. destruct (H w st Hst) as (s' & H1 & Hf). exists (g s'). split; [by apply Ha|by eapply IH].
  - intros H w. destruct (H w) as (s' & H1 & Hf). exists (g s'). split; [by apply Ha|by eapply IH].
  - intros H w. eapply wp_mono; [|apply H]. intros r w'. apply wp_commit_mono.
    intros r' w'' (s' & H1 & Hf). exists (g s'). split; [by apply Ha|by eapply IH].
Qed.
End Interleave.
