(* ===== verification/Schema.v ===== *)
(** The shared Postgres schema ([packages/db/src/schema.ts]) and the SQL statements the services
    run on it.  A database is one list of rows per table, in insertion order; a column of SQL type
    [numeric] holds the decimal string Drizzle reads and writes, a timestamp holds milliseconds, a
    nullable column is an [option]. *)
From S2P Require Import Prelude Prog.

(** ** Rows *)
Record asset_row := Asset {
  a_id : string; a_code : string; a_issuerG : string; a_issuerCode : string;
  a_contractC : string; a_standard : string; a_yieldType : string; a_custodyMode : string;
  a_ccy : string; a_redemptionLagDays : Z; a_redemptionDailyCap : option string;
  a_navSchedule : string; a_priceBandBps : Z; a_dailyMoveBandBps : Z; a_haircutBaseBps : Z;
  a_haircutFxBps : Z; a_status : string; a_createdAt : Z }.

Record party_row := Party {
  pa_id : string; pa_kind : string; pa_legalName : string; pa_jurisdiction : option string;
  pa_kybStatus : string; pa_kybProvider : option string; pa_kybRef : option string;
  pa_createdAt : Z }.

Record partyAccount_row := PartyAccount {
  pc_partyId : string; pc_stellarAccount : string; pc_role : string;
  pc_verifiedAt : option Z }.

Record priceObservation_row := PriceObservation {
  po_id : string; po_assetId : string; po_source : string; po_value : string;
  po_observedAt : Z; po_signature : option string; po_stale : bool }.

Record priceSnapshot_row := PriceSnapshot {
  ps_id : string; ps_assetId : string; ps_guardedValue : string; ps_status : string;
  ps_sources : jsval; ps_ledger : Z; ps_createdAt : Z }.

Record creditLine_row := CreditLine {
  cl_id : string; cl_lenderId : string; cl_borrowerId : string; cl_loanCcy : string;
  cl_limitAmount : string; cl_rateBps : Z; cl_feeBps : Z; cl_cureWindowS : Z; cl_status : string; cl_contractLineId : option string;
  cl_agreementHash : option string; cl_openedAt : Z; cl_closedAt : option Z }.

Record pledge_row := Pledge {
  pl_id : string; pl_creditLineId : string; pl_assetId : string; pl_units : string;
  pl_custodyMode : string; pl_contractPositionId : option string; pl_lienRef : option string;
  pl_status : string; pl_createdAt : Z }.

Record draw_row := DrawRow {
  dr_id : string; dr_creditLineId : string; dr_amount : string; dr_txHash : string;
  dr_ledger : Z; dr_createdAt : Z }.

Record repayment_row := Repayment {
  rp_id : string; rp_creditLineId : string; rp_principal : string; rp_interest : string;
  rp_txHash : string; rp_ledger : Z;
  rp_createdAt : Z }.

Record marginEvent_row := MarginEvent {
  me_id : string; me_creditLineId : string; me_fromState : string; me_toState : string;
  me_ltvBps : Z; me_priceSnapshotId : option string; me_createdAt : Z }.

Record liquidation_row := Liquidation {
  li_id : string; li_creditLineId : string; li_route : string; li_units : string;
  li_proceeds : option string; li_shortfall : option string; li_txHashes : option (list string);
  li_startedAt : Z; li_completedAt : option Z }.

Record exitQuote_row := ExitQuote {
  eq_id : string; eq_holderId : string; eq_assetId : string; eq_units : string;
  eq_price : string; eq_spreadBps : Z; eq_usdcOut : string; eq_expiresAt : Z;
  eq_status : string }.

Record exitFill_row := ExitFill {
  ef_id : string; ef_quoteId : string; ef_txHash : string; ef_payoutRoute : string;
  ef_payoutMemo : option string; ef_createdAt : Z }.

Record repoTrade_row := RepoTrade {
  rt_id : string; rt_cashLenderId : string; rt_cashBorrowerId : string; rt_assetId : string;
  rt_units : string; rt_cashAmount : string; rt_rateBps : Z; rt_kind : string;
  rt_startLedger : Z; rt_maturityAt : Z; rt_agreementHash : string; rt_status : string; rt_contractTradeId : option string;
  rt_leg1Tx : option string; rt_leg2Tx : option string }.

Record repoMarginCall_row := RepoMarginCall {
  mc_id : string; mc_tradeId : string; mc_amount : string; mc_ccy : string; mc_dueAt : Z;
  mc_curedAt : option Z }.

Record journalEntry_row := JournalEntry {
  je_id : string; je_refType : string; je_refId : string; je_account : string;
  je_debit : string; je_credit : string; je_ccy : string; je_createdAt : Z }.

Record auditLog_row := AuditLog {
  al_id : string; al_actor : string; al_action : string; al_payload : jsval;
  al_txHash : option string; al_createdAt : Z }.

Record txIntent_row := TxIntent {
  ti_txHash : string; ti_kind : string; ti_refId : option string; ti_partyId : string;
  ti_payload : option (list (string * string)); ti_status : string; ti_ledger : option Z;
  ti_error : option string; ti_createdAt : Z; ti_settledAt : option Z }.

Record chainEvent_row := ChainEvent {
  ce_id : string; ce_eventId : option string; ce_ledger : Z; ce_txHash : string;
  ce_contract : string; ce_topic : string; ce_data : jsval;
  ce_ingestedAt : Z }.

Record chainEventGap_row := ChainEventGap {
  cg_id : string; cg_fromLedger : Z; cg_toLedger : Z; cg_detectedAt : Z;
  cg_status : string }.

Record indexerCursor_row := IndexerCursor {
  ic_id : string; ic_lastLedger : Z; ic_updatedAt : Z }.

Record complianceCheck_row := ComplianceCheck {
  cc_id : string; cc_partyId : string; cc_kind : string; cc_result : string;
  cc_matches : jsval; cc_listSource : option string; cc_listLoadedAt : option Z;
  cc_checkedAt : Z }.

Record payoutForward_row := PayoutForward {
  pf_fromTxHash : string; pf_toAccount : string; pf_amount : string; pf_memo : string;
  pf_status : string; pf_txHash : option string; pf_refId : string; pf_quoteId : option string;
  pf_createdAt : Z }.

Record issuerIdempotency_row := IssuerIdempotency {
  ii_issuerCode : string; ii_route : string; ii_idempotencyKey : string;
  ii_requestHash : string; ii_status : string; ii_response : jsval; ii_createdAt : Z;
  ii_completedAt : option Z }.

Record partyApiKey_row := PartyApiKey {
  ak_id : string; ak_partyId : string; ak_stellarAccount : string; ak_keyId : string;
  ak_secretCiphertext : string; ak_label : option string; ak_status : string;
  ak_createdAt : Z; ak_lastUsedAt : option Z; ak_revokedAt : option Z }.

Record apiKeyNonce_row := ApiKeyNonce {
  an_keyId : string; an_nonce : string; an_createdAt : Z }.

Record webhookSubscription_row := WebhookSubscription {
  ws_id : string; ws_partyId : string; ws_url : string; ws_events : jsval;
  ws_secretCiphertext : string; ws_active : bool; ws_createdAt : Z }.

Record webhookDelivery_row := WebhookDelivery {
  wd_id : string; wd_subscriptionId : string; wd_eventKey : string; wd_event : string;
  wd_payload : jsval; wd_status : string; wd_attempts : Z; wd_nextAttemptAt : Z;
  wd_lastError : option string; wd_createdAt : Z; wd_deliveredAt : option Z }.

Record reconciliationRun_row := ReconciliationRun {
  rr_id : string; rr_scope : string; rr_startedAt : Z; rr_breaks : Z; rr_report : jsval }.

(** ** The store *)
Inductive table : Set :=
| asset | party | partyAccount | priceObservation | priceSnapshot | creditLine | pledge | draw
| repayment | marginEvent | liquidation | exitQuote | exitFill | repoTrade | repoMarginCall
| journalEntry | auditLog | txIntent | chainEvent | chainEventGap | indexerCursor
| complianceCheck | payoutForward | issuerIdempotency | partyApiKey | apiKeyNonce
| webhookSubscription | webhookDelivery | reconciliationRun.

#[export] Instance table_eq_dec : EqDecision table.
Proof. solve_decision. Defined.

Definition row (t : table) : Type :=
  match t with
  | asset => asset_row | party => party_row | partyAccount => partyAccount_row
  | priceObservation => priceObservation_row | priceSnapshot => priceSnapshot_row
  | creditLine => creditLine_row | pledge => pledge_row | draw => draw_row
  | repayment => repayment_row | marginEvent => marginEvent_row | liquidation => liquidation_row
  | exitQuote => exitQuote_row | exitFill => exitFill_row | repoTrade => repoTrade_row
  | repoMarginCall => repoMarginCall_row | journalEntry => journalEntry_row
  | auditLog => auditLog_row | txIntent => txIntent_row | chainEvent => chainEvent_row
  | chainEventGap => chainEventGap_row | indexerCursor => indexerCursor_row
  | complianceCheck => complianceCheck_row | payoutForward => payoutForward_row
  | issuerIdempotency => issuerIdempotency_row | partyApiKey => partyApiKey_row
  | apiKeyNonce => apiKeyNonce_row | webhookSubscription => webhookSubscription_row
  | webhookDelivery => webhookDelivery_row | reconciliationRun => reconciliationRun_row
  end.

Definition Database : Type := forall t : table, list (row t).

Definition set_table (t : table) (l : list (row t)) (d : Database) : Database :=
  fun t' => match decide (t = t') with
            | left E => match E in _ = t'' return list (row t'') with eq_refl => l end
            | right _ => d t'
            end.

Definition empty_db : Database := fun _ => [].

Lemma set_table_same t l d : set_table t l d t = l.
Proof.
  unfold set_table. destruct (decide (t = t)) as [E|]; [|done].
  by rewrite (proof_irrel E eq_refl).
Qed.

Lemma set_table_other t t' l d : t <> t' -> set_table t l d t' = d t'.
Proof. intros H. unfold set_table. by destruct (decide (t = t')). Qed.

Ltac db_simpl :=
  repeat first [ rewrite set_table_same in * | rewrite set_table_other in * by discriminate ].

(** ** Constraints: [integer] columns are 32-bit, primary keys and unique indexes, foreign keys. *)
Definition INT4_MAX : Z := 2147483647.
Definition int4 (z : Z) : bool := (- INT4_MAX - 1 <=? z) && (z <=? INT4_MAX).
Definition int4_opt (z : option Z) : bool := match z with Some z => int4 z | None => true end.

Definition in_range (t : table) : row t -> bool :=
  match t return row t -> bool with
  | asset => fun r => int4 (a_redemptionLagDays r) && int4 (a_priceBandBps r) &&
      int4 (a_dailyMoveBandBps r) && int4 (a_haircutBaseBps r) && int4 (a_haircutFxBps r)
  | priceSnapshot => fun r => int4 (ps_ledger r)
  | creditLine => fun r => int4 (cl_rateBps r) && int4 (cl_feeBps r) && int4 (cl_cureWindowS r)
  | draw => fun r => int4 (dr_ledger r)
  | repayment => fun r => int4 (rp_ledger r)
  | marginEvent => fun r => int4 (me_ltvBps r)
  | exitQuote => fun r => int4 (eq_spreadBps r)
  | repoTrade => fun r => int4 (rt_rateBps r) && int4 (rt_startLedger r)
  | txIntent => fun r => int4_opt (ti_ledger r)
  | chainEvent => fun r => int4 (ce_ledger r)
  | chainEventGap => fun r => int4 (cg_fromLedger r) && int4 (cg_toLedger r)
  | indexerCursor => fun r => int4 (ic_lastLedger r)
  | webhookDelivery => fun r => int4 (wd_attempts r)
  | reconciliationRun => fun r => int4 (rr_breaks r)
  | _ => fun _ => true
  end.

(** SQL [=] on a nullable column: a NULL equals nothing. *)
Definition eqs_null (s s' : option string) : bool :=
  match s, s' with Some s, Some s' => eqs s s' | _, _ => false end.

Definition conflict (t : table) : row t -> row t -> bool :=
  match t return row t -> row t -> bool with
  | asset => fun a b => eqs (a_id a) (a_id b)
  | party => fun a b => eqs (pa_id a) (pa_id b)
  | partyAccount => fun a b => eqs (pc_partyId a) (pc_partyId b) &&
      eqs (pc_stellarAccount a) (pc_stellarAccount b)
  | priceObservation => fun a b => eqs (po_id a) (po_id b) ||
      (eqs (po_assetId a) (po_assetId b) && eqs (po_source a) (po_source b) &&
       (po_observedAt a =? po_observedAt b))
  | priceSnapshot => fun a b => eqs (ps_id a) (ps_id b)
  | creditLine => fun a b => eqs (cl_id a) (cl_id b)
  | pledge => fun a b => eqs (pl_id a) (pl_id b)
  | draw => fun a b => eqs (dr_id a) (dr_id b)
  | repayment => fun a b => eqs (rp_id a) (rp_id b)
  | marginEvent => fun a b => eqs (me_id a) (me_id b)
  | liquidation => fun a b => eqs (li_id a) (li_id b) || eqs (li_creditLineId a) (li_creditLineId b)
  | exitQuote => fun a b => eqs (eq_id a) (eq_id b)
  | exitFill => fun a b => eqs (ef_id a) (ef_id b)
  | repoTrade => fun a b => eqs (rt_id a) (rt_id b)
  | repoMarginCall => fun a b => eqs (mc_id a) (mc_id b)
  | journalEntry => fun a b => eqs (je_id a) (je_id b)
  | auditLog => fun a b => eqs (al_id a) (al_id b)
  | txIntent => fun a b => eqs (ti_txHash a) (ti_txHash b)
  | chainEvent => fun a b => eqs (ce_id a) (ce_id b) || eqs_null (ce_eventId a) (ce_eventId b)
  | chainEventGap => fun a b => eqs (cg_id a) (cg_id b) ||
      ((cg_fromLedger a =? cg_fromLedger b) && (cg_toLedger a =? cg_toLedger b))
  | indexerCursor => fun a b => eqs (ic_id a) (ic_id b)
  | complianceCheck => fun a b => eqs (cc_id a) (cc_id b)
  | payoutForward => fun a b => eqs (pf_fromTxHash a) (pf_fromTxHash b)
  | issuerIdempotency => fun a b => eqs (ii_issuerCode a) (ii_issuerCode b) &&
      eqs (ii_route a) (ii_route b) && eqs (ii_idempotencyKey a) (ii_idempotencyKey b)
  | partyApiKey => fun a b => eqs (ak_id a) (ak_id b) || eqs (ak_keyId a) (ak_keyId b)
  | apiKeyNonce => fun a b => eqs (an_keyId a) (an_keyId b) && eqs (an_nonce a) (an_nonce b)
  | webhookSubscription => fun a b => eqs (ws_id a) (ws_id b)
  | webhookDelivery => fun a b => eqs (wd_id a) (wd_id b) ||
      (eqs (wd_subscriptionId a) (wd_subscriptionId b) && eqs (wd_eventKey a) (wd_eventKey b))
  | reconciliationRun => fun a b => eqs (rr_id a) (rr_id b)
  end.

(** Foreign keys: the referenced row exists. *)
Section References.
Context (d : Database).

Definition has_asset (i : string) : bool := existsb (fun r : asset_row => eqs (a_id r) i) (d asset).
Definition has_party (i : string) : bool := existsb (fun r : party_row => eqs (pa_id r) i) (d party).
Definition has_line (i : string) : bool :=
  existsb (fun r : creditLine_row => eqs (cl_id r) i) (d creditLine).

Definition references_ok (t : table) : row t -> bool :=
  match t return row t -> bool with
  | partyAccount => fun r => has_party (pc_partyId r)
  | priceObservation => fun r => has_asset (po_assetId r)
  | priceSnapshot => fun r => has_asset (ps_assetId r)
  | creditLine => fun r => has_party (cl_lenderId r) && has_party (cl_borrowerId r)
  | pledge => fun r => has_line (pl_creditLineId r) && has_asset (pl_assetId r)
  | draw => fun r => has_line (dr_creditLineId r)
  | repayment => fun r => has_line (rp_creditLineId r)
  | marginEvent => fun r => has_line (me_creditLineId r) &&
      match me_priceSnapshotId r with
      | Some i => existsb (fun s : priceSnapshot_row => eqs (ps_id s) i) (d priceSnapshot)
      | None => true
      end
  | liquidation => fun r => has_line (li_creditLineId r)
  | exitQuote => fun r => has_party (eq_holderId r) && has_asset (eq_assetId r)
  | exitFill => fun r => existsb (fun q : exitQuote_row => eqs (eq_id q) (ef_quoteId r)) (d exitQuote)
  | repoTrade => fun r => has_party (rt_cashLenderId r) && has_party (rt_cashBorrowerId r) &&
      has_asset (rt_assetId r)
  | repoMarginCall => fun r =>
      existsb (fun q : repoTrade_row => eqs (rt_id q) (mc_tradeId r)) (d repoTrade)
  | txIntent => fun r => has_party (ti_partyId r)
  | complianceCheck => fun r => has_party (cc_partyId r)
  | partyApiKey => fun r => has_party (ak_partyId r)
  | webhookSubscription => fun r => has_party (ws_partyId r)
  | webhookDelivery => fun r =>
      existsb (fun q : webhookSubscription_row => eqs (ws_id q) (wd_subscriptionId r))
        (d webhookSubscription)
  | _ => fun _ => true
  end.
End References.

(** ** Statements *)
Definition PostgresError (msg : string) : exn := Exn "PostgresError" msg.

Section Statements.
Context (t : table).

Definition sql (X : Type) : Type := stamp -> Database -> outcome (X * Database).

Definition conflicts (r : row t) (d : Database) : bool := existsb (conflict t r) (d t).

(** [INSERT ... VALUES], one row. *)
Definition insert (mk : stamp -> row t) : sql unit := fun s d =>
  let r := mk s in
  if negb (in_range t r) then Err (PostgresError "integer out of range")
  else if conflicts r d then Err (PostgresError "duplicate key value violates unique constraint")
  else if negb (references_ok d t r) then Err (PostgresError "violates foreign key constraint")
  else Ok (tt, set_table t (d t ++ [r]) d).

(** [INSERT ... VALUES ... RETURNING], one row. *)
Definition insert_returning (mk : stamp -> row t) : sql (row t) := fun s d =>
  res <-? insert mk s d ;; Ok (mk s, snd res).

(** [INSERT ... ON CONFLICT DO NOTHING RETURNING], one row: the rows it inserted. *)
Definition insert_ignore (mk : stamp -> row t) : sql (list (row t)) := fun s d =>
  let r := mk s in
  if negb (in_range t r) then Err (PostgresError "integer out of range")
  else if conflicts r d then Ok ([], d)
  else if negb (references_ok d t r) then Err (PostgresError "violates foreign key constraint")
  else Ok ([r], set_table t (d t ++ [r]) d).

(** The same for several rows in one statement. *)
Definition insert_all_ignore (rows : list (row t)) : sql (list (row t)) := fun s d =>
  ofold (fun acc r =>
    let '(ins, d') := acc in
    res <-? insert_ignore (fun _ => r) s d' ;;
    let '(new, d'') := res in Ok (ins ++ new, d'')) ([], d) rows.

(** [INSERT ... ON CONFLICT (primary key) DO UPDATE SET], one row. *)
Definition upsert (mk : stamp -> row t) (f : stamp -> row t -> row t) : sql unit := fun s d =>
  let r := mk s in
  if conflicts r d
  then
    let upd := List.map (f s) (List.filter (conflict t r) (d t)) in
    if forallb (in_range t) upd && in_range t r
    then Ok (tt, set_table t (List.map (fun r' => if conflict t r r' then f s r' else r') (d t)) d)
    else Err (PostgresError "integer out of range")
  else insert (fun _ => r) s d.

(** [SELECT ... WHERE]. *)
Definition select (P : row t -> bool) : sql (list (row t)) := fun _ d => Ok (List.filter P (d t), d).

(** [UPDATE ... SET ... WHERE ... RETURNING]: the updated rows. *)
Definition update (P : row t -> bool) (f : stamp -> row t -> row t) : sql (list (row t)) := fun s d =>
  let new := List.map (fun r => if P r then f s r else r) (d t) in
  let upd := List.map (f s) (List.filter P (d t)) in
  if forallb (in_range t) upd then Ok (upd, set_table t new d)
  else Err (PostgresError "integer out of range").

(** [DELETE ... WHERE]. *)
Definition delete (P : row t -> bool) : sql unit := fun _ d =>
  Ok (tt, set_table t (List.filter (fun r => negb (P r)) (d t)) d).
End Statements.

(** [ORDER BY key DESC], stable. *)
Fixpoint insert_desc {A} (key : A -> Z) (a : A) (l : list A) : list A :=
  match l with
  | [] => [a]
  | b :: l' => if key a <? key b then b :: insert_desc key a l' else a :: l
  end.
Definition order_desc {A} (key : A -> Z) (l : list A) : list A := foldr (insert_desc key) [] l.

Lemma In_insert_desc {A} (key : A -> Z) a b l : In a (insert_desc key b l) -> a = b \/ In a l.
Proof.
  induction l as [|c l IH]; simpl; [naive_solver|]. destruct (key b <? key c); simpl; naive_solver.
Qed.

Lemma In_order_desc {A} (key : A -> Z) a l : In a (order_desc key l) -> In a l.
Proof.
  induction l as [|b l IH]; simpl; [done|]. intros [->|H]%In_insert_desc; [by left|right; auto].
Qed.

(** A row later than all others comes first; of rows in the order of their times the last one does. *)
Lemma order_desc_newest {A} (key : A -> Z) l a : Forall (fun b => key b < key a) l -> order_desc key (l ++ [a]) = a :: order_desc key l.
Proof.
  unfold order_desc. induction l as [|b l IH]; intros Hl; cbn; [done|]. inversion Hl as [|? ? Hb Hl']; subst.
  rewrite IH by done. cbn. by rewrite (proj2 (Z.ltb_lt _ _) Hb).
Qed.

Lemma order_desc_last {A} (key : A -> Z) l : StronglySorted (fun a b => key a < key b) l -> hd_error (order_desc key l) = last l.
Proof.
  induction l as [|a l _] using rev_ind; [done|]. intros Hs. rewrite order_desc_newest, last_snoc; [done|].
  induction l as [|b l IH]; [constructor|]. apply StronglySorted_inv in Hs as [Hs Hb]. constructor; [|by apply IH].
  by apply Forall_app in Hb as [_ ?%Forall_cons_1%proj1].
Qed.
