(* ===== verification/Rules.v ===== *)
(** Program logic for the SQL statements of [Schema]: one weakest-precondition rule per statement,
    the automation that applies them, and lemmas on what a statement leaves unchanged. *)
From S2P Require Import Prelude Prog Shape Schema.

Section Rules.
Context {Ext : Type -> Type} {Out : Type} (Adm : @admissible Ext).
Notation world := (world Database Ext Out).
Implicit Types w : world.

(** The world after a statement that left database [d]. *)
Definition after (w : world) (d : Database) : world := tick (with_db w d).

Lemma after_same w : after w (w_db w) = tick w.
Proof. done. Qed.

(** The rule every statement's rule comes from: no effect and an error, or its effect, acknowledged
    or not. *)
Lemma wp_stmt_ack {X} (q : sql X) (Q : outcome X -> world -> Prop) w :
  (forall x, Q (Err x) (tick w)) ->
  (forall s v d', q s (w_db w) = Ok (v, d') -> Q (Ok v) (after w d') /\ forall x, Q (Err x) (after w d')) ->
  wp Adm (stmt q) Q w.
Proof.
  intros Herr Hok. apply wp_stmt_op. split; [done|]. intros s _. specialize (Hok s).
  destruct (q s (w_db w)) as [[v d']|x]; [|done]. destruct (Hok v d' eq_refl). split; auto.
Qed.

Lemma wp_insert t (mk : stamp -> row t) (Q : outcome unit -> world -> Prop) w :
  (forall x, Q (Err x) (tick w)) ->
  (forall s, let d' := set_table t (w_db w t ++ [mk s]) (w_db w) in
     in_range t (mk s) = true -> conflicts t (mk s) (w_db w) = false ->
     references_ok (w_db w) t (mk s) = true ->
     Q (Ok tt) (after w d') /\ forall x, Q (Err x) (after w d')) ->
  wp Adm (stmt (insert t mk)) Q w.
Proof.
  intros Herr Hok. apply wp_stmt_ack; [done|]. intros s v d'. unfold insert.
  specialize (Hok s). cbn zeta in Hok.
  destruct (in_range t (mk s)) eqn:?, (conflicts t (mk s) (w_db w)) eqn:?,
    (references_ok (w_db w) t (mk s)) eqn:?; cbn [negb]; intros [=]; subst; auto.
Qed.

Lemma wp_insert_returning t (mk : stamp -> row t) (Q : outcome (row t) -> world -> Prop) w :
  (forall x, Q (Err x) (tick w)) ->
  (forall s, let d' := set_table t (w_db w t ++ [mk s]) (w_db w) in
     in_range t (mk s) = true -> conflicts t (mk s) (w_db w) = false ->
     references_ok (w_db w) t (mk s) = true ->
     Q (Ok (mk s)) (after w d') /\ forall x, Q (Err x) (after w d')) ->
  wp Adm (stmt (insert_returning t mk)) Q w.
Proof.
  intros Herr Hok. apply wp_stmt_ack; [done|]. intros s v d'. unfold insert_returning, insert.
  specialize (Hok s). cbn zeta in Hok.
  destruct (in_range t (mk s)) eqn:?, (conflicts t (mk s) (w_db w)) eqn:?,
    (references_ok (w_db w) t (mk s)) eqn:?; cbn [negb obind snd]; intros [=]; subst; auto.
Qed.

Lemma wp_insert_stamped t (mk : stamp -> row t) (Q : outcome unit -> world -> Prop) w :
  (forall x, Q (Err x) (tick w)) ->
  (forall s, let d' := set_table t (w_db w t ++ [mk s]) (w_db w) in
     adm_stamp Adm (w_tick w) s -> Q (Ok tt) (after w d') /\ forall x, Q (Err x) (after w d')) ->
  wp Adm (stmt (insert t mk)) Q w.
Proof.
  intros Herr Hok. apply wp_stmt_op. split; [done|]. intros s Hs. specialize (Hok s Hs). unfold insert.
  destruct (in_range t (mk s)), (conflicts t (mk s) (w_db w)), (references_ok (w_db w) t (mk s)); cbn [negb]; auto.
  destruct Hok. split; auto.
Qed.

Lemma wp_insert_ignore_stamped t (mk : stamp -> row t) (Q : outcome (list (row t)) -> world -> Prop) w :
  (forall x, Q (Err x) (tick w)) ->
  (forall s, adm_stamp Adm (w_tick w) s -> conflicts t (mk s) (w_db w) = true -> Q (Ok []) (after w (w_db w))) ->
  (forall s, let d' := set_table t (w_db w t ++ [mk s]) (w_db w) in
     adm_stamp Adm (w_tick w) s -> in_range t (mk s) = true -> conflicts t (mk s) (w_db w) = false ->
     references_ok (w_db w) t (mk s) = true ->
     Q (Ok [mk s]) (after w d') /\ forall x, Q (Err x) (after w d')) ->
  wp Adm (stmt (insert_ignore t mk)) Q w.
Proof.
  intros Herr Hconf Hok. apply wp_stmt_op. split; [done|]. intros s Hs.
  specialize (Hconf s Hs). specialize (Hok s). cbn zeta in Hok. unfold insert_ignore.
  destruct (in_range t (mk s)) eqn:?, (conflicts t (mk s) (w_db w)) eqn:?,
    (references_ok (w_db w) t (mk s)) eqn:?; cbn [negb]; auto;
    (split; [by apply Hconf|intros x _; apply Herr]) || (destruct Hok as [H1 H2]; auto; split; auto).
Qed.

Lemma wp_insert_ignore t (mk : stamp -> row t) (Q : outcome (list (row t)) -> world -> Prop) w :
  (forall x, Q (Err x) (tick w)) ->
  (forall s, conflicts t (mk s) (w_db w) = true -> Q (Ok []) (after w (w_db w))) ->
  (forall s, let d' := set_table t (w_db w t ++ [mk s]) (w_db w) in
     in_range t (mk s) = true -> conflicts t (mk s) (w_db w) = false ->
     references_ok (w_db w) t (mk s) = true ->
     Q (Ok [mk s]) (after w d') /\ forall x, Q (Err x) (after w d')) ->
  wp Adm (stmt (insert_ignore t mk)) Q w.
Proof. intros Herr Hconf Hok. apply wp_insert_ignore_stamped; [done|intros s _; apply Hconf|intros s d' _; apply Hok]. Qed.

Lemma wp_select t (P : row t -> bool) (Q : outcome (list (row t)) -> world -> Prop) w :
  (forall x, Q (Err x) (tick w)) ->
  Q (Ok (List.filter P (w_db w t))) (tick w) ->
  wp Adm (stmt (select t P)) Q w.
Proof.
  intros Herr Hok. apply wp_stmt_ack; [done|]. intros s v d' [= <- <-].
  rewrite after_same. auto.
Qed.

Lemma wp_stmt_update t (P : row t -> bool) (f : stamp -> row t -> row t) (Q : outcome (list (row t)) -> world -> Prop) w :
  (forall x, Q (Err x) (tick w)) ->
  (forall s, let d' := set_table t (List.map (fun r => if P r then f s r else r) (w_db w t)) (w_db w) in
     Q (Ok (List.map (f s) (List.filter P (w_db w t)))) (after w d') /\
     forall x, Q (Err x) (after w d')) ->
  wp_stmt Adm (update t P f) Q w.
Proof.
  intros Herr Hok. split; [done|]. intros s _. unfold update. specialize (Hok s). cbn zeta in Hok.
  destruct (forallb _ _); [|done]. destruct Hok. split; auto.
Qed.

Lemma wp_update t (P : row t -> bool) (f : stamp -> row t -> row t) (Q : outcome (list (row t)) -> world -> Prop) w :
  (forall x, Q (Err x) (tick w)) ->
  (forall s, let d' := set_table t (List.map (fun r => if P r then f s r else r) (w_db w t)) (w_db w) in
     Q (Ok (List.map (f s) (List.filter P (w_db w t)))) (after w d') /\
     forall x, Q (Err x) (after w d')) ->
  wp Adm (stmt (update t P f)) Q w.
Proof. intros Herr Hok. by apply wp_stmt_op, wp_stmt_update. Qed.

Lemma wp_delete t (P : row t -> bool) (Q : outcome unit -> world -> Prop) w :
  (forall x, Q (Err x) (tick w)) ->
  (let d' := set_table t (List.filter (fun r => negb (P r)) (w_db w t)) (w_db w) in
     Q (Ok tt) (after w d') /\ forall x, Q (Err x) (after w d')) ->
  wp Adm (stmt (delete t P)) Q w.
Proof. intros Herr Hok. apply wp_stmt_ack; [done|]. by intros s v d' [= <- <-]. Qed.

(** A condition on the world that only looks at the database and the log. *)
Lemma w_db_after w d : w_db (after w d) = d.
Proof. done. Qed.
Lemma w_log_after w d : w_log (after w d) = w_log w.
Proof. done. Qed.
Lemma w_db_tick w : w_db (tick w) = w_db w.
Proof. done. Qed.
Lemma w_log_tick w : w_log (tick w) = w_log w.
Proof. done. Qed.
Lemma w_db_note w e : w_db (note w e) = w_db w.
Proof. done. Qed.
Lemma w_log_note w e : w_log (note w e) = w_log w ++ [e].
Proof. done. Qed.
Lemma w_db_with w d : w_db (with_db w d) = d.
Proof. done. Qed.
Lemma w_log_with w d : w_log (with_db w d) = w_log w.
Proof. done. Qed.
End Rules.

Create Rewrite HintDb world.
#[export] Hint Rewrite @w_db_after @w_log_after @w_db_tick @w_log_tick @w_db_note @w_log_note
  @w_db_with @w_log_with : world.

(** One step of symbolic execution of a [wp] goal. *)
Ltac wp_step :=
  lazymatch goal with
  | |- wp _ (bind _ _) _ _ => apply wp_bind
  | |- wp _ (attempt _) _ _ => apply wp_attempt
  | |- wp _ (catch _ _) _ _ => apply wp_catch
  | |- wp _ (transaction _) _ _ => apply wp_transaction
  | |- wp _ (lift _) _ _ => apply wp_lift
  | |- wp _ (call _) _ _ => apply wp_call_op; let r := fresh "r" in let Hr := fresh "Hadm" in intros r Hr
  | |- wp _ (stmt (insert ?t _)) _ _ => apply (wp_insert _ t); cbn zeta
  | |- wp _ (stmt (insert_returning ?t _)) _ _ => apply (wp_insert_returning _ t); cbn zeta
  | |- wp _ (stmt (insert_ignore ?t _)) _ _ => apply (wp_insert_ignore _ t); cbn zeta
  | |- wp _ (stmt (select ?t _)) _ _ => apply (wp_select _ t)
  | |- wp _ (stmt (update ?t _ _)) _ _ => apply (wp_update _ t); cbn zeta
  | |- wp _ (stmt (delete ?t _)) _ _ => apply (wp_delete _ t); cbn zeta
  | |- wp _ (Ret _) _ _ => cbn [wp]
  | |- wp _ (Throw _) _ _ => cbn [wp]
  | |- wp _ sample _ _ => cbn [wp sample]; let s := fresh "s" in intros s _
  | |- wp _ (emit _) _ _ => cbn [wp emit]
  | |- wp _ (if ?b then _ else _) _ _ => let E := fresh "E" in destruct b eqn:E
  | |- wp _ (match ?b with _ => _ end) _ _ => let E := fresh "E" in destruct b eqn:E
  end.

Ltac world_simpl := autorewrite with world in *; cbn [row] in *.

(** Symbolic execution as far as it goes, splitting on every outcome. *)
Ltac wp_go :=
  repeat first [ wp_step
               | match goal with |- match ?r with Ok _ => _ | Err _ => _ end => destruct r eqn:? end ].

(** ** Common shapes of statement *)
(** [const [row] = await db.select()...limit(1)], and a use of [row.x!] when there is none. *)
Definition select_one {Ext : Type -> Type} {Out} t (P : row t -> bool) : prog Database Ext Out (option (row t)) :=
  rows <- stmt (select t P) ;; Ret (hd_error rows).

Lemma leaves_select t (P : row t -> bool) : leaves_db (list (row t)) (select t P).
Proof. done. Qed.
Lemma within_select_one {Ext : Type -> Type} {Out} (stmts : forall X, sql X -> Prop) (calls : forall X, Ext X -> Prop) t (P : row t -> bool) :
  stmts _ (select t P) -> within stmts calls (@select_one Ext Out t P).
Proof. intros Hs. unfold select_one. auto with within. Qed.
#[export] Hint Extern 1 (leaves_db _ (select ?t _)) => exact (leaves_select t _) : within.
#[export] Hint Extern 1 (within _ _ (select_one ?t _)) => apply (within_select_one _ _ t) : within.

Definition update_row {Ext : Type -> Type} {Out} t (P : row t -> bool) (f : row t -> row t)
  : prog Database Ext Out unit :=
  stmt (update t P (fun _ => f)) ;;; Ret tt.


Section Shapes.
Context {Ext : Type -> Type} {Out : Type} (Adm : @admissible Ext).
Notation world := (world Database Ext Out).
Implicit Types w : world.

(** The database a returning step leaves; a throwing step is rolled back by its transaction. *)
Definition ok_db {A} (P : A -> Database -> Prop) (r : outcome A) (w' : world) : Prop :=
  match r with Ok a => P a (w_db w') | Err _ => True end.

Lemma wp_seq {A B} (p : prog Database Ext Out A) (f : A -> prog Database Ext Out B) P Q w :
  wp Adm p (ok_db Q) w ->
  (forall a w', Q a (w_db w') -> wp Adm (f a) (ok_db P) w') ->
  wp Adm (bind p f) (ok_db P) w.
Proof.
  intros Hp Hf. apply wp_bind. eapply wp_mono; [|exact Hp]. intros [a|x] w'; [apply Hf|done].
Qed.

Lemma wp_update_row t (P : row t -> bool) (f : row t -> row t) (Q : unit -> Database -> Prop) w :
  Q tt (set_table t (List.map (fun r => if P r then f r else r) (w_db w t)) (w_db w)) ->
  wp Adm (update_row t P f) (ok_db Q) w.
Proof.
  intros HQ. unfold update_row. wp_step. wp_step; [done|]. intros _. split; [|done]. by wp_step.
Qed.

Lemma wp_update_seq {B} t (P : row t -> bool) (f : stamp -> row t -> row t) (k : list (row t) -> prog Database Ext Out B) Q w :
  (forall s l w', w_db w' = set_table t (List.map (fun r => if P r then f s r else r) (w_db w t)) (w_db w) ->
    wp Adm (k l) (ok_db Q) w') ->
  wp Adm (bind (stmt (update t P f)) k) (ok_db Q) w.
Proof.
  intros HQ. wp_step. wp_step; [done|]. intros s. split; [|done]. eapply HQ. by world_simpl.
Qed.

Lemma wp_update_row_seq {B} t (P : row t -> bool) (f : row t -> row t) (k : unit -> prog Database Ext Out B) Q w :
  (forall w', w_db w' = set_table t (List.map (fun r => if P r then f r else r) (w_db w t)) (w_db w) ->
    wp Adm (k tt) (ok_db Q) w') ->
  wp Adm (bind (update_row t P f) k) (ok_db Q) w.
Proof.
  intros HQ. eapply (wp_seq _ _ _ (fun _ d' => d' = set_table t _ (w_db w))).
  - by apply wp_update_row.
  - intros [] w'. apply HQ.
Qed.

Lemma wp_insert_ok t (mk : stamp -> row t) (Q : unit -> Database -> Prop) w :
  (forall s, Q tt (set_table t (w_db w t ++ [mk s]) (w_db w))) ->
  wp Adm (stmt (insert t mk)) (ok_db Q) w.
Proof. intros HQ. wp_step; [done|]. intros s _ _ _. split; [apply HQ|done]. Qed.

Lemma wp_select_seq {B} t (P : row t -> bool) (k : list (row t) -> prog Database Ext Out B) Q w :
  (forall w', w_db w' = w_db w -> wp Adm (k (List.filter P (w_db w t))) (ok_db Q) w') ->
  wp Adm (bind (stmt (select t P)) k) (ok_db Q) w.
Proof. intros HQ. wp_step. wp_step; [done|]. by apply HQ. Qed.

Lemma wp_select_one_seq {B} t (P : row t -> bool) (k : option (row t) -> prog Database Ext Out B) Q w :
  (forall o w', w_db w' = w_db w -> wp Adm (k o) (ok_db Q) w') ->
  wp Adm (bind (select_one t P) k) (ok_db Q) w.
Proof.
  intros HQ. wp_step. unfold select_one. wp_step. wp_step; [done|]. wp_step. by apply HQ.
Qed.

Lemma wp_lift_seq {A B} (r : outcome A) (k : A -> prog Database Ext Out B) Q w :
  (forall a, r = Ok a -> wp Adm (k a) (ok_db Q) w) -> wp Adm (bind (lift r) k) (ok_db Q) w.
Proof. intros HQ. wp_step. wp_step. destruct r; [by apply HQ|done]. Qed.

(** A contract read: the value handed in, or asked for now. *)
Lemma wp_read_seq {A B} (p : prog Database Ext Out A) (k : A -> prog Database Ext Out B) Q w :
  wp Adm p (fun _ w' => w_db w' = w_db w) w ->
  (forall a w', w_db w' = w_db w -> wp Adm (k a) (ok_db Q) w') ->
  wp Adm (bind p k) (ok_db Q) w.
Proof.
  intros Hp Hk. wp_step. eapply wp_mono; [|exact Hp]. intros [a|x] w'; [apply Hk|done].
Qed.


Lemma wp_update_row_eq t (P : row t -> bool) (f : row t -> row t) w :
  wp Adm (update_row t P f)
    (ok_db (fun _ d' => d' = set_table t (List.map (fun r => if P r then f r else r) (w_db w t)) (w_db w))) w.
Proof. by apply wp_update_row. Qed.
End Shapes.
