(* ===== verification/Views.v ===== *)
(** Programs that cannot tell two databases apart: from both they come to the same result, when the
    database does not fail. *)
From S2P Require Import Prelude Prog Schema Rules.

Section Views.
Context {Ext : Type -> Type} {Out : Type} (e : env Ext).
Notation prog := (prog Database Ext Out).
Notation world := (world Database Ext Out).
Implicit Types w : world.

Hypothesis calm : forall n, db_fault e n = NoFault.

Definition alike {A} (p1 p2 : prog A) w1 w2 : Prop := fst (run e p1 w1) = fst (run e p2 w2).

Lemma run_stmt_calm {X} (q : stamp -> Database -> outcome (X * Database)) w :
  run_stmt e q w = match q (stamps e (w_tick w)) (w_db w) with Ok (v, d') => (Ok v, tick (with_db w d')) | Err x => (Err x, tick w) end.
Proof. unfold run_stmt. by rewrite calm. Qed.

(** A statement with the same outcome on both sides. *)
Lemma alike_stmt {A X} (q : stamp -> Database -> outcome (X * Database)) (k : X -> prog A) w1 w2 :
  w_tick w1 = w_tick w2 ->
  match q (stamps e (w_tick w1)) (w_db w1), q (stamps e (w_tick w1)) (w_db w2) with
  | Ok (v1, d1), Ok (v2, d2) => alike (k v1) (k v2) (tick (with_db w1 d1)) (tick (with_db w2 d2))
  | Err x1, Err x2 => x1 = x2
  | _, _ => False
  end -> alike (v <- stmt q ;; k v) (v <- stmt q ;; k v) w1 w2.
Proof.
  intros Ht Hk. unfold alike. rewrite !run_bind, !run_stmt_op, !run_stmt_calm, <- Ht.
  destruct (q _ (w_db w1)) as [[v1 d1]|x1], (q _ (w_db w2)) as [[v2 d2]|x2]; try done. by subst x2.
Qed.

Lemma alike_select {A} t (P : row t -> bool) (k : list (row t) -> prog A) w1 w2 :
  w_tick w1 = w_tick w2 -> List.filter P (w_db w1 t) = List.filter P (w_db w2 t) ->
  (forall rows w1' w2', w_tick w1' = w_tick w2' -> w_db w1' = w_db w1 -> w_db w2' = w_db w2 -> rows = List.filter P (w_db w1 t) ->
     alike (k rows) (k rows) w1' w2') ->
  alike (rows <- stmt (select t P) ;; k rows) (rows <- stmt (select t P) ;; k rows) w1 w2.
Proof. intros Ht HP Hk. apply alike_stmt; [done|]. unfold select. rewrite <- HP. apply Hk; cbn; congruence. Qed.


Section Aligned.
Context (d1 d2 : Database).

Definition aligned w1 w2 : Prop := w_tick w1 = w_tick w2 /\ w_db w1 = d1 /\ w_db w2 = d2.

Lemma aligned_step w1 w2 w1' w2' : aligned w1 w2 -> w_tick w1' = w_tick w2' -> w_db w1' = w_db w1 -> w_db w2' = w_db w2 -> aligned w1' w2'.
Proof. unfold aligned. intuition congruence. Qed.

(** A read of rows the two databases agree on. *)
Lemma alike_read {A} t (P : row t -> bool) (k : list (row t) -> prog A) w1 w2 :
  aligned w1 w2 -> List.filter P (d1 t) = List.filter P (d2 t) ->
  (forall w1' w2', aligned w1' w2' -> alike (k (List.filter P (d1 t))) (k (List.filter P (d1 t))) w1' w2') ->
  alike (rows <- stmt (select t P) ;; k rows) (rows <- stmt (select t P) ;; k rows) w1 w2.
Proof.
  intros Ha HP Hk. pose proof Ha as (Ht & E1 & E2). apply alike_select; [done|by rewrite E1, E2|].
  intros rows w1' w2' Ht' E1' E2' ->. rewrite E1. apply Hk. by apply (aligned_step w1 w2).
Qed.

Lemma alike_read_one {A} t (P : row t -> bool) (k : option (row t) -> prog A) w1 w2 :
  aligned w1 w2 -> List.filter P (d1 t) = List.filter P (d2 t) ->
  (forall r w1' w2', aligned w1' w2' -> (forall x, r = Some x -> In x (d1 t) /\ In x (d2 t) /\ P x = true) -> alike (k r) (k r) w1' w2') ->
  alike (r <- select_one t P ;; k r) (r <- select_one t P ;; k r) w1 w2.
Proof.
  intros Ha HP Hk. unfold alike.
  assert (Hone : forall w, run e (r <- select_one t P ;; k r) w = run e (rows <- stmt (select t P) ;; k (hd_error rows)) w).
  { intros w. cbn. by destruct (run_stmt e _ w) as [[rows|x] w']. }
  rewrite !Hone. apply (alike_read t P (fun rows => k (hd_error rows))); [done..|]. intros w1' w2' Ha'. apply Hk; [done|]. intros x Hx.
  assert (Hx2 := Hx). rewrite HP in Hx2. apply head_filter_In in Hx as [? ?], Hx2 as [? ?]. done.
Qed.

(** *** Programs that only look: the same result from both, and both left as they were *)
Definition sees2 {A} (p1 p2 : prog A) : Prop := forall w1 w2, aligned w1 w2 ->
  exists r w1' w2', run e p1 w1 = (r, w1') /\ run e p2 w2 = (r, w2') /\ aligned w1' w2'.
Definition sees {A} (p : prog A) : Prop := sees2 p p.

Lemma sees_ret {A} (a : A) : sees (Ret a).
Proof. intros w1 w2 Ha. by exists (Ok a), w1, w2. Qed.
Lemma sees_throw {A} x : sees (Throw x : prog A).
Proof. intros w1 w2 Ha. by exists (Err x), w1, w2. Qed.
Lemma sees_lift {A} (r : outcome A) : sees (lift r).
Proof. destruct r; [apply sees_ret|apply sees_throw]. Qed.

Lemma sees_bind {A B} (p : prog A) (k : A -> prog B) : sees p -> (forall a, sees (k a)) -> sees (bind p k).
Proof.
  intros Hp Hk w1 w2 Ha. destruct (Hp w1 w2 Ha) as (r & w1' & w2' & E1 & E2 & Ha'). rewrite !run_bind, E1, E2.
  destruct r as [a|x]; [by apply Hk|]. by exists (Err x), w1', w2'.
Qed.

(** The rows may differ, if what is made of them does not. *)
Lemma sees2_select {B} t (P : row t -> bool) (k1 k2 : list (row t) -> prog B) :
  sees2 (k1 (List.filter P (d1 t))) (k2 (List.filter P (d2 t))) -> sees2 (rows <- stmt (select t P) ;; k1 rows) (rows <- stmt (select t P) ;; k2 rows).
Proof.
  intros Hk w1 w2 (Ht & E1 & E2). rewrite !run_bind, !run_stmt_op, !run_stmt_calm. unfold select.
  rewrite E1, E2. apply Hk. unfold aligned. cbn. auto with f_equal.
Qed.

Lemma sees_select {B} t (P : row t -> bool) (k : list (row t) -> prog B) :
  List.filter P (d1 t) = List.filter P (d2 t) -> sees (k (List.filter P (d1 t))) -> sees (rows <- stmt (select t P) ;; k rows).
Proof. intros HP Hk. apply sees2_select. by rewrite <- HP. Qed.

Lemma sees_select_one {B} t (P : row t -> bool) (k : option (row t) -> prog B) :
  List.filter P (d1 t) = List.filter P (d2 t) -> (forall r, hd_error (List.filter P (d1 t)) = r -> sees (k r)) ->
  sees (r <- select_one t P ;; k r).
Proof.
  intros HP Hk w1 w2 Ha.
  assert (Hone : forall w, run e (r <- select_one t P ;; k r) w = run e (rows <- stmt (select t P) ;; k (hd_error rows)) w).
  { intros w. cbn. by destruct (run_stmt e _ w) as [[rows|x] w']. }
  rewrite !Hone. by apply (sees_select t P (fun rows => k (hd_error rows))); [|apply Hk|].
Qed.

Lemma sees_sample {B} (k : stamp -> prog B) : (forall s, sees (k s)) -> sees (s <- sample ;; k s).
Proof. intros Hk w1 w2 (Ht & E1 & E2). cbn. rewrite <- Ht. apply Hk. unfold aligned. cbn. auto. Qed.

Lemma sees_fold {A S} (body : S -> A -> prog S) s l : (forall s a, In a l -> sees (body s a)) -> sees (fold body s l).
Proof.
  revert s. induction l as [|a l IH]; intros s Hb; cbn; [apply sees_ret|]. apply sees_bind; [apply Hb; by left|].
  intros s'. apply IH. intros. apply Hb. by right.
Qed.

Lemma sees_catch {A} (p : prog A) (h : exn -> prog A) : sees p -> (forall x, sees (h x)) -> sees (catch p h).
Proof.
  intros Hp Hh w1 w2 Ha. destruct (Hp w1 w2 Ha) as (r & w1' & w2' & E1 & E2 & Ha'). rewrite !run_catch, E1, E2.
  destruct r as [a|x]; [by exists (Ok a), w1', w2'|by apply Hh].
Qed.
End Aligned.
End Views.
