(* ===== verification/Domain.v ===== *)
(** Shared domain code: [packages/domain-types/src] (money, price, risk, margin) and the
    double-entry journal of [packages/db/src/journal.ts]. *)
From S2P Require Import Prelude Prog Schema Rules.

(** ** money.ts and price.ts *)
Definition PRICE_SCALE : Z := 10000000.

Definition scaledToDecimalString (raw : Z) : outcome string :=
  if raw <? 0 then Err (Error "money: amount must not be negative")
  else
    let whole := Z.quot raw PRICE_SCALE in
    let frac := pad_start 7 "0" (Z_to_string (Z.rem raw PRICE_SCALE)) in
    Ok (Z_to_string whole +:+ "." +:+ frac).

Definition decimalStringToScaled (decimal : string) : outcome Z :=
  let negative := starts_with "-" decimal in
  let unsigned := if negative then string_drop 1 decimal else decimal in
  let parts := split_on "." unsigned in
  let wholePart := nth 0 parts "" in
  let fracPart := nth 1 parts "" in
  let fracPadded := string_take 7 (fracPart +:+ "0000000") in
  whole <-? BigInt (js_or wholePart "0") ;;
  frac <-? BigInt (js_or fracPadded "0") ;;
  let combined := whole * PRICE_SCALE + frac in
  Ok (if negative then - combined else combined).

(** [services/price-guard/src/scaled.ts] keeps its own printer, which accepts negatives. *)
Definition signed_scaledToDecimalString (raw : Z) : string :=
  let negative := raw <? 0 in
  let abs := if negative then - raw else raw in
  let whole := Z.quot abs PRICE_SCALE in
  let frac := pad_start 7 "0" (Z_to_string (Z.rem abs PRICE_SCALE)) in
  (if negative then "-" else "") +:+ Z_to_string whole +:+ "." +:+ frac.

Inductive PriceStatus := POk | Degraded | Halted.

Definition isUsableForNewRisk (s : PriceStatus) : bool := match s with POk => true | _ => false end.
Definition isUsableForLiquidation (s : PriceStatus) : bool := match s with POk => true | _ => false end.

(** ** risk.ts.  BigInt division truncates towards zero. *)
Definition BPS_DENOMINATOR : Z := 10000.
Definition MAX_SAFE_INTEGER : Z := 9007199254740991.

(** [Number(z)]: the nearest double, ties to even (the range of a double is never left here). *)
Definition Number (z : Z) : Z :=
  let n := Z.log2 (Z.abs z) in
  if n <? 53 then z
  else
    let unit := 2 ^ (n - 52) in
    let q := Z.abs z / unit in
    let r := Z.abs z mod unit in
    let q' := if (unit <? 2 * r) || ((unit =? 2 * r) && Z.odd q) then q + 1 else q in
    Z.sgn z * (q' * unit).

Definition collateralValue (units guardedPrice haircutBps : Z) : outcome Z :=
  if (haircutBps <? 0) || (BPS_DENOMINATOR <? haircutBps) then Err (Error "haircut exceeds 100%")
  else
    let gross := Z.quot (units * guardedPrice) PRICE_SCALE in
    Ok (Z.quot (gross * (BPS_DENOMINATOR - haircutBps)) BPS_DENOMINATOR).

Definition ltvBps (debt collateralValueAmount : Z) : Z :=
  if debt <=? 0 then 0
  else if collateralValueAmount <=? 0 then MAX_SAFE_INTEGER
  else Number (Z.quot (debt * BPS_DENOMINATOR) collateralValueAmount).

(** ** margin.ts *)
Inductive MarginState := Healthy | Warning | MarginCall | Liquidation.

#[export] Instance MarginState_eq_dec : EqDecision MarginState.
Proof. solve_decision. Defined.

Definition MarginState_name (s : MarginState) : string :=
  match s with
  | Healthy => "Healthy" | Warning => "Warning" | MarginCall => "MarginCall"
  | Liquidation => "Liquidation"
  end.

Record MarginThresholds := Thresholds { warningBps : Z; marginCallBps : Z; liquidationBps : Z }.

Definition classifyMargin (ltv : Z) (th : MarginThresholds) : MarginState :=
  if liquidationBps th <=? ltv then Liquidation
  else if marginCallBps th <=? ltv then MarginCall
  else if warningBps th <=? ltv then Warning
  else Healthy.

(** ** journal.ts *)
Record JournalEntryArgs := JournalArgs {
  ja_refType : string; ja_refId : string; ja_account : string; ja_debit : Z; ja_credit : Z;
  ja_ccy : string }.

Definition journal_row (args : JournalEntryArgs) (debit credit : string) (s : stamp) : journalEntry_row :=
  JournalEntry (st_uuid s) (ja_refType args) (ja_refId args) (ja_account args) debit credit
    (ja_ccy args) (st_now s).

Section Journal.
Context {Ext : Type -> Type} {Out : Type}.
Notation prog := (prog Database Ext Out).

Definition recordJournalEntry (args : JournalEntryArgs) : prog unit :=
  if (ja_debit args <? 0) || (ja_credit args <? 0)
  then Throw (Error "journal: entry amounts must not be negative")
  else
    let isDebitLeg := 0 <? ja_debit args in
    let isCreditLeg := 0 <? ja_credit args in
    if Bool.eqb isDebitLeg isCreditLeg
    then Throw (Error "journal: a journal_entry row must be exactly one of a debit leg or a credit leg")
    else
      debit <- lift (scaledToDecimalString (ja_debit args)) ;;
      credit <- lift (scaledToDecimalString (ja_credit args)) ;;
      stmt (insert journalEntry (journal_row args debit credit)).

Record DoubleEntryArgs := DoubleEntry {
  de_refType : string; de_refId : string; de_debitAccount : string; de_creditAccount : string;
  de_amount : Z; de_ccy : string }.

Definition recordDoubleEntry (args : DoubleEntryArgs) : prog unit :=
  if de_amount args <=? 0
  then Throw (Error "journal: recordDoubleEntry amount must be positive")
  else transaction (
    recordJournalEntry (JournalArgs (de_refType args) (de_refId args) (de_debitAccount args)
      (de_amount args) 0 (de_ccy args)) ;;;
    recordJournalEntry (JournalArgs (de_refType args) (de_refId args) (de_creditAccount args)
      0 (de_amount args) (de_ccy args))).
End Journal.

(** ** Money: the two representations round-trip *)
Lemma frac_digits r :
  0 <= r < PRICE_SCALE ->
  slen (pad_start 7 "0" (Z_to_string r)) = 7%nat /\
  string_forall is_digit (pad_start 7 "0" (Z_to_string r)) = true /\
  read_digits 10 hex_value 0 (pad_start 7 "0" (Z_to_string r)) = Some r.
Proof.
  intros Hr. destruct (Z_to_string_nonneg r) as (Hne & Hd & Hv); [lia|].
  assert (Hlen : (slen (Z_to_string r) <= 7)%nat) by (apply Z_to_string_length; [lia|exact Hr]).
  split; [|split].
  - rewrite slen_pad_start. lia.
  - unfold pad_start. rewrite string_forall_app, Hd, forall_repeat; [done|]. done.
  - unfold pad_start. rewrite read_zeros. done.
Qed.

Lemma decimal_parse_unsigned w f n r :
  0 <= n -> 0 <= r < PRICE_SCALE -> w = Z_to_string n -> f = pad_start 7 "0" (Z_to_string r) ->
  decimalStringToScaled (w +:+ "." +:+ f) = Ok (n * PRICE_SCALE + r) /\
  decimalStringToScaled ("-" +:+ w +:+ "." +:+ f) = Ok (- (n * PRICE_SCALE + r)).
Proof.
  intros Hn Hr Hw Hf. destruct (Z_to_string_nonneg n Hn) as (Hne & Hd & Hv).
  destruct (frac_digits r Hr) as (Hlen & Hfd & Hfv). rewrite <- Hw in *. rewrite <- Hf in *.
  assert (Hnodot : forall s, string_forall is_digit s = true ->
            string_forall (fun c => negb (bool_decide (c = "."%char))) s = true).
  { intros s. apply string_forall_impl. intros c Hc. apply negb_true_iff, bool_decide_false.
    by apply digit_char. }
  assert (Hsplit : split_on "." (w +:+ "." +:+ f) = [w; f]).
  { change ("." +:+ f) with (String "." f). rewrite split_on_app by auto.
    by rewrite split_on_none by auto. }
  assert (Hbody : forall d b, d = w +:+ "." +:+ f ->
    (whole <-? BigInt (js_or (nth 0 (split_on "." d) "") "0") ;;
     frac <-? BigInt (js_or (string_take 7 (nth 1 (split_on "." d) "" +:+ "0000000")) "0") ;;
     Ok (if b : bool then - (whole * PRICE_SCALE + frac) else whole * PRICE_SCALE + frac)) =
    Ok (if b : bool then - (n * PRICE_SCALE + r) else n * PRICE_SCALE + r)).
  { intros d b ->. rewrite Hsplit. cbn [nth]. rewrite string_take_app_exact by done.
    unfold js_or. rewrite (bool_decide_false (w = "")) by done.
    rewrite (bool_decide_false (f = "")) by (intros ->; done).
    rewrite (BigInt_digits w n) by done. rewrite (BigInt_digits f r) by (by (intros ->) || done).
    done. }
  split; unfold decimalStringToScaled; cbv zeta.
  - rewrite (no_minus_head w) by done. apply (Hbody _ false). done.
  - rewrite starts_with_append. apply (Hbody _ true).
    change ("-" +:+ w +:+ "." +:+ f) with (String "-" (w +:+ "." +:+ f)).
    unfold string_drop. simpl. apply list_to_string_to_list.
Qed.

Lemma quot_rem_scale n : 0 <= n ->
  0 <= Z.quot n PRICE_SCALE /\ 0 <= Z.rem n PRICE_SCALE < PRICE_SCALE /\
  n = Z.quot n PRICE_SCALE * PRICE_SCALE + Z.rem n PRICE_SCALE.
Proof.
  intros Hn. unfold PRICE_SCALE.
  pose proof (Z.quot_rem' n 10000000). pose proof (Z.rem_bound_pos n 10000000).
  pose proof (Z.quot_pos n 10000000). lia.
Qed.

Lemma money_parse_print n s : scaledToDecimalString n = Ok s -> decimalStringToScaled s = Ok n.
Proof.
  unfold scaledToDecimalString. destruct (Z.ltb_spec n 0) as [|Hn]; [done|]. intros [= <-].
  destruct (quot_rem_scale n Hn) as (Hq & Hr & Heq).
  destruct (decimal_parse_unsigned _ _ _ _ Hq Hr eq_refl eq_refl) as [-> _]. by rewrite <- Heq.
Qed.

Lemma money_print_total n : 0 <= n -> exists s, scaledToDecimalString n = Ok s.
Proof. unfold scaledToDecimalString. intros Hn. destruct (Z.ltb_spec n 0); [lia|eauto]. Qed.

Lemma money_print_nonneg n s : scaledToDecimalString n = Ok s -> 0 <= n.
Proof. unfold scaledToDecimalString. destruct (Z.ltb_spec n 0); [discriminate|done]. Qed.

(** A money amount survives the round trip between its scaled integer and the decimal string
    Postgres holds: every integer printed by price-guard's printer parses back to itself, and the
    shared printer agrees with it on the non-negative amounts and throws on the negative ones. *)
Theorem money_roundtrip n :
  decimalStringToScaled (signed_scaledToDecimalString n) = Ok n /\
  scaledToDecimalString n =
    if n <? 0 then Err (Error "money: amount must not be negative")
    else Ok (signed_scaledToDecimalString n).
Proof.
  unfold scaledToDecimalString, signed_scaledToDecimalString.
  assert (Habs : 0 <= if n <? 0 then - n else n) by (destruct (Z.ltb_spec n 0); lia).
  destruct (quot_rem_scale _ Habs) as (Hq & Hr & Heq).
  destruct (decimal_parse_unsigned _ _ _ _ Hq Hr eq_refl eq_refl) as [H1 H2].
  destruct (Z.ltb_spec n 0); split; try done.
  - rewrite H2, <- Heq. f_equal. lia.
  - change ("" +:+ ?s) with s. by rewrite H1, <- Heq.
Qed.

(** ** Loan-to-value and the margin state *)
Lemma Number_small z : Z.abs z < 2 ^ 53 -> Number z = z.
Proof.
  intros Hz. unfold Number. destruct (decide (z = 0)) as [->|Hne]; [done|].
  apply Z.log2_lt_pow2 in Hz; [|lia]. destruct (Z.ltb_spec (Z.log2 (Z.abs z)) 53); [done|lia].
Qed.

Lemma Number_large z : 2 ^ 53 <= z -> 2 ^ 53 <= Number z.
Proof.
  intros Hz. unfold Number. rewrite !Z.abs_eq by lia.
  destruct (Z.ltb_spec (Z.log2 z) 53) as [|Hlog]; [done|].
  set (n := Z.log2 z) in *. assert (Hpow : 2 ^ n <= z) by (apply Z.log2_spec; lia).
  assert (Hu : 0 < 2 ^ (n - 52)) by (apply Z.pow_pos_nonneg; lia).
  assert (Hq : 2 ^ 52 <= z / 2 ^ (n - 52)).
  { apply Z.div_le_lower_bound; [done|]. rewrite <- Z.pow_add_r by lia.
    replace (n - 52 + 52) with n by lia. done. }
  assert (Hun : 2 <= 2 ^ (n - 52)) by (change 2 with (2 ^ 1) at 1; apply Z.pow_le_mono_r; lia).
  rewrite Z.sgn_pos by lia. change (2 ^ 53) with (2 ^ 52 * 2).
  destruct (_ || _); nia.
Qed.

Lemma Number_threshold z t : 0 <= z -> t <= 2 ^ 53 -> (t <=? Number z) = (t <=? z).
Proof.
  intros Hz Ht. destruct (Z.lt_ge_cases z (2 ^ 53)).
  - by rewrite Number_small by lia.
  - pose proof (Number_large z). by rewrite !(proj2 (Z.leb_le _ _)) by lia.
Qed.

Definition thresholds_ok (th : MarginThresholds) : Prop :=
  0 < warningBps th <= marginCallBps th /\ marginCallBps th <= liquidationBps th <= MAX_SAFE_INTEGER.

Lemma ltv_at_least debt coll t :
  0 < t <= MAX_SAFE_INTEGER -> 0 < debt ->
  (t <=? ltvBps debt coll) = true <-> (coll <= 0 \/ t * coll <= debt * BPS_DENOMINATOR).
Proof.
  intros [Ht0 Ht] Hd. unfold ltvBps. rewrite (proj2 (Z.leb_gt debt 0)) by lia.
  destruct (Z.leb_spec coll 0) as [Hc|Hc].
  - rewrite Z.leb_le. unfold MAX_SAFE_INTEGER in *. lia.
  - unfold BPS_DENOMINATOR. rewrite Z.quot_div_nonneg by lia.
    rewrite Number_threshold by (try apply Z.div_pos; unfold MAX_SAFE_INTEGER in *; lia).
    rewrite Z.leb_le. split.
    + intros H. right. pose proof (Z.mul_div_le (debt * 10000) coll Hc). nia.
    + intros [H|H]; [lia|]. apply Z.div_le_lower_bound; lia.
Qed.

(** The margin state the API derives is exactly the ratio test it stands for: with positive
    debt a position is in liquidation if and only if its collateral is worth nothing or
    debt * 10000 >= liquidation threshold * collateral, in margin call or worse if and only if the
    same holds of the margin-call threshold, and not healthy if and only if it holds of the warning
    threshold; with no debt it is healthy.  Neither the integer division nor the conversion of the
    ratio to a double moves a position across a threshold. *)
Theorem classifyMargin_ltv_exact (th : MarginThresholds) (debt coll : Z) (Hth : thresholds_ok th) :
  let crosses t := 0 < debt /\ (coll <= 0 \/ t * coll <= debt * BPS_DENOMINATOR) in
  let s := classifyMargin (ltvBps debt coll) th in
  (s = Liquidation <-> crosses (liquidationBps th)) /\
  (s = Liquidation \/ s = MarginCall <-> crosses (marginCallBps th)) /\
  (s <> Healthy <-> crosses (warningBps th)).
Proof.
  destruct Hth as [[Hw Hwm] [Hml Hl]]. intros crosses s. subst crosses s. cbn beta.
  destruct (Z.le_gt_cases debt 0) as [Hd|Hd].
  { unfold ltvBps, classifyMargin. rewrite (proj2 (Z.leb_le debt 0)) by done.
    rewrite !(proj2 (Z.leb_gt _ _)) by lia. repeat split; try (intros [H _]; lia); try naive_solver. }
  pose proof (ltv_at_least debt coll (liquidationBps th)) as H1.
  pose proof (ltv_at_least debt coll (marginCallBps th)) as H2.
  pose proof (ltv_at_least debt coll (warningBps th)) as H3.
  specialize (H1 ltac:(lia) Hd). specialize (H2 ltac:(lia) Hd). specialize (H3 ltac:(lia) Hd).
  unfold classifyMargin. rewrite !Z.leb_le in *. rewrite <- H1, <- H2, <- H3.
  destruct (Z.leb_spec (liquidationBps th) (ltvBps debt coll)),
    (Z.leb_spec (marginCallBps th) (ltvBps debt coll)),
    (Z.leb_spec (warningBps th) (ltvBps debt coll)); repeat split; intros; try lia; naive_solver lia.
Qed.

Lemma classifyMargin_ltv_exact_witness :
  thresholds_ok (Thresholds 7000 8000 9000) /\
  classifyMargin (ltvBps 85 100) (Thresholds 7000 8000 9000) = MarginCall.
Proof.
  assert (H : thresholds_ok (Thresholds 7000 8000 9000))
    by (unfold thresholds_ok, MAX_SAFE_INTEGER; simpl; lia).
  split; [exact H|].
  destruct (classifyMargin_ltv_exact _ 85 100 H) as (HL & HM & _).
  destruct (proj2 HM) as [E|E]; [split; [lia|right; vm_compute; discriminate]| |exact E].
  apply HL in E as [_ [E|E]]; vm_compute in E; exfalso; now apply E.
Defined.

(** ** The journal *)
Definition one_leg (args : JournalEntryArgs) : bool :=
  (0 <=? ja_debit args) && (0 <=? ja_credit args) &&
  xorb (0 <? ja_debit args) (0 <? ja_credit args).

Definition amount_of (s : string) : Z :=
  match decimalStringToScaled s with Ok z => z | Err _ => 0 end.

(** What the journal says an account, or the whole book, is worth: debits less credits. *)
Definition journal_net (l : list journalEntry_row) : Z :=
  foldr (fun r acc => amount_of (je_debit r) - amount_of (je_credit r) + acc) 0 l.

Lemma journal_net_app l l' : journal_net (l ++ l') = journal_net l + journal_net l'.
Proof. induction l as [|r l IH]; [done|]. simpl. rewrite IH. lia. Qed.

Definition leg_row (args : JournalEntryArgs) (r : journalEntry_row) : Prop :=
  je_refType r = ja_refType args /\ je_refId r = ja_refId args /\
  je_account r = ja_account args /\ je_ccy r = ja_ccy args /\
  decimalStringToScaled (je_debit r) = Ok (ja_debit args) /\
  decimalStringToScaled (je_credit r) = Ok (ja_credit args).

Section JournalRules.
Context {Ext : Type -> Type} {Out : Type} (Adm : @admissible Ext).
Notation world := (world Database Ext Out).

(** [recordJournalEntry] throws without effect, or appends the one leg it was asked for (and may
    then still report a lost acknowledgement). *)
Lemma wp_recordJournalEntry args (Q : outcome unit -> world -> Prop) w :
  (forall x, Q (Err x) w) -> (forall x, Q (Err x) (tick w)) ->
  (one_leg args = true -> forall r, leg_row args r ->
     let d' := set_table journalEntry (w_db w journalEntry ++ [r]) (w_db w) in
     Q (Ok tt) (after w d') /\ forall x, Q (Err x) (after w d')) ->
  wp Adm (recordJournalEntry args) Q w.
Proof.
  intros Herr Herr' Hok. unfold recordJournalEntry. unfold one_leg in Hok.
  destruct (Z.ltb_spec (ja_debit args) 0) as [|Hd]; [apply Herr|].
  destruct (Z.ltb_spec (ja_credit args) 0) as [|Hc]; [apply Herr|]. cbn [orb].
  rewrite !(proj2 (Z.leb_le 0 _)) in Hok by lia.
  destruct (Bool.eqb (0 <? ja_debit args) (0 <? ja_credit args)) eqn:Eleg; [apply Herr|].
  destruct (money_print_total (ja_debit args) Hd) as [sd Esd].
  destruct (money_print_total (ja_credit args) Hc) as [sc Esc].
  rewrite Esd, Esc. cbn [lift bind]. wp_step; [auto|]. intros s _ _ _. apply Hok.
  - by destruct (0 <? ja_debit args), (0 <? ja_credit args).
  - repeat split; simpl; by apply money_parse_print.
Qed.
End JournalRules.

Definition debit_args (a : DoubleEntryArgs) : JournalEntryArgs :=
  JournalArgs (de_refType a) (de_refId a) (de_debitAccount a) (de_amount a) 0 (de_ccy a).
Definition credit_args (a : DoubleEntryArgs) : JournalEntryArgs :=
  JournalArgs (de_refType a) (de_refId a) (de_creditAccount a) 0 (de_amount a) (de_ccy a).

(** [d'] is [d] with the balanced pair of [args] appended to the journal. *)
Definition booked_pair (args : DoubleEntryArgs) (d d' : Database) : Prop :=
  exists r1 r2, leg_row (debit_args args) r1 /\ leg_row (credit_args args) r2 /\
    d' journalEntry = d journalEntry ++ [r1; r2] /\
    forall t, t <> journalEntry -> d' t = d t.

Lemma booked_pair_net args d d' :
  booked_pair args d d' -> journal_net (d' journalEntry) = journal_net (d journalEntry).
Proof.
  intros (r1 & r2 & H1 & H2 & -> & _). rewrite journal_net_app. simpl. unfold amount_of.
  destruct H1 as (_ & _ & _ & _ & -> & ->), H2 as (_ & _ & _ & _ & -> & ->). simpl. lia.
Qed.

(** Booking an event is atomic under every database fault: [recordDoubleEntry] either leaves
    every table as it was, and then it threw, or appends exactly the debit leg and the credit leg
    of its amount under one reference, touching no other table.  A non-positive amount is always
    refused, and whatever happens the book's total of debits less credits does not move. *)
Theorem recordDoubleEntry_atomic {Ext Out} (e : env Ext) (args : DoubleEntryArgs)
    (w : world Database Ext Out) :
  let '(r, w') := run e (recordDoubleEntry args) w in
  ((forall t, w_db w' t = w_db w t) /\ is_ok r = false \/
   0 < de_amount args /\ booked_pair args (w_db w) (w_db w')) /\
  journal_net (w_db w' journalEntry) = journal_net (w_db w journalEntry).
Proof.
  pose (Q := fun (r : outcome unit) (w' : world Database Ext Out) =>
    (forall t, w_db w' t = w_db w t) /\ is_ok r = false \/
    0 < de_amount args /\ booked_pair args (w_db w) (w_db w')).
  enough (H : let '(r, w') := run e (recordDoubleEntry args) w in Q r w').
  { destruct (run e _ w) as [r w']. split; [exact H|].
    destruct H as [[H _]|[_ H]]; [by rewrite H|by apply booked_pair_net in H]. }
  apply (wp_sound any_answer); [done|]. unfold recordDoubleEntry.
  destruct (Z.leb_spec (de_amount args) 0) as [|Hpos]; [by left|].
  apply wp_transaction, wp_bind.
  apply wp_recordJournalEntry; [by left..|]. intros _ r1 Hr1. cbn zeta.
  split; [|by left]. apply wp_recordJournalEntry; [by left..|]. intros _ r2 Hr2. cbn zeta.
  split; [|by left].
  assert (Hpair : forall d', d' = set_table journalEntry
     (set_table journalEntry (w_db w journalEntry ++ [r1]) (w_db w) journalEntry ++ [r2])
     (set_table journalEntry (w_db w journalEntry ++ [r1]) (w_db w)) ->
     booked_pair args (w_db w) d').
  { intros d' ->. exists r1, r2. split; [done|]. split; [done|]. split.
    - rewrite !set_table_same. by rewrite <- app_assoc.
    - intros t Ht. by rewrite !set_table_other by done. }
  repeat split; [|by left|]; intros; right; (split; [done|]); apply Hpair; done.
Qed.
