(* ===== verification/PayoutHop.v ===== *)
(** [services/payout-hop]: the operator account's second payment leg (hop.ts), the on-chain check
    of the first leg (firstLeg.ts), the repair of unbooked payouts (repair.ts) and the HTTP route
    (index.ts). *)
From S2P Require Import Prelude Prog Schema Rules Domain.

(** ** What the service calls: the Stellar SDK's pure functions and the network. *)
Inductive Memo := MemoId (s : string) | MemoText (s : string).

Record PaymentTx := Payment {
  tx_sequence : Z; tx_memo : Memo; tx_destination : string; tx_assetCode : string;
  tx_assetIssuer : string; tx_amount : string; tx_timeout : Z }.

Record ClassicOp := Op {
  op_type : string; op_destination : string; op_native : bool; op_code : string;
  op_issuer : string; op_amount : string }.

(** An envelope is a plain transaction or a fee bump around one. *)
Inductive Envelope := Plain (ops : list ClassicOp) | FeeBump (inner : list ClassicOp).

Record ContractEvent := Event {
  ev_type : string; ev_contractId : option string; ev_topics : list string; ev_data : string }.

Record GetTransactionResponse := TxResponse {
  tr_status : string; tr_envelopeXdr : string; tr_events : option (list (list ContractEvent)) }.

(** Functions of [@stellar/stellar-sdk], opaque here; XDR values are opaque strings. *)
Class StellarSdk := {
  isValidEd25519PublicKey : string -> bool;
  validatePayment : PaymentTx -> outcome unit;
  fromXDR : string -> outcome Envelope;
  scValToNative : string -> outcome jsval;
  encodeContract : string -> string;
  usdcContractId : string -> outcome string;
  muxedBaseAccount : string -> outcome string }.

Inductive PayoutCall : Type -> Type :=
| GetTransaction (hash : string) : PayoutCall GetTransactionResponse
| LoadSequenceAccount : PayoutCall Z
  (** [signAndSubmit(tx)].  [leg] labels the first leg the payment is sent for; the transaction
      itself does not carry it. *)
| SignAndSubmit (leg : string) (tx : PaymentTx) : PayoutCall (string * string).

Record Alert := Fire { al_kind : string; al_subject : string; al_flagged : bool; al_reason : string }.

Notation payout_prog := (prog Database PayoutCall Alert).
Notation payout_world := (world Database PayoutCall Alert).

(** ** hop.ts: policy *)
Record PayoutPolicy := Policy {
  allowedDestinations : list string; usdcIssuer : string; maxAmount : Z }.

Record ForwardPayoutArgs := PayoutArgs {
  fromContractPayoutTxHash : string; toAnchorAccount : string; amount : Z; memo : string;
  usdcAssetAddress : string; quoteId : option string }.

Record ForwardPayoutResult := PayoutResult { hash : string; status : string; booked : bool }.

Record PayoutBooking := Booking {
  bk_fromTxHash : string; bk_txHash : string; bk_refId : string; bk_quoteId : option string;
  bk_amount : Z; bk_memo : string }.

Definition PayoutRefusedError (msg : string) := Exn "PayoutRefusedError" msg.
Definition DuplicatePayoutError (msg : string) := Exn "DuplicatePayoutError" msg.

Definition UNIT : Z := 10000000.
Definition DEFAULT_MAX_WHOLE_USDC : Z := 5000.
Definition MEMO_ID_MAX : Z := 18446744073709551615.

Record PayoutEnv := PEnv {
  PAYOUT_HOP_USDC_ISSUER : option string; PAYOUT_HOP_ALLOWED_DESTINATIONS : option string;
  PAYOUT_HOP_MAX_AMOUNT : option string }.

(** [/^[0-9]+$/.test(s)]. *)
Definition all_digits (s : string) : bool := negb (eqs s "") && string_forall is_digit s.

(** A JavaScript string is truthy when it is present and not empty. *)
Definition truthy (s : option string) : bool := match s with Some s => negb (eqs s "") | None => false end.

Section Hop.
Context `{StellarSdk}.

Definition loadPayoutPolicy (env : PayoutEnv) : outcome PayoutPolicy :=
  let issuer := default "" (PAYOUT_HOP_USDC_ISSUER env) in
  if negb (truthy (PAYOUT_HOP_USDC_ISSUER env)) || negb (isValidEd25519PublicKey issuer)
  then Err (Error "payout-hop: PAYOUT_HOP_USDC_ISSUER must be the USDC issuer's G-address")
  else
    let destinations :=
      List.filter (fun a => negb (eqs a ""))
        (List.map trim (split_on "," (default "" (PAYOUT_HOP_ALLOWED_DESTINATIONS env)))) in
    if bool_decide (destinations = [])
    then Err (Error "payout-hop: PAYOUT_HOP_ALLOWED_DESTINATIONS must list the anchor accounts it may pay")
    else match List.find (fun a => negb (isValidEd25519PublicKey a)) destinations with
    | Some bad => Err (Error ("payout-hop: " +:+ bad +:+ " is not a G-address"))
    | None =>
        maxWhole <-? (if truthy (PAYOUT_HOP_MAX_AMOUNT env)
                      then BigInt (default "" (PAYOUT_HOP_MAX_AMOUNT env))
                      else Ok DEFAULT_MAX_WHOLE_USDC) ;;
        Ok (Policy destinations issuer (maxWhole * UNIT))
    end.

Definition checkPolicy (args : ForwardPayoutArgs) (policy : PayoutPolicy) : outcome unit :=
  if negb (existsb (eqs (toAnchorAccount args)) (allowedDestinations policy))
  then Err (PayoutRefusedError "destination is not an approved anchor account")
  else if negb (eqs (usdcAssetAddress args) (usdcIssuer policy))
  then Err (PayoutRefusedError "asset is not the configured USDC")
  else if amount args <=? 0 then Err (PayoutRefusedError "amount must be positive")
  else if maxAmount policy <? amount args
  then cap <-? scaledToDecimalString (maxAmount policy) ;;
       Err (PayoutRefusedError ("amount exceeds the per-payout cap of " +:+ cap +:+ " USDC"))
  else if all_digits (memo args)
  then m <-? BigInt (memo args) ;;
       if MEMO_ID_MAX <? m then Err (PayoutRefusedError "numeric memo does not fit a MEMO_ID") else Ok tt
  else if (28 <? slen (memo args))%nat
  then Err (PayoutRefusedError "text memo is longer than 28 bytes")
  else Ok tt.

Definition buildMemo (m : string) : Memo := if all_digits m then MemoId m else MemoText m.

(** ** firstLeg.ts *)
Record FirstLegExpectation := Expect {
  ex_txHash : string; ex_operator : string; ex_usdcIssuer : string; ex_minAmount : Z }.

Definition FirstLegRefusedError (msg : string) := Exn "FirstLegRefusedError" msg.
Definition FirstLegUnavailableError (msg : string) := Exn "FirstLegUnavailableError" msg.

(** The seam hop.ts depends on. *)
Class FirstLegVerifier := verify : FirstLegExpectation -> payout_prog unit.

(** [TX_HASH]: 64 hex digits, either case. *)
Definition is_hex (c : ascii) : bool := match hex_value c with Some _ => true | None => false end.
Definition TX_HASH_test (s : string) : bool := (slen s =? 64)%nat && string_forall is_hex s.

Definition baseAccount (address : string) : outcome string :=
  if starts_with "M" address then muxedBaseAccount address else Ok address.

(** One step of the [for] loop of [fromPayments]; [&&]-chained [continue]s in source order. *)
Definition addPayment (expected : FirstLegExpectation) (total : Z) (op : ClassicOp) : outcome Z :=
  if negb (eqs (op_type op) "payment") then Ok total
  else
    dest <-? baseAccount (op_destination op) ;;
    if negb (eqs dest (ex_operator expected)) then Ok total
    else if op_native op || negb (eqs (op_code op) "USDC") ||
            negb (eqs (op_issuer op) (ex_usdcIssuer expected)) then Ok total
    else amt <-? decimalStringToScaled (op_amount op) ;; Ok (total + amt).

Definition fromPayments (response : GetTransactionResponse) (expected : FirstLegExpectation) : outcome Z :=
  parsed <-? fromXDR (tr_envelopeXdr response) ;;
  let ops := match parsed with FeeBump inner => inner | Plain ops => ops end in
  ofold (addPayment expected) 0 ops.

Definition transferAmount (data : string) : outcome Z :=
  native <-? scValToNative data ;;
  Ok match native with
     | JBig n => n
     | _ => match js_get "amount" native with JBig n => n | _ => 0 end
     end.

Definition addTransfer (usdcSac : string) (expected : FirstLegExpectation) (total : Z)
    (event : ContractEvent) : outcome Z :=
  if negb (eqs (ev_type event) "contract") then Ok total
  else match ev_contractId event with
  | None => Ok total
  | Some cid =>
      if negb (eqs (encodeContract cid) usdcSac) then Ok total
      else match ev_topics event with
      | t0 :: _ :: t2 :: _ =>
          name <-? scValToNative t0 ;;
          match name with
          | JStr n =>
              if negb (eqs n "transfer") then Ok total
              else
                to <-? scValToNative t2 ;;
                match to with
                | JStr a =>
                    if negb (eqs a (ex_operator expected)) then Ok total
                    else amt <-? transferAmount (ev_data event) ;; Ok (total + amt)
                | _ => Ok total
                end
          | _ => Ok total
          end
      | _ => Ok total
      end
  end.

Definition fromSacEvents (response : GetTransactionResponse) (expected : FirstLegExpectation) : outcome Z :=
  usdcSac <-? usdcContractId (ex_usdcIssuer expected) ;;
  ofold (addTransfer usdcSac expected) 0 (List.concat (default [] (tr_events response))).

Definition usdcReceived (response : GetTransactionResponse) (expected : FirstLegExpectation) : outcome Z :=
  a <-? fromPayments response expected ;;
  b <-? fromSacEvents response expected ;;
  Ok (if b <? a then a else b).

Definition checkReceived (response : GetTransactionResponse) (expected : FirstLegExpectation) : outcome unit :=
  if eqs (tr_status response) "NOT_FOUND"
  then Err (FirstLegRefusedError ("first-leg transaction " +:+ ex_txHash expected +:+ " was not found on the network"))
  else if negb (eqs (tr_status response) "SUCCESS")
  then Err (FirstLegRefusedError ("first-leg transaction " +:+ ex_txHash expected +:+ " did not succeed"))
  else
    received <-? usdcReceived response expected ;;
    if received =? 0
    then Err (FirstLegRefusedError "first-leg transaction did not pay the configured USDC to the operator account")
    else if received <? ex_minAmount expected
    then got <-? scaledToDecimalString received ;;
         want <-? scaledToDecimalString (ex_minAmount expected) ;;
         Err (FirstLegRefusedError ("first leg paid the operator " +:+ got +:+ " USDC, less than the " +:+ want +:+ " requested"))
    else Ok tt.

Definition RpcFirstLegVerifier_verify (expected : FirstLegExpectation) : payout_prog unit :=
  if negb (TX_HASH_test (ex_txHash expected))
  then Throw (FirstLegRefusedError "first-leg hash is not a 64-character hex transaction hash")
  else
    response <- catch (call (GetTransaction (ex_txHash expected)))
      (fun err => Throw (FirstLegUnavailableError
         ("could not look up the first-leg transaction: " +:+ exn_message err))) ;;
    lift (checkReceived response expected).

#[export] Instance RpcFirstLegVerifier : FirstLegVerifier | 10 := RpcFirstLegVerifier_verify.

(** ** hop.ts: forwarding and booking *)
Section Forward.
Context (verifier : FirstLegVerifier) (publicKey : string).

(** The row the claim inserts; the columns it leaves out take their defaults. *)
Definition claim_row (args : ForwardPayoutArgs) (refId amt : string) (s : stamp) : payoutForward_row :=
  PayoutForward (fromContractPayoutTxHash args) (toAnchorAccount args) amt (memo args) "claimed" None
    refId (quoteId args) (st_now s).

Definition is_leg (h : string) (r : payoutForward_row) : bool := eqs (pf_fromTxHash r) h.

Definition reclaim_row (args : ForwardPayoutArgs) (refId amt : string) (_ : stamp)
    (r : payoutForward_row) : payoutForward_row :=
  PayoutForward (pf_fromTxHash r) (toAnchorAccount args) amt (memo args) "claimed" (pf_txHash r)
    refId (quoteId args) (pf_createdAt r).

Definition set_pf_status (st : string) (_ : stamp) (r : payoutForward_row) : payoutForward_row :=
  PayoutForward (pf_fromTxHash r) (pf_toAccount r) (pf_amount r) (pf_memo r) st (pf_txHash r)
    (pf_refId r) (pf_quoteId r) (pf_createdAt r).

Definition set_pf_status_hash (st txHash : string) (_ : stamp) (r : payoutForward_row) : payoutForward_row :=
  PayoutForward (pf_fromTxHash r) (pf_toAccount r) (pf_amount r) (pf_memo r) st (Some txHash)
    (pf_refId r) (pf_quoteId r) (pf_createdAt r).

Definition claim (args : ForwardPayoutArgs) (refId amt : string) : payout_prog unit :=
  claimed <- stmt (insert_ignore payoutForward (claim_row args refId amt)) ;;
  match claimed with
  | [] =>
      reclaimed <- stmt (update payoutForward
        (fun r => is_leg (fromContractPayoutTxHash args) r && eqs (pf_status r) "failed")
        (reclaim_row args refId amt)) ;;
      match reclaimed with
      | [] => Throw (DuplicatePayoutError
                ("payout for " +:+ fromContractPayoutTxHash args +:+ " was already requested"))
      | _ => Ret tt
      end
  | _ => Ret tt
  end.

Definition send (args : ForwardPayoutArgs) (policy : PayoutPolicy) (amt : string)
  : payout_prog (string * string) :=
  account <- call LoadSequenceAccount ;;
  let tx := Payment account (buildMemo (memo args)) (toAnchorAccount args) "USDC"
              (usdcIssuer policy) amt 30 in
  lift (validatePayment tx) ;;;
  res <- call (SignAndSubmit (fromContractPayoutTxHash args) tx) ;;
  if eqs (snd res) "ERROR"
  then Throw (Error "payout-hop: anchor hop transaction submission failed")
  else Ret res.

Definition bookPayout (bk : PayoutBooking) : payout_prog unit :=
  (match bk_quoteId bk with
   | Some q =>
       if eqs q "" then Ret tt
       else stmt (insert exitFill (fun s => ExitFill (st_uuid s) q (bk_txHash bk) "anchor_hop"
                                              (Some (bk_memo bk)) (st_now s)))
   | None => Ret tt
   end) ;;;
  recordJournalEntry (JournalArgs "payout_hop" (bk_refId bk) "usdc_cash" (bk_amount bk) 0 "USDC") ;;;
  recordJournalEntry (JournalArgs "payout_hop" (bk_refId bk) "operator:payout_hop" 0 (bk_amount bk) "USDC").

Definition markUnbooked (bk : PayoutBooking) (cause : exn) : payout_prog unit :=
  flagged <- catch
    (stmt (update payoutForward (is_leg (bk_fromTxHash bk))
             (set_pf_status_hash "bookkeeping_pending" (bk_txHash bk))) ;;; Ret true)
    (fun _ => Ret false) ;;
  emit (Fire "payout_unbooked" (bk_fromTxHash bk) flagged (exn_message cause)).

Definition forwardPayout (args : ForwardPayoutArgs) (policy : PayoutPolicy)
  : payout_prog ForwardPayoutResult :=
  lift (checkPolicy args policy) ;;;
  verify (Expect (fromContractPayoutTxHash args) publicKey (usdcIssuer policy) (amount args)) ;;;
  refId <- match quoteId args with
           | Some q => Ret q
           | None => s <- sample ;; Ret (st_uuid s)
           end ;;
  amt <- lift (scaledToDecimalString (amount args)) ;;
  claim args refId amt ;;;
  sent <- catch (send args policy amt)
    (fun err =>
       stmt (update payoutForward (is_leg (fromContractPayoutTxHash args)) (set_pf_status "failed")) ;;;
       Throw err) ;;
  let '(hash, status) := sent in
  let bk := Booking (fromContractPayoutTxHash args) hash refId (quoteId args) (amount args) (memo args) in
  catch
    (transaction
       (stmt (update payoutForward (is_leg (fromContractPayoutTxHash args))
                (set_pf_status_hash "sent" hash)) ;;;
        bookPayout bk) ;;;
     Ret (PayoutResult hash status true))
    (fun err => markUnbooked bk err ;;; Ret (PayoutResult hash status false)).

(** ** repair.ts *)
Record RepairResult := Repaired {
  rr_booked : list string; rr_alreadyBooked : list string; rr_failed : list string }.

Inductive RepairOutcome := Taken | Already | BookedNow.

Definition repair_row (r : payoutForward_row) : payout_prog RepairOutcome :=
  taken <- stmt (update payoutForward
    (fun r' => is_leg (pf_fromTxHash r) r' && eqs (pf_status r') "bookkeeping_pending")
    (set_pf_status "sent")) ;;
  match taken with
  | [] => Ret Taken
  | _ =>
      existing <- stmt (select journalEntry
        (fun j => eqs (je_refType j) "payout_hop" && eqs (je_refId j) (pf_refId r))) ;;
      match existing with
      | _ :: _ => Ret Already
      | [] =>
          if negb (truthy (pf_txHash r)) then Throw (Error "bookkeeping_pending row has no tx_hash")
          else
            amt <- lift (decimalStringToScaled (pf_amount r)) ;;
            bookPayout (Booking (pf_fromTxHash r) (default "" (pf_txHash r)) (pf_refId r)
                          (pf_quoteId r) amt (pf_memo r)) ;;;
            Ret BookedNow
      end
  end.

Definition repair_step (result : RepairResult) (r : payoutForward_row) : payout_prog RepairResult :=
  catch
    (outcome <- transaction (repair_row r) ;;
     Ret match outcome with
         | BookedNow => Repaired (rr_booked result ++ [pf_fromTxHash r]) (rr_alreadyBooked result) (rr_failed result)
         | Already => Repaired (rr_booked result) (rr_alreadyBooked result ++ [pf_fromTxHash r]) (rr_failed result)
         | Taken => result
         end)
    (fun err =>
       emit (Fire "payout_unbooked" (pf_fromTxHash r) true ("repair could not book it: " +:+ exn_message err)) ;;;
       Ret (Repaired (rr_booked result) (rr_alreadyBooked result) (rr_failed result ++ [pf_fromTxHash r]))).

Definition bookPendingPayouts : payout_prog RepairResult :=
  pending <- stmt (select payoutForward (fun r => eqs (pf_status r) "bookkeeping_pending")) ;;
  fold repair_step (Repaired [] [] []) pending.

(** ** index.ts: [POST /internal/payout-hop/forward].  [body] is the request's parsed JSON; the
    reply is its status code. *)
Record ForwardBody := Body {
  b_fromContractPayoutTxHash : string; b_toAnchorAccount : string; b_amount : string;
  b_memo : string; b_usdcAssetAddress : string; b_quoteId : option string }.

(** The [forwardBody] schema, [is_uuid] being zod's own check. *)
Definition forwardBody_ok (is_uuid : string -> bool) (b : ForwardBody) : bool :=
  (1 <=? slen (b_fromContractPayoutTxHash b))%nat && (1 <=? slen (b_toAnchorAccount b))%nat &&
  all_digits (b_amount b) && (1 <=? slen (b_memo b))%nat && (slen (b_memo b) <=? 64)%nat &&
  (1 <=? slen (b_usdcAssetAddress b))%nat &&
  match b_quoteId b with Some q => is_uuid q | None => true end.

Definition error_status (err : exn) : Z :=
  if eqs (exn_class err) "PayoutRefusedError" then 403
  else if eqs (exn_class err) "DuplicatePayoutError" then 409
  else if eqs (exn_class err) "FirstLegRefusedError" then 422
  else if eqs (exn_class err) "FirstLegUnavailableError" then 503
  else 502.

Definition forward_route (is_uuid : string -> bool) (policy : PayoutPolicy) (b : ForwardBody)
  : payout_prog (Z * option ForwardPayoutResult) :=
  if negb (forwardBody_ok is_uuid b) then Ret (400, None)
  else catch
    (amt <- lift (BigInt (b_amount b)) ;;
     result <- forwardPayout
       (PayoutArgs (b_fromContractPayoutTxHash b) (b_toAnchorAccount b) amt (b_memo b)
          (b_usdcAssetAddress b) (b_quoteId b)) policy ;;
     Ret (200, Some result))
    (fun err => Ret (error_status err, None)).

(** The service's life: forwards requested and repairs run, in any order. *)
Inductive PayoutOp := OpForward (args : ForwardPayoutArgs) | OpRepair.

Definition payout_op (policy : PayoutPolicy) (o : PayoutOp) : payout_prog unit :=
  match o with
  | OpForward args => attempt (forwardPayout args policy) ;;; Ret tt
  | OpRepair => attempt bookPendingPayouts ;;; Ret tt
  end.
End Forward.
End Hop.
