(* ===== verification/PayoutSafety.v ===== *)
(** What it means that the payout hop pays a first leg once: the submissions made for it, what the
    network answered to them, and the row that holds the leg. *)
From S2P Require Import Prelude Prog Schema Rules Domain PayoutHop.

Notation payout_entry := (entry PayoutCall Alert).

(** What came of a submission: the hash and status the network answered, or no answer (the call threw), in
    which case the network may have taken the transaction or not. *)
Inductive Answer := Answered (hash status : string) | Unanswered.

#[export] Instance Answer_eq_dec : EqDecision Answer.
Proof. solve_decision. Defined.

(** The first leg a payment was submitted for, with what came of it. *)
Definition submission (e : payout_entry) : option (string * Answer) :=
  match e with
  | ECall c r =>
      match c in PayoutCall X return outcome X -> option (string * Answer) with
      | SignAndSubmit leg _ => fun r =>
          Some (leg, match r with Ok res => Answered (fst res) (snd res) | Err _ => Unanswered end)
      | _ => fun _ => None
      end r
  | EOut _ => None
  end.

(** The network answered that it does not take the transaction. *)
Definition refused (a : Answer) : Prop := match a with Answered _ status => status = "ERROR" | Unanswered => False end.

(** The submission failed as far as the service knows: it was refused, or nothing was answered. *)
Definition failed (a : Answer) : Prop := refused a \/ a = Unanswered.

(** What came of the submissions for the first leg [h], in their order. *)
Definition attempts (h : string) (log : list payout_entry) : list Answer :=
  omap (fun e => '(leg, a) ← submission e; if bool_decide (leg = h) then Some a else None) log.

#[export] Instance refused_dec a : Decision (refused a).
Proof. destruct a; apply _. Defined.

(** The submissions that may have moved money: all but the refused ones. *)
Definition maybe_paid (l : list Answer) : nat := List.length (filter (fun a => ~ refused a) l).

(** The submissions nothing was answered to. *)
Definition unanswered (l : list Answer) : nat := List.length (filter (fun a => a = Unanswered) l).

(** The leg [h] is taken: it has a row, and none of its rows may be claimed again. *)
Definition held (h : string) (rows : list payoutForward_row) : Prop :=
  (exists r, In r rows /\ pf_fromTxHash r = h) /\
  forall r, In r rows -> pf_fromTxHash r = h -> pf_status r <> "failed".

(** Every submission for the leg failed as far as the service knows. *)
Definition unpaid (h : string) (log : list payout_entry) : Prop := Forall failed (attempts h log).

(** All but the last failed, and the last was answered and not refused. *)
Definition paid (h : string) (log : list payout_entry) : Prop :=
  exists l a, attempts h log = l ++ [a] /\ Forall failed l /\ ~ failed a.

Definition paid_once (rows : list payoutForward_row) (log : list payout_entry) : Prop :=
  forall h, unpaid h log \/ paid h log /\ held h rows.

Lemma unpaid_not_paid h log : unpaid h log -> paid h log -> False.
Proof.
  unfold unpaid. intros Hu (l & a & E & _ & Ha). rewrite E in Hu. by apply Forall_app in Hu as [_ [Hu _]%Forall_cons].
Qed.

Lemma attempts_snoc h l e :
  attempts h (l ++ [e]) =
  attempts h l ++ match submission e with Some (leg, a) => if bool_decide (leg = h) then [a] else [] | None => [] end.
Proof. unfold attempts. rewrite omap_app. f_equal. cbn. destruct (submission e) as [[leg a]|]; [|done]. cbn. by case_bool_decide. Qed.

Lemma attempts_snoc_none h l e : submission e = None -> attempts h (l ++ [e]) = attempts h l.
Proof. intros He. by rewrite attempts_snoc, He, app_nil_r. Qed.

Lemma attempts_snoc_same h l e a : submission e = Some (h, a) -> attempts h (l ++ [e]) = attempts h l ++ [a].
Proof. intros He. by rewrite attempts_snoc, He, bool_decide_true. Qed.

Lemma attempts_snoc_other h h' l e a : submission e = Some (h, a) -> h' <> h -> attempts h' (l ++ [e]) = attempts h' l.
Proof. intros He Hne. by rewrite attempts_snoc, He, bool_decide_false, app_nil_r by congruence. Qed.

(** What the invariant says in numbers: as long as it holds, all that may have moved money but one
    submission went unanswered. *)
Lemma failed_maybe_paid l : Forall failed l -> maybe_paid l = unanswered l.
Proof.
  unfold maybe_paid, unanswered. induction 1 as [|a l Ha Hl IH]; [done|]. rewrite !filter_cons.
  destruct Ha as [Ha | ->]; [rewrite decide_False, decide_False by (by intros ->) || naive_solver; done|].
  rewrite decide_True, decide_True by (done || intros []). cbn. by rewrite IH.
Qed.

Lemma once_maybe_paid l a : Forall failed l -> (maybe_paid (l ++ [a]) <= S (unanswered (l ++ [a])))%nat.
Proof.
  intros Hl. unfold maybe_paid, unanswered. rewrite !filter_app, !length_app. fold (maybe_paid l) (unanswered l).
  rewrite failed_maybe_paid by done. pose proof (length_filter (fun a => ~ refused a) [a]). cbn in *. lia.
Qed.

Lemma is_leg_spec h r : is_leg h r = true <-> pf_fromTxHash r = h.
Proof. unfold is_leg, eqs. by rewrite bool_decide_eq_true. Qed.

Lemma held_map h g rows :
  (forall r, pf_fromTxHash (g r) = pf_fromTxHash r) ->
  (forall r, pf_fromTxHash r = h -> pf_status r <> "failed" -> pf_status (g r) <> "failed") ->
  held h rows -> held h (List.map g rows).
Proof.
  intros Hfrom Hst [(r & Hr & Eh) Hall]. split.
  - exists (g r). split; [by apply in_map|]. by rewrite Hfrom.
  - intros r' (r0 & <- & Hr0)%in_map_iff Eh0. rewrite Hfrom in Eh0. auto.
Qed.

Definition reclaimable (h : string) (r : payoutForward_row) : bool :=
  is_leg h r && eqs (pf_status r) "failed".

Lemma reclaimable_spec h r : reclaimable h r = true <-> pf_fromTxHash r = h /\ pf_status r = "failed".
Proof.
  unfold reclaimable. rewrite andb_true_iff, is_leg_spec. unfold eqs. by rewrite bool_decide_eq_true.
Qed.

Section Safety.
Context `{StellarSdk} (verifier : FirstLegVerifier) (publicKey : string).
Context (Adm : @admissible PayoutCall).
Notation world := payout_world.
Implicit Types w : world.

(** What the forward relies on in a first-leg check: it moves no money and writes no payout row. *)
Class VerifierFrame : Prop := verifier_frame :
  forall ex (Q : outcome unit -> world -> Prop) w,
    (forall r w', w_db w' = w_db w -> (forall h, attempts h (w_log w') = attempts h (w_log w)) ->
       Q r w') ->
    wp Adm (verify ex) Q w.

(** Booking touches neither the payout rows nor the log. *)
Definition same_rows (w w' : world) : Prop :=
  w_db w' payoutForward = w_db w payoutForward /\ w_log w' = w_log w.

Lemma same_rows_set_table t l w :
  t <> payoutForward -> same_rows w (after w (set_table t l (w_db w))).
Proof. intros Ht. unfold same_rows. world_simpl. by rewrite set_table_other. Qed.

Lemma same_rows_trans w1 w2 w3 : same_rows w1 w2 -> same_rows w2 w3 -> same_rows w1 w3.
Proof. intros [H1 H2] [H3 H4]. split; congruence. Qed.

Lemma wp_journal_frame args (Q : outcome unit -> world -> Prop) w :
  (forall r w', same_rows w w' -> Q r w') -> wp Adm (recordJournalEntry args) Q w.
Proof.
  intros HQ. apply wp_recordJournalEntry; [by intros; apply HQ..|]. intros _ r _. cbn zeta.
  split; [|intros x]; apply HQ; by apply same_rows_set_table.
Qed.

Lemma wp_bookPayout_frame bk (Q : outcome unit -> world -> Prop) w :
  (forall r w', same_rows w w' -> Q r w') -> wp Adm (bookPayout bk) Q w.
Proof.
  intros HQ. unfold bookPayout. wp_step.
  assert (Hrest : forall w1, same_rows w w1 ->
    wp Adm (recordJournalEntry (JournalArgs "payout_hop" (bk_refId bk) "usdc_cash" (bk_amount bk) 0 "USDC") ;;;
            recordJournalEntry (JournalArgs "payout_hop" (bk_refId bk) "operator:payout_hop" 0 (bk_amount bk) "USDC"))
      Q w1).
  { intros w1 H1. wp_step. apply wp_journal_frame. intros [[]|x] w2 H2.
    - apply wp_journal_frame. intros r w3 H3. apply HQ. eauto using same_rows_trans.
    - apply HQ. eauto using same_rows_trans. }
  assert (Hrefl : same_rows w w) by done.
  destruct (bk_quoteId bk) as [q|]; [|by apply Hrest].
  destruct (eqs q ""); [by apply Hrest|]. wp_step; [by intros; apply HQ|].
  intros s _ _ _. pose proof (same_rows_set_table exitFill (w_db w exitFill ++
    [ExitFill (st_uuid s) q (bk_txHash bk) "anchor_hop" (Some (bk_memo bk)) (st_now s)]) w).
  split; [apply Hrest; auto|intros x; apply HQ; auto].
Qed.

End Safety.

(** The network-backed first-leg check moves no money. *)
#[export] Instance RpcFirstLegVerifier_frame `{StellarSdk} (Adm : @admissible PayoutCall) :
  VerifierFrame RpcFirstLegVerifier Adm.
Proof.
  intros ex Q w HQ. unfold verify, RpcFirstLegVerifier, RpcFirstLegVerifier_verify.
  destruct (TX_HASH_test _); cbn [negb]; [|by apply HQ]. wp_step. wp_step. wp_step.
  assert (Hlog : forall h, attempts h (w_log (note w (ECall (GetTransaction (ex_txHash ex)) r))) =
    attempts h (w_log w)) by (intros h; world_simpl; by apply attempts_snoc_none).
  destruct r as [resp|x]; [|by apply HQ]. wp_step. by apply HQ.
Qed.
