(* ===== verification/PayoutBooks.v ===== *)
(** The payout hop's answers and its books: a caller sees success exactly when the anchor was paid,
    and a payout marked [sent] has its journal pair. *)
From S2P Require Import Prelude Prog Schema Rules Domain PayoutHop PayoutSafety.

(** ** What the caller is told *)
Section Answers.
Context `{StellarSdk} (verifier : FirstLegVerifier) (publicKey : string).
Context (Adm : @admissible PayoutCall).
Notation world := payout_world.
Implicit Types w : world.

Lemma wp_claim_log args refId amt w :
  wp Adm (claim args refId amt) (fun _ w' => w_log w' = w_log w) w.
Proof.
  unfold claim. wp_step. wp_step; [done| |].
  - intros s _. wp_step. wp_step; [done|]. intros s'. split; [|done]. by repeat wp_step.
  - intros s _ _ _. by repeat wp_step.
Qed.

(** What a forward submits: nothing but for its own leg. *)
Definition submits (h : string) (more : list Answer) (w w' : world) : Prop :=
  forall h', attempts h' (w_log w') = attempts h' (w_log w) ++ if decide (h' = h) then more else [].

Lemma submits_nothing h w w' : (forall h, attempts h (w_log w') = attempts h (w_log w)) -> submits h [] w w'.
Proof. intros Hl h'. rewrite Hl. destruct (decide _); by rewrite app_nil_r. Qed.

Lemma submits_quiet h more w w1 w' :
  (forall h, attempts h (w_log w') = attempts h (w_log w1)) -> submits h more w w1 -> submits h more w w'.
Proof. intros Hl Hs h'. by rewrite Hl. Qed.

Lemma submits_after_quiet h more w w1 w' :
  (forall h, attempts h (w_log w1) = attempts h (w_log w)) -> submits h more w1 w' -> submits h more w w'.
Proof. intros Hl Hs h'. by rewrite (Hs h'), Hl. Qed.

Lemma submits_one h a w e : submission e = Some (h, a) -> submits h [a] w (note w e).
Proof.
  intros He h'. world_simpl. destruct (decide _) as [->|Hne]; [by apply attempts_snoc_same|].
  rewrite app_nil_r. by eapply attempts_snoc_other.
Qed.

(** A call that failed submitted nothing, or once and to no avail as far as it knows. *)
Definition to_no_avail (more : list Answer) : Prop := more = [] \/ exists a, more = [a] /\ failed a.

Lemma wp_send_submits args policy amt w :
  let h := fromContractPayoutTxHash args in
  wp Adm (send args policy amt)
    (fun r w' => match r with
       | Ok (tx, st) => submits h [Answered tx st] w w' /\ st <> "ERROR"
       | Err _ => exists more, submits h more w w' /\ to_no_avail more
       end) w.
Proof.
  intros h. unfold send. fold h. wp_step. wp_step.
  set (w1 := note w _). assert (Hload : forall h, attempts h (w_log w1) = attempts h (w_log w))
    by (intros h'; subst w1; world_simpl; by apply attempts_snoc_none).
  assert (Hquiet : exists more, submits h more w w1 /\ to_no_avail more)
    by (exists []; split; [by apply submits_nothing|by left]).
  destruct r as [seq|x]; [|done]. wp_step. wp_step. destruct (validatePayment _); [|done]. wp_step. wp_step.
  match goal with |- context [note w1 (ECall ?c r)] => set (e := ECall c r : payout_entry) end.
  assert (Hsub : forall a, submission e = Some (h, a) -> submits h [a] w (note w1 e))
    by (intros ans He; eapply submits_after_quiet; [done|by apply submits_one]).
  destruct r as [[tx st]|x].
  - cbn [snd]. destruct (eqs st "ERROR") eqn:Eerr; wp_step.
    + apply bool_decide_eq_true in Eerr. exists [Answered tx st]. split; [by apply Hsub|right; eexists; split; [done|by left]].
    + apply bool_decide_eq_false in Eerr. split; [by apply Hsub|done].
  - exists [Unanswered]. split; [by apply Hsub|right; eexists; split; [done|by right]].
Qed.

(** The last thing the log says is that this payout went unbooked. *)
Definition alerted_unbooked (h : string) (w : world) : Prop :=
  exists l f r, w_log w = l ++ [EOut (Fire "payout_unbooked" h f r)].

Definition leg_sent (h tx : string) (w : world) : Prop :=
  forall r, In r (w_db w payoutForward) -> pf_fromTxHash r = h ->
    pf_status r = "sent" /\ pf_txHash r = Some tx.

Lemma wp_markUnbooked_answer bk err (Q : outcome unit -> world -> Prop) w :
  (forall w', alerted_unbooked (bk_fromTxHash bk) w' ->
     (forall h, attempts h (w_log w') = attempts h (w_log w)) -> Q (Ok tt) w') ->
  wp Adm (markUnbooked bk err) Q w.
Proof.
  intros HQ. unfold markUnbooked.
  assert (Hemit : forall b w1, w_log w1 = w_log w ->
    Q (Ok tt) (note w1 (EOut (Fire "payout_unbooked" (bk_fromTxHash bk) b (exn_message err))))).
  { intros b w1 Hl. apply HQ; [by eexists _, _, _|]. intros h. world_simpl. rewrite Hl.
    by apply attempts_snoc_none. }
  wp_step. wp_step. wp_step. wp_step.
  - intros x. repeat wp_step. by apply Hemit.
  - intros s. split; [|intros x]; repeat wp_step; by apply Hemit.
Qed.

(** What the forward answers, from a world [w] on. *)
Definition answered_true (h : string) (w : world) (r : outcome ForwardPayoutResult) (w' : world) : Prop :=
  match r with
  | Ok res => submits h [Answered (hash res) (status res)] w w' /\ status res <> "ERROR" /\
      if booked res then leg_sent h (hash res) w' else alerted_unbooked h w'
  | Err _ => exists more, submits h more w w' /\ to_no_avail more
  end.

Lemma answered_quiet h w w' x : (forall h, attempts h (w_log w') = attempts h (w_log w)) -> answered_true h w (Err x) w'.
Proof. intros Hl. exists []. split; [by apply submits_nothing|by left]. Qed.

(** The books of a payment that was submitted: booked, or the alert is raised. *)
Lemma wp_booked_answer args refId tx st w0 w :
  let h := fromContractPayoutTxHash args in
  let bk := Booking h tx refId (quoteId args) (amount args) (memo args) in
  submits h [Answered tx st] w0 w -> st <> "ERROR" ->
  wp Adm (catch
      (transaction (stmt (update payoutForward (is_leg h) (set_pf_status_hash "sent" tx)) ;;; bookPayout bk) ;;;
       Ret (PayoutResult tx st true))
      (fun err => markUnbooked bk err ;;; Ret (PayoutResult tx st false)))
    (answered_true h w0) w.
Proof.
  intros h bk Hsub Hst.
  assert (Hun : forall x w', w_log w' = w_log w ->
    wp Adm (markUnbooked bk x ;;; Ret (PayoutResult tx st false)) (answered_true h w0) w').
  { intros x w' Hl. wp_step. apply wp_markUnbooked_answer. intros w5 Ha Hp5. wp_step.
    split; [|split; [done|exact Ha]]. eapply submits_quiet; [|exact Hsub]. intros h'. by rewrite Hp5, Hl. }
  wp_step. wp_step. wp_step. wp_step. wp_step; [by intros x; apply Hun|]. intros s.
  match goal with |- context [after w ?d] => set (w5 := after w d) end.
  assert (Hs5 : leg_sent h tx w5).
  { intros r Hr Er. subst w5. world_simpl. rewrite set_table_same in Hr.
    apply in_map_iff in Hr as (r0 & <- & _). destruct (is_leg h r0) eqn:El; [done|].
    exfalso. rewrite (proj2 (is_leg_spec h r0)) in El; done. }
  split; [|intros x; by apply Hun]. apply wp_bookPayout_frame. intros r w6 [Hr6 Hl6].
  apply wp_commit_any; destruct r as [[]|x]; [|by apply Hun].
  split; [|split; intros x; by apply Hun]. wp_step. split; [|split; [done|]].
  - eapply submits_quiet; [|exact Hsub]. intros h'. world_simpl. by rewrite Hl6.
  - intros r Hr. world_simpl. rewrite Hr6 in Hr. by apply Hs5.
Qed.

Lemma wp_forwardPayout_answer (HV : VerifierFrame verifier Adm) args policy w :
  let h := fromContractPayoutTxHash args in
  wp Adm (forwardPayout verifier publicKey args policy) (answered_true h w) w.
Proof.
  intros h. unfold forwardPayout. fold h.
  wp_step. wp_step. destruct (checkPolicy args policy); [|by apply answered_quiet]. wp_step. apply HV.
  intros [[]|x] w1 _ Hl1; [|by apply answered_quiet].
  wp_step. assert (Hr : forall Q : outcome string -> world -> Prop, (forall s w', w_log w' = w_log w1 -> Q (Ok s) w') ->
    wp Adm (match quoteId args with Some q => Ret q | None => s <- sample ;; Ret (st_uuid s) end) Q w1).
  { intros Q HQ. destruct (quoteId args); simpl; [by apply HQ|]. intros s _. by apply HQ. }
  apply Hr. intros refId w2 Hl2. clear Hr.
  assert (Hw2 : forall h, attempts h (w_log w2) = attempts h (w_log w)) by (intros h'; by rewrite Hl2).
  wp_step. wp_step. destruct (scaledToDecimalString _) as [amt|x]; [|by apply answered_quiet].
  wp_step. eapply wp_mono; [|apply wp_claim_log]. intros [[]|x] w3 Hl3;
    assert (Hw3 : forall h, attempts h (w_log w3) = attempts h (w_log w)) by (intros h'; by rewrite Hl3);
    [|by apply answered_quiet].
  wp_step. wp_step. eapply wp_mono; [|by apply (wp_send_submits args policy amt)]. fold h.
  intros [[tx st]|x] w4 Hp; cbv beta.
  - destruct Hp as [Hp Hst]. apply wp_booked_answer; [|done]. by eapply submits_after_quiet.
  - destruct Hp as (more & Hp & Hm).
    assert (Hend : forall w', w_log w' = w_log w4 -> exists more, submits h more w w' /\ to_no_avail more).
    { intros w' Hl'. exists more. split; [|done]. eapply submits_quiet; [by intros h'; rewrite Hl'|].
      by eapply submits_after_quiet. }
    wp_step. wp_step; [intros y; by apply Hend|]. intros s. split; [wp_step|intros y]; by apply Hend.
Qed.
End Answers.

(** C18. What a caller of the forward is told is what happened.  For every request, every answer of
    the network, every database fault and every starting world: a forward submits nothing for another
    leg; when it returns a result it submitted one payment for its leg, and the network answered with
    the hash and status returned, a status that is not [ERROR]; when it throws it submitted none, or
    one that the network answered [ERROR] or did not answer (it may have taken it).  With [booked] true
    every row of the leg is [sent] under the returned hash, with [booked] false the last thing the
    service did was to raise [payout_unbooked] for that leg. *)
Theorem forward_answer_true `{StellarSdk} (e : env PayoutCall) publicKey args policy (w0 : payout_world) :
  let h := fromContractPayoutTxHash args in
  let '(r, w) := run e (forwardPayout RpcFirstLegVerifier publicKey args policy) w0 in
  match r with
  | Ok res => submits h [Answered (hash res) (status res)] w0 w /\ status res <> "ERROR" /\
      if booked res then leg_sent h (hash res) w else alerted_unbooked h w
  | Err _ => exists more, submits h more w0 w /\ (more = [] \/ exists a, more = [a] /\ failed a)
  end.
Proof.
  intros h. apply (wp_sound any_answer); [done|]. apply wp_forwardPayout_answer, _.
Qed.

(** ** The first-leg check *)

(** An SDK that decodes every envelope to one USDC payment of 12.5 to the operator [GOP]. *)
Definition sample_sdk : StellarSdk := {|
  isValidEd25519PublicKey := starts_with "G";
  validatePayment _ := Ok tt;
  fromXDR _ := Ok (Plain [Op "payment" "GOP" false "USDC" "GISSUER" "12.5"]);
  scValToNative s := Ok (JStr s);
  encodeContract s := s;
  usdcContractId i := Ok ("C" +:+ i);
  muxedBaseAccount := Ok |}.

Section FirstLeg.
Context `{StellarSdk}.

(** A first leg that passes the check paid the operator: the transaction succeeded on the
    network and either its classic payments or its USDC contract's transfer events, whichever sums
    higher, bring the operator at least the requested amount of the configured USDC. *)
Theorem checkReceived_pays response ex :
  checkReceived response ex = Ok tt ->
  tr_status response = "SUCCESS" /\
  exists classic contract, fromPayments response ex = Ok classic /\
    fromSacEvents response ex = Ok contract /\
    ex_minAmount ex <= Z.max classic contract /\ Z.max classic contract <> 0.
Proof.
  unfold checkReceived, eqs. repeat case_bool_decide; simpl; try discriminate. intros Hc. split; [done|].
  apply obind_ok in Hc as (received & Hr & Hc).
  unfold usdcReceived in Hr. apply obind_ok in Hr as (a & Ha & Hr).
  apply obind_ok in Hr as (b & Hb & [= <-]). exists a, b. split; [done|]. split; [done|].
  replace (Z.max a b) with (if b <? a then a else b) by (destruct (Z.ltb_spec b a); lia).
  destruct (Z.eqb_spec (if b <? a then a else b) 0) as [|Hz]; [done|].
  destruct (Z.ltb_spec (if b <? a then a else b) (ex_minAmount ex)) as [|Hm]; [|done].
  apply obind_ok in Hc as (got & _ & Hc). by apply obind_ok in Hc as (want & _ & [=]).
Qed.
End FirstLeg.

Lemma checkReceived_pays_witness :
  let response := TxResponse "SUCCESS" "AAAA" None in
  let ex := Expect "h" "GOP" "GISSUER" 125000000 in
  tr_status response = "SUCCESS" /\
  exists classic contract, @fromPayments sample_sdk response ex = Ok classic /\
    @fromSacEvents sample_sdk response ex = Ok contract /\
    ex_minAmount ex <= Z.max classic contract /\ Z.max classic contract <> 0.
Proof. cbv zeta. apply checkReceived_pays. vm_compute. reflexivity. Defined.
