(* ===== verification/PayoutOverlap.v ===== *)
(** Payouts that overlap: however forwards and repairs interleave, a first leg is submitted again only
    after every submission before it failed. *)
From S2P Require Import Prelude Prog Interleave Schema Rules Domain PayoutHop PayoutSafety PayoutBooks.

Section Overlap.
Context `{StellarSdk}.
Notation world := payout_world.
Notation rows w := (w_db w payoutForward).
Implicit Types (w : world) (h : string).

(** ** What a forward or a repair does, as the others see it *)
(** A forward holds the leg it has claimed until the network has answered. *)
Inductive phase := Free | Holding (h : string) | Paid (h : string).
Implicit Types ph : phase.

(** No forward has the leg: it has no row, or a failed one. *)
Definition claimable h (l : list payoutForward_row) : Prop :=
  (forall r, In r l -> pf_fromTxHash r <> h) \/ exists r, In r l /\ pf_fromTxHash r = h /\ pf_status r = "failed".

(** The rows of other legs are as they were. *)
Definition others_kept h (l l' : list payoutForward_row) : Prop :=
  forall r, pf_fromTxHash r <> h -> In r l' <-> In r l.

Definition same_attempts w w' : Prop := forall h, attempts h (w_log w') = attempts h (w_log w).

(** One more submission was made, for the leg [h], and this came of it. *)
Definition submitted h a w w' : Prop :=
  attempts h (w_log w') = attempts h (w_log w) ++ [a] /\
  forall h', h' <> h -> attempts h' (w_log w') = attempts h' (w_log w).

Inductive payout_step : phase -> world -> world -> phase -> Prop :=
| P_idle ph w w' : rows w' = rows w -> same_attempts w w' -> payout_step ph w w' ph
| P_claim ph h w w' :
    claimable h (rows w) -> held h (rows w') -> others_kept h (rows w) (rows w') -> same_attempts w w' ->
    ph = Holding h \/ ph = Free -> payout_step Free w w' ph
| P_pay h a w w' : rows w' = rows w -> submitted h a w w' -> ~ failed a -> payout_step (Holding h) w w' (Paid h)
| P_refused h a w w' : rows w' = rows w -> submitted h a w w' -> failed a -> payout_step (Holding h) w w' (Holding h)
| P_fail h w w' : others_kept h (rows w) (rows w') -> same_attempts w w' -> payout_step (Holding h) w w' Free
| P_mark ph w w' (g : payoutForward_row -> payoutForward_row) :
    rows w' = List.map g (rows w) -> (forall r, pf_fromTxHash (g r) = pf_fromTxHash r) ->
    (forall r, pf_status r <> "failed" -> pf_status (g r) <> "failed") -> same_attempts w w' -> payout_step ph w w' ph.

Notation follows := (follows any_answer payout_step).
Definition anyhow {A} (ph : phase) (r : outcome A) : Prop := True.

Lemma same_log w w' : w_log w' = w_log w -> same_attempts w w'.
Proof. intros E h. by rewrite E. Qed.

Lemma same_noted w x : submission x = None -> same_attempts w (note w x).
Proof. intros Hx h. world_simpl. by apply attempts_snoc_none. Qed.

Lemma payout_idle ph w w' : rows w' = rows w -> w_log w' = w_log w -> payout_step ph w w' ph.
Proof. intros. apply P_idle; [done|by apply same_log]. Qed.

Lemma is_leg_other h r : pf_fromTxHash r <> h -> is_leg h r = false.
Proof. intros Hr. apply not_true_iff_false. by rewrite is_leg_spec. Qed.

Lemma others_kept_map h (P : payoutForward_row -> bool) f l :
  (forall r, P r = true -> pf_fromTxHash r = h) -> (forall r, pf_fromTxHash (f r) = pf_fromTxHash r) ->
  others_kept h l (List.map (fun r => if P r then f r else r) l).
Proof.
  intros HP Hf r Hr. rewrite in_map_iff. split.
  - intros (r0 & <- & Hin). destruct (P r0) eqn:E; [|done]. rewrite Hf in Hr. by apply HP in E.
  - intros Hin. exists r. split; [|done]. destruct (P r) eqn:E; [by apply HP in E|done].
Qed.

(** ** The programs follow it *)
(** A statement that leaves the payout rows alone. *)
Lemma follows_idle_stmt {X} (q : sql X) (Fin : phase -> outcome X -> Prop) ph :
  (forall s d v d', q s d = Ok (v, d') -> d' payoutForward = d payoutForward) -> (forall r, Fin ph r) -> follows (stmt q) Fin ph.
Proof.
  intros Hq HF. apply follows_stmt. intros w. split; [intros x; exists ph; split; [by apply payout_idle|done]|].
  intros s _. specialize (Hq s (w_db w)). destruct (q s (w_db w)) as [[v d']|x]; [|exists ph; split; [by apply payout_idle|done]].
  specialize (Hq _ _ eq_refl). split; [|intros x _]; exists ph; (split; [by apply payout_idle|done]).
Qed.

Lemma follows_idle_call {X} (c : PayoutCall X) (Fin : phase -> outcome X -> Prop) ph :
  (forall r, submission (ECall c r) = None) -> (forall r, Fin ph r) -> follows (call c) Fin ph.
Proof. intros Hc HF. apply follows_call. intros w r _. exists ph. split; [by apply P_idle, same_noted|done]. Qed.

Lemma follows_emit o (Fin : phase -> outcome unit -> Prop) ph : Fin ph (Ok tt) -> follows (emit o) Fin ph.
Proof. intros HF w. exists ph. split; [by apply P_idle, same_noted|done]. Qed.

Lemma follows_verify ex (Fin : phase -> outcome unit -> Prop) ph :
  (forall r, Fin ph r) -> follows (RpcFirstLegVerifier_verify ex) Fin ph.
Proof.
  intros HF. unfold RpcFirstLegVerifier_verify. destruct (negb _); [apply HF|]. apply follows_bind, follows_catch, follows_idle_call; [done|].
  intros [r|x]; [by apply follows_lift|apply HF].
Qed.

Lemma follows_refId args (Fin : phase -> outcome string -> Prop) ph :
  (forall r, Fin ph (Ok r)) ->
  follows (match quoteId args with Some q => Ret q | None => s <- sample ;; Ret (st_uuid s) end) Fin ph.
Proof. intros HF. destruct (quoteId args); [apply HF|]. intros w st _. exists ph. split; [by apply payout_idle|apply HF]. Qed.

Lemma conflict_claim args refId amt s r :
  conflict payoutForward (claim_row args refId amt s) r = is_leg (fromContractPayoutTxHash args) r.
Proof. cbn. unfold is_leg. apply eqs_sym. Qed.

Lemma follows_payout_claim args refId amt (Fin : phase -> outcome unit -> Prop) :
  let h := fromContractPayoutTxHash args in
  Fin (Holding h) (Ok tt) -> (forall x, Fin Free (Err x)) -> follows (claim args refId amt) Fin Free.
Proof.
  intros h Hok Herr. unfold claim. apply follows_bind, follows_stmt. intros w.
  assert (Hfail : forall w' x, rows w' = rows w -> w_log w' = w_log w -> exists ph, payout_step Free w w' ph /\ Fin ph (Err x))
    by (intros w' x E1 E2; exists Free; split; [by apply payout_idle|done]).
  split; [intros x; by apply Hfail|]. intros s _. unfold insert_ignore. cbn [in_range negb references_ok].
  destruct (conflicts payoutForward (claim_row args refId amt s) (w_db w)) eqn:Ec.
  - split; [|intros x _; by apply Hfail]. exists Free. split; [by apply payout_idle|].
    apply follows_bind, follows_stmt. intros w1.
    assert (Hfail1 : forall w' x, rows w' = rows w1 -> w_log w' = w_log w1 -> exists ph, payout_step Free w1 w' ph /\ Fin ph (Err x))
      by (intros w' x E1 E2; exists Free; split; [by apply payout_idle|done]).
    apply wp_stmt_update; [intros x; by apply Hfail1|]. intros s1. cbn [row] in *.
    change (fun r : payoutForward_row => is_leg (fromContractPayoutTxHash args) r && eqs (pf_status r) "failed") with (reclaimable h).
    destruct (List.filter (reclaimable h) (rows w1)) as [|r0 rs] eqn:Ef; cbn [List.map].
    + assert (Esame : List.map (fun r => if reclaimable h r then reclaim_row args refId amt s1 r else r) (rows w1) = rows w1)
        by (by apply map_if_filter_nil).
      split; [exists Free; split; [|apply Herr]; apply payout_idle; [simpl; by rewrite set_table_same|done]|].
      intros x. apply Hfail1; [simpl; by rewrite set_table_same|done].
    + assert (In r0 (rows w1) /\ reclaimable h r0 = true) as [Hin Hr0] by (apply List.filter_In; rewrite Ef; by left).
      pose proof (proj1 (reclaimable_spec h r0) Hr0) as [Hleg Hst].
      assert (Hclaim : forall ph, ph = Holding h \/ ph = Free -> payout_step Free w1
        (tick (with_db w1 (set_table payoutForward (List.map (fun r => if reclaimable h r then reclaim_row args refId amt s1 r else r) (rows w1)) (w_db w1)))) ph).
      { intros ph Hph. apply (P_claim ph h); [right; by exists r0| | |by apply same_log|done]; simpl; rewrite set_table_same.
        - split; [exists (reclaim_row args refId amt s1 r0); split; [apply in_map_iff; exists r0; by rewrite Hr0|done]|].
          intros r (r1 & <- & _)%in_map_iff Er. destruct (reclaimable h r1) eqn:E1; [done|].
          intros Est. by rewrite (proj2 (reclaimable_spec h r1)) in E1.
        - apply others_kept_map; [|done]. intros r Hr. by apply reclaimable_spec in Hr as [? _]. }
      split; [exists (Holding h); split; [apply Hclaim; by left|apply Hok]|].
      intros x. exists Free. split; [apply Hclaim; by right|done].
  - assert (Hno : forall r, In r (rows w) -> pf_fromTxHash r <> h).
    { intros r Hr Er. apply not_true_iff_false in Ec. apply Ec, existsb_exists. exists r. split; [done|].
      rewrite conflict_claim. by apply is_leg_spec. }
    assert (Hclaim : forall ph, ph = Holding h \/ ph = Free -> payout_step Free w
      (tick (with_db w (set_table payoutForward (rows w ++ [claim_row args refId amt s]) (w_db w)))) ph).
    { intros ph Hph. apply (P_claim ph h); [by left| | |by apply same_log|done]; simpl; rewrite set_table_same.
      - split; [exists (claim_row args refId amt s); split; [apply in_or_app; right; by left|done]|].
        intros r [Hr|[<-|[]]]%in_app_or Er; [by apply Hno in Hr|done].
      - intros r Hr. split; [|intros; apply in_or_app; by left]. intros [Hin|[<-|[]]]%in_app_or; [done|by destruct Hr]. }
    split; [exists (Holding h); split; [apply Hclaim; by left|apply Hok]|].
    intros x _. exists Free. split; [apply Hclaim; by right|done].
Qed.

Lemma follows_send args policy amt (Fin : phase -> outcome (string * string) -> Prop) :
  let h := fromContractPayoutTxHash args in
  (forall r, Fin (Paid h) (Ok r)) -> (forall x, Fin (Holding h) (Err x)) -> follows (send args policy amt) Fin (Holding h).
Proof.
  intros h Hok Herr. unfold send. apply follows_bind, follows_idle_call; [done|]. intros [seq|x]; [|apply Herr].
  apply follows_bind, follows_lift. destruct (validatePayment _) as [[]|x]; [|apply Herr].
  apply follows_bind, follows_call. intros w r _.
  match goal with |- context [note w (ECall ?c r)] => set (e := ECall c r : payout_entry) end.
  assert (Hsub : forall a, submission e = Some (h, a) -> submitted h a w (note w e)).
  { intros a He. unfold submitted. world_simpl. split; [by apply attempts_snoc_same|].
    intros h' Hne. by eapply attempts_snoc_other. }
  destruct r as [res|x].
  - destruct (eqs (snd res) "ERROR") eqn:E.
    + apply bool_decide_eq_true in E. exists (Holding h). split; [|apply Herr].
      apply (P_refused h (Answered (fst res) (snd res))); [done|by apply Hsub|by left].
    + apply bool_decide_eq_false in E. exists (Paid h). split; [|apply Hok].
      apply (P_pay h (Answered (fst res) (snd res))); [done|by apply Hsub|by intros [?|[=]]].
  - exists (Holding h). split; [|apply Herr]. apply (P_refused h Unanswered); [done|by apply Hsub|by right].
Qed.

(** Marking the rows of a leg with a status other than [failed]. *)
Lemma marked ph w w' (f : payoutForward_row -> payoutForward_row) (P : payoutForward_row -> bool) :
  (forall r, pf_fromTxHash (f r) = pf_fromTxHash r) -> (forall r, pf_status (f r) <> "failed") ->
  rows w' = List.map (fun r => if P r then f r else r) (rows w) -> w_log w' = w_log w -> payout_step ph w w' ph.
Proof.
  intros Hleg Hst Hr Hl. apply (P_mark _ _ _ (fun r => if P r then f r else r)); [done| | |by apply same_log];
    intros r; by destruct (P r).
Qed.

Lemma follows_markUnbooked bk err ph : follows (markUnbooked bk err) anyhow ph.
Proof.
  unfold markUnbooked. apply follows_bind.
  assert (Hemit : forall b, follows (emit (Fire "payout_unbooked" (bk_fromTxHash bk) b (exn_message err))) anyhow ph)
    by (intros b; by apply follows_emit).
  apply follows_catch, follows_bind, follows_stmt. intros w.
  apply wp_stmt_update; [intros x; exists ph; split; [by apply payout_idle|apply Hemit]|]. intros s. cbn [row].
  assert (Hm : payout_step ph w (after w (set_table payoutForward (List.map (fun r => if is_leg (bk_fromTxHash bk) r
      then set_pf_status_hash "bookkeeping_pending" (bk_txHash bk) s r else r) (rows w)) (w_db w))) ph).
  { eapply marked; [| |world_simpl; by rewrite set_table_same|done]; done. }
  split; [|intros x]; exists ph; (split; [exact Hm|apply Hemit]).
Qed.

(** A transaction of booking statements, after the leg's row was marked. *)
Lemma follows_marking_tx {X} h st hash (body : payout_prog unit) (k : outcome unit -> payout_prog X) Fin ph :
  st <> "failed" ->
  (forall w (Q : outcome unit -> world -> Prop), (forall r w', same_rows w w' -> Q r w') -> wp any_answer body Q w) ->
  (forall r, follows (k r) Fin ph) ->
  follows (Tx (stmt (update payoutForward (is_leg h) (set_pf_status_hash st hash)) ;;; body) k) Fin ph.
Proof.
  intros Hst Hbody Hk w.
  assert (Hend : forall r w', rows w' = rows w \/ (exists s, rows w' = List.map (fun r => if is_leg h r then set_pf_status_hash st hash s r else r) (rows w)) ->
    w_log w' = w_log w -> exists ph', payout_step ph w w' ph' /\ follows (k r) Fin ph').
  { intros r w' [E|[s E]] El; exists ph; (split; [|apply Hk]); [by apply payout_idle|]. by eapply marked; [| |exact E|exact El]. }
  wp_step. apply wp_stmt_op, wp_stmt_update; [intros x; apply Hend; [by left|done]|]. intros s. cbn [row].
  split; [|intros x; apply Hend; [by left|done]].
  apply Hbody. intros r w' [Er El]. apply wp_commit_any.
  assert (Hmarked : rows w' = List.map (fun r => if is_leg h r then set_pf_status_hash st hash s r else r) (rows w))
    by (rewrite Er; world_simpl; by rewrite set_table_same).
  destruct r as [[]|x]; [|apply Hend; [by left|done]].
  split; [apply Hend; [by right; exists s|done]|]. split; intros x; (apply Hend; [|done]); [by left|by right; exists s].
Qed.

Lemma follows_forwardPayout publicKey args policy :
  follows (forwardPayout RpcFirstLegVerifier publicKey args policy) anyhow Free.
Proof.
  unfold forwardPayout. set (h := fromContractPayoutTxHash args).
  apply follows_bind, follows_lift. destruct (checkPolicy args policy); [|done].
  apply follows_bind, follows_verify. intros [[]|x]; [|done].
  apply follows_bind, follows_refId. intros refId.
  apply follows_bind, follows_lift. destruct (scaledToDecimalString _) as [amt|x]; [|done].
  apply follows_bind, follows_payout_claim; [fold h|done].
  apply follows_bind, follows_catch, follows_send; fold h.
  - intros [hash status]. apply follows_catch, follows_bind. unfold transaction.
    set (bk := Booking _ _ _ _ _ _).
    assert (Hmark : forall x, follows (markUnbooked bk x ;;; Ret (PayoutResult hash status false)) anyhow (Paid h)).
    { intros x. apply follows_bind. eapply follows_mono; [|apply follows_markUnbooked]. by intros ph [[]|y] _. }
    apply follows_marking_tx; [done| |].
    + intros w Q HQ. apply wp_bookPayout_frame. exact HQ.
    + intros [[]|x]; cbn; [done|apply Hmark].
  - intros x. apply follows_bind, follows_stmt. intros w.
    apply wp_stmt_update; [intros y; exists (Holding h); split; [by apply payout_idle|done]|]. intros s. cbn [row].
    assert (Hf : payout_step (Holding h) w (after w (set_table payoutForward (List.map (fun r => if is_leg h r
      then set_pf_status "failed" s r else r) (rows w)) (w_db w))) Free).
    { apply P_fail; [|by apply same_log]. world_simpl. rewrite set_table_same. apply others_kept_map; [|done].
      intros r. by rewrite is_leg_spec. }
    split; [|intros y]; by exists Free.
Qed.

(** A repair marks one leg and books it, in one transaction. *)
Lemma follows_repair_row r X (k : outcome RepairOutcome -> payout_prog X) Fin ph :
  (forall o, follows (k o) Fin ph) -> follows (Tx (repair_row r) k) Fin ph.
Proof.
  intros Hk w. unfold repair_row.
  set (P := fun r' : payoutForward_row => is_leg (pf_fromTxHash r) r' && eqs (pf_status r') "bookkeeping_pending").
  assert (Hend : forall o w', rows w' = rows w \/ (exists s, rows w' = List.map (fun r => if P r then set_pf_status "sent" s r else r) (rows w)) ->
    w_log w' = w_log w -> exists ph', payout_step ph w w' ph' /\ follows (k o) Fin ph').
  { intros o w' [E|[s E]] El; exists ph; (split; [|apply Hk]); [by apply payout_idle|]. by eapply marked; [| |exact E|exact El]. }
  wp_step. apply wp_stmt_op, wp_stmt_update; [intros x; apply Hend; [by left|done]|]. intros s. cbn [row]. fold P.
  split; [|intros x; apply Hend; [by left|done]].
  set (w1 := after w _).
  assert (Hany : forall o w', same_rows w1 w' -> wp_commit any_answer w (fun r' w2 => exists ph', payout_step ph w w2 ph' /\ follows (k r') Fin ph') o w').
  { intros o w' [Er El]. apply wp_commit_any.
    assert (Hmarked : rows w' = List.map (fun r => if P r then set_pf_status "sent" s r else r) (rows w))
      by (rewrite Er; subst w1; world_simpl; by rewrite set_table_same).
    destruct o as [o|x]; [|apply Hend; [by left|done]].
    split; [apply Hend; [by right; exists s|done]|]. split; intros x; (apply Hend; [|done]); [by left|by right; exists s]. }
  wp_step; [wp_step; by apply Hany|]. wp_step. wp_step; [intros x; by apply Hany|]. wp_step; [|wp_step; by apply Hany].
  wp_step; [wp_step; by apply Hany|]. wp_step. wp_step. destruct (decimalStringToScaled _); [|by apply Hany].
  wp_step. apply wp_bookPayout_frame. intros [[]|x] w2 H2; [wp_step|]; by apply Hany.
Qed.

Lemma follows_repair : follows bookPendingPayouts anyhow Free.
Proof.
  unfold bookPendingPayouts. apply follows_bind, follows_idle_stmt; [by intros s d v d' [= _ <-]|]. intros [pending|x]; [|done].
  apply (follows_fold _ _ (fun ph => ph = Free)); [|done|done]. intros acc r ph ->. unfold repair_step.
  apply follows_catch, follows_bind. unfold transaction. apply follows_repair_row. intros [o|x]; cbn [lift]; [done|].
  apply follows_bind. by apply follows_emit.
Qed.

(** ** The invariant *)
Definition leg_phase w ph : Prop :=
  match ph with
  | Free => True
  | Holding h => unpaid h (w_log w) /\ held h (rows w)
  | Paid h => paid h (w_log w)
  end.

Record legs_shared (ss : list phase) w : Prop := Shared {
  sh_paid : paid_once (rows w) (w_log w);
  sh_phases : forall i ph, ss !! i = Some ph -> leg_phase w ph;
  sh_owner : forall i j h, ss !! i = Some (Holding h) -> ss !! j = Some (Holding h) -> i = j }.

Lemma claimable_not_held h l : claimable h l -> held h l -> False.
Proof. intros [Hno|(r & Hr & Eh & Es)] [(r' & Hr' & Eh') Hst]; [by apply (Hno r')|by apply (Hst r)]. Qed.

Lemma held_others h h' l l' : others_kept h l l' -> h' <> h -> held h' l -> held h' l'.
Proof.
  intros Ho Hne [(r & Hr & Er) Hst]. split.
  - exists r. split; [apply Ho; [congruence|done]|done].
  - intros r' Hr' Er'. apply Hst; [apply Ho; [congruence|done]|done].
Qed.

Lemma unpaid_same h w w' : same_attempts w w' -> unpaid h (w_log w) -> unpaid h (w_log w').
Proof. unfold unpaid. by intros ->. Qed.

Lemma paid_same h w w' : same_attempts w w' -> paid h (w_log w) -> paid h (w_log w').
Proof. unfold paid. by intros ->. Qed.

(** The legs a submission was not made for are as they were, the leg it was made for as its answer says. *)
Lemma submitted_other h h' a w w' :
  submitted h a w w' -> h' <> h -> (unpaid h' (w_log w) -> unpaid h' (w_log w')) /\ (paid h' (w_log w) -> paid h' (w_log w')).
Proof. intros [_ Ho] Hne. unfold unpaid, paid. by rewrite Ho. Qed.

Lemma submitted_failed h a w w' : submitted h a w w' -> failed a -> unpaid h (w_log w) -> unpaid h (w_log w').
Proof. intros [Ha _] Hf Hu. unfold unpaid. rewrite Ha. apply Forall_app. auto. Qed.

Lemma submitted_paid h a w w' : submitted h a w w' -> ~ failed a -> unpaid h (w_log w) -> paid h (w_log w').
Proof. intros [Ha _] Hs Hu. by exists (attempts h (w_log w)), a. Qed.

Lemma paid_once_others h w w' :
  paid_once (rows w) (w_log w) -> others_kept h (rows w) (rows w') -> same_attempts w w' ->
  unpaid h (w_log w) -> paid_once (rows w') (w_log w').
Proof.
  intros Hp Ho Hs H0 h'. destruct (Hp h') as [Hu|[H1 Hh]]; [left; by eapply unpaid_same|]. right.
  split; [by eapply paid_same|]. eapply held_others; [exact Ho| |done]. intros ->. by eapply unpaid_not_paid.
Qed.

(** A member's own move, and what the others keep. *)
Lemma leg_shared_move ss w w' i ph ph' :
  legs_shared ss w -> ss !! i = Some ph -> paid_once (rows w') (w_log w') -> leg_phase w' ph' ->
  (forall j ph, j <> i -> ss !! j = Some ph -> leg_phase w' ph) ->
  (forall h, ph' = Holding h -> ph = Holding h \/ claimable h (rows w)) ->
  legs_shared (<[i := ph']> ss) w'.
Proof.
  intros [_ Hph Ho] Hi Hp' Hm Hothers Hown. split; [done| |].
  - intros j ph2 [(<- & <- & _)|(Hne & Hj)]%list_lookup_insert_Some; [done|by eapply Hothers].
  - assert (Hone : forall j h, j <> i -> ss !! j = Some (Holding h) -> ph' = Holding h -> False).
    { intros j h Hne Hj E. destruct (Hown h E) as [->|Hfree]; [by apply Hne; eapply Ho|].
      destruct (Hph j _ Hj) as [_ Hh]. by eapply claimable_not_held. }
    intros j k h [(<- & E1 & _)|(Hj & Ej)]%list_lookup_insert_Some [(<- & E2 & _)|(Hk & Ek)]%list_lookup_insert_Some;
      [done| | |by eapply Ho]; exfalso; by eauto.
Qed.

Lemma leg_phase_ext w w' ph : rows w' = rows w -> same_attempts w w' -> leg_phase w ph -> leg_phase w' ph.
Proof. intros Er Hp. destruct ph; cbn; rewrite ?Er; [done|intros [Hu Hh]; split; [by eapply unpaid_same|done]|by apply paid_same]. Qed.

(** A submission of the member [i], who holds the leg, does not concern the legs of the others. *)
Lemma leg_phase_submitted ss w w' i j h a ph :
  legs_shared ss w -> ss !! i = Some (Holding h) -> j <> i -> ss !! j = Some ph ->
  rows w' = rows w -> submitted h a w w' -> leg_phase w' ph.
Proof.
  intros [Hp Hph Ho] Hi Hne Hj Er Hs. destruct (Hph i _ Hi) as [H0 _]. pose proof (Hph j _ Hj) as Hm.
  destruct ph as [|h'|h']; cbn in *; [done| |]; rewrite ?Er.
  - assert (Hd : h' <> h) by (intros ->; by apply Hne; eapply Ho).
    split; [apply (submitted_other h h' a w w' Hs Hd)|]; apply Hm.
  - assert (Hd : h' <> h) by (intros ->; by eapply unpaid_not_paid). by apply (submitted_other h h' a w w' Hs Hd).
Qed.

Lemma paid_once_submitted h a w w' :
  paid_once (rows w) (w_log w) -> rows w' = rows w -> submitted h a w w' ->
  unpaid h (w_log w') \/ paid h (w_log w') /\ held h (rows w) -> paid_once (rows w') (w_log w').
Proof.
  intros Hp Er Hs Hh h'. rewrite Er. destruct (decide (h' = h)) as [->|Hne]; [done|].
  destruct (submitted_other _ h' _ _ _ Hs Hne). destruct (Hp h') as [|[]]; [left; auto|right; auto].
Qed.

Lemma legs_shared_step ss w i ph w' ph' :
  legs_shared ss w -> ss !! i = Some ph -> payout_step ph w w' ph' -> legs_shared (<[i := ph']> ss) w'.
Proof.
  intros Hsh Hi Hstep. pose proof Hsh as [Hp Hph Ho]. pose proof (Hph _ _ Hi) as Hmine.
  destruct Hstep as [ph w w' Er Hs|ph h w w' Hcl Hh Hok Hs Hown|h a w w' Er Hs Hne|h a w w' Er Hs Ha|h w w' Hok Hs|ph w w' g Er Hleg Hst Hs].
  - eapply leg_shared_move; eauto using leg_phase_ext.
    intros h. rewrite Er. destruct (Hp h) as [|[]]; [left; by eapply unpaid_same|right; split; [by eapply paid_same|done]].
  - assert (H0 : unpaid h (w_log w)) by (destruct (Hp h) as [|[_ Hheld]]; [done|by destruct (claimable_not_held _ _ Hcl Hheld)]).
    eapply (leg_shared_move _ w); [done|done|by eapply paid_once_others| | |].
    + destruct Hown as [->| ->]; [|done]. cbn. split; [by eapply unpaid_same|done].
    + intros j [|h'|h'] Hne Hj; specialize (Hph j _ Hj); cbn in *; [done| |by eapply paid_same].
      split; [by eapply unpaid_same; [|apply Hph]|]. eapply held_others; [exact Hok| |apply Hph].
      intros ->. by eapply claimable_not_held; [|apply Hph].
    + intros h' E. right. destruct Hown as [->| ->]; [by injection E as <-|done].
  - destruct Hmine as [H0 Hheld]. assert (Hpaid : paid h (w_log w')) by (by eapply submitted_paid).
    eapply (leg_shared_move _ w); [done|done|eapply paid_once_submitted; [done|done|done|by right]|done| |done].
    intros j ph2 Hj Ej. by eapply leg_phase_submitted.
  - destruct Hmine as [H0 Hheld]. assert (Hun : unpaid h (w_log w')) by (by eapply submitted_failed).
    eapply (leg_shared_move _ w); [done|done|eapply paid_once_submitted; [done|done|done|by left]| | |by left].
    + cbn. by rewrite Er.
    + intros j ph2 Hj Ej. by eapply leg_phase_submitted.
  - destruct Hmine as [H0 Hheld]. eapply (leg_shared_move _ w); [done|done|by eapply paid_once_others|done| |done].
    intros j [|h'|h'] Hne Hj; pose proof (Hph j _ Hj) as Hm; cbn in *; [done| |by eapply paid_same].
    split; [by eapply unpaid_same; [|apply Hm]|]. eapply held_others; [exact Hok| |apply Hm]. intros ->. by apply Hne; eapply Ho.
  - assert (Hheld : forall h, held h (rows w) -> held h (rows w')) by (intros h Hh; rewrite Er; by apply held_map; auto).
    assert (Hph' : forall ph, leg_phase w ph -> leg_phase w' ph).
    { intros [|h|h]; cbn; [done|intros []; split; [by eapply unpaid_same|auto]|by apply paid_same]. }
    eapply (leg_shared_move _ w); eauto. intros h.
    destruct (Hp h) as [|[? ?]]; [left; by eapply unpaid_same|right; split; [by eapply paid_same|auto]].
Qed.
End Overlap.

(** What the invariant says of the submissions for a leg. *)
Lemma paid_once_attempts h rows log :
  paid_once rows log ->
  let tried := attempts h log in
  (forall before a after, tried = before ++ a :: after -> after <> [] -> failed a) /\
  (maybe_paid tried <= S (unanswered tried))%nat /\
  (forall a, In a tried -> ~ failed a -> held h rows).
Proof.
  intros Hp tried. subst tried. destruct (Hp h) as [Hu|[(l & a0 & E & Hl & Hs) Hh]].
  - split; [|split].
    + intros before a after E _. red in Hu. rewrite E in Hu. by apply Forall_app in Hu as [_ [Hu _]%Forall_cons].
    + rewrite failed_maybe_paid by done. lia.
    + intros a Hin Ha. red in Hu. rewrite List.Forall_forall in Hu. by destruct Ha; apply Hu.
  - rewrite E. split; [|split; [by apply once_maybe_paid|done]].
    intros before a after E' Hne. destruct after as [|x after _] using rev_ind; [done|].
    rewrite app_comm_cons, app_assoc in E'. apply app_inj_tail in E' as [-> _].
    by apply Forall_app in Hl as [_ [Hl _]%Forall_cons].
Qed.

(** C1. A first leg is paid once, and once more only after a submission nobody answered, however its
    requests overlap.  Take any forwards and repairs in progress at once, with any arguments, any
    interleaving of their statements, transactions and calls, any answers of the network and any
    database faults (statements that fail, commits whose acknowledgement is lost), from the start of
    the log.  For every first-leg hash, as it is written in the requests:
    - a payment is submitted again only after everything submitted for that hash before had failed,
      that is, was answered [ERROR] or not answered at all;
    - so of the submissions that may have moved money, those not answered [ERROR], all but one went
      unanswered (with every submission answered, at most one was not refused);
    - once one was answered otherwise, the row of the hash is never again in the one status ([failed])
      from which it can be reclaimed.
    The network may have taken a submission it did not answer: the payment made after it is then a
    second one ([OverlapSample.lost_answer_is_paid_again]). *)
Theorem overlapping_payouts_pay_once `{StellarSdk} (e : env PayoutCall) publicKey policy
    (ops : list PayoutOp) (schedule : list nat) (d : Database) h :
  let '(_, w) := interleave e schedule (List.map (payout_op RpcFirstLegVerifier publicKey policy) ops, World d 0 []) in
  let tried := attempts h (w_log w) in
  (forall before a after, tried = before ++ a :: after -> after <> [] -> failed a) /\
  (maybe_paid tried <= S (unanswered tried))%nat /\
  (forall a, In a tried -> ~ failed a -> held h (w_db w payoutForward)).
Proof.
  set (ss := List.map (fun _ : PayoutOp => Free) ops).
  assert (Hfree : forall i ph, ss !! i = Some ph -> ph = Free).
  { intros i ph Hi. apply list_elem_of_lookup_2, list_elem_of_In, in_map_iff in Hi as (o & <- & _). done. }
  assert (Hstart : legs_shared ss (World d 0 [])).
  { split; [intros h'; left; apply Forall_nil_2|by intros i ph ->%Hfree|by intros i j h' Hi%Hfree]. }
  destruct (interleave_invariant any_answer payout_step e anyhow legs_shared schedule
    (List.map (payout_op RpcFirstLegVerifier publicKey policy) ops) ss (World d 0 [])) as (ss' & [Hp _ _] & _); [done| |done| |].
  - subst ss. clear. induction ops as [|[args|] l IH]; constructor; try exact IH; cbn [payout_op]; apply follows_bind, follows_attempt;
      (eapply follows_mono; [|first [apply follows_forwardPayout|apply follows_repair]]); done.
  - intros. by eapply legs_shared_step.
  - destruct (interleave _ _ _) as [threads w]. cbn [fst snd] in *. by apply paid_once_attempts.
Qed.

(** ** What is submitted twice all the same *)
Module OverlapSample.
Definition leg (c : ascii) : string := list_to_string (List.repeat c 64).
Definition forward (h : string) : PayoutOp := OpForward (PayoutArgs h "GANCHOR" 125000000 "42" "GISSUER" None).

(** A network on which the first leg landed; [n] counts its calls. *)
Definition answers (submit : nat -> outcome (string * string)) (X : Type) (n : nat) (c : PayoutCall X) : outcome X :=
  match c in PayoutCall X return outcome X with
  | GetTransaction _ => Ok (TxResponse "SUCCESS" "AAAA" None)
  | LoadSequenceAccount => Ok 7
  | SignAndSubmit _ _ => submit n
  end.
Definition network submit : env PayoutCall :=
  Env (answers submit) (fun _ => NoFault) (fun n => Stamp (Z.of_nat n) (Z_to_string (Z.of_nat n))).
Definition ran submit (ops : list PayoutOp) : payout_world :=
  snd (interleave (network submit) (List.repeat 0%nat 12 ++ List.repeat 1%nat 12)
    (List.map (@payout_op sample_sdk (@RpcFirstLegVerifier sample_sdk) "GOP" (Policy ["GANCHOR"] "GISSUER" (5000 * UNIT))) ops, World empty_db 0 [])).

(** The answer to the first submission is lost; the request is made again and submitted again. *)
Example lost_answer_is_paid_again :
  attempts (leg "a") (w_log (ran (fun n => if (n <? 8)%nat then Err (Error "socket hang up") else Ok ("hash", "PENDING"))
    [forward (leg "a"); forward (leg "a")])) = [Unanswered; Answered "hash" "PENDING"].
Proof. vm_compute. reflexivity. Qed.

(** The check of the first leg reads its hash in either case, the claim as it is written. *)
Example upper_case_is_another_leg :
  let w := ran (fun _ => Ok ("hash", "PENDING")) [forward (leg "a"); forward (leg "A")] in
  attempts (leg "a") (w_log w) = [Answered "hash" "PENDING"] /\ attempts (leg "A") (w_log w) = [Answered "hash" "PENDING"].
Proof. vm_compute. auto. Qed.

(** A network that is too busy to take the transaction says so with its own status; the payout counts
    as made, with its rows [sent], and is not made again. *)
Example try_again_later_counts_as_paid :
  let w := ran (fun _ => Ok ("hash", "TRY_AGAIN_LATER")) [forward (leg "a"); forward (leg "a")] in
  attempts (leg "a") (w_log w) = [Answered "hash" "TRY_AGAIN_LATER"] /\
  List.map pf_status (w_db w payoutForward) = ["sent"].
Proof. vm_compute. auto. Qed.
End OverlapSample.
