(* ===== verification/Rpc.v ===== *)
(** [packages/network-config/src/retry.ts] and [packages/operator-signing/src/submit.ts]: retrying
    transient RPC failures, and sending a signed transaction until the network has a verdict. *)
From S2P Require Import Prelude Prog Schema.

(** ** isTransientRpcError *)
Fixpoint contains (sub s : string) : bool :=
  starts_with sub s || match s with EmptyString => false | String _ s' => contains sub s' end.

Definition is_word (c : ascii) : bool :=
  is_digit c || ((97 <=? char_code c) && (char_code c <=? 122)) ||
  ((65 <=? char_code c) && (char_code c <=? 90)) || (char_code c =? 95).

(** [\bsub\b] for a [sub] of word characters: no word character on either side; [before] is the
    character just before [s]. *)
Fixpoint contains_word (before : bool) (sub s : string) : bool :=
  (negb before && starts_with sub s &&
   match string_drop (slen sub) s with String c _ => negb (is_word c) | EmptyString => true end) ||
  match s with EmptyString => false | String c s' => contains_word (is_word c) sub s' end.

(** The alternatives of [TRANSIENT], in lower case as the match ignores it ([timed? ?out] is the
    four texts it stands for). *)
Definition TRANSIENT_texts : list string :=
  ["fetch failed"; "econnreset"; "econnrefused"; "etimedout"; "eai_again"; "enotfound";
   "socket hang up"; "network error"; "timeout"; "time out"; "timedout"; "timed out";
   "account not found"; "try_again_later"; "network is busy"].
Definition TRANSIENT_codes : list string := ["429"; "500"; "502"; "503"; "504"].

Definition isTransientRpcError (err : exn) : bool :=
  let message := toLowerCase (exn_message err +:+ " ") in
  existsb (fun t => contains t message) TRANSIENT_texts ||
  existsb (fun c => contains_word false c message) TRANSIENT_codes.

(** ** withRpcRetry.  [attempts] counts the attempts left; the pause between two of them changes
    nothing the program observes. *)
Section Retry.
Context {D : Type} {Ext : Type -> Type} {Out : Type}.
Notation prog := (prog D Ext Out).

Fixpoint withRpcRetry_from {A} (attempts : nat) (fn : prog A) : prog A :=
  match attempts with
  | O => Throw (Error "undefined")
  | S more =>
      catch fn (fun err =>
        if negb (isTransientRpcError err) || (more =? 0)%nat then Throw err
        else withRpcRetry_from more fn)
  end.

Definition RPC_ATTEMPTS : nat := 4.
Definition withRpcRetry {A} (fn : prog A) : prog A := withRpcRetry_from RPC_ATTEMPTS fn.
End Retry.

(** ** submitSignedTx *)
Record SendResponse := SendR { snd_status : string; snd_hash : string }.
Record SubmitResult := Submitted { su_hash : string; su_status : string }.

(** The two RPC methods a submission needs, and the SDK's envelope decoder. *)
Class RpcServer (Ext : Type -> Type) := {
  sendTransaction : string -> Ext SendResponse;
  getTransaction : string -> Ext string;
  parseEnvelope : string -> outcome unit }.

Section Submit.
Context {D : Type} {Ext : Type -> Type} {Out : Type} `{RpcServer Ext}.
Notation prog := (prog D Ext Out).

Fixpoint poll_transaction (attempts : nat) (hash : string) : prog SubmitResult :=
  match attempts with
  | O => Throw (Error ("submitSignedTx: transaction " +:+ hash +:+ " did not finalize after 30 attempts"))
  | S more =>
      got <- withRpcRetry (call (getTransaction hash)) ;;
      if eqs got "SUCCESS" then Ret (Submitted hash got)
      else if eqs got "FAILED"
      then Throw (Error ("submitSignedTx: transaction " +:+ hash +:+ " failed on-chain"))
      else poll_transaction more hash
  end.

Definition maxAttempts : nat := 30.

Definition submitSignedTx (signedXdr : string) : prog SubmitResult :=
  lift (parseEnvelope signedXdr) ;;;
  sendResult <- withRpcRetry (call (sendTransaction signedXdr)) ;;
  if eqs (snd_status sendResult) "ERROR"
  then Throw (Error "submitSignedTx: send failed")
  else poll_transaction maxAttempts (snd_hash sendResult).
End Submit.

(** ** Proofs *)
Section RetrySpec.
Context {D : Type} {Ext : Type -> Type} {Out : Type}.
Notation prog := (prog D Ext Out).
Notation world := (world D Ext Out).
Notation env := (env Ext).

(** The answers to [n] successive calls made from tick [t]: all transient failures. *)
Definition transient_failures {X} (e : env) (c : Ext X) (t n : nat) : Prop :=
  forall i, (i < n)%nat -> exists x, answer e X (t + i) c = Err x /\ isTransientRpcError x = true.

(** The log of [n] successive calls. *)
Fixpoint calls {X} (e : env) (c : Ext X) (t n : nat) : list (entry Ext Out) :=
  match n with O => [] | S n' => ECall c (answer e X t c) :: calls e c (S t) n' end.

Lemma retry_from_spec {X} (e : env) (c : Ext X) attempts (w : world) :
  (0 < attempts)%nat ->
  let '(r, w') := run e (withRpcRetry_from attempts (call c)) w in
  exists n, (0 < n <= attempts)%nat /\ transient_failures e c (w_tick w) (n - 1) /\
    r = answer e X (w_tick w + (n - 1)) c /\
    w' = World (w_db w) (w_tick w + n) (w_log w ++ calls e c (w_tick w) n) /\
    match r with Ok _ => True | Err x => isTransientRpcError x = true -> n = attempts end.
Proof.
  revert w. induction attempts as [|more IH]; intros w; [lia|]. intros _.
  cbn [withRpcRetry_from]. rewrite run_catch, run_call. set (a := answer e X (w_tick w) c).
  assert (Hone : forall r, r = a -> (forall x, r = Err x -> isTransientRpcError x = true -> more = 0%nat) ->
    exists n, (0 < n <= S more)%nat /\ transient_failures e c (w_tick w) (n - 1) /\
      r = answer e X (w_tick w + (n - 1)) c /\
      note w (ECall c a) = World (w_db w) (w_tick w + n) (w_log w ++ calls e c (w_tick w) n) /\
      match r with Ok _ => True | Err x => isTransientRpcError x = true -> n = S more end).
  { intros r -> Hr. exists 1%nat. split; [lia|]. split; [intros i Hi; lia|].
    rewrite !Nat.add_0_r. split; [done|]. rewrite Nat.add_1_r. split; [done|].
    destruct a; [done|]. intros Ht. by rewrite (Hr e0). }
  destruct a as [v|x] eqn:Ea; [by apply Hone|].
  destruct (isTransientRpcError x) eqn:Et; cbn [negb orb]; [|apply Hone; congruence].
  destruct more as [|more]; cbn [Nat.eqb]; [apply Hone; auto|].
  specialize (IH (note w (ECall c (Err x)))). destruct (run e _ _) as [r w'].
  destruct IH as (n & Hn & Hf & Hr & Hw & Hx); [lia|]. subst a. simpl in *.
  exists (S n). split; [lia|]. replace (S n - 1)%nat with n by lia. split.
  - intros i Hi. destruct i as [|i]; [rewrite Nat.add_0_r; eauto|].
    replace (w_tick w + S i)%nat with (S (w_tick w) + i)%nat by lia. apply Hf. lia.
  - split; [rewrite Hr; f_equal; lia|]. split; [|destruct r; [done|]; intros Ht; f_equal; auto].
    rewrite Hw. cbn [calls]. rewrite Ea, <- app_assoc. f_equal. lia.
Qed.
End RetrySpec.

(** Submissions under a relation [R] between worlds that their calls respect: what they answer is in
    the log. *)
Section SubmitSpec.
Context {D : Type} {Ext : Type -> Type} {Out : Type} `{RpcServer Ext} (Adm : @admissible Ext).
Notation prog := (prog D Ext Out).
Notation world := (world D Ext Out).
Context (R : world -> world -> Prop) (R_refl : forall w, R w w) (R_trans : forall w1 w2 w3, R w1 w2 -> R w2 w3 -> R w1 w3).
Context (R_poll : forall w hash r, R w (note w (ECall (getTransaction hash) r))).

Lemma wp_retry {X} (c : Ext X) n w (Q : outcome X -> world -> Prop) :
  (forall w' r, R w w' -> R w' (note w' (ECall c r))) ->
  (forall r w', R w w' -> (forall v, r = Ok v -> In (ECall c (Ok v)) (w_log w')) -> Q r w') ->
  wp Adm (withRpcRetry_from n (call c)) Q w.
Proof.
  revert w. induction n as [|n IH]; intros w Hc HQ; cbn [withRpcRetry_from].
  { by apply HQ. }
  apply wp_catch, wp_call_op. intros r Hr. assert (Hq : R w (note w (ECall c r))) by (by apply Hc).
  destruct r as [v|x].
  - apply HQ; [done|]. intros v' [= <-]. simpl. apply in_app_iff. right. by left.
  - destruct (negb _ || _); [by apply HQ|]. apply IH; [eauto|]. intros r w' Hw' Hr'. apply HQ; eauto.
Qed.

Lemma wp_poll_transaction n hash w (Q : outcome SubmitResult -> world -> Prop) :
  (forall r w', R w w' ->
     (forall s, r = Ok s -> su_hash s = hash /\ In (ECall (getTransaction hash) (Ok "SUCCESS")) (w_log w')) -> Q r w') ->
  wp Adm (poll_transaction n hash) Q w.
Proof.
  revert w. induction n as [|n IH]; intros w HQ; cbn [poll_transaction].
  { by apply HQ. }
  apply wp_bind, wp_retry; [auto|]. intros [got|x] w1 H1 Hin; [|by apply HQ].
  specialize (Hin _ eq_refl). destruct (eqs got "SUCCESS") eqn:E.
  - apply bool_decide_eq_true in E as ->. apply HQ; [done|]. intros s [= <-]. by split.
  - destruct (eqs got "FAILED"); [by apply HQ|]. apply IH. intros r w' Hw' Hr. apply HQ; eauto.
Qed.

Lemma wp_submitSignedTx signed w (Q : outcome SubmitResult -> world -> Prop) :
  (forall w' r, R w w' -> R w' (note w' (ECall (sendTransaction signed) r))) ->
  (forall w w' e, R w w' -> In e (w_log w) -> In e (w_log w')) ->
  (forall r w', R w w' ->
     (forall s, r = Ok s -> exists st,
        In (ECall (sendTransaction signed) (Ok (SendR st (su_hash s)))) (w_log w') /\
        In (ECall (getTransaction (su_hash s)) (Ok "SUCCESS")) (w_log w')) ->
     Q r w') ->
  wp Adm (submitSignedTx signed) Q w.
Proof.
  intros Hsend Hlog HQ. unfold submitSignedTx. apply wp_bind, wp_lift.
  destruct (parseEnvelope signed); [|by apply HQ].
  apply wp_bind, wp_retry; [done|]. intros [[st hash]|x] w1 H1 Hin; [|by apply HQ].
  specialize (Hin _ eq_refl). cbn [snd_status snd_hash]. destruct (eqs st "ERROR"); [by apply HQ|].
  apply wp_poll_transaction. intros r w2 H2 Hr. apply HQ; [eauto|].
  intros s Es. destruct (Hr s Es) as [-> Hs]. exists st. eauto.
Qed.
End SubmitSpec.

(** Retrying an RPC call makes between one and four calls, and what it returns is the answer of
    the last one: every earlier answer was a transient failure, a result or a permanent failure is
    returned at once, and a transient failure is returned only after the fourth call. *)
Theorem withRpcRetry_last_answer {D Ext Out X} (e : env Ext) (c : Ext X) (w : world D Ext Out) :
  let '(r, w') := run e (withRpcRetry (call c)) w in
  exists n, (0 < n <= 4)%nat /\ transient_failures e c (w_tick w) (n - 1) /\
    r = answer e X (w_tick w + (n - 1)) c /\
    w' = World (w_db w) (w_tick w + n) (w_log w ++ calls e c (w_tick w) n) /\
    match r with Ok _ => True | Err x => isTransientRpcError x = true -> n = 4%nat end.
Proof. apply (retry_from_spec e c RPC_ATTEMPTS). unfold RPC_ATTEMPTS. lia. Qed.

Example transient_503 : isTransientRpcError (Error "Request failed with status code 503") = true /\
  isTransientRpcError (Error "code 5031") = false /\ isTransientRpcError (Error "Timed out") = true.
Proof. vm_compute. auto. Qed.
