(* ===== verification/OperatorSigning.v ===== *)
(** [packages/operator-signing/src]: the operators' keys.  [vaultClient.ts] and [vaultTransitSigner.ts]
    sign with a key that stays in Vault, [kmsEnvelopeSigner.ts] with one that AWS KMS unwraps,
    [localDevSigner.ts] with one from the environment; [factory.ts] chooses by a role's settings. *)
From S2P Require Import Prelude Prog Memory Settings.

(** ** Outside *)
(** Vault's answers, read as the interfaces of the source declare them. *)
Inductive VaultBody :=
| AuthBody (client_token : string) (lease_duration : Z) (renewable : bool)
| KeyBody (latest_version : Z) (keys : list (string * string))
| SignBody (signature : string)
| OtherBody.
Record VaultResponse := VResponse { vr_status : Z; vr_text : outcome string; vr_json : outcome VaultBody }.
Definition vr_ok (res : VaultResponse) : bool := (200 <=? vr_status res) && (vr_status res <=? 299).

(** A request; [rq_json] is the value whose JSON text is its body. *)
Record VaultRequest := VRequest { rq_target : string; rq_verb : string; rq_head : list (string * string); rq_json : option jsval }.

Inductive SigningCall : Type -> Type :=
| VaultHttp (req : VaultRequest) : SigningCall VaultResponse
| KmsDecrypt (region keyId ciphertext : string) : SigningCall (option string).

(** Node's base64, and the SDK's keys, signatures and envelopes.  Bytes are strings. *)
Class SigningLib := {
  to_base64 : string -> string;
  from_base64 : string -> string;
  utf8_text : string -> string;
  encodeEd25519PublicKey : string -> outcome string;
  ed25519_verify : string -> string -> string -> outcome bool;
  keypair_fromSecret : string -> outcome string;
  keypair_publicKey : string -> string;
  keypair_sign : string -> string -> string;
  envelope_hash : string -> string -> outcome string;
  envelope_signed : string -> string -> string -> string -> outcome string;
  envelope_sign : string -> string -> string -> outcome string }.

(** ** The signer's memory *)
Record VaultMemory := Memory {
  vm_token : option string; vm_expiresAtMs : option Z; vm_renewAtMs : option Z; vm_renewable : bool; vm_publicKey : option string }.

Notation signing_prog := (prog unit SigningCall unit).
Notation signing_world := (world unit SigningCall unit).
Notation vault := (mem SigningCall VaultMemory).

Definition truthy (s : option string) : bool := match s with Some s => negb (eqs s "") | None => false end.
Definition before (t : Z) (deadline : option Z) : bool := match deadline with Some d => t <? d | None => true end.

(** ** vaultClient.ts *)
Definition MAX_ATTEMPTS : nat := 3.

Record VaultAuthOptions := VOptions {
  vo_vaultAddr : string; vo_token : option string; vo_roleId : option string; vo_secretId : option string; vo_namespace : option string }.

(** [new VaultAuth(options)]: what it remembers to begin with. *)
Definition newVaultAuth (options : VaultAuthOptions) : outcome VaultMemory :=
  if negb (truthy (vo_token options)) && negb (truthy (vo_roleId options) && truthy (vo_secretId options))
  then Err (Error "operator-signing: Vault needs either a token or an AppRole role id + secret id")
  else Ok (Memory (vo_token options) None None false None).

Section Vault.
Context `{SigningLib} (options : VaultAuthOptions).

Definition vaultAddr : string := without_slashes (vo_vaultAddr options).
Definition canRefresh : bool := truthy (vo_roleId options) && truthy (vo_secretId options).

Definition headers (token : option string) : list (string * string) :=
  [("content-type", "application/json")] ++
  (if truthy token then [("X-Vault-Token", default "" token)] else []) ++
  (if truthy (vo_namespace options) then [("X-Vault-Namespace", default "" (vo_namespace options))] else []).

Definition undefined_read : exn := Exn "TypeError" "Cannot read properties of undefined".

(** Two thirds of the lease, in whole milliseconds: the clock is whole. *)
Definition adopt (res : VaultBody) : vault unit :=
  match res with
  | AuthBody client_token lease_duration renewable =>
      let leaseMs := lease_duration * 1000 in
      _ <~ m_write (fun m => Memory (Some client_token) (vm_expiresAtMs m) (vm_renewAtMs m) renewable (vm_publicKey m)) ;;
      if 0 <? leaseMs
      then
        expires <~ m_now ;;
        renew <~ m_now ;;
        m_write (fun m => Memory (vm_token m) (Some (expires + leaseMs)) (Some (renew + (leaseMs * 2 + 2) / 3)) (vm_renewable m) (vm_publicKey m))
      else m_write (fun m => Memory (vm_token m) None None (vm_renewable m) (vm_publicKey m))
  | _ => m_throw undefined_read
  end.

(** [VaultAuth.call]; [None] is [undefined]. *)
Definition auth_call (path : string) (token : option string) (body : option jsval) : vault (option VaultBody) :=
  res <~ m_call (VaultHttp (VRequest (vaultAddr +:+ path) "POST" (headers token) body)) ;;
  if vr_ok res then json <~ m_lift (vr_json res) ;; m_ret (Some json)
  else if ends_with "/login" path
  then
    text <~ m_lift (vr_text res) ;;
    m_throw (Error ("operator-signing: Vault AppRole login failed: " +:+ Z_to_string (vr_status res) +:+ " " +:+ text))
  else m_ret None.

Definition RENEW : string := "/v1/auth/token/renew-self".
Definition LOGIN : string := "/v1/auth/approle/login".
Definition credentials : jsval :=
  JObj [("role_id", JStr (default "" (vo_roleId options))); ("secret_id", JStr (default "" (vo_secretId options)))].

Definition log_in : vault unit :=
  login <~ auth_call LOGIN None (Some credentials) ;;
  match login with
  | None => m_throw (Error "operator-signing: Vault AppRole login failed")
  | Some body => adopt body
  end.

Definition doRefresh : vault unit :=
  m <~ m_read ;;
  due <~ (if truthy (vm_token m) && vm_renewable m then now <~ m_now ;; m_ret (before now (vm_expiresAtMs m)) else m_ret false) ;;
  if due : bool
  then
    renewed <~ m_try (auth_call RENEW (vm_token m) None) ;;
    match renewed with
    | Ok (Some body) => adopt body
    | _ => log_in
    end
  else log_in.

Definition refresh : vault unit :=
  if negb canRefresh then m_throw (Error "operator-signing: the Vault token was rejected and cannot be refreshed (static VAULT_TOKEN)")
  else doRefresh.

Definition authHeaders : vault (list (string * string)) :=
  m <~ m_read ;;
  stale <~ (if negb canRefresh then m_ret false
            else if negb (truthy (vm_token m)) then m_ret true
            else now <~ m_now ;; m_ret (negb (before now (vm_renewAtMs m)))) ;;
  _ <~ (if stale : bool then refresh else m_ret tt) ;;
  m <~ m_read ;; m_ret (headers (vm_token m)).

(** One request of [vaultFetch]. *)
Definition fetch_once (path verb : string) (body : option jsval) : vault VaultResponse :=
  hs <~ authHeaders ;; m_call (VaultHttp (VRequest (vaultAddr +:+ path) verb hs body)).

Definition gave_up (path : string) (lastError : exn) : exn :=
  Error ("operator-signing: Vault request " +:+ path +:+ " failed after 3 attempts: " +:+ exn_message lastError).

Definition retryable (res : VaultResponse) : bool := (vr_status res =? 429) || (500 <=? vr_status res).
Definition rejected (res : VaultResponse) : bool := (vr_status res =? 403) || (vr_status res =? 401).

(** The loop, [left] attempts left after this one.  The pauses between attempts change nothing the
    program observes.  [refresh_once] is the [if] on a rejected token: [Some] of what to do about it while
    [refreshed] is unset. *)
Section Loop.
Context (path verb : string) (body : option jsval).

Definition one_attempt (refresh_once : option (vault VaultResponse)) (again : option (vault VaultResponse)) : vault VaultResponse :=
  r <~ m_try (fetch_once path verb body) ;;
  match r with
  | Err err => match again with None => m_throw (gave_up path err) | Some retry => retry end
  | Ok res =>
      match refresh_once, rejected res, again with
      | Some renew, true, _ => renew
      | _, _, Some retry => if retryable res then retry else m_ret res
      | _, _, None => m_ret res
      end
  end.

(** With [refreshed] set. *)
Fixpoint refreshed_loop (left : nat) : vault VaultResponse :=
  one_attempt None (match left with O => None | S left' => Some (refreshed_loop left') end).

(** The refresh is not a failed attempt, unless it throws. *)
Definition refresh_then (left : nat) : vault VaultResponse :=
  renewed <~ m_try refresh ;;
  match renewed, left with
  | Ok _, _ => refreshed_loop left
  | Err err, O => m_throw (gave_up path err)
  | Err _, S left' => refreshed_loop left'
  end.

Fixpoint fetch_loop (left : nat) : vault VaultResponse :=
  one_attempt (if canRefresh then Some (refresh_then left) else None)
    (match left with O => None | S left' => Some (fetch_loop left') end).

Definition vaultFetch : vault VaultResponse := fetch_loop (MAX_ATTEMPTS - 1).
End Loop.

(** ** vaultTransitSigner.ts *)
Context (keyName networkPassphrase : string).

(** [/^vault:v\d+:(.+)$/], where [.] is no line break. *)
Definition stripVaultSignaturePrefix (signature : string) : outcome string :=
  let bad := Err (Error ("operator-signing: unexpected Vault Transit signature format: " +:+ quoted signature)) in
  if starts_with "vault:v" signature
  then
    let '(version, rest) := span_digits (string_drop 7 signature) in
    if negb (eqs version "") && starts_with ":" rest && (1 <? slen rest)%nat && string_forall (fun c => negb (bool_decide (c = "010"%char) || bool_decide (c = "013"%char))) rest
    then Ok (string_drop 1 rest) else bad
  else bad.

(** [throw new Error(`... ${res.status} ${await res.text()}`)]. *)
Definition refused_by_vault {A} (what : string) (res : VaultResponse) : vault A :=
  text <~ m_lift (vr_text res) ;;
  m_throw (Error ("operator-signing: Vault Transit " +:+ what +:+ " failed for " +:+ quoted keyName +:+ ": " +:+ Z_to_string (vr_status res) +:+ " " +:+ text)).

Definition resolvePublicKey : vault string :=
  m <~ m_read ;;
  if truthy (vm_publicKey m) then m_ret (default "" (vm_publicKey m))
  else
    res <~ vaultFetch ("/v1/transit/keys/" +:+ keyName) "GET" None ;;
    if negb (vr_ok res) then refused_by_vault "key lookup" res
    else
      json <~ m_lift (vr_json res) ;;
      match json with
      | KeyBody latest_version keys =>
          let latest := assoc (Z_to_string latest_version) keys in
          if negb (truthy latest)
          then m_throw (Error ("operator-signing: Vault Transit key " +:+ quoted keyName +:+ " has no public key at its latest version (" +:+ Z_to_string latest_version +:+ ")"))
          else
            key <~ m_lift (encodeEd25519PublicKey (from_base64 (default "" latest))) ;;
            _ <~ m_write (fun m => Memory (vm_token m) (vm_expiresAtMs m) (vm_renewAtMs m) (vm_renewable m) (Some key)) ;;
            m_ret key
      | _ => m_throw undefined_read
      end.

Definition transitSign (input : string) : vault string :=
  res <~ vaultFetch ("/v1/transit/sign/" +:+ keyName) "POST" (Some (JObj [("input", JStr (to_base64 input))])) ;;
  if negb (vr_ok res) then refused_by_vault "sign" res
  else
    json <~ m_lift (vr_json res) ;;
    match json with SignBody signature => m_lift (stripVaultSignaturePrefix signature) | _ => m_throw undefined_read end.

(** [publicKey()] and [verified()]. *)
Definition publicKey (m : VaultMemory) : outcome string :=
  if truthy (vm_publicKey m) then Ok (default "" (vm_publicKey m))
  else Err (Error ("operator-signing: VaultTransitSigner.publicKey() called before resolvePublicKey() — " +:+
      "createOperatorSigner() resolves it for you, so this only happens if VaultTransitSigner is constructed directly.")).

Definition verified (message signatureBase64 : string) : vault string :=
  m <~ m_read ;;
  key <~ m_lift (publicKey m) ;;
  let signature := from_base64 signatureBase64 in
  ok <~ m_lift (ed25519_verify key message signature) ;;
  if ok : bool then m_ret signature
  else m_throw (Error ("operator-signing: Vault Transit key " +:+ quoted keyName +:+ " returned a signature that does not verify against " +:+ key)).

Definition vault_sign (unsignedXdr : string) : vault string :=
  key <~ resolvePublicKey ;;
  hash <~ m_lift (envelope_hash unsignedXdr networkPassphrase) ;;
  given <~ transitSign hash ;;
  signature <~ verified hash given ;;
  m_lift (envelope_signed unsignedXdr networkPassphrase key (to_base64 signature)).

Definition vault_signMessage (message : string) : vault string :=
  _ <~ resolvePublicKey ;; given <~ transitSign message ;; verified message given.
End Vault.

(** ** localDevSigner.ts, kmsEnvelopeSigner.ts *)
(** The three [KmsSigner]s: one that holds the key pair, however it got it, and one that asks Vault. *)
Inductive KmsSigner :=
| RawSigner (keypair networkPassphrase : string)
| TransitSigner (options : VaultAuthOptions) (keyName networkPassphrase : string).

Section Signers.
Context `{SigningLib}.

Definition createRawSecretSigner (secret networkPassphrase : string) : outcome KmsSigner :=
  keypair <-? keypair_fromSecret secret ;; Ok (RawSigner keypair networkPassphrase).

(** Whether [NODE_ENV] says production. *)
Definition in_production (env : ProcessEnv) : bool := eqs (default "" (env "NODE_ENV")) "production".

Definition LocalDevSecretKeySigner (secretEnvVar networkPassphrase : string) (env : ProcessEnv) : outcome KmsSigner :=
  if in_production env && negb (eqs (default "" (env "ALLOW_LOCAL_DEV_SIGNER")) "true")
  then Err (Error ("operator-signing: refusing to construct LocalDevSecretKeySigner under NODE_ENV=production " +:+
    "(it reads a raw operator secret key from " +:+ quoted secretEnvVar +:+ "). Configure a real signer mode " +:+
    "(vault/kms-envelope, see factory.ts) instead, or set ALLOW_LOCAL_DEV_SIGNER=true to override."))
  else match setting env secretEnvVar with
       | None => Err (Error ("operator-signing: missing operator secret key env var " +:+ quoted secretEnvVar))
       | Some secret => createRawSecretSigner secret networkPassphrase
       end.

(** [KmsEnvelopeSigner.create]. *)
Definition KmsEnvelopeSigner_create (awsRegion kmsKeyId wrappedSecretBase64 networkPassphrase : string) : signing_prog KmsSigner :=
  plaintext <- call (KmsDecrypt awsRegion kmsKeyId (from_base64 wrappedSecretBase64)) ;;
  match plaintext with
  | None => Throw (Error ("operator-signing: KMS Decrypt for key " +:+ quoted kmsKeyId +:+
      " returned no plaintext — check the wrapped secret and key permissions"))
  | Some plaintext => lift (createRawSecretSigner (trim (utf8_text plaintext)) networkPassphrase)
  end.

(** ** [KmsSigner]'s methods *)
Definition signer_publicKey (signer : KmsSigner) (m : VaultMemory) : outcome string :=
  match signer with RawSigner keypair _ => Ok (keypair_publicKey keypair) | TransitSigner _ _ _ => publicKey m end.

Definition sign (signer : KmsSigner) (unsignedXdr : string) : vault string :=
  match signer with
  | RawSigner keypair networkPassphrase => m_lift (envelope_sign unsignedXdr networkPassphrase keypair)
  | TransitSigner options keyName networkPassphrase => vault_sign options keyName networkPassphrase unsignedXdr
  end.

Definition signMessage (signer : KmsSigner) (message : string) : vault string :=
  match signer with
  | RawSigner keypair _ => m_ret (keypair_sign keypair message)
  | TransitSigner options keyName _ => vault_signMessage options keyName message
  end.

(** ** factory.ts *)
Inductive OperatorRole := keeper | price_publisher | payout_hop.
Definition ROLE_ENV_PREFIX (role : OperatorRole) : string :=
  match role with keeper => "KEEPER" | price_publisher => "PRICE_PUBLISHER" | payout_hop => "PAYOUT_HOP" end.
Definition LOCAL_SECRET_ENV_VAR (role : OperatorRole) : string :=
  match role with
  | keeper => "KEEPER_SECRET_KEY" | price_publisher => "PRICE_PUBLISHER_SECRET_KEY" | payout_hop => "PAYOUT_HOP_SECRET_KEY"
  end.

Definition requireEnv (name : string) (env : ProcessEnv) : outcome string :=
  match setting env name with
  | Some value => Ok value
  | None => Err (Error ("operator-signing: missing required env var " +:+ quoted name +:+ " for the selected signer mode"))
  end.

Definition no_memory : VaultMemory := Memory None None None false None.

(** The signer, and what it remembers when it is handed out. *)
Definition createOperatorSigner (role : OperatorRole) (networkPassphrase : string) (env : ProcessEnv)
    : signing_prog (KmsSigner * VaultMemory) :=
  let prefix := ROLE_ENV_PREFIX role in
  let mode := default "local" (env (prefix +:+ "_SIGNER_MODE")) in
  if eqs mode "local" then
    if in_production env
    then Throw (Error ("operator-signing: " +:+ prefix +:+ "_SIGNER_MODE=local keeps a raw secret in an environment variable " +:+
      "and is refused when NODE_ENV=production; use " +:+ quoted "vault" +:+ " or " +:+ quoted "kms-envelope"))
    else signer <- lift (LocalDevSecretKeySigner (LOCAL_SECRET_ENV_VAR role) networkPassphrase env) ;; Ret (signer, no_memory)
  else if eqs mode "vault" then
    vaultAddr <- lift (requireEnv "VAULT_ADDR" env) ;;
    keyName <- lift (requireEnv (prefix +:+ "_VAULT_KEY_NAME") env) ;;
    options <- lift
      match setting env "VAULT_ROLE_ID", setting env "VAULT_SECRET_ID" with
      | Some roleId, Some secretId => Ok (VOptions vaultAddr None (Some roleId) (Some secretId) (setting env "VAULT_NAMESPACE"))
      | _, _ => vaultToken <-? requireEnv "VAULT_TOKEN" env ;; Ok (VOptions vaultAddr (Some vaultToken) None None (setting env "VAULT_NAMESPACE"))
      end ;;
    memory <- lift (newVaultAuth options) ;;
    resolved <- resolvePublicKey options keyName memory ;;
    _ <- lift (fst resolved) ;;
    Ret (TransitSigner options keyName networkPassphrase, snd resolved)
  else if eqs mode "kms-envelope" then
    awsRegion <- lift (requireEnv "AWS_REGION" env) ;;
    kmsKeyId <- lift (requireEnv (prefix +:+ "_KMS_KEY_ID") env) ;;
    wrappedSecretBase64 <- lift (requireEnv (prefix +:+ "_WRAPPED_SECRET") env) ;;
    signer <- KmsEnvelopeSigner_create awsRegion kmsKeyId wrappedSecretBase64 networkPassphrase ;;
    Ret (signer, no_memory)
  else Throw (Error ("operator-signing: unknown " +:+ prefix +:+ "_SIGNER_MODE " +:+ quoted mode +:+ " (expected " +:+
    quoted "local" +:+ " | " +:+ quoted "vault" +:+ " | " +:+ quoted "kms-envelope" +:+ ")")).
End Signers.
