(* ===== verification/OperatorSafety.v ===== *)
(** What the operators' signers promise: Vault is asked for the signature of one hash and nothing else,
    a signature that comes back is one the reported key verifies, every call is tried a bounded number of
    times, and a production process signs with a key from Vault or KMS. *)
From S2P Require Import Prelude Prog Shape Memory Settings OperatorSigning.

Section Transit.
Context `{SigningLib} (options : VaultAuthOptions).
Implicit Types (w : signing_world) (m : VaultMemory).

(** ** The key survives every request. *)
Lemma keeps_key_adopt res : keeps vm_publicKey (adopt res).
Proof. unfold adopt. mem_steps. Qed.
Lemma keeps_key_auth_call path token body : keeps vm_publicKey (auth_call options path token body).
Proof. unfold auth_call. mem_steps. Qed.
Hint Resolve keeps_key_adopt keeps_key_auth_call : memory.
Lemma keeps_key_refresh : keeps vm_publicKey (refresh options).
Proof. unfold refresh, doRefresh, log_in. mem_steps. Qed.
Hint Resolve keeps_key_refresh : memory.
Lemma keeps_key_fetch_once path verb body : keeps vm_publicKey (fetch_once options path verb body).
Proof. unfold fetch_once, authHeaders. mem_steps. Qed.
Hint Resolve keeps_key_fetch_once : memory.
Lemma keeps_key_vaultFetch path verb body : keeps vm_publicKey (vaultFetch options path verb body).
Proof.
  assert (Hr : forall left, keeps vm_publicKey (refreshed_loop options path verb body left)).
  { induction left; cbn [refreshed_loop]; unfold one_attempt; mem_steps. }
  unfold vaultFetch. induction (MAX_ATTEMPTS - 1)%nat; cbn [fetch_loop]; unfold one_attempt, refresh_then; mem_steps.
Qed.

(** ** Few requests, other than those for a token *)
Definition token_paths : list string := [RENEW; LOGIN].
Definition transit_request (X : Type) (c : SigningCall X) : bool :=
  match c with VaultHttp req => negb (existsb (fun path => eqs (rq_target req) (vaultAddr options +:+ path)) token_paths) | KmsDecrypt _ _ _ => false end.

Notation asks_little := (mspends transit_request).
Lemma auth_call_asks_nothing path token body n : existsb (eqs path) token_paths = true -> asks_little n (auth_call options path token body).
Proof.
  intros Hp. apply (mspends_mono _ _ 0); [lia|]. unfold auth_call. apply mspends_free; [|mem_steps].
  set (c := VaultHttp _). assert (Hc : transit_request _ c = false).
  { apply existsb_exists in Hp as (p & Hin & Ep%bool_decide_eq_true). subst p. cbn [transit_request]. apply negb_false_iff, existsb_exists.
    exists path. split; [done|]. by apply bool_decide_eq_true. }
  pose proof (mspends_call (M := VaultMemory) transit_request c) as Hs. by rewrite Hc in Hs.
Qed.
Hint Extern 1 (mspends _ _ (auth_call _ _ _ _)) => apply auth_call_asks_nothing; reflexivity : memory.

Lemma refresh_asks_nothing n : asks_little n (refresh options).
Proof. unfold refresh, doRefresh, log_in, adopt. mem_steps. Qed.
Hint Resolve refresh_asks_nothing : memory.
Lemma fetch_once_asks_once path verb body : asks_little 1 (fetch_once options path verb body).
Proof.
  unfold fetch_once, authHeaders. apply mspends_free; [mem_steps|]. intros hs.
  eapply mspends_mono; [|apply mspends_call]. by destruct (transit_request _ _); lia.
Qed.
Hint Resolve fetch_once_asks_once : memory.

Lemma one_attempt_asks path verb body renew again n :
  match renew with Some p => asks_little n p | None => True end -> match again with Some p => asks_little n p | None => True end ->
  asks_little (S n) (one_attempt options path verb body renew again).
Proof. intros Hn Ha. unfold one_attempt. apply mspends_one; [mem_steps|]. mem_steps. Qed.

Lemma vaultFetch_asks_four_times path verb body : asks_little 4 (vaultFetch options path verb body).
Proof.
  assert (Hr : forall left, asks_little (S left) (refreshed_loop options path verb body left)).
  { induction left; by apply one_attempt_asks. }
  assert (Hn : forall left, asks_little (S left) (refresh_then options path verb body left)).
  { intros left. unfold refresh_then. apply mspends_free; [mem_steps|]. intros [u|x]; [done|].
    destruct left as [|left]; [done|]. apply (mspends_mono _ _ (S left)); [lia|done]. }
  assert (Hf : forall left, asks_little (S (S left)) (fetch_loop options path verb body left)).
  { induction left; (apply one_attempt_asks; [destruct (canRefresh options); auto|done]). }
  apply (Hf 2%nat).
Qed.

(** ** What Vault is asked *)
Section Asked.
Context (keyName : string) (input : string -> Prop).

Definition asked (path : string) (req : VaultRequest) : Prop :=
  path = RENEW /\ rq_json req = None \/
  path = LOGIN /\ rq_head req = headers options None /\ rq_json req = Some (credentials options) \/
  path = "/v1/transit/keys/" +:+ keyName /\ rq_verb req = "GET" /\ rq_json req = None \/
  path = "/v1/transit/sign/" +:+ keyName /\ rq_verb req = "POST" /\
    exists i, input i /\ rq_json req = Some (JObj [("input", JStr (to_base64 i))]).

(** Vault and no one else, for a token, for the key, or for a signature of one of the inputs. *)
Definition asks_vault (X : Type) (c : SigningCall X) : Prop :=
  match c with
  | VaultHttp req => exists path, rq_target req = vaultAddr options +:+ path /\ asked path req
  | KmsDecrypt _ _ _ => False
  end.

Lemma auth_call_asked path token body :
  path = RENEW /\ body = None \/ path = LOGIN /\ token = None /\ body = Some (credentials options) ->
  mwithin asks_vault (auth_call options path token body).
Proof.
  intros Hp. unfold auth_call. apply mwithin_bind; [|mem_steps]. apply mwithin_call. exists path. split; [done|].
  unfold asked. cbn. destruct Hp as [[-> ->]|(-> & -> & ->)]; auto.
Qed.
Hint Extern 1 (mwithin _ (auth_call _ _ _ _)) => apply auth_call_asked; auto : memory.

Lemma refresh_asked : mwithin asks_vault (refresh options).
Proof. unfold refresh, doRefresh, log_in, adopt. mem_steps. Qed.
Hint Resolve refresh_asked : memory.

Lemma vaultFetch_asked path verb body :
  (forall hs, asked path (VRequest (vaultAddr options +:+ path) verb hs body)) -> mwithin asks_vault (vaultFetch options path verb body).
Proof.
  intros Hp. assert (Hf : mwithin asks_vault (fetch_once options path verb body)).
  { unfold fetch_once, authHeaders. apply mwithin_bind; [mem_steps|]. intros hs. apply mwithin_call. by exists path. }
  assert (Hr : forall left, mwithin asks_vault (refreshed_loop options path verb body left)).
  { induction left; cbn [refreshed_loop]; unfold one_attempt; mem_steps. }
  unfold vaultFetch. induction (MAX_ATTEMPTS - 1)%nat; cbn [fetch_loop]; unfold one_attempt, refresh_then; mem_steps.
Qed.

Lemma resolvePublicKey_asked : mwithin asks_vault (resolvePublicKey options keyName).
Proof.
  assert (mwithin asks_vault (vaultFetch options ("/v1/transit/keys/" +:+ keyName) "GET" None)).
  { apply vaultFetch_asked. intros hs. right; right; left. done. }
  unfold resolvePublicKey, refused_by_vault. mem_steps.
Qed.

Lemma transitSign_asked i : input i -> mwithin asks_vault (transitSign options keyName i).
Proof.
  intros Hi. assert (mwithin asks_vault (vaultFetch options ("/v1/transit/sign/" +:+ keyName) "POST"
    (Some (JObj [("input", JStr (to_base64 i))])))).
  { apply vaultFetch_asked. intros hs. right; right; right. split; [done|]. split; [done|]. by exists i. }
  unfold transitSign, refused_by_vault. mem_steps.
Qed.
End Asked.

(** ** What comes back *)
Context (keyName networkPassphrase : string).

(** The key resolved is remembered, and a remembered key is the one resolved. *)
Lemma resolvePublicKey_remembers m w :
  mwp (resolvePublicKey options keyName) (fun o m' _ =>
    (forall key, publicKey m = Ok key -> o = Ok key /\ m' = m) /\
    match o with Ok key => vm_publicKey m' = Some key | Err _ => vm_publicKey m' = vm_publicKey m end) m w.
Proof.
  unfold resolvePublicKey. apply mwp_bind, mwp_read. unfold publicKey. destruct (truthy (vm_publicKey m)) eqn:Et.
  { apply (mwp_lift (Ok _)). destruct (vm_publicKey m); [|done]. split; [|done]. by intros key [= ->]. }
  apply mwp_bind. eapply mwp_mono; [|apply keeps_key_vaultFetch]. intros [res|x] m' w' Ek; [|by split].
  destruct (vr_ok res); cbn [negb].
  - apply mwp_bind, mwp_lift. destruct (vr_json res) as [[| | |]|x]; try by split.
    cbv zeta. destruct (negb _); [by split|]. apply mwp_bind, mwp_lift. destruct (encodeEd25519PublicKey _) as [key|x]; [|by split].
    by apply mwp_bind, mwp_write.
  - apply mwp_bind, mwp_lift. by destruct (vr_text res).
Qed.

Lemma keeps_key_transitSign message : keeps vm_publicKey (transitSign options keyName message).
Proof.
  pose proof (keeps_key_vaultFetch ("/v1/transit/sign/" +:+ keyName) "POST" (Some (JObj [("input", JStr (to_base64 message))]))).
  unfold transitSign, refused_by_vault. mem_steps.
Qed.

(** A signature is handed on only if the key remembered verifies it. *)
Lemma mwp_verified message given (Q : outcome string -> VaultMemory -> signing_world -> Prop) m w :
  (forall key signature, publicKey m = Ok key -> ed25519_verify key message signature = Ok true -> Q (Ok signature) m w) ->
  (forall x, Q (Err x) m w) -> mwp (verified keyName message given) Q m w.
Proof.
  intros Hok Herr. unfold verified. apply mwp_bind, mwp_read, mwp_bind, mwp_lift.
  destruct (publicKey m) as [key|x]; [|apply Herr]. cbv zeta. apply mwp_bind, mwp_lift.
  destruct (ed25519_verify key message _) as [[|]|x] eqn:Ev; [|apply Herr..]. by eapply Hok.
Qed.

Lemma publicKey_same m m' : vm_publicKey m' = vm_publicKey m -> publicKey m' = publicKey m.
Proof. unfold publicKey. by intros ->. Qed.

(** The public key a signer has reported, it keeps. *)
Definition key_kept (m m' : VaultMemory) : Prop := forall key, publicKey m = Ok key -> publicKey m' = Ok key.

Lemma key_kept_resolved o m m1 m2 :
  (forall key, publicKey m = Ok key -> o = Ok key /\ m1 = m) -> vm_publicKey m2 = vm_publicKey m1 -> key_kept m m2.
Proof. intros Hkept E key Hp. rewrite (publicKey_same _ _ E). by destruct (Hkept key Hp) as [_ ->]. Qed.

(** What a signature of Vault's is worth: the key reported verifies it. *)
Definition signed_message (message : string) (m : VaultMemory) (o : outcome string) (m' : VaultMemory) : Prop :=
  key_kept m m' /\
  match o with
  | Ok signature => exists key, publicKey m' = Ok key /\ ed25519_verify key message signature = Ok true
  | Err _ => True
  end.
Definition signed_envelope (unsignedXdr : string) (m : VaultMemory) (o : outcome string) (m' : VaultMemory) : Prop :=
  key_kept m m' /\
  match o with
  | Ok signedXdr => exists key hash signature, publicKey m' = Ok key /\ envelope_hash unsignedXdr networkPassphrase = Ok hash /\
      ed25519_verify key hash signature = Ok true /\ envelope_signed unsignedXdr networkPassphrase key (to_base64 signature) = Ok signedXdr
  | Err _ => True
  end.

Lemma vault_signMessage_verifies message m w :
  mwp (vault_signMessage options keyName message) (fun o m' _ => signed_message message m o m') m w.
Proof.
  unfold vault_signMessage. apply mwp_bind. eapply mwp_mono; [|apply resolvePublicKey_remembers]. intros o m1 w1 [Hkept Hkey].
  destruct o as [key|x]; [|split; [by eapply key_kept_resolved|done]]. apply mwp_bind. eapply mwp_mono; [|apply keeps_key_transitSign].
  intros [given|x] m2 w2 E; [|split; [by eapply key_kept_resolved|done]].
  apply mwp_verified; [intros key' signature Hp Hv|intros x]; (split; [by eapply key_kept_resolved|]); eauto.
Qed.

Lemma vault_sign_verifies unsignedXdr m w :
  mwp (vault_sign options keyName networkPassphrase unsignedXdr) (fun o m' _ => signed_envelope unsignedXdr m o m') m w.
Proof.
  unfold vault_sign. apply mwp_bind. eapply mwp_mono; [|apply resolvePublicKey_remembers]. intros o m1 w1 [Hkept Hkey].
  destruct o as [key|x]; [|split; [by eapply key_kept_resolved|done]]. apply mwp_bind, mwp_lift.
  destruct (envelope_hash unsignedXdr networkPassphrase) as [hash|x] eqn:Eh; [|split; [by eapply key_kept_resolved|done]].
  apply mwp_bind. eapply mwp_mono; [|apply keeps_key_transitSign].
  intros [given|x] m2 w2 E; [|split; [by eapply key_kept_resolved|done]].
  apply mwp_bind, mwp_verified; [intros key' signature Hp Hv|intros x; split; [by eapply key_kept_resolved|done]].
  apply mwp_lift. split; [by eapply key_kept_resolved|]. destruct (envelope_signed _ _ key _) as [signedXdr|x] eqn:Es; [|done].
  assert (key' = key) as ->.
  { unfold publicKey in Hp. rewrite E, Hkey in Hp. by destruct (truthy (Some key)); simplify_eq/=. }
  by exists key, hash, signature.
Qed.

Lemma vault_sign_asked unsignedXdr :
  mwithin (asks_vault keyName (fun hash => envelope_hash unsignedXdr networkPassphrase = Ok hash))
    (vault_sign options keyName networkPassphrase unsignedXdr).
Proof.
  unfold vault_sign. apply mwithin_bind; [apply resolvePublicKey_asked|]. intros key. apply mwithin_bind_lift. intros hash Eh.
  apply mwithin_bind; [by apply transitSign_asked|]. unfold verified. mem_steps.
Qed.

Lemma vault_sign_asks_little unsignedXdr : mspends transit_request 8 (vault_sign options keyName networkPassphrase unsignedXdr).
Proof.
  unfold vault_sign. apply (mspends_bind _ 4 4).
  { unfold resolvePublicKey, refused_by_vault. apply mspends_free; [done|]. intros m. destruct (truthy _); [done|].
    apply (mspends_bind _ 4 0); [apply vaultFetch_asks_four_times|]. mem_steps. }
  intros key. apply mspends_free; [done|]. intros hash. apply (mspends_bind _ 4 0).
  { unfold transitSign, refused_by_vault. apply (mspends_bind _ 4 0); [apply vaultFetch_asks_four_times|]. mem_steps. }
  unfold verified. mem_steps.
Qed.

(** C9. Vault signs with a key that never leaves it: a request to sign an envelope is answered, sends Vault
    the envelope's hash at most and the credentials only to its login, makes at most eight requests other than those for a token,
    and returns only the envelope with a signature that the key the signer reports verifies, a key that
    does not change. *)
Theorem vault_signs_what_it_was_asked e unsignedXdr m :
  let '(r, w) := run e (vault_sign options keyName networkPassphrase unsignedXdr m) (World tt 0 []) in
  Forall (made_by (asks_vault keyName (fun hash => envelope_hash unsignedXdr networkPassphrase = Ok hash))) (w_log w) /\
  (spent transit_request (w_log w) <= 8)%nat /\
  match r with Ok (o, m') => signed_envelope unsignedXdr m o m' | Err _ => False end.
Proof.
  set (w0 := World tt 0 []). set (p := vault_sign _ _ _ _ m).
  assert (Hw : wp any_answer p (fun r w =>
    (match r with Ok (o, m') => signed_envelope unsignedXdr m o m' | Err _ => False end /\
     (spent transit_request (w_log w) <= 8)%nat) /\
    logged (asks_vault keyName (fun hash => envelope_hash unsignedXdr networkPassphrase = Ok hash)) w0 w) w0).
  { apply wp_and; [apply wp_and|].
    - apply vault_sign_verifies.
    - apply (wp_spends transit_request any_answer 8 p w0), vault_sign_asks_little.
    - eapply wp_logged, vault_sign_asked. }
  pose proof (wp_sound any_answer e _ _ _ (any_answer_respects e) Hw) as Hr. destruct (run e p w0) as [r w].
  destruct Hr as ([Hr Hs] & l & El & Hl). cbn in El. by subst l.
Qed.
End Transit.

(** ** factory.ts *)
Section Factory.
Context `{SigningLib} (role : OperatorRole) (networkPassphrase : string) (env : ProcessEnv).
Implicit Types w : signing_world.

(** The key pair comes out of KMS, or stays in Vault and its public key is known. *)
Definition key_kept_elsewhere (signer : KmsSigner) (m : VaultMemory) w : Prop :=
  match signer with
  | RawSigner keypair _ => exists region keyId ciphertext plaintext,
      In (ECall (KmsDecrypt region keyId ciphertext) (Ok (Some plaintext))) (w_log w) /\
      keypair_fromSecret (trim (utf8_text plaintext)) = Ok keypair
  | TransitSigner _ _ _ => exists key, vm_publicKey m = Some key
  end.

(** [lift] in front of the rest. *)
Lemma wp_lifted {A B} (r : outcome A) (k : A -> signing_prog B) (Q : outcome B -> signing_world -> Prop) w :
  (forall a, r = Ok a -> wp any_answer (k a) Q w) -> (forall x, Q (Err x) w) -> wp any_answer (bind (lift r) k) Q w.
Proof. intros Hk Hx. destruct r; [by apply Hk|apply Hx]. Qed.

Lemma KmsEnvelopeSigner_from_kms awsRegion kmsKeyId wrapped w :
  wp any_answer (KmsEnvelopeSigner_create awsRegion kmsKeyId wrapped networkPassphrase)
    (fun r w' => match r with Ok signer => key_kept_elsewhere signer no_memory w' | Err _ => True end) w.
Proof.
  intros [[plaintext|]|x] _; cbn; try done. unfold createRawSecretSigner.
  destruct (keypair_fromSecret _) as [keypair|x] eqn:Ek; cbn; [|done].
  do 4 eexists. split; [apply in_or_app; right; by left|exact Ek].
Qed.

(** A production process gets no signer that holds a secret of its environment: it signs with a key
    unwrapped by KMS, or in Vault under a public key resolved before the signer is handed out. *)
Lemma production_signers_keep_keys_elsewhere w :
  in_production env = true ->
  wp any_answer (createOperatorSigner role networkPassphrase env)
    (fun r w' => match r with Ok (signer, m) => key_kept_elsewhere signer m w' | Err _ => True end) w.
Proof.
  intros Hp. unfold createOperatorSigner. cbv zeta. rewrite Hp. destruct (eqs _ "local"); [done|]. destruct (eqs _ "vault").
  - apply wp_lifted; [intros vaultAddr _|done]. apply wp_lifted; [intros keyName _|done].
    apply wp_lifted; [intros options _|done]. apply wp_lifted; [intros memory _|done]. apply wp_bind.
    eapply wp_mono; [|apply (resolvePublicKey_remembers options keyName memory w)]. intros [[o m]|x] w' Hr; [|done].
    destruct Hr as [_ Hr]. destruct o as [key|x]; cbn; [by exists key|done].
  - destruct (eqs _ "kms-envelope"); [|done].
    apply wp_lifted; [intros awsRegion _|done]. apply wp_lifted; [intros kmsKeyId _|done]. apply wp_lifted; [intros wrapped _|done].
    apply wp_bind. eapply wp_mono; [|apply KmsEnvelopeSigner_from_kms]. by intros [signer|x] w' Hr.
Qed.
End Factory.
