(* ===== verification/PayoutSigner.v ===== *)
(** [services/payout-hop/src/signer.ts]: the operator's signer of the payout hop, a [KmsSigner] with the
    network's sequence numbers and submission around it, over the same Vault as [OperatorSigning]. *)
From S2P Require Import Prelude Prog Embed Shape Memory PayoutHop OperatorSigning OperatorSafety.

(** ** What it calls *)
Inductive SubmitCall : Type -> Type :=
| Signing {X} (c : SigningCall X) : SubmitCall X
| GetAccount (publicKey : string) : SubmitCall Z
| SendTransaction (signedXdr : string) : SubmitCall (string * string).

(** The SDK's text of a transaction, and whether a text is one for the network. *)
Class EnvelopeLib := { toXDR : PaymentTx -> outcome string; transaction_fromXDR : string -> string -> outcome unit }.

Notation submitter := (mem SubmitCall VaultMemory).

(** The signer's work among these calls. *)
Definition as_submitter {A} (p : mem SigningCall VaultMemory A) : submitter A :=
  fun m => embed (fun X => @Signing X) (fun o => o) (p m).

Section Signer.
Context `{SigningLib, EnvelopeLib} (signer : KmsSigner) (passphrase : string).

(** [new OperatorPayoutSigner(logger, rpcUrl, passphrase, kmsSigner)] is its fields; [create] resolves the signer
    for its role. *)
Definition OperatorPayoutSigner_create (env : ProcessEnv) : signing_prog (KmsSigner * VaultMemory) :=
  createOperatorSigner OperatorSigning.payout_hop passphrase env.

Definition OperatorPayoutSigner_publicKey (m : VaultMemory) : outcome string := signer_publicKey signer m.
Definition OperatorPayoutSigner_networkPassphrase : string := passphrase.

Definition loadSequenceAccount : submitter Z :=
  m <~ m_read ;;
  key <~ m_lift (OperatorPayoutSigner_publicKey m) ;;
  m_call (GetAccount key).

(** The answer's hash and status. *)
Definition signAndSubmit (tx : PaymentTx) : submitter (string * string) :=
  unsignedXdr <~ m_lift (toXDR tx) ;;
  signedXdr <~ as_submitter (sign signer unsignedXdr) ;;
  _ <~ m_lift (transaction_fromXDR signedXdr passphrase) ;;
  m_call (SendTransaction signedXdr).
End Signer.

(** ** What is submitted *)
Definition not_sent (X : Type) (c : SubmitCall X) : Prop := match c with SendTransaction _ => False | _ => True end.

Section Submitted.
Context `{SigningLib, EnvelopeLib} (signer : KmsSigner) (passphrase : string).
Implicit Types (m : VaultMemory) (w : world unit SubmitCall unit).

(** The signer's own signature over a transaction's text, by the key it reports where Vault holds it. *)
Definition signed_by (unsignedXdr signedXdr : string) (m m' : VaultMemory) : Prop :=
  match signer with
  | RawSigner keypair network => envelope_sign unsignedXdr network keypair = Ok signedXdr /\ m' = m
  | TransitSigner _ _ network => signed_envelope network unsignedXdr m (Ok signedXdr) m'
  end.

Lemma signs unsignedXdr m (w : signing_world) :
  mwp (sign signer unsignedXdr) (fun o m' _ => match o with Ok signedXdr => signed_by unsignedXdr signedXdr m m' | Err _ => True end) m w.
Proof.
  unfold sign, signed_by. destruct signer as [keypair network|options keyName network].
  - apply mwp_lift. by destruct (envelope_sign _ _ _).
  - eapply mwp_mono; [|apply vault_sign_verifies]. by intros [signedXdr|x] m' w' Hs.
Qed.

Lemma signs_without_sending unsignedXdr m w :
  mwp (as_submitter (sign signer unsignedXdr))
    (fun o m' w' => match o with Ok signedXdr => signed_by unsignedXdr signedXdr m m' | Err _ => True end /\ logged not_sent w w') m w.
Proof.
  unfold mwp, as_submitter. set (w1 := World tt (w_tick w) [] : signing_world).
  assert (Ew : w = around (fun X => @Signing X) (fun o => o) (w_log w) w1).
  { destruct w as [[] t l]. unfold around. cbn. by rewrite app_nil_r. }
  rewrite Ew at 1. eapply wp_embed; [|apply (signs unsignedXdr m w1)]. intros [[o m']|x] w' Hr; [|done].
  split; [exact Hr|]. exists (List.map (embed_entry (fun X => @Signing X) (fun o => o)) (w_log w')). split; [done|].
  apply Forall_map, Forall_forall. by intros [X c r|o'] _.
Qed.

(** A payment is submitted at most once, as the signer's envelope of just that transaction; the caller
    gets the network's answer to it, an exception included, and an exception without a submission
    means that nothing was submitted. *)
Theorem submits_what_it_was_asked e tx m :
  let '(r, w) := run e (signAndSubmit signer passphrase tx m) (World tt 0 []) in
  match r with
  | Err _ => False
  | Ok (o, m') =>
      exists before, Forall (made_by not_sent) before /\
        ((w_log w = before /\ exists x, o = Err x) \/
         exists unsignedXdr signedXdr, toXDR tx = Ok unsignedXdr /\ signed_by unsignedXdr signedXdr m m' /\
           w_log w = before ++ [ECall (SendTransaction signedXdr) o])
  end.
Proof.
  set (w0 := World tt 0 []).
  enough (Hw : mwp (signAndSubmit signer passphrase tx) (fun o m' w => exists before, Forall (made_by not_sent) before /\
    ((w_log w = before /\ exists x, o = Err x) \/
     exists unsignedXdr signedXdr, toXDR tx = Ok unsignedXdr /\ signed_by unsignedXdr signedXdr m m' /\
       w_log w = before ++ [ECall (SendTransaction signedXdr) o])) m w0).
  { pose proof (wp_sound any_answer e _ _ _ (any_answer_respects e) Hw) as Hr. by destruct (run e _ w0) as [[[o m']|x] w]. }
  unfold signAndSubmit. apply mwp_bind, mwp_lift. destruct (toXDR tx) as [unsignedXdr|x] eqn:Ex; [|exists []; split; [done|left; eauto]].
  apply mwp_bind. eapply mwp_mono; [|apply signs_without_sending]. intros o m' w (Hs & l & El & Hl). cbn in El. subst l.
  destruct o as [signedXdr|x]; [|exists (w_log w); split; [done|left; eauto]].
  apply mwp_bind, mwp_lift. destruct (transaction_fromXDR _ _) as [[]|x]; [|exists (w_log w); split; [done|left; eauto]].
  apply mwp_call. intros r. exists (w_log w). split; [done|]. right. by exists unsignedXdr, signedXdr.
Qed.
End Submitted.
