(* ===== verification/Chain.v ===== *)
(** [packages/contract-clients]: the shapes of the contract reads the services make, and the
    decoding of a contract value into them. *)
From S2P Require Import Prelude Prog Schema Domain.

(** ** credit-line-client.ts, repo-dvp-client.ts.  Struct fields that are optional in the source
    ([null] or absent) are options; statuses are the contract's variant names. *)
Record LtvView := Ltv {
  lv_debt : Z; lv_collateralValue : Z; lv_ltvBps : Z; lv_state : string; lv_priceStatus : string }.

Record OnChainLine := ChainLine {
  oc_lender : string; oc_borrower : string; oc_asset : string; oc_limit : Z; oc_funded : Z;
  oc_drawn : Z; oc_pledgedUnits : Z; oc_accruedInterest : Z; oc_status : string;
  oc_breachLedger : option Z }.

Record OnChainLiquidationRecord := ChainLiquidation {
  ol_seizedUnits : Z; ol_price : Z; ol_debt : Z; ol_closed : bool; ol_recovered : Z;
  ol_surplus : Z; ol_shortfall : Z }.

Record OnChainRepoMargin := ChainMargin {
  om_exposure : Z; om_collateralValue : Z; om_ltvBps : Z; om_state : string; om_priceOk : bool }.

Record OnChainRepoTrade := ChainTrade {
  ot_units : Z; ot_status : string; ot_pendingMarginCall : bool; ot_marginCallAmount : Z;
  ot_cureDeadline : option Z }.

(** ** scval.ts: normalizeContractValue *)
Definition is_lower_digit (c : ascii) : bool :=
  is_digit c || ((97 <=? char_code c) && (char_code c <=? 122)).
Definition is_alnum (c : ascii) : bool :=
  is_lower_digit c || ((65 <=? char_code c) && (char_code c <=? 90)).

(** [key.replace(/_([a-z0-9])/g, (_, c) => c.toUpperCase())]. *)
Fixpoint snakeToCamel (key : string) : string :=
  match key with
  | String "_" (String c rest as s') =>
      if is_lower_digit c then String (to_upper c) (snakeToCamel rest)
      else String "_" (snakeToCamel s')
  | String c s' => String c (snakeToCamel s')
  | EmptyString => EmptyString
  end.

(** [PASCAL_VARIANT]: [/^[A-Z][A-Za-z0-9]*$/]. *)
Definition pascal_variant (s : string) : bool :=
  match s with
  | String c s' => (65 <=? char_code c) && (char_code c <=? 90) && string_forall is_alnum s'
  | EmptyString => false
  end.

(** [out[key] = v]: a key already there keeps its place and takes the new value. *)
Fixpoint obj_set (k : string) (v : jsval) (l : list (string * jsval)) : list (string * jsval) :=
  match l with
  | [] => [(k, v)]
  | (k', v') :: l' => if eqs k k' then (k, v) :: l' else (k', v') :: obj_set k v l'
  end.

Fixpoint normalizeContractValue (value : jsval) : jsval :=
  match value with
  | JArr l =>
      match l with
      | [JStr s] => if pascal_variant s then JStr s else JArr [JStr s]
      | _ => JArr (List.map normalizeContractValue l)
      end
  | JObj l =>
      JObj ((fix go (l : list (string * jsval)) (out : list (string * jsval)) :=
        match l with
        | [] => out
        | (k, v) :: l' => go l' (obj_set (snakeToCamel k) (normalizeContractValue v) out)
        end) l [])
  | v => v
  end.

(** ** tx.ts: getTxOutcome on the RPC's answer *)
Inductive TxOutcome :=
| TxSuccess (ledger : Z) (returnValue : option jsval)
| TxFailed (ledger : Z)
| TxNotFound.

Record GetTransactionAnswer := GotTx { gt_status : string; gt_ledger : Z; gt_returnValue : option string }.

(** [scValToNative] is the SDK's decoder. *)
Definition txOutcome_of (scValToNative : string -> outcome jsval) (got : GetTransactionAnswer)
  : outcome TxOutcome :=
  if eqs (gt_status got) "SUCCESS"
  then match gt_returnValue got with
       | Some v => native <-? scValToNative v ;;
                   Ok (TxSuccess (gt_ledger got) (Some (normalizeContractValue native)))
       | None => Ok (TxSuccess (gt_ledger got) None)
       end
  else if eqs (gt_status got) "FAILED" then Ok (TxFailed (gt_ledger got))
  else Ok TxNotFound.
