(* ===== verification/Clients.v ===== *)
(** [packages/contract-clients/src]: the encoding of arguments as contract values ([scval.ts]), the
    unsigned envelopes and the simulated reads ([unsigned-tx.ts], [base-client.ts]), the clients of the
    six contracts, and the API's set of them ([services/api/src/contract-clients.ts]). *)
From S2P Require Import Prelude Prog Settings Schema Domain Rpc Chain.

(** ** Outside the clients *)
(** The contract values of the Stellar SDK ([xdr.ScVal]) the clients build and read. *)
Inductive ScVal :=
| ScvVoid
| ScvAddress (address : string)
| ScvI128 (value : Z)
| ScvU32 (value : Z)
| ScvU64 (value : Z)
| ScvSymbol (value : string)
| ScvBool (value : bool)
| ScvBytes (value : list Z)
| ScvVec (values : list ScVal)
| ScvMap (entries : list (ScVal * ScVal)).

(** The JavaScript values the clients hand to [nativeToScVal]. *)
Inductive Native := NUndefined | NInt (z : Z) | NText (s : string) | NBool (b : bool) | NBytes (b : list Z).

(** The SDK: [Address.fromString(a).toScVal()], [nativeToScVal(v, { type })], [scValToNative], and whether
    the constructors of [Contract] and [Account] take their text. *)
Class ScLib := {
  address_ScVal : string -> outcome ScVal;
  nativeToScVal : Native -> string -> outcome ScVal;
  scValToNative : ScVal -> outcome jsval;
  new_Contract : string -> outcome unit;
  new_Account : string -> outcome unit }.

(** What a [TransactionBuilder] is given: its source account with its sequence number, the passphrase,
    one invocation, and how many seconds the transaction stays valid. *)
Record Operation := Invoke { op_contract : string; op_method : string; op_args : list ScVal }.
Record Tx := BuiltTx { tx_source : string; tx_sequence : Z; tx_passphrase : string; tx_operation : Operation; tx_timeout : Z }.

Inductive Simulation := SimulationError (error : string) | SimulationResult (retval : option ScVal).

(** The calls of [rpc.Server]; the answer to [PrepareTransaction] is the prepared transaction as XDR. *)
Inductive RpcCall : Type -> Type :=
| GetAccount (rpcUrl publicKey : string) : RpcCall Z
| PrepareTransaction (rpcUrl : string) (tx : Tx) : RpcCall string
| SimulateTransaction (rpcUrl : string) (tx : Tx) : RpcCall Simulation.

(** ** scval.ts *)
Section Encoding.
Context `{ScLib}.

Definition native_text (s : option string) : Native := match s with Some s => NText s | None => NUndefined end.

Definition scAddress (address : string) : outcome ScVal := address_ScVal address.
Definition scI128 (value : Z) : outcome ScVal := nativeToScVal (NInt value) "i128".
Definition scU32 (value : Z) : outcome ScVal := nativeToScVal (NInt value) "u32".
Definition scU64 (value : Z) : outcome ScVal := nativeToScVal (NInt value) "u64".
Definition scSymbol (value : option string) : outcome ScVal := nativeToScVal (native_text value) "symbol".
Definition scBool (value : bool) : outcome ScVal := nativeToScVal (NBool value) "bool".
Definition scBytes (value : list Z) : outcome ScVal := nativeToScVal (NBytes value) "bytes".

(** A list of arguments: the first one that throws ends it. *)
Definition args (l : list (outcome ScVal)) : outcome (list ScVal) := omap_list (fun v => v) l.

Definition enumToScVal (variantName : option string) (fields : list (outcome ScVal)) : outcome ScVal :=
  fields <-? args fields ;; symbol <-? scSymbol variantName ;; Ok (ScvVec (symbol :: fields)).

(** [Object.keys(fields).sort()]. *)
Fixpoint insert_field {V} (kv : string * V) (l : list (string * V)) : list (string * V) :=
  match l with
  | [] => [kv]
  | kv' :: l' => match String.compare (fst kv) (fst kv') with Gt => kv' :: insert_field kv l' | _ => kv :: l end
  end.
Definition sort_fields {V} (l : list (string * V)) : list (string * V) := foldr insert_field [] l.

Definition scStruct (fields : list (string * outcome ScVal)) : outcome ScVal :=
  fields <-? omap_list (fun kv => v <-? snd kv ;; Ok (fst kv, v)) fields ;;
  entries <-? omap_list (fun kv => key <-? scSymbol (Some (fst kv)) ;; Ok (key, snd kv)) (sort_fields fields) ;;
  Ok (ScvMap entries).
End Encoding.

(** ** unsigned-tx.ts *)
Definition ContractRejectedError (detail : string) : exn := Exn "ContractRejectedError" ("contract rejected the request: " +:+ detail).
Definition UNSIGNED_TX_TIMEOUT_S : Z := 300.

Section Clients.
Context {D Out : Type} `{ScLib}.
Notation rpc_prog := (prog D RpcCall Out).

Definition buildUnsignedTx (config : NetworkConfig) (sourcePublicKey contractId method : string) (scArgs : list ScVal) : rpc_prog string :=
  sequence <- withRpcRetry (call (GetAccount (nc_rpcUrl config) sourcePublicKey)) ;;
  lift (new_Contract contractId) ;;;
  let tx := BuiltTx sourcePublicKey sequence (nc_networkPassphrase config) (Invoke contractId method scArgs) UNSIGNED_TX_TIMEOUT_S in
  catch (withRpcRetry (call (PrepareTransaction (nc_rpcUrl config) tx)))
    (fun err => if isTransientRpcError err then Throw err else Throw (ContractRejectedError (exn_message err))).

Definition simulateRead (config : NetworkConfig) (callerPublicKey contractId method : string) (scArgs : list ScVal) : rpc_prog jsval :=
  lift (new_Account callerPublicKey) ;;;
  lift (new_Contract contractId) ;;;
  let tx := BuiltTx callerPublicKey 0 (nc_networkPassphrase config) (Invoke contractId method scArgs) 30 in
  sim <- withRpcRetry (call (SimulateTransaction (nc_rpcUrl config) tx)) ;;
  match sim with
  | SimulationError error => Throw (ContractRejectedError ("contract-clients: simulation of " +:+ quoted method +:+ " failed: " +:+ error))
  | SimulationResult None => Throw (Error ("contract-clients: simulation of " +:+ quoted method +:+ " returned no result"))
  | SimulationResult (Some retval) => native <- lift (scValToNative retval) ;; Ret (normalizeContractValue native)
  end.

(** ** base-client.ts *)
Record ContractClientConfig := Client { kc_network : NetworkConfig; kc_contractId : string }.

Definition invoke (client : ContractClientConfig) (sourcePublicKey method : string) (scArgs : list (outcome ScVal)) : rpc_prog string :=
  scArgs <- lift (args scArgs) ;; buildUnsignedTx (kc_network client) sourcePublicKey (kc_contractId client) method scArgs.

Definition read (env : ProcessEnv) (client : ContractClientConfig) (method : string) (scArgs : list (outcome ScVal)) : rpc_prog jsval :=
  scArgs <- lift (args scArgs) ;;
  source <- lift (resolveSimulationSource env) ;;
  simulateRead (kc_network client) source (kc_contractId client) method scArgs.

(** ** credit-line-client.ts.  Every function is a method of its client, named after both. *)
Definition ROUTE_VARIANT (route : string) : option string :=
  assoc route [("redeem", "Redeem"); ("transfer", "Transfer"); ("rfq", "Rfq")].

Record OpenCreditLineArgs := OpenArgs {
  oa_borrower : string; oa_asset : string; oa_limit : Z; oa_rateBps : Z; oa_cureS : Z; oa_agreementHash : list Z }.

Definition CreditLine_open client source (a : OpenCreditLineArgs) : rpc_prog string :=
  invoke client source "open" [scAddress source; scAddress (oa_borrower a); scAddress (oa_asset a); scI128 (oa_limit a); scU32 (oa_rateBps a);
    scU64 (oa_cureS a); scBytes (oa_agreementHash a)].
Definition CreditLine_fund client source (line amount : Z) : rpc_prog string :=
  invoke client source "fund" [scAddress source; scU64 line; scI128 amount].
Definition CreditLine_draw client source (line amount : Z) (to : string) : rpc_prog string :=
  invoke client source "draw" [scAddress source; scU64 line; scI128 amount; scAddress to].
Definition CreditLine_repay client source (line amount : Z) : rpc_prog string :=
  invoke client source "repay" [scAddress source; scU64 line; scI128 amount].
Definition CreditLine_syncCollateral client source (line units : Z) : rpc_prog string :=
  invoke client source "sync_collateral" [scAddress source; scU64 line; scI128 units].
Definition CreditLine_ltv env client (line : Z) : rpc_prog jsval := read env client "ltv" [scU64 line].
Definition CreditLine_line env client (line : Z) : rpc_prog jsval := read env client "line" [scU64 line].
(** [source] is [None] when the caller leaves it to the environment. *)
Definition CreditLine_poke (env : ProcessEnv) client (line : Z) (source : option string) : rpc_prog string :=
  source <- match source with Some source => Ret source | None => lift (resolvePokeSource env) end ;;
  invoke client source "poke" [scU64 line].
Definition CreditLine_liquidate client source (line : Z) (route : string) : rpc_prog string :=
  invoke client source "liquidate" [scAddress source; scU64 line; enumToScVal (ROUTE_VARIANT route) []].
Definition CreditLine_withdrawUndrawn client source (line amount : Z) : rpc_prog string :=
  invoke client source "withdraw_undrawn" [scAddress source; scU64 line; scI128 amount].
Definition CreditLine_withdrawInterest client source (line amount : Z) : rpc_prog string :=
  invoke client source "withdraw_interest" [scAddress source; scU64 line; scI128 amount].
Definition CreditLine_closeLiquidated client source (line : Z) : rpc_prog string :=
  invoke client source "close_liquidated" [scAddress source; scU64 line].
Definition CreditLine_claimableInterest env client (line : Z) : rpc_prog jsval := read env client "claimable_interest" [scU64 line].
Definition CreditLine_liquidationRecord env client (line : Z) : rpc_prog jsval := read env client "liquidation_record" [scU64 line].

(** ** pledge-vault-client.ts *)
Definition PledgeVault_pledge client source (line : Z) (assetAddress : string) (units : Z) : rpc_prog string :=
  invoke client source "pledge" [scAddress source; scU64 line; scAddress assetAddress; scI128 units].
Definition PledgeVault_release client source (line : Z) (assetAddress : string) (units : Z) : rpc_prog string :=
  invoke client source "release" [scAddress source; scU64 line; scAddress assetAddress; scI128 units].
Definition PledgeVault_liquidate client source (line : Z) (assetAddress : string) (units : Z) (to : string) : rpc_prog string :=
  invoke client source "liquidate" [scAddress source; scU64 line; scAddress assetAddress; scI128 units; scAddress to].
Definition PledgeVault_positionUnits env client (line : Z) (assetAddress : string) : rpc_prog jsval :=
  read env client "position_units" [scU64 line; scAddress assetAddress].
Definition PledgeVault_recordLien client source (line : Z) (assetAddress : string) (units : Z) (lienRef : list Z) : rpc_prog string :=
  invoke client source "record_lien" [scAddress source; scU64 line; scAddress assetAddress; scI128 units; scBytes lienRef].

(** ** exit-desk-client.ts *)
Definition ExitDesk_quote env client (assetAddress : string) (units : Z) : rpc_prog jsval :=
  read env client "quote" [scAddress assetAddress; scI128 units].
Definition ExitDesk_setUsdc client admin usdc : rpc_prog string := invoke client admin "set_usdc" [scAddress admin; scAddress usdc].
Definition ExitDesk_exit client source (assetAddress : string) (units minUsdcOut : Z) (to : string) : rpc_prog string :=
  invoke client source "exit" [scAddress source; scAddress assetAddress; scI128 units; scI128 minUsdcOut; scAddress to].
Definition ExitDesk_disableAsset client admin assetAddress : rpc_prog string :=
  invoke client admin "disable_asset" [scAddress admin; scAddress assetAddress].
Definition ExitDesk_enableAsset client admin assetAddress : rpc_prog string :=
  invoke client admin "enable_asset" [scAddress admin; scAddress assetAddress].
Definition ExitDesk_isAssetEnabled env client assetAddress : rpc_prog jsval := read env client "is_asset_enabled" [scAddress assetAddress].

(** ** repo-dvp-client.ts *)
Definition REPO_KIND_VARIANT (kind : string) : option string :=
  assoc kind [("intraday", "Intraday"); ("overnight", "Overnight"); ("open", "Open"); ("term", "Term")].

Record RepoProposeTerms := RepoTerms {
  ro_cashBorrower : string; ro_asset : string; ro_units : Z; ro_cashAmount : Z; ro_rateBps : Z; ro_kind : string;
  ro_maturityAt : Z; ro_agreementHash : list Z }.

Definition RepoDvp_propose client source (terms : RepoProposeTerms) : rpc_prog string :=
  invoke client source "propose" [scAddress source; scAddress (ro_cashBorrower terms); scAddress (ro_asset terms); scI128 (ro_units terms);
    scI128 (ro_cashAmount terms); scU32 (ro_rateBps terms); enumToScVal (REPO_KIND_VARIANT (ro_kind terms)) []; scU64 (ro_maturityAt terms);
    scBytes (ro_agreementHash terms)].
Definition RepoDvp_cancelProposal client source (id : Z) : rpc_prog string :=
  invoke client source "cancel_proposal" [scAddress source; scU64 id].
Definition RepoDvp_acceptAndSettle client source (id : Z) : rpc_prog string :=
  invoke client source "accept_and_settle" [scAddress source; scU64 id].
Definition RepoDvp_unwind client source (id : Z) : rpc_prog string := invoke client source "unwind" [scAddress source; scU64 id].
Definition RepoDvp_callMargin client source (id : Z) : rpc_prog string := invoke client source "call_margin" [scAddress source; scU64 id].
Definition RepoDvp_defaultClose client source (id : Z) : rpc_prog string := invoke client source "default_close" [scAddress source; scU64 id].
Definition RepoDvp_topUp client source (id extraUnits : Z) : rpc_prog string :=
  invoke client source "top_up" [scAddress source; scU64 id; scI128 extraUnits].
Definition RepoDvp_marginView env client (id : Z) : rpc_prog jsval := read env client "margin_view" [scU64 id].
Definition RepoDvp_trade env client (id : Z) : rpc_prog jsval := read env client "trade" [scU64 id].
Definition RepoDvp_disableAsset client admin assetAddress : rpc_prog string :=
  invoke client admin "disable_asset" [scAddress admin; scAddress assetAddress].
Definition RepoDvp_enableAsset client admin assetAddress : rpc_prog string :=
  invoke client admin "enable_asset" [scAddress admin; scAddress assetAddress].
Definition RepoDvp_isAssetEnabled env client assetAddress : rpc_prog jsval := read env client "is_asset_enabled" [scAddress assetAddress].

(** ** price-guard-client.ts *)
(** [Buffer.from(s, "utf8")]. *)
Definition utf8 (s : string) : list Z := List.map char_code (string_to_list s).

Definition PriceGuard_guardedPrice env client assetAddress : rpc_prog jsval := read env client "guarded_price" [scAddress assetAddress].
Definition PriceGuard_publishNav client source assetAddress assetCode (value ts : Z) (sig : list Z) : rpc_prog string :=
  invoke client source "publish_nav" [scAddress source; scAddress assetAddress; scBytes (utf8 assetCode); scI128 value; scU64 ts; scBytes sig].
Definition PriceGuard_configureIssuerKey client source assetAddress (issuerPublicKey : list Z) : rpc_prog string :=
  invoke client source "configure_issuer_key" [scAddress source; scAddress assetAddress; scBytes issuerPublicKey].
Definition PriceGuard_configureSignatureRequirement client source (required : bool) : rpc_prog string :=
  invoke client source "configure_signature_requirement" [scAddress source; scBool required].
Definition PriceGuard_publishFeed client source assetAddress sourceName (value ts : Z) : rpc_prog string :=
  invoke client source "publish_source" [scAddress source; scAddress assetAddress; scSymbol (Some sourceName); scI128 value; scU64 ts].
Definition PriceGuard_confirmHaltCleared client source assetAddress : rpc_prog string :=
  invoke client source "confirm_halt_cleared" [scAddress source; scAddress assetAddress].

(** ** registry-client.ts *)
Inductive RegistryParamChange :=
| HaircutBaseBps (value : Z) | HaircutFxBps (value : Z) | PriceBandBps (value : Z) | DailyMoveBandBps (value : Z)
| RedemptionLagDays (value : Z) | Status (value : string).

Definition encodeParamChange (change : RegistryParamChange) : outcome ScVal :=
  match change with
  | Status value => enumToScVal (Some "Status") [scSymbol (Some value)]
  | HaircutBaseBps value => enumToScVal (Some "HaircutBaseBps") [scU32 value]
  | HaircutFxBps value => enumToScVal (Some "HaircutFxBps") [scU32 value]
  | PriceBandBps value => enumToScVal (Some "PriceBandBps") [scU32 value]
  | DailyMoveBandBps value => enumToScVal (Some "DailyMoveBandBps") [scU32 value]
  | RedemptionLagDays value => enumToScVal (Some "RedemptionLagDays") [scU32 value]
  end.

Definition STANDARD_VARIANT : list (string * string) := [("classic_sac", "ClassicSac"); ("sep57", "Sep57")].
Definition YIELD_TYPE_VARIANT : list (string * string) := [("accumulating", "Accumulating"); ("distributing", "Distributing")].
Definition CUSTODY_MODE_VARIANT : list (string * string) :=
  [("escrow", "Escrow"); ("issuer_lien", "IssuerLien"); ("custodian_lien", "CustodianLien")].
Definition STANDARD_FROM_CHAIN : list (string * string) := [("ClassicSac", "classic_sac"); ("Sep57", "sep57")].
Definition YIELD_TYPE_FROM_CHAIN : list (string * string) := [("Accumulating", "accumulating"); ("Distributing", "distributing")].
Definition CUSTODY_MODE_FROM_CHAIN : list (string * string) :=
  [("Escrow", "escrow"); ("IssuerLien", "issuer_lien"); ("CustodianLien", "custodian_lien")].

Record OnChainAssetConfig := ChainAsset {
  an_issuer : string; an_contract : string; an_standard : string; an_yieldType : string; an_custodyMode : string; an_ccy : string;
  an_redemptionLagDays : Z; an_haircutBaseBps : Z; an_haircutFxBps : Z; an_priceBandBps : Z; an_dailyMoveBandBps : Z; an_status : string }.

Definition encodeAssetConfig (config : OnChainAssetConfig) : outcome ScVal :=
  scStruct [
    ("issuer", scAddress (an_issuer config));
    ("contract", scAddress (an_contract config));
    ("standard", enumToScVal (assoc (an_standard config) STANDARD_VARIANT) []);
    ("yield_type", enumToScVal (assoc (an_yieldType config) YIELD_TYPE_VARIANT) []);
    ("custody_mode", enumToScVal (assoc (an_custodyMode config) CUSTODY_MODE_VARIANT) []);
    ("ccy", scSymbol (Some (an_ccy config)));
    ("redemption_lag_days", scU32 (an_redemptionLagDays config));
    ("haircut_base_bps", scU32 (an_haircutBaseBps config));
    ("haircut_fx_bps", scU32 (an_haircutFxBps config));
    ("price_band_bps", scU32 (an_priceBandBps config));
    ("daily_move_band_bps", scU32 (an_dailyMoveBandBps config));
    ("status", scSymbol (Some (an_status config)))].

(** [{ ...raw, [key]: TABLE[raw[key]] ?? raw[key] }]. *)
Definition from_chain (key : string) (table : list (string * string)) (raw : list (string * jsval)) : list (string * jsval) :=
  match assoc key raw with
  | Some (JStr v) => obj_set key (JStr (default v (assoc v table))) raw
  | _ => raw
  end.

Definition asset_from_chain (raw : jsval) : jsval :=
  match raw with
  | JObj raw => JObj (from_chain "custodyMode" CUSTODY_MODE_FROM_CHAIN (from_chain "yieldType" YIELD_TYPE_FROM_CHAIN
      (from_chain "standard" STANDARD_FROM_CHAIN raw)))
  | v => v
  end.

Definition Registry_asset env client assetAddress : rpc_prog jsval :=
  raw <- read env client "asset" [scAddress assetAddress] ;; Ret (asset_from_chain raw).
Definition Registry_registerAsset client source assetAddress (config : OnChainAssetConfig) : rpc_prog string :=
  invoke client source "register_asset" [scAddress source; scAddress assetAddress; encodeAssetConfig config].
Definition Registry_queueParam client source assetAddress (change : RegistryParamChange) : rpc_prog string :=
  invoke client source "queue_param" [scAddress source; scAddress assetAddress; encodeParamChange change].
Definition Registry_executeParam client source (id : Z) : rpc_prog string := invoke client source "execute_param" [scU64 id].
Definition Registry_raiseHaircutNow client source assetAddress (addBps : Z) : rpc_prog string :=
  invoke client source "raise_haircut_now" [scAddress source; scAddress assetAddress; scU32 addBps].
Definition Registry_pause client source (scope : string) : rpc_prog string :=
  invoke client source "pause" [scAddress source; enumToScVal (Some scope) []].
Definition Registry_queueUnpause client source (scope : string) : rpc_prog string :=
  invoke client source "queue_unpause" [scAddress source; enumToScVal (Some scope) []].
Definition Registry_executeUnpause client source (id : Z) : rpc_prog string := invoke client source "execute_unpause" [scU64 id].
Definition Registry_isPaused env client (scope : string) : rpc_prog jsval := read env client "is_paused" [enumToScVal (Some scope) []].
End Clients.

(** ** services/api/src/contract-clients.ts *)
Record ContractClients := ApiClients {
  registry : ContractClientConfig; priceGuard : ContractClientConfig; pledgeVault : ContractClientConfig;
  creditLine_ : ContractClientConfig; exitDesk : ContractClientConfig; repoDvp : ContractClientConfig }.

(** Built once; a failed build is tried again at the next use. *)
Definition getContractClients (env : ProcessEnv) : outcome ContractClients :=
  network <-? loadNetworkConfig env ;;
  let client key := omap' (Client network) (requireContractId network key) in
  registry <-? client "registry" ;; priceGuard <-? client "priceGuard" ;; pledgeVault <-? client "pledgeVault" ;;
  creditLine <-? client "creditLine" ;; exitDesk <-? client "exitDesk" ;; repoDvp <-? client "repoDvp" ;;
  Ok (ApiClients registry priceGuard pledgeVault creditLine exitDesk repoDvp).
