(* ===== verification/Intents.v ===== *)
(** [services/api/src/intents.ts] and [routes/tx.ts]: unsigned transactions the API handed out, and
    what becomes of the books once the network has a verdict on them.  [db.transaction] is taken to
    exist (the fallback for handles without it serves the test doubles). *)
From S2P Require Import Prelude Prog Schema Rules Domain Chain.

Inductive IntentKind :=
| credit_line_open | credit_line_fund | credit_line_withdraw | credit_line_close_liquidated
| credit_line_draw | credit_line_repay | pledge_create | pledge_release | exit_execute
| repo_propose | repo_accept | repo_unwind | repo_top_up.

#[export] Instance IntentKind_eq_dec : EqDecision IntentKind.
Proof. solve_decision. Defined.

Definition kind_name (k : IntentKind) : string :=
  match k with
  | credit_line_open => "credit_line.open" | credit_line_fund => "credit_line.fund"
  | credit_line_withdraw => "credit_line.withdraw"
  | credit_line_close_liquidated => "credit_line.close_liquidated"
  | credit_line_draw => "credit_line.draw" | credit_line_repay => "credit_line.repay"
  | pledge_create => "pledge.create" | pledge_release => "pledge.release"
  | exit_execute => "exit.execute" | repo_propose => "repo.propose"
  | repo_accept => "repo.accept" | repo_unwind => "repo.unwind" | repo_top_up => "repo.top_up"
  end.

Definition all_kinds : list IntentKind :=
  [ credit_line_open; credit_line_fund; credit_line_withdraw; credit_line_close_liquidated;
    credit_line_draw; credit_line_repay; pledge_create; pledge_release; exit_execute;
    repo_propose; repo_accept; repo_unwind; repo_top_up ].

(** [switch (intent.kind as IntentKind)]: the case a stored kind selects, if any. *)
Definition kind_of (s : string) : option IntentKind := List.find (fun k => eqs (kind_name k) s) all_kinds.

Lemma kind_of_name k : kind_of (kind_name k) = Some k.
Proof. by destruct k. Qed.

(** ** What the network answers *)
Inductive IntentCall : Type -> Type :=
| ChainOutcome (hash : string) : IntentCall TxOutcome
| ChainSend (signedXdr : string) : IntentCall string
| ReadLine (line : Z) : IntentCall OnChainLine
| ReadLiquidationRecord (line : Z) : IntentCall OnChainLiquidationRecord
| ReadTrade (trade : Z) : IntentCall OnChainRepoTrade.

(** [String(value)] on a decoded contract value; [None] is [undefined]. *)
Fixpoint js_String (v : jsval) : string :=
  match v with
  | JNull => "null"
  | JBool b => if b then "true" else "false"
  | JNum z | JBig z => Z_to_string z
  | JStr s => s
  | JArr l => join "," (List.map (fun v => match v with JNull => "" | _ => js_String v end) l)
  | JObj _ => "[object Object]"
  end.
Definition js_String_opt (v : option jsval) : string :=
  match v with Some v => js_String v | None => "undefined" end.

Notation intent_prog := (prog Database IntentCall string).
Notation intent_world := (world Database IntentCall string).
Notation IntentRow := txIntent_row.

(** ** recordIntent, findIntent *)
Record IntentArgs := IArgs {
  ia_xdr : string; ia_kind : IntentKind; ia_refId : string; ia_partyId : string;
  ia_payload : option (list (string * string)) }.

Definition recordIntent {Ext : Type -> Type} {Out} (chain_txHash : string -> outcome string)
    (args : IntentArgs) : prog Database Ext Out string :=
  txHash <- lift (chain_txHash (ia_xdr args)) ;;
  stmt (insert txIntent (fun s =>
    TxIntent txHash (kind_name (ia_kind args)) (Some (ia_refId args)) (ia_partyId args)
      (Some (default [] (ia_payload args))) "pending" None None (st_now s) None)) ;;;
  Ret txHash.

Definition is_intent (h : string) (r : IntentRow) : bool := eqs (ti_txHash r) h.

Definition findIntent (txHash : string) : intent_prog (option IntentRow) :=
  rows <- stmt (select txIntent (is_intent txHash)) ;;
  Ret (hd_error rows).

Record SettleResult := SResult {
  sr_txHash : string; sr_kind : string; sr_refId : option string; sr_status : string;
  sr_ledger : option Z }.

Definition result (intent : IntentRow) (status : string) (ledger : option Z) : SettleResult :=
  SResult (ti_txHash intent) (ti_kind intent) (ti_refId intent) status ledger.

(** ** Row updates, one per [.set({...})] of the module *)
Definition set_line_opened (contractLineId : string) (r : creditLine_row) : creditLine_row :=
  CreditLine (cl_id r) (cl_lenderId r) (cl_borrowerId r) (cl_loanCcy r) (cl_limitAmount r)
    (cl_rateBps r) (cl_feeBps r) (cl_cureWindowS r) "open" (Some contractLineId)
    (cl_agreementHash r) (cl_openedAt r) (cl_closedAt r).
Definition set_line_status (st : string) (r : creditLine_row) : creditLine_row :=
  CreditLine (cl_id r) (cl_lenderId r) (cl_borrowerId r) (cl_loanCcy r) (cl_limitAmount r)
    (cl_rateBps r) (cl_feeBps r) (cl_cureWindowS r) st (cl_contractLineId r)
    (cl_agreementHash r) (cl_openedAt r) (cl_closedAt r).
Definition set_line_closed (now : Z) (r : creditLine_row) : creditLine_row :=
  CreditLine (cl_id r) (cl_lenderId r) (cl_borrowerId r) (cl_loanCcy r) (cl_limitAmount r)
    (cl_rateBps r) (cl_feeBps r) (cl_cureWindowS r) "closed" (cl_contractLineId r)
    (cl_agreementHash r) (cl_openedAt r) (Some now).
Definition set_liquidation_done (proceeds shortfall : string) (txHashes : list string) (now : Z)
    (r : liquidation_row) : liquidation_row :=
  Schema.Liquidation (li_id r) (li_creditLineId r) (li_route r) (li_units r) (Some proceeds)
    (Some shortfall) (Some txHashes) (li_startedAt r) (Some now).
Definition set_pledge_status (st : string) (r : pledge_row) : pledge_row :=
  Pledge (pl_id r) (pl_creditLineId r) (pl_assetId r) (pl_units r) (pl_custodyMode r)
    (pl_contractPositionId r) (pl_lienRef r) st (pl_createdAt r).
Definition set_quote_status (st : string) (r : exitQuote_row) : exitQuote_row :=
  ExitQuote (eq_id r) (eq_holderId r) (eq_assetId r) (eq_units r) (eq_price r) (eq_spreadBps r)
    (eq_usdcOut r) (eq_expiresAt r) st.
Definition set_trade (units : string) (startLedger : Z) (st : string)
    (tradeId leg1 leg2 : option string) (r : repoTrade_row) : repoTrade_row :=
  RepoTrade (rt_id r) (rt_cashLenderId r) (rt_cashBorrowerId r) (rt_assetId r) units
    (rt_cashAmount r) (rt_rateBps r) (rt_kind r) startLedger (rt_maturityAt r)
    (rt_agreementHash r) st tradeId leg1 leg2.
Definition set_trade_contract (tradeId : string) (r : repoTrade_row) : repoTrade_row :=
  set_trade (rt_units r) (rt_startLedger r) (rt_status r) (Some tradeId) (rt_leg1Tx r) (rt_leg2Tx r) r.
Definition set_trade_settled (tx : string) (ledger : Z) (r : repoTrade_row) : repoTrade_row :=
  set_trade (rt_units r) ledger "settled" (rt_contractTradeId r) (Some tx) (rt_leg2Tx r) r.
Definition set_trade_unwound (tx : string) (r : repoTrade_row) : repoTrade_row :=
  set_trade (rt_units r) (rt_startLedger r) "unwound" (rt_contractTradeId r) (rt_leg1Tx r) (Some tx) r.
Definition set_trade_units (units : string) (r : repoTrade_row) : repoTrade_row :=
  set_trade units (rt_startLedger r) (rt_status r) (rt_contractTradeId r) (rt_leg1Tx r) (rt_leg2Tx r) r.
Definition set_trade_status (st : string) (r : repoTrade_row) : repoTrade_row :=
  set_trade (rt_units r) (rt_startLedger r) st (rt_contractTradeId r) (rt_leg1Tx r) (rt_leg2Tx r) r.
Definition set_call_cured (now : Z) (r : repoMarginCall_row) : repoMarginCall_row :=
  RepoMarginCall (mc_id r) (mc_tradeId r) (mc_amount r) (mc_ccy r) (mc_dueAt r) (Some now).

(** [eq(column, refId)]: SQL equality with a parameter that may be null. *)
Definition ref_is (refId : option string) (id : string) : bool := eqs_null (Some id) refId.

Definition TypeError (msg : string) : exn := Exn "TypeError" msg.
Definition undefined_read : exn := TypeError "Cannot read properties of undefined".

(** A value for a NOT NULL column. *)
Definition not_null (v : option string) : outcome string :=
  match v with Some v => Ok v | None => Err (PostgresError "null value violates not-null constraint") end.

(** ** outstandingDebt ([routes/helpers.ts]) *)
Definition sum_scaled {A} (amount : A -> string) (l : list A) : outcome Z :=
  ofold (fun sum a => n <-? decimalStringToScaled (amount a) ;; Ok (sum + n)) 0 l.

Definition outstandingDebt {Ext : Type -> Type} {Out} (creditLineId : option string) : prog Database Ext Out Z :=
  draws <- stmt (select draw (fun d => ref_is creditLineId (dr_creditLineId d))) ;;
  repayments <- stmt (select repayment (fun r => ref_is creditLineId (rp_creditLineId r))) ;;
  drawn <- lift (sum_scaled dr_amount draws) ;;
  repaid <- lift (sum_scaled rp_principal repayments) ;;
  let debt := drawn - repaid in
  Ret (if 0 <? debt then debt else 0).

(** ** applySuccess, applyFailure *)
Inductive ContractState :=
| StateLiquidation (r : OnChainLiquidationRecord)
| StateLine (l : OnChainLine)
| StateTrade (t : OnChainRepoTrade).

Definition payload_get (k : string) (intent : IntentRow) : option string :=
  assoc k (default [] (ti_payload intent)).

(** [BigInt(x)] where [x] may be [undefined]. *)
Definition BigInt_undefined (s : option string) : outcome Z :=
  match s with
  | Some s => BigInt s
  | None => Err (TypeError "Cannot convert undefined to a BigInt")
  end.

(** [xs.includes(h) ? xs : [...xs, h]]. *)
Definition add_hash (h : string) (xs : list string) : list string :=
  if existsb (eqs h) xs then xs else xs ++ [h].

(** The split of a repayment: what the line no longer owes is principal, the rest interest. *)
Definition repay_principal (before drawn amount : Z) : Z :=
  let principal := before - drawn in
  let principal := if principal <? 0 then 0 else principal in
  if amount <? principal then amount else principal.

Definition applyCloseLiquidated (intent : IntentRow) (contractState : option ContractState)
  : intent_prog unit :=
  let refId := ti_refId intent in
  line <- select_one creditLine (fun l => ref_is refId (cl_id l)) ;;
  record <- (match contractState with
             | Some (StateLiquidation r) => Ret r
             | _ =>
                 match line with
                 | None => Throw undefined_read
                 | Some l => id <- lift (BigInt_nullable (cl_contractLineId l)) ;;
                             call (ReadLiquidationRecord id)
                 end
             end) ;;
  rows <- stmt (select liquidation (fun l => ref_is refId (li_creditLineId l))) ;;
  (match order_desc li_startedAt rows with
   | [] => Ret tt
   | liq :: _ =>
       proceeds <- lift (scaledToDecimalString (ol_recovered record)) ;;
       shortfall <- lift (scaledToDecimalString (ol_shortfall record)) ;;
       stmt (update liquidation (fun l => eqs (li_id l) (li_id liq))
         (fun s => set_liquidation_done proceeds shortfall
            (add_hash (ti_txHash intent) (default [] (li_txHashes liq))) (st_now s))) ;;;
       Ret tt
   end) ;;;
  stmt (update creditLine (fun l => ref_is refId (cl_id l)) (fun s => set_line_closed (st_now s))) ;;;
  Ret tt.

Definition applyRepay (intent : IntentRow) (ledger : Z) (contractState : option ContractState)
  : intent_prog unit :=
  let refId := ti_refId intent in
  amount <- lift (BigInt_undefined (payload_get "amount" intent)) ;;
  line <- select_one creditLine (fun l => ref_is refId (cl_id l)) ;;
  before <- outstandingDebt refId ;;
  onChain <- (match contractState with
              | Some (StateLine l) => Ret l
              | _ =>
                  match line with
                  | None => Throw undefined_read
                  | Some l => id <- lift (BigInt_nullable (cl_contractLineId l)) ;; call (ReadLine id)
                  end
              end) ;;
  let principal := repay_principal before (oc_drawn onChain) amount in
  pr <- lift (scaledToDecimalString principal) ;;
  interest <- lift (scaledToDecimalString (amount - principal)) ;;
  line_id <- lift (not_null refId) ;;
  stmt (insert repayment (fun s =>
    Repayment (st_uuid s) line_id pr interest (ti_txHash intent) ledger (st_now s))).

Definition applyTopUp (intent : IntentRow) (contractState : option ContractState) : intent_prog unit :=
  let refId := ti_refId intent in
  trade <- select_one repoTrade (fun t => ref_is refId (rt_id t)) ;;
  onChain <- (match contractState with
              | Some (StateTrade t) => Ret t
              | _ =>
                  match trade with
                  | None => Throw undefined_read
                  | Some t => id <- lift (BigInt_nullable (rt_contractTradeId t)) ;; call (ReadTrade id)
                  end
              end) ;;
  units <- lift (scaledToDecimalString (ot_units onChain)) ;;
  stmt (update repoTrade (fun t => ref_is refId (rt_id t)) (fun _ => set_trade_units units)) ;;;
  if negb (ot_pendingMarginCall onChain)
  then stmt (update repoMarginCall
         (fun c => ref_is refId (mc_tradeId c) && bool_decide (mc_curedAt c = None))
         (fun s => set_call_cured (st_now s))) ;;; Ret tt
  else Ret tt.

Definition applySuccess (intent : IntentRow) (ledger : Z) (returnValue : option jsval)
    (contractState : option ContractState) : intent_prog unit :=
  let refId := ti_refId intent in
  let h := ti_txHash intent in
  match kind_of (ti_kind intent) with
  | Some credit_line_open =>
      update_row creditLine (fun l => ref_is refId (cl_id l)) (set_line_opened (js_String_opt returnValue))
  | Some credit_line_fund => Ret tt
  | Some credit_line_withdraw => Ret tt
  | Some credit_line_close_liquidated => applyCloseLiquidated intent contractState
  | Some credit_line_draw =>
      amount <- lift (BigInt_undefined (payload_get "amount" intent)) ;;
      text <- lift (scaledToDecimalString amount) ;;
      line_id <- lift (not_null refId) ;;
      stmt (insert draw (fun s => DrawRow (st_uuid s) line_id text h ledger (st_now s)))
  | Some credit_line_repay => applyRepay intent ledger contractState
  | Some pledge_create => update_row pledge (fun p => ref_is refId (pl_id p)) (set_pledge_status "active")
  | Some pledge_release => update_row pledge (fun p => ref_is refId (pl_id p)) (set_pledge_status "released")
  | Some exit_execute =>
      update_row exitQuote (fun q => ref_is refId (eq_id q)) (set_quote_status "filled") ;;;
      quote_id <- lift (not_null refId) ;;
      stmt (insert exitFill (fun s => ExitFill (st_uuid s) quote_id h "direct" None (st_now s)))
  | Some repo_propose =>
      update_row repoTrade (fun t => ref_is refId (rt_id t)) (set_trade_contract (js_String_opt returnValue))
  | Some repo_accept =>
      update_row repoTrade (fun t => ref_is refId (rt_id t)) (set_trade_settled h ledger)
  | Some repo_unwind => update_row repoTrade (fun t => ref_is refId (rt_id t)) (set_trade_unwound h)
  | Some repo_top_up => applyTopUp intent contractState
  | None => Ret tt
  end.

Definition applyFailure (intent : IntentRow) : intent_prog unit :=
  let refId := ti_refId intent in
  match kind_of (ti_kind intent) with
  | Some credit_line_open => update_row creditLine (fun l => ref_is refId (cl_id l)) (set_line_status "failed")
  | Some pledge_create => update_row pledge (fun p => ref_is refId (pl_id p)) (set_pledge_status "failed")
  | Some pledge_release => update_row pledge (fun p => ref_is refId (pl_id p)) (set_pledge_status "active")
  | Some repo_propose => update_row repoTrade (fun t => ref_is refId (rt_id t)) (set_trade_status "failed")
  | _ => Ret tt
  end.

(** ** settle *)

(** [x?.contractLineId] as a condition: present and not the empty string. *)
Definition truthy_id (s : option string) : bool := match s with Some s => negb (eqs s "") | None => false end.

Definition set_intent (st : string) (ledger : option Z) (err : option string) (settledAt : option Z)
    (r : IntentRow) : IntentRow :=
  TxIntent (ti_txHash r) (ti_kind r) (ti_refId r) (ti_partyId r) (ti_payload r) st ledger err
    (ti_createdAt r) settledAt.

Definition set_intent_error (msg : string) (r : IntentRow) : IntentRow :=
  set_intent "pending" (ti_ledger r) (Some msg) (ti_settledAt r) r.
Definition set_intent_final (st : string) (ledger : Z) (now : Z) (r : IntentRow) : IntentRow :=
  set_intent st (Some ledger) (ti_error r) (Some now) r.
Definition set_intent_expired (now : Z) (r : IntentRow) : IntentRow :=
  set_intent "expired" (ti_ledger r) (ti_error r) (Some now) r.

Definition recordSettleError (intent : IntentRow) (err : exn) : intent_prog unit :=
  catch (stmt (update txIntent (is_intent (ti_txHash intent))
           (fun _ => set_intent_error (exn_message err))) ;;; Ret tt)
        (fun _ => Ret tt).

(** The contract state an intent's effect needs, read before the transaction opens. *)
Definition readContractState (intent : IntentRow) : intent_prog (option ContractState) :=
  let refId := ti_refId intent in
  let id_of (c : option string) : intent_prog (option Z) :=
    if truthy_id c then n <- lift (BigInt_nullable c) ;; Ret (Some n) else Ret None in
  match kind_of (ti_kind intent) with
  | Some credit_line_close_liquidated =>
      line <- select_one creditLine (fun l => ref_is refId (cl_id l)) ;;
      id <- id_of (line ≫= cl_contractLineId) ;;
      match id with
      | Some n => r <- call (ReadLiquidationRecord n) ;; Ret (Some (StateLiquidation r))
      | None => Ret None
      end
  | Some credit_line_repay =>
      line <- select_one creditLine (fun l => ref_is refId (cl_id l)) ;;
      id <- id_of (line ≫= cl_contractLineId) ;;
      match id with
      | Some n => l <- call (ReadLine n) ;; Ret (Some (StateLine l))
      | None => Ret None
      end
  | Some repo_top_up =>
      trade <- select_one repoTrade (fun t => ref_is refId (rt_id t)) ;;
      id <- id_of (trade ≫= rt_contractTradeId) ;;
      match id with
      | Some n => t <- call (ReadTrade n) ;; Ret (Some (StateTrade t))
      | None => Ret None
      end
  | _ => Ret None
  end.

(** A network verdict, for a transaction that closed. *)
Inductive Verdict := Succeeded (returnValue : option jsval) | Rejected.

Definition next_status (v : Verdict) : string := match v with Succeeded _ => "settled" | Rejected => "failed" end.

(** [runWithDb]: the claim and the books in one transaction. *)
Definition runWithDb (intent : IntentRow) (v : Verdict) (ledger : Z) (contractState : option ContractState)
  : intent_prog (option SettleResult) :=
  claimed <- stmt (update txIntent
    (fun r => is_intent (ti_txHash intent) r && eqs (ti_status r) "pending")
    (fun s => set_intent_final (next_status v) ledger (st_now s))) ;;
  match claimed with
  | [] => Ret None
  | _ =>
      (match v with
       | Succeeded returnValue => applySuccess intent ledger returnValue contractState
       | Rejected => applyFailure intent
       end) ;;;
      Ret (Some (result intent (next_status v) (Some ledger)))
  end.

Record Settled := SettledR { se_result : SettleResult; se_notFound : bool }.

(** [catch (err) { await recordSettleError(db, intent, err); throw err; }]. *)
Definition settle_fail {X} (intent : IntentRow) (err : exn) : intent_prog X :=
  recordSettleError intent err ;;; Throw err.

(** [settle] once the network has given its verdict. *)
Definition settle_closed (intent : IntentRow) (v : Verdict) (ledger : Z) : intent_prog Settled :=
  contractState <- (match v with
                    | Succeeded _ => catch (readContractState intent) (settle_fail intent)
                    | Rejected => Ret None
                    end) ;;
  catch
    (settleRes <- transaction (runWithDb intent v ledger contractState) ;;
     match settleRes with
     | Some r => Ret (SettledR r false)
     | None =>
         found <- findIntent (ti_txHash intent) ;;
         let current := default intent found in
         Ret (SettledR (result current (ti_status current) (ti_ledger current)) false)
     end)
    (settle_fail intent).

Definition settle (intent : IntentRow) : intent_prog Settled :=
  if negb (eqs (ti_status intent) "pending")
  then Ret (SettledR (result intent (ti_status intent) (ti_ledger intent)) false)
  else
    outcome <- call (ChainOutcome (ti_txHash intent)) ;;
    match outcome with
    | TxNotFound => Ret (SettledR (result intent "pending" None) true)
    | TxSuccess ledger returnValue => settle_closed intent (Succeeded returnValue) ledger
    | TxFailed ledger => settle_closed intent Rejected ledger
    end.

Definition settleIntent (intent : IntentRow) : intent_prog SettleResult :=
  r <- settle intent ;; Ret (se_result r).

(** ** sweepPendingIntents *)
Definition UNSIGNED_TX_TIMEOUT_S : Z := 300.
Definition INTENT_EXPIRY_MS : Z := (UNSIGNED_TX_TIMEOUT_S + 120) * 1000.

Record Tally := Tallied { ta_settled : Z; ta_failed : Z; ta_expired : Z; ta_errors : Z }.
Definition add_settled (t : Tally) := Tallied (ta_settled t + 1) (ta_failed t) (ta_expired t) (ta_errors t).
Definition add_failed (t : Tally) := Tallied (ta_settled t) (ta_failed t + 1) (ta_expired t) (ta_errors t).
Definition add_expired (t : Tally) := Tallied (ta_settled t) (ta_failed t) (ta_expired t + 1) (ta_errors t).
Definition add_errors (t : Tally) := Tallied (ta_settled t) (ta_failed t) (ta_expired t) (ta_errors t + 1).

Definition expire (now : Z) (intent : IntentRow) : intent_prog bool :=
  claimed <- stmt (update txIntent
    (fun r => is_intent (ti_txHash intent) r && eqs (ti_status r) "pending")
    (fun _ => set_intent_expired now)) ;;
  match claimed with
  | [] => Ret false
  | _ => applyFailure intent ;;; Ret true
  end.

Definition sweep_step (now : Z) (tally : Tally) (intent : IntentRow) : intent_prog Tally :=
  r <- attempt (settle intent) ;;
  let '(status, notFound, tally) :=
    match r with
    | Ok s => (sr_status (se_result s), se_notFound s, tally)
    | Err _ => ("pending", false, add_errors tally)
    end in
  if eqs status "settled" then Ret (add_settled tally)
  else if eqs status "failed" then Ret (add_failed tally)
  else if notFound && (INTENT_EXPIRY_MS <? now - ti_createdAt intent)
  then catch
    (wroteOff <- transaction (expire now intent) ;;
     Ret (if wroteOff then add_expired tally else tally))
    (fun _ => Ret (add_errors tally))
  else Ret tally.

Definition sweepPendingIntents (now : Z) : intent_prog Tally :=
  pending <- stmt (select txIntent (fun r => eqs (ti_status r) "pending")) ;;
  fold (sweep_step now) (Tallied 0 0 0 0) pending.

(** ** routes/tx.ts.  A reply is its status code and, for a settlement, its body. *)
Definition POLL_ATTEMPTS : nat := 45.

Inductive Reply := ReplyError (code : Z) (msg : string) | ReplySettle (code : Z) (r : SettleResult).

(** The [for] loop of the submit route, [n] attempts left; the pause between two attempts changes
    nothing the program observes. *)
Fixpoint poll_settle (n : nat) (intent : IntentRow) : intent_prog Reply :=
  match n with
  | O => Ret (ReplySettle 202 (SResult (ti_txHash intent) (ti_kind intent) (ti_refId intent) "pending" None))
  | S n' =>
      r <- attempt (settleIntent intent) ;;
      match r with
      | Ok settled =>
          if negb (eqs (sr_status settled) "pending")
          then Ret (ReplySettle (if eqs (sr_status settled) "settled" then 200 else 422) settled)
          else poll_settle n' intent
      | Err err =>
          emit ("settle attempt failed; intent is still pending: " +:+ exn_message err) ;;;
          poll_settle n' intent
      end
  end.

Definition submit_route (chain_txHash : string -> outcome string) (partyId signedXdr : string)
  : intent_prog Reply :=
  if eqs signedXdr "" then Ret (ReplyError 400 "signedXdr is required")
  else match chain_txHash signedXdr with
  | Err _ => Ret (ReplyError 400 "signedXdr is not a valid transaction envelope")
  | Ok txHash =>
      found <- findIntent txHash ;;
      match found with
      | None => Ret (ReplyError 404 "not a transaction this API built for you")
      | Some intent =>
          if negb (eqs (ti_partyId intent) partyId)
          then Ret (ReplyError 404 "not a transaction this API built for you")
          else if negb (eqs (ti_status intent) "pending")
          then Ret (ReplySettle 200 (SResult txHash (ti_kind intent) (ti_refId intent) (ti_status intent) (ti_ledger intent)))
          else
            sent <- attempt (call (ChainSend signedXdr)) ;;
            match sent with
            | Err err => Ret (ReplyError 502 (exn_message err))
            | Ok _ => poll_settle POLL_ATTEMPTS intent
            end
      end
  end.

Definition settle_route (partyId hash : string) : intent_prog Reply :=
  found <- findIntent hash ;;
  match found with
  | None => Ret (ReplyError 404 "not a transaction this API built for you")
  | Some intent =>
      if negb (eqs (ti_partyId intent) partyId)
      then Ret (ReplyError 404 "not a transaction this API built for you")
      else r <- settleIntent intent ;; Ret (ReplySettle 200 r)
  end.
