(* ===== verification/IntentBooks.v ===== *)
(** What settling an intent does to the books: the effect each kind stands for, and the proof that
    [settle] applies that effect entirely or not at all. *)
From S2P Require Import Prelude Prog Schema Rules Domain Chain Intents.

(** ** The effect of a successful transaction, table by table *)

(** Every table but [txIntent] and the ones listed is as before. *)
Definition same_except (ts : list table) (d d' : Database) : Prop :=
  forall t, t <> txIntent -> ~ In t ts -> d' t = d t.

Definition rows_updated t (P : row t -> bool) (f : row t -> row t) (d d' : Database) : Prop :=
  d' t = List.map (fun r => if P r then f r else r) (d t).

Definition row_added t (good : row t -> Prop) (d d' : Database) : Prop :=
  exists r, d' t = d t ++ [r] /\ good r.

(** The draw an intent stands for: its line, its hash, its ledger and its amount. *)
Definition good_draw (intent : IntentRow) (ledger : Z) (r : draw_row) : Prop :=
  ti_refId intent = Some (dr_creditLineId r) /\ dr_txHash r = ti_txHash intent /\
  dr_ledger r = ledger /\
  exists amount, BigInt_undefined (payload_get "amount" intent) = Ok amount /\
    decimalStringToScaled (dr_amount r) = Ok amount.

(** What the line owes by the books: what was drawn less the principal repaid, never below zero. *)
Definition books_debt (refId : option string) (d : Database) : outcome Z :=
  drawn <-? sum_scaled dr_amount (List.filter (fun r => ref_is refId (dr_creditLineId r)) (d draw)) ;;
  repaid <-? sum_scaled rp_principal (List.filter (fun r => ref_is refId (rp_creditLineId r)) (d repayment)) ;;
  Ok (Z.max 0 (drawn - repaid)).

(** The repayment, on a contract that says the line [l]: principal is what the books say is owed
    beyond what the contract says is drawn, not less than zero and not more than was paid; interest
    is the rest of the amount. *)
Definition good_repayment (intent : IntentRow) (ledger : Z) (d : Database) (l : OnChainLine) (r : repayment_row) : Prop :=
  ti_refId intent = Some (rp_creditLineId r) /\ rp_txHash r = ti_txHash intent /\
  rp_ledger r = ledger /\
  exists amount debt, BigInt_undefined (payload_get "amount" intent) = Ok amount /\
    books_debt (ti_refId intent) d = Ok debt /\
    let principal := Z.min amount (Z.max 0 (debt - oc_drawn l)) in
    0 <= principal <= amount /\
    decimalStringToScaled (rp_principal r) = Ok principal /\
    decimalStringToScaled (rp_interest r) = Ok (amount - principal).

Definition good_fill (intent : IntentRow) (r : exitFill_row) : Prop :=
  ti_refId intent = Some (ef_quoteId r) /\ ef_txHash r = ti_txHash intent /\
  ef_payoutRoute r = "direct" /\ ef_payoutMemo r = None.

(** The latest liquidation of the line takes the outcome [record] the contract gave, recovered as
    proceeds and shortfall as shortfall, and lists the closing hash; a line without one has nothing
    to close. *)
Definition liquidation_closed (intent : IntentRow) (record : OnChainLiquidationRecord) (d d' : Database) : Prop :=
  let own (l : liquidation_row) := ref_is (ti_refId intent) (li_creditLineId l) = true in
  ((forall l, In l (d liquidation) -> ~ own l) /\ d' liquidation = d liquidation) \/
  exists (liq : liquidation_row) p s now,
    In liq (d liquidation) /\ own liq /\
    (forall l, In l (d liquidation) -> own l -> li_startedAt l <= li_startedAt liq) /\
    decimalStringToScaled p = Ok (ol_recovered record) /\ decimalStringToScaled s = Ok (ol_shortfall record) /\
    rows_updated liquidation (fun l => eqs (li_id l) (li_id liq))
      (set_liquidation_done p s (add_hash (ti_txHash intent) (default [] (li_txHashes liq))) now) d d'.

(** The trade of a top-up takes the units the contract gave; its open margin calls are cured exactly
    if the contract has none pending any more. *)
Definition topped_up (intent : IntentRow) (trade : OnChainRepoTrade) (d d' : Database) : Prop :=
  (exists text, decimalStringToScaled text = Ok (ot_units trade) /\
     rows_updated repoTrade (fun t => ref_is (ti_refId intent) (rt_id t)) (set_trade_units text) d d') /\
  (if ot_pendingMarginCall trade then d' repoMarginCall = d repoMarginCall
   else exists now, rows_updated repoMarginCall
     (fun c => ref_is (ti_refId intent) (mc_tradeId c) && bool_decide (mc_curedAt c = None)) (set_call_cured now) d d').

(** [says] is what is known of the contract's state when the effect is applied. *)
Definition SuccessEffect (says : ContractState -> Prop) (intent : IntentRow) (ledger : Z) (returnValue : option jsval)
    (d d' : Database) : Prop :=
  let refId := ti_refId intent in
  let h := ti_txHash intent in
  match kind_of (ti_kind intent) with
  | Some credit_line_open =>
      same_except [creditLine] d d' /\
      rows_updated creditLine (fun l => ref_is refId (cl_id l)) (set_line_opened (js_String_opt returnValue)) d d'
  | Some credit_line_close_liquidated =>
      same_except [creditLine; liquidation] d d' /\
      (exists record, says (StateLiquidation record) /\ liquidation_closed intent record d d') /\
      exists now, rows_updated creditLine (fun l => ref_is refId (cl_id l)) (set_line_closed now) d d'
  | Some credit_line_draw => same_except [draw] d d' /\ row_added draw (good_draw intent ledger) d d'
  | Some credit_line_repay =>
      same_except [repayment] d d' /\
      exists l, says (StateLine l) /\ row_added repayment (good_repayment intent ledger d l) d d'
  | Some pledge_create =>
      same_except [pledge] d d' /\
      rows_updated pledge (fun p => ref_is refId (pl_id p)) (set_pledge_status "active") d d'
  | Some pledge_release =>
      same_except [pledge] d d' /\
      rows_updated pledge (fun p => ref_is refId (pl_id p)) (set_pledge_status "released") d d'
  | Some exit_execute =>
      same_except [exitQuote; exitFill] d d' /\
      rows_updated exitQuote (fun q => ref_is refId (eq_id q)) (set_quote_status "filled") d d' /\
      row_added exitFill (good_fill intent) d d'
  | Some repo_propose =>
      same_except [repoTrade] d d' /\
      rows_updated repoTrade (fun t => ref_is refId (rt_id t)) (set_trade_contract (js_String_opt returnValue)) d d'
  | Some repo_accept =>
      same_except [repoTrade] d d' /\
      rows_updated repoTrade (fun t => ref_is refId (rt_id t)) (set_trade_settled h ledger) d d'
  | Some repo_unwind =>
      same_except [repoTrade] d d' /\
      rows_updated repoTrade (fun t => ref_is refId (rt_id t)) (set_trade_unwound h) d d'
  | Some repo_top_up =>
      same_except [repoTrade; repoMarginCall] d d' /\
      exists trade, says (StateTrade trade) /\ topped_up intent trade d d'
  | Some credit_line_fund | Some credit_line_withdraw | None => same_except [] d d'
  end.

(** The effect of a transaction the network rejected, and of one written off. *)
Definition FailureEffect (intent : IntentRow) (d d' : Database) : Prop :=
  let refId := ti_refId intent in
  match kind_of (ti_kind intent) with
  | Some credit_line_open =>
      same_except [creditLine] d d' /\
      rows_updated creditLine (fun l => ref_is refId (cl_id l)) (set_line_status "failed") d d'
  | Some pledge_create =>
      same_except [pledge] d d' /\
      rows_updated pledge (fun p => ref_is refId (pl_id p)) (set_pledge_status "failed") d d'
  | Some pledge_release =>
      same_except [pledge] d d' /\
      rows_updated pledge (fun p => ref_is refId (pl_id p)) (set_pledge_status "active") d d'
  | Some repo_propose =>
      same_except [repoTrade] d d' /\
      rows_updated repoTrade (fun t => ref_is refId (rt_id t)) (set_trade_status "failed") d d'
  | _ => same_except [] d d'
  end.

Definition EffectOn (says : ContractState -> Prop) (intent : IntentRow) (v : Verdict) (ledger : Z) (d d' : Database) : Prop :=
  match v with
  | Succeeded rv => SuccessEffect says intent ledger rv d d'
  | Rejected => FailureEffect intent d d'
  end.

(** The effect on whatever state the contract may be in. *)
Definition anything (_ : ContractState) : Prop := True.
Notation Effect := (EffectOn anything).

Notation intent_log := (list (entry IntentCall string)).

(** What the contract answered, by the log, when it was asked for the line or trade the intent is
    about, under the number the books have for it. *)
Definition contract_said (intent : IntentRow) (d : Database) (log : intent_log) (cs : ContractState) : Prop :=
  let refId := ti_refId intent in
  match cs with
  | StateLine l => exists line id, In line (d creditLine) /\ ref_is refId (cl_id line) = true /\
      BigInt_nullable (cl_contractLineId line) = Ok id /\ In (ECall (ReadLine id) (Ok l)) log
  | StateLiquidation rec => exists line id, In line (d creditLine) /\ ref_is refId (cl_id line) = true /\
      BigInt_nullable (cl_contractLineId line) = Ok id /\ In (ECall (ReadLiquidationRecord id) (Ok rec)) log
  | StateTrade t => exists trade id, In trade (d repoTrade) /\ ref_is refId (rt_id trade) = true /\
      BigInt_nullable (rt_contractTradeId trade) = Ok id /\ In (ECall (ReadTrade id) (Ok t)) log
  end.

(** ** The operations have those effects *)
Lemma same_except_refl ts d : same_except ts d d.
Proof. done. Qed.

Lemma same_except_set ts t l d d1 :
  In t ts -> same_except ts d d1 -> same_except ts d (set_table t l d1).
Proof.
  intros Ht H t' Hi Hn. rewrite set_table_other; [by apply H|]. by intros ->.
Qed.

Lemma ref_is_Some refId id : not_null refId = Ok id -> refId = Some id.
Proof. destruct refId; simpl; congruence. Qed.

(** The code's split is the one the specification names. *)
Lemma repay_principal_spec before drawn amount :
  0 <= amount -> repay_principal before drawn amount = Z.min amount (Z.max 0 (before - drawn)).
Proof.
  unfold repay_principal. intros H. destruct (Z.ltb_spec (before - drawn) 0);
    [destruct (Z.ltb_spec amount 0)|destruct (Z.ltb_spec amount (before - drawn))]; lia.
Qed.

Lemma repay_principal_printable before drawn amount p i :
  scaledToDecimalString (repay_principal before drawn amount) = Ok p ->
  scaledToDecimalString (amount - repay_principal before drawn amount) = Ok i ->
  0 <= repay_principal before drawn amount <= amount.
Proof. intros Hp%money_print_nonneg Hi%money_print_nonneg. lia. Qed.

Lemma contract_said_later intent d log more cs :
  contract_said intent d log cs -> contract_said intent d (log ++ more) cs.
Proof.
  destruct cs; cbn; intros (x & id & ? & ? & ? & Hin); exists x, id; repeat (split; [done|]); apply in_app_iff; by left.
Qed.

(** What is known of the contract once it was read, with the state [handed] in from an earlier read. *)
Definition known (handed : option ContractState) (intent : IntentRow) (d : Database) (log : intent_log) (c : ContractState) : Prop :=
  handed = Some c \/ contract_said intent d log c.

Lemma known_later handed intent d log more c :
  known handed intent d log c -> known handed intent d (log ++ more) c.
Proof. intros [?|H]; [by left|right; by apply contract_said_later]. Qed.

Create HintDb books.
#[export] Hint Resolve same_except_refl same_except_set in_eq in_cons ref_is_Some money_parse_print
  money_print_nonneg repay_principal_printable : books.

Section Effects.
Context (Adm : @admissible IntentCall).
Notation world := intent_world.
Implicit Types w : world.

Definition ok_at {A} (P : A -> world -> Prop) (r : outcome A) (w' : world) : Prop :=
  match r with Ok a => P a w' | Err _ => True end.

Lemma wp_at_seq {A B} (p : intent_prog A) (k : A -> intent_prog B) P Q w :
  wp Adm p (ok_at P) w -> (forall a w', P a w' -> wp Adm (k a) (ok_at Q) w') -> wp Adm (bind p k) (ok_at Q) w.
Proof. intros Hp Hk. apply wp_bind. eapply wp_mono; [|exact Hp]. intros [a|x] w'; [apply Hk|done]. Qed.

Lemma wp_outstandingDebt refId w :
  wp Adm (outstandingDebt refId) (ok_at (fun debt w' => w_db w' = w_db w /\ books_debt refId (w_db w) = Ok debt)) w.
Proof.
  unfold outstandingDebt, books_debt. wp_step. wp_step; [done|]. wp_step. wp_step; [done|]. world_simpl.
  wp_step. wp_step. destruct (sum_scaled dr_amount _) as [drawn|]; [|done]. wp_step. wp_step.
  destruct (sum_scaled rp_principal _) as [repaid|]; [|done]. cbn. split; [done|]. f_equal.
  destruct (Z.ltb_spec 0 (drawn - repaid)); lia.
Qed.

Lemma wp_select_one_at t (P : row t -> bool) w :
  wp Adm (select_one t P) (ok_at (fun o w' => w_db w' = w_db w /\ forall r, o = Some r -> In r (w_db w t) /\ P r = true)) w.
Proof.
  unfold select_one. wp_step. wp_step; [done|]. cbn. split; [done|]. intros r Hr.
  destruct (List.filter P (w_db w t)) as [|r0 rs] eqn:E; [done|]. injection Hr as <-.
  apply filter_In. rewrite E. by left.
Qed.

(** A contract read, and what is done with what it gave: the state read is on the log in the end. *)
Lemma wp_known_seq {A B} (got : A -> ContractState) (p : intent_prog A) (k : A -> intent_prog B) handed intent d
    (P : A -> B -> Database -> Prop) w :
  wp Adm p (ok_at (fun a w' => w_db w' = w_db w /\ known handed intent d (w_log w') (got a))) w ->
  (forall a w', w_db w' = w_db w -> wp Adm (k a) (ok_db (P a)) w') ->
  wp Adm (bind p k) (ok_at (fun b w' => exists a, known handed intent d (w_log w') (got a) /\ P a b (w_db w'))) w.
Proof.
  intros Hp Hk. eapply wp_at_seq; [exact Hp|]. intros a w' [Hd Hs].
  eapply wp_mono; [|apply wp_and; [apply Hk, Hd|apply wp_grown]].
  intros [b|x] w2 [HP [l Hl]]; [|done]. exists a. split; [|exact HP]. rewrite Hl. by apply known_later.
Qed.

(** Asking the contract for the line or trade of a row on file. *)
Lemma wp_ask {A} (got : A -> ContractState) (c : Z -> IntentCall A) number handed intent d w :
  w_db w = d ->
  (forall id a log, BigInt_nullable number = Ok id -> In (ECall (c id) (Ok a)) log -> contract_said intent d log (got a)) ->
  wp Adm (id <- lift (BigInt_nullable number) ;; call (c id))
    (ok_at (fun a w' => w_db w' = d /\ known handed intent d (w_log w') (got a))) w.
Proof.
  intros <- Hc. wp_step. wp_step. destruct (BigInt_nullable number) as [id|] eqn:E; [|done]. wp_step.
  destruct r as [a|]; [|done]. cbn. split; [done|]. right. eapply Hc; [done|]. apply in_app_iff. right. by left.
Qed.

Definition keeps_intents (d d' : Database) : Prop := d' txIntent = d txIntent.

Lemma keeps_intents_set t l d d1 : t <> txIntent -> keeps_intents d d1 -> keeps_intents d (set_table t l d1).
Proof. intros Ht H. unfold keeps_intents. by rewrite set_table_other. Qed.

(** Close a goal on the tables of a database built by [set_table]. *)
Ltac tables := unfold keeps_intents, rows_updated in *; rewrite ?set_table_same, ?set_table_other by done; eauto with books.

Lemma order_desc_latest {A} (key : A -> Z) l a rest :
  order_desc key l = a :: rest -> forall b, In b l -> key b <= key a.
Proof.
  assert (Hhd : forall m, match order_desc key m with [] => m = [] | a :: _ => forall b, In b m -> key b <= key a end).
  { induction m as [|c m IH]; [done|]. cbn. unfold order_desc in *. destruct (foldr _ [] m) as [|a' rest']; cbn.
    - subst m. intros b [->|[]]. lia.
    - destruct (Z.ltb_spec (key c) (key a')); intros b [->|Hb]; try lia; specialize (IH _ Hb); lia. }
  intros E. specialize (Hhd l). by rewrite E in Hhd.
Qed.

Lemma wp_applyRepay intent ledger cs w :
  wp Adm (applyRepay intent ledger cs)
    (ok_at (fun _ w' => same_except [repayment] (w_db w) (w_db w') /\
       (exists l, known cs intent (w_db w) (w_log w') (StateLine l) /\
          row_added repayment (good_repayment intent ledger (w_db w) l) (w_db w) (w_db w')) /\
       keeps_intents (w_db w) (w_db w'))) w.
Proof.
  unfold applyRepay. wp_step. wp_step. destruct (BigInt_undefined _) as [amount|] eqn:Ha; [|done].
  eapply wp_at_seq; [apply wp_select_one_at|]. intros line w1 [H1 Hline].
  eapply wp_at_seq; [apply wp_outstandingDebt|]. intros before w2 [H2 Hdebt]. rewrite H1 in *.
  eapply wp_mono; [|apply (wp_known_seq StateLine _ _ cs intent (w_db w) (fun l _ d' => same_except [repayment] (w_db w) d' /\
       row_added repayment (good_repayment intent ledger (w_db w) l) (w_db w) d' /\ keeps_intents (w_db w) d'))].
  - intros [b|x] w'; [|done]. intros (l & ? & ? & ? & ?). split; [done|]. split; [by exists l|done].
  - rewrite H2. assert (Hask : forall handed, wp Adm (match line with
        | None => Throw undefined_read
        | Some l => id <- lift (BigInt_nullable (cl_contractLineId l)) ;; call (ReadLine id) end)
        (ok_at (fun a w' => w_db w' = w_db w /\ known handed intent (w_db w) (w_log w') (StateLine a))) w2).
    { intros handed. destruct line as [l|]; [|done]. apply wp_ask; [done|]. intros id a log E Hin. cbn. by exists l, id; destruct (Hline l). }
    destruct cs as [[]|]; try apply Hask. cbn. split; [done|by left].
  - intros onChain w3 H3. rewrite H2 in H3. apply wp_lift_seq. intros p Hp. apply wp_lift_seq. intros i Hi.
    apply wp_lift_seq. intros l Hl. apply wp_insert_ok. intros s. rewrite H3.
    pose proof (repay_principal_printable _ _ _ _ _ Hp Hi) as Hb.
    split; [eauto with books|]. split; [|tables]. eexists. split; [tables|].
    unfold good_repayment. simpl. split; [by apply ref_is_Some|]. split; [done|]. split; [done|].
    exists amount, before. rewrite <- repay_principal_spec by lia.
    split; [done|]. split; [done|]. split; [done|]. split; by apply money_parse_print.
Qed.

Lemma order_desc_nil {A} (key : A -> Z) l : order_desc key l = [] -> l = [].
Proof.
  destruct l as [|c m]; [done|]. unfold order_desc. cbn. destruct (foldr (insert_desc key) [] m) as [|a rest]; [done|].
  cbn. by destruct (_ <? _).
Qed.

(** The liquidation the code picks is the latest, and takes what the contract recorded. *)
Lemma wp_close_liquidation intent record w :
  wp Adm (rows <- stmt (select liquidation (fun l => ref_is (ti_refId intent) (li_creditLineId l))) ;;
    (match order_desc li_startedAt rows with
     | [] => Ret tt
     | liq :: _ =>
         proceeds <- lift (scaledToDecimalString (ol_recovered record)) ;;
         shortfall <- lift (scaledToDecimalString (ol_shortfall record)) ;;
         stmt (update liquidation (fun l => eqs (li_id l) (li_id liq))
           (fun s => set_liquidation_done proceeds shortfall
              (add_hash (ti_txHash intent) (default [] (li_txHashes liq))) (st_now s))) ;;;
         Ret tt
     end) ;;;
    stmt (update creditLine (fun l => ref_is (ti_refId intent) (cl_id l)) (fun s => set_line_closed (st_now s))) ;;;
    Ret tt)
    (ok_db (fun _ d' => same_except [creditLine; liquidation] (w_db w) d' /\ liquidation_closed intent record (w_db w) d' /\
       (exists now, rows_updated creditLine (fun l => ref_is (ti_refId intent) (cl_id l))
          (set_line_closed now) (w_db w) d') /\ keeps_intents (w_db w) d')) w.
Proof.
  apply wp_select_seq. intros w3 H3.
  apply wp_seq with (Q := fun _ d' => same_except [liquidation] (w_db w) d' /\
     liquidation_closed intent record (w_db w) d' /\ d' creditLine = w_db w creditLine /\ keeps_intents (w_db w) d').
  - destruct (order_desc _ _) as [|liq ls] eqn:Eo.
    { simpl. rewrite H3. split; [done|]. split; [left|done]. split; [|done]. intros l Hl Hown.
      assert (Hin : In l (List.filter (fun l : row liquidation => ref_is (ti_refId intent) (li_creditLineId l)) (w_db w liquidation)))
        by (by apply filter_In).
      by rewrite (order_desc_nil _ _ Eo) in Hin. }
    assert (Hin : In liq (liq :: ls)) by (by left). rewrite <- Eo in Hin.
    apply In_order_desc, filter_In in Hin as [Hin Href].
    apply wp_lift_seq. intros p Hp. apply wp_lift_seq. intros sh Hs.
    apply wp_update_seq. intros s l w4 H4. cbn [wp ok_db]. rewrite H4, H3.
    split; [eauto with books|]. split; [|split; tables].
    right. exists liq, p, sh, (st_now s). split; [done|]. split; [done|]. split.
    { intros l' Hl' Hown. apply (order_desc_latest _ _ _ _ Eo). by apply filter_In. }
    repeat (split; [by eauto with books|]). tables.
  - intros _ w4 (Hs & Hl & Hc & Hk). apply wp_update_seq. intros s l w5 H5. cbn [wp ok_db]. rewrite H5.
    split; [|split; [|split]].
    + intros t Ht Hn. rewrite set_table_other; [apply Hs; simpl in *; naive_solver|].
      intros <-. apply Hn. by left.
    + unfold liquidation_closed, rows_updated in *. by rewrite set_table_other.
    + exists (st_now s). unfold rows_updated. by rewrite set_table_same, Hc.
    + by apply keeps_intents_set.
Qed.

Lemma wp_applyCloseLiquidated intent cs w :
  wp Adm (applyCloseLiquidated intent cs)
    (ok_at (fun _ w' => same_except [creditLine; liquidation] (w_db w) (w_db w') /\
       (exists record, known cs intent (w_db w) (w_log w') (StateLiquidation record) /\
          liquidation_closed intent record (w_db w) (w_db w')) /\
       (exists now, rows_updated creditLine (fun l => ref_is (ti_refId intent) (cl_id l))
          (set_line_closed now) (w_db w) (w_db w')) /\ keeps_intents (w_db w) (w_db w'))) w.
Proof.
  unfold applyCloseLiquidated. eapply wp_at_seq; [apply wp_select_one_at|]. intros line w1 [H1 Hline].
  eapply wp_mono; [|apply (wp_known_seq StateLiquidation _ _ cs intent (w_db w) (fun record _ d' =>
       same_except [creditLine; liquidation] (w_db w) d' /\ liquidation_closed intent record (w_db w) d' /\
       (exists now, rows_updated creditLine (fun l => ref_is (ti_refId intent) (cl_id l))
          (set_line_closed now) (w_db w) d') /\ keeps_intents (w_db w) d'))].
  - intros [b|x] w'; [|done]. intros (l & ? & ? & ? & ?). split; [done|]. split; [by exists l|done].
  - rewrite H1. assert (Hask : forall handed, wp Adm (match line with
        | None => Throw undefined_read
        | Some l => id <- lift (BigInt_nullable (cl_contractLineId l)) ;; call (ReadLiquidationRecord id) end)
        (ok_at (fun a w' => w_db w' = w_db w /\ known handed intent (w_db w) (w_log w') (StateLiquidation a))) w1).
    { intros handed. destruct line as [l|]; [|done]. apply wp_ask; [done|]. intros id a log E Hin. cbn. by exists l, id; destruct (Hline l). }
    destruct cs as [[]|]; try apply Hask. cbn. split; [done|by left].
  - intros record w2 H2. rewrite H1 in H2. rewrite <- H2. apply wp_close_liquidation.
Qed.

Lemma wp_applyTopUp intent cs w :
  wp Adm (applyTopUp intent cs)
    (ok_at (fun _ w' => same_except [repoTrade; repoMarginCall] (w_db w) (w_db w') /\
       (exists trade, known cs intent (w_db w) (w_log w') (StateTrade trade) /\ topped_up intent trade (w_db w) (w_db w')) /\
       keeps_intents (w_db w) (w_db w'))) w.
Proof.
  unfold applyTopUp. eapply wp_at_seq; [apply wp_select_one_at|]. intros trade w1 [H1 Htrade].
  eapply wp_mono; [|apply (wp_known_seq StateTrade _ _ cs intent (w_db w) (fun t _ d' =>
       same_except [repoTrade; repoMarginCall] (w_db w) d' /\ topped_up intent t (w_db w) d' /\ keeps_intents (w_db w) d'))].
  - intros [b|x] w'; [|done]. intros (t & ? & ? & ? & ?). split; [done|]. split; [by exists t|done].
  - rewrite H1. assert (Hask : forall handed, wp Adm (match trade with
        | None => Throw undefined_read
        | Some t => id <- lift (BigInt_nullable (rt_contractTradeId t)) ;; call (ReadTrade id) end)
        (ok_at (fun a w' => w_db w' = w_db w /\ known handed intent (w_db w) (w_log w') (StateTrade a))) w1).
    { intros handed. destruct trade as [t|]; [|done]. apply wp_ask; [done|]. intros id a log E Hin. cbn. by exists t, id; destruct (Htrade t). }
    destruct cs as [[]|]; try apply Hask. cbn. split; [done|by left].
  - intros onChain w2 H2. rewrite H1 in H2. apply wp_lift_seq. intros units Hu. apply wp_update_seq.
    intros s l w3 H3. rewrite H2 in H3. unfold topped_up.
    wp_step; [apply wp_update_seq; intros s' l' w4 H4; rewrite H3 in H4|]; cbn [wp ok_db].
    + apply negb_true_iff in E. rewrite E, H4. split; [eauto with books|]. split; [split|tables].
      * exists units. split; [eauto with books|tables].
      * exists (st_now s'). tables.
    + apply negb_false_iff in E. rewrite E, H3. split; [eauto with books|]. split; [split|]; [|tables..].
      exists units. split; [eauto with books|tables].
Qed.

(** An effect that rests on nothing the contract said. *)
Lemma wp_plain (p : intent_prog unit) (Q : world -> Prop) w :
  wp Adm p (ok_db (fun _ d' => forall w', w_db w' = d' -> Q w')) w -> wp Adm p (ok_at (fun _ w' => Q w')) w.
Proof. intros Hp. eapply wp_mono; [|exact Hp]. intros [[]|x] w'; cbn; auto. Qed.

Lemma wp_applySuccess intent ledger rv cs w :
  wp Adm (applySuccess intent ledger rv cs)
    (ok_at (fun _ w' => SuccessEffect (known cs intent (w_db w) (w_log w')) intent ledger rv (w_db w) (w_db w') /\
       keeps_intents (w_db w) (w_db w'))) w.
Proof.
  unfold applySuccess, SuccessEffect. destruct (kind_of _) as [[]|]; try done;
    try (apply wp_plain, wp_update_row; intros w' ->; split; [split; [eauto with books|tables]|tables]; fail).
  - eapply wp_mono; [|apply wp_applyCloseLiquidated]. intros [[]|x] w'; simpl; tauto.
  - apply wp_plain, wp_lift_seq. intros amount Ha. apply wp_lift_seq. intros text Ht. apply wp_lift_seq.
    intros l Hl. apply wp_insert_ok. intros s w' ->. split; [split; [eauto with books|]|tables].
    eexists. split; [tables|]. unfold good_draw. simpl. repeat (split; [by eauto with books|]).
    exists amount. eauto with books.
  - eapply wp_mono; [|apply wp_applyRepay]. intros [[]|x] w'; simpl; tauto.
  - apply wp_plain, wp_update_row_seq. intros w1 H1. apply wp_lift_seq. intros q Hq. apply wp_insert_ok.
    intros s w' ->. rewrite H1. split; [split; [|split]|tables]; [by eauto 10 with books|tables|].
    eexists. split; [tables|]. unfold good_fill. simpl. eauto with books.
  - eapply wp_mono; [|apply wp_applyTopUp]. intros [[]|x] w'; simpl; tauto.
Qed.

Lemma wp_applyFailure intent w :
  wp Adm (applyFailure intent)
    (ok_db (fun _ d' => FailureEffect intent (w_db w) d' /\ keeps_intents (w_db w) d')) w.
Proof.
  unfold applyFailure, FailureEffect. destruct (kind_of _) as [[]|]; try done;
    apply wp_update_row; (split; [split; [eauto with books|tables]|tables]).
Qed.

(** ** One settlement *)
Definition same_db (d d' : Database) : Prop := forall t, d' t = d t.

Definition is_pending (h : string) (r : IntentRow) : bool := is_intent h r && eqs (ti_status r) "pending".

(** The intent moved to its final status and its whole effect is in the books. *)
Definition MovedOn (says : ContractState -> Prop) (intent : IntentRow) (v : Verdict) (ledger : Z) (d d' : Database) : Prop :=
  (exists r, In r (d txIntent) /\ is_pending (ti_txHash intent) r = true) /\
  (exists now, rows_updated txIntent (is_pending (ti_txHash intent))
     (set_intent_final (next_status v) ledger now) d d') /\
  EffectOn says intent v ledger d d'.
Notation Moved := (MovedOn anything).

(** [recordSettleError] took effect: the books are as before, the intent is pending. *)
Definition Reopened (intent : IntentRow) (d d' : Database) : Prop :=
  same_except [] d d' /\
  exists msg, rows_updated txIntent (is_intent (ti_txHash intent)) (set_intent_error msg) d d'.

(** What the network said about the transaction. *)
Definition answered (h : string) (v : Verdict) (ledger : Z) (log : list (entry IntentCall string)) : Prop :=
  match v with
  | Succeeded rv => In (ECall (ChainOutcome h) (Ok (TxSuccess ledger rv))) log
  | Rejected => In (ECall (ChainOutcome h) (Ok (TxFailed ledger))) log
  end.

Lemma same_except_weaken ts d d' : same_except [] d d' -> same_except ts d d'.
Proof. intros H t Ht _. apply H; [done|intros []]. Qed.

Lemma same_except_trans ts d d1 d' : same_except ts d d1 -> same_except ts d1 d' -> same_except ts d d'.
Proof. intros H1 H2 t Ht Hn. rewrite H2, H1; done. Qed.

(** An effect only looks at and only changes the tables other than [txIntent]. *)
Lemma Effect_ext says intent v ledger d d1 d' :
  same_except [] d d1 -> EffectOn says intent v ledger d1 d' -> EffectOn says intent v ledger d d'.
Proof.
  intros H. assert (Hs : forall ts, same_except ts d1 d' -> same_except ts d d').
  { intros ts H1. eapply same_except_trans; [by apply same_except_weaken|done]. }
  assert (Ht : forall t, t <> txIntent -> d1 t = d t) by (intros t Ht; apply H; [done|naive_solver]).
  destruct v as [rv|]; simpl; [unfold SuccessEffect|unfold FailureEffect];
    destruct (kind_of _) as [[]|]; unfold liquidation_closed, topped_up, good_repayment, books_debt, rows_updated, row_added;
    rewrite ?Ht by done; first [exact (Hs _) | intros [H1 H2]; split; [by apply Hs|exact H2]].
Qed.

Lemma Effect_mono (says says' : ContractState -> Prop) intent v ledger d d' :
  (forall c, says c -> says' c) -> EffectOn says intent v ledger d d' -> EffectOn says' intent v ledger d d'.
Proof. intros H. destruct v; cbn; [|done]. unfold SuccessEffect. destruct (kind_of _) as [[]|]; naive_solver. Qed.

Lemma Moved_mono (says says' : ContractState -> Prop) intent v ledger d d' :
  (forall c, says c -> says' c) -> MovedOn says intent v ledger d d' -> MovedOn says' intent v ledger d d'.
Proof. intros H (Hp & Hu & He). split; [done|]. split; [done|]. by eapply Effect_mono. Qed.

Lemma known_ext handed intent d d1 log c : same_except [] d d1 -> known handed intent d1 log c -> known handed intent d log c.
Proof.
  intros H [?|Hc]; [by left|right]. assert (Ht : forall t, t <> txIntent -> d1 t = d t) by (intros t Ht; apply H; [done|naive_solver]).
  unfold contract_said in *. by destruct c; rewrite Ht in Hc.
Qed.

Lemma pending_row h l :
  List.filter (is_pending h) l <> [] -> exists r, In r l /\ is_pending h r = true.
Proof.
  destruct (List.filter (is_pending h) l) as [|r rs] eqn:E; [done|]. intros _.
  exists r. apply filter_In. rewrite E. by left.
Qed.

Lemma wp_runWithDb_known intent v ledger cs w :
  wp Adm (runWithDb intent v ledger cs)
    (ok_at (fun o w' => match o with
       | None => same_db (w_db w) (w_db w')
       | Some r => r = result intent (next_status v) (Some ledger) /\
           MovedOn (known cs intent (w_db w) (w_log w')) intent v ledger (w_db w) (w_db w')
       end)) w.
Proof.
  unfold runWithDb.
  change (fun r : row txIntent => is_intent (ti_txHash intent) r && eqs (ti_status r) "pending")
    with (is_pending (ti_txHash intent)).
  wp_step. wp_step; [done|]. intros s. split; [|done]. cbn [row] in *.
  destruct (List.filter (is_pending (ti_txHash intent)) (w_db w txIntent)) as [|r0 rs] eqn:Ef.
  - simpl. intros t. world_simpl. destruct (decide (t = txIntent)) as [->|Ht];
      [rewrite set_table_same; by apply map_if_filter_nil|by rewrite set_table_other].
  - destruct (pending_row (ti_txHash intent) (w_db w txIntent)) as (r & Hr & Hp); [by rewrite Ef|].
    cbn [List.map].
    match goal with |- context [after w ?d] => set (d1 := d) end.
    assert (Hd1 : same_except [] (w_db w) d1).
    { intros t Ht _. subst d1. by rewrite set_table_other. }
    assert (Hfin : forall w', EffectOn (known cs intent d1 (w_log w')) intent v ledger d1 (w_db w') -> keeps_intents d1 (w_db w') ->
      MovedOn (known cs intent (w_db w) (w_log w')) intent v ledger (w_db w) (w_db w')).
    { intros w' He Hk. split; [by exists r|]. split; [|eapply Effect_ext, Effect_mono; [done| |done]; intros c; by apply known_ext].
      exists (st_now s). unfold rows_updated. rewrite Hk. subst d1. by rewrite set_table_same. }
    eapply (wp_at_seq _ _ (fun _ w' => EffectOn (known cs intent d1 (w_log w')) intent v ledger d1 (w_db w') /\ keeps_intents d1 (w_db w'))).
    + destruct v; (eapply wp_mono; [|first [apply wp_applySuccess|apply wp_applyFailure]]); by intros [[]|x] w'.
    + intros [] w' [He Hk]. simpl. split; [done|]. by apply Hfin.
Qed.

Lemma wp_runWithDb intent v ledger cs w :
  wp Adm (runWithDb intent v ledger cs)
    (ok_db (fun o d' => match o with
       | None => same_db (w_db w) d'
       | Some r => r = result intent (next_status v) (Some ledger) /\ Moved intent v ledger (w_db w) d'
       end)) w.
Proof.
  eapply wp_mono; [|apply wp_runWithDb_known]. intros [[r|]|x] w'; [|done..]. intros [-> H]. split; [done|]. by eapply Moved_mono.
Qed.

(** How a settlement that threw may have left the database. *)
Definition ThrewOn (says : ContractState -> Prop) (intent : IntentRow) (d d' : Database) : Prop :=
  exists d1, (same_db d d1 \/ adm_lost_ack Adm /\ exists v ledger, MovedOn says intent v ledger d d1) /\
    (same_db d1 d' \/ Reopened intent d1 d').

Lemma wp_settle_fail {X} says intent err d (Q : outcome X -> world -> Prop) w :
  (same_db d (w_db w) \/ adm_lost_ack Adm /\ exists v ledger, MovedOn says intent v ledger d (w_db w)) ->
  (forall w', w_log w' = w_log w -> ThrewOn says intent d (w_db w') -> Q (Err err) w') ->
  wp Adm (settle_fail intent err) Q w.
Proof.
  intros H HQ. unfold settle_fail, recordSettleError.
  assert (Hsame : forall w', w_db w' = w_db w -> w_log w' = w_log w -> Q (Err err) w').
  { intros w' Hw Hl. apply HQ; [done|]. exists (w_db w). split; [done|]. left. by rewrite Hw. }
  assert (Hre : Q (Err err) (after w (set_table txIntent (List.map
    (fun r => if is_intent (ti_txHash intent) r then set_intent_error (exn_message err) r else r)
    (w_db w txIntent)) (w_db w)))).
  { apply HQ; [done|]. exists (w_db w). split; [done|]. right. split.
    - intros t Ht _. world_simpl. by rewrite set_table_other.
    - exists (exn_message err). unfold rows_updated. world_simpl. by rewrite set_table_same. }
  wp_step. wp_step. wp_step. wp_step; [intros x; cbn; by apply Hsame|].
  intros _. split; [exact Hre|intros x; exact Hre].
Qed.

(** Reading contract state changes nothing, and what is handed on was read. *)
Lemma wp_readContractState intent w :
  wp Adm (readContractState intent) (fun r w' => w_db w' = w_db w /\
    match r with Ok (Some c) => contract_said intent (w_db w) (w_log w') c | _ => True end) w.
Proof.
  unfold readContractState. destruct (kind_of _) as [[]|]; try done; unfold select_one;
    (wp_step; wp_step; wp_step; [done|]; wp_step; cbn [hd_error];
     match goal with |- context [List.filter ?P ?l] => destruct (List.filter P l) as [|x0 xs] eqn:Ef; [done|];
       assert (Hx : In x0 l /\ P x0 = true) by (apply (proj1 (filter_In P x0 l)); rewrite Ef; by left) end;
     cbn [hd_error mbind option_bind]; wp_step; wp_step; [|done]; wp_step; wp_step;
     destruct (BigInt_nullable _) as [id|] eqn:Eid; [|done]; wp_step; wp_step; wp_step; destruct r as [a|x]; [|done];
     wp_step; split; [done|]; cbn [contract_said]; exists x0, id; destruct Hx; repeat (split; [done|]);
     apply in_app_iff; right; by left).
Qed.

(** What is left when a settlement comes back. *)
Definition settled_on (intent : IntentRow) (v : Verdict) (ledger : Z) (d : Database) (r : outcome Settled) (w' : world) : Prop :=
  match r with
  | Ok s => (same_db d (w_db w') /\ se_notFound s = false) \/
      s = SettledR (result intent (next_status v) (Some ledger)) false /\
      MovedOn (contract_said intent d (w_log w')) intent v ledger d (w_db w')
  | Err _ => ThrewOn (contract_said intent d (w_log w')) intent d (w_db w')
  end.

Lemma wp_settle_closed intent v ledger w :
  wp Adm (settle_closed intent v ledger) (settled_on intent v ledger (w_db w)) w.
Proof.
  unfold settle_closed. wp_step.
  assert (Hfail : forall {X} x w' (Q : outcome X -> world -> Prop), (same_db (w_db w) (w_db w') \/
      adm_lost_ack Adm /\ exists v ledger, MovedOn (contract_said intent (w_db w) (w_log w')) intent v ledger (w_db w) (w_db w')) ->
    (forall y w2, ThrewOn (contract_said intent (w_db w) (w_log w2)) intent (w_db w) (w_db w2) -> Q (Err y) w2) ->
    wp Adm (settle_fail intent x) Q w').
  { intros X x w' Q Hw HQ. eapply wp_settle_fail; [exact Hw|]. intros w2 <-. apply HQ. }
  apply (wp_mono _ _ (fun r w' => match r with
    | Ok cs => w_db w' = w_db w /\ match cs with Some c => contract_said intent (w_db w) (w_log w') c | None => True end
    | Err _ => ThrewOn (contract_said intent (w_db w) (w_log w')) intent (w_db w) (w_db w') end)).
  2:{ destruct v; [|done]. wp_step. eapply wp_mono; [|apply wp_readContractState].
      intros [cs|x] w' [Hw Hc]; [done|]. apply Hfail; [left; by rewrite Hw|done]. }
  intros [cs|x] w1; [|done]. intros [H1 Hcs].
  wp_step. wp_step. wp_step. eapply wp_mono; [|apply wp_and; [apply wp_runWithDb_known|apply wp_grown]]. rewrite H1.
  intros [[r|]|x] w2 [H2 [l Hl]]; simpl in H2.
  - destruct H2 as [-> H2].
    assert (Hm : MovedOn (contract_said intent (w_db w) (w_log w2)) intent v ledger (w_db w) (w_db w2)).
    { eapply Moved_mono; [|exact H2]. intros c [->|Hc]; [|done]. rewrite Hl. by apply contract_said_later. }
    split; [right; done|]. split; intros x; [|intros Hack]; (apply Hfail; [|done]); [left|right; eauto].
    world_simpl. by rewrite H1.
  - assert (Hs : forall d, d = w_db w1 \/ d = w_db w2 -> same_db (w_db w) d).
    { intros d [->| ->]; [by rewrite H1|done]. }
    split; [|split; intros x; [|intros _]; (apply Hfail; [|done]); left; by apply Hs; eauto].
    wp_step. unfold findIntent. wp_step. wp_step; [intros x; (apply Hfail; [|done]); left; by apply Hs; eauto|].
    wp_step. left. split; [exact H2|done].
  - apply Hfail; [|done]. left. world_simpl. by rewrite H1.
Qed.

Lemma wp_settle_said intent w :
  wp Adm (settle intent)
    (fun r w' => match r with
       | Ok s =>
           (same_db (w_db w) (w_db w') /\
            (se_notFound s = true ->
             In (ECall (ChainOutcome (ti_txHash intent)) (Ok TxNotFound)) (w_log w'))) \/
           exists v ledger, answered (ti_txHash intent) v ledger (w_log w') /\
             s = SettledR (result intent (next_status v) (Some ledger)) false /\
             MovedOn (contract_said intent (w_db w) (w_log w')) intent v ledger (w_db w) (w_db w')
       | Err _ => ti_status intent = "pending" /\ ThrewOn (contract_said intent (w_db w) (w_log w')) intent (w_db w) (w_db w')
       end) w.
Proof.
  unfold settle, eqs. case_bool_decide as Hst; cbn [negb]; [|wp_step; by left]. wp_step. wp_step.
  set (w1 := note w _). destruct r as [o|x]; [|split; [done|]; exists (w_db w); by split; left].
  assert (Hin : In (ECall (ChainOutcome (ti_txHash intent)) (Ok o)) (w_log w1)).
  { subst w1. world_simpl. apply in_app_iff. right. by left. }
  assert (Hclosed : forall v ledger Q, answered (ti_txHash intent) v ledger (w_log w1) ->
    (forall r w', settled_on intent v ledger (w_db w) r w' -> answered (ti_txHash intent) v ledger (w_log w') -> Q r w') ->
    wp Adm (settle_closed intent v ledger) Q w1).
  { intros v ledger Q Ha HQ. eapply wp_mono; [|apply wp_and; [apply wp_settle_closed|apply wp_grown]].
    intros r w' [H [l Hl]]. apply HQ; [exact H|]. rewrite Hl. destruct v; simpl in *; apply in_app_iff; by left. }
  destruct o as [ledger rv|ledger|]; [| |wp_step; left; by split];
    (apply Hclosed; [done|]; intros [s|x] w' H Ha; cbn in H; [|by split]).
  all: destruct H as [[H Hn]|[-> H]]; [left; split; [done|]; by rewrite Hn|right; eexists _, _; split; [exact Ha|done]].
Qed.

Lemma Threw_mono (says says' : ContractState -> Prop) intent d d' :
  (forall c, says c -> says' c) -> ThrewOn says intent d d' -> ThrewOn says' intent d d'.
Proof.
  intros H (d1 & H1 & H2). exists d1. split; [|done]. destruct H1 as [?|(? & v & l & Hm)]; [by left|right].
  split; [done|]. exists v, l. by eapply Moved_mono.
Qed.

(** The same with what the contract said left out. *)
Lemma wp_settle intent w :
  wp Adm (settle intent)
    (fun r w' => match r with
       | Ok s =>
           (same_db (w_db w) (w_db w') /\
            (se_notFound s = true ->
             In (ECall (ChainOutcome (ti_txHash intent)) (Ok TxNotFound)) (w_log w'))) \/
           exists v ledger, answered (ti_txHash intent) v ledger (w_log w') /\
             s = SettledR (result intent (next_status v) (Some ledger)) false /\
             Moved intent v ledger (w_db w) (w_db w')
       | Err _ => ti_status intent = "pending" /\ ThrewOn anything intent (w_db w) (w_db w')
       end) w.
Proof.
  eapply wp_mono; [|apply wp_settle_said]. intros [s|x] w'.
  - intros [?|(v & ledger & ? & ? & Hm)]; [by left|right]. exists v, ledger. split; [done|]. split; [done|]. by eapply Moved_mono.
  - intros [? Ht]. split; [done|]. by eapply Threw_mono.
Qed.
End Effects.
Notation Moved := (MovedOn anything).
Notation Threw Adm := (ThrewOn Adm anything).

