(* ===== verification/IntentSafety.v ===== *)
(** An intent's effect is booked at most once by any sequence of the API's operations, as long as
    commits are acknowledged and a settlement sees the intent as it stands; and what happens when
    it does not. *)
From S2P Require Import Prelude Prog Schema Rules Domain Chain Intents IntentBooks.

(** ** The rows booked under a transaction hash *)
Definition count {A} (p : A -> bool) (l : list A) : nat := List.length (List.filter p l).

Lemma count_app {A} (p : A -> bool) l l' : count p (l ++ l') = (count p l + count p l')%nat.
Proof. unfold count. by rewrite List.filter_app, length_app. Qed.

Definition booked (h : string) (d : Database) : nat :=
  (count (fun r : draw_row => eqs (dr_txHash r) h) (d draw) +
   count (fun r : repayment_row => eqs (rp_txHash r) h) (d repayment) +
   count (fun r : exitFill_row => eqs (ef_txHash r) h) (d exitFill))%nat.

Lemma booked_ext h d d' :
  d' draw = d draw -> d' repayment = d repayment -> d' exitFill = d exitFill -> booked h d' = booked h d.
Proof. unfold booked. by intros -> -> ->. Qed.

Definition none_pending (h : string) (d : Database) : Prop :=
  forall r, In r (d txIntent) -> is_pending h r = false.

Definition has_pending (h : string) (d : Database) : Prop :=
  exists r, In r (d txIntent) /\ is_pending h r = true.

(** A booked hash belongs to an intent on file that is no longer pending; hashes are unique. *)
Definition Inv (d : Database) : Prop :=
  NoDup (List.map ti_txHash (d txIntent)) /\
  forall h, booked h d = 0%nat \/
    (booked h d = 1%nat /\ none_pending h d /\ In h (List.map ti_txHash (d txIntent))).

Lemma Inv_pending h d : Inv d -> has_pending h d -> booked h d = 0%nat.
Proof.
  intros [_ Hi] (r & Hr & Hp). destruct (Hi h) as [|(_ & Hn & _)]; [done|]. by rewrite Hn in Hp.
Qed.

Lemma is_pending_hash h r : is_pending h r = true -> ti_txHash r = h.
Proof. unfold is_pending, is_intent, eqs. rewrite andb_true_iff. by intros [?%bool_decide_eq_true _]. Qed.

(** One operation on the intent [h]: only rows of that hash change, and if something was booked
    under it, no intent of that hash is pending any more. *)
Record Step (h : string) (d d' : Database) : Prop := {
  step_keys : List.map ti_txHash (d' txIntent) = List.map ti_txHash (d txIntent);
  step_other : forall h', h' <> h -> has_pending h' d -> has_pending h' d';
  step_none : forall h', h' <> h -> none_pending h' d -> none_pending h' d';
  step_booked : forall h', h' <> h -> booked h' d' = booked h' d;
  step_self : booked h d' = booked h d \/ (booked h d' = S (booked h d) /\ none_pending h d') }.

Lemma Step_Inv h d d' : Step h d d' -> Inv d -> has_pending h d -> Inv d'.
Proof.
  intros [Hk Ho Hn Hb Hs] Hinv Hp. pose proof (Inv_pending _ _ Hinv Hp) as H0.
  destruct Hinv as [Hnd Hi]. split; [by rewrite Hk|]. intros h'. rewrite Hk.
  destruct (decide (h' = h)) as [->|Hne].
  - destruct Hs as [Hs|[Hs Hnp]]; [left; lia|right]. split; [lia|]. split; [done|].
    destruct Hp as (r & Hr & Hp). apply is_pending_hash in Hp as <-. by apply in_map.
  - rewrite Hb by done. destruct (Hi h') as [|(H1 & Hno & Hin)]; [by left|right; auto].
Qed.

Lemma same_db_Step h d d' : same_db d d' -> Step h d d'.
Proof.
  intros H. split; unfold has_pending, none_pending; rewrite ?(H txIntent); auto;
    [intros h' _|left]; by apply booked_ext.
Qed.

Lemma same_db_Inv d d' : same_db d d' -> Inv d -> Inv d'.
Proof.
  intros H [Hnd Hi]. split; [by rewrite (H txIntent)|]. intros h.
  rewrite (booked_ext h d d') by apply H. unfold none_pending. rewrite (H txIntent). apply Hi.
Qed.

Lemma same_db_pending h d d' : same_db d d' -> has_pending h d -> has_pending h d'.
Proof. unfold has_pending. intros H. by rewrite (H txIntent). Qed.

(** ** Updates of the intent rows *)
Lemma is_pending_other h h' r : h' <> h -> is_intent h r = true -> is_pending h' r = false.
Proof.
  unfold is_pending, is_intent, eqs. intros Hne Hr%bool_decide_eq_true.
  rewrite bool_decide_false; [done|congruence].
Qed.

Lemma intents_updated h (P : IntentRow -> bool) (f : IntentRow -> IntentRow) d d' :
  rows_updated txIntent P f d d' ->
  (forall r, P r = true -> is_intent h r = true) -> (forall r, ti_txHash (f r) = ti_txHash r) ->
  List.map ti_txHash (d' txIntent) = List.map ti_txHash (d txIntent) /\
  (forall h', h' <> h -> has_pending h' d -> has_pending h' d') /\
  (forall h', h' <> h -> none_pending h' d -> none_pending h' d').
Proof.
  unfold rows_updated, has_pending, none_pending. cbn [row]. intros -> HP Hf.
  assert (Hsame : forall h' r, h' <> h -> is_pending h' (if P r then f r else r) = is_pending h' r).
  { intros h' r Hne. destruct (P r) eqn:E; [|done]. rewrite (is_pending_other h h' r) by auto.
    apply (is_pending_other h); [done|]. unfold is_intent. rewrite Hf. by apply HP. }
  split; [|split].
  - rewrite List.map_map. apply map_ext. intros r. by destruct (P r).
  - intros h' Hne (r & Hr & Hp). eexists. split; [apply in_map_iff; by exists r|]. by rewrite Hsame.
  - intros h' Hne Hn r (r0 & <- & Hr)%in_map_iff. rewrite Hsame by done. auto.
Qed.

Lemma pending_intent h r : is_pending h r = true -> is_intent h r = true.
Proof. unfold is_pending. by intros [? _]%andb_true_iff. Qed.

(** A claimed intent is final. *)
Lemma claimed_none_pending h f d d' :
  rows_updated txIntent (is_pending h) f d d' -> (forall r, ti_status (f r) <> "pending") ->
  none_pending h d'.
Proof.
  unfold rows_updated, none_pending. cbn [row]. intros -> Hf r (r0 & <- & Hr)%in_map_iff.
  destruct (is_pending h r0) eqn:E; [|done]. unfold is_pending, eqs.
  rewrite (bool_decide_false (ti_status (f r0) = "pending")) by apply Hf. apply andb_false_r.
Qed.

Lemma next_status_final v : next_status v <> "pending".
Proof. by destruct v. Qed.

(** ** Effects book at most one row, under the intent's own hash *)
Lemma count_snoc {A} (p : A -> bool) l a : count p (l ++ [a]) = (count p l + if p a then 1 else 0)%nat.
Proof. rewrite count_app. f_equal. unfold count. simpl. by destruct (p a). Qed.

Lemma eqs_refl s : eqs s s = true.
Proof. by apply bool_decide_eq_true. Qed.

Lemma eqs_other h h' : h' <> h -> eqs h h' = false.
Proof. intros H. apply bool_decide_eq_false. congruence. Qed.

Definition books_one (h : string) (d d' : Database) : Prop :=
  forall h', booked h' d' = booked h' d \/ (h' = h /\ booked h' d' = S (booked h' d)).

Lemma same_booked h ts d d' :
  same_except ts d d' -> ~ In draw ts -> ~ In repayment ts -> ~ In exitFill ts -> books_one h d d'.
Proof. intros H H1 H2 H3 h'. left. by apply booked_ext; apply H. Qed.

Lemma Effect_booked intent v ledger d d' :
  Effect intent v ledger d d' -> books_one (ti_txHash intent) d d'.
Proof.
  assert (Hone : forall (b b' : string -> nat) h, (forall h', b' h' = (b h' + if eqs h h' then 1 else 0)%nat) ->
    forall h', b' h' = b h' \/ (h' = h /\ b' h' = S (b h'))).
  { intros b b' h Hb h'. rewrite Hb. destruct (decide (h' = h)) as [->|Hne];
      [right; rewrite eqs_refl; split; [done|lia]|left; rewrite eqs_other by done; lia]. }
  destruct v as [rv|]; simpl; [unfold SuccessEffect|unfold FailureEffect];
    destruct (kind_of _) as [[]|];
    try (by intros H; eapply same_booked; [exact H|..]; intros []);
    try (intros [H _]; eapply same_booked; [exact H|..]; simpl; intros Hin;
         repeat destruct Hin as [Hin|Hin]; discriminate Hin || done).
  - intros [H (r & Hr & _ & Hh & _)]. unfold books_one. apply (Hone (fun h => booked h d) (fun h => booked h d')). intros h'. unfold booked.
    rewrite Hr, count_snoc, Hh, (H repayment), (H exitFill) by (try done; simpl; intros [|[]]; discriminate). lia.
  - intros [H (l & _ & r & Hr & _ & Hh & _)]. unfold books_one. apply (Hone (fun h => booked h d) (fun h => booked h d')). intros h'. unfold booked.
    rewrite Hr, count_snoc, Hh, (H draw), (H exitFill) by (try done; simpl; intros [|[]]; discriminate). lia.
  - intros [H [_ (r & Hr & _ & Hh & _)]]. unfold books_one. apply (Hone (fun h => booked h d) (fun h => booked h d')). intros h'. unfold booked.
    rewrite Hr, count_snoc, Hh, (H draw), (H repayment) by (try done; simpl; intros [|[|[]]]; discriminate). lia.
Qed.

Lemma Moved_Step intent v ledger d d' : Moved intent v ledger d d' -> Step (ti_txHash intent) d d'.
Proof.
  intros (_ & [now Hu] & He). pose proof (Effect_booked _ _ _ _ _ He) as Hb.
  destruct (intents_updated _ _ _ _ _ Hu (pending_intent _)) as (Hk & Ho & Hn); [done|].
  split; [done..| |].
  - intros h' Hne. by destruct (Hb h') as [|[? _]].
  - destruct (Hb (ti_txHash intent)) as [|[_ HS]]; [by left|right]. split; [done|].
    eapply claimed_none_pending; [exact Hu|]. intros r. apply next_status_final.
Qed.

Lemma Reopened_booked intent d d' h : Reopened intent d d' -> booked h d' = booked h d.
Proof. intros [Hs _]. apply booked_ext; (apply Hs; [done|intros []]). Qed.

Lemma Reopened_Step intent d d' : Reopened intent d d' -> Step (ti_txHash intent) d d'.
Proof.
  intros H. pose proof (fun h => Reopened_booked _ _ _ h H) as Hb. destruct H as (Hs & msg & Hu).
  destruct (intents_updated (ti_txHash intent) _ _ _ _ Hu) as (Hk & Ho & Hn); [done..|].
  split; [done..|auto|by left].
Qed.

Lemma Reopened_pending intent d d' :
  Reopened intent d d' -> has_pending (ti_txHash intent) d -> has_pending (ti_txHash intent) d'.
Proof.
  intros (_ & msg & Hu) (r & Hr & Hp). unfold rows_updated in Hu. cbn [row] in *.
  exists (set_intent_error msg r). rewrite Hu. split.
  - apply in_map_iff. exists r. by rewrite pending_intent.
  - unfold is_pending in *. apply andb_true_iff in Hp as [Hp _]. unfold is_intent in *. simpl.
    by rewrite Hp.
Qed.

Lemma Step_trans h d1 d2 d3 : same_db d1 d2 -> Step h d2 d3 -> Step h d1 d3.
Proof.
  intros H [Hk Ho Hn Hb Hs]. assert (Hbk : forall h', booked h' d2 = booked h' d1) by (intros; by apply booked_ext).
  split; unfold has_pending, none_pending in *.
  - by rewrite Hk, (H txIntent).
  - intros h'. rewrite <- (H txIntent). apply Ho.
  - intros h'. rewrite <- (H txIntent). apply Hn.
  - intros h' Hne. rewrite <- Hbk. by apply Hb.
  - by rewrite <- Hbk.
Qed.

(** ** The invariant along a program *)
Section Safety.
Notation world := intent_world.
Implicit Types w : world.

(** The hash is free to settle: nothing is booked under it, and an intent of it is pending. *)
Definition Ready (h : string) (d : Database) : Prop := Inv d /\ has_pending h d.

(** An intent as handed to [settle]: one not pending any more in the caller's copy, or still
    pending on file. *)
Definition Fresh (intent : IntentRow) (d : Database) : Prop :=
  ti_status intent <> "pending" \/ has_pending (ti_txHash intent) d.

(** The other intents of the sweep stay as pending as they were. *)
Definition keeps_others (h : string) (d d' : Database) : Prop :=
  forall h', h' <> h -> has_pending h' d -> has_pending h' d'.

Lemma Threw_Step intent d d' :
  Threw acks_arrive intent d d' -> Step (ti_txHash intent) d d' /\
  (has_pending (ti_txHash intent) d -> has_pending (ti_txHash intent) d').
Proof.
  intros (d1 & [H1|[[] _]] & H2). split.
  - eapply Step_trans; [exact H1|]. destruct H2 as [H2|H2]; [by apply same_db_Step|by apply Reopened_Step].
  - intros Hp. apply (same_db_pending _ _ _ H1) in Hp.
    destruct H2 as [H2|H2]; [by eapply same_db_pending|by eapply Reopened_pending].
Qed.

Lemma wp_settle_Inv intent w :
  Inv (w_db w) -> Fresh intent (w_db w) ->
  wp acks_arrive (settle intent)
    (fun r w' => Inv (w_db w') /\ keeps_others (ti_txHash intent) (w_db w) (w_db w') /\
       match r with
       | Ok s => sr_status (se_result s) <> "pending" \/ same_db (w_db w) (w_db w')
       | Err _ => ti_status intent = "pending" /\ has_pending (ti_txHash intent) (w_db w')
       end) w.
Proof.
  intros Hinv Hfresh. eapply wp_mono; [|apply wp_settle]. intros [s|x] w'.
  - intros [[H _]|(v & ledger & _ & -> & H)].
    + split; [by eapply same_db_Inv|]. split; [|by right]. intros h' _. by apply same_db_pending.
    + assert (Hp : has_pending (ti_txHash intent) (w_db w)) by (by destruct H as [(r & ? & ?) _]; exists r).
      apply Moved_Step in H. split; [by eapply Step_Inv|]. split; [exact (step_other _ _ _ H)|left; apply next_status_final].
  - intros [Hst H]. destruct Hfresh as [|Hp]; [done|].
    apply Threw_Step in H as [H Hp']. split; [by eapply Step_Inv|]. split; [exact (step_other _ _ _ H)|auto].
Qed.

(** Writing an intent off: one step on it, if it is pending. *)
Lemma wp_write_off_step Adm now intent w :
  wp Adm (expire now intent)
    (ok_db (fun _ d' => same_db (w_db w) d' \/
       has_pending (ti_txHash intent) (w_db w) /\ Step (ti_txHash intent) (w_db w) d')) w.
Proof.
  unfold expire. set (h := ti_txHash intent).
  change (fun r : row txIntent => is_intent h r && eqs (ti_status r) "pending") with (is_pending h).
  wp_step. wp_step; [done|]. intros s. split; [|done]. cbn [row] in *.
  match goal with |- context [after w ?d] => set (d1 := d) end.
  assert (Hu : rows_updated txIntent (is_pending h) (set_intent_expired now) (w_db w) d1)
    by (unfold rows_updated; subst d1; by rewrite set_table_same).
  destruct (intents_updated h _ _ _ _ Hu (pending_intent h)) as (Hk & Ho & Hn); [done|].
  assert (Hother : forall t, t <> txIntent -> d1 t = w_db w t) by (intros t Ht; subst d1; by rewrite set_table_other).
  destruct (List.filter (is_pending h) (w_db w txIntent)) as [|r0 rs] eqn:Ef; cbn [List.map].
  - simpl. left. intros t.
    destruct (decide (t = txIntent)) as [->|Ht]; [rewrite Hu; by apply map_if_filter_nil|by apply Hother].
  - destruct (pending_row h (w_db w txIntent)) as (r & Hr & Hp); [by rewrite Ef|].
    apply (wp_seq _ _ _ _ (fun _ d' => FailureEffect intent d1 d' /\ keeps_intents d1 d')).
    { eapply wp_mono; [|apply wp_applyFailure]. by intros [[]|x] w'. }
    intros [] w' [He Hkeep]. simpl. set (d' := w_db w') in *. right. split; [by exists r|].
    pose proof (Effect_booked intent Rejected 0 d1 d' He) as Hb. fold h in Hb.
    assert (Hb1 : forall h', booked h' d1 = booked h' (w_db w)) by (intros; by apply booked_ext; apply Hother).
    assert (Hnp : none_pending h d') by (unfold none_pending; rewrite Hkeep; by eapply claimed_none_pending).
    unfold keeps_intents in Hkeep. split.
    + by rewrite Hkeep.
    + unfold has_pending. by rewrite Hkeep.
    + unfold none_pending. by rewrite Hkeep.
    + intros h' Hne. destruct (Hb h') as [E|[? _]]; [by rewrite E, Hb1|done].
    + destruct (Hb h) as [E|[_ E]]; rewrite E, Hb1; [by left|by right].
Qed.

Lemma wp_expire now intent w :
  Inv (w_db w) ->
  wp acks_arrive (expire now intent)
    (ok_db (fun _ d' => Inv d' /\ keeps_others (ti_txHash intent) (w_db w) d')) w.
Proof.
  intros Hinv. eapply wp_mono; [|apply wp_write_off_step]. intros [b|x] w'; [|done]. cbn [ok_db]. intros [Hs|[Hp Hs]].
  - split; [by eapply same_db_Inv|]. intros h' _. by apply same_db_pending.
  - split; [by eapply Step_Inv|]. exact (step_other _ _ _ Hs).
Qed.

Lemma wp_sweep_step now tally intent w :
  Inv (w_db w) -> has_pending (ti_txHash intent) (w_db w) ->
  wp acks_arrive (sweep_step now tally intent)
    (fun r w' => Inv (w_db w') /\ keeps_others (ti_txHash intent) (w_db w) (w_db w') /\ is_ok r = true) w.
Proof.
  intros Hinv Hp. unfold sweep_step. wp_step. wp_step.
  eapply wp_mono; [|apply wp_settle_Inv; [done|by right]]. intros r w1 (Hi1 & Ho1 & _).
  assert (Hend : forall status notFound t,
    wp acks_arrive
      (if eqs status "settled" then Ret (add_settled t)
       else if eqs status "failed" then Ret (add_failed t)
       else if notFound && (INTENT_EXPIRY_MS <? now - ti_createdAt intent)
       then catch (wroteOff <- transaction (expire now intent) ;;
                   Ret (if wroteOff then add_expired t else t)) (fun _ => Ret (add_errors t))
       else Ret t)
      (fun r w' => Inv (w_db w') /\ keeps_others (ti_txHash intent) (w_db w) (w_db w') /\ is_ok r = true) w1).
  { intros status notFound t.
    wp_step; [by wp_step|]. wp_step; [by wp_step|]. wp_step; [|by wp_step].
    wp_step. wp_step. wp_step. eapply wp_mono; [|by apply wp_expire].
    intros [b|x] w2 H2; simpl in H2.
    - destruct H2 as [Hi2 Ho2]. cbn. split; [|split; [done|by intros ? []]].
      split; [done|]. split; [|done]. intros h' Hne Hh. apply Ho2, Ho1; done.
    - cbn. by split. }
  destruct r; apply Hend.
Qed.

Lemma NoDup_map_filter {A} (f : A -> string) p l :
  NoDup (List.map f l) -> NoDup (List.map f (List.filter p l)).
Proof.
  induction l as [|a l IH]; simpl; [done|]. rewrite NoDup_cons. intros [Hn Hl].
  destruct (p a); simpl; [|auto]. rewrite NoDup_cons. split; [|auto]. intros Hin. apply Hn.
  apply list_elem_of_In in Hin. apply list_elem_of_In. apply in_map_iff in Hin as (b & <- & Hb).
  apply filter_In in Hb as [Hb _]. by apply in_map.
Qed.

Lemma wp_sweep now w : Inv (w_db w) -> wp acks_arrive (sweepPendingIntents now) (fun _ w' => Inv (w_db w')) w.
Proof.
  intros Hinv. unfold sweepPendingIntents. wp_step. wp_step; [done|].
  set (pending := List.filter _ _).
  assert (Hnd : NoDup (List.map ti_txHash pending)) by (apply NoDup_map_filter, Hinv).
  assert (Hall : forall r, In r pending -> has_pending (ti_txHash r) (w_db w)).
  { intros r [Hr Hst]%filter_In. exists r. split; [done|]. unfold is_pending, is_intent.
    by rewrite eqs_refl. }
  apply (wp_fold_split acks_arrive
    (fun done _ w' => Inv (w_db w') /\ forall rest, pending = done ++ rest ->
       forall r, In r rest -> has_pending (ti_txHash r) (w_db w'))
    (fun _ w' => Inv (w_db w'))) with (l0 := []); [| |done|].
  - intros done x rest t w1 Eq [Hi1 Hp1]. cbn [app] in Eq.
    eapply wp_mono; [|apply wp_sweep_step; [exact Hi1|by apply (Hp1 _ Eq); left]].
    intros [t'|e] w2 (Hi2 & Ho2 & Hok); [|discriminate]. split; [exact Hi2|].
    intros rest' Eq' r Hr. rewrite Eq, <- app_assoc in Eq'. apply app_inv_head in Eq' as [= ->].
    apply Ho2; [|by apply (Hp1 _ Eq); right].
    rewrite Eq, List.map_app, NoDup_app in Hnd. destruct Hnd as (_ & _ & Hnd). simpl in Hnd.
    apply NoDup_cons in Hnd as [Hnd _]. intros Eh. apply Hnd. rewrite <- Eh.
    by apply list_elem_of_In, in_map.
  - by intros t w1 [Hi1 _].
  - split; [exact Hinv|]. intros rest ->. exact Hall.
Qed.

Lemma wp_findIntent {A} h (Q : option IntentRow -> intent_prog A) P w :
  Inv (w_db w) ->
  (forall o w', Inv (w_db w') ->
     (forall r, o = Some r -> ti_txHash r = h /\ Fresh r (w_db w')) -> wp acks_arrive (Q o) P w') ->
  (forall x w', Inv (w_db w') -> P (Err x) w') ->
  wp acks_arrive (bind (findIntent h) Q) P w.
Proof.
  intros Hinv HQ HP. wp_step. unfold findIntent. wp_step. wp_step; [intros x; by apply HP|].
  wp_step. apply HQ; [exact Hinv|]. intros r Hr.
  apply head_filter_In in Hr as [Hin Hi].
  unfold is_intent, eqs in Hi. apply bool_decide_eq_true in Hi as <-. split; [done|].
  destruct (decide (ti_status r = "pending")) as [E|]; [right|by left]. exists r. split; [done|].
  unfold is_pending, is_intent. by rewrite eqs_refl, E.
Qed.

Lemma wp_settleIntent intent w (Q : outcome SettleResult -> intent_world -> Prop) :
  Inv (w_db w) -> Fresh intent (w_db w) ->
  (forall s w', Inv (w_db w') -> (sr_status s = "pending" -> Fresh intent (w_db w')) -> Q (Ok s) w') ->
  (forall x w', Inv (w_db w') -> Fresh intent (w_db w') -> Q (Err x) w') ->
  wp acks_arrive (settleIntent intent) Q w.
Proof.
  intros Hinv Hf HQ HE. unfold settleIntent. wp_step. eapply wp_mono; [|by apply wp_settle_Inv].
  intros [s|x] w' (Hi & _ & H).
  - wp_step. apply HQ; [done|]. intros E. destruct H as [|H]; [done|].
    destruct Hf as [|Hp]; [by left|right]. by eapply same_db_pending.
  - apply HE; [done|]. right. apply H.
Qed.

Lemma wp_poll n intent w :
  Inv (w_db w) -> Fresh intent (w_db w) ->
  wp acks_arrive (poll_settle n intent) (fun _ w' => Inv (w_db w')) w.
Proof.
  revert w. induction n as [|n IH]; intros w Hinv Hf; cbn [poll_settle]; [by wp_step|].
  wp_step. wp_step. apply wp_settleIntent; [done..| |].
  - intros s w' Hi Hs. wp_step; [by wp_step|]. apply IH; [done|]. apply Hs.
    by apply negb_false_iff, bool_decide_eq_true in E.
  - intros x w' Hi Hs. wp_step. wp_step. by apply IH.
Qed.

Lemma wp_record chain args w :
  Inv (w_db w) -> wp acks_arrive (recordIntent chain args) (fun _ w' => Inv (w_db w')) w.
Proof.
  intros Hinv. unfold recordIntent. wp_step. wp_step. destruct (chain _) as [h|x]; [|done].
  wp_step. wp_step; [done|]. intros s _ Hc _. set (r := TxIntent _ _ _ _ _ _ _ _ _ _).
  assert (Hnew : ~ In h (List.map ti_txHash (w_db w txIntent))).
  { intros (r0 & E & Hr)%in_map_iff. unfold conflicts in Hc. apply not_true_iff_false in Hc. apply Hc.
    apply existsb_exists. exists r0. split; [done|]. simpl. by apply bool_decide_eq_true. }
  assert (Hi : Inv (set_table txIntent (w_db w txIntent ++ [r]) (w_db w))).
  { destruct Hinv as [Hnd Hb]. unfold Inv, none_pending. rewrite set_table_same. cbn [row] in *.
    rewrite List.map_app. split.
    - apply NoDup_app. split; [done|]. split; [|by apply NoDup_singleton].
      intros h' Hh Hr. apply list_elem_of_singleton in Hr as ->. apply Hnew. by apply list_elem_of_In.
    - intros h'. rewrite (booked_ext h' (w_db w)) by (by rewrite set_table_other).
      destruct (Hb h') as [|(H1 & Hn & Hin)]; [by left|right]. split; [done|].
      split; [|apply in_app_iff; by left]. intros r' [Hr'|[<-|[]]]%in_app_iff; [by apply Hn|].
      unfold is_pending, is_intent. rewrite eqs_other; [done|]. intros ->. by apply Hnew. }
  split; [by wp_step|by intros _].
Qed.

(** ** The API's life: any sequence of requests and sweeps, one at a time *)
Inductive IntentOp :=
| OpRecord (args : IntentArgs)
| OpSubmit (partyId signedXdr : string)
| OpSettle (partyId hash : string)
| OpSweep (now : Z).

Definition intent_op (chain_txHash : string -> outcome string) (o : IntentOp) : intent_prog unit :=
  match o with
  | OpRecord args => attempt (recordIntent chain_txHash args) ;;; Ret tt
  | OpSubmit p xdr => attempt (submit_route chain_txHash p xdr) ;;; Ret tt
  | OpSettle p h => attempt (settle_route p h) ;;; Ret tt
  | OpSweep now => attempt (sweepPendingIntents now) ;;; Ret tt
  end.

Definition intent_service (chain_txHash : string -> outcome string) (ops : list IntentOp) : intent_prog unit :=
  fold (fun _ o => intent_op chain_txHash o) tt ops.

Lemma wp_submit chain p xdr w :
  Inv (w_db w) -> wp acks_arrive (submit_route chain p xdr) (fun _ w' => Inv (w_db w')) w.
Proof.
  intros Hinv. unfold submit_route. wp_step; [by wp_step|]. wp_step; [|by wp_step].
  apply wp_findIntent; [done| |done]. intros o w1 Hi1 Ho. wp_step; [|by wp_step].
  destruct (Ho _ eq_refl) as [_ Hf]. wp_step; [by wp_step|]. wp_step; [by wp_step|].
  wp_step. wp_step. wp_step. destruct r; [by apply wp_poll|by wp_step].
Qed.

Lemma wp_settle_route p h w :
  Inv (w_db w) -> wp acks_arrive (settle_route p h) (fun _ w' => Inv (w_db w')) w.
Proof.
  intros Hinv. unfold settle_route. apply wp_findIntent; [done| |done]. intros o w1 Hi1 Ho.
  wp_step; [|by wp_step]. destruct (Ho _ eq_refl) as [_ Hf]. wp_step; [by wp_step|].
  wp_step. apply wp_settleIntent; [done..| |done]. intros s w' Hi _. by wp_step.
Qed.

Lemma wp_intent_service chain ops w :
  Inv (w_db w) -> wp acks_arrive (intent_service chain ops) (fun _ w' => Inv (w_db w')) w.
Proof.
  intros Hinv. unfold intent_service.
  apply (wp_fold acks_arrive (fun _ _ w' => Inv (w_db w')) (fun _ w' => Inv (w_db w'))) with (l0 := []);
    [|done..]. intros _ o _ w1 Hi1. destruct o; cbn [intent_op]; wp_step; wp_step;
    (eapply wp_mono; [|by first [apply wp_record|apply wp_submit|apply wp_settle_route|apply wp_sweep]]);
    by intros r w2 H2.
Qed.
End Safety.

(** C10. An intent's effect is booked at most once.  Take any list of intents recorded, envelopes
    submitted, settlements asked for and sweeps run, one after the other, with any arguments,
    against any answers of the network and of the contracts and any database failure except a lost
    acknowledgement, from a database that satisfies [Inv] (an empty one does): at the end the draws,
    repayments and fills booked under any transaction hash number at most one, and if there is one
    the intent is not pending. *)
Theorem intent_booked_at_most_once (e : env IntentCall) chain_txHash ops (d : Database) h
    (He : forall n x, db_fault e n <> AckLost x) (Hd : Inv d) :
  let '(_, w) := run e (intent_service chain_txHash ops) (World d 0 []) in
  (booked h (w_db w) <= 1)%nat /\
  (booked h (w_db w) = 1%nat -> none_pending h (w_db w)).
Proof.
  assert (Hw : let '(_, w) := run e (intent_service chain_txHash ops) (World d 0 [] : intent_world) in
               Inv (w_db w)).
  { apply (wp_sound acks_arrive); [split; [done|]; split; [intros n x E; by apply (He n x)|done]|].
    by apply wp_intent_service. }
  destruct (run e _ _) as [r w]. destruct Hw as [_ Hw]. destruct (Hw h) as [H0|(H1 & Hn & _)]; [lia|].
  split; [lia|done].
Qed.

(** ** Concrete runs *)

(** A line with one on-chain debt of 30 USDC and a pending repayment of 10. *)
Definition sample_intent : IntentRow :=
  TxIntent "tx1" "credit_line.repay" (Some "line1") "party1" (Some [("amount", "100000000")])
    "pending" None None 0 None.
Definition sample_line : creditLine_row :=
  CreditLine "line1" "party2" "party1" "USDC" "100" 500 50 86400 "open" (Some "7") None 0 None.
Definition sample_draw : draw_row := DrawRow "d1" "line1" "40" "tx0" 1 0.
Definition sample_db : Database :=
  set_table draw [sample_draw] (set_table creditLine [sample_line]
    (set_table txIntent [sample_intent; TxIntent "tx0" "credit_line.draw" (Some "line1") "party1" None "settled" (Some 1) None 0 (Some 0)] empty_db)).

(** A network that answers SUCCESS and reads the line as owing 30, except that the contract read
    made at operation [bad] fails. *)
Definition sample_answer (bad : nat) (X : Type) (n : nat) (c : IntentCall X) : outcome X :=
  match c in IntentCall X return outcome X with
  | ChainOutcome _ => Ok (TxSuccess 12 None)
  | ChainSend _ => Ok "tx1"
  | ReadLine _ => if (n =? bad)%nat then Err (Error "rpc down")
                  else Ok (ChainLine "GL" "GB" "CA" 1000000000 0 300000000 0 0 "Open" None)
  | ReadLiquidationRecord _ => Err (Error "none")
  | ReadTrade _ => Err (Error "none")
  end.
Definition sample_env (bad : nat) : env IntentCall :=
  Env (sample_answer bad) (fun _ => NoFault) (fun n => Stamp (Z.of_nat n) (pretty (N.of_nat n))).

Lemma intent_booked_at_most_once_witness :
  let '(_, w) := run (sample_env 0) (intent_service Ok [OpSettle "party1" "tx1"; OpSweep 5]) (World sample_db 0 []) in
  (booked "tx1" (w_db w) <= 1)%nat /\ (booked "tx1" (w_db w) = 1%nat -> none_pending "tx1" (w_db w)).
Proof.
  apply intent_booked_at_most_once; [discriminate|]. split.
  - simpl. rewrite !NoDup_cons. split; [|split; [|apply NoDup_nil_2]]; intros H;
      apply list_elem_of_In in H; simpl in H; naive_solver.
  - intros h. unfold booked, none_pending. simpl. unfold count. simpl.
    destruct (eqs "tx0" h) eqn:E; simpl; [|by left]. right. split; [done|].
    apply bool_decide_eq_true in E as <-. split; [|by right; left].
    intros r [<-|[<-|[]]]; done.
Defined.

Lemma settled_run_books_it :
  booked "tx1" (w_db (snd (run (sample_env 0) (intent_service Ok [OpSettle "party1" "tx1"]) (World sample_db 0 [])))) = 1%nat.
Proof. vm_compute. reflexivity. Qed.

(** Two settlements of one intent at once.  Both read it as pending; the first runs to the end; the
    second, whose contract read then fails, hands the intent back as pending although it is settled,
    and the next settlement books the repayment again. *)
Definition race : intent_prog unit :=
  attempt (settleIntent sample_intent) ;;;
  attempt (settleIntent sample_intent) ;;;
  attempt (settle_route "party1" "tx1") ;;; Ret tt.

Theorem concurrent_settlements_book_twice :
  booked "tx1" (w_db (snd (run (sample_env 11) race (World sample_db 0 [])))) = 2%nat /\
  (forall n, db_fault (sample_env 11) n = NoFault).
Proof. split; [vm_compute; reflexivity|done]. Qed.

(** The split of a repayment is read back from what the line owes when it is settled, not when it was
    made: if a draw of 10 landed on the chain after the repayment and is not settled yet, the line
    owes 40 again, and the whole repayment of principal is booked as interest. *)
Definition redrawn_answer (X : Type) (n : nat) (c : IntentCall X) : outcome X :=
  match c in IntentCall X return outcome X with
  | ReadLine _ => Ok (ChainLine "GL" "GB" "CA" 1000000000 0 400000000 0 0 "Open" None)
  | c => sample_answer 0 _ n c
  end.

Lemma repayment_split_misses_later_draw :
  let split_of answer := List.map (fun r => (rp_principal r, rp_interest r))
    (w_db (snd (run (Env answer (fun _ => NoFault) (stamps (sample_env 0))) (intent_service Ok [OpSettle "party1" "tx1"])
                  (World sample_db 0 []))) repayment) in
  split_of (sample_answer 0) = [("10.0000000", "0.0000000")] /\ split_of redrawn_answer = [("0.0000000", "10.0000000")].
Proof. vm_compute. auto. Qed.

(** ** Write-offs *)
Section WriteOff.
Context (Adm : @admissible IntentCall).
Notation world := intent_world.
Implicit Types w : world.

Definition expired_kept (d d' : Database) : Prop :=
  forall r, In r (d' txIntent) -> ti_status r = "expired" -> In r (d txIntent).

Lemma expired_kept_trans d1 d2 d3 : expired_kept d1 d2 -> expired_kept d2 d3 -> expired_kept d1 d3.
Proof. unfold expired_kept. auto. Qed.

Lemma same_db_expired d d' : same_db d d' -> expired_kept d d'.
Proof. unfold expired_kept. intros H r. by rewrite (H txIntent). Qed.

Lemma updated_expired P f d d' :
  rows_updated txIntent P f d d' -> (forall r, ti_status (f r) <> "expired") -> expired_kept d d'.
Proof.
  unfold rows_updated, expired_kept. cbn [row]. intros -> Hf r (r0 & <- & Hr)%in_map_iff.
  destruct (P r0); [intros E; by destruct (Hf r0)|done].
Qed.

Lemma Moved_expired intent v ledger d d' : Moved intent v ledger d d' -> expired_kept d d'.
Proof. intros (_ & [now Hu] & _). eapply updated_expired; [exact Hu|]. by destruct v. Qed.

Lemma Reopened_expired intent d d' : Reopened intent d d' -> expired_kept d d'.
Proof. intros (_ & msg & Hu). by eapply updated_expired. Qed.

Lemma Threw_expired intent d d' : Threw Adm intent d d' -> expired_kept d d'.
Proof.
  intros (d1 & H1 & H2). apply (expired_kept_trans _ d1).
  - destruct H1 as [H1|(_ & v & l & H1)]; [by apply same_db_expired|by eapply Moved_expired].
  - destruct H2 as [H2|H2]; [by apply same_db_expired|by eapply Reopened_expired].
Qed.

Lemma wp_expire_only now intent w :
  wp Adm (expire now intent)
    (ok_db (fun _ d' => forall r, In r (d' txIntent) -> ti_status r = "expired" ->
       In r (w_db w txIntent) \/ ti_txHash r = ti_txHash intent)) w.
Proof.
  unfold expire. wp_step. wp_step; [done|]. intros s. split; [|done]. cbn [row] in *.
  match goal with |- context [after w ?d] => set (d1 := d) end.
  assert (H1 : forall r, In r (d1 txIntent) -> ti_status r = "expired" ->
    In r (w_db w txIntent) \/ ti_txHash r = ti_txHash intent).
  { subst d1. rewrite set_table_same. cbn [row]. intros r (r0 & <- & Hr)%in_map_iff _.
    destruct (is_intent _ _ && _) eqn:E; [right|by left]. apply andb_true_iff in E as [E _].
    by apply bool_decide_eq_true in E. }
  wp_step; [by wp_step|]. wp_step. eapply wp_mono; [|apply wp_applyFailure].
  intros [[]|x] w'; [|done]. intros [_ Hk]. wp_step. unfold ok_db. by rewrite Hk.
Qed.

(** An intent that was pending when the sweep began, too old, and not found by the network. *)
Definition written_off (now : Z) (d : Database) (log : list (entry IntentCall string)) (h : string) : Prop :=
  exists r0, In r0 (d txIntent) /\ ti_txHash r0 = h /\ ti_status r0 = "pending" /\
    INTENT_EXPIRY_MS < now - ti_createdAt r0 /\ In (ECall (ChainOutcome h) (Ok TxNotFound)) log.

Definition only_written_off (now : Z) (d : Database) w : Prop :=
  forall r, In r (w_db w txIntent) -> ti_status r = "expired" ->
    In r (d txIntent) \/ written_off now d (w_log w) (ti_txHash r).

Lemma only_written_off_kept now d w w' :
  only_written_off now d w -> expired_kept (w_db w) (w_db w') -> grown w w' -> only_written_off now d w'.
Proof.
  intros H Hk [l Hl] r Hr Hst. destruct (H r) as [|(r0 & ? & ? & ? & ? & Hin)]; [by apply Hk|done|by left|].
  right. exists r0. rewrite Hl. repeat (split; [done|]). apply in_app_iff. by left.
Qed.

Lemma wp_sweep_step_only now (d : Database) tally intent w :
  In intent (d txIntent) -> ti_status intent = "pending" -> only_written_off now d w ->
  wp Adm (sweep_step now tally intent) (fun _ w' => only_written_off now d w') w.
Proof.
  intros Hin Hst Hw. unfold sweep_step. wp_step. wp_step.
  eapply wp_mono; [|apply wp_and; [apply wp_settle|apply wp_grown]]. cbv beta.
  intros r w1 [H Hg].
  assert (H1 : only_written_off now d w1).
  { apply (only_written_off_kept now d w); [done| |done]. destruct r as [s|x].
    - destruct H as [[H _]|(v & l & _ & _ & H)]; [by apply same_db_expired|by eapply Moved_expired].
    - destruct H as [_ H]. by eapply Threw_expired. }
  assert (Hnf : forall s, r = Ok s -> se_notFound s = true ->
    In (ECall (ChainOutcome (ti_txHash intent)) (Ok TxNotFound)) (w_log w1)).
  { intros s -> Hs. destruct H as [[_ H]|(v & l & _ & -> & _)]; [auto|done]. }
  clear H Hg. destruct r as [s|x].
  2:{ wp_go; done. }
  wp_step; [by wp_step|]. wp_step; [by wp_step|]. wp_step; [|by wp_step].
  apply andb_true_iff in E1 as [Es Hage%Z.ltb_lt].
  wp_step. wp_step. wp_step. eapply wp_mono; [|apply wp_and; [apply wp_expire_only|apply wp_grown]]. cbv beta.
  assert (Hkeep : forall w', w_db w' = w_db w1 -> grown w1 w' -> only_written_off now d w').
  { intros w' Hd Hg. apply (only_written_off_kept now d w1); [done| |done].
    unfold expired_kept. by rewrite Hd. }
  intros [b|x] w2 [H2 Hg2]; apply wp_commit_any; [|by apply Hkeep].
  assert (Hend : forall w', w_db w' = w_db w2 -> w_log w' = w_log w2 -> only_written_off now d w').
  { intros w' Hd Hl r Hr Est. rewrite Hd in Hr. rewrite Hl.
    destruct (H2 r Hr Est) as [Hr1|Eh].
    - assert (only_written_off now d (with_db w2 (w_db w1))) as Ho by (apply Hkeep; done).
      destruct (Ho r) as [|Hwo]; [done|done|by left|by right].
    - right. rewrite Eh. exists intent. repeat (split; [done|]). destruct Hg2 as [l ->].
      apply in_app_iff. left. by apply (Hnf s). }
  split; [wp_step; by apply Hend|]. split; intros x; wp_step; [by apply Hkeep|by apply Hend].
Qed.

Lemma wp_sweep_only now w :
  wp Adm (sweepPendingIntents now) (fun _ w' => only_written_off now (w_db w) w') w.
Proof.
  unfold sweepPendingIntents. wp_step. wp_step; [intros x r; by left|].
  eapply (wp_fold_split Adm (fun _ _ w' => only_written_off now (w_db w) w')
    (fun _ w' => only_written_off now (w_db w) w')) with (l0 := []); [|done..|intros r; by left].
  intros done x rest t w1 Eq H1.
  assert (In x (List.filter (fun r : IntentRow => eqs (ti_status r) "pending") (w_db w txIntent))) as
    [Hx Hst%bool_decide_eq_true]%filter_In.
  { cbn [app row] in Eq. rewrite Eq. apply in_app_iff. right. by left. }
  eapply wp_mono; [|by apply wp_sweep_step_only]. by intros [t'|e] w2.
Qed.
End WriteOff.

(** C27. An intent is written off only when its transaction can no longer land.  After a sweep, under
    any network answers and database faults, every expired intent was expired already, or was
    pending when the sweep began, had been built more than seven minutes before the sweep's clock
    and was answered NOT_FOUND by the network during this sweep. *)
Theorem sweep_writes_off_only_unlandable (e : env IntentCall) now (w0 : intent_world) :
  let '(_, w) := run e (sweepPendingIntents now) w0 in
  forall r, In r (w_db w txIntent) -> ti_status r = "expired" ->
    In r (w_db w0 txIntent) \/ written_off now (w_db w0) (w_log w) (ti_txHash r).
Proof. apply (wp_sound any_answer); [done|]. apply wp_sweep_only. Qed.

(** ** The submit route *)
Definition is_sent (x : entry IntentCall string) : bool :=
  match x with
  | ECall c r => match c with ChainSend _ => is_ok r | _ => false end
  | EOut _ => false
  end.

Definition was_sent (log : list (entry IntentCall string)) : Prop := existsb is_sent log = true.

Lemma wp_poll_replies Adm n intent (w : intent_world) :
  wp Adm (poll_settle n intent) (fun r _ => exists code s, r = Ok (ReplySettle code s) /\
    (code = 200 /\ sr_status s = "settled" \/ code = 422 /\ sr_status s <> "pending" \/
     code = 202 /\ sr_status s = "pending")) w.
Proof.
  revert w. induction n as [|n IH]; intros w; cbn [poll_settle]; [wp_step; eauto 10|].
  wp_step. wp_step. eapply wp_mono; [|apply wp_grown]. intros [s|x] w' _.
  - wp_step; [|apply IH]. wp_step. eexists _, _. split; [done|].
    apply negb_true_iff, bool_decide_eq_false in E. unfold eqs. case_bool_decide; auto.
  - wp_step. wp_step. apply IH.
Qed.

(** C28. A submission that reached the network is never reported as an error.  Whatever fails after
    [chain.send] returned, the route answers and its answer is a settlement: 200 with a settled
    intent, 422 with a final one, or 202 with a pending one; an error reply or an exception means
    nothing was sent. *)
Theorem submit_never_fails_after_send (e : env IntentCall) chain_txHash partyId signedXdr (d : Database) :
  let '(r, w) := run e (submit_route chain_txHash partyId signedXdr) (World d 0 []) in
  was_sent (w_log w) ->
  exists code s, r = Ok (ReplySettle code s) /\
    (code = 200 /\ sr_status s = "settled" \/ code = 422 /\ sr_status s <> "pending" \/
     code = 202 /\ sr_status s = "pending").
Proof.
  apply (wp_sound any_answer); [done|]. unfold submit_route.
  assert (Hno : ~ was_sent []) by done.
  wp_step; [by wp_step|]. wp_step; [|by wp_step]. wp_step. unfold findIntent. wp_step. wp_step; [done|].
  wp_step. wp_step; [|by wp_step]. wp_step; [by wp_step|]. wp_step; [by wp_step|].
  wp_step. wp_step. wp_step. destruct r0 as [h|x].
  - eapply wp_mono; [|apply wp_poll_replies]. by intros ? w' H _.
  - by wp_step.
Qed.
