(* ===== verification/IntentOverlap.v ===== *)
(** Settlements that overlap: submissions, settlements and sweeps whose operations interleave book an
    effect once, but for one more with each failure they report. *)
From S2P Require Import Prelude Prog Interleave Shape Schema Rules Domain Chain Intents IntentBooks IntentSafety.

(** ** The requests and what they report *)
Inductive OpReply := Recorded (txHash : string) | Replied (reply : Reply) | Swept (tally : Tally).

Definition op_thread (chain_txHash : string -> outcome string) (o : IntentOp) : intent_prog OpReply :=
  match o with
  | OpRecord args => h <- recordIntent chain_txHash args ;; Ret (Recorded h)
  | OpSubmit partyId signedXdr => r <- submit_route chain_txHash partyId signedXdr ;; Ret (Replied r)
  | OpSettle partyId hash => r <- settle_route partyId hash ;; Ret (Replied r)
  | OpSweep now => t <- sweepPendingIntents now ;; Ret (Swept t)
  end.

(** The failures a reply admits to: an exception, or the errors a sweep counted. *)
Definition reported (r : outcome OpReply) : nat :=
  match r with Ok (Swept t) => Z.to_nat (ta_errors t) | Ok _ => 0 | Err _ => 1 end.

(** The warnings in the log: a submission's failed attempts to settle. *)
Definition warnings (log : list (entry IntentCall string)) : nat :=
  count (fun x => match x with EOut _ => true | ECall _ _ => false end) log.

(** ** What a request does, as the others see it.  A member counts the failures it has recorded on an
    intent and not yet reported. *)
Notation world := intent_world.
Implicit Types w : world.

Definition recorded_new (d d' : Database) : Prop :=
  exists r, d' txIntent = d txIntent ++ [r] /\ ~ In (ti_txHash r) (List.map ti_txHash (d txIntent)) /\ forall h, booked h d' = booked h d.

Inductive settling : nat -> world -> world -> nat -> Prop :=
| S_same n w w' : same_db (w_db w) (w_db w') -> grown w w' -> settling n w w' n
| S_step n h w w' : has_pending h (w_db w) -> Step h (w_db w) (w_db w') -> grown w w' -> settling n w w' n
| S_record n w w' : recorded_new (w_db w) (w_db w') -> grown w w' -> settling n w w' n
| S_reopen n intent w w' : Reopened intent (w_db w) (w_db w') -> grown w w' -> settling n w w' (S n)
| S_warn n o w w' : same_db (w_db w) (w_db w') -> w_log w' = w_log w ++ [EOut o] -> settling (S n) w w' n.

Notation follows := (follows any_answer settling).

Lemma settling_same n w w' : w_db w' = w_db w -> grown w w' -> settling n w w' n.
Proof. intros E Hg. apply S_same; [by rewrite E|done]. Qed.
Lemma grown_same w w' : w_log w' = w_log w -> grown w w'.
Proof. exact (grown_refl w w'). Qed.
Lemma grown_entry w x : grown w (note w x).
Proof. by exists [x]. Qed.
Create HintDb overlap.
#[local] Hint Resolve grown_same grown_entry : overlap.

(** ** The programs follow it *)
(** A program that leaves the database alone. *)
Lemma follows_reads {A} calls (p : intent_prog A) (Fin : nat -> outcome A -> Prop) n :
  within leaves_db calls p -> (forall r, Fin n r) -> follows p Fin n.
Proof.
  intros Hp HF. revert Hp Fin HF.
  induction p as [A a|A x|A X q k IH|A X c k IH|A k IH|A o k IH|A X body IHb k IH]; intros Hp Fin HF; cbn in Hp |- *; auto.
  - destruct Hp as [Hq Hk]. intros w. split; [intros x; exists n; split; [by apply settling_same; auto with overlap|auto]|].
    intros s _. specialize (Hq s (w_db w)). destruct (q s (w_db w)) as [[v d']|x];
      [split; [|intros x _]|]; exists n; (split; [apply settling_same; [|auto with overlap]; done|auto]).
  - destruct Hp as [_ Hk]. intros w r _. exists n. split; [by apply settling_same; auto with overlap|auto].
  - intros w s _. exists n. split; [by apply settling_same; auto with overlap|auto].
  - intros w. exists n. split; [by apply settling_same; auto with overlap|auto].
  - destruct Hp as [Hb Hk]. intros w. eapply wp_mono; [|apply wp_and; [by apply (wp_leaves_db any_answer calls)|apply wp_grown]].
    intros r w' [Ed Hg]. apply wp_commit_any.
    destruct r as [v|x]; [split; [|split; intros x]|]; exists n; (split; [by apply settling_same|auto]).
Qed.

Lemma follows_transaction {A} (body : intent_prog A) (Fin : nat -> outcome A -> Prop) n :
  (forall w, wp any_answer body (wp_commit any_answer w (fun r w' => exists n', settling n w w' n' /\ Fin n' r)) w) ->
  follows (transaction body) Fin n.
Proof.
  intros H w. eapply wp_mono; [|apply H]. intros r w'. apply wp_commit_mono.
  intros r' w'' (n' & Ha & Hf). exists n'. split; [done|by apply follows_lift].
Qed.

(** A transaction that leaves the database, or moves one pending intent. *)
Lemma follows_one_step {A} h (body : intent_prog A) (Fin : nat -> outcome A -> Prop) n :
  (forall w, wp any_answer body (ok_db (fun _ d' => same_db (w_db w) d' \/ has_pending h (w_db w) /\ Step h (w_db w) d')) w) ->
  (forall r, Fin n r) -> follows (transaction body) Fin n.
Proof.
  intros Hb HF. apply follows_transaction. intros w. eapply wp_mono; [|apply wp_and; [apply Hb|apply wp_grown]].
  intros r w' [H Hg]. apply wp_commit_any.
  assert (Hold : forall r', exists n', settling n w (tick (with_db w' (w_db w))) n' /\ Fin n' r')
    by (intros r'; exists n; split; [by apply settling_same|done]).
  destruct r as [v|x]; [|apply Hold]. cbn [ok_db] in H.
  assert (Hnew : forall r', exists n', settling n w (tick w') n' /\ Fin n' r').
  { intros r'. exists n. split; [|done]. destruct H as [H|[Hp H]]; [by apply S_same|by eapply S_step]. }
  split; [apply Hnew|]. split; intros x; [apply Hold|apply Hnew].
Qed.

Lemma follows_settle_fail {A} intent err (Fin : nat -> outcome A -> Prop) n :
  Fin n (Err err) -> Fin (S n) (Err err) -> follows (settle_fail intent err) Fin n.
Proof.
  intros H0 H1. unfold settle_fail, recordSettleError. apply follows_bind, follows_catch, follows_bind, follows_stmt. intros w.
  apply wp_stmt_update; [intros x; exists n; split; [by apply settling_same; auto with overlap|done]|].
  intros s. cbn zeta.
  match goal with |- context [after w ?d] => assert (Hre : settling n w (after w d) (S n)) end.
  { apply (S_reopen n intent); [split|auto with overlap].
    - intros t Ht _. world_simpl. by rewrite set_table_other.
    - exists (exn_message err). unfold rows_updated. world_simpl. by rewrite set_table_same. }
  split; [|intros x]; exists (S n); (split; [exact Hre|exact H1]).
Qed.

Lemma reads_contract intent : within leaves_db any_call (readContractState intent).
Proof. unfold readContractState. auto 20 with within. Qed.

Lemma follows_settle_closed intent v ledger (Fin : nat -> outcome Settled -> Prop) n :
  (forall r, Fin n r) -> (forall x, Fin (S n) (Err x)) -> follows (settle_closed intent v ledger) Fin n.
Proof.
  intros H0 H1. assert (Hfail : forall x, follows (settle_fail intent x) Fin n) by (intros x; by apply follows_settle_fail).
  unfold settle_closed. apply follows_bind.
  assert (Hbody : forall cs, follows (catch
    (settleRes <- transaction (runWithDb intent v ledger cs) ;;
     match settleRes with
     | Some r => Ret (SettledR r false)
     | None =>
         found <- findIntent (ti_txHash intent) ;;
         let current := default intent found in
         Ret (SettledR (result current (ti_status current) (ti_ledger current)) false)
     end) (settle_fail intent)) Fin n).
  { intros cs. apply follows_catch, follows_bind. apply (follows_one_step (ti_txHash intent)).
    - intros w. eapply wp_mono; [|apply wp_runWithDb]. intros [[r|]|x] w'; cbn [ok_db]; [|by left|done].
      intros [_ Hm]. right. split; [by destruct Hm as [(r0 & ? & ?) _]; exists r0|by eapply Moved_Step].
    - intros [[r|]|x]; [apply H0| |apply Hfail]. apply (follows_reads any_call).
      + unfold findIntent. auto 10 with within.
      + intros [s|x]; [apply H0|apply Hfail]. }
  destruct v as [rv|]; [|apply Hbody]. apply follows_catch, (follows_reads any_call); [apply reads_contract|].
  intros [cs|x]; [apply Hbody|]. by apply follows_settle_fail.
Qed.

Lemma follows_settle intent (Fin : nat -> outcome Settled -> Prop) n :
  (forall r, Fin n r) -> (forall x, Fin (S n) (Err x)) -> follows (settle intent) Fin n.
Proof.
  intros H0 H1. unfold settle. destruct (negb _); [apply H0|]. apply follows_bind, follows_call. intros w r _.
  exists n. split; [by apply settling_same; auto with overlap|].
  destruct r as [[ledger rv|ledger|]|x]; [by apply follows_settle_closed..|apply H0|apply H0].
Qed.

Lemma follows_settleIntent intent (Fin : nat -> outcome SettleResult -> Prop) n :
  (forall r, Fin n r) -> (forall x, Fin (S n) (Err x)) -> follows (settleIntent intent) Fin n.
Proof. intros H0 H1. apply follows_bind, follows_settle; [|done]. intros [s|x]; apply H0. Qed.

(** ** The requests follow it, and have reported what they recorded when they end *)
Definition told {A} (n : nat) (r : outcome A) : Prop := n = 0%nat \/ n = 1%nat /\ is_ok r = false.
Definition accounted (n : nat) (r : outcome OpReply) : Prop := (n <= reported r)%nat.

Lemma follows_found_intent {A} h (k : option IntentRow -> intent_prog A) (Fin : nat -> outcome A -> Prop) n :
  (forall o, follows (k o) Fin n) -> (forall x, Fin n (Err x)) -> follows (found <- findIntent h ;; k found) Fin n.
Proof.
  intros Hk HF. apply follows_bind, (follows_reads any_call); [unfold findIntent; auto with within|]. by intros [o|x].
Qed.

Lemma follows_poll attempts intent (Fin : nat -> outcome Reply -> Prop) :
  (forall r, Fin 0%nat (Ok r)) -> follows (poll_settle attempts intent) Fin 0%nat.
Proof.
  intros HF. induction attempts as [|attempts IH]; cbn [poll_settle]; [apply HF|].
  apply follows_bind, follows_attempt, follows_settleIntent.
  - intros [s|x]; [destruct (negb _); [apply HF|exact IH]|]. intros w. exists 0%nat. split; [by apply settling_same; auto with overlap|exact IH].
  - intros x w. exists 0%nat. split; [by apply (S_warn 0 ("settle attempt failed; intent is still pending: " +:+ exn_message x))|exact IH].
Qed.

Lemma follows_submit chain partyId xdr : follows (submit_route chain partyId xdr) told 0%nat.
Proof.
  unfold submit_route. destruct (eqs xdr ""); [by left|]. destruct (chain xdr) as [h|x]; [|by left].
  apply follows_found_intent; [|by left]. intros [intent|]; [|by left]. destruct (negb _); [by left|]. destruct (negb _); [by left|].
  apply follows_bind, follows_attempt, follows_call. intros w r _. exists 0%nat. split; [by apply settling_same; auto with overlap|].
  destruct r as [s|x]; [|by left]. apply follows_poll. by left.
Qed.

Lemma follows_settle_route partyId hash : follows (settle_route partyId hash) told 0%nat.
Proof.
  unfold settle_route. apply follows_found_intent; [|by left]. intros [intent|]; [|by left]. destruct (negb _); [by left|].
  apply follows_bind, follows_settleIntent; [intros [s|x]; by left|]. intros x. by right.
Qed.

Lemma follows_sweep_step now t intent n :
  0 <= ta_errors t -> (n <= Z.to_nat (ta_errors t))%nat ->
  follows (sweep_step now t intent)
    (fun n' r => match r with Ok t' => 0 <= ta_errors t' /\ (n' <= Z.to_nat (ta_errors t'))%nat | Err _ => False end) n.
Proof.
  intros Ht Hn. unfold sweep_step. set (Fin := fun n' r => _). apply follows_bind, follows_attempt.
  assert (Hsame : forall t' n', ta_errors t' = ta_errors t \/ ta_errors t' = ta_errors t + 1 ->
    (n' <= n)%nat \/ (n' <= S n)%nat /\ ta_errors t' = ta_errors t + 1 -> Fin n' (Ok t')).
  { intros t' n' E Hn'. unfold Fin. lia. }
  apply follows_settle.
  - intros [s|x]; cbv zeta iota.
    + destruct (eqs _ "settled"); [apply Hsame; auto|]. destruct (eqs _ "failed"); [apply Hsame; auto|].
      destruct (_ && _); [|apply Hsame; auto]. apply follows_catch, follows_bind, (follows_one_step (ti_txHash intent)).
      * intros w. apply wp_write_off_step.
      * intros [[]|x]; apply Hsame; cbn; auto.
    + cbn. apply Hsame; cbn; auto.
  - intros x. cbn. apply Hsame; cbn; auto.
Qed.

Definition swept (n : nat) (r : outcome Tally) : Prop :=
  match r with Ok t => (n <= Z.to_nat (ta_errors t))%nat | Err _ => n = 0%nat end.

Lemma follows_sweep_all now t pending n :
  0 <= ta_errors t -> (n <= Z.to_nat (ta_errors t))%nat -> follows (fold (sweep_step now) t pending) swept n.
Proof.
  revert t n. induction pending as [|intent pending IH]; intros t n Ht Hn; cbn [fold]; [exact Hn|].
  apply follows_bind. eapply follows_mono; [|by apply follows_sweep_step]. intros n' [t'|x]; [intros []; by apply IH|done].
Qed.

Lemma follows_sweep now : follows (sweepPendingIntents now) swept 0%nat.
Proof.
  unfold sweepPendingIntents. apply follows_bind, (follows_reads any_call); [auto with within|].
  intros [pending|x]; [|done]. by apply follows_sweep_all.
Qed.

Lemma follows_record chain args : follows (recordIntent chain args) told 0%nat.
Proof.
  unfold recordIntent. destruct (chain _) as [h|x]; [|by left]. cbn [lift bind]. apply follows_bind, follows_stmt. intros w.
  assert (Herr : exists n, settling 0 w (tick w) n /\ True) by (exists 0%nat; split; [by apply settling_same; auto with overlap|done]).
  split; [intros x; exists 0%nat; split; [by apply settling_same; auto with overlap|by left]|]. intros s _. unfold insert.
  set (r := TxIntent _ _ _ _ _ _ _ _ _ _).
  destruct (negb (in_range txIntent r)); [exists 0%nat; split; [by apply settling_same; auto with overlap|by left]|].
  destruct (conflicts txIntent r (w_db w)) eqn:Hc; [exists 0%nat; split; [by apply settling_same; auto with overlap|by left]|].
  destruct (negb (references_ok _ _ _)); [exists 0%nat; split; [by apply settling_same; auto with overlap|by left]|].
  assert (Hnew : forall n, settling n w (tick (with_db w (set_table txIntent (w_db w txIntent ++ [r]) (w_db w)))) n).
  { intros n. apply S_record; [|auto with overlap]. exists r. world_simpl. split; [by rewrite set_table_same|]. split.
    - intros (r0 & E & Hr)%in_map_iff. unfold conflicts in Hc. apply not_true_iff_false in Hc. apply Hc.
      apply existsb_exists. exists r0. split; [done|]. cbn in E |- *. by apply bool_decide_eq_true.
    - intros h'. by apply booked_ext; rewrite set_table_other. }
  split; [|intros x _]; exists 0%nat; (split; [apply Hnew|by left]).
Qed.

Lemma follows_op chain o : follows (op_thread chain o) accounted 0%nat.
Proof.
  assert (Htold : forall A (f : A -> OpReply) (p : intent_prog A), (forall a, reported (Ok (f a)) = 0%nat) -> follows p told 0%nat ->
    follows (a <- p ;; Ret (f a)) accounted 0%nat).
  { intros A f p Hf Hp. apply follows_bind. eapply follows_mono; [|exact Hp]. intros n [a|x] [->|[-> Hr]]; unfold accounted; cbn in *; try lia; done. }
  destruct o; cbn [op_thread].
  - apply Htold; [done|apply follows_record].
  - apply Htold; [done|apply follows_submit].
  - apply Htold; [done|apply follows_settle_route].
  - apply follows_bind. eapply follows_mono; [|apply follows_sweep]. intros n [t|x]; unfold accounted; cbn; [done|lia].
Qed.

(** ** The invariant *)
Definition budget (ns : list nat) w : nat := (list_sum ns + warnings (w_log w))%nat.

Definition books_within (ns : list nat) w : Prop := forall h,
  (booked h (w_db w) <= S (budget ns w))%nat /\
  (none_pending h (w_db w) \/ (booked h (w_db w) <= budget ns w)%nat) /\
  (In h (List.map ti_txHash (w_db w txIntent)) \/ booked h (w_db w) = 0%nat).

Lemma list_sum_insert ns i n n' : ns !! i = Some n -> (list_sum (<[i := n']> ns) + n = list_sum ns + n')%nat.
Proof.
  revert i. induction ns as [|m ns IH]; intros [|i] Hi; [done..| |].
  - injection Hi as ->. change (n' + list_sum ns + n = n + list_sum ns + n')%nat. lia.
  - specialize (IH i Hi). change (m + list_sum (<[i := n']> ns) + n = m + list_sum ns + n')%nat. lia.
Qed.

Lemma warnings_grown w w' : grown w w' -> (warnings (w_log w) <= warnings (w_log w'))%nat.
Proof. intros [l E]. rewrite E. unfold warnings. rewrite count_app. lia. Qed.

Lemma not_pending_both h d : none_pending h d -> has_pending h d -> False.
Proof. intros Hn (r & Hr & Hp). by rewrite Hn in Hp. Qed.

(** What is booked is within the budget still, when the database is as it was or only the budget grew. *)
Lemma books_within_same ns ns' w w' :
  books_within ns w -> same_db (w_db w) (w_db w') -> (budget ns w <= budget ns' w')%nat -> books_within ns' w'.
Proof.
  intros HJ Hs Hb h. destruct (HJ h) as (H1 & H2 & H3). unfold none_pending in *.
  assert (E : booked h (w_db w') = booked h (w_db w)) by (by apply booked_ext). rewrite E, (Hs txIntent).
  split; [lia|]. split; [|done]. destruct H2; [by left|right; lia].
Qed.

Lemma books_within_move ns w i n w' n' :
  books_within ns w -> ns !! i = Some n -> settling n w w' n' -> books_within (<[i := n']> ns) w'.
Proof.
  intros HJ Hi Hstep. pose proof (list_sum_insert ns i n n' Hi) as Hsum.
  destruct Hstep as [n w w' Hs Hg|n h w w' Hp Hs Hg|n w w' (r & Er & Hnew & Hb) Hg|n intent w w' Hr Hg|n o w w' Hs El].
  - pose proof (warnings_grown _ _ Hg). eapply books_within_same; [done..|]. unfold budget. lia.
  - pose proof (warnings_grown _ _ Hg) as Hw. assert (Hbud : (budget ns w <= budget (<[i:=n]> ns) w')%nat) by (unfold budget; lia).
    intros h'. destruct (HJ h') as (H1 & H2 & H3). rewrite (step_keys _ _ _ Hs). destruct (decide (h' = h)) as [->|Hne].
    + destruct H2 as [H2|H2]; [by destruct (not_pending_both _ _ H2 Hp)|].
      assert (Hin : In h (List.map ti_txHash (w_db w txIntent))).
      { destruct Hp as (r & Hr & Hp). apply is_pending_hash in Hp as <-. by apply in_map. }
      destruct (step_self _ _ _ Hs) as [E|[E Hn]]; rewrite E; (split; [lia|]); (split; [|by left]); [right; lia|by left].
    + rewrite (step_booked _ _ _ Hs h') by done. split; [lia|]. split; [|done].
      destruct H2; [left; by apply (step_none _ _ _ Hs)|right; lia].
  - pose proof (warnings_grown _ _ Hg) as Hw. assert (Hbud : (budget ns w <= budget (<[i:=n]> ns) w')%nat) by (unfold budget; lia).
    intros h'. destruct (HJ h') as (H1 & H2 & H3). rewrite Hb, Er, List.map_app. split; [lia|]. cbn [row] in *.
    split; [|destruct H3; [left; apply in_app_iff; by left|by right]].
    destruct (decide (h' = ti_txHash r)) as [->|Hne]; [right; destruct H3; [done|lia]|].
    destruct H2 as [H2|H2]; [left|right; lia]. unfold none_pending. rewrite Er. cbn [row].
    intros r' [Hr'|[<-|[]]]%in_app_iff; [by apply H2|]. unfold is_pending, is_intent. by rewrite eqs_other.
  - pose proof (warnings_grown _ _ Hg) as Hw. pose proof (Reopened_Step _ _ _ Hr) as Hs. intros h'. destruct (HJ h') as (H1 & H2 & H3).
    rewrite (Reopened_booked _ _ _ h' Hr), (step_keys _ _ _ Hs). unfold budget in *. split; [lia|]. split; [right; lia|done].
  - eapply books_within_same; [done..|]. unfold budget. rewrite El. unfold warnings. rewrite count_app. cbn. lia.
Qed.

(** What the members had recorded when they ended is what they report. *)
Lemma all_accounted (rs : list (outcome OpReply)) ns :
  Forall2 (fun p n => follows p accounted n) (List.map ended rs) ns -> (list_sum ns <= list_sum (List.map reported rs))%nat.
Proof.
  revert ns. induction rs as [|r rs IH]; intros ns Hf; cbn in Hf; inversion Hf as [|p n ps ns' Hr Hrs]; subst; cbn; [done|].
  specialize (IH _ Hrs). assert (n <= reported r)%nat by (by destruct r). unfold list_sum in *. lia.
Qed.

(** C4. Overlapping settlements book an effect once, or own up.  Take any intents recorded, envelopes
    submitted, settlements asked for and sweeps run, all in progress at once, under any interleaving of
    their operations, any answers of the network and of the contracts and any database faults, lost
    acknowledgements included, from a database that satisfies [Inv]; and let them all have ended.  Then
    the draws, repayments and fills booked under a transaction hash number at most one more than the
    failures the requests reported: the exceptions thrown, the errors the sweeps counted and the
    warnings submissions logged.  An intent still pending has at most as many bookings as there were
    failures; so where none is reported, what is booked is booked once, for an intent on file that is
    not pending any more. *)
Theorem overlapping_settlements_book_once_or_report (e : env IntentCall) chain_txHash (ops : list IntentOp) (schedule : list nat)
    (d : Database) (rs : list (outcome OpReply)) w h (Hd : Inv d)
    (Hend : interleave e schedule (List.map (op_thread chain_txHash) ops, World d 0 []) = (List.map ended rs, w)) :
  let failures := (list_sum (List.map reported rs) + warnings (w_log w))%nat in
  (booked h (w_db w) <= S failures)%nat /\
  (has_pending h (w_db w) -> (booked h (w_db w) <= failures)%nat) /\
  (booked h (w_db w) <> 0%nat -> In h (List.map ti_txHash (w_db w txIntent))).
Proof.
  intros failures. set (ns := List.map (fun _ : IntentOp => 0%nat) ops).
  assert (H0 : list_sum ns = 0%nat) by (subst ns; clear; induction ops; done).
  assert (Hstart : books_within ns (World d 0 [])).
  { intros h'. destruct Hd as [_ Hi]. unfold budget. rewrite H0. cbn [w_db w_log]. change (warnings []) with 0%nat. destruct (Hi h') as [E|(E & Hn & Hin)].
    - rewrite E. split; [lia|]. split; right; [lia|done].
    - rewrite E. split; [lia|]. split; by left. }
  destruct (interleave_invariant any_answer settling e accounted books_within schedule
    (List.map (op_thread chain_txHash) ops) ns (World d 0 [])) as (ns' & HJ & Hf); [done| |done|intros; by eapply books_within_move|].
  - subst ns. clear. induction ops as [|o l IH]; constructor; [apply follows_op|exact IH].
  - rewrite Hend in HJ, Hf. cbn [fst snd] in HJ, Hf. apply all_accounted in Hf. destruct (HJ h) as (H1 & H2 & H3).
    unfold budget in *. fold failures in Hf. subst failures. split; [lia|]. split.
    + intros Hp. destruct H2 as [H2|H2]; [by destruct (not_pending_both _ _ H2 Hp)|lia].
    + intros Hne. by destruct H3.
Qed.

(** ** Concrete interleavings *)
(** A settlement and a sweep of one pending repayment at once: both ask the network, and read the line;
    the one that commits second finds the intent settled. *)
Definition two_at_once (bad : nat) (schedule : list nat) : list (intent_prog OpReply) * world :=
  interleave (sample_env bad) schedule (List.map (op_thread Ok) [OpSettle "party1" "tx1"; OpSweep 5], World sample_db 0 []).

Definition in_lockstep : list nat := List.concat (List.repeat [0; 1]%nat 12).

Lemma overlapping_settlements_book_once_or_report_witness :
  let w := snd (two_at_once 0 in_lockstep) in
  (booked "tx1" (w_db w) <= 1)%nat /\ booked "tx1" (w_db w) = 1%nat.
Proof.
  cbv zeta. split; [|vm_compute; reflexivity].
  refine (proj1 (overlapping_settlements_book_once_or_report (sample_env 0) Ok [OpSettle "party1" "tx1"; OpSweep 5] in_lockstep sample_db
    [Ok (Replied (ReplySettle 200 (SResult "tx1" "credit_line.repay" (Some "line1") "settled" (Some 12)))); Ok (Swept (Tallied 1 0 0 0))]
    (snd (two_at_once 0 in_lockstep)) "tx1" _ _)).
  - split.
    + simpl. rewrite !NoDup_cons. split; [|split; [|apply NoDup_nil_2]]; intros H;
        apply list_elem_of_In in H; simpl in H; naive_solver.
    + intros h. unfold booked, none_pending. simpl. unfold count. simpl.
      destruct (eqs "tx0" h) eqn:E; simpl; [|by left]. right. split; [done|].
      apply bool_decide_eq_true in E as <-. split; [|by right; left].
      intros r [<-|[<-|[]]]; done.
  - vm_compute. reflexivity.
Defined.

(** The bound is reached.  Both settlements read the intent as pending; one settles it, the other's
    contract read then fails, and noting that error makes the intent pending again; a third books the
    repayment a second time.  One failure was reported. *)
Lemma reported_failure_books_again :
  let schedule := List.repeat 1%nat 2 ++ List.repeat 0%nat 20 ++ List.repeat 1%nat 20 ++ List.repeat 2%nat 20 in
  let '(threads, w) := interleave (sample_env 13) schedule
    (List.map (op_thread Ok) [OpSettle "party1" "tx1"; OpSettle "party1" "tx1"; OpSettle "party1" "tx1"], World sample_db 0 []) in
  let reply := Ok (Replied (ReplySettle 200 (SResult "tx1" "credit_line.repay" (Some "line1") "settled" (Some 12)))) in
  threads = List.map ended [reply; Err (Error "rpc down"); reply] /\ booked "tx1" (w_db w) = 2%nat.
Proof. vm_compute. auto. Qed.
