(* ===== verification/Keeper.v ===== *)
(** [services/keeper]: the scheduled jobs that sign with the keeper's key, the advisory lock around
    each run ([lock.ts]) and the queue that runs them one at a time ([jobQueue.ts]). *)
From S2P Require Import Prelude Prog Schema Rules Domain Rpc Chain Intents.

(** ** What the jobs call *)

(** A contract invocation for which a client builds an unsigned envelope. *)
Inductive Invocation :=
| Poke (line : Z) (source : string)
| LiquidateLine (source : string) (line : Z) (route : string)
| LiquidateVault (source : string) (line : Z) (asset : string) (units : Z) (to : string)
| SyncCollateral (source : string) (line : Z) (units : Z)
| Unwind (source : string) (trade : Z)
| CallMargin (source : string) (trade : Z)
| DefaultClose (source : string) (trade : Z).

Inductive KeeperCall : Type -> Type :=
| Now : KeeperCall Z
| GetLtv (line : Z) : KeeperCall LtvView
| GetLine (line : Z) : KeeperCall OnChainLine
| PositionUnits (line : Z) (asset : string) : KeeperCall Z
| GetTrade (trade : Z) : KeeperCall OnChainRepoTrade
| MarginView (trade : Z) : KeeperCall OnChainRepoMargin
| Build (i : Invocation) : KeeperCall string
| Sign (unsignedXdr : string) : KeeperCall string
| SendTransaction (signedXdr : string) : KeeperCall SendResponse
| GetTransactionStatus (hash : string) : KeeperCall string
  (** The lock's reserved connection. *)
| Reserve : KeeperCall unit
| TryLock (key : string) : KeeperCall bool
| Unlock (key : string) : KeeperCall unit
| Release : KeeperCall unit.

(** Decoding an envelope is the SDK's. *)
Class KeeperSdk := { envelope_ok : string -> outcome unit }.

#[export] Instance keeper_rpc `{KeeperSdk} : RpcServer KeeperCall := {|
  sendTransaction := SendTransaction;
  getTransaction := GetTransactionStatus;
  parseEnvelope := envelope_ok |}.

Notation keeper_prog := (prog Database KeeperCall string).
Notation keeper_world := (world Database KeeperCall string).

(** ** jobs/types.ts *)
Record JobResult := JobR { jr_processed : Z; jr_skipped : Z; jr_errors : list (string * string) }.
Definition emptyResult : JobResult := JobR 0 0 [].
Definition processed1 (r : JobResult) := JobR (jr_processed r + 1) (jr_skipped r) (jr_errors r).
Definition skipped1 (r : JobResult) := JobR (jr_processed r) (jr_skipped r + 1) (jr_errors r).
Definition failed1 (id : string) (err : exn) (r : JobResult) :=
  JobR (jr_processed r) (jr_skipped r) (jr_errors r ++ [(id, exn_message err)]).

(** What one row of a job ends with. *)
Inductive RowOutcome := Processed | Skipped.
Definition count_row (r : JobResult) (o : RowOutcome) : JobResult :=
  match o with Processed => processed1 r | Skipped => skipped1 r end.

(** [try { ... } catch (err) { result.errors.push({ id, message }) }] around one row. *)
Definition guarded_row (id : string) (row : keeper_prog RowOutcome) (r : JobResult) : keeper_prog JobResult :=
  catch (o <- row ;; Ret (count_row r o)) (fun err => Ret (failed1 id err r)).

Section Jobs.
Context `{KeeperSdk} (keeper : string).

(** [signAndSubmit(signer, await client.op(...))]. *)
Definition signAndSubmit (unsignedXdr : string) : keeper_prog string :=
  signedXdr <- call (Sign unsignedXdr) ;;
  submitted <- submitSignedTx signedXdr ;;
  Ret (su_hash submitted).

Definition invoke (i : Invocation) : keeper_prog string :=
  unsignedXdr <- call (Build i) ;; signAndSubmit unsignedXdr.

(** ** jobs/cureExpiry.ts *)
Definition UNHEALTHY (state : string) : bool := eqs state "MarginCall" || eqs state "Liquidation".

Definition EVENT_LOOKBACK : nat := 50.

(** The oldest event of the unbroken unhealthy stretch at the head of [events]. *)
Fixpoint breach_start (start : Z) (events : list marginEvent_row) : Z :=
  match events with
  | [] => start
  | e :: es => if negb (UNHEALTHY (me_toState e)) then start else breach_start (me_createdAt e) es
  end.

Definition line_events (lineId : string) : keeper_prog (list marginEvent_row) :=
  rows <- stmt (select marginEvent (fun e => eqs (me_creditLineId e) lineId)) ;;
  Ret (take EVENT_LOOKBACK (order_desc me_createdAt rows)).

Definition set_liquidation_hashes (hashes : list string) (completedAt : Z) (r : liquidation_row) : liquidation_row :=
  Schema.Liquidation (li_id r) (li_creditLineId r) (li_route r) (li_units r) (li_proceeds r)
    (li_shortfall r) (Some hashes) (li_startedAt r)
    (Some (default completedAt (li_completedAt r))).

Definition active_pledges (lineId : string) : keeper_prog (list pledge_row) :=
  stmt (select pledge (fun p => eqs (pl_creditLineId p) lineId && eqs (pl_status p) "active")).

(** The booking transaction. *)
Definition book_liquidation (line : creditLine_row) (totalUnits : Z) (txHashes : list string) : keeper_prog unit :=
  pledges <- active_pledges (cl_id line) ;;
  fold (fun _ p => update_row pledge (fun p' => eqs (pl_id p') (pl_id p)) (set_pledge_status "liquidated")) tt pledges ;;;
  existing <- select_one liquidation (fun l => eqs (li_creditLineId l) (cl_id line)) ;;
  (match existing with
   | None =>
       units <- lift (scaledToDecimalString totalUnits) ;;
       stmt (insert liquidation (fun s =>
         Schema.Liquidation (st_uuid s) (cl_id line) "transfer" units None None (Some txHashes)
           (st_now s) (Some (st_now s))))
   | Some ex =>
       if bool_decide (txHashes = []) then Ret tt
       else
         stmt (update liquidation (fun l => eqs (li_id l) (li_id ex))
           (fun s => set_liquidation_hashes (dedup [] (default [] (li_txHashes ex) ++ txHashes)) (st_now s))) ;;;
         Ret tt
   end) ;;;
  update_row creditLine (fun l => eqs (cl_id l) (cl_id line)) (set_line_status "liquidating").

(** The checks made before liquidating: [None] to go on, [Some] to count the row and move on. *)
Definition ready_to_liquidate (line : creditLine_row) (events : list marginEvent_row)
    (contractLine : Z) (view : LtvView) (onChain : OnChainLine) : keeper_prog bool :=
  if negb (eqs (lv_state view) "Liquidation") || negb (eqs (lv_priceStatus view) "Ok")
  then Ret false
  else match oc_breachLedger onChain with
  | None => invoke (Poke contractLine keeper) ;;; Ret false
  | Some _ =>
      let breachStart := breach_start (match events with e :: _ => me_createdAt e | [] => 0 end) events in
      now <- call Now ;;
      Ret (negb (now <? breachStart + cl_cureWindowS line * 1000))
  end.

(** From the vault read on: seize, then book. *)
Definition seize (line : creditLine_row) (contractLine : Z) (onChain : OnChainLine) : keeper_prog RowOutcome :=
  let alreadyLiquidating := eqs (oc_status onChain) "Liquidating" in
  account <- select_one partyAccount (fun a => eqs (pc_partyId a) (cl_lenderId line)) ;;
  match account with
  | None => Throw (Error ("no stellar account on file for lender " +:+ cl_lenderId line))
  | Some lenderAccount =>
      held <- call (PositionUnits contractLine (oc_asset onChain)) ;;
      if negb alreadyLiquidating && negb (held =? oc_pledgedUnits onChain) then Ret Skipped
      else
        h1 <- (if negb alreadyLiquidating
               then h <- invoke (LiquidateLine keeper contractLine "transfer") ;; Ret [h]
               else Ret []) ;;
        h2 <- (if 0 <? held
               then h <- invoke (LiquidateVault keeper contractLine (oc_asset onChain) held
                                   (pc_stellarAccount lenderAccount)) ;; Ret [h]
               else Ret []) ;;
        active <- active_pledges (cl_id line) ;;
        totalUnits <- (if alreadyLiquidating && (held =? 0)
                       then lift (sum_scaled pl_units active) else Ret held) ;;
        if totalUnits =? 0
        then Throw (Error ("no seized units recoverable for line " +:+ cl_id line))
        else
          transaction (book_liquidation line totalUnits (h1 ++ h2)) ;;; Ret Processed
  end.

Definition cure_row (line : creditLine_row) (events : list marginEvent_row) : keeper_prog RowOutcome :=
  contractLine <- lift (BigInt_nullable (cl_contractLineId line)) ;;
  view <- call (GetLtv contractLine) ;;
  onChain <- call (GetLine contractLine) ;;
  go <- (if negb (eqs (oc_status onChain) "Liquidating")
         then ready_to_liquidate line events contractLine view onChain
         else Ret true) ;;
  if negb go then Ret Skipped else seize line contractLine onChain.

Definition cure_step (result : JobResult) (line : creditLine_row) : keeper_prog JobResult :=
  events <- line_events (cl_id line) ;;
  match events with
  | [] => Ret (skipped1 result)
  | e :: _ =>
      if negb (UNHEALTHY (me_toState e)) || negb (truthy_id (cl_contractLineId line))
      then Ret (skipped1 result)
      else guarded_row (cl_id line) (cure_row line events) result
  end.

Definition open_lines : keeper_prog (list creditLine_row) :=
  stmt (select creditLine (fun l => eqs (cl_status l) "open")).

Definition runCureExpiryJob : keeper_prog JobResult :=
  openLines <- open_lines ;; fold cure_step emptyResult openLines.

(** ** jobs/syncCollateral.ts, jobs/interestAccrual.ts *)
Definition sync_row (line : creditLine_row) : keeper_prog RowOutcome :=
  contractLine <- lift (BigInt_nullable (cl_contractLineId line)) ;;
  onChain <- call (GetLine contractLine) ;;
  held <- call (PositionUnits contractLine (oc_asset onChain)) ;;
  if oc_pledgedUnits onChain =? held then Ret Skipped
  else invoke (SyncCollateral keeper contractLine held) ;;; Ret Processed.

Definition accrual_row (line : creditLine_row) : keeper_prog RowOutcome :=
  contractLine <- lift (BigInt_nullable (cl_contractLineId line)) ;;
  invoke (Poke contractLine keeper) ;;; Ret Processed.

Definition line_step (row : creditLine_row -> keeper_prog RowOutcome) (result : JobResult)
    (line : creditLine_row) : keeper_prog JobResult :=
  if negb (truthy_id (cl_contractLineId line)) then Ret (skipped1 result)
  else guarded_row (cl_id line) (row line) result.

Definition runSyncCollateralJob : keeper_prog JobResult :=
  openLines <- open_lines ;; fold (line_step sync_row) emptyResult openLines.

Definition runInterestAccrualJob : keeper_prog JobResult :=
  openLines <- open_lines ;; fold (line_step accrual_row) emptyResult openLines.

(** ** jobs/repoMargin.ts.  [now] is in ms; the deadline is in Unix seconds. *)
Definition update_trade_status (st : string) (id : string) : keeper_prog unit :=
  update_row repoTrade (fun t => eqs (rt_id t) id) (set_trade_status st).

Definition record_call_or_cure (now : Z) (tradeId : string) (after : OnChainRepoTrade) : keeper_prog unit :=
  let cure :=
    stmt (update repoMarginCall (fun c => eqs (mc_tradeId c) tradeId && bool_decide (mc_curedAt c = None))
      (fun _ => set_call_cured now)) ;;; Ret tt in
  if ot_pendingMarginCall after
  then match ot_cureDeadline after with
       | Some due =>
           amount <- lift (scaledToDecimalString (ot_marginCallAmount after)) ;;
           stmt (insert repoMarginCall (fun s =>
             RepoMarginCall (st_uuid s) tradeId amount "USDC" (due * 1000) None))
       | None => cure
       end
  else cure.

Definition margin_row (now : Z) (trade : repoTrade_row) : keeper_prog RowOutcome :=
  id <- lift (BigInt_nullable (rt_contractTradeId trade)) ;;
  onChain <- call (GetTrade id) ;;
  if negb (eqs (ot_status onChain) "Settled")
  then (if eqs (ot_status onChain) "Defaulted"
        then update_trade_status "defaulted" (rt_id trade) else Ret tt) ;;; Ret Skipped
  else
    view <- call (MarginView id) ;;
    if negb (om_priceOk view) then Ret Skipped
    else
      let inBand := UNHEALTHY (om_state view) in
      if ot_pendingMarginCall onChain && inBand &&
         match ot_cureDeadline onChain with Some deadline => deadline * 1000 <=? now | None => false end
      then
        invoke (DefaultClose keeper id) ;;;
        update_trade_status "defaulted" (rt_id trade) ;;; Ret Processed
      else if negb (Bool.eqb inBand (ot_pendingMarginCall onChain))
      then
        invoke (CallMargin keeper id) ;;;
        after <- call (GetTrade id) ;;
        record_call_or_cure now (rt_id trade) after ;;; Ret Processed
      else Ret Skipped.

Definition margin_step (now : Z) (result : JobResult) (trade : repoTrade_row) : keeper_prog JobResult :=
  if negb (truthy_id (rt_contractTradeId trade)) then Ret (skipped1 result)
  else guarded_row (rt_id trade) (margin_row now trade) result.

Definition runRepoMarginJob (now : Z) : keeper_prog JobResult :=
  settled <- stmt (select repoTrade (fun t => eqs (rt_status t) "settled")) ;;
  fold (margin_step now) emptyResult settled.

(** ** jobs/repoUnwind.ts.  The trade id is parsed outside the row's [try]: a malformed one ends the
    whole job. *)
Definition unwind_row (trade : repoTrade_row) (contractId : Z) : keeper_prog RowOutcome :=
  onChain <- call (GetTrade contractId) ;;
  if negb (eqs (ot_status onChain) "Settled")
  then
    if eqs (ot_status onChain) "Unwound"
    then update_trade_status "unwound" (rt_id trade) ;;; Ret Processed
    else if eqs (ot_status onChain) "Defaulted"
    then update_trade_status "defaulted" (rt_id trade) ;;; Ret Skipped
    else Ret Skipped
  else
    hash <- invoke (Unwind keeper contractId) ;;
    update_row repoTrade (fun t => eqs (rt_id t) (rt_id trade)) (set_trade_unwound hash) ;;;
    Ret Processed.

Definition unwind_step (result : JobResult) (trade : repoTrade_row) : keeper_prog JobResult :=
  if negb (truthy_id (rt_contractTradeId trade)) then Ret (skipped1 result)
  else contractId <- lift (BigInt_nullable (rt_contractTradeId trade)) ;;
       guarded_row (rt_id trade) (unwind_row trade contractId) result.

Definition runRepoUnwindJob : keeper_prog JobResult :=
  now <- call Now ;;
  due <- stmt (select repoTrade (fun t => eqs (rt_status t) "settled" && (rt_maturityAt t <=? now))) ;;
  fold unwind_step emptyResult due.
End Jobs.

(** ** lock.ts *)
Definition getLockKey (name : string) (scope KEEPER_LOCK_SCOPE : option string) : string :=
  let resolvedScope :=
    match scope with Some s => s | None => default "job" KEEPER_LOCK_SCOPE end in
  if eqs resolvedScope "global" then "keeper:global" else "keeper:" +:+ name.

(** [PostgresLockProvider.acquire]: whether the lock was taken; the client it returns is [unlock]
    and [release] on the same reserved connection. *)
Definition acquire (lockKey : string) : keeper_prog bool :=
  call Reserve ;;;
  catch
    (locked <- call (TryLock lockKey) ;;
     if negb locked then call Release ;;; Ret false else Ret true)
    (fun err => call Release ;;; Throw err).

Definition lock_unlock (lockKey : string) : keeper_prog unit :=
  catch (call (Unlock lockKey)) (fun _ => Ret tt).

(** [try { body } finally { fin }]. *)
Definition finally {A} (body : keeper_prog A) (fin : keeper_prog unit) : keeper_prog A :=
  r <- attempt body ;; fin ;;; lift r.

Definition executeJobWithLock (name : string) (fn : keeper_prog JobResult)
    (scope KEEPER_LOCK_SCOPE : option string) : keeper_prog bool :=
  let lockKey := getLockKey name scope KEEPER_LOCK_SCOPE in
  locked <- attempt (acquire lockKey) ;;
  match locked with
  | Err err => emit "keeper: error acquiring advisory lock" ;;; Ret false
  | Ok false => emit "keeper: advisory lock busy; skipping tick" ;;; Ret false
  | Ok true =>
      emit "keeper: job starting" ;;;
      finally
        (catch
           (result <- fn ;;
            emit "keeper: job finished" ;;;
            fold (fun _ (e : string * string) => emit "keeper: row failed within job") tt (jr_errors result) ;;;
            Ret true)
           (fun err => emit "keeper: job crashed" ;;; Ret false))
        (finally (lock_unlock lockKey) (call Release))
  end.
