(* ===== verification/KeeperSafety.v ===== *)
(** What the keeper's jobs submit, and why: every contract invocation a job builds is backed by
    contract reads made earlier in the same run, and what a job books is what it did on chain. *)
From S2P Require Import Prelude Prog Schema Rules Domain Rpc Chain Intents Keeper.

Notation keeper_entry := (entry KeeperCall string).

(** The invocation an entry of the log built an envelope for. *)
Definition built (e : keeper_entry) : option Invocation :=
  match e with
  | ECall c _ => match c with Build i => Some i | _ => None end
  | EOut _ => None
  end.

(** Every invocation built so far was justified by the log before it. *)
Definition justified (J : list keeper_entry -> Invocation -> Prop) (log : list keeper_entry) : Prop :=
  forall l1 e l2 i, log = l1 ++ e :: l2 -> built e = Some i -> J l1 i.

Lemma justified_nil J : justified J [].
Proof. intros l1 e l2 i E. by destruct l1. Qed.

Lemma justified_snoc J log x :
  justified J log -> (forall i, built x = Some i -> J log i) -> justified J (log ++ [x]).
Proof.
  intros Hj Hx l1 e l2 i [(-> & <- & <-)|[l2' E]]%snoc_split Hb; [by apply Hx|by eapply Hj].
Qed.

Definition no_build (e : keeper_entry) : Prop := built e = None.

Lemma justified_app J log l : justified J log -> Forall no_build l -> justified J (log ++ l).
Proof.
  revert log. induction l as [|x l IH]; intros log Hj Hl; [by rewrite app_nil_r|].
  inversion Hl as [|? ? Hx Hl']; subst. replace (log ++ x :: l) with ((log ++ [x]) ++ l) by (by rewrite <- app_assoc).
  apply IH; [|done]. apply justified_snoc; [done|]. unfold no_build in Hx. congruence.
Qed.

(** An invocation whose transaction the network reported as successful. *)
Definition landed (log : list keeper_entry) (i : Invocation) (hash : string) : Prop :=
  exists xdr signed st,
    In (ECall (Build i) (Ok xdr)) log /\ In (ECall (Sign xdr) (Ok signed)) log /\
    In (ECall (SendTransaction signed) (Ok (SendR st hash))) log /\
    In (ECall (GetTransactionStatus hash) (Ok "SUCCESS")) log.

Section Submit.
Context `{KeeperSdk} (Adm : @admissible KeeperCall).
Notation world := keeper_world.
Implicit Types w : world.

(** Steps that build nothing and leave the database alone. *)
Definition quiet w w' : Prop :=
  w_db w' = w_db w /\ exists l, w_log w' = w_log w ++ l /\ Forall no_build l.

Lemma quiet_refl w w' : w_db w' = w_db w -> w_log w' = w_log w -> quiet w w'.
Proof. intros Hd Hl. split; [done|]. exists []. by rewrite app_nil_r. Qed.

Lemma quiet_trans w1 w2 w3 : quiet w1 w2 -> quiet w2 w3 -> quiet w1 w3.
Proof.
  intros [Hd1 (l1 & Hl1 & Hf1)] [Hd2 (l2 & Hl2 & Hf2)]. split; [congruence|].
  exists (l1 ++ l2). rewrite Hl2, Hl1, app_assoc. split; [done|]. by apply Forall_app.
Qed.

Lemma quiet_note w e : no_build e -> quiet w (note w e).
Proof. intros He. split; [done|]. exists [e]. split; [done|]. by apply Forall_singleton. Qed.

Lemma quiet_In w w' e : quiet w w' -> In e (w_log w) -> In e (w_log w').
Proof. intros [_ (l & -> & _)] H1. apply in_app_iff. by left. Qed.

Lemma quiet_justified J w w' : quiet w w' -> justified J (w_log w) -> justified J (w_log w').
Proof. intros [_ (l & -> & Hl)] Hj. by apply justified_app. Qed.

(** A submission builds nothing. *)
Lemma wp_submit_quiet signed w (Q : outcome SubmitResult -> world -> Prop) :
  (forall r w', quiet w w' ->
     (forall s, r = Ok s -> exists st,
        In (ECall (SendTransaction signed) (Ok (SendR st (su_hash s)))) (w_log w') /\
        In (ECall (GetTransactionStatus (su_hash s)) (Ok "SUCCESS")) (w_log w')) ->
     Q r w') ->
  wp Adm (submitSignedTx signed) Q w.
Proof.
  intros HQ. apply (wp_submitSignedTx (H := keeper_rpc) Adm quiet); [intros ?; by apply quiet_refl|apply quiet_trans|..|exact HQ].
  - intros. by apply quiet_note.
  - intros. by apply quiet_note.
  - apply quiet_In.
Qed.

(** A submitted invocation: justified if it was when built, and landed if it returned. *)
Lemma wp_invoke J i w (Q : outcome string -> world -> Prop) :
  justified J (w_log w) -> J (w_log w) i ->
  (forall r w', w_db w' = w_db w -> grown w w' -> justified J (w_log w') ->
     (forall h, r = Ok h -> landed (w_log w') i h) -> Q r w') ->
  wp Adm (invoke i) Q w.
Proof.
  intros Hj Hi HQ. unfold invoke. wp_step. wp_step.
  set (w1 := note w _). assert (Hj1 : justified J (w_log w1)) by (apply justified_snoc; [done|]; by intros i' [= <-]).
  assert (Hg1 : grown w w1) by (by exists [ECall (Build i) r]).
  assert (Hend : forall r' w', quiet w1 w' ->
    (forall h, r' = Ok h -> landed (w_log w') i h) -> Q r' w').
  { intros r' w' Hq Hr. destruct (Hq) as [Hd (l & Hl & _)]. apply HQ; [done| |by eapply quiet_justified|done].
    eapply grown_trans; [exact Hg1|by exists l]. }
  assert (Hbuild : forall xdr, r = Ok xdr -> In (ECall (Build i) (Ok xdr)) (w_log w1)).
  { intros xdr ->. simpl. apply in_app_iff. right. by left. }
  destruct r as [xdr|x]; [|apply Hend; [by apply quiet_refl|done]]. specialize (Hbuild _ eq_refl).
  unfold signAndSubmit. wp_step. wp_step. set (w2 := note w1 _).
  assert (Hq2 : quiet w1 w2) by (by apply quiet_note).
  destruct r as [signed|x]; [|by apply Hend].
  wp_step. apply wp_submit_quiet. intros r w3 Hq3 Hr.
  assert (Hq : quiet w1 w3) by (by eapply quiet_trans).
  destruct r as [[hash st']|x]; [|by apply Hend]. wp_step. apply Hend; [done|]. intros h [= <-].
  destruct (Hr _ eq_refl) as (st & Hs & Hg). exists xdr, signed, st. split; [by eapply quiet_In|].
  split; [|done]. eapply quiet_In; [exact Hq3|]. simpl. apply in_app_iff. right. by left.
Qed.
End Submit.

(** ** Booking a liquidation *)
Definition is_active_pledge (lineId : string) (p : pledge_row) : bool :=
  eqs (pl_creditLineId p) lineId && eqs (pl_status p) "active".

Definition among (ps : list pledge_row) (p : pledge_row) : bool := existsb (fun q => eqs (pl_id p) (pl_id q)) ps.

(** The line's active pledges are liquidated, its one liquidation row carries the quantity and the
    hashes, and the line is [liquidating]; nothing else changed. *)
Definition liquidation_booked (line : creditLine_row) (units : Z) (hashes : list string)
    (d d' : Database) : Prop :=
  (forall t, t <> pledge -> t <> liquidation -> t <> creditLine -> d' t = d t) /\
  d' pledge = List.map (fun p => if among (List.filter (is_active_pledge (cl_id line)) (d pledge)) p
                                 then set_pledge_status "liquidated" p else p) (d pledge) /\
  d' creditLine = List.map (fun l => if eqs (cl_id l) (cl_id line) then set_line_status "liquidating" l else l)
                    (d creditLine) /\
  (List.filter (fun l => eqs (li_creditLineId l) (cl_id line)) (d liquidation) = [] ->
   exists text id now, decimalStringToScaled text = Ok units /\ 0 <= units /\
     d' liquidation = d liquidation ++ [Schema.Liquidation id (cl_id line) "transfer" text None None
                                          (Some hashes) now (Some now)]) /\
  (forall l ls, List.filter (fun l => eqs (li_creditLineId l) (cl_id line)) (d liquidation) = l :: ls ->
   d' liquidation = d liquidation \/ exists now,
     d' liquidation = List.map (fun l' => if eqs (li_id l') (li_id l)
       then set_liquidation_hashes (dedup [] (default [] (li_txHashes l) ++ hashes)) now l' else l') (d liquidation)).

Lemma among_id ps p q : pl_id p = pl_id q -> among ps p = among ps q.
Proof. unfold among. by intros ->. Qed.

Lemma among_snoc ps q p : among (ps ++ [q]) p = among ps p || eqs (pl_id p) (pl_id q).
Proof. unfold among. rewrite existsb_app. simpl. by rewrite orb_false_r. Qed.

Lemma no_active_left lineId ps p :
  (forall q, In q ps -> is_active_pledge lineId q = true -> among (List.filter (is_active_pledge lineId) ps) q = true) ->
  In p (List.map (fun p => if among (List.filter (is_active_pledge lineId) ps) p
                           then set_pledge_status "liquidated" p else p) ps) ->
  is_active_pledge lineId p = false.
Proof.
  intros Hall (q & <- & Hq)%in_map_iff. destruct (among _ q) eqn:E.
  - unfold is_active_pledge. simpl. apply andb_false_r.
  - apply not_true_is_false. intros Ha. by rewrite Hall in E.
Qed.

Section Book.
Context (Adm : @admissible KeeperCall).
Notation world := keeper_world.
Implicit Types w : world.

Lemma wp_liquidate_pledges ps w :
  wp Adm (fold (fun _ p => update_row pledge (fun p' => eqs (pl_id p') (pl_id p)) (set_pledge_status "liquidated")) tt ps)
    (ok_db (fun _ d' => (forall t, t <> pledge -> d' t = w_db w t) /\
       d' pledge = List.map (fun p => if among ps p then set_pledge_status "liquidated" p else p) (w_db w pledge))) w.
Proof.
  eapply (wp_fold Adm (fun done _ w' => (forall t, t <> pledge -> w_db w' t = w_db w t) /\
      w_db w' pledge = List.map (fun p => if among done p then set_pledge_status "liquidated" p else p) (w_db w pledge))
    (fun _ _ => True)) with (l0 := []).
  - intros done p [] w1 [Ho Hp]. eapply wp_mono; [|apply wp_update_row_eq].
    intros [[]|x] w2; [|done]. intros H2. cbn in H2. rewrite H2, set_table_same. split.
    + intros t Ht. rewrite set_table_other by done. by apply Ho.
    + cbn [row] in *. rewrite Hp, List.map_map. apply map_ext. intros q. rewrite among_snoc.
      destruct (among done q); simpl; by destruct (eqs (pl_id q) (pl_id p)).
  - by intros [] w1 H1.
  - done.
  - split; [done|]. simpl. symmetry. apply map_id.
Qed.

Lemma wp_book_liquidation line units hashes w :
  wp Adm (book_liquidation line units hashes)
    (ok_db (fun _ d' => liquidation_booked line units hashes (w_db w) d')) w.
Proof.
  unfold book_liquidation, active_pledges. apply wp_select_seq. intros w1 H1.
  eapply wp_seq; [apply wp_liquidate_pledges|]. rewrite H1. clear w1 H1.
  intros [] w1 [Ho Hp]. wp_step. unfold select_one. wp_step. wp_step; [done|]. wp_step.
  assert (Hl : w_db w1 liquidation = w_db w liquidation) by (by apply Ho).
  assert (Hc : w_db w1 creditLine = w_db w creditLine) by (by apply Ho).
  cbn [row] in *. rewrite Hl.
  assert (Hend : forall w2, (forall t, t <> liquidation -> w_db w2 t = w_db w1 t) ->
    ((List.filter (fun l => eqs (li_creditLineId l) (cl_id line)) (w_db w liquidation) = [] ->
   exists text id now, decimalStringToScaled text = Ok units /\ 0 <= units /\
     w_db w2 liquidation = w_db w liquidation ++ [Schema.Liquidation id (cl_id line) "transfer" text None None
                                          (Some hashes) now (Some now)]) /\
  (forall l ls, List.filter (fun l => eqs (li_creditLineId l) (cl_id line)) (w_db w liquidation) = l :: ls ->
   w_db w2 liquidation = w_db w liquidation \/ exists now,
     w_db w2 liquidation = List.map (fun l' => if eqs (li_id l') (li_id l)
       then set_liquidation_hashes (dedup [] (default [] (li_txHashes l) ++ hashes)) now l' else l') (w_db w liquidation))) ->
    wp Adm (update_row creditLine (fun l => eqs (cl_id l) (cl_id line)) (set_line_status "liquidating"))
      (ok_db (fun _ d' => liquidation_booked line units hashes (w_db w) d')) w2).
  { intros w2 H2 Hliq. apply wp_update_row. split; [|split; [|split]].
    - intros t H3 H4 H5. rewrite set_table_other by done. rewrite H2 by done. by apply Ho.
    - rewrite set_table_other by done. rewrite H2 by done. exact Hp.
    - rewrite set_table_same. cbn [row]. by rewrite H2, Hc by done.
    - rewrite set_table_other by done. exact Hliq. }
  destruct (List.filter (fun l => eqs (li_creditLineId l) (cl_id line)) (w_db w liquidation)) as [|ex ls] eqn:Ef;
    cbn [hd_error].
  - wp_step. wp_step. wp_step. destruct (scaledToDecimalString units) as [text|x] eqn:Ht; [|done].
    wp_step; [done|]. intros s _ _ _. split; [|done].
    apply Hend.
    + intros t Htb. world_simpl. by rewrite set_table_other.
    + split; [|done]. intros _. exists text, (st_uuid s), (st_now s).
      split; [by apply money_parse_print|]. split; [by eapply money_print_nonneg|].
      world_simpl. by rewrite set_table_same, Hl.
  - wp_step. wp_step.
    + wp_step. apply Hend; [done|]. split; [done|]. intros l ls' [= <- <-]. left. by rewrite <- Hl.
    + wp_step. wp_step; [done|]. intros s. split; [|done]. wp_step. apply Hend.
      * intros t Htb. world_simpl. by rewrite set_table_other.
      * split; [done|]. intros l ls' [= <- <-]. right. exists (st_now s). world_simpl.
        by rewrite set_table_same, Hl.
Qed.
End Book.

(** ** The cure-expiry job *)
Section Cure.
Context `{KeeperSdk} (keeper : string) (Adm : @admissible KeeperCall).
Notation world := keeper_world.
Implicit Types w : world.

Definition events_of (d : Database) (lineId : string) : list marginEvent_row :=
  take EVENT_LOOKBACK (order_desc me_createdAt
    (List.filter (fun e : marginEvent_row => eqs (me_creditLineId e) lineId) (d marginEvent))).

(** When the line's cure window, counted from the start of its current unhealthy stretch, ends. *)
Definition cure_deadline (d : Database) (line : creditLine_row) : Z :=
  let events := events_of d (cl_id line) in
  breach_start (match events with e :: _ => me_createdAt e | [] => 0 end) events + cl_cureWindowS line * 1000.

Definition open_line (d : Database) (cl : Z) (line : creditLine_row) : Prop :=
  In line (d creditLine) /\ cl_status line = "open" /\ BigInt_nullable (cl_contractLineId line) = Ok cl.

(** The contract reads the line as past its liquidation level on a price it stands behind. *)
Definition breached (cl : Z) (log : list keeper_entry) : Prop :=
  exists view, In (ECall (GetLtv cl) (Ok view)) log /\
    lv_state view = "Liquidation" /\ lv_priceStatus view = "Ok".

(** What an invocation of this job needs to have in the log before it. *)
Definition cure_evidence (d : Database) (log : list keeper_entry) (i : Invocation) : Prop :=
  match i with
  | Poke cl source =>
      source = keeper /\ breached cl log /\
      exists line oc, open_line d cl line /\ In (ECall (GetLine cl) (Ok oc)) log /\ oc_breachLedger oc = None
  | LiquidateLine source cl route =>
      source = keeper /\ route = "transfer" /\ breached cl log /\
      exists line oc t, open_line d cl line /\
        In (ECall (GetLine cl) (Ok oc)) log /\ oc_breachLedger oc <> None /\
        In (ECall Now (Ok t)) log /\ cure_deadline d line <= t /\
        In (ECall (PositionUnits cl (oc_asset oc)) (Ok (oc_pledgedUnits oc))) log
  | LiquidateVault source cl held_asset units to =>
      source = keeper /\ 0 < units /\
      exists line oc account, open_line d cl line /\
        In (ECall (GetLine cl) (Ok oc)) log /\ held_asset = oc_asset oc /\
        In (ECall (PositionUnits cl held_asset) (Ok units)) log /\
        In account (d partyAccount) /\ pc_partyId account = cl_lenderId line /\
        to = pc_stellarAccount account /\
        (oc_status oc = "Liquidating" \/ exists h, landed log (LiquidateLine keeper cl "transfer") h)
  | _ => False
  end.

(** The tables the job only reads. *)
Definition reads_kept (d : Database) w : Prop :=
  w_db w marginEvent = d marginEvent /\ w_db w partyAccount = d partyAccount.

Definition Good (d : Database) w : Prop := reads_kept d w /\ justified (cure_evidence d) (w_log w).

Lemma Good_note d w e : no_build e -> Good d w -> Good d (note w e).
Proof. intros He [Hr Hj]. split; [done|]. apply justified_snoc; [done|]. unfold no_build in He. congruence. Qed.

Lemma Good_ext d w w' : w_db w' = w_db w -> w_log w' = w_log w -> Good d w -> Good d w'.
Proof. unfold Good, reads_kept. by intros -> ->. Qed.

Lemma grown_In w w' e : grown w w' -> In e (w_log w) -> In e (w_log w').
Proof. intros [l ->] Hin. apply in_app_iff. by left. Qed.

Lemma In_note w e : In e (w_log (note w e)).
Proof. simpl. apply in_app_iff. right. by left. Qed.

Lemma In_note_old w e e' : In e (w_log w) -> In e (w_log (note w e')).
Proof. intros Hin. simpl. apply in_app_iff. by left. Qed.

Lemma landed_grown w w' i h : grown w w' -> landed (w_log w) i h -> landed (w_log w') i h.
Proof.
  intros Hg (x & s & st & H1 & H2 & H3 & H4). exists x, s, st. split_and!; by eapply grown_In.
Qed.

Lemma breached_grown w w' cl : grown w w' -> breached cl (w_log w) -> breached cl (w_log w').
Proof. intros Hg (v & H1 & H2). exists v. split_and!; [by eapply grown_In|apply H2..]. Qed.

Lemma Good_invoke d w w' :
  Good d w -> w_db w' = w_db w -> justified (cure_evidence d) (w_log w') -> Good d w'.
Proof. intros [Hr _] Hd Hj. split; [|done]. unfold reads_kept in *. by rewrite Hd. Qed.

Lemma booked_Good line units hashes d w w' :
  liquidation_booked line units hashes (w_db w) (w_db w') -> w_log w' = w_log w -> Good d w -> Good d w'.
Proof.
  intros [Ho _] Hl [[H1 H2] Hj]. split; [|by rewrite Hl]. split; rewrite Ho by done; done.
Qed.

Lemma book_stmt_only line units hashes : stmt_only (book_liquidation line units hashes).
Proof. unfold book_liquidation, active_pledges, select_one, update_row. eauto 20 with stmt_only. Qed.

Lemma wp_book_tx d line units hashes w (Q : outcome unit -> world -> Prop) :
  Good d w -> (forall r w', Good d w' -> Q r w') ->
  wp Adm (transaction (book_liquidation line units hashes)) Q w.
Proof.
  intros Hg HQ. wp_step.
  apply (wp_mono Adm _ (fun r w' => w_log w' = w_log w /\ match r with
    | Ok _ => liquidation_booked line units hashes (w_db w) (w_db w') | Err _ => True end)).
  - intros r w' [Hl H']. apply wp_commit_any. destruct r as [[]|x].
    + assert (Hg' : Good d w') by (by eapply booked_Good).
      split; [by apply HQ|]. split; intros x; apply HQ; [|exact Hg'].
      eapply Good_ext; [..|exact Hg]; [done|by world_simpl].
    + apply HQ. eapply Good_ext; [..|exact Hg]; [done|by world_simpl].
  - eapply wp_mono; [|apply wp_and; [apply (wp_book_liquidation Adm line units hashes)
                                    |apply wp_stmt_only, book_stmt_only]].
    by intros [[]|x] w' [H1 H2].
Qed.

Lemma wp_good_call {X} d (c : KeeperCall X) w (Q : outcome X -> world -> Prop) :
  Good d w -> (forall r, no_build (ECall c r)) ->
  (forall r, Good d (note w (ECall c r)) -> Q r (note w (ECall c r))) ->
  wp Adm (call c) Q w.
Proof. intros Hg Hc HQ. wp_step. apply HQ, Good_note; auto. Qed.

Lemma wp_good_invoke d i w (Q : outcome string -> world -> Prop) :
  Good d w -> cure_evidence d (w_log w) i ->
  (forall r w', Good d w' -> grown w w' -> (forall h, r = Ok h -> landed (w_log w') i h) -> Q r w') ->
  wp Adm (invoke i) Q w.
Proof.
  intros Hg Hi HQ. eapply wp_invoke; [apply Hg|exact Hi|]. intros r w' Hd Hgr Hj Hl.
  apply HQ; [by eapply Good_invoke|done|done].
Qed.

(** The vault is drawn down only for a line whose liquidation is confirmed. *)
Lemma wp_seize d line contractLine onChain w :
  Good d w -> open_line d contractLine line ->
  In (ECall (GetLine contractLine) (Ok onChain)) (w_log w) ->
  (oc_status onChain <> "Liquidating" -> breached contractLine (w_log w) /\ oc_breachLedger onChain <> None /\
     exists t, In (ECall Now (Ok t)) (w_log w) /\ cure_deadline d line <= t) ->
  wp Adm (seize keeper line contractLine onChain) (fun _ w' => Good d w') w.
Proof.
  intros Hg Hline Hin Hready. unfold seize. wp_step. unfold select_one. wp_step. wp_step; [by intros|]. wp_step.
  destruct (hd_error _) as [account|] eqn:Ea; [|by wp_step].
  assert (In account (d partyAccount) /\ pc_partyId account = cl_lenderId line) as [Hacc Hlender].
  { destruct Hg as [[_ Hp] _]. cbn [row] in *. apply head_filter_In in Ea as [Hin' E].
    rewrite Hp in Hin'. split; [done|]. by apply bool_decide_eq_true in E. }
  set (w1 := tick w). assert (Hg1 : Good d w1) by (by apply (Good_ext d w)).
  wp_step. apply (wp_good_call d); [done..|]. intros r Hg2. set (w2 := note w1 _) in *.
  destruct r as [held|x]; [|done].
  assert (Hheld : In (ECall (PositionUnits contractLine (oc_asset onChain)) (Ok held)) (w_log w2)) by apply In_note.
  assert (Hin2 : In (ECall (GetLine contractLine) (Ok onChain)) (w_log w2)) by (by apply In_note_old).
  wp_step; [by wp_step|].
  assert (Hstep1 : wp Adm (if negb (eqs (oc_status onChain) "Liquidating")
      then h <- invoke (LiquidateLine keeper contractLine "transfer") ;; Ret [h] else Ret [])
    (fun r w' => Good d w' /\ grown w2 w' /\
       (is_ok r = true -> oc_status onChain = "Liquidating" \/ exists h, landed (w_log w') (LiquidateLine keeper contractLine "transfer") h)) w2).
  { destruct (eqs (oc_status onChain) "Liquidating") eqn:Est; cbn [negb].
    - wp_step. split; [done|]. split; [by apply grown_refl|]. left. by apply bool_decide_eq_true in Est.
    - apply bool_decide_eq_false in Est. destruct (Hready Est) as (Hb & Hbl & t & Ht & Hdl).
      wp_step. apply (wp_good_invoke d); [done| |].
      + split; [done|]. split; [done|]. split; [eapply breached_grown; [|exact Hb]; by eexists|].
        exists line, onChain, t. simpl in E. apply negb_false_iff, Z.eqb_eq in E as ->.
        repeat (split; [done|]). split; [by apply In_note_old|]. by split.
      + intros r w3 Hg3 Hgr3 Hl. destruct r as [h|x]; [|done]. wp_step. split; [done|]. split; [done|].
        intros _. right. exists h. by apply Hl. }
  wp_step. eapply wp_mono; [|exact Hstep1]. intros [h1|x] w3 (Hg3 & Hgr3 & Hok); [|done].
  specialize (Hok eq_refl). wp_step.
  apply (wp_mono Adm _ (fun _ w' => Good d w')).
  2:{ destruct (0 <? held) eqn:Ehold; [|by wp_step]. apply Z.ltb_lt in Ehold. wp_step.
      apply (wp_good_invoke d); [done| |].
      - split; [done|]. split; [done|]. exists line, onChain, account. split; [done|].
        split; [by eapply grown_In|]. split; [done|]. split; [by eapply grown_In|]. done.
      - intros r w4 Hg4 _ _. destruct r; [by wp_step|done]. }
  intros [h2|x] w4 Hg4; [|done]. wp_step. unfold active_pledges. wp_step; [by intros|].
  wp_step. apply (wp_mono Adm _ (fun _ w' => Good d w')).
  2:{ clear E; destruct (_ && _); [apply wp_lift|wp_step]; by apply (Good_ext d w4). }
  intros [totalUnits|x] w5 Hg5; [|done]. wp_step; [by wp_step|]. wp_step.
  apply (wp_book_tx d); [done|]. intros [[]|x] w6 Hg6; [by wp_step|done].
Qed.

Lemma wp_cure_row d line w :
  Good d w -> In line (d creditLine) -> cl_status line = "open" ->
  wp Adm (cure_row keeper line (events_of d (cl_id line))) (fun _ w' => Good d w') w.
Proof.
  intros Hg Hin Hopen. unfold cure_row. wp_step. wp_step.
  destruct (BigInt_nullable _) as [cl|x] eqn:Ecl; [|done].
  assert (Hline : open_line d cl line) by done.
  wp_step. apply (wp_good_call d); [done..|]. intros r Hg1. set (w1 := note w _) in *.
  destruct r as [view|x]; [|done].
  assert (Hview : In (ECall (GetLtv cl) (Ok view)) (w_log w1)) by apply In_note.
  wp_step. apply (wp_good_call d); [done..|]. intros r Hg2. set (w2 := note w1 _) in *.
  destruct r as [onChain|x]; [|done].
  assert (Hoc : In (ECall (GetLine cl) (Ok onChain)) (w_log w2)) by apply In_note.
  assert (Hview2 : In (ECall (GetLtv cl) (Ok view)) (w_log w2)) by (by apply In_note_old).
  wp_step.
  apply (wp_mono Adm _ (fun r w' => Good d w' /\ grown w2 w' /\
    (r = Ok true -> oc_status onChain <> "Liquidating" -> breached cl (w_log w') /\ oc_breachLedger onChain <> None /\
       exists t, In (ECall Now (Ok t)) (w_log w') /\ cure_deadline d line <= t))).
  { intros [[|]|x] w3 (Hg3 & Hgr & Hr); [|by wp_step|done]. cbn [negb].
    apply wp_seize; [done|done|by eapply grown_In|by apply Hr]. }
  assert (Hrefl : grown w2 w2) by (by apply grown_refl).
  destruct (eqs (oc_status onChain) "Liquidating") eqn:Est; cbn [negb].
  { wp_step. apply bool_decide_eq_true in Est. split; [done|]. split; [done|]. by intros _ []. }
  unfold ready_to_liquidate. wp_step; [by wp_step|].
  apply orb_false_iff in E as [Es%negb_false_iff%bool_decide_eq_true Ep%negb_false_iff%bool_decide_eq_true].
  assert (Hb : breached cl (w_log w2)) by (by exists view).
  destruct (oc_breachLedger onChain) as [bl|] eqn:Ebl.
  - wp_step. apply (wp_mono Adm _ (fun r w' => Good d w' /\ w' = note w2 (ECall Now r))).
    2:{ apply (wp_good_call d); [done..|]. by intros r Hg3. }
    intros [now|x] w3 [Hg3 ->]; [|split; [done|]; split; [by eexists|done]]. wp_step.
    split; [done|]. split; [by eexists|]. intros [= Hlt%negb_true_iff%Z.ltb_ge] _.
    split; [eapply breached_grown; [|exact Hb]; by eexists|]. split; [done|].
    exists now. split; [apply In_note|exact Hlt].
  - wp_step. apply (wp_good_invoke d); [done| |].
    + split; [done|]. split; [done|]. exists line, onChain. by split.
    + intros r w3 Hg3 Hgr _. destruct r; [wp_step|]; (split; [exact Hg3|split; [exact Hgr|done]]).
Qed.

Lemma wp_cure_job d w :
  d = w_db w -> justified (cure_evidence d) (w_log w) ->
  wp Adm (runCureExpiryJob keeper) (fun _ w' => Good d w') w.
Proof.
  intros -> Hj. set (d := w_db w). unfold runCureExpiryJob, open_lines. wp_step. wp_step; [by intros|].
  assert (Hg : Good d (tick w)) by done.
  eapply (wp_fold_split Adm (fun _ _ w' => Good d w') (fun _ w' => Good d w')) with (l0 := []); [|done..].
  intros done line rest result w1 Eq Hg1. cbn [app row] in Eq.
  assert (In line (d creditLine) /\ cl_status line = "open") as [Hin Hopen].
  { assert (In line (done ++ line :: rest)) as Hin by (apply in_app_iff; right; by left).
    rewrite <- Eq in Hin. apply filter_In in Hin as [? E]. split; [done|]. by apply bool_decide_eq_true in E. }
  unfold cure_step, line_events. wp_step. wp_step. wp_step; [by intros|]. wp_step.
  assert (Eev : take EVENT_LOOKBACK (order_desc me_createdAt (List.filter
     (fun e : marginEvent_row => eqs (me_creditLineId e) (cl_id line)) (w_db w1 marginEvent))) = events_of d (cl_id line)).
  { unfold events_of. destruct Hg1 as [[Hm _] _]. by rewrite Hm. }
  cbn [row] in *. rewrite Eev. destruct (events_of d (cl_id line)) as [|e es] eqn:Ee; [by wp_step|].
  wp_step; [by wp_step|]. unfold guarded_row. wp_step. wp_step. rewrite <- Ee.
  eapply wp_mono; [|apply (wp_cure_row d line (tick w1)); [by apply (Good_ext d w1)|done..]].
  intros [o|x] w2 Hg2; by wp_step.
Qed.
End Cure.

(** C8. Collateral is taken only from a line whose breach is confirmed.  Whatever the contracts, the
    network and the database answer, every invocation the cure-expiry job builds is backed by what
    its run read before: [CreditLine.liquidate] by an open line of the books read as past its
    liquidation level on a usable price, with the breach armed, the vault in step with the line and
    the cure window over; [PledgeVault.liquidate] by that liquidation having landed or the line
    already liquidating, for exactly the units the vault holds, to an account of the lender; [poke]
    by an unarmed breach; nothing else is ever built. *)
Theorem liquidation_is_justified `{KeeperSdk} (e : env KeeperCall) keeper (d : Database) :
  let '(_, w) := run e (runCureExpiryJob keeper) (World d 0 []) in
  justified (cure_evidence keeper d) (w_log w).
Proof.
  assert (Hw : let '(_, w) := run e (runCureExpiryJob keeper) (World d 0 [] : keeper_world) in
               Good keeper d w).
  { apply (wp_sound any_answer); [done|]. apply wp_cure_job; [done|apply justified_nil]. }
  destruct (run e _ _) as [r w]. apply Hw.
Qed.

(** A liquidation is booked whole or not at all: the transaction either leaves the database as it
    was or liquidates every active pledge of the line, gives it its one liquidation row with the
    seized quantity and hashes (or adds the hashes to the row it has) and marks the line
    [liquidating]; a returning transaction did the latter, and no active pledge of the line is
    left. *)
Theorem liquidation_booked_whole (e : env KeeperCall) line units hashes (w0 : keeper_world) :
  let '(r, w) := run e (transaction (book_liquidation line units hashes)) w0 in
  (is_ok r = false /\ w_db w = w_db w0) \/
  (liquidation_booked line units hashes (w_db w0) (w_db w) /\
   forall p, In p (w_db w pledge) -> is_active_pledge (cl_id line) p = false).
Proof.
  apply (wp_sound any_answer); [done|]. wp_step.
  eapply wp_mono; [|apply wp_book_liquidation]. intros [[]|x] w Hb; [|by left].
  assert (Hnone : forall p, In p (w_db w pledge) -> is_active_pledge (cl_id line) p = false).
  { intros p Hp. destruct Hb as (_ & Hp' & _). rewrite Hp' in Hp. eapply no_active_left; [|exact Hp].
    intros q Hq Ha. apply existsb_exists. exists q. split; [by apply filter_In|by apply bool_decide_eq_true]. }
  apply wp_commit_any. split; [by right|]. split; intros x; [by left|by right].
Qed.

(** ** The repo jobs *)
Section Repo.
Context `{KeeperSdk} (keeper : string) (Adm : @admissible KeeperCall).
Notation world := keeper_world.
Implicit Types w : world.

Definition settled_trade (d : Database) (id : Z) (trade : repoTrade_row) : Prop :=
  In trade (d repoTrade) /\ rt_status trade = "settled" /\ BigInt_nullable (rt_contractTradeId trade) = Ok id.

(** The contract reads the trade as settled, on a usable price. *)
Definition margin_read (id : Z) (log : list keeper_entry) (oc : OnChainRepoTrade) (view : OnChainRepoMargin) : Prop :=
  In (ECall (GetTrade id) (Ok oc)) log /\ ot_status oc = "Settled" /\
  In (ECall (MarginView id) (Ok view)) log /\ om_priceOk view = true.

Definition margin_evidence (now : Z) (d : Database) (log : list keeper_entry) (i : Invocation) : Prop :=
  match i with
  | DefaultClose source id =>
      source = keeper /\ exists trade oc view deadline, settled_trade d id trade /\
        margin_read id log oc view /\ UNHEALTHY (om_state view) = true /\
        ot_pendingMarginCall oc = true /\ ot_cureDeadline oc = Some deadline /\ deadline * 1000 <= now
  | CallMargin source id =>
      source = keeper /\ exists trade oc view, settled_trade d id trade /\
        margin_read id log oc view /\ UNHEALTHY (om_state view) <> ot_pendingMarginCall oc
  | _ => False
  end.

(** A trade booked as [st] was so before, or the chain says so: the contract reads [st'], or the
    invocation that makes it so landed. *)
Definition follows_chain (st st' : string) (op : Z -> Invocation) (d : Database) w : Prop :=
  forall r, In r (w_db w repoTrade) -> rt_status r = st ->
    In r (d repoTrade) \/ exists trade id, settled_trade d id trade /\ rt_id r = rt_id trade /\
      ((exists oc, In (ECall (GetTrade id) (Ok oc)) (w_log w) /\ ot_status oc = st') \/
       exists h, landed (w_log w) (op id) h).

Definition MarginGood (now : Z) (d : Database) w : Prop :=
  justified (margin_evidence now d) (w_log w) /\
  follows_chain "defaulted" "Defaulted" (DefaultClose keeper) d w.

Lemma follows_chain_grown st st' op d w w' :
  follows_chain st st' op d w -> w_db w' repoTrade = w_db w repoTrade -> grown w w' ->
  follows_chain st st' op d w'.
Proof.
  intros Hf Hd Hg r Hr Hst. rewrite Hd in Hr. destruct (Hf r Hr Hst) as [|(t & id & Ht & Hid & Hev)]; [by left|].
  right. exists t, id. split; [done|]. split; [done|]. destruct Hev as [(oc & Hoc & Hs)|(h & Hl)].
  - left. exists oc. split; [by eapply grown_In|done].
  - right. exists h. by eapply landed_grown.
Qed.

(** Marking the trade of [id] once the chain agrees. *)
Lemma follows_chain_update st st' op d trade id f w w' :
  follows_chain st st' op d w -> w_log w' = w_log w ->
  w_db w' repoTrade = List.map (fun t => if eqs (rt_id t) (rt_id trade) then f t else t) (w_db w repoTrade) ->
  (forall t, rt_id (f t) = rt_id t) -> settled_trade d id trade ->
  ((exists oc, In (ECall (GetTrade id) (Ok oc)) (w_log w) /\ ot_status oc = st') \/
   (exists h, landed (w_log w) (op id) h) \/ forall t, rt_status (f t) <> st) ->
  follows_chain st st' op d w'.
Proof.
  intros Hf Hl Hd Hid Ht Hev r Hr Hst. rewrite Hd in Hr. apply in_map_iff in Hr as (r0 & <- & Hr0).
  destruct (eqs (rt_id r0) (rt_id trade)) eqn:E; [|rewrite Hl; by apply Hf].
  apply bool_decide_eq_true in E. destruct Hev as [Hev|[Hev|Hev]]; [right|right|by destruct (Hev r0)];
    exists trade, id; rewrite Hid, Hl; auto.
Qed.

Lemma MarginGood_ext now d w w' :
  MarginGood now d w -> w_db w' repoTrade = w_db w repoTrade -> w_log w' = w_log w -> MarginGood now d w'.
Proof.
  intros [Hj Hf] Hd Hl. split; [by rewrite Hl|]. eapply follows_chain_grown; [done|done|]. by apply grown_refl.
Qed.

Lemma MarginGood_note now d w e : no_build e -> MarginGood now d w -> MarginGood now d (note w e).
Proof.
  intros He [Hj Hf]. split.
  - apply justified_snoc; [done|]. unfold no_build in He. congruence.
  - eapply follows_chain_grown; [exact Hf|done|]. by exists [e].
Qed.

Lemma wp_margin_call {X} now d (c : KeeperCall X) w (Q : outcome X -> world -> Prop) :
  MarginGood now d w -> (forall r, no_build (ECall c r)) ->
  (forall r, MarginGood now d (note w (ECall c r)) -> Q r (note w (ECall c r))) ->
  wp Adm (call c) Q w.
Proof. intros Hg Hc HQ. wp_step. apply HQ, MarginGood_note; auto. Qed.

Lemma wp_margin_invoke now d i w (Q : outcome string -> world -> Prop) :
  MarginGood now d w -> margin_evidence now d (w_log w) i ->
  (forall r w', MarginGood now d w' -> grown w w' -> (forall h, r = Ok h -> landed (w_log w') i h) -> Q r w') ->
  wp Adm (invoke i) Q w.
Proof.
  intros [Hj Hf] Hi HQ. eapply wp_invoke; [exact Hj|exact Hi|]. intros r w' Hd Hgr Hj' Hl.
  apply HQ; [split; [done|]|done|done]. eapply follows_chain_grown; [exact Hf|by rewrite Hd|done].
Qed.

Lemma wp_margin_default now d trade id w (Q : outcome unit -> world -> Prop) :
  MarginGood now d w -> settled_trade d id trade ->
  (exists oc, In (ECall (GetTrade id) (Ok oc)) (w_log w) /\ ot_status oc = "Defaulted") \/
  (exists h, landed (w_log w) (DefaultClose keeper id) h) ->
  (forall r w', MarginGood now d w' -> Q r w') ->
  wp Adm (update_trade_status "defaulted" (rt_id trade)) Q w.
Proof.
  intros Hg Ht Hev HQ. unfold update_trade_status, update_row. wp_step.
  wp_step; [intros x; apply HQ; by eapply MarginGood_ext|]. intros s.
  match goal with |- context [after w ?d1] => set (w1 := after w d1) end.
  assert (Hg1 : MarginGood now d w1).
  { destruct Hg as [Hj Hf]. split; [exact Hj|].
    eapply (follows_chain_update _ _ _ d trade id (set_trade_status "defaulted")); [exact Hf|done| |done|done|].
    - subst w1. world_simpl. by rewrite set_table_same.
    - destruct Hev; auto. }
  split; [wp_step; by apply HQ|intros x; by apply HQ].
Qed.

Lemma wp_record_call_or_cure now d tradeId after w (Q : outcome unit -> world -> Prop) :
  MarginGood now d w -> (forall r w', MarginGood now d w' -> Q r w') ->
  wp Adm (record_call_or_cure now tradeId after) Q w.
Proof.
  intros Hg HQ. unfold record_call_or_cure.
  assert (Hsame : forall w', w_db w' repoTrade = w_db w repoTrade -> w_log w' = w_log w -> MarginGood now d w')
    by (intros; by eapply MarginGood_ext).
  assert (Hcure : wp Adm (stmt (update repoMarginCall
      (fun c => eqs (mc_tradeId c) tradeId && bool_decide (mc_curedAt c = None)) (fun _ => set_call_cured now)) ;;; Ret tt) Q w).
  { wp_step. wp_step; [intros x; by apply HQ, Hsame|]. intros s.
    split; [wp_step|intros x]; apply HQ, Hsame; try done; world_simpl; by rewrite set_table_other. }
  destruct (ot_pendingMarginCall after); [|done]. destruct (ot_cureDeadline after) as [due|]; [|done].
  wp_step. wp_step. destruct (scaledToDecimalString _) as [amt|x]; [|by apply HQ].
  wp_step; [intros x; by apply HQ, Hsame|]. intros s _ _ _.
  split; [|intros x]; apply HQ, Hsame; try done; world_simpl; by rewrite set_table_other.
Qed.

Lemma wp_margin_row now d trade w :
  MarginGood now d w -> In trade (d repoTrade) -> rt_status trade = "settled" ->
  wp Adm (margin_row keeper now trade) (fun _ w' => MarginGood now d w') w.
Proof.
  intros Hg Hin Hset. unfold margin_row. wp_step. wp_step.
  destruct (BigInt_nullable _) as [id|x] eqn:Eid; [|done].
  assert (Ht : settled_trade d id trade) by done.
  wp_step. apply (wp_margin_call now d); [done..|]. intros r Hg1. set (w1 := note w _) in *.
  destruct r as [oc|x]; [|done].
  assert (Hoc : In (ECall (GetTrade id) (Ok oc)) (w_log w1)) by apply In_note.
  destruct (eqs (ot_status oc) "Settled") eqn:Es; cbn [negb].
  2:{ wp_step. destruct (eqs (ot_status oc) "Defaulted") eqn:Ed; [|by repeat wp_step].
      apply bool_decide_eq_true in Ed. apply (wp_margin_default now d _ id); [done|done|left; by exists oc|].
      intros [[]|x] w2 Hg2; [by wp_step|done]. }
  apply bool_decide_eq_true in Es.
  wp_step. apply (wp_margin_call now d); [done..|]. intros r Hg2. set (w2 := note w1 _) in *.
  destruct r as [view|x]; [|done]. destruct (om_priceOk view) eqn:Ep; cbn [negb]; [|by wp_step].
  assert (Hread : margin_read id (w_log w2) oc view) by (split; [by apply In_note_old|split; [done|split; [apply In_note|done]]]).
  wp_step.
  - apply andb_true_iff in E as [[Hpend Hband]%andb_true_iff Hdl].
    destruct (ot_cureDeadline oc) as [dl|] eqn:Edl; [|done]. apply Z.leb_le in Hdl.
    wp_step. apply (wp_margin_invoke now d); [done| |].
    { split; [done|]. by exists trade, oc, view, dl. }
    intros r w3 Hg3 _ Hl. destruct r as [h|x]; [|done]. wp_step.
    apply (wp_margin_default now d _ id); [done|done|right; exists h; by apply Hl|].
    intros [[]|x] w4 Hg4; [by wp_step|done].
  - clear E. wp_step; [|by wp_step]. wp_step. apply (wp_margin_invoke now d); [done| |].
    { split; [done|]. exists trade, oc, view. split; [done|]. split; [done|]. intros Heq.
      rewrite Heq, eqb_reflx in E. done. }
    intros r w3 Hg3 _ _. destruct r as [h|x]; [|done]. wp_step.
    apply (wp_margin_call now d); [done..|]. intros r Hg4. destruct r as [after|x]; [|done]. wp_step.
    apply (wp_record_call_or_cure now d); [done|]. intros [[]|x] w5 Hg5; [by wp_step|done].
Qed.

Lemma wp_margin_job now d w :
  d = w_db w -> justified (margin_evidence now d) (w_log w) ->
  wp Adm (runRepoMarginJob keeper now) (fun _ w' => MarginGood now d w') w.
Proof.
  intros -> Hj. set (d := w_db w).
  assert (Hg : forall w', w_db w' = d -> w_log w' = w_log w -> MarginGood now d w').
  { intros w' Hd Hl. split; [by rewrite Hl|]. intros r Hr _. rewrite Hd in Hr. by left. }
  unfold runRepoMarginJob. wp_step. wp_step; [intros; by apply Hg|].
  eapply (wp_fold_split Adm (fun _ _ w' => MarginGood now d w') (fun _ w' => MarginGood now d w')) with (l0 := []);
    [|done..|by apply Hg].
  intros done trade rest result w1 Eq Hg1. cbn [app row] in Eq.
  assert (In trade (d repoTrade) /\ rt_status trade = "settled") as [Hin Hset].
  { assert (In trade (done ++ trade :: rest)) as Hin by (apply in_app_iff; right; by left).
    rewrite <- Eq in Hin. apply filter_In in Hin as [? E]. split; [done|]. by apply bool_decide_eq_true in E. }
  unfold margin_step. wp_step; [by wp_step|]. unfold guarded_row. wp_step. wp_step.
  eapply wp_mono; [|by apply wp_margin_row]. intros [o|x] w2 Hg2; by wp_step.
Qed.
End Repo.

(** C23. The repo-margin job acts on a trade only on what the contract reads.  It calls (or clears)
    margin only for a settled trade whose price is usable and whose margin band disagrees with
    whether a call is open, closes out only a settled trade with a call open, still in the band on
    a usable price, past its cure deadline; and it books a trade as defaulted only if the contract
    reads it so or the close-out landed. *)
Theorem margin_actions_justified `{KeeperSdk} (e : env KeeperCall) keeper now (d : Database) :
  let '(_, w) := run e (runRepoMarginJob keeper now) (World d 0 []) in
  justified (margin_evidence keeper now d) (w_log w) /\
  follows_chain "defaulted" "Defaulted" (DefaultClose keeper) d w.
Proof.
  apply (wp_sound any_answer); [done|]. apply wp_margin_job; [done|apply justified_nil].
Qed.

(** ** The advisory lock around a job ([services/keeper/src/lock.ts]): whatever happens, the reserved
    connection goes back and the lock is let go, and a job without the lock does nothing. *)
Section Lock.
Context (Adm : @admissible KeeperCall).
Notation world := keeper_world.
Implicit Types w : world.
Notation log := (list (entry KeeperCall string)).

(** The job did not run: what the run added to the log, and its answer. *)
Definition not_run (key : string) (l : log) : Prop :=
  (exists x m, l = [ECall Reserve (Err x); EOut m]) \/
  (exists m, l = [ECall Reserve (Ok tt); ECall (TryLock key) (Ok false); ECall Release (Ok tt); EOut m]) \/
  (exists x r m, l = [ECall Reserve (Ok tt); ECall (TryLock key) (Ok false); ECall Release (Err x); ECall Release r; EOut m]) \/
  (exists x r m, l = [ECall Reserve (Ok tt); ECall (TryLock key) (Err x); ECall Release r; EOut m]).

(** The job ran, adding [l] to the log, between taking the lock and giving it back. *)
Definition ran (key : string) (l0 l : log) : Prop :=
  exists lfn ru rr,
    l = l0 ++ [ECall Reserve (Ok tt); ECall (TryLock key) (Ok true); EOut "keeper: job starting"] ++ lfn ++
        [ECall (Unlock key) ru; ECall Release rr].

Lemma wp_finally {A} (body : keeper_prog A) fin (Q : outcome A -> world -> Prop) w :
  wp Adm body (fun r w' => wp Adm fin (fun r' w'' =>
    match r' with Ok _ => Q r w'' | Err x => Q (Err x) w'' end) w') w ->
  wp Adm (finally body fin) Q w.
Proof.
  intros H. unfold finally. wp_step. wp_step. eapply wp_mono; [|exact H]. intros r w' Hw. cbv beta in Hw.
  wp_step. eapply wp_mono; [|exact Hw]. intros [[]|x] w'' Hq; [by wp_step|done].
Qed.

Lemma wp_give_back key w (Q : outcome unit -> world -> Prop) :
  (forall r w', w_db w' = w_db w ->
     (exists ru rr, w_log w' = w_log w ++ [ECall (Unlock key) ru; ECall Release rr]) -> Q r w') ->
  wp Adm (finally (lock_unlock key) (call Release)) Q w.
Proof.
  intros HQ. apply wp_finally. unfold lock_unlock. wp_step. wp_step.
  assert (Hrel : forall r', wp Adm (call Release) (fun r'' w'' => match r'' with Ok _ => Q r' w'' | Err x => Q (Err x) w'' end)
    (note w (ECall (Unlock key) r))).
  { intros r'. wp_step. world_simpl.
    match goal with |- match ?o with _ => _ end => destruct o end; apply HQ; try done;
      world_simpl; rewrite <- app_assoc; eauto. }
  destruct r; apply Hrel.
Qed.

Lemma wp_executeJobWithLock name fn scope env_scope w :
  let key := getLockKey name scope env_scope in
  wp Adm (executeJobWithLock name fn scope env_scope)
    (fun r w' => (exists l, w_log w' = w_log w ++ l /\ not_run key l /\ w_db w' = w_db w /\ r = Ok false) \/
       ran key (w_log w) (w_log w')) w.
Proof.
  intros key. unfold executeJobWithLock, acquire. fold key. wp_step. wp_step. wp_step. wp_step.
  destruct r as [[]|x]; [|wp_go; left; eexists; world_simpl; rewrite <- app_assoc; split; [done|]; split; [left; eauto|done]].
  wp_step. wp_step. wp_step. destruct r as [[|]|x]; cbn [negb].
  - wp_step. wp_step. wp_step. apply wp_finally.
    match goal with |- wp _ ?p _ ?w0 => set (body := p); set (w1 := w0) end.
    assert (Hl1 : w_log w1 = w_log w ++ [ECall Reserve (Ok tt); ECall (TryLock key) (Ok true); EOut "keeper: job starting"]).
    { subst w1. world_simpl. by rewrite <- !app_assoc. }
    eapply wp_mono; [|apply wp_grown]. intros r w2 [l2 Hl2].
    apply wp_give_back. intros r' w3 _ (ru & rr & Hl3).
    assert (ran key (w_log w) (w_log w3)) as Hran.
    { exists l2, ru, rr. rewrite Hl3, Hl2, Hl1. by rewrite <- !app_assoc. }
    destruct r'; by right.
  - wp_step. wp_step. destruct r as [[]|x].
    + wp_go. left. eexists. world_simpl. rewrite <- !app_assoc. split; [done|]. split; [right; left; eauto|done].
    + wp_step. wp_step. destruct r as [[]|x']; wp_go; left; eexists; world_simpl; rewrite <- !app_assoc;
        (split; [done|]; split; [right; right; left; eauto|done]).
  - wp_step. wp_step. destruct r as [[]|x']; wp_go; left; eexists; world_simpl; rewrite <- !app_assoc;
      (split; [done|]; split; [right; right; right; eauto|done]).
Qed.
End Lock.

(** A job runs only under its lock, and the lock is always given back.  For every job and every
    answer of the lock's connection: either the lock was not obtained, the database is untouched,
    the answer is [false] and a connection that was reserved was released; or it was, and whatever
    the job did, threw or logged, the last two things the run does are to unlock the same key and
    release the connection. *)
Theorem lock_always_returned (e : env KeeperCall) name fn scope env_scope (w0 : keeper_world) :
  let key := getLockKey name scope env_scope in
  let '(r, w) := run e (executeJobWithLock name fn scope env_scope) w0 in
  (exists l, w_log w = w_log w0 ++ l /\ not_run key l /\ w_db w = w_db w0 /\ r = Ok false) \/
  ran key (w_log w0) (w_log w).
Proof. intros key. apply (wp_sound any_answer); [done|]. apply wp_executeJobWithLock. Qed.
