(* ===== verification/JobQueue.v ===== *)
(** [services/keeper/src/jobQueue.ts]: the single lane the keeper's jobs run in, as a state machine
    over the calls made to it and the ways its running job can end. *)
From stdpp Require Import gmap sets.
From S2P Require Import Prelude.

(** How the lane's current job ends: [withDeadline]'s race is won by the work, which may have
    thrown, or by the timer, and then the job is abandoned. *)
Inductive JobEnd := Finished | Threw | TimedOut.

(** [lane] is the chain of promises behind [tail]: its head is running, the others wait.
    [started] and [timeouts] record the calls made to [fn] and [onTimeout], in order. *)
Record JobQueue := Queue {
  lane : list string; inFlight : gset string; skipped : Z;
  started : list string; timeouts : list string }.

Definition createJobQueue : JobQueue := Queue [] ∅ 0 [] [].

(** [run(name, fn)]: an idle lane starts the job at once. *)
Definition run_job (q : JobQueue) (name : string) : JobQueue :=
  if bool_decide (name ∈ inFlight q)
  then Queue (lane q) (inFlight q) (skipped q + 1) (started q) (timeouts q)
  else Queue (lane q ++ [name]) ({[name]} ∪ inFlight q) (skipped q)
         (match lane q with [] => started q ++ [name] | _ => started q end) (timeouts q).

(** The running job settles or is abandoned: its name leaves [inFlight] and the next one starts. *)
Definition settle_job (q : JobQueue) (how : JobEnd) : JobQueue :=
  match lane q with
  | [] => q
  | name :: rest =>
      Queue rest (inFlight q ∖ {[name]}) (skipped q)
        (match rest with [] => started q | next :: _ => started q ++ [next] end)
        (match how with TimedOut => timeouts q ++ [name] | _ => timeouts q end)
  end.

Definition idle (q : JobQueue) : bool := match lane q with [] => true | _ => false end.
Definition skippedCount (q : JobQueue) : Z := skipped q.

Inductive QueueEvent := Tick (name : string) | Ends (how : JobEnd).

Definition step (q : JobQueue) (e : QueueEvent) : JobQueue :=
  match e with Tick name => run_job q name | Ends how => settle_job q how end.

Definition life (events : list QueueEvent) : JobQueue := foldl step createJobQueue events.

(** The reachable states, and the ticks the queue accepted on the way. *)
Inductive reachable : list string -> JobQueue -> Prop :=
| reach_new : reachable [] createJobQueue
| reach_accept acc q name : reachable acc q -> name ∉ inFlight q -> reachable (acc ++ [name]) (run_job q name)
| reach_skip acc q name : reachable acc q -> name ∈ inFlight q -> reachable acc (run_job q name)
| reach_end acc q how : reachable acc q -> reachable acc (settle_job q how).

Lemma life_snoc events e : life (events ++ [e]) = step (life events) e.
Proof. unfold life. by rewrite foldl_app. Qed.

Lemma life_reachable events : exists acc, reachable acc (life events).
Proof.
  induction events as [|e events [acc IH]] using rev_ind; [exists []; constructor|].
  rewrite life_snoc. destruct e as [name|how]; simpl.
  - destruct (decide (name ∈ inFlight (life events))); eexists; [by apply reach_skip|by apply reach_accept].
  - eexists. by apply reach_end.
Qed.

(** [inFlight] is exactly the lane, without repetition; what was accepted is what was started and
    what waits, in order; a job runs whenever the lane is not empty. *)
Record QueueInv (acc : list string) (q : JobQueue) : Prop := {
  qi_flight : inFlight q = list_to_set (lane q);
  qi_nodup : NoDup (lane q);
  qi_fifo : acc = started q ++ tail (lane q);
  qi_running : lane q = [] \/ last (started q) = head (lane q) }.

Lemma reachable_inv acc q : reachable acc q -> QueueInv acc q.
Proof.
  induction 1 as [|acc q name _ [Hf Hn Hq Hr] Hnew|acc q name _ [Hf Hn Hq Hr] Hold|acc q how _ [Hf Hn Hq Hr]].
  - split; [done|constructor|done|by left].
  - unfold run_job. rewrite bool_decide_false by done. rewrite Hf in Hnew. split; simpl.
    + rewrite Hf, list_to_set_app_L. set_solver.
    + apply NoDup_app. split; [done|]. split; [|by apply NoDup_singleton].
      intros x Hx Hx'. apply list_elem_of_singleton in Hx' as ->. by apply Hnew, elem_of_list_to_set.
    + rewrite Hq. destruct (lane q) as [|x l]; simpl; [by rewrite !app_nil_r|by rewrite app_assoc].
    + right. destruct (lane q) as [|x l]; simpl; [by rewrite last_snoc|]. by destruct Hr.
  - unfold run_job. rewrite bool_decide_true by done. by split.
  - unfold settle_job. destruct (lane q) as [|name rest] eqn:El; [split; by rewrite ?El|].
    apply NoDup_cons in Hn as [Hni Hn]. split; simpl.
    + rewrite Hf. simpl. apply set_eq. intros x. rewrite elem_of_difference, elem_of_union, elem_of_list_to_set, elem_of_singleton. naive_solver.
    + done.
    + simpl in Hq. rewrite Hq. destruct rest; simpl; [done|by rewrite <- app_assoc].
    + destruct rest as [|next rest]; [by left|right]. by rewrite last_snoc.
Qed.

(** After [n] jobs have ended, the job that was [n] places behind the running one is running. *)
Lemma settle_n q hows name :
  nth_error (lane q) (List.length hows) = Some name ->
  head (lane (foldl settle_job q hows)) = Some name.
Proof.
  revert q. induction hows as [|how hows IH]; intros q; simpl.
  - by destruct (lane q).
  - destruct (lane q) as [|x rest] eqn:E; simpl; [done|]. intros Hn. apply IH.
    unfold settle_job. by rewrite E.
Qed.

(** C36. The keeper's lane neither jams nor loses a job.  After any sequence of ticks and of jobs
    finishing, throwing or being abandoned at their deadline: the names in flight are exactly those
    in the lane, each once, so a tick is dropped if and only if its job is queued or running; the
    jobs started and those waiting are the accepted ticks in the order they came; the lane is idle
    or its head is the job started last; and once as many jobs have ended as stand before it, each
    waiting job is running, however those ended. *)
Theorem queue_never_jams events :
  let q := life events in
  (forall name, name ∈ inFlight q <-> In name (lane q)) /\ NoDup (lane q) /\
  (exists acc, reachable acc q /\ acc = started q ++ tail (lane q)) /\
  (lane q = [] \/ last (started q) = head (lane q)) /\
  (forall hows name, nth_error (lane q) (List.length hows) = Some name ->
     head (lane (life (events ++ List.map Ends hows))) = Some name).
Proof.
  intros q. destruct (life_reachable events) as [acc Hacc]. fold q in Hacc.
  pose proof (reachable_inv _ _ Hacc) as [Hf Hn Hq Hr].
  split; [intros name; by rewrite Hf, elem_of_list_to_set, list_elem_of_In|].
  split; [done|]. split; [by exists acc|]. split; [done|]. intros hows name Hname.
  unfold life. rewrite foldl_app. fold (life events). fold q.
  assert (Hmap : forall q0, foldl step q0 (List.map Ends hows) = foldl settle_job q0 hows).
  { induction hows as [|h hows IH] in |- *; intros q0; simpl; [done|apply IH]. }
  rewrite Hmap. by apply settle_n.
Qed.

Example two_ticks : lane (life [Tick "cure-expiry"; Tick "sync"; Tick "sync"; Ends TimedOut]) = ["sync"] /\
  skippedCount (life [Tick "cure-expiry"; Tick "sync"; Tick "sync"]) = 1 /\
  timeouts (life [Tick "cure-expiry"; Tick "sync"; Ends TimedOut]) = ["cure-expiry"].
Proof. vm_compute. auto. Qed.
