(* ===== verification/Monitor.v ===== *)
(** [services/margin-monitor/src]: the monitor that records every change of a line's margin state as
    the contract reports it ([monitor.ts]), its poll pass and the loop of passes ([index.ts]). *)
From S2P Require Import Prelude Prog Schema Rules Chain.

Inductive MonitorCall : Type -> Type :=
| ReadLtv (line : Z) : MonitorCall LtvView.

(** The alert fired, and the log lines of a pass. *)
Inductive MonitorOut :=
| MarginCallAlert (creditLineId state : string) (ltvBps : Z)
| StateChanged (lineId : string)
| RecomputeFailed (lineId : string)
| PassFailed.

Notation monitor_prog := (prog Database MonitorCall MonitorOut).
Notation monitor_world := (world Database MonitorCall MonitorOut).

Record RecomputeLineResult := Recomputed { rr_changed : bool; rr_fromState : option string; rr_toState : string; rr_ltvBps : Z }.

(** The latest event of a line, the first pledge found on it and the latest snapshot of an asset. *)
Definition last_event (lineId : string) : monitor_prog (option marginEvent_row) :=
  rows <- stmt (select marginEvent (fun e => eqs (me_creditLineId e) lineId)) ;;
  Ret (hd_error (order_desc me_createdAt rows)).

Definition latest_snapshot (assetId : string) : monitor_prog (option priceSnapshot_row) :=
  rows <- stmt (select priceSnapshot (fun s => eqs (ps_assetId s) assetId)) ;;
  Ret (hd_error (order_desc ps_createdAt rows)).

Definition snapshot_of_line (lineId : string) : monitor_prog (option string) :=
  pledgeRow <- select_one pledge (fun p => eqs (pl_creditLineId p) lineId) ;;
  match pledgeRow with
  | Some p => snapshot <- latest_snapshot (pl_assetId p) ;; Ret (option_map ps_id snapshot)
  | None => Ret None
  end.

Definition alerts (state : string) : bool := eqs state "MarginCall" || eqs state "Liquidation".

Definition recomputeLine (lineId contractLineId : string) : monitor_prog RecomputeLineResult :=
  n <- lift (BigInt contractLineId) ;;
  view <- call (ReadLtv n) ;;
  lastEvent <- last_event lineId ;;
  let fromState := me_toState <$> lastEvent in
  let changed := negb (bool_decide (fromState = Some (lv_state view))) in
  (if changed
   then
     priceSnapshotId <- snapshot_of_line lineId ;;
     stmt (insert marginEvent (fun s => MarginEvent (st_uuid s) lineId (default "Healthy" fromState) (lv_state view)
       (lv_ltvBps view) priceSnapshotId (st_now s))) ;;;
     if alerts (lv_state view) then emit (MarginCallAlert lineId (lv_state view) (lv_ltvBps view)) else Ret tt
   else Ret tt) ;;;
  Ret (Recomputed changed fromState (lv_state view) (lv_ltvBps view)).

Definition poll_line (line : creditLine_row) : monitor_prog unit :=
  match cl_contractLineId line with
  | None => Ret tt
  | Some contractLineId =>
      if eqs contractLineId "" then Ret tt
      else
        catch (result <- recomputeLine (cl_id line) contractLineId ;;
               if rr_changed result then emit (StateChanged (cl_id line)) else Ret tt)
          (fun _ => emit (RecomputeFailed (cl_id line)))
  end.

Definition pollOnce : monitor_prog unit :=
  openLines <- stmt (select creditLine (fun l => eqs (cl_status l) "open")) ;;
  fold (fun _ line => poll_line line) tt openLines.

(** [loop], for so many passes: an exception is logged and the next pass comes.  The monitor keeps nothing
    in memory, so that a restart between two passes changes nothing. *)
Definition loop_pass : monitor_prog unit := catch pollOnce (fun _ => emit PassFailed).
Definition monitor_life (passes : nat) : monitor_prog unit := fold (fun _ _ => loop_pass) tt (List.repeat tt passes).

(** ** What a recompute does *)
(** The alerts fired so far. *)
Definition alerted (log : list (entry MonitorCall MonitorOut)) : list MonitorOut :=
  List.concat (List.map (fun x => match x with EOut (MarginCallAlert a b c) => [MarginCallAlert a b c] | _ => [] end) log).

Definition last_state (d : Database) (lineId : string) : option string :=
  me_toState <$> hd_error (order_desc me_createdAt (List.filter (fun e => eqs (me_creditLineId e) lineId) (d marginEvent))).

(** The row a transition is recorded by. *)
Definition transition_row (d : Database) (lineId : string) (view : LtvView) (e : marginEvent_row) : Prop :=
  me_creditLineId e = lineId /\ me_fromState e = default "Healthy" (last_state d lineId) /\
  me_toState e = lv_state view /\ me_ltvBps e = lv_ltvBps view.

Lemma wp_snapshot_of_line (Adm : @admissible MonitorCall) lineId (w : monitor_world) (Q : outcome (option string) -> monitor_world -> Prop) :
  (forall r w', w_db w' = w_db w -> w_log w' = w_log w -> (w_tick w <= w_tick w')%nat -> Q r w') -> wp Adm (snapshot_of_line lineId) Q w.
Proof.
  intros HQ. unfold snapshot_of_line, select_one, latest_snapshot.
  wp_step. wp_step. wp_step; [intros x; apply HQ; [done|done|cbn; lia]|]. wp_step.
  destruct (hd_error _); [|wp_step; apply HQ; [done|done|cbn; lia]].
  wp_step. wp_step. wp_step; [intros x; apply HQ; [done|done|cbn; lia]|]. wp_step. apply HQ; [done|done|cbn; lia].
Qed.

Section Recompute.
Context (d : Database) (lineId contractLineId : string).
Notation Adm := any_answer.
Notation world := monitor_world.
Implicit Types w : world.

(** What a recompute that read [view] left. *)
Definition Recorded (view : LtvView) (r : outcome RecomputeLineResult) w : Prop :=
  (forall t, t <> marginEvent -> w_db w t = d t) /\
  match r with
  | Ok res =>
      res = Recomputed (negb (bool_decide (last_state d lineId = Some (lv_state view)))) (last_state d lineId) (lv_state view) (lv_ltvBps view) /\
      if rr_changed res
      then (exists e, transition_row d lineId view e /\ w_db w marginEvent = d marginEvent ++ [e]) /\ int4 (lv_ltvBps view) = true /\
           alerted (w_log w) = if alerts (lv_state view) then [MarginCallAlert lineId (lv_state view) (lv_ltvBps view)] else []
      else w_db w = d /\ alerted (w_log w) = []
  | Err _ => alerted (w_log w) = [] /\
      (w_db w = d \/ exists e, transition_row d lineId view e /\ int4 (lv_ltvBps view) = true /\ w_db w marginEvent = d marginEvent ++ [e])
  end.

Lemma wp_recomputeLine w : w_db w = d -> w_log w = [] ->
  wp Adm (recomputeLine lineId contractLineId) (fun r w' =>
    (alerted (w_log w') = [] /\ w_db w' = d /\ exists x, r = Err x) \/
    exists n view, BigInt contractLineId = Ok n /\ In (ECall (ReadLtv n) (Ok view)) (w_log w') /\ Recorded view r w') w.
Proof.
  intros Hd Hl. unfold recomputeLine, last_event. wp_step. wp_step.
  destruct (BigInt contractLineId) as [n|x] eqn:En; [|left; rewrite Hl; by eauto].
  wp_step. wp_step. destruct r as [view|x]; [|left; simpl; rewrite Hl; by eauto].
  set (w1 := note w _). assert (Hd1 : w_db w1 = d) by done.
  assert (Hl1 : w_log w1 = [ECall (ReadLtv n) (Ok view)]) by (subst w1; world_simpl; by rewrite Hl).
  assert (Hin : forall w', (exists l, w_log w' = w_log w1 ++ l) -> In (ECall (ReadLtv n) (Ok view)) (w_log w')).
  { intros w' [l ->]. rewrite Hl1. by left. }
  assert (Hstop : forall x w', w_db w' = d -> w_log w' = w_log w1 ->
    alerted (w_log w') = [] /\ w_db w' = d /\ exists y, Err (A := RecomputeLineResult) x = Err y).
  { intros x w' E1 E2. rewrite E2, Hl1. by eauto. }
  wp_step. wp_step. wp_step; [intros x; left; by apply Hstop|]. wp_step. cbn [row].
  replace (order_desc me_createdAt (List.filter (fun e => eqs (me_creditLineId e) lineId) (w_db w1 marginEvent)))
    with (order_desc me_createdAt (List.filter (fun e => eqs (me_creditLineId e) lineId) (d marginEvent))) by (by rewrite Hd1).
  cbv zeta. fold (last_state d lineId). wp_step. destruct (negb _) eqn:Ech; cbn [rr_changed].
  2: { wp_step. right. exists n, view. split; [done|]. split; [apply Hin; exists []; by rewrite app_nil_r|].
       split; [by intros t _; rewrite <- Hd1|]. rewrite Ech. split; [done|]. split; [done|]. change (alerted (w_log w1) = []). by rewrite Hl1. }
  wp_step. apply wp_snapshot_of_line. intros r w2 Hd2 Hl2 _. destruct r as [snap|x]; [|left; apply Hstop; [exact (eq_trans Hd2 Hd1)|exact Hl2]].
  assert (Hd2' : w_db w2 = d) by exact (eq_trans Hd2 Hd1). assert (Hl2' : w_log w2 = w_log w1) by exact Hl2.
  wp_step. wp_step; [intros x; left; by apply Hstop|]. intros s Hrange _ _. cbn [in_range] in Hrange. simpl in Hrange.
  set (e := MarginEvent _ _ _ _ _ _ _) in *.
  assert (He : transition_row d lineId view e) by done.
  assert (Hdb : forall t, t <> marginEvent -> set_table marginEvent (w_db w2 marginEvent ++ [e]) (w_db w2) t = d t).
  { intros t Ht. rewrite set_table_other by done. by rewrite Hd2'. }
  assert (Hme : set_table marginEvent (w_db w2 marginEvent ++ [e]) (w_db w2) marginEvent = d marginEvent ++ [e]).
  { by rewrite set_table_same, Hd2'. }
  split.
  2: { intros x. right. exists n, view. split; [done|]. split; [apply Hin; exists []; by rewrite app_nil_r|].
       split; [done|]. split; [by rewrite w_log_after, Hl2', Hl1|]. right. by exists e. }
  assert (Hend : forall w', w_db w' = set_table marginEvent (w_db w2 marginEvent ++ [e]) (w_db w2) ->
    w_log w' = w_log w1 ++ (if alerts (lv_state view) then [EOut (MarginCallAlert lineId (lv_state view) (lv_ltvBps view))] else []) ->
    (alerted (w_log w') = [] /\ w_db w' = d /\ exists x, Ok (Recomputed true (last_state d lineId) (lv_state view) (lv_ltvBps view)) = Err x) \/
    exists n0 view0, Ok n = Ok n0 /\ In (ECall (ReadLtv n0) (Ok view0)) (w_log w') /\
      Recorded view0 (Ok (Recomputed true (last_state d lineId) (lv_state view) (lv_ltvBps view))) w').
  { intros w' E1 E2. right. exists n, view. split; [done|]. split; [apply Hin; by eexists|].
    split; [intros t Ht; rewrite E1; by apply Hdb|]. rewrite Ech. split; [done|]. cbn [rr_changed].
    split; [exists e; split; [done|by rewrite E1]|]. split; [done|]. rewrite E2, Hl1. by destruct (alerts _). }
  destruct (alerts (lv_state view)) eqn:Eal; wp_step; apply Hend; try done; simpl; rewrite ?Hl2', ?app_nil_r; done.
Qed.
End Recompute.

(** A recompute of a line reads the contract once and records a margin event exactly when the
    state the contract reports differs from the last one recorded for the line, as a transition from
    that state (or from Healthy) with the contract's LTV; it alerts exactly when it recorded a margin
    call or liquidation, and a recompute that fails has alerted nobody. *)
Theorem recompute_records_transitions (e : env MonitorCall) (d : Database) lineId contractLineId :
  let '(r, w) := run e (recomputeLine lineId contractLineId) (World d 0 []) in
  (alerted (w_log w) = [] /\ w_db w = d /\ exists x, r = Err x) \/
  exists n view, BigInt contractLineId = Ok n /\ In (ECall (ReadLtv n) (Ok view)) (w_log w) /\
    Recorded d lineId view r w.
Proof. apply (wp_sound any_answer); [auto with ballast|]. by apply wp_recomputeLine. Qed.

(** An LTV that does not fit the 32-bit column is never recorded nor alerted: if the contract
    only reports such values (as it does, [u32::MAX], for debt without collateral value), every
    recompute of the line that would have to record a transition throws and leaves the books as they
    were, whatever the state reported. *)
Theorem oversized_ltv_is_silent (e : env MonitorCall) (d : Database) lineId contractLineId
    (Hltv : forall n line view, answer e _ n (ReadLtv line) = Ok view ->
       int4 (lv_ltvBps view) = false /\ last_state d lineId <> Some (lv_state view)) :
  let '(r, w) := run e (recomputeLine lineId contractLineId) (World d 0 []) in
  w_db w = d /\ alerted (w_log w) = [] /\ exists x, r = Err x.
Proof.
  pose proof (wp_sound any_answer e _ _ _ (any_answer_respects e)
    (wp_recomputeLine d lineId contractLineId (World d 0 []) eq_refl eq_refl)) as Hw.
  pose proof (run_answered e (recomputeLine lineId contractLineId) (World d 0 []) (Forall_nil_2 _)) as Hl.
  destruct (run e _ _) as [r w]. destruct Hw as [(Ha & Hd & Hr)|(n & view & _ & Hin & _ & Hr)]; [done|].
  rewrite Forall_forall in Hl. apply list_elem_of_In in Hin. destruct (Hl _ Hin) as [m Hm].
  destruct (Hltv m n view (eq_sym Hm)) as [Hint Hst]. destruct r as [res|x].
  - destruct Hr as [-> Hr]. rewrite bool_decide_false in Hr by done. cbn [negb rr_changed] in Hr.
    destruct Hr as (_ & Hok & _). congruence.
  - destruct Hr as [Ha [Hd|(ev & _ & Hok & _)]]; [by eauto|congruence].
Qed.

Definition worthless_view : LtvView := Ltv 100 0 4294967295 "Liquidation" "Normal".
Definition worthless_answer (X : Type) (n : nat) (c : MonitorCall X) : outcome X :=
  match c in MonitorCall X return outcome X with ReadLtv _ => Ok worthless_view end.
Definition worthless_env : env MonitorCall :=
  Env worthless_answer (fun _ => NoFault) (fun n => Stamp (Z.of_nat n) (pretty (N.of_nat n))).

Lemma oversized_ltv_is_silent_witness :
  let '(r, w) := run worthless_env (recomputeLine "line" "7") (World empty_db 0 []) in
  w_db w = empty_db /\ alerted (w_log w) = [] /\ exists x, r = Err x.
Proof. apply oversized_ltv_is_silent. intros n line view [= <-]. split; [vm_compute; reflexivity|discriminate]. Defined.

(** ** The record of a line's transitions *)
(** The events of a line, as they were recorded, go each from the state the one before it went to, the
    first from Healthy, and no event repeats a state. *)
Definition events_of (lineId : string) (d : Database) : list marginEvent_row := List.filter (fun e => eqs (me_creditLineId e) lineId) (d marginEvent).
Fixpoint chained (state : option string) (l : list marginEvent_row) : Prop :=
  match l with
  | [] => True
  | e :: l => me_fromState e = default "Healthy" state /\ state <> Some (me_toState e) /\ chained (Some (me_toState e)) l
  end.
Definition last_to (state : option string) (l : list marginEvent_row) : option string :=
  match last l with Some e => Some (me_toState e) | None => state end.

Lemma chained_snoc state l e : chained state (l ++ [e]) <->
  chained state l /\ me_fromState e = default "Healthy" (last_to state l) /\ last_to state l <> Some (me_toState e).
Proof.
  revert state. induction l as [|a l IH]; intros state; cbn; [unfold last_to; cbn; tauto|]. rewrite IH.
  assert (last_to (Some (me_toState a)) l = last_to state (a :: l)) as ->.
  { unfold last_to. by destruct l as [|b l]; [|cbn; destruct (last (b :: l)) eqn:E; [|by apply last_None in E]]. }
  tauto.
Qed.

Definition dated (l : list marginEvent_row) : Prop := StronglySorted (fun a b => me_createdAt a < me_createdAt b) l.
(** A database whose events are the monitor's: chained, and in the order of their times. *)
Definition well_recorded (d : Database) : Prop := forall lineId, chained None (events_of lineId d) /\ dated (events_of lineId d).

Lemma last_state_chain d lineId : dated (events_of lineId d) -> last_state d lineId = last_to None (events_of lineId d).
Proof.
  intros Hs. unfold last_state, last_to. fold (events_of lineId d). rewrite order_desc_last by done. by destruct (last _).
Qed.

Section Record.
Context (e : env MonitorCall) (d0 : Database).
(** The clock moves on between two operations. *)
Context (clock : forall n m, (n < m)%nat -> st_now (stamps e n) < st_now (stamps e m)).
Definition clocked : @admissible MonitorCall := Admissible (fun _ _ _ => True) True (fun n s => s = stamps e n).
Notation Adm := clocked.
Notation world := monitor_world.
Implicit Types w : world.

(** The number of an open line on chain. *)
Definition numbered (d : Database) (lineId : string) (n : Z) : Prop :=
  exists line c, In line (d creditLine) /\ cl_id line = lineId /\ cl_status line = "open" /\ cl_contractLineId line = Some c /\ BigInt c = Ok n.

(** A recorded event says what the contract said of its line, under that line's own number. *)
Definition as_read (d : Database) (log : list (entry MonitorCall MonitorOut)) (ev : marginEvent_row) : Prop :=
  exists n view, numbered d (me_creditLineId ev) n /\ In (ECall (ReadLtv n) (Ok view)) log /\ me_toState ev = lv_state view /\ me_ltvBps ev = lv_ltvBps view.

Record kept_record w : Prop := Kept {
  kr_others : forall t, t <> marginEvent -> w_db w t = d0 t;
  kr_new : exists new, w_db w marginEvent = d0 marginEvent ++ new /\ Forall (as_read d0 (w_log w)) new;
  kr_well : well_recorded (w_db w);
  kr_past : Forall (fun ev => forall m, (w_tick w <= m)%nat -> me_createdAt ev < st_now (stamps e m)) (w_db w marginEvent) }.

Lemma kept_later w w' : kept_record w -> w_db w' = w_db w -> (w_tick w <= w_tick w')%nat -> (exists l, w_log w' = w_log w ++ l) -> kept_record w'.
Proof.
  intros [Ho (new & En & Hn) Hw Hp] Hd Ht [l Hl]. split; rewrite ?Hd; try done.
  - exists new. split; [done|]. eapply Forall_impl; [exact Hn|]. intros ev (n & view & Hnum & Hin & Hv). exists n, view. split; [done|]. split; [|done].
    rewrite Hl. apply in_app_iff. by left.
  - eapply Forall_impl; [exact Hp|]. cbn. intros ev H m Hm. apply H. lia.
Qed.

(** Recording what was read keeps the record. *)
Lemma kept_insert w lineId view n uuid snap :
  kept_record w -> numbered d0 lineId n -> In (ECall (ReadLtv n) (Ok view)) (w_log w) -> last_state (w_db w) lineId <> Some (lv_state view) ->
  kept_record (after w (set_table marginEvent (w_db w marginEvent ++
    [MarginEvent uuid lineId (default "Healthy" (last_state (w_db w) lineId)) (lv_state view) (lv_ltvBps view) snap (st_now (stamps e (w_tick w)))]) (w_db w))).
Proof.
  intros [Ho (new & En & Hn) Hw Hp] Hnum Hin Hne. set (ev := MarginEvent _ _ _ _ _ _ _).
  assert (Hev : forall L, events_of L (set_table marginEvent (w_db w marginEvent ++ [ev]) (w_db w)) =
    events_of L (w_db w) ++ (if eqs lineId L then [ev] else [])).
  { intros L. unfold events_of. rewrite set_table_same, List.filter_app. done. }
  split; cbn [after tick with_db w_db w_tick w_log].
  - intros t Ht. by rewrite set_table_other, Ho by done.
  - exists (new ++ [ev]). rewrite set_table_same, En, <- app_assoc. split; [done|]. apply Forall_app. split; [done|].
    apply Forall_singleton. by exists n, view.
  - intros L. rewrite Hev. destruct (Hw L) as [Hc Hs]. unfold eqs. case_bool_decide as EL; [|by rewrite app_nil_r]. subst L. split.
    + apply chained_snoc. rewrite <- last_state_chain by done. done.
    + clear Hc Hev. assert (Hall : Forall (fun x => me_createdAt x < me_createdAt ev) (events_of lineId (w_db w))).
      { apply Forall_forall. intros x [Hx _]%list_elem_of_In%filter_In. apply list_elem_of_In in Hx.
        apply (proj1 (Forall_forall _ _) Hp) with (m := w_tick w) in Hx; [exact Hx|done]. }
      induction (events_of lineId (w_db w)) as [|a l IH]; cbn; [by repeat constructor|].
      apply StronglySorted_inv in Hs as [Hs Ha]. apply Forall_cons in Hall as [Hae Hall]. constructor; [by apply IH|].
      apply Forall_app. split; [done|by apply Forall_singleton].
  - rewrite set_table_same. apply Forall_app. split.
    + eapply Forall_impl; [exact Hp|]. cbn. intros x H m Hm. apply H. lia.
    + apply Forall_singleton. cbn. intros m Hm. apply clock. lia.
Qed.

Lemma wp_recompute_keeps lineId contractLineId w : (forall n, BigInt contractLineId = Ok n -> numbered d0 lineId n) -> kept_record w ->
  wp Adm (recomputeLine lineId contractLineId) (fun _ w' => kept_record w') w.
Proof.
  intros Hnum Hk. unfold recomputeLine, last_event. wp_step. wp_step. destruct (BigInt contractLineId) as [n|x]; [|done]. specialize (Hnum n eq_refl).
  wp_step. wp_step. set (w1 := note w _).
  assert (Hk1 : kept_record w1) by (eapply kept_later; [exact Hk|done|cbn; lia|by eexists]).
  destruct r as [view|x]; [|exact Hk1]. assert (Hin : In (ECall (ReadLtv n) (Ok view)) (w_log w1)) by (cbn; apply in_app_iff; right; by left).
  clearbody w1. clear Hk.
  assert (Htick : forall w2 : monitor_world, w_db w2 = w_db w1 -> w_log w2 = w_log w1 -> (w_tick w1 <= w_tick w2)%nat -> kept_record w2).
  { intros w2 Hd Hl Ht. eapply kept_later; [exact Hk1|done|done|]. exists []. by rewrite Hl, app_nil_r. }
  wp_step. wp_step. wp_step; [intros x; apply Htick; cbn; done || lia|]. wp_step. cbn [row]. cbv zeta.
  change (me_toState <$> hd_error (order_desc me_createdAt (List.filter (fun e => eqs (me_creditLineId e) lineId) (w_db w1 marginEvent))))
    with (last_state (w_db w1) lineId).
  wp_step. destruct (negb _) eqn:Ech; [|wp_step; apply Htick; cbn; done || lia].
  apply negb_true_iff, bool_decide_eq_false in Ech.
  wp_step. apply wp_snapshot_of_line. intros r w2 Hd2 Hl2 Ht2. cbn in Hd2, Hl2, Ht2.
  assert (Hk2 : kept_record w2) by (apply Htick; [done|done|lia]). destruct r as [snap|x]; [|exact Hk2].
  wp_step. apply wp_insert_stamped; [intros x; eapply kept_later; [exact Hk2|done|cbn; lia|exists []; by rewrite app_nil_r]|].
  intros s d' Hs. cbn in Hs. subst s. rewrite <- Hd2 in Ech. rewrite <- Hl2 in Hin.
  pose proof (kept_insert w2 lineId view n (st_uuid (stamps e (w_tick w2))) snap Hk2 Hnum Hin Ech) as Hk3. rewrite Hd2 in Hk3. subst d'. rewrite Hd2.
  split; [|intros x; exact Hk3]. cbv beta.
  destruct (alerts (lv_state view)); repeat wp_step; [|exact Hk3]. eapply kept_later; [exact Hk3|done|cbn; lia|by eexists].
Qed.

Lemma kept_note w o : kept_record w -> kept_record (note w (EOut o)).
Proof. intros Hk. eapply kept_later; [exact Hk|done|cbn; lia|by eexists]. Qed.

Lemma wp_poll_line_keeps line w : In line (d0 creditLine) -> cl_status line = "open" -> kept_record w -> wp Adm (poll_line line) (fun _ w' => kept_record w') w.
Proof.
  intros Hl Ho Hk. unfold poll_line. destruct (cl_contractLineId line) as [c|] eqn:Ec; [|exact Hk]. destruct (eqs c ""); [exact Hk|].
  wp_step. wp_step. eapply wp_mono; [|apply wp_recompute_keeps; [intros n En; by exists line, c|done]]. intros [res|x] w' Hk'; [destruct (rr_changed res)|]; repeat wp_step;
    try exact Hk'; by apply kept_note.
Qed.

Lemma wp_life_keeps passes w : kept_record w -> wp Adm (monitor_life passes) (fun r w' => r = Ok tt /\ kept_record w') w.
Proof.
  intros Hk. unfold monitor_life. eapply (wp_fold Adm (fun _ _ => kept_record) (fun _ _ => False)) with (l0 := []); [|by intros []|done|exact Hk].
  intros _ _ _ w1 Hk1. unfold loop_pass. wp_step. unfold pollOnce. wp_step.
  assert (Htick : kept_record (tick w1)) by (eapply kept_later; [exact Hk1|done|cbn; lia|exists []; by rewrite app_nil_r]).
  wp_step; [intros x; repeat wp_step; by apply kept_note|]. 
  eapply (wp_fold_split Adm (fun _ _ => kept_record) (fun _ => kept_record)) with (l0 := []); [|done|intros x w2 Hk2; repeat wp_step; by apply kept_note|exact Htick].
  intros before line after_ [] w2 E Hk2. cbn [app] in E.
  assert (Hin : In line (before ++ line :: after_)) by (apply in_app_iff; right; by left). rewrite <- E in Hin.
  apply filter_In in Hin as [Hin Ho%bool_decide_eq_true]. rewrite (kr_others _ Hk1) in Hin by done.
  eapply wp_mono; [|by apply wp_poll_line_keeps]. by intros [[]|x] w3.
Qed.
End Record.

(** C22. The record of a line's margin states is a chain.  Let the monitor run for any number of passes, restarted
    or not, on a clock that moves on, whatever the contract answers and whichever statements fail or lose
    their acknowledgement.  It keeps running and changes nothing but the margin events, of which it only
    adds; every one it adds says the state and the LTV the contract reported in this run for the open line it is
    about, asked for under that line's number; and of every line the events go each from the state the one before it went to, without repeating one. *)
Theorem margin_record_is_a_chain (e : env MonitorCall) passes (d : Database)
    (clock : forall n m, (n < m)%nat -> st_now (stamps e n) < st_now (stamps e m))
    (Hstart : well_recorded d) (Hpast : Forall (fun ev => forall n, me_createdAt ev < st_now (stamps e n)) (d marginEvent)) :
  let '(r, w) := run e (monitor_life passes) (World d 0 []) in
  r = Ok tt /\ (forall t, t <> marginEvent -> w_db w t = d t) /\
  (exists new, w_db w marginEvent = d marginEvent ++ new /\ Forall (as_read d (w_log w)) new) /\
  forall lineId, chained None (events_of lineId (w_db w)).
Proof.
  assert (Hk : kept_record e d (World d 0 [])).
  { split; [done|exists []; by rewrite app_nil_r|done|]. eapply Forall_impl; [exact Hpast|]. cbn. auto. }
  assert (Hresp : respects (clocked e) e) by by split.
  pose proof (wp_sound (clocked e) e _ _ _ Hresp (wp_life_keeps e d clock passes _ Hk)) as Hr.
  destruct (run e _ _) as [r w]. destruct Hr as [-> [Ho Hn Hw _]]. split_and!; try done. intros lineId. apply Hw.
Qed.

(** Three passes over one line: a margin call, whose record is made without being acknowledged and so is not
    alerted; nothing new; a liquidation. *)
Module RecordSample.
Definition line : creditLine_row := CreditLine "line" "party2" "party1" "USDC" "100" 500 50 86400 "open" (Some "7") None 0 None.
Definition books : Database := set_table creditLine [line] empty_db.
Definition reads (X : Type) (n : nat) (c : MonitorCall X) : outcome X :=
  match c in MonitorCall X return outcome X with
  | ReadLtv _ => Ok (if (n <? 9)%nat then Ltv 100 120 8300 "MarginCall" "Normal" else Ltv 100 105 9500 "Liquidation" "Normal")
  end.
Definition clocked_env : env MonitorCall :=
  Env reads (fun n => if (n =? 4)%nat then AckLost (Error "connection lost") else NoFault) (fun n => Stamp (Z.of_nat n) (pretty (N.of_nat n))).

Example three_passes :
  let w := snd (run clocked_env (monitor_life 3) (World books 0 [])) in
  List.map (fun ev => (me_fromState ev, me_toState ev)) (w_db w marginEvent) = [("Healthy", "MarginCall"); ("MarginCall", "Liquidation")] /\
  alerted (w_log w) = [MarginCallAlert "line" "Liquidation" 9500].
Proof. vm_compute. auto. Qed.

Lemma margin_record_is_a_chain_witness :
  let '(r, w) := run clocked_env (monitor_life 3) (World books 0 []) in
  r = Ok tt /\ (forall t, t <> marginEvent -> w_db w t = books t) /\
  (exists new, w_db w marginEvent = books marginEvent ++ new /\ Forall (as_read books (w_log w)) new) /\
  forall lineId, chained None (events_of lineId (w_db w)).
Proof.
  apply margin_record_is_a_chain.
  - intros n m Hnm. cbn. lia.
  - intros lineId. split; [exact I|constructor].
  - constructor.
Defined.
End RecordSample.
