(* ===== verification/Indexer.v ===== *)
(** [services/indexer]: mirroring the chain's contract events into [chain_event] ([poller.ts]) over
    a retrying RPC client ([rpc.ts]). *)
From S2P Require Import Prelude Prog Schema Rules Domain Chain Intents.

(** ** rpc.ts *)
Record RawChainEvent := RawEvent {
  re_id : option string; re_ledger : Z; re_txHash : string; re_contractId : string;
  re_topic : list string; re_value : string }.

Record GetEventsResult := EventsPage { ep_events : list RawChainEvent; ep_latestLedger : Z }.
Record GetHealthResult := Health { gh_latestLedger : Z; gh_oldestLedger : Z; gh_ledgerRetentionWindow : Z }.

(** Where a [getEvents] request starts: the RPC takes a ledger or a cursor, not both. *)
Inductive EventsFrom := FromLedger (l : Z) | FromCursor (c : string).

Inductive IndexerCall : Type -> Type :=
| RpcGetEvents (from : EventsFrom) (filters : list (list string)) (limit : Z) : IndexerCall GetEventsResult
| RpcGetLatestLedger : IndexerCall Z
| RpcGetHealth : IndexerCall GetHealthResult.

(** Metrics, log lines and alerts. *)
Inductive IndexerOut :=
| Increment (name : string) (tags : list (string * string))
| Gauge (name : string) (value : Z)
| Warn (msg : string)
| FireAlert (kind : string) (detail : list (string * Z)).

Notation indexer_prog := (prog Database IndexerCall IndexerOut).
Notation indexer_world := (world Database IndexerCall IndexerOut).

(** [withRetry]: [attempts] left; the pause between two attempts changes nothing observed. *)
Fixpoint withRetry_from {A} (attempts : nat) (fn : indexer_prog A) : indexer_prog A :=
  match attempts with
  | O => Throw (Error "undefined")
  | S more => catch fn (fun err => if (more =? 0)%nat then Throw err else withRetry_from more fn)
  end.
Definition withRetry {A} (fn : indexer_prog A) : indexer_prog A := withRetry_from 4 fn.

(** The client's [getEvents]; an empty cursor counts as none. *)
Definition getEvents (startLedger : Z) (filters : list (list string)) (limit : Z) (cursor : option string)
  : indexer_prog GetEventsResult :=
  withRetry (call (RpcGetEvents
    (if truthy_id cursor then FromCursor (default "" cursor) else FromLedger startLedger) filters limit)).
Definition getLatestLedger : indexer_prog Z := withRetry (call RpcGetLatestLedger).
Definition getHealth : indexer_prog GetHealthResult := withRetry (call RpcGetHealth).

(** ** poller.ts: constants *)
Definition DEFAULT_CURSOR_ID : string := "default".
Definition COLD_START_LOOKBACK_LEDGERS : Z := 1000.
Definition PAGE_SIZE : Z := 100.
Definition MAX_CONTRACT_IDS_PER_FILTER : nat := 5.
Definition LEDGER_CLOSE_SECONDS : Z := 5.
Definition DEFAULT_LAG_ALERT_LEDGERS : Z := 12.

(** ** Decoding.  The SDK's decoder and base64 encoder of an XDR value; XDR values are opaque. *)
Class IndexerSdk := {
  scValToNative : string -> outcome jsval;
  toXDR_base64 : string -> outcome string;
  String_value : string -> string }.

Fixpoint toJsonSafe (value : jsval) : jsval :=
  match value with
  | JBig n => JStr (Z_to_string n)
  | JArr l => JArr (List.map toJsonSafe l)
  | JObj l => JObj (List.map (fun kv => match kv with (k, v) => (k, toJsonSafe v) end) l)
  | v => v
  end.

Section Poller.
Context `{IndexerSdk}.

Definition decodeTopicName (topic : list string) : string :=
  match topic with
  | [] => "unknown"
  | t :: _ => match scValToNative t with Ok v => js_String v | Err _ => "unknown" end
  end.

(** The [data] column of a decodable event. *)
Definition event_data (event : RawChainEvent) : outcome jsval :=
  topics <-? omap_list scValToNative (tl (re_topic event)) ;;
  value <-? scValToNative (re_value event) ;;
  Ok (toJsonSafe (JObj [("topics", JArr topics); ("value", value)])).

(** The [raw] field of an undecodable one. *)
Definition event_raw (event : RawChainEvent) : string :=
  match toXDR_base64 (re_value event) with Ok raw => raw | Err _ => String_value (re_value event) end.

(** One element of [rows], but for the columns the database fills in; and the warning, if any. *)
Definition event_row (event : RawChainEvent) (s : stamp) : chainEvent_row :=
  match event_data event with
  | Ok data =>
      ChainEvent (st_uuid s) (re_id event) (re_ledger event) (re_txHash event) (re_contractId event)
        (decodeTopicName (re_topic event)) data (st_now s)
  | Err err =>
      ChainEvent (st_uuid s) (re_id event) (re_ledger event) (re_txHash event) (re_contractId event)
        "undecodable" (JObj [("error", JStr (exn_message err)); ("raw", JStr (event_raw event))]) (st_now s)
  end.

Definition warn_undecodable (event : RawChainEvent) : indexer_prog unit :=
  match event_data event with
  | Ok _ => Ret tt
  | Err err => emit (Warn ("indexer: undecodable event at ledger " +:+ Z_to_string (re_ledger event) +:+
                           " (id " +:+ default "undefined" (re_id event) +:+ "): " +:+ exn_message err))
  end.

(** ** getLastIngestedLedger *)
Fixpoint max_ledger (l : list chainEvent_row) : option Z :=
  match l with
  | [] => None
  | e :: l' => Some (match max_ledger l' with Some m => Z.max (ce_ledger e) m | None => ce_ledger e end)
  end.

Definition getLastIngestedLedger : indexer_prog (option Z) :=
  cursor <- catch
    (rows <- stmt (select indexerCursor (fun c => eqs (ic_id c) DEFAULT_CURSOR_ID)) ;;
     Ret (option_map ic_lastLedger (hd_error rows)))
    (fun _ => Ret None) ;;
  match cursor with
  | Some l => Ret (Some l)
  | None => rows <- stmt (select chainEvent (fun _ => true)) ;; Ret (max_ledger rows)
  end.

(** ** pollOnce *)
Record PollOnceResult := Polled {
  fromLedger : Z; insertedCount : Z; latestLedger : Z; scannedUpTo : Z;
  skippedFrom : option Z; skippedTo : option Z }.

(** The contract ids, at most five to a filter. *)
Fixpoint filters_from (fuel : nat) (ids : list string) : list (list string) :=
  match fuel, ids with
  | S fuel', _ :: _ =>
      take MAX_CONTRACT_IDS_PER_FILTER ids :: filters_from fuel' (drop MAX_CONTRACT_IDS_PER_FILTER ids)
  | _, _ => []
  end.
Definition filters_of (contractIds : list string) : list (list string) :=
  filters_from (List.length contractIds) contractIds.

Definition OutOfFuel : exn := Exn "OutOfFuel" "".

Definition last_id (events : list RawChainEvent) : option string := last events ≫= re_id.

(** The paging loop.  The source's is unbounded; [fuel] bounds the pages read. *)
Fixpoint drain (fuel : nat) (startLedger : Z) (filters : list (list string)) (cursor : option string)
    (events : list RawChainEvent) : indexer_prog (list RawChainEvent * Z) :=
  match fuel with
  | O => Throw OutOfFuel
  | S fuel' =>
      page <- getEvents startLedger filters PAGE_SIZE cursor ;;
      let events := events ++ ep_events page in
      let cursor := last_id (ep_events page) in
      if (Z.of_nat (List.length (ep_events page)) <? PAGE_SIZE) || negb (truthy_id cursor)
      then Ret (events, ep_latestLedger page)
      else drain fuel' startLedger filters cursor events
  end.

Definition save_cursor (latest : Z) : indexer_prog unit :=
  if 0 <? latest
  then catch
    (stmt (upsert indexerCursor (fun s => IndexerCursor DEFAULT_CURSOR_ID latest (st_now s))
             (fun s r => IndexerCursor (ic_id r) latest (st_now s))))
    (fun _ => Ret tt)
  else Ret tt.

(** Several rows in one statement, each with its own fresh id. *)
Definition insert_events (events : list RawChainEvent) : indexer_prog unit :=
  match events with
  | [] => Ret tt
  | _ =>
      fold (fun _ e => warn_undecodable e) tt events ;;;
      stamps <- fold (fun acc (_ : RawChainEvent) => s <- sample ;; Ret (acc ++ [s])) [] events ;;
      stmt (insert_all_ignore chainEvent (zip_with event_row events stamps)) ;;; Ret tt
  end.

Definition desired_start (cursorLedger : option Z) : indexer_prog Z :=
  match cursorLedger with
  | Some c => Ret (c + 1)
  | None =>
      lastIngested <- getLastIngestedLedger ;;
      match lastIngested with
      | Some l => Ret (l + 1)
      | None => sequence <- getLatestLedger ;; Ret (Z.max 1 (sequence - COLD_START_LOOKBACK_LEDGERS))
      end
  end.

(** Keeping the range whose events are gone for a later backfill. *)
Definition record_gap (a b : Z) : indexer_prog unit :=
  emit (Increment "indexer.events_gap_skipped" [("from", Z_to_string a); ("to", Z_to_string b)]) ;;;
  stmt (insert_ignore chainEventGap (fun s => ChainEventGap (st_uuid s) a b (st_now s) "open")) ;;;
  Ret tt.

Definition pollOnce (fuel : nat) (contractIds : list string) (cursorLedger : option Z)
  : indexer_prog PollOnceResult :=
  desired <- desired_start cursorLedger ;;
  health <- getHealth ;;
  let startLedger := Z.max desired (gh_oldestLedger health) in
  let skippedFrom := if desired <? startLedger then Some desired else None in
  let skippedTo := if desired <? startLedger then Some (startLedger - 1) else None in
  (match skippedFrom, skippedTo with
   | Some a, Some b => record_gap a b
   | _, _ => Ret tt
   end) ;;;
  res <- drain fuel startLedger (filters_of contractIds) None [] ;;
  let '(events, latest) := res in
  insert_events events ;;;
  save_cursor latest ;;;
  emit (Increment "indexer.events_ingested" [("count", Z_to_string (Z.of_nat (List.length events)))]) ;;;
  emit (Gauge "indexer.latest_ledger" latest) ;;;
  Ret (Polled startLedger (Z.of_nat (List.length events)) latest (Z.max (default 0 cursorLedger) latest)
         skippedFrom skippedTo).

(** ** The cycle *)
Record LagCheckResult := Lag { lagLedgers : Z; isLagging : bool }.

Definition computeRpcLag (rpcTip : Z) (lastScannedLedger : option Z) (thresholdLedgers : Z) : LagCheckResult :=
  match lastScannedLedger with
  | None => Lag 0 false
  | Some l => let lag := Z.max 0 (rpcTip - l) in Lag lag (thresholdLedgers <? lag)
  end.

(** [state.lastScannedLedger] in, the new one out with the result. *)
Definition runIndexerCycle (fuel : nat) (contractIds : list string) (state : option Z) (lagAlertLedgers : Z)
  : indexer_prog (PollOnceResult * option Z) :=
  rpcTip <- getLatestLedger ;;
  (match state with
   | Some l =>
       let lag := computeRpcLag rpcTip state lagAlertLedgers in
       if isLagging lag
       then emit (FireAlert "rpc_lag_high" [("lagLedgers", lagLedgers lag); ("latestLedger", rpcTip);
                    ("lastScannedLedger", l); ("lastIngestedFrom", l)])
       else Ret tt
   | None => Ret tt
   end) ;;;
  result <- pollOnce fuel contractIds state ;;
  (match skippedFrom result, skippedTo result with
   | Some a, Some b => emit (FireAlert "event_gap_skipped" [("fromLedger", a); ("toLedger", b)])
   | _, _ => Ret tt
   end) ;;;
  Ret (result, Some (scannedUpTo result)).
End Poller.
