(* ===== verification/IndexerSafety.v ===== *)
(** What a poll of the indexer guarantees: every event the RPC returned is on file, and every ledger
    is either scanned or recorded as lost. *)
From S2P Require Import Prelude Prog Schema Rules Domain Chain Intents Indexer.

Notation indexer_entry := (entry IndexerCall IndexerOut).

(** The events the RPC returned, in order. *)
Definition page_of (x : indexer_entry) : list RawChainEvent :=
  match x with
  | ECall c r =>
      match c in IndexerCall X return outcome X -> list RawChainEvent with
      | RpcGetEvents _ _ _ => fun r => match r with Ok p => ep_events p | Err _ => [] end
      | _ => fun _ => []
      end r
  | EOut _ => []
  end.
Definition fetched (log : list indexer_entry) : list RawChainEvent := List.concat (List.map page_of log).

Lemma fetched_snoc log x : fetched (log ++ [x]) = fetched log ++ page_of x.
Proof. unfold fetched. rewrite List.map_app, concat_app. simpl. by rewrite app_nil_r. Qed.

Lemma page_of_Err {X} (c : IndexerCall X) x : page_of (ECall c (Err x)) = [].
Proof. by destruct c. Qed.

(** The start of every request that names a ledger. *)
Definition starts_at (l : Z) (x : indexer_entry) : Prop :=
  match x with
  | ECall c _ => match c with RpcGetEvents (FromLedger l') _ _ => l' = l | _ => True end
  | EOut _ => True
  end.

(** ** Insertion *)
Lemma insert_all_ignore_spec t rows s d ins d' :
  insert_all_ignore t rows s d = Ok (ins, d') ->
  (forall t', t' <> t -> d' t' = d t') /\ d' t = d t ++ ins /\
  (forall r, In r ins -> In r rows) /\
  (forall r, In r rows -> In r ins \/ exists r', In r' (d' t) /\ conflict t r r' = true).
Proof.
  unfold insert_all_ignore.
  assert (Hgen : forall rows ins0 d0,
    ofold (fun acc r => let '(ins, d') := acc in
             res <-? insert_ignore t (fun _ => r) s d' ;; let '(new, d'') := res in Ok (ins ++ new, d''))
          (ins0, d0) rows = Ok (ins, d') ->
    exists added, ins = ins0 ++ added /\
    (forall t', t' <> t -> d' t' = d0 t') /\ d' t = d0 t ++ added /\
    (forall r, In r added -> In r rows) /\
    (forall r, In r rows -> In r added \/ exists r', In r' (d' t) /\ conflict t r r' = true)).
  { clear. intros rows. induction rows as [|r rows IH]; intros ins0 d0; simpl.
    { intros [= <- <-]. exists []. rewrite !app_nil_r. naive_solver. }
    unfold insert_ignore. destruct (in_range t r); simpl; [|done].
    destruct (conflicts t r d0) eqn:Ec; simpl.
    { rewrite app_nil_r. intros H. apply IH in H as (added & -> & Ho & Hd & Hsub & Hall).
      exists added. split; [done|]. split; [done|]. split; [done|]. split; [auto|]. intros r' [<-|Hr']; [|auto].
      right. apply existsb_exists in Ec as (r' & Hr' & Hc). exists r'. rewrite Hd. split; [|done].
      apply in_app_iff. by left. }
    destruct (references_ok d0 t r); simpl; [|done]. intros H.
    apply IH in H as (added & -> & Ho & Hd & Hsub & Hall). exists (r :: added).
    rewrite set_table_same in Hd. split; [by rewrite <- app_assoc|]. split.
    { intros t' Ht. rewrite Ho by done. by apply set_table_other. }
    split; [by rewrite Hd, <- app_assoc|]. split; [intros r' [<-|Hr']; [by left|right; auto]|].
    intros r' [<-|Hr']; [left; by left|]. destruct (Hall r' Hr') as [|]; [left; by right|by right]. }
  intros H. apply Hgen in H as (added & -> & Ho & Hd & Hsub & Hall). done.
Qed.

(** Fresh row ids: those the run draws are distinct and on no row yet. *)
Definition uuids_fresh (e : env IndexerCall) (d : Database) : Prop :=
  (forall n m, st_uuid (stamps e n) = st_uuid (stamps e m) -> n = m) /\
  (forall n r, In r (d chainEvent) -> ce_id r <> st_uuid (stamps e n)) /\
  (forall n g, In g (d chainEventGap) -> cg_id g <> st_uuid (stamps e n)).

Definition on_file (d : Database) (i : string) : Prop :=
  exists r, In r (d chainEvent) /\ ce_eventId r = Some i.

Section Poll.
Context `{IndexerSdk} (e : env IndexerCall).
Notation Adm := (stamped_by e).
Notation world := indexer_world.
Implicit Types w : world.

Lemma wp_withRetry {X} (c : IndexerCall X) n w (Q : outcome X -> world -> Prop) :
  (forall r w', w_db w' = w_db w ->
     fetched (w_log w') = fetched (w_log w) ++ match r with Ok v => page_of (ECall c (Ok v)) | Err _ => [] end ->
     (forall l, Forall (starts_at l) (w_log w) -> starts_at l (ECall c r) -> Forall (starts_at l) (w_log w')) ->
     Q r w') ->
  wp Adm (withRetry_from n (call c)) Q w.
Proof.
  revert w. induction n as [|n IH]; intros w HQ; cbn [withRetry_from].
  { wp_step. apply HQ; [done|by rewrite app_nil_r|done]. }
  wp_step. wp_step.
  assert (Hst : forall l, Forall (starts_at l) (w_log w) -> starts_at l (ECall c r) ->
    Forall (starts_at l) (w_log (note w (ECall c r)))).
  { intros l H1 H2. world_simpl. apply Forall_app. split; [done|]. by apply Forall_singleton. }
  assert (Hf : fetched (w_log (note w (ECall c r))) = fetched (w_log w) ++ page_of (ECall c r))
    by (world_simpl; apply fetched_snoc).
  destruct r as [v|x]; [by apply HQ|]. rewrite page_of_Err in Hf.
  wp_step; [wp_step; by apply HQ|]. apply IH. intros r w' Hd Hf' Hl. apply HQ; [done|by rewrite Hf', Hf, app_nil_r|].
  intros l H1 H2. apply Hl; [|done]. apply Hst; [done|]. clear -H2. by destruct c.
Qed.

Lemma wp_drain fuel start filters cursor events w (Q : outcome (list RawChainEvent * Z) -> world -> Prop) :
  (forall r w', w_db w' = w_db w ->
     (Forall (starts_at start) (w_log w) -> Forall (starts_at start) (w_log w')) ->
     match r with
     | Ok (evs, _) => exists new, evs = events ++ new /\ fetched (w_log w') = fetched (w_log w) ++ new
     | Err _ => True
     end -> Q r w') ->
  wp Adm (drain fuel start filters cursor events) Q w.
Proof.
  revert cursor events w. induction fuel as [|fuel IH]; intros cursor events w HQ; cbn [drain].
  { wp_step. by apply HQ. }
  wp_step. unfold getEvents, withRetry. apply wp_withRetry. intros r w1 Hd1 Hf1 Hl1.
  assert (Hs1 : Forall (starts_at start) (w_log w) -> Forall (starts_at start) (w_log w1)).
  { intros Hs. apply Hl1; [done|]. simpl. by destruct (truthy_id cursor). }
  destruct r as [page|x]; [|by apply HQ]. simpl in Hf1. cbv zeta.
  wp_step.
  - wp_step. apply HQ; [done|done|]. by exists (ep_events page).
  - apply IH. intros r w2 Hd2 Hs2 Hr. apply HQ; [congruence|auto|].
    destruct r as [[evs latest]|x]; [|done]. destruct Hr as (new & -> & Hf2).
    exists (ep_events page ++ new). rewrite Hf2, Hf1. by rewrite <- !app_assoc.
Qed.

(** The stamps drawn for the rows: those of consecutive ticks. *)
Lemma wp_draw_stamps (events : list RawChainEvent) acc w (Q : outcome (list stamp) -> world -> Prop) :
  (forall w', w_db w' = w_db w -> w_log w' = w_log w ->
     Q (Ok (acc ++ List.map (stamps e) (seq (w_tick w) (List.length events)))) w') ->
  wp Adm (fold (fun acc (_ : RawChainEvent) => s <- sample ;; Ret (acc ++ [s])) acc events) Q w.
Proof.
  revert acc w. induction events as [|ev events IH]; intros acc w HQ; cbn [fold].
  { wp_step. specialize (HQ w). simpl in HQ. rewrite app_nil_r in HQ. by apply HQ. }
  wp_step. wp_step. cbn [wp sample]. intros s Hs. simpl in Hs. subst s. apply IH.
  intros w' Hd Hl. specialize (HQ w' Hd Hl). simpl in HQ. rewrite <- app_assoc. exact HQ.
Qed.

Lemma wp_warnings (events : list RawChainEvent) w (Q : outcome unit -> world -> Prop) :
  (forall w', w_db w' = w_db w -> fetched (w_log w') = fetched (w_log w) ->
     (forall l, Forall (starts_at l) (w_log w) -> Forall (starts_at l) (w_log w')) -> Q (Ok tt) w') ->
  wp Adm (fold (fun _ ev => warn_undecodable ev) tt events) Q w.
Proof.
  revert w. induction events as [|ev events IH]; intros w HQ; cbn [fold].
  { wp_step. by apply HQ. }
  wp_step. unfold warn_undecodable. destruct (event_data ev).
  - wp_step. by apply IH.
  - wp_step. apply IH. intros w' Hd Hf Hl. apply HQ; [done| |].
    + rewrite Hf. world_simpl. rewrite fetched_snoc. apply app_nil_r.
    + intros l H1. apply Hl. world_simpl. apply Forall_app. split; [done|]. by apply Forall_singleton.
Qed.

Lemma event_row_id ev s : ce_id (event_row ev s) = st_uuid s /\ ce_eventId (event_row ev s) = re_id ev.
Proof. unfold event_row. by destruct (event_data ev). Qed.

(** The new rows of a poll: events of the run under ids drawn by it. *)
Definition rows_of (events : list RawChainEvent) (t : nat) : list chainEvent_row :=
  zip_with event_row events (List.map (stamps e) (seq t (List.length events))).

Lemma In_rows_of events t r :
  In r (rows_of events t) -> exists ev n, In ev events /\ r = event_row ev (stamps e n).
Proof.
  unfold rows_of. revert t. induction events as [|ev events IH]; intros t; simpl; [done|].
  intros [<-|Hr]; [exists ev, t; split; [by left|done]|].
  destruct (IH _ Hr) as (ev' & n & Hin & Hn). exists ev', n. split; [by right|done].
Qed.

Lemma rows_of_complete events t ev : In ev events -> exists n, In (event_row ev (stamps e n)) (rows_of events t).
Proof.
  unfold rows_of. revert t. induction events as [|ev0 events IH]; intros t; simpl; [done|].
  intros [->|Hin]; [exists t; by left|]. destruct (IH (S t) Hin) as [n Hn]. exists n. by right.
Qed.

(** Distinct rows have distinct ids. *)
Lemma rows_of_inj events t r r' d :
  uuids_fresh e d -> In r (rows_of events t) -> In r' (rows_of events t) -> ce_id r = ce_id r' -> r = r'.
Proof.
  intros [Hinj _]. unfold rows_of. revert t. induction events as [|ev events IH]; intros t; simpl; [done|].
  assert (Hlater : forall n r0, In r0 (zip_with event_row events (List.map (stamps e) (seq (S t) n))) ->
    ce_id r0 <> st_uuid (stamps e t)).
  { intros n. generalize (le_n (S t)). generalize (S t) at 2 3. revert n. clear -Hinj.
    induction events as [|ev events IH]; intros n m Hm r0; [by destruct n|]. destruct n as [|n]; simpl; [done|].
    intros [<-|Hr].
    - destruct (event_row_id ev (stamps e m)) as [-> _]. intros E%Hinj. lia.
    - by apply (IH n (S m)); [lia|]. }
  intros [<-|Hr] [<-|Hr'] Eid; [done| | |by apply (IH (S t))].
  - destruct (event_row_id ev (stamps e t)) as [Hid _]. rewrite Hid in Eid. by destruct (Hlater _ _ Hr').
  - destruct (event_row_id ev (stamps e t)) as [Hid _]. rewrite Hid in Eid. by destruct (Hlater _ _ Hr).
Qed.

(** What a poll adds to the books: rows of events it fetched, nothing else of the kind. *)
Definition adds_events (d : Database) w : Prop :=
  exists ins, w_db w chainEvent = d chainEvent ++ ins /\
    forall r, In r ins -> exists ev n, In ev (fetched (w_log w)) /\ r = event_row ev (stamps e n).

Definition quiet_ext w w' : Prop :=
  fetched (w_log w') = fetched (w_log w) /\
  (forall l, Forall (starts_at l) (w_log w) -> Forall (starts_at l) (w_log w')).

Lemma quiet_ext_refl w w' : w_log w' = w_log w -> quiet_ext w w'.
Proof. unfold quiet_ext. by intros ->. Qed.

Lemma quiet_ext_trans w1 w2 w3 : quiet_ext w1 w2 -> quiet_ext w2 w3 -> quiet_ext w1 w3.
Proof. intros [H1 H1'] [H2 H2']. split; [congruence|auto]. Qed.

Lemma quiet_ext_emit w o : quiet_ext w (note w (EOut o)).
Proof.
  split; world_simpl; [rewrite fetched_snoc; apply app_nil_r|].
  intros l H1. apply Forall_app. split; [done|]. by apply Forall_singleton.
Qed.

Lemma rows_on_file d events t d1 ins :
  uuids_fresh e d -> d1 chainEvent = d chainEvent ++ ins ->
  (forall r, In r ins -> In r (rows_of events t)) ->
  (forall r, In r (rows_of events t) -> In r ins \/ exists r', In r' (d1 chainEvent) /\ conflict chainEvent r r' = true) ->
  forall ev i, In ev events -> re_id ev = Some i -> on_file d1 i.
Proof.
  intros Hfresh Hd Hsub Hall ev i Hev Hi.
  destruct (rows_of_complete events t ev Hev) as [n Hn]. set (r := event_row ev (stamps e n)) in *.
  assert (Hri : ce_eventId r = Some i) by (subst r; destruct (event_row_id ev (stamps e n)) as [_ ->]; done).
  assert (Hin : In r ins -> on_file d1 i).
  { intros Hr. exists r. rewrite Hd. split; [apply in_app_iff; by right|done]. }
  destruct (Hall r Hn) as [|(r' & Hr' & Hc)]; [auto|].
  simpl in Hc. apply orb_true_iff in Hc as [Hc|Hc].
  - apply bool_decide_eq_true in Hc. rewrite Hd in Hr'. apply in_app_iff in Hr' as [Hr'|Hr'].
    + subst r. destruct (event_row_id ev (stamps e n)) as [Hid _]. rewrite Hid in Hc.
      by destruct (proj1 (proj2 Hfresh) n r' Hr').
    + apply Hin. by rewrite (rows_of_inj events t r r' d Hfresh Hn (Hsub _ Hr') Hc).
  - exists r'. split; [done|]. unfold eqs_null in Hc. rewrite Hri in Hc.
    destruct (ce_eventId r') as [i'|]; [|done]. by apply bool_decide_eq_true in Hc as <-.
Qed.

Lemma wp_insert_events d events w (Q : outcome unit -> world -> Prop) :
  uuids_fresh e d -> w_db w chainEvent = d chainEvent ->
  (forall ev, In ev events -> In ev (fetched (w_log w))) ->
  (forall r w', (forall t, t <> chainEvent -> w_db w' t = w_db w t) -> quiet_ext w w' -> adds_events d w' ->
     (r = Ok tt -> forall ev i, In ev events -> re_id ev = Some i -> on_file (w_db w') i) -> Q r w') ->
  wp Adm (insert_events events) Q w.
Proof.
  intros Hfresh Hd Hev HQ. unfold insert_events. destruct events as [|ev0 evs].
  { wp_step. apply HQ; [done|by apply quiet_ext_refl| |naive_solver]. exists []. by rewrite Hd, app_nil_r. }
  set (events := ev0 :: evs) in *. wp_step. apply wp_warnings. intros w1 Hd1 Hf1 Hs1.
  wp_step. apply wp_draw_stamps. intros w2 Hd2 Hl2. cbn [app].
  fold (rows_of events (w_tick w1)).
  assert (Hq : forall w', w_log w' = w_log w2 -> quiet_ext w w').
  { intros w' Hl. apply (quiet_ext_trans _ w1); [by split|]. apply quiet_ext_refl. by rewrite Hl. }
  assert (Hnone : forall x w', w_db w' = w_db w2 -> w_log w' = w_log w2 -> Q (Err x) w').
  { intros x w' Hdb Hl. apply HQ; [by rewrite Hdb, Hd2, Hd1|by apply Hq| |done].
    exists []. by rewrite Hdb, Hd2, Hd1, Hd, app_nil_r. }
  wp_step. apply wp_stmt_ack; [intros x; by apply Hnone|]. intros s ins d' Hins.
  apply insert_all_ignore_spec in Hins as (Ho & Hd' & Hsub & Hall). rewrite Hd2, Hd1 in Hd', Ho.
  assert (Hend : forall r w', w_db w' = d' -> w_log w' = w_log w2 -> Q r w').
  { intros r w' Hdb Hl. apply HQ.
    - intros t Ht. rewrite Hdb. by apply Ho.
    - by apply Hq.
    - exists ins. rewrite Hdb, Hd', Hd. split; [done|]. intros r0 Hr0.
      destruct (In_rows_of _ _ _ (Hsub _ Hr0)) as (ev & n & Hin & ->). exists ev, n. split; [|done].
      rewrite (proj1 (Hq w' Hl)). by apply Hev.
    - intros _. rewrite Hdb. apply (rows_on_file d events (w_tick w1) d' ins); [done|by rewrite Hd', Hd|done|done]. }
  split; [wp_step|intros x]; by apply Hend.
Qed.

(** A call that is not [getEvents], retried. *)
Lemma wp_retry_quiet {X} (c : IndexerCall X) w (Q : outcome X -> world -> Prop) :
  (forall r, page_of (ECall c r) = [] /\ forall l, starts_at l (ECall c r)) ->
  (forall r w', w_db w' = w_db w -> quiet_ext w w' -> Q r w') ->
  wp Adm (withRetry (call c)) Q w.
Proof.
  intros Hc HQ. apply wp_withRetry. intros r w' Hd Hf Hl. apply HQ; [done|]. split.
  - rewrite Hf. destruct r as [v|x]; [rewrite (proj1 (Hc (Ok v)))|]; apply app_nil_r.
  - intros l H1. apply Hl; [done|]. apply Hc.
Qed.

Lemma wp_desired_start cursor w (Q : outcome Z -> world -> Prop) :
  (forall r w', w_db w' = w_db w -> quiet_ext w w' ->
     (forall c, cursor = Some c -> r = Ok (c + 1)) -> Q r w') ->
  wp Adm (desired_start cursor) Q w.
Proof.
  intros HQ. unfold desired_start. destruct cursor as [c|].
  { wp_step. apply HQ; [done|by apply quiet_ext_refl|]. by intros c' [= ->]. }
  unfold getLastIngestedLedger.
  assert (Hend : forall r w', w_db w' = w_db w -> quiet_ext w w' -> Q r w') by (intros; by apply HQ).
  assert (Hrest : forall o w1, w_db w1 = w_db w -> quiet_ext w w1 ->
    wp Adm (match o with Some l => Ret (l + 1) | None => sequence <- getLatestLedger ;;
              Ret (Z.max 1 (sequence - COLD_START_LOOKBACK_LEDGERS)) end) Q w1).
  { intros [l|] w1 Hd1 Hq1; [wp_step; by apply Hend|]. wp_step. unfold getLatestLedger. apply wp_retry_quiet; [done|].
    intros r w2 Hd2 Hq2. destruct r; [wp_step|]; (apply Hend; [congruence|by eapply quiet_ext_trans]). }
  wp_step. wp_step.
  assert (Hmid : forall o w1, w_db w1 = w_db w -> quiet_ext w w1 ->
    wp Adm (match o with Some l => Ret (Some l) | None => rows <- stmt (select chainEvent (fun _ => true)) ;; Ret (max_ledger rows) end)
     (fun r w' => match r with Ok a => wp Adm (match a with Some l => Ret (l + 1) | None => sequence <- getLatestLedger ;;
              Ret (Z.max 1 (sequence - COLD_START_LOOKBACK_LEDGERS)) end) Q w' | Err x => Q (Err x) w' end) w1).
  { intros [l|] w1 Hd1 Hq1; [exact (Hrest (Some l) w1 Hd1 Hq1)|]. wp_step. wp_step; [intros x; by apply Hend|].
    wp_step. by apply Hrest. }
  assert (Ht : quiet_ext w (tick w)) by (by apply quiet_ext_refl).
  wp_step. wp_step. wp_step; [intros x; exact (Hmid None (tick w) eq_refl Ht)|].
  wp_step. exact (Hmid _ (tick w) eq_refl Ht).
Qed.

(** The contract of a poll. *)
Definition gap_recorded (d : Database) (a b : Z) : Prop :=
  exists g, In g (d chainEventGap) /\ cg_fromLedger g = a /\ cg_toLedger g = b.

Definition Polled_ok (cursor : option Z) (d : Database) (res : PollOnceResult) w : Prop :=
  insertedCount res = Z.of_nat (List.length (fetched (w_log w))) /\
  (forall ev i, In ev (fetched (w_log w)) -> re_id ev = Some i -> on_file (w_db w) i) /\
  Forall (starts_at (fromLedger res)) (w_log w) /\
  (forall c, cursor = Some c ->
     scannedUpTo res = Z.max c (latestLedger res) /\
     match skippedFrom res, skippedTo res with
     | None, None => fromLedger res = c + 1
     | Some a, Some b => a = c + 1 /\ a <= b /\ fromLedger res = b + 1 /\ gap_recorded (w_db w) a b
     | _, _ => False
     end).

Lemma on_file_ext d d' i : d' chainEvent = d chainEvent -> on_file d i -> on_file d' i.
Proof. unfold on_file. by intros ->. Qed.

Lemma wp_save_cursor latest w (Q : outcome unit -> world -> Prop) :
  (forall w', (forall t, t <> indexerCursor -> w_db w' t = w_db w t) -> w_log w' = w_log w -> Q (Ok tt) w') ->
  wp Adm (save_cursor latest) Q w.
Proof.
  intros HQ. unfold save_cursor. wp_step; [|wp_step; by apply HQ]. wp_step.
  apply wp_stmt_ack; [intros x; wp_step; by apply HQ|]. intros s [] d' Hu.
  assert (Ho : forall t, t <> indexerCursor -> d' t = w_db w t).
  { intros t Ht. unfold upsert, insert in Hu.
    destruct (conflicts indexerCursor _ _); [destruct (_ && _)|destruct (negb _); [|destruct (negb _)]];
      try discriminate; injection Hu as <-; by rewrite set_table_other. }
  split; [|intros x; wp_step]; by apply HQ.
Qed.

Lemma adds_events_start d w : w_db w chainEvent = d chainEvent -> adds_events d w.
Proof. exists []. split; [by rewrite app_nil_r|done]. Qed.

Lemma wp_record_gap d a b w (Q : outcome unit -> world -> Prop) :
  uuids_fresh e d -> w_db w chainEventGap = d chainEventGap ->
  (forall r w', (forall t, t <> chainEventGap -> w_db w' t = w_db w t) -> quiet_ext w w' ->
     (r = Ok tt -> gap_recorded (w_db w') a b) -> Q r w') ->
  wp Adm (record_gap a b) Q w.
Proof.
  intros (_ & _ & Hfresh) Hd HQ. unfold record_gap. wp_step. wp_step. set (w1 := note w _).
  assert (Hq : quiet_ext w w1) by apply quiet_ext_emit. wp_step.
  apply wp_insert_ignore_stamped; [intros x; by apply HQ| |].
  - intros s Hs Hconf. simpl in Hs. wp_step. apply HQ; [done|done|]. intros _.
    apply existsb_exists in Hconf as (g & Hg & Hc). simpl in Hc. apply orb_true_iff in Hc as [Hc|Hc].
    + apply bool_decide_eq_true in Hc. change (w_db w1) with (w_db w) in Hg. rewrite Hd in Hg. subst s.
      by destruct (Hfresh _ _ Hg (eq_sym Hc)).
    + apply andb_true_iff in Hc as [H1%Z.eqb_eq H2%Z.eqb_eq]. by exists g.
  - cbn zeta. intros s _ _ _ _. set (g := ChainEventGap _ _ _ _ _).
    set (w2 := after w1 _). assert (Hfr : forall t, t <> chainEventGap -> w_db w2 t = w_db w t).
    { intros t Ht. subst w2. world_simpl. by rewrite set_table_other. }
    split; [wp_step|intros x]; (apply HQ; [exact Hfr|exact Hq|]); [|done]. intros _. exists g.
    split; [|done]. subst w2. world_simpl. rewrite set_table_same. apply in_app_iff. right. by left.
Qed.

Definition poll_post (cursor : option Z) (d : Database) (r : outcome PollOnceResult) w : Prop :=
  adds_events d w /\ match r with Ok res => Polled_ok cursor d res w | Err _ => True end.

Lemma wp_pollOnce fuel ids cursor d w :
  uuids_fresh e d -> w_db w = d -> w_log w = [] ->
  wp Adm (pollOnce fuel ids cursor) (poll_post cursor d) w.
Proof.
  intros Hfresh Hd Hlog. unfold pollOnce.
  assert (Hbad : forall w' x, w_db w' chainEvent = d chainEvent -> poll_post cursor d (Err x) w').
  { intros w' x Hw. split; [by apply adds_events_start|done]. }
  wp_step. apply wp_desired_start. intros r w1 Hd1 Hq1 Hc.
  destruct r as [desired|x]; [|apply Hbad; by rewrite Hd1, Hd].
  wp_step. unfold getHealth. apply wp_retry_quiet; [done|]. intros r w2 Hd2 Hq2.
  destruct r as [health|x]; [|apply Hbad; by rewrite Hd2, Hd1, Hd].
  cbv zeta. set (start := Z.max desired (gh_oldestLedger health)).
  assert (Hdb2 : w_db w2 = d) by congruence.
  assert (Hq : quiet_ext w w2) by (by eapply quiet_ext_trans).
  wp_step.
  apply (wp_mono Adm _ (fun r w3 => w_db w3 chainEvent = d chainEvent /\ quiet_ext w w3 /\
    (r = Ok tt -> desired < start -> gap_recorded (w_db w3) desired (start - 1)))).
  2:{ destruct (Z.ltb_spec desired start) as [Hlt|Hge].
      - apply (wp_record_gap d); [done|by rewrite Hdb2|]. intros r w3 Ho Hq3 Hg. split; [|split].
        + rewrite Ho by done. by rewrite Hdb2.
        + by eapply quiet_ext_trans.
        + auto.
      - wp_step. split; [by rewrite Hdb2|]. split; [done|]. intros _ Hlt. lia. }
  intros [[]|x] w3 (Hd3 & Hq3 & Hg); [|by apply Hbad]. specialize (Hg eq_refl).
  assert (Hf3 : fetched (w_log w3) = []) by (rewrite (proj1 Hq3), Hlog; done).
  assert (Hs3 : Forall (starts_at start) (w_log w3)) by (apply Hq3; by rewrite Hlog).
  wp_step. apply (wp_drain fuel start). intros r w4 Hd4 Hs4 Hr. specialize (Hs4 Hs3).
  destruct r as [[evs latest]|x]; [|apply Hbad; by rewrite Hd4].
  destruct Hr as (new & Eev & Hf4). rewrite Hf3 in Hf4. simpl in Eev, Hf4. subst evs.
  wp_step. apply (wp_insert_events d); [done|by rewrite Hd4|by rewrite Hf4|]. intros r w5 Ho5 Hq5 Hadd Hon.
  destruct r as [[]|x]; [|by split]. specialize (Hon eq_refl).
  wp_step. apply wp_save_cursor. intros w6 Ho6 Hl6. repeat wp_step.
  set (w7 := note (note w6 _) _). assert (Hq7 : quiet_ext w5 w7).
  { eapply quiet_ext_trans; [by apply (quiet_ext_refl w5 w6)|].
    eapply quiet_ext_trans; apply quiet_ext_emit. }
  assert (Hf7 : fetched (w_log w7) = new) by (rewrite (proj1 Hq7), (proj1 Hq5); exact Hf4).
  assert (Hdb7 : forall t, t <> indexerCursor -> w_db w7 t = w_db w5 t) by (intros t Ht; by apply Ho6).
  split.
  - destruct Hadd as (ins & Hins & Hall). exists ins. split; [by rewrite Hdb7|].
    intros r Hr. destruct (Hall r Hr) as (ev & n & Hev & ->). exists ev, n. split; [|done].
    by rewrite (proj1 Hq7).
  - split; [by rewrite Hf7|]. split; [|split].
    + rewrite Hf7. intros ev i Hev Hi. eapply on_file_ext; [by apply Hdb7|]. by eapply Hon.
    + simpl. apply Hq7, Hq5. exact Hs4.
    + intros c Ec. specialize (Hc c Ec). injection Hc as ->. rewrite Ec. split; [done|]. cbn [skippedFrom skippedTo fromLedger].
      destruct (Z.ltb_spec (c + 1) start) as [Hlt|Hge]; [|lia].
      split; [done|]. split; [lia|]. split; [lia|].
      destruct (Hg Hlt) as (g & Hin & Hab). exists g. split; [|done].
      rewrite Hdb7 by done. rewrite Ho5 by done. by rewrite Hd4.
Qed.
End Poll.

(** A poll loses no event.  Under every answer of the RPC, every undecodable event and every
    database fault, with fresh row ids: [chain_event] only gains rows of events the RPC returned in
    this run; and when the poll returns, it counts all of them and every one that carries an id is
    on file under that id. *)
Theorem poll_keeps_every_event `{IndexerSdk} (e : env IndexerCall) fuel ids cursor (d : Database)
    (Hfresh : uuids_fresh e d) :
  let '(r, w) := run e (pollOnce fuel ids cursor) (World d 0 []) in
  adds_events e d w /\
  (forall res, r = Ok res ->
     insertedCount res = Z.of_nat (List.length (fetched (w_log w))) /\
     forall ev i, In ev (fetched (w_log w)) -> re_id ev = Some i -> on_file (w_db w) i).
Proof.
  pose proof (wp_sound (stamped_by e) e _ _ _ (stamped_by_respects e)
    (wp_pollOnce e fuel ids cursor d (World d 0 []) Hfresh eq_refl eq_refl)) as Hw.
  destruct (run e _ _) as [r w]. destruct Hw as [Hadd Hr]. split; [done|]. intros res ->.
  destruct Hr as (Hn & Hon & _). done.
Qed.

(** No ledger is skipped silently.  A poll resuming after ledger [c] that returns has asked the
    RPC, at every page, from the ledger it reports as its start; that is [c + 1], or else the range
    from [c + 1] up to it is reported and recorded in [chain_event_gap]; and the cursor it leaves is
    the RPC's tip, never behind [c]. *)
Theorem poll_accounts_for_every_ledger `{IndexerSdk} (e : env IndexerCall) fuel ids c (d : Database)
    (Hfresh : uuids_fresh e d) :
  let '(r, w) := run e (pollOnce fuel ids (Some c)) (World d 0 []) in
  forall res, r = Ok res ->
    Forall (starts_at (fromLedger res)) (w_log w) /\
    scannedUpTo res = Z.max c (latestLedger res) /\
    match skippedFrom res, skippedTo res with
    | None, None => fromLedger res = c + 1
    | Some a, Some b => a = c + 1 /\ a <= b /\ fromLedger res = b + 1 /\ gap_recorded (w_db w) a b
    | _, _ => False
    end.
Proof.
  pose proof (wp_sound (stamped_by e) e _ _ _ (stamped_by_respects e)
    (wp_pollOnce e fuel ids (Some c) d (World d 0 []) Hfresh eq_refl eq_refl)) as Hw.
  destruct (run e _ _) as [r w]. destruct Hw as [_ Hr]. intros res ->.
  destruct Hr as (_ & _ & Hs & Hc). destruct (Hc c eq_refl) as [H1 H2]. auto.
Qed.

(** ** A concrete poll: the RPC retains ledgers from 120 on and answers one page of two events, of
    which the second cannot be decoded. *)
Definition sample_indexer_sdk : IndexerSdk := {|
  scValToNative s := if eqs s "bad" then Err (Error "Bad union switch") else Ok (JStr s);
  toXDR_base64 s := Ok s;
  String_value s := s |}.

Definition sample_page : GetEventsResult :=
  EventsPage [RawEvent (Some "ev1") 121 "tx1" "C1" ["pledge"] "v"; RawEvent (Some "ev2") 121 "tx2" "C1" ["draw"] "bad"] 130.

Definition sample_indexer_answer (X : Type) (n : nat) (c : IndexerCall X) : outcome X :=
  match c in IndexerCall X return outcome X with
  | RpcGetEvents _ _ _ => Ok sample_page
  | RpcGetLatestLedger => Ok 130
  | RpcGetHealth => Ok (Health 130 120 10)
  end.

Definition sample_indexer_env : env IndexerCall :=
  Env sample_indexer_answer (fun _ => NoFault) (fun n => Stamp (Z.of_nat n) (pretty (N.of_nat n))).

Lemma sample_uuids_fresh : uuids_fresh sample_indexer_env empty_db.
Proof. split; [|split; done]. intros n m E. simpl in E. apply (inj pretty) in E. lia. Qed.

Lemma poll_keeps_every_event_witness :
  let '(r, w) := run sample_indexer_env (@pollOnce sample_indexer_sdk 3 ["C1"] (Some 100)) (World empty_db 0 []) in
  @adds_events sample_indexer_sdk sample_indexer_env empty_db w /\
  (forall res, r = Ok res ->
     insertedCount res = Z.of_nat (List.length (fetched (w_log w))) /\
     forall ev i, In ev (fetched (w_log w)) -> re_id ev = Some i -> on_file (w_db w) i).
Proof. apply poll_keeps_every_event, sample_uuids_fresh. Defined.

Lemma poll_accounts_for_every_ledger_witness :
  let '(r, w) := run sample_indexer_env (@pollOnce sample_indexer_sdk 3 ["C1"] (Some 100)) (World empty_db 0 []) in
  forall res, r = Ok res ->
    Forall (starts_at (fromLedger res)) (w_log w) /\
    scannedUpTo res = Z.max 100 (latestLedger res) /\
    match skippedFrom res, skippedTo res with
    | None, None => fromLedger res = 100 + 1
    | Some a, Some b => a = 100 + 1 /\ a <= b /\ fromLedger res = b + 1 /\ gap_recorded (w_db w) a b
    | _, _ => False
    end.
Proof. apply poll_accounts_for_every_ledger, sample_uuids_fresh. Defined.

Example sample_poll :
  let '(r, w) := run sample_indexer_env (@pollOnce sample_indexer_sdk 3 ["C1"] (Some 100)) (World empty_db 0 []) in
  r = Ok (Polled 120 2 130 130 (Some 101) (Some 119)) /\
  List.map ce_topic (w_db w chainEvent) = ["pledge"; "undecodable"].
Proof. vm_compute. auto. Qed.

(** ** The paging loop ends *)
Definition never_out_of_fuel : @admissible IndexerCall :=
  Admissible (fun _ _ r => r <> Err OutOfFuel) True (fun _ _ => True).

Lemma wp_withRetry_pages {X} (c : IndexerCall X) n w (Q : outcome X -> indexer_world -> Prop) :
  (0 < n)%nat ->
  (forall r w', r <> Err OutOfFuel ->
     fetched (w_log w') = fetched (w_log w) ++ match r with Ok v => page_of (ECall c (Ok v)) | Err _ => [] end ->
     Q r w') ->
  wp never_out_of_fuel (withRetry_from n (call c)) Q w.
Proof.
  revert w. induction n as [|n IH]; intros w Hn HQ; [lia|]. cbn [withRetry_from]. wp_step. wp_step.
  assert (Hf : fetched (w_log (note w (ECall c r))) = fetched (w_log w) ++ page_of (ECall c r))
    by (world_simpl; apply fetched_snoc).
  destruct r as [v|x]; [by apply HQ|]. rewrite page_of_Err in Hf.
  destruct (Nat.eqb_spec n 0); [wp_step; by apply HQ|]. apply IH; [lia|].
  intros r w' Hr Hf'. apply HQ; [done|]. by rewrite Hf', Hf, app_nil_r.
Qed.

Lemma wp_drain_fuel fuel start filters cursor events w :
  wp never_out_of_fuel (drain fuel start filters cursor events)
    (fun r w' => r = Err OutOfFuel ->
       (100 * fuel + List.length (fetched (w_log w)) <= List.length (fetched (w_log w')))%nat) w.
Proof.
  revert cursor events w. induction fuel as [|fuel IH]; intros cursor events w; cbn [drain].
  { wp_step. intros _. lia. }
  wp_step. unfold getEvents, withRetry. apply wp_withRetry_pages; [lia|]. intros r w1 Hr Hf.
  destruct r as [page|x]; [|by intros [= ->]]. cbv zeta. wp_step; [by wp_step|].
  apply orb_false_iff in E as [E _]. apply Z.ltb_ge in E. unfold PAGE_SIZE in E. simpl in Hf.
  eapply wp_mono; [|apply IH]. intros r w2 H2 Er. specialize (H2 Er).
  rewrite Hf, length_app in H2. lia.
Qed.

(** C39. The paging loop reads on only after full pages: with fuel for [n] pages it runs out only if
    the RPC returned at least [100 * n] events, so for a node that returns finitely many events in
    one poll some fuel lets every poll end by itself. *)
Theorem paging_ends_before_fuel (e : env IndexerCall) fuel start filters (d : Database)
    (He : forall X n (c : IndexerCall X), answer e X n c <> Err OutOfFuel) :
  let '(r, w) := run e (drain fuel start filters None []) (World d 0 []) in
  (List.length (fetched (w_log w)) < 100 * fuel)%nat -> r <> Err OutOfFuel.
Proof.
  pose proof (wp_sound never_out_of_fuel e _ _ _ (conj He (conj (fun _ _ _ => I) (fun _ => I)))
    (wp_drain_fuel fuel start filters None [] (World d 0 []))) as Hw.
  destruct (run e _ _) as [r w]. intros Hlt ->. specialize (Hw eq_refl). simpl in Hw. lia.
Qed.

Lemma paging_ends_before_fuel_witness :
  let '(r, w) := run sample_indexer_env (drain 1 120 [["C1"]] None []) (World empty_db 0 []) in
  (List.length (fetched (w_log w)) < 100 * 1)%nat -> r <> Err OutOfFuel.
Proof. apply paging_ends_before_fuel. intros X n c. by destruct c. Defined.
