(* ===== verification/IndexerLife.v ===== *)
(** [services/indexer/src/index.ts]: the indexer's endless loop over its cycles, with what it keeps in
    memory between them and loses when it is restarted; and that it loses no event but those the node
    left out of an answer, on a node that answers out of one history. *)
From S2P Require Import Prelude Prog Schema Rules Domain Chain Intents Indexer IndexerSafety.

(** ** The loop *)
(** A pass of the loop; a restart, which forgets the state. *)
Inductive IndexerEvent := CyclePasses | Restarts.

Section Loop.
Context `{IndexerSdk} (fuel : nat) (contractIds : list string) (lagAlertLedgers : Z).

(** The body of the loop: an exception is logged, and leaves [state] as it was. *)
Definition index_step (state : option Z) (event : IndexerEvent) : indexer_prog (option Z) :=
  match event with
  | CyclePasses =>
      result <- attempt (runIndexerCycle fuel contractIds state lagAlertLedgers) ;;
      Ret match result with Ok (_, state') => state' | Err _ => state end
  | Restarts => Ret None
  end.

(** [main]: from a fresh start, until now. *)
Definition index_life (events : list IndexerEvent) : indexer_prog (option Z) := fold index_step None events.
End Loop.

(** ** A node that tells the truth *)
(** The events of the chain up to a ledger, as a filter selects them: in the order of their ledgers, each
    with an id of its own; later ledgers add to them. *)
Record Node := MkNode {
  upto : list (list string) -> Z -> list RawChainEvent;
  upto_ledger : forall filters t ev, In ev (upto filters t) -> 0 < re_ledger ev <= t;
  upto_grows : forall filters t t', t <= t' -> exists more, upto filters t' = upto filters t ++ more /\
    Forall (fun ev => t < re_ledger ev) more;
  upto_sorted : forall filters t, StronglySorted (fun a b => re_ledger a <= re_ledger b) (upto filters t);
  upto_ids : forall filters t, NoDup (List.map re_id (upto filters t));
  upto_id : forall filters t ev, In ev (upto filters t) -> exists i, re_id ev = Some i /\ i <> "" }.

(** An answer with events holds the first of them after the place asked for, in their order: at most as
    many as asked for, and fewer when the node stops looking before its tip, as it may anywhere (a request
    scans a bounded number of ledgers).  An answer may also be an error. *)
Definition page_answer (node : Node) (from : EventsFrom) (filters : list (list string)) (limit : Z) (page : GetEventsResult) : Prop :=
  exists n, (n <= Z.to_nat limit)%nat /\
  match from with
  | FromLedger l => ep_events page = take n (List.filter (fun ev => l <=? re_ledger ev) (upto node filters (ep_latestLedger page)))
  | FromCursor i => exists before ev after, upto node filters (ep_latestLedger page) = before ++ ev :: after /\ re_id ev = Some i /\
      ep_events page = take n after
  end.
Definition truthful_answer (node : Node) (X : Type) (c : IndexerCall X) (r : outcome X) : Prop :=
  match c in IndexerCall X return outcome X -> Prop with
  | RpcGetEvents from filters limit => fun r => match r with Ok page => page_answer node from filters limit page | Err _ => True end
  | RpcGetLatestLedger | RpcGetHealth => fun _ => True
  end r.

Notation indexer_log := (list (entry IndexerCall IndexerOut)).

(** The event comes after the place asked for, in what the node knew when it answered. *)
Definition asked_for (node : Node) (from : EventsFrom) (filters : list (list string)) (tip : Z) (ev : RawChainEvent) : Prop :=
  match from with
  | FromLedger l => In ev (upto node filters tip) /\ l <= re_ledger ev
  | FromCursor i => exists before c after, upto node filters tip = before ++ c :: after /\ re_id c = Some i /\ In ev after
  end.

(** The node left the event out: it answered a request that asked for it, naming a tip at or past its
    ledger, with a page that was not full and did not hold it. *)
Definition left_out (node : Node) (filters : list (list string)) (log : indexer_log) (ev : RawChainEvent) : Prop :=
  exists from page, In (ECall (RpcGetEvents from filters PAGE_SIZE) (Ok page)) log /\
    Z.of_nat (List.length (ep_events page)) < PAGE_SIZE /\ ~ In ev (ep_events page) /\
    re_ledger ev <= ep_latestLedger page /\ asked_for node from filters (ep_latestLedger page) ev.

#[export] Instance RawChainEvent_eq_dec : EqDecision RawChainEvent.
Proof. solve_decision. Defined.

(** ** Lists of events *)
Lemma filter_split {A} (P : A -> bool) l a z b :
  List.filter P l = a ++ z :: b -> exists pre post, l = pre ++ z :: post /\ List.filter P pre = a /\ P z = true /\ List.filter P post = b.
Proof.
  revert a. induction l as [|x l IH]; intros a; cbn; [by destruct a|]. destruct (P x) eqn:Ex.
  - destruct a as [|a0 a]; cbn; intros [= -> E]; [by exists [], l|]. destruct (IH a E) as (pre & post & -> & E1 & Hz & E2).
    exists (a0 :: pre), post. cbn. rewrite Ex, E1. done.
  - intros E. destruct (IH a E) as (pre & post & -> & E1 & Hz & E2). exists (x :: pre), post. cbn. by rewrite Ex.
Qed.

Lemma split_unique {A B} (f : A -> B) pre x post pre' x' post' :
  NoDup (List.map f (pre ++ x :: post)) -> pre ++ x :: post = pre' ++ x' :: post' -> f x = f x' -> pre = pre' /\ x = x'.
Proof.
  revert pre'. induction pre as [|a pre IH]; intros [|a' pre']; cbn; intros Hnd E Ef.
  - by injection E.
  - injection E as -> ->. apply NoDup_cons in Hnd as [Hni _]. exfalso. apply Hni. rewrite Ef, map_app. apply list_elem_of_In, in_app_iff.
    right. by left.
  - injection E as <- <-. apply NoDup_cons in Hnd as [Hni _]. exfalso. apply Hni. rewrite <- Ef, map_app. apply list_elem_of_In, in_app_iff.
    right. by left.
  - injection E as <- E. apply NoDup_cons in Hnd as [_ Hnd]. destruct (IH pre' Hnd E Ef) as [-> ->]. done.
Qed.

Lemma filter_Forall {A} (P : A -> bool) l : Forall (fun x => P x = true) l -> List.filter P l = l.
Proof. induction 1 as [|x l Hx _ IH]; cbn; [done|]. by rewrite Hx, IH. Qed.

Lemma full_page {A} n (l : list A) : take n l <> [] ->
  exists page z rest, take n l = page ++ [z] /\ l = page ++ z :: rest.
Proof.
  intros H0. destruct (take n l) as [|x p] eqn:Et using rev_ind; [done|]. exists p, x, (drop n l). split; [done|].
  rewrite <- (firstn_skipn n l) at 1. change (firstn n l) with (take n l). rewrite Et. by rewrite <- app_assoc.
Qed.

Section Chain.
Context (node : Node) (filters : list (list string)).
Notation E := (upto node filters).

Lemma upto_at_most t t' ev : In ev (E t) -> re_ledger ev <= t' -> In ev (E t').
Proof.
  intros Hin Hl. destruct (Z.le_gt_cases t t') as [Ht|Ht].
  - destruct (upto_grows node filters t t' Ht) as (more & -> & _). apply in_app_iff. by left.
  - destruct (upto_grows node filters t' t) as (more & Em & Hm); [lia|]. rewrite Em in Hin. apply in_app_iff in Hin as [|Hin]; [done|].
    rewrite Forall_forall in Hm. apply list_elem_of_In in Hin. specialize (Hm ev Hin). cbn in Hm. lia.
Qed.

(** The place of an id does not depend on the tip. *)
Lemma same_place t t' pre x post pre' x' post' :
  E t = pre ++ x :: post -> E t' = pre' ++ x' :: post' -> re_id x = re_id x' -> pre = pre' /\ x = x'.
Proof.
  assert (Hle : forall t t' pre x post pre' x' post', t <= t' -> E t = pre ++ x :: post -> E t' = pre' ++ x' :: post' ->
    re_id x = re_id x' -> pre = pre' /\ x = x').
  { clear. intros t t' pre x post pre' x' post' Ht E1 E2 Eid. destruct (upto_grows node filters t t' Ht) as (more & Em & _).
    pose proof (upto_ids node filters t') as Hnd. rewrite E1 in Em. rewrite <- app_assoc in Em. cbn in Em.
    rewrite Em in Hnd, E2. by eapply split_unique. }
  intros E1 E2 Eid. destruct (Z.le_ge_cases t t') as [Ht|Ht]; [by eapply (Hle t t')|].
  destruct (Hle t' t pre' x' post' pre x post Ht E2 E1 (eq_sym Eid)). auto.
Qed.

Lemma later_ledgers t pre x post l : E t = pre ++ x :: post -> l <= re_ledger x ->
  List.filter (fun ev => l <=? re_ledger ev) post = post.
Proof.
  intros Et Hl. apply filter_Forall. pose proof (upto_sorted node filters t) as Hs. rewrite Et in Hs. clear Et.
  induction pre as [|a pre IH]; cbn in Hs; apply StronglySorted_inv in Hs as [Hs Hx]; [|by apply IH].
  eapply Forall_impl; [exact Hx|]. cbn. intros b Hb. apply Z.leb_le. lia.
Qed.
End Chain.

(** ** A cycle, step by step *)
Section Life.
Context `{IndexerSdk} (e : env IndexerCall) (node : Node) (fuel : nat) (contractIds : list string).
(** All that is called and answered in the run. *)
Context (log : indexer_log).
Notation filters := (filters_of contractIds).
Notation world := indexer_world.
Implicit Types w : world.

Definition truthful : @admissible IndexerCall :=
  Admissible (fun X c r => truthful_answer node X c r /\ In (ECall c r) log) True (fun n s => s = stamps e n).
Notation Adm := truthful.

(** A call that is retried: the answer is the node's. *)
Lemma wp_asked {X} (c : IndexerCall X) n w (Q : outcome X -> world -> Prop) :
  (forall r w', w_db w' = w_db w -> (w_tick w <= w_tick w')%nat -> match r with Ok v => Adm X c (Ok v) | Err _ => True end -> Q r w') ->
  wp Adm (withRetry_from n (call c)) Q w.
Proof.
  revert w. induction n as [|n IH]; intros w HQ; cbn [withRetry_from]; [wp_step; by apply HQ|].
  wp_step. wp_step. destruct r as [v|x]; [apply HQ; [done|cbn; lia|done]|].
  wp_step; [wp_step; apply HQ; [done|cbn; lia|done]|]. apply IH. intros r w' Hd Ht Hr. apply HQ; [done|cbn in *; lia|done].
Qed.

Definition from_ledger (start t : Z) : list RawChainEvent := List.filter (fun ev => start <=? re_ledger ev) (upto node filters t).

(** What was read so far: all up to the cursor's event. *)
Definition read_to (start : Z) (cursor : option string) (evs : list RawChainEvent) : Prop :=
  match cursor with
  | None => evs = []
  | Some i => exists t before ev after, upto node filters t = before ++ ev :: after /\ re_id ev = Some i /\ start <= re_ledger ev /\
      evs = List.filter (fun ev => start <=? re_ledger ev) (before ++ [ev])
  end.

(** All from the start to the tip but what the node left out. *)
Definition read_all (start t : Z) (evs : list RawChainEvent) : Prop :=
  (forall ev, In ev evs -> In ev (from_ledger start t)) /\
  forall ev, In ev (from_ledger start t) -> In ev evs \/ left_out node filters log ev.

(** A page read further: all the node gives to the tip when it is short, up to its last event otherwise. *)
Lemma read_on start cursor evs page :
  let from := if truthy_id cursor then FromCursor (default "" cursor) else FromLedger start in
  read_to start cursor evs -> (forall i, cursor = Some i -> i <> "") ->
  page_answer node from filters PAGE_SIZE page -> In (ECall (RpcGetEvents from filters PAGE_SIZE) (Ok page)) log ->
  if Z.of_nat (List.length (ep_events page)) <? PAGE_SIZE
  then read_all start (ep_latestLedger page) (evs ++ ep_events page)
  else exists i, last_id (ep_events page) = Some i /\ i <> "" /\ read_to start (Some i) (evs ++ ep_events page).
Proof.
  intros from Hread Hi (n & Hn & Hpage) Hlog. set (P := fun ev : RawChainEvent => start <=? re_ledger ev).
  assert (Hend : exists done rest, evs = List.filter P done /\ upto node filters (ep_latestLedger page) = done ++ rest /\
    ep_events page = take n (List.filter P rest) /\
    forall ev, In ev (List.filter P rest) -> asked_for node from filters (ep_latestLedger page) ev).
  { destruct cursor as [i|].
    - assert (truthy_id (Some i) = true) as Ht by (cbn; apply negb_true_iff, bool_decide_eq_false; by apply Hi).
      subst from. rewrite Ht in *. change (default "" (Some i)) with i in *.
      destruct Hpage as (before' & ev' & after' & Et' & Ei' & Ep). destruct Hread as (t & before & ev & after & Et & Ei & Hl & ->).
      destruct (same_place node filters t (ep_latestLedger page) before ev after before' ev' after' Et Et') as [<- <-]; [congruence|].
      exists (before ++ [ev]), after'. split; [done|]. split; [by rewrite <- app_assoc|]. subst P.
      rewrite (later_ledgers node filters _ before ev after' start Et' Hl). split; [exact Ep|]. intros ev0 H0. by exists before, ev, after'.
    - cbn in Hread, Hpage. subst evs. exists [], (upto node filters (ep_latestLedger page)). split; [done|]. split; [done|]. split; [done|].
      intros ev [H0 Hl%Z.leb_le]%List.filter_In. by split. }
  destruct Hend as (dn & rest & -> & Eu & Ep & Hasked).
  assert (Hall : from_ledger start (ep_latestLedger page) = List.filter P dn ++ List.filter P rest)
    by (unfold from_ledger; fold P; by rewrite Eu, List.filter_app).
  destruct (Z.ltb_spec (Z.of_nat (List.length (ep_events page))) PAGE_SIZE) as [Hs|Hs].
  - split; intros ev; rewrite Hall.
    + rewrite Ep. intros [Hin|Hin]%in_app_iff; apply in_app_iff; [by left|right]. rewrite <- (firstn_skipn n). apply in_app_iff. by left.
    + intros [Hin|Hin]%in_app_iff; [left; apply in_app_iff; by left|].
      destruct (decide (ev ∈ ep_events page)) as [Hd|Hd]; rewrite list_elem_of_In in Hd; [left; apply in_app_iff; by right|right].
      exists from, page. split; [done|]. split; [done|]. split; [done|]. split; [|by apply Hasked].
      assert (Hu : In ev (upto node filters (ep_latestLedger page))).
      { rewrite Eu. apply in_app_iff. right. by apply List.filter_In in Hin as [? _]. }
      apply upto_ledger in Hu. lia.
  - assert (Ef : exists pg z tl, ep_events page = pg ++ [z] /\ List.filter P rest = pg ++ z :: tl).
    { rewrite Ep in *. apply full_page. intros E. rewrite E in Hs. unfold PAGE_SIZE in Hs. cbn in Hs. lia. }
    destruct Ef as (pg & z & tl & Et & Ef). rewrite Et.
    destruct (filter_split P rest pg z tl Ef) as (pre & post & -> & Epre & Hz & Epost).
    destruct (upto_id node filters (ep_latestLedger page) z) as (i & Eid & Hne).
    { rewrite Eu. apply in_app_iff. right. apply in_app_iff. right. by left. }
    exists i. unfold last_id. rewrite last_snoc. split; [exact Eid|]. split; [done|].
    exists (ep_latestLedger page), (dn ++ pre), z, post. split; [by rewrite Eu, <- app_assoc|]. split; [done|].
    split; [by apply Z.leb_le|]. fold P. rewrite !List.filter_app, Epre. cbn [List.filter]. rewrite Hz. by rewrite app_assoc.
Qed.

Lemma wp_drain_reads n start cursor evs w (Q : outcome (list RawChainEvent * Z) -> world -> Prop) :
  read_to start cursor evs -> (forall i, cursor = Some i -> i <> "") ->
  (forall r w', w_db w' = w_db w -> (w_tick w <= w_tick w')%nat ->
     match r with Ok (evs, latest) => read_all start latest evs | Err _ => True end -> Q r w') ->
  wp Adm (drain n start filters cursor evs) Q w.
Proof.
  revert cursor evs w. induction n as [|n IH]; intros cursor evs w Hread Hi HQ; cbn [drain]; [wp_step; by apply HQ|].
  wp_step. unfold getEvents, withRetry. apply wp_asked. intros [page|x] w1 Hd Ht Hr; [|by apply HQ].
  destruct Hr as [Hr Hlog]. pose proof (read_on start cursor evs page Hread Hi Hr Hlog) as Hon. cbv zeta.
  destruct (Z.of_nat _ <? PAGE_SIZE) eqn:Es; cbn [orb]; [wp_step; by apply HQ|].
  destruct Hon as (i & El & Hne & Hread'). rewrite El. cbn [truthy_id]. unfold eqs. rewrite bool_decide_false by done. cbn [negb].
  apply IH; [done|by intros i' [= <-]|]. intros r w2 Hd2 Ht2 Hr2. apply HQ; [congruence|lia|done].
Qed.

(** ** What is kept *)
Definition kept (d : Database) (ev : RawChainEvent) : Prop :=
  (exists i, re_id ev = Some i /\ on_file d i) \/
  (exists g, In g (d chainEventGap) /\ cg_fromLedger g <= re_ledger ev <= cg_toLedger g) \/
  left_out node filters log ev.

(** All events between two ledgers, known to the node at any time, are. *)
Definition accounted (d : Database) (first last : Z) : Prop :=
  forall t ev, In ev (upto node filters t) -> first <= re_ledger ev <= last -> kept d ev.

Definition grows (d d' : Database) : Prop :=
  (forall r, In r (d chainEvent) -> In r (d' chainEvent)) /\ (forall g, In g (d chainEventGap) -> In g (d' chainEventGap)).

Lemma accounted_grows d d' first last : grows d d' -> accounted d first last -> accounted d' first last.
Proof.
  intros [Hc Hg] Ha t ev Hin Hl. destruct (Ha t ev Hin Hl) as [(i & Ei & r & Hr & Er)|[(g & Hing & Hgl)|Hleft]]; [| |by right; right].
  - left. exists i. split; [done|]. exists r. auto.
  - right. left. exists g. auto.
Qed.

(** ** Ids still to come are on no row *)
Context (Hinj : forall n m, st_uuid (stamps e n) = st_uuid (stamps e m) -> n = m).

Definition fresh_at w : Prop :=
  (forall n r, (w_tick w <= n)%nat -> In r (w_db w chainEvent) -> ce_id r <> st_uuid (stamps e n)) /\
  (forall n g, (w_tick w <= n)%nat -> In g (w_db w chainEventGap) -> cg_id g <> st_uuid (stamps e n)).

Lemma fresh_later w w' : fresh_at w -> (w_tick w <= w_tick w')%nat -> w_db w' chainEvent = w_db w chainEvent ->
  w_db w' chainEventGap = w_db w chainEventGap -> fresh_at w'.
Proof. intros [H1 H2] Ht E1 E2. split; intros n r Hn Hr; [rewrite E1 in Hr|rewrite E2 in Hr]; [eapply H1|eapply H2]; eauto; lia. Qed.

Lemma wp_warned (events : list RawChainEvent) w (Q : outcome unit -> world -> Prop) :
  (forall w', w_db w' = w_db w -> (w_tick w <= w_tick w')%nat -> Q (Ok tt) w') ->
  wp Adm (fold (fun _ ev => warn_undecodable ev) tt events) Q w.
Proof.
  revert w. induction events as [|ev events IH]; intros w HQ; cbn [fold]; [wp_step; by apply HQ|].
  wp_step. unfold warn_undecodable. destruct (event_data ev); wp_step; apply IH; intros w' Hd Ht; apply HQ; cbn in *; done || lia.
Qed.

Lemma wp_stamps_drawn (events : list RawChainEvent) acc w (Q : outcome (list stamp) -> world -> Prop) :
  (forall w', w_db w' = w_db w -> w_tick w' = (w_tick w + List.length events)%nat ->
     Q (Ok (acc ++ List.map (stamps e) (seq (w_tick w) (List.length events)))) w') ->
  wp Adm (fold (fun acc (_ : RawChainEvent) => s <- sample ;; Ret (acc ++ [s])) acc events) Q w.
Proof.
  revert acc w. induction events as [|ev events IH]; intros acc w HQ; cbn [fold].
  { wp_step. specialize (HQ w). cbn in HQ. rewrite app_nil_r in HQ. apply HQ; [done|lia]. }
  wp_step. wp_step. cbn [wp sample]. intros s Hs. cbn in Hs. subst s. apply IH. intros w' Hd Ht. cbn in Hd, Ht.
  specialize (HQ w' Hd). cbn in HQ. rewrite <- app_assoc. cbn. apply HQ. lia.
Qed.

(** Rows drawn from a tick on. *)
Lemma drawn_row events t r : In r (rows_of e events t) ->
  exists ev n, In ev events /\ (t <= n < t + List.length events)%nat /\ r = event_row ev (stamps e n).
Proof.
  unfold rows_of. revert t. induction events as [|ev events IH]; intros t; cbn; [done|].
  intros [<-|Hr]; [exists ev, t; split; [by left|]; split; [lia|done]|].
  destruct (IH _ Hr) as (ev' & n & Hin & Hn & ->). exists ev', n. split; [by right|]. split; [lia|done].
Qed.

Lemma drawn_complete events t ev : In ev events -> exists n, (t <= n)%nat /\ In (event_row ev (stamps e n)) (rows_of e events t).
Proof.
  unfold rows_of. revert t. induction events as [|ev0 events IH]; intros t; cbn; [done|].
  intros [->|Hin]; [exists t; split; [lia|by left]|]. destruct (IH (S t) Hin) as (n & Hn & Hr). exists n. split; [lia|by right].
Qed.

Lemma drawn_distinct events t r r' : In r (rows_of e events t) -> In r' (rows_of e events t) -> ce_id r = ce_id r' -> r = r'.
Proof.
  unfold rows_of. revert t. induction events as [|ev events IH]; intros t; cbn; [done|].
  assert (Hlater : forall r, In r (rows_of e events (S t)) -> ce_id r <> st_uuid (stamps e t)).
  { intros r0 (ev' & n & _ & Hn & ->)%drawn_row. rewrite (proj1 (event_row_id _ _)). intros E%Hinj. lia. }
  pose proof (proj1 (event_row_id ev (stamps e t))) as Eid.
  intros [<-|Hr] [<-|Hr'] E; [done| | |by apply (IH (S t))]; rewrite Eid in E; exfalso; [by apply (Hlater r')|by apply (Hlater r)].
Qed.

Lemma event_row_ledger ev s : ce_ledger (event_row ev s) = re_ledger ev.
Proof. unfold event_row. by destruct (event_data ev). Qed.

(** The rows of an insertion that took effect. *)
Definition stored (events : list RawChainEvent) (d d' : Database) : Prop :=
  (forall t, t <> chainEvent -> d' t = d t) /\
  (exists ins, d' chainEvent = d chainEvent ++ ins /\ forall r, In r ins -> exists ev, In ev events /\ ce_ledger r = re_ledger ev) /\
  forall ev i, In ev events -> re_id ev = Some i -> on_file d' i.

Lemma wp_stored events w (Q : outcome unit -> world -> Prop) :
  fresh_at w ->
  (forall r w', (w_tick w <= w_tick w')%nat -> fresh_at w' ->
     (w_db w' = w_db w /\ exists x, r = Err x) \/ stored events (w_db w) (w_db w') -> Q r w') ->
  wp Adm (insert_events events) Q w.
Proof.
  intros Hfresh HQ. unfold insert_events. destruct events as [|ev0 evs].
  { wp_step. apply HQ; [done|done|]. right. split; [done|]. split; [exists []; by rewrite app_nil_r|done]. }
  set (events := ev0 :: evs) in *. wp_step. apply wp_warned. intros w1 Hd1 Ht1.
  wp_step. apply wp_stamps_drawn. intros w2 Hd2 Ht2. cbn [app]. fold (rows_of e events (w_tick w1)).
  assert (Hd : w_db w2 = w_db w) by congruence.
  assert (Hnone : forall x w', w_db w' = w_db w -> (w_tick w2 <= w_tick w')%nat -> Q (Err x) w').
  { intros x w' Hdb Ht. apply HQ; [lia| |left; eauto]. eapply fresh_later; [exact Hfresh|lia|by rewrite Hdb..]. }
  wp_step. apply wp_stmt_ack; [intros x; apply Hnone; [done|cbn; lia]|]. intros s ins d' Hins.
  apply insert_all_ignore_spec in Hins as (Ho & Hd' & Hsub & Hall). rewrite Hd in Hd', Ho.
  assert (Hstored : stored events (w_db w) d').
  { split; [exact Ho|]. split.
    - exists ins. split; [done|]. intros r Hr. destruct (drawn_row _ _ _ (Hsub r Hr)) as (ev & n & Hev & _ & ->). exists ev.
      split; [done|]. apply event_row_ledger.
    - intros ev i Hev Hi. destruct (drawn_complete events (w_tick w1) ev Hev) as (n & Hn & Hin). set (r := event_row ev (stamps e n)) in *.
      pose proof (event_row_id ev (stamps e n)) as [Eid Eev]. fold r in Eid, Eev.
      assert (Hmine : In r ins -> on_file d' i).
      { intros Hr. exists r. rewrite Hd'. split; [apply in_app_iff; by right|congruence]. }
      destruct (Hall r Hin) as [|(r' & Hr' & Hc)]; [by apply Hmine|]. cbn in Hc. apply orb_true_iff in Hc as [Hc|Hc].
      + apply bool_decide_eq_true in Hc. rewrite Hd' in Hr'. apply in_app_iff in Hr' as [Hr'|Hr'].
        * exfalso. apply (proj1 Hfresh n r'); [lia|done|congruence].
        * apply Hmine. by rewrite (drawn_distinct events (w_tick w1) r r' Hin (Hsub _ Hr') Hc).
      + exists r'. split; [done|]. unfold eqs_null in Hc. rewrite Eev, Hi in Hc. destruct (ce_eventId r') as [i'|]; [|done].
        by apply bool_decide_eq_true in Hc as <-. }
  assert (Hend : forall r w', w_db w' = d' -> (w_tick w2 <= w_tick w')%nat -> Q r w').
  { intros r w' Hdb Ht. apply HQ; [lia| |right; by rewrite Hdb]. split; intros n x Hn Hx.
    - rewrite Hdb, Hd' in Hx. apply in_app_iff in Hx as [Hx|Hx]; [by apply (proj1 Hfresh); [lia|]|].
      destruct (drawn_row _ _ _ (Hsub x Hx)) as (ev & m & _ & Hm & ->). rewrite (proj1 (event_row_id _ _)). intros E%Hinj. lia.
    - rewrite Hdb, Ho in Hx by done. by apply (proj2 Hfresh); [lia|]. }
  split; [wp_step|intros x]; (apply Hend; [done|cbn; lia]).
Qed.

(** ** Where a cycle resumes *)
Definition resume_point (state : option Z) (d : Database) (p : Z) : Prop :=
  state = Some p \/ (exists c, In c (d indexerCursor) /\ ic_lastLedger c = p) \/ (exists r, In r (d chainEvent) /\ ce_ledger r = p).

Lemma max_ledger_of l : match max_ledger l with Some m => exists r, In r l /\ ce_ledger r = m | None => l = [] end.
Proof.
  induction l as [|r l IH]; cbn; [done|]. destruct (max_ledger l) as [m|].
  - destruct IH as (r' & Hr' & <-). destruct (Z.max_spec (ce_ledger r) (ce_ledger r')) as [[_ ->]|[_ ->]]; [exists r'; auto|exists r; auto].
  - exists r. auto.
Qed.

Lemma wp_resumes state w (Q : outcome Z -> world -> Prop) :
  w_db w chainEvent <> [] ->
  (forall r w', w_db w' = w_db w -> (w_tick w <= w_tick w')%nat ->
     match r with Ok desired => resume_point state (w_db w) (desired - 1) | Err _ => True end -> Q r w') ->
  wp Adm (desired_start state) Q w.
Proof.
  intros Hne HQ. unfold desired_start. destruct state as [c|].
  { wp_step. apply HQ; [done|done|]. left. f_equal. lia. }
  unfold getLastIngestedLedger. wp_step. wp_step.
  set (K := fun (r : outcome (option Z)) w' => match r with Ok a => wp Adm (match a with Some l => Ret (l + 1)
    | None => sequence <- getLatestLedger ;; Ret (Z.max 1 (sequence - COLD_START_LOOKBACK_LEDGERS)) end) Q w' | Err x => Q (Err x) w' end).
  assert (Hrows : forall w1, w_db w1 = w_db w -> (w_tick w <= w_tick w1)%nat ->
    wp Adm (rows <- stmt (select chainEvent (fun _ => true)) ;; Ret (max_ledger rows)) K w1).
  { intros w1 Hd1 Ht1. wp_step. wp_step; [intros x; apply HQ; [done|cbn; lia|done]|]. wp_step. cbn [K]. rewrite Hd1.
    assert (Ef : List.filter (fun _ : chainEvent_row => true) (w_db w chainEvent) = w_db w chainEvent) by (apply filter_Forall, Forall_true; done).
    cbn [row]. rewrite Ef. pose proof (max_ledger_of (w_db w chainEvent)) as Hm. destruct (max_ledger _) as [m|]; [|done].
    wp_step. apply HQ; [done|cbn; lia|]. right. right. destruct Hm as (r & Hr & <-). exists r. split; [done|lia]. }
  assert (Hcur : forall o w1, w_db w1 = w_db w -> (w_tick w <= w_tick w1)%nat ->
    (forall l, o = Some l -> exists c, In c (w_db w indexerCursor) /\ ic_lastLedger c = l) ->
    wp Adm (match o with Some l => Ret (Some l) | None => rows <- stmt (select chainEvent (fun _ => true)) ;; Ret (max_ledger rows) end) K w1).
  { intros [l|] w1 Hd1 Ht1 Ho; [|by apply Hrows]. wp_step. cbn [K]. wp_step. apply HQ; [done|done|]. right. left.
    destruct (Ho l eq_refl) as (c & Hc & <-). exists c. split; [done|lia]. }
  wp_step. wp_step. wp_step; [intros x; apply Hcur; [done|cbn; lia|done]|].
  wp_step. apply Hcur; [done|cbn; lia|]. intros l El. cbn [row] in *.
  destruct (List.filter (fun c : indexerCursor_row => eqs (ic_id c) DEFAULT_CURSOR_ID) (w_db w indexerCursor)) as [|c cs] eqn:Ef; [done|]. injection El as <-. exists c. split; [|done].
  assert (In c (c :: cs)) as Hc by by left. rewrite <- Ef in Hc. by apply List.filter_In in Hc as [? _].
Qed.

Lemma wp_gap a b w (Q : outcome unit -> world -> Prop) :
  fresh_at w ->
  (forall r w', (w_tick w <= w_tick w')%nat -> fresh_at w' -> (forall t, t <> chainEventGap -> w_db w' t = w_db w t) ->
     grows (w_db w) (w_db w') -> (r = Ok tt -> gap_recorded (w_db w') a b) -> Q r w') ->
  wp Adm (record_gap a b) Q w.
Proof.
  intros Hfresh HQ. unfold record_gap. wp_step. wp_step. set (w1 := note w _).
  assert (Hsame : forall r w', w_db w' = w_db w -> (w_tick w <= w_tick w')%nat -> (r = Ok tt -> gap_recorded (w_db w') a b) -> Q r w').
  { intros r w' Hd Ht Hr. apply HQ; [done|apply (fresh_later w); [done|done|by rewrite Hd..]|by rewrite Hd|rewrite Hd; split; auto|done]. }
  wp_step. apply wp_insert_ignore_stamped; [intros x; apply Hsame; [done|cbn; lia|done]| |].
  - intros s Hs Hconf. cbn in Hs. wp_step. apply Hsame; [done|cbn; lia|]. intros _. cbn.
    apply existsb_exists in Hconf as (g & Hg & Hc). cbn in Hc. apply orb_true_iff in Hc as [Hc|Hc].
    + apply bool_decide_eq_true in Hc. exfalso. subst s. apply (proj2 Hfresh (S (w_tick w)) g); [lia|exact Hg|done].
    + apply andb_true_iff in Hc as [H1%Z.eqb_eq H2%Z.eqb_eq]. by exists g.
  - cbn zeta. intros s Hs _ _ _. cbn in Hs. subst s. set (g := ChainEventGap _ _ _ _ _). set (w2 := after w1 _).
    assert (Hg2 : w_db w2 chainEventGap = w_db w chainEventGap ++ [g]) by (subst w2; world_simpl; by rewrite set_table_same).
    assert (Ho2 : forall t, t <> chainEventGap -> w_db w2 t = w_db w t).
    { intros t Ht. subst w2. world_simpl. by rewrite set_table_other. }
    assert (Hgrow : grows (w_db w) (w_db w2)).
    { split; [rewrite Ho2 by done; auto|]. intros g' Hg'. rewrite Hg2. apply in_app_iff. by left. }
    assert (Hfresh2 : fresh_at w2).
    { split; intros n x Hn Hx.
      - rewrite Ho2 in Hx by done. apply (proj1 Hfresh); [subst w2 w1; cbn in Hn; lia|done].
      - rewrite Hg2 in Hx. apply in_app_iff in Hx as [Hx|[<-|[]]]; [apply (proj2 Hfresh); [subst w2 w1; cbn in Hn; lia|done]|].
        cbn. intros E%Hinj. subst w2 w1. cbn in Hn. lia. }
    assert (Hend : forall r, Q r w2).
    { intros r. apply HQ; [subst w2 w1; cbn; lia|done..|]. intros _. exists g. split; [rewrite Hg2; apply in_app_iff; right; by left|done]. }
    split; [wp_step|intros x]; apply Hend.
Qed.

Lemma wp_cursor_saved latest w (Q : outcome unit -> world -> Prop) :
  (forall w', (w_tick w <= w_tick w')%nat -> (forall t, t <> indexerCursor -> w_db w' t = w_db w t) ->
     (forall c, In c (w_db w' indexerCursor) -> In c (w_db w indexerCursor) \/ ic_lastLedger c = latest) -> Q (Ok tt) w') ->
  wp Adm (save_cursor latest) Q w.
Proof.
  intros HQ. unfold save_cursor. wp_step; [|wp_step; apply HQ; auto]. wp_step.
  apply wp_stmt_ack; [intros x; wp_step; apply HQ; [cbn; lia|done|by left]|]. intros s [] d' Hu.
  assert (Ho : (forall t, t <> indexerCursor -> d' t = w_db w t) /\
    forall c, In c (d' indexerCursor) -> In c (w_db w indexerCursor) \/ ic_lastLedger c = latest).
  { unfold upsert, insert in Hu. destruct (conflicts indexerCursor _ _); [destruct (_ && _)|destruct (negb _); [|destruct (negb _)]];
      try discriminate; injection Hu as <-; (split; [intros t Ht; by rewrite set_table_other|]); intros c; rewrite set_table_same; cbn [row] in *.
    - intros (c0 & Ec & Hc0)%in_map_iff. destruct (eqs DEFAULT_CURSOR_ID (ic_id c0)); subst c; [by right|by left].
    - intros [Hc|[<-|[]]]%in_app_iff; [by left|by right]. }
  split; [|intros x; wp_step]; (apply HQ; [cbn; lia|apply Ho..]).
Qed.

(** ** The invariant *)
Definition life_ok (base : Z) (state : option Z) w : Prop :=
  fresh_at w /\ w_db w chainEvent <> [] /\ forall p, resume_point state (w_db w) p -> accounted (w_db w) base p.

Lemma life_ok_later base state w w' :
  life_ok base state w -> fresh_at w' -> w_db w' chainEvent = w_db w chainEvent -> w_db w' indexerCursor = w_db w indexerCursor ->
  grows (w_db w) (w_db w') -> life_ok base state w'.
Proof.
  intros (_ & Hne & Hp) Hf Ee Ec Hg. split; [done|]. split; [by rewrite Ee|]. intros p Hr. eapply accounted_grows; [done|]. apply Hp.
  unfold resume_point in *. by rewrite <- Ee, <- Ec.
Qed.

Lemma life_ok_same base state w w' : life_ok base state w -> w_db w' = w_db w -> (w_tick w <= w_tick w')%nat -> life_ok base state w'.
Proof.
  intros Hok Hd Ht. eapply life_ok_later; [done|apply (fresh_later w); [apply Hok|done|by rewrite Hd..]|by rewrite Hd..|rewrite Hd; by split; auto].
Qed.

(** What was read from the start on, stored, leaves nothing out up to the tip. *)
Lemma accounted_stored base desired start latest evs d d' p :
  read_all start latest evs -> accounted d base (desired - 1) -> (desired < start -> gap_recorded d desired (start - 1)) ->
  stored evs d d' -> p <= latest -> accounted d' base p.
Proof.
  intros [_ Hread] Ha Hgap (Ho & (ins & Hins & _) & Hfile) Hp t ev Hin [Hb Hl].
  assert (Hg : grows d d').
  { split; [intros r Hr; rewrite Hins; apply in_app_iff; by left|by rewrite Ho]. }
  destruct (Z.le_gt_cases (re_ledger ev) (desired - 1)) as [|Hd]; [by eapply (accounted_grows d d'); eauto|].
  destruct (Z.lt_ge_cases (re_ledger ev) start) as [Hs|Hs].
  - right. left. destruct Hgap as (g & Hg1 & Ea & Eb); [lia|]. exists g. split; [by apply Hg|lia].
  - destruct (upto_id node filters t ev Hin) as (i & Ei & _). destruct (Hread ev) as [Hev|Hleft]; [| |by right; right].
    + apply List.filter_In. split; [by eapply upto_at_most; [|lia]|by apply Z.leb_le].
    + left. exists i. split; [done|]. by eapply Hfile.
Qed.

Lemma wp_poll_keeps base state w (Q : outcome PollOnceResult -> world -> Prop) :
  life_ok base state w ->
  (forall r w', life_ok base state w' -> match r with Ok res => accounted (w_db w') base (scannedUpTo res) | Err _ => True end -> Q r w') ->
  wp Adm (pollOnce fuel contractIds state) Q w.
Proof.
  intros Hok HQ. unfold pollOnce. wp_step. apply wp_resumes; [apply Hok|]. intros r w1 Hd1 Ht1 Hr.
  assert (Hok1 : life_ok base state w1) by (by eapply life_ok_same).
  destruct r as [desired|x]; [|by apply HQ]. rewrite <- Hd1 in Hr. apply Hok1 in Hr.
  wp_step. unfold getHealth. apply wp_asked. intros r w2 Hd2 Ht2 _. assert (Hok2 : life_ok base state w2) by (by eapply life_ok_same).
  destruct r as [health|x]; [|by apply HQ]. rewrite <- Hd2 in Hr. cbv zeta. set (start := Z.max desired (gh_oldestLedger health)).
  wp_step. apply (wp_mono Adm _ (fun r w3 => life_ok base state w3 /\ accounted (w_db w3) base (desired - 1) /\
    (r = Ok tt -> desired < start -> gap_recorded (w_db w3) desired (start - 1)))).
  2:{ destruct (Z.ltb_spec desired start) as [Hlt|Hge].
      - apply wp_gap; [apply Hok2|]. intros r w3 Ht3 Hf3 Ho3 Hg3 Hgap. split; [|split; [by eapply accounted_grows|auto]].
        eapply life_ok_later; [exact Hok2|done|by apply Ho3..|done].
      - wp_step. split; [done|]. split; [done|]. intros _ Hlt. lia. }
  intros [[]|x] w3 (Hok3 & Hr3 & Hgap); [|by apply HQ]. specialize (Hgap eq_refl).
  wp_step. apply wp_drain_reads; [done|done|]. intros r w4 Hd4 Ht4 Hevs. assert (Hok4 : life_ok base state w4) by (by eapply life_ok_same).
  destruct r as [[evs latest]|x]; [|by apply HQ]. rewrite <- Hd4 in Hr3, Hgap.
  wp_step. apply wp_stored; [apply Hok4|]. intros r w5 Ht5 Hf5 [(Hd5 & x & ->)|Hst].
  { apply HQ; [by eapply life_ok_same|done]. }
  assert (Hacc : forall p, p <= latest -> accounted (w_db w5) base p) by (intros p Hp; by eapply accounted_stored).
  assert (Hok5 : life_ok base state w5).
  { destruct Hst as (Ho & (ins & Hins & Hled) & _). assert (Hg : grows (w_db w4) (w_db w5)).
    { split; [intros r0 Hr0; rewrite Hins; apply in_app_iff; by left|by rewrite Ho]. }
    split; [done|]. split; [rewrite Hins; destruct Hok4 as (_ & Hne & _); by destruct (w_db w4 chainEvent)|].
    intros p [Hs|[(c & Hc & Ep)|(r0 & Hr0 & Ep)]].
    - eapply accounted_grows; [done|]. apply Hok4. by left.
    - eapply accounted_grows; [done|]. apply Hok4. right. left. exists c. by rewrite <- (Ho indexerCursor).
    - rewrite Hins in Hr0. apply in_app_iff in Hr0 as [Hr0|Hr0].
      + eapply accounted_grows; [done|]. apply Hok4. right. right. by exists r0.
      + destruct (Hled r0 Hr0) as (ev & Hev & El). apply Hacc. apply (proj1 Hevs), List.filter_In in Hev as [Hev _].
        apply upto_ledger in Hev. lia. }
  destruct r as [[]|x]; [|by apply HQ].
  wp_step. apply wp_cursor_saved. intros w6 Ht6 Ho6 Hc6.
  assert (Hok6 : life_ok base state w6 /\ forall p, p <= latest -> accounted (w_db w6) base p).
  { assert (Hg : grows (w_db w5) (w_db w6)) by (split; by rewrite Ho6).
    split; [|intros p Hp; by eapply accounted_grows; [|apply Hacc]]. split; [by eapply (fresh_later w5); [apply Hok5|done|by apply Ho6..]|].
    split; [rewrite Ho6 by done; apply Hok5|]. intros p [Hs|[(c & Hc & Ep)|(r0 & Hr0 & Ep)]]; (eapply accounted_grows; [exact Hg|]).
    - apply Hok5. by left.
    - destruct (Hc6 c Hc) as [Hc'|El]; [|apply Hacc; lia]. apply Hok5. right. left. by exists c.
    - apply Hok5. right. right. exists r0. by rewrite <- (Ho6 chainEvent). }
  destruct Hok6 as [Hok6 Hacc6]. repeat wp_step. apply HQ; [by eapply life_ok_same; [exact Hok6|done|cbn; lia]|].
  cbn [scannedUpTo]. change (w_db (note (note w6 _) _)) with (w_db w6). intros t ev Hin [Hb Hl].
  destruct (Z.le_gt_cases (re_ledger ev) latest) as [Hle|Hgt]; [by eapply (Hacc6 latest); [lia|done|lia]|].
  destruct state as [c|]; cbn [default] in Hl.
  - assert (Hpc : accounted (w_db w6) base c) by (apply Hok6; by left). eapply (Hpc t); [done|]. unfold Datatypes.id in Hl. lia.
  - apply upto_ledger in Hin. lia.
Qed.

Lemma wp_index_step base lag state event w :
  life_ok base state w ->
  wp Adm (index_step fuel contractIds lag state event) (fun r w' => match r with Ok state' => life_ok base state' w' | Err _ => False end) w.
Proof.
  intros Hok. destruct event; cbn [index_step].
  2:{ cbn [wp]. destruct Hok as (Hf & Hne & Hp). split; [done|]. split; [done|]. intros p [[=]|Hr]. apply Hp. by right. }
  wp_step. apply wp_attempt. unfold runIndexerCycle.
  wp_step. unfold getLatestLedger. apply wp_asked. intros r w1 Hd1 Ht1 _. assert (Hok1 : life_ok base state w1) by (by eapply life_ok_same).
  destruct r as [tip|x]; [|by wp_step].
  wp_step. apply (wp_mono Adm _ (fun r w2 => r = Ok tt /\ life_ok base state w2)).
  2:{ destruct state as [l|]; [|by wp_step]. cbv zeta. destruct (isLagging _); wp_step; (split; [done|]); [|done].
      eapply life_ok_same; [exact Hok1|done|cbn; lia]. }
  intros r w2 [-> Hok2]. wp_step. apply (wp_poll_keeps base); [done|]. intros [res|x] w3 Hok3 Hacc; [|by wp_step].
  assert (Hend : forall w4, w_db w4 = w_db w3 -> (w_tick w3 <= w_tick w4)%nat -> life_ok base (Some (scannedUpTo res)) w4).
  { intros w4 Hd Ht. destruct (life_ok_same _ _ _ w4 Hok3 Hd Ht) as (Hf & Hne & Hp). split; [done|]. split; [done|].
    intros p [[= <-]|Hr]; [by rewrite Hd|]. apply Hp. by right. }
  wp_step. destruct (skippedFrom res), (skippedTo res); repeat wp_step; apply Hend; cbn; done || lia.
Qed.

Lemma wp_index_life base lag events state w :
  life_ok base state w ->
  wp Adm (fold (index_step fuel contractIds lag) state events)
    (fun r w' => match r with Ok state' => life_ok base state' w' | Err _ => False end) w.
Proof.
  revert state w. induction events as [|event events IH]; intros state w Hok; cbn [fold]; [exact Hok|].
  wp_step. eapply wp_mono; [|by apply (wp_index_step base)]. intros [state'|x] w' Hr; [by apply IH|done].
Qed.
End Life.

(** C5. No event is lost by the indexer.  Let the node answer out of one history of the chain, where an
    answer may be an error, or stop short of the node's tip; let ids be generated afresh; and start the
    indexer on a database with an event on file whose resume points (its cursor, the ledgers of its events)
    leave nothing out from the ledger [first] on.  Then however often the indexer is restarted, whichever
    statements fail or lose their acknowledgement: it keeps running, and every event of the watched
    contracts from [first] up to any ledger it would resume after, in memory or from its tables, is on file
    under its id, or lies in a range recorded as lost, or was left out of an answer of this run by the node:
    a page that was not full, to a request that asked for the event, naming a tip past it.  The indexer
    takes such a page for all there is ([LifeSample.short_scan_loses_an_event]). *)
Theorem no_event_is_lost `{IndexerSdk} (e : env IndexerCall) node fuel contractIds lag events (d : Database) first
    (Htruth : forall X n (c : IndexerCall X), truthful_answer node X c (answer e X n c))
    (Hfresh : uuids_fresh e d) (Hstart : d chainEvent <> [])
    (Hfirst : forall p, resume_point None d p -> accounted node contractIds [] d first p) :
  let '(r, w) := run e (index_life fuel contractIds lag events) (World d 0 []) in
  exists state, r = Ok state /\
    forall p, resume_point state (w_db w) p -> accounted node contractIds (w_log w) (w_db w) first p.
Proof.
  destruct Hfresh as (Hinj & Hc & Hg). set (w0 := World d 0 []).
  set (L := w_log (snd (run e (index_life fuel contractIds lag events) w0))).
  assert (Hok : life_ok e node contractIds L first None w0).
  { split; [by split; intros n x _ Hx; [apply Hc|apply Hg]|]. split; [done|]. intros p Hp t ev Hin Hl.
    destruct (Hfirst p Hp t ev Hin Hl) as [?|[?|(from & page & [] & _)]]; [by left|by right; left]. }
  pose proof (wp_sound_logged (truthful e node L) e (index_life fuel contractIds lag events) (fun r w' => match r with
    Ok state' => life_ok e node contractIds L first state' w' | Err _ => False end) w0 (fun _ _ _ => I) (fun _ => eq_refl)) as Hr.
  lapply Hr; [clear Hr; intros Hr|by intros X c r Hin [n ->]; split].
  lapply Hr; [clear Hr; intros Hr|by apply wp_index_life].
  subst L. destruct (run e _ w0) as [[state|x] w]; [|done]. exists state. split; [done|]. apply Hr.
Qed.

(** ** A chain of two events, and an indexer that is restarted *)
Module LifeSample.
Definition ev1 : RawChainEvent := RawEvent (Some "ev1") 121 "tx1" "C1" ["pledge"] "v".
Definition ev2 : RawChainEvent := RawEvent (Some "ev2") 125 "tx2" "C1" ["draw"] "bad".
Definition up (filters : list (list string)) (t : Z) : list RawChainEvent :=
  if 125 <=? t then [ev1; ev2] else if 121 <=? t then [ev1] else [].

Lemma up_ledger filters t ev : In ev (up filters t) -> 0 < re_ledger ev <= t.
Proof. unfold up. destruct (Z.leb_spec 125 t), (Z.leb_spec 121 t); cbn; intros Hin; naive_solver lia. Qed.
Lemma up_grows filters t t' : t <= t' -> exists more, up filters t' = up filters t ++ more /\ Forall (fun ev => t < re_ledger ev) more.
Proof.
  intros Ht. unfold up. destruct (Z.leb_spec 125 t), (Z.leb_spec 125 t'), (Z.leb_spec 121 t), (Z.leb_spec 121 t'); try lia;
    first [by exists []|exists [ev2]; split; [reflexivity|]|exists [ev1; ev2]; split; [reflexivity|]|exists [ev1]; split; [reflexivity|]];
    repeat constructor; cbn; lia.
Qed.
Lemma up_sorted filters t : StronglySorted (fun a b => re_ledger a <= re_ledger b) (up filters t).
Proof. unfold up. destruct (125 <=? t), (121 <=? t); repeat constructor; cbn; lia. Qed.
Lemma up_ids filters t : NoDup (List.map re_id (up filters t)).
Proof. by apply (bool_decide_unpack _); unfold up; destruct (125 <=? t), (121 <=? t). Qed.
Lemma up_id filters t ev : In ev (up filters t) -> exists i, re_id ev = Some i /\ i <> "".
Proof. unfold up. destruct (125 <=? t), (121 <=? t); cbn; naive_solver. Qed.

Definition node : Node := MkNode up up_ledger up_grows up_sorted up_ids up_id.

Definition answers (X : Type) (n : nat) (c : IndexerCall X) : outcome X :=
  match c in IndexerCall X return outcome X with
  | RpcGetEvents (FromLedger l) _ limit => Ok (EventsPage (take (Z.to_nat limit) (List.filter (fun ev => l <=? re_ledger ev) [ev1; ev2])) 130)
  | RpcGetEvents (FromCursor i) _ limit =>
      if eqs i "ev1" then Ok (EventsPage (take (Z.to_nat limit) [ev2]) 130) else Err (Error "no such cursor")
  | RpcGetLatestLedger => Ok 130
  | RpcGetHealth => if (n <? 12)%nat then Err (Error "node is behind") else Ok (Health 130 120 10)
  end.
Definition chain : env IndexerCall := Env answers (fun _ => NoFault) (fun n => Stamp (Z.of_nat n) (pretty (N.of_nat n))).
Definition old : Database := set_table chainEvent [ChainEvent "x" (Some "ev0") 110 "tx0" "C1" "pledge" JNull 0] empty_db.

Lemma chain_tells_the_truth X n (c : IndexerCall X) : truthful_answer node X c (answer chain X n c).
Proof.
  destruct c as [[l|i] filters limit| |]; cbn; [by exists (Z.to_nat limit)| |done|done]. unfold eqs. case_bool_decide as Ei; [|done].
  exists (Z.to_nat limit). split; [done|]. exists [], ev1, [ev2]. by subst i.
Qed.

Lemma old_fresh : uuids_fresh chain old.
Proof.
  split; [|split].
  - intros n m E. cbn in E. apply (inj pretty) in E. lia.
  - intros n r [<-|[]]. cbn. intros E. apply (f_equal (fun s => match s with String c _ => is_digit c | _ => false end)) in E.
    destruct (Z_to_string_nonneg (Z.of_nat n)) as (Hne & Hd & _); [lia|]. revert E Hne Hd. unfold Z_to_string.
    replace (pretty (Z.of_nat n)) with (pretty (N.of_nat n)) by (by destruct n). 
    destruct (pretty (N.of_nat n)) as [|c s]; [done|]. cbn. intros E _ Hd. unfold string_forall in Hd. cbn in Hd.
    by rewrite <- E in Hd.
  - by intros n g [].
Qed.

Lemma no_event_is_lost_witness :
  let events := [CyclePasses; Restarts; CyclePasses; CyclePasses] in
  let '(r, w) := run chain (@index_life sample_indexer_sdk 3 ["C1"] 12 events) (World old 0 []) in
  exists state, r = Ok state /\ forall p, resume_point state (w_db w) p -> accounted node ["C1"] (w_log w) (w_db w) 111 p.
Proof.
  cbv zeta. apply (@no_event_is_lost sample_indexer_sdk chain node 3 ["C1"] 12 [CyclePasses; Restarts; CyclePasses; CyclePasses] old 111
    chain_tells_the_truth old_fresh).
  - done.
  - intros p [[=]|[(c & Hc & _)|(r & [<-|[]] & <-)]] t ev Hin Hl; [done|]. cbn in Hl. lia.
Defined.

(** The first pass fails and is made up for after the restart; the gap before the node's oldest ledger is
    recorded. *)
Example sample_life :
  let '(r, w) := run chain (@index_life sample_indexer_sdk 3 ["C1"] 12 [CyclePasses; Restarts; CyclePasses; CyclePasses]) (World old 0 []) in
  r = Ok (Some 130) /\ List.map ce_eventId (w_db w chainEvent) = [Some "ev0"; Some "ev1"; Some "ev2"] /\
  List.map (fun g => (cg_fromLedger g, cg_toLedger g)) (w_db w chainEventGap) = [(111, 119)].
Proof. vm_compute. auto. Qed.

(** A node that looks at four ledgers at a time: its answer to the request from ledger 120 ends before
    the second event but names the tip, where the indexer resumes; the event is never asked for again. *)
Definition short_answers (X : Type) (n : nat) (c : IndexerCall X) : outcome X :=
  match c in IndexerCall X return outcome X with
  | RpcGetEvents (FromLedger l) _ limit => Ok (EventsPage (List.filter (fun ev => (l <=? re_ledger ev) && (re_ledger ev <? l + 4)) [ev1; ev2]) 130)
  | RpcGetEvents (FromCursor i) _ limit => Err (Error "no such cursor")
  | RpcGetLatestLedger => Ok 130
  | RpcGetHealth => Ok (Health 130 120 10)
  end.
Example short_scan_loses_an_event :
  let '(r, w) := run (Env short_answers (fun _ => NoFault) (fun n => Stamp (Z.of_nat n) (pretty (N.of_nat n))))
    (@index_life sample_indexer_sdk 3 ["C1"] 12 [CyclePasses; Restarts; CyclePasses]) (World old 0 []) in
  r = Ok (Some 130) /\ List.map ce_eventId (w_db w chainEvent) = [Some "ev0"; Some "ev1"] /\
  List.map (fun g => (cg_fromLedger g, cg_toLedger g)) (w_db w chainEventGap) = [(111, 119)].
Proof. vm_compute. auto. Qed.
End LifeSample.
