(* ===== verification/Webhooks.v ===== *)
(** [services/api/src/webhooks]: the outbox that queues and delivers webhook events ([outbox.ts]),
    the URL check ([ssrf.ts]) and the delivery signatures ([signing.ts]). *)
From S2P Require Import Prelude Prog Schema Rules Domain Intents.

(** ** What the modules call: Node's URL parser, address classifier, DNS and fetch, and its
    HMAC and cipher. *)
Record URL := Url { u_href : string; u_protocol : string; u_username : string; u_password : string; u_hostname : string }.

Class NodeLib := {
  new_URL : string -> option URL;
  isIP : string -> Z;
  hmac_sha256_hex : string -> string -> string;
  decryptSecret : string -> string -> outcome string;
  JSON_stringify : jsval -> string }.

Inductive WebhookCall : Type -> Type :=
| ResolveHost (hostname : string) : WebhookCall (list string)
| Fetch (url : URL) (headers : list (string * string)) (body : string) : WebhookCall Z.

Notation webhook_prog := (prog Database WebhookCall string).
Notation webhook_world := (world Database WebhookCall string).

(** ** ssrf.ts *)
Section Ssrf.
Context `{NodeLib}.

Definition UnsafeWebhookUrlError (msg : string) : exn := Exn "UnsafeWebhookUrlError" msg.

(** [Number(part)] of a dotted address; [None] is [NaN], of which every comparison is false. *)
Definition Number (s : string) : option Z := if eqs s "" then Some 0 else read_digits 10 hex_value 0 s.
Definition num_is (x : option Z) (n : Z) : bool := match x with Some v => v =? n | None => false end.
Definition num_ge (x : option Z) (n : Z) : bool := match x with Some v => n <=? v | None => false end.
Definition num_le (x : option Z) (n : Z) : bool := match x with Some v => v <=? n | None => false end.

Definition ipv4Private (ip : string) : bool :=
  let parts := split_on "." ip in
  let a := nth_error parts 0 ≫= Number in
  let b := nth_error parts 1 ≫= Number in
  let c := nth_error parts 2 ≫= Number in
  num_is a 0 || num_is a 10 || num_is a 127 ||
  (num_is a 100 && num_ge b 64 && num_le b 127) ||
  (num_is a 169 && num_is b 254) ||
  (num_is a 172 && num_ge b 16 && num_le b 31) ||
  (num_is a 192 && num_is b 168) ||
  (num_is a 192 && num_is b 0 && num_is c 0) ||
  (num_is a 198 && (num_is b 18 || num_is b 19)) ||
  num_ge a 224.

(** [/^::ffff:(\d+\.\d+\.\d+\.\d+)$/]: the dotted part. *)
Definition mapped_ipv4 (s : string) : option string :=
  if starts_with "::ffff:" s
  then let rest := string_drop 7 s in
       let parts := split_on "." rest in
       if (List.length parts =? 4)%nat && forallb (fun p => negb (eqs p "") && string_forall is_digit p) parts
       then Some rest else None
  else None.

Definition isPrivateAddress (ip : string) : bool :=
  let kind := isIP ip in
  if kind =? 4 then ipv4Private ip
  else if kind =? 6
  then
    let lower := toLowerCase ip in
    match mapped_ipv4 lower with
    | Some v4 => ipv4Private v4
    | None =>
        eqs lower "::" || eqs lower "::1" ||
        (starts_with "fc" lower || starts_with "fd" lower) ||
        (starts_with "fe8" lower || starts_with "fe9" lower || starts_with "fea" lower || starts_with "feb" lower) ||
        starts_with "ff" lower
    end
  else true.

Definition BLOCKED_SUFFIXES : list string := [".localhost"; ".local"; ".internal"; ".lan"; ".home.arpa"].

(** [hostname.replace(/^\[|\]$/g, "").toLowerCase()]. *)
Definition strip_brackets (s : string) : string :=
  let s := if starts_with "[" s then string_drop 1 s else s in
  if ends_with "]" s then string_take (slen s - 1) s else s.

Definition assertSafeWebhookUrl (raw : string) (allowHttp : bool) : webhook_prog URL :=
  match new_URL raw with
  | None => Throw (UnsafeWebhookUrlError "not a valid URL")
  | Some url =>
      if negb (eqs (u_protocol url) "https:") && negb (allowHttp && eqs (u_protocol url) "http:")
      then Throw (UnsafeWebhookUrlError "webhook URL must use https")
      else if negb (eqs (u_username url) "") || negb (eqs (u_password url) "")
      then Throw (UnsafeWebhookUrlError "webhook URL must not contain credentials")
      else
        let host := toLowerCase (strip_brackets (u_hostname url)) in
        if eqs host "localhost" || existsb (fun s => ends_with s host) BLOCKED_SUFFIXES
        then Throw (UnsafeWebhookUrlError "webhook URL points at a local hostname")
        else
          addresses <- (if negb (isIP host =? 0) then Ret [host]
                        else catch (call (ResolveHost host)) (fun _ => Ret [])) ;;
          if bool_decide (addresses = [])
          then Throw (UnsafeWebhookUrlError "webhook host does not resolve")
          else if existsb isPrivateAddress addresses
          then Throw (UnsafeWebhookUrlError "webhook URL resolves to a private or reserved address")
          else Ret url
  end.

(** ** signing.ts *)
Definition SIGNATURE_TOLERANCE_S : Z := 300.

Definition signWebhook (secret : string) (timestampS : Z) (body : string) : string :=
  let mac := hmac_sha256_hex secret (Z_to_string timestampS +:+ "." +:+ body) in
  "t=" +:+ Z_to_string timestampS +:+ ",v1=" +:+ mac.

(** [Object.fromEntries(header.split(",").map((p) => p.split("=")))]: a later entry wins. *)
Definition header_part (k : string) (header : string) : option string :=
  let entries := List.map (fun p => match split_on "=" p with x :: y :: _ => (x, Some y) | [x] => (x, None) | [] => ("", None) end)
                   (split_on "," header) in
  match List.find (fun kv => eqs (fst kv) k) (rev entries) with Some (_, v) => v | None => None end.

(** [signWebhook(...).split("v1=")[1]]: what follows the first ["v1="]. *)
Fixpoint after_v1 (s : string) : string :=
  match s with
  | EmptyString => EmptyString
  | String _ s' => if starts_with "v1=" s then string_drop 3 s else after_v1 s'
  end.

(** [Number(parts.t)] where it is an integer. *)
Definition Number_integer (s : option string) : option Z :=
  match s with
  | Some s => if starts_with "-" s then Z.opp <$> read_digits 10 hex_value 0 (string_drop 1 s) else Number s
  | None => None
  end.

Definition verifyWebhook (secret header body : string) (nowS : Z) : bool :=
  match Number_integer (header_part "t" header), header_part "v1" header with
  | Some t, Some v1 =>
      if eqs v1 "" || (SIGNATURE_TOLERANCE_S <? Z.abs (nowS - t)) then false
      else bool_decide (Buffer_from_hex (after_v1 (signWebhook secret t body)) = Buffer_from_hex v1)
  | _, _ => false
  end.
End Ssrf.

(** ** outbox.ts: constants and event selection *)
Definition MAX_ATTEMPTS : Z := 6.
Definition BACKOFF_S : list Z := [30; 120; 600; 3600; 21600].
Definition BATCH_SIZE : nat := 50.
Definition FANOUT_WINDOW_MS : Z := 24 * 3600 * 1000.

Definition eventsForMarginTransition (fromState toState : string) : list string :=
  ["margin.state_changed"] ++
  (if eqs toState "MarginCall" then ["margin.call_issued"] else []) ++
  (if eqs fromState "MarginCall" && (eqs toState "Healthy" || eqs toState "Warning") then ["margin.cured"] else []) ++
  (if eqs toState "Liquidation" then ["liquidation.started"] else []).

Notation Subscription := webhookSubscription_row.

(** [Array.isArray(sub.events) && sub.events.includes(event)]. *)
Definition wants (sub : Subscription) (event : string) : bool :=
  match ws_events sub with
  | JArr l => existsb (fun v => match v with JStr s => eqs s event | _ => false end) l
  | _ => false
  end.

(** [BACKOFF_S[attempts - 1] ?? BACKOFF_S.at(-1)]. *)
Definition backoff (attempts : Z) : Z :=
  if attempts <? 1 then 21600 else nth (Z.to_nat (attempts - 1)) BACKOFF_S 21600.

(** [Date.prototype.toISOString], for years 0 to 9999. *)
Definition pad (n : nat) (z : Z) : string := pad_start n "0" (Z_to_string z).
Definition toISOString (ms : Z) : string :=
  let days := ms / 86400000 in
  let rest := ms mod 86400000 in
  let z := days + 719468 in
  let era := z / 146097 in
  let doe := z - era * 146097 in
  let yoe := (doe - doe / 1460 + doe / 36524 - doe / 146096) / 365 in
  let doy := doe - (365 * yoe + yoe / 4 - yoe / 100) in
  let mp := (5 * doy + 2) / 153 in
  let d := doy - (153 * mp + 2) / 5 + 1 in
  let m := if mp <? 10 then mp + 3 else mp - 9 in
  let y := yoe + era * 400 + (if m <=? 2 then 1 else 0) in
  pad 4 y +:+ "-" +:+ pad 2 m +:+ "-" +:+ pad 2 d +:+ "T" +:+
  pad 2 (rest / 3600000) +:+ ":" +:+ pad 2 (rest / 60000 mod 60) +:+ ":" +:+
  pad 2 (rest / 1000 mod 60) +:+ "." +:+ pad 3 (rest mod 1000) +:+ "Z".

Example epoch_iso : toISOString 1700000000123 = "2023-11-14T22:13:20.123Z".
Proof. vm_compute. reflexivity. Qed.

Definition payloadFor (event : string) (occurredAt : Z) (data : jsval) : jsval :=
  JObj [("event", JStr event); ("occurredAt", JStr (toISOString occurredAt)); ("data", data)].

(** [new Map(rows.map((r) => [r.id, r])).get(id)]: a later row replaces an earlier one. *)
Definition by_id {A} (id : A -> string) (rows : list A) (k : string) : option A :=
  List.find (fun r => eqs (id r) k) (rev rows).

(** [Array.prototype.sort] by a numeric key, ascending and stable. *)
Fixpoint insert_asc {A} (key : A -> Z) (a : A) (l : list A) : list A :=
  match l with
  | [] => [a]
  | b :: l' => if key b <=? key a then b :: insert_asc key a l' else a :: l
  end.
Definition sort_asc {A} (key : A -> Z) (l : list A) : list A := foldl (fun acc a => insert_asc key a acc) [] l.

Definition opt_str (s : option string) : jsval := match s with Some s => JStr s | None => JNull end.

Section FanOut.
Context (now : Z).
Definition since : Z := now - FANOUT_WINDOW_MS.

(** [enqueue], returning the new count.  [occurredAt] is the instant the payload prints;
    [new Date(payload.occurredAt)] reads it back. *)
Definition enqueue (enqueued : Z) (sub : Subscription) (eventKey event : string) (occurredAt : Z)
    (payload : jsval) : webhook_prog Z :=
  if occurredAt <? ws_createdAt sub then Ret enqueued
  else
    inserted <- stmt (insert_ignore webhookDelivery (fun s =>
      WebhookDelivery (st_uuid s) (ws_id sub) eventKey event payload "pending" 0 now None (st_now s) None)) ;;
    Ret (enqueued + Z.of_nat (List.length inserted)).

(** One loop over subscriptions, in order. *)
Definition enqueue_all (enqueued : Z) (subs : list Subscription) (eventKey event : string)
    (occurredAt : Z) (payload : jsval) : webhook_prog Z :=
  fold (fun n sub => enqueue n sub eventKey event occurredAt payload) enqueued subs.

Definition among_parties (parties : list string) (sub : Subscription) : bool := existsb (eqs (ws_partyId sub)) parties.

Definition wanting (active : list Subscription) (event : string) (parties : list string) : list Subscription :=
  List.filter (fun s => among_parties parties s && wants s event) active.

Definition margin_event_step (active : list Subscription) (lines : list creditLine_row) (enqueued : Z)
    (me : marginEvent_row) : webhook_prog Z :=
  match by_id cl_id lines (me_creditLineId me) with
  | None => Ret enqueued
  | Some line =>
      fold (fun n event =>
        enqueue_all n (wanting active event [cl_lenderId line; cl_borrowerId line])
          ("margin_event:" +:+ me_id me +:+ ":" +:+ event) event (me_createdAt me)
          (payloadFor event (me_createdAt me)
             (JObj [("creditLineId", JStr (me_creditLineId me)); ("fromState", JStr (me_fromState me));
                    ("toState", JStr (me_toState me)); ("ltvBps", JNum (me_ltvBps me))])))
        enqueued (eventsForMarginTransition (me_fromState me) (me_toState me))
  end.

Definition fan_margin (active : list Subscription) (enqueued : Z) : webhook_prog Z :=
  rows <- stmt (select marginEvent (fun _ => true)) ;;
  let marginEvents := List.filter (fun e => since <=? me_createdAt e) rows in
  match marginEvents with
  | [] => Ret enqueued
  | _ => lines <- stmt (select creditLine (fun _ => true)) ;;
         fold (margin_event_step active lines) enqueued marginEvents
  end.

(** The loop over snapshots: the count and [previousStatus]. *)
Definition price_step (priceSubs : list Subscription) (acc : Z * list (string * string))
    (snap : priceSnapshot_row) : webhook_prog (Z * list (string * string)) :=
  let '(enqueued, previousStatus) := acc in
  let before := assoc (ps_assetId snap) previousStatus in
  let previousStatus := (ps_assetId snap, ps_status snap) :: previousStatus in
  match before with
  | None => Ret (enqueued, previousStatus)
  | Some b =>
      if eqs b (ps_status snap) || (ps_createdAt snap <? since) then Ret (enqueued, previousStatus)
      else
        n <- enqueue_all enqueued priceSubs ("price_snapshot:" +:+ ps_id snap) "price.status_changed"
               (ps_createdAt snap)
               (payloadFor "price.status_changed" (ps_createdAt snap)
                  (JObj [("assetId", JStr (ps_assetId snap)); ("fromStatus", JStr b);
                         ("toStatus", JStr (ps_status snap)); ("value", JStr (ps_guardedValue snap))])) ;;
        Ret (n, previousStatus)
  end.

Definition fan_price (active : list Subscription) (enqueued : Z) : webhook_prog Z :=
  match List.filter (fun s => wants s "price.status_changed") active with
  | [] => Ret enqueued
  | priceSubs =>
      rows <- stmt (select priceSnapshot (fun _ => true)) ;;
      res <- fold (price_step priceSubs) (enqueued, []) (sort_asc ps_createdAt rows) ;;
      Ret (fst res)
  end.

Definition liquidation_step (active : list Subscription) (lines : list creditLine_row) (enqueued : Z)
    (liq : liquidation_row) : webhook_prog Z :=
  match by_id cl_id lines (li_creditLineId liq), li_completedAt liq with
  | Some line, Some completedAt =>
      enqueue_all enqueued (wanting active "liquidation.completed" [cl_lenderId line; cl_borrowerId line])
        ("liquidation:" +:+ li_id liq) "liquidation.completed" completedAt
        (payloadFor "liquidation.completed" completedAt
           (JObj [("creditLineId", JStr (li_creditLineId liq)); ("units", JStr (li_units liq));
                  ("proceeds", opt_str (li_proceeds liq)); ("shortfall", opt_str (li_shortfall liq))]))
  | _, _ => Ret enqueued
  end.

Definition fan_liquidations (active : list Subscription) (enqueued : Z) : webhook_prog Z :=
  rows <- stmt (select liquidation (fun _ => true)) ;;
  let liquidations := List.filter (fun l => match li_proceeds l, li_completedAt l with
                                            | Some _, Some c => since <=? c | _, _ => false end) rows in
  match liquidations with
  | [] => Ret enqueued
  | _ => lines <- stmt (select creditLine (fun _ => true)) ;;
         fold (liquidation_step active lines) enqueued liquidations
  end.

Definition fill_step (active : list Subscription) (quotes : list exitQuote_row) (enqueued : Z)
    (fill : exitFill_row) : webhook_prog Z :=
  match by_id eq_id quotes (ef_quoteId fill) with
  | None => Ret enqueued
  | Some quote =>
      enqueue_all enqueued (wanting active "exit.filled" [eq_holderId quote])
        ("exit_fill:" +:+ ef_id fill) "exit.filled" (ef_createdAt fill)
        (payloadFor "exit.filled" (ef_createdAt fill)
           (JObj [("quoteId", JStr (ef_quoteId fill)); ("units", JStr (eq_units quote));
                  ("usdcOut", JStr (eq_usdcOut quote)); ("txHash", JStr (ef_txHash fill))]))
  end.

Definition fan_fills (active : list Subscription) (enqueued : Z) : webhook_prog Z :=
  rows <- stmt (select exitFill (fun _ => true)) ;;
  match List.filter (fun f => since <=? ef_createdAt f) rows with
  | [] => Ret enqueued
  | fills => quotes <- stmt (select exitQuote (fun _ => true)) ;;
             fold (fill_step active quotes) enqueued fills
  end.

Definition accept_step (active : list Subscription) (trades : list repoTrade_row) (enqueued : Z)
    (intent : txIntent_row) : webhook_prog Z :=
  let trade := if truthy_id (ti_refId intent) then by_id rt_id trades (default "" (ti_refId intent)) else None in
  match trade, ti_settledAt intent with
  | Some trade, Some settledAt =>
      enqueue_all enqueued (wanting active "repo.leg1_settled" [rt_cashLenderId trade; rt_cashBorrowerId trade])
        ("tx_intent:" +:+ ti_txHash intent) "repo.leg1_settled" settledAt
        (payloadFor "repo.leg1_settled" settledAt
           (JObj [("tradeId", JStr (rt_id trade)); ("units", JStr (rt_units trade));
                  ("cashAmount", JStr (rt_cashAmount trade)); ("maturityAt", JStr (toISOString (rt_maturityAt trade)));
                  ("txHash", JStr (ti_txHash intent))]))
  | _, _ => Ret enqueued
  end.

Definition fan_accepts (active : list Subscription) (enqueued : Z) : webhook_prog Z :=
  rows <- stmt (select txIntent (fun _ => true)) ;;
  match List.filter (fun i => eqs (ti_kind i) "repo.accept" && eqs (ti_status i) "settled" &&
                     match ti_settledAt i with Some t => since <=? t | None => false end) rows with
  | [] => Ret enqueued
  | accepts => trades <- stmt (select repoTrade (fun _ => true)) ;;
               fold (accept_step active trades) enqueued accepts
  end.

Definition fanOutRecentEvents : webhook_prog Z :=
  subs <- stmt (select webhookSubscription (fun _ => true)) ;;
  match List.filter ws_active subs with
  | [] => Ret 0
  | active =>
      n <- fan_margin active 0 ;;
      n <- fan_price active n ;;
      n <- fan_liquidations active n ;;
      n <- fan_fills active n ;;
      fan_accepts active n
  end.
End FanOut.

(** ** deliverDue *)
Record DeliverTally := Delivered { dt_delivered : Z; dt_retried : Z; dt_dead : Z }.

Definition set_failed (attempts : Z) (reason st : string) (next : Z) (r : webhookDelivery_row) : webhookDelivery_row :=
  WebhookDelivery (wd_id r) (wd_subscriptionId r) (wd_eventKey r) (wd_event r) (wd_payload r) st attempts
    next (Some reason) (wd_createdAt r) (wd_deliveredAt r).
Definition set_delivered (attempts now : Z) (r : webhookDelivery_row) : webhookDelivery_row :=
  WebhookDelivery (wd_id r) (wd_subscriptionId r) (wd_eventKey r) (wd_event r) (wd_payload r) "delivered"
    attempts (wd_nextAttemptAt r) None (wd_createdAt r) (Some now).

Section Deliver.
Context `{NodeLib} (now : Z) (secretKey : string) (allowHttp : bool).

Definition fail_delivery (delivery : webhookDelivery_row) (tally : DeliverTally) (reason : string)
    (permanent : bool) : webhook_prog DeliverTally :=
  let attempts := wd_attempts delivery + 1 in
  let dead := permanent || (MAX_ATTEMPTS <=? attempts) in
  stmt (update webhookDelivery (fun r => eqs (wd_id r) (wd_id delivery))
    (fun _ => set_failed attempts reason (if dead then "dead" else "pending") (now + backoff attempts * 1000))) ;;;
  emit "webhook delivery failed" ;;;
  Ret (if dead then Delivered (dt_delivered tally) (dt_retried tally) (dt_dead tally + 1)
       else Delivered (dt_delivered tally) (dt_retried tally + 1) (dt_dead tally)).

(** [res.ok]. *)
Definition res_ok (status : Z) : bool := (200 <=? status) && (status <=? 299).

Definition post_delivery (delivery : webhookDelivery_row) (sub : Subscription) : webhook_prog Z :=
  url <- assertSafeWebhookUrl (ws_url sub) allowHttp ;;
  let body := JSON_stringify (wd_payload delivery) in
  let timestampS := now / 1000 in
  secret <- lift (decryptSecret (ws_secretCiphertext sub) secretKey) ;;
  call (Fetch url
    [("content-type", "application/json"); ("x-ballast-event", wd_event delivery);
     ("x-ballast-delivery", wd_id delivery); ("x-ballast-signature", signWebhook secret timestampS body)] body).

Definition deliver_step (tally : DeliverTally) (delivery : webhookDelivery_row) : webhook_prog DeliverTally :=
  sub <- select_one webhookSubscription (fun s => eqs (ws_id s) (wd_subscriptionId delivery)) ;;
  match sub with
  | None => fail_delivery delivery tally "subscription missing or inactive" true
  | Some sub =>
      if negb (ws_active sub) then fail_delivery delivery tally "subscription missing or inactive" true
      else catch
        (status <- post_delivery delivery sub ;;
         if negb (res_ok status)
         then fail_delivery delivery tally ("subscriber responded " +:+ Z_to_string status) false
         else
           stmt (update webhookDelivery (fun r => eqs (wd_id r) (wd_id delivery))
             (fun _ => set_delivered (wd_attempts delivery + 1) now)) ;;;
           Ret (Delivered (dt_delivered tally + 1) (dt_retried tally) (dt_dead tally)))
        (fun err => fail_delivery delivery tally (exn_message err) false)
  end.

Definition deliverDue : webhook_prog DeliverTally :=
  due <- stmt (select webhookDelivery (fun r => eqs (wd_status r) "pending" && (wd_nextAttemptAt r <=? now))) ;;
  fold deliver_step (Delivered 0 0 0) (take BATCH_SIZE due).
End Deliver.
