(* ===== verification/WebhookFanOut.v ===== *)
(** What a fan-out of the webhook outbox guarantees: exactly the subscriptions a fact concerns are
    queued a delivery for it, once. *)
From S2P Require Import Prelude Prog Schema Rules Domain Intents Webhooks.

(** ** The facts subscribers are told of, and whom each concerns. *)
Record Fact := MkFact { f_key : string; f_event : string; f_at : Z; f_payload : jsval }.

(** [sub] is active, wants the fact's event, and existed when it happened. *)
Definition listens (d : Database) (sub : Subscription) (f : Fact) : Prop :=
  In sub (d webhookSubscription) /\ ws_active sub = true /\ wants sub (f_event f) = true /\ ws_createdAt sub <= f_at f.

(** The status of the last snapshot of an asset in a list of snapshots. *)
Definition last_status (l : list priceSnapshot_row) (a : string) : option string :=
  ps_status <$> List.find (fun s => eqs (ps_assetId s) a) (rev l).

Section Concerns.
Context (d : Database) (now : Z).

Definition recent (at_ : Z) : Prop := since now <= at_.

Definition margin_fact (me : marginEvent_row) (event : string) : Fact :=
  MkFact ("margin_event:" +:+ me_id me +:+ ":" +:+ event) event (me_createdAt me)
    (payloadFor event (me_createdAt me)
       (JObj [("creditLineId", JStr (me_creditLineId me)); ("fromState", JStr (me_fromState me));
              ("toState", JStr (me_toState me)); ("ltvBps", JNum (me_ltvBps me))])).

Definition price_fact (b : string) (snap : priceSnapshot_row) : Fact :=
  MkFact ("price_snapshot:" +:+ ps_id snap) "price.status_changed" (ps_createdAt snap)
    (payloadFor "price.status_changed" (ps_createdAt snap)
       (JObj [("assetId", JStr (ps_assetId snap)); ("fromStatus", JStr b);
              ("toStatus", JStr (ps_status snap)); ("value", JStr (ps_guardedValue snap))])).

Definition liquidation_fact (liq : liquidation_row) (completedAt : Z) : Fact :=
  MkFact ("liquidation:" +:+ li_id liq) "liquidation.completed" completedAt
    (payloadFor "liquidation.completed" completedAt
       (JObj [("creditLineId", JStr (li_creditLineId liq)); ("units", JStr (li_units liq));
              ("proceeds", opt_str (li_proceeds liq)); ("shortfall", opt_str (li_shortfall liq))])).

Definition fill_fact (fill : exitFill_row) (quote : exitQuote_row) : Fact :=
  MkFact ("exit_fill:" +:+ ef_id fill) "exit.filled" (ef_createdAt fill)
    (payloadFor "exit.filled" (ef_createdAt fill)
       (JObj [("quoteId", JStr (ef_quoteId fill)); ("units", JStr (eq_units quote));
              ("usdcOut", JStr (eq_usdcOut quote)); ("txHash", JStr (ef_txHash fill))])).

Definition leg1_fact (intent : txIntent_row) (trade : repoTrade_row) (settledAt : Z) : Fact :=
  MkFact ("tx_intent:" +:+ ti_txHash intent) "repo.leg1_settled" settledAt
    (payloadFor "repo.leg1_settled" settledAt
       (JObj [("tradeId", JStr (rt_id trade)); ("units", JStr (rt_units trade));
              ("cashAmount", JStr (rt_cashAmount trade)); ("maturityAt", JStr (toISOString (rt_maturityAt trade)));
              ("txHash", JStr (ti_txHash intent))])).

(** The books record [f], and it concerns party [p]; a price change concerns everyone. *)
Inductive concerns : Fact -> string -> Prop :=
| concerns_margin me line event p :
    In me (d marginEvent) -> recent (me_createdAt me) ->
    by_id cl_id (d creditLine) (me_creditLineId me) = Some line ->
    In event (eventsForMarginTransition (me_fromState me) (me_toState me)) ->
    In p [cl_lenderId line; cl_borrowerId line] -> concerns (margin_fact me event) p
| concerns_price before snap after b p :
    sort_asc ps_createdAt (d priceSnapshot) = before ++ snap :: after ->
    last_status before (ps_assetId snap) = Some b -> b <> ps_status snap ->
    recent (ps_createdAt snap) -> concerns (price_fact b snap) p
| concerns_liquidation liq line proceeds completedAt p :
    In liq (d liquidation) -> li_proceeds liq = Some proceeds -> li_completedAt liq = Some completedAt ->
    recent completedAt -> by_id cl_id (d creditLine) (li_creditLineId liq) = Some line ->
    In p [cl_lenderId line; cl_borrowerId line] -> concerns (liquidation_fact liq completedAt) p
| concerns_fill fill quote p :
    In fill (d exitFill) -> recent (ef_createdAt fill) ->
    by_id eq_id (d exitQuote) (ef_quoteId fill) = Some quote -> p = eq_holderId quote ->
    concerns (fill_fact fill quote) p
| concerns_leg1 intent trade refId settledAt p :
    In intent (d txIntent) -> ti_kind intent = "repo.accept" -> ti_status intent = "settled" ->
    ti_settledAt intent = Some settledAt -> recent settledAt ->
    ti_refId intent = Some refId -> refId <> "" -> by_id rt_id (d repoTrade) refId = Some trade ->
    In p [rt_cashLenderId trade; rt_cashBorrowerId trade] -> concerns (leg1_fact intent trade settledAt) p.
End Concerns.

(** ** Deliveries *)
(** [r] is the untried delivery of [f] to [sub], due at once. *)
Definition fresh_delivery (now : Z) (f : Fact) (sub : Subscription) (r : webhookDelivery_row) : Prop :=
  wd_subscriptionId r = ws_id sub /\ wd_eventKey r = f_key f /\ wd_event r = f_event f /\
  wd_payload r = f_payload f /\ wd_status r = "pending" /\ wd_attempts r = 0 /\
  wd_nextAttemptAt r = now /\ wd_lastError r = None /\ wd_deliveredAt r = None.

Definition queued (d : Database) (f : Fact) (sub : Subscription) : Prop :=
  exists r, In r (d webhookDelivery) /\ wd_subscriptionId r = ws_id sub /\ wd_eventKey r = f_key f.

Definition delivery_key (r : webhookDelivery_row) : string * string := (wd_subscriptionId r, wd_eventKey r).

Definition ids_unused (e : env WebhookCall) (w : webhook_world) : Prop :=
  forall n r, (w_tick w <= n)%nat -> In r (w_db w webhookDelivery) -> wd_id r <> st_uuid (stamps e n).

Definition uuids_distinct (e : env WebhookCall) : Prop :=
  forall n m, st_uuid (stamps e n) = st_uuid (stamps e m) -> n = m.

(** Only deliveries are added, each for a fact and a subscription in [P]; no key twice. *)
Definition added (now : Z) (P : Fact -> Subscription -> Prop) (d d' : Database) (new : list webhookDelivery_row) : Prop :=
  (forall t, t <> webhookDelivery -> d' t = d t) /\ d' webhookDelivery = d webhookDelivery ++ new /\
  Forall (fun r => exists f sub, P f sub /\ fresh_delivery now f sub r) new /\
  (NoDup (List.map delivery_key (d webhookDelivery)) -> NoDup (List.map delivery_key (d' webhookDelivery))).

Section Tells.
Context (e : env WebhookCall) (now : Z) (d0 : Database) (Hdistinct : uuids_distinct e).
Notation Adm := (stamped_by e).
Notation world := webhook_world.
Implicit Types w : world.

(** The books, as a scan sees them. *)
Definition books w : Prop := forall t, t <> webhookDelivery -> w_db w t = d0 t.

(** A scan that queues the deliveries of [P] and counts the new ones. *)
Definition tells (P : Fact -> Subscription -> Prop) (scan : Z -> webhook_prog Z) : Prop :=
  forall n w, books w -> ids_unused e w ->
  wp Adm (scan n) (fun r w' => ids_unused e w' /\ exists new, added now P (w_db w) (w_db w') new /\
    match r with
    | Ok n' => n' = n + Z.of_nat (List.length new) /\ forall f sub, P f sub -> queued (w_db w') f sub
    | Err _ => True
    end) w.

Lemma added_refl P d : added now P d d [].
Proof. split; [done|]. split; [by rewrite app_nil_r|]. split; [constructor|done]. Qed.

Lemma added_trans P d1 d2 d3 l1 l2 : added now P d1 d2 l1 -> added now P d2 d3 l2 -> added now P d1 d3 (l1 ++ l2).
Proof.
  intros (Ho & Hd & Hf & Hu) (Ho' & Hd' & Hf' & Hu'). split; [|split; [|split]].
  - intros t Ht. by rewrite Ho', Ho.
  - by rewrite Hd', Hd, app_assoc.
  - by apply Forall_app.
  - auto.
Qed.

Lemma added_mono (P P' : Fact -> Subscription -> Prop) d d' l :
  (forall f sub, P f sub -> P' f sub) -> added now P d d' l -> added now P' d d' l.
Proof.
  intros HP (Ho & Hd & Hf & Hu). split; [done|]. split; [done|]. split; [|done].
  eapply Forall_impl; [exact Hf|]. intros r (f & sub & H & Hr). eauto.
Qed.

Lemma queued_added P d d' l f sub : added now P d d' l -> queued d f sub -> queued d' f sub.
Proof. intros (_ & Hd & _) (r & Hr & H). exists r. rewrite Hd. split; [apply in_app_iff; by left|done]. Qed.

Lemma books_added P w w' l : added now P (w_db w) (w_db w') l -> books w -> books w'.
Proof. intros (Ho & _) Hb t Ht. rewrite Ho by done. by apply Hb. Qed.

Lemma ids_unused_tick w d : d webhookDelivery = w_db w webhookDelivery -> ids_unused e w -> ids_unused e (after w d).
Proof. intros Hd Hi n r Hn. simpl in Hn. change (w_db (after w d)) with d. rewrite Hd. apply Hi. lia. Qed.

Lemma tells_iff (P P' : Fact -> Subscription -> Prop) scan :
  (forall f sub, P f sub <-> P' f sub) -> tells P scan -> tells P' scan.
Proof.
  intros HP Ht n w Hb Hi. eapply wp_mono; [|by apply Ht].
  intros r w' [Hi' (new & Ha & Hr)]. split; [done|]. exists new. split; [eapply added_mono; [|done]; apply HP|].
  destruct r; [|done]. destruct Hr as [Hn Hq]. split; [done|]. intros f sub Hf. apply Hq. by apply HP.
Qed.

Lemma tells_nobody : tells (fun _ _ => False) Ret.
Proof.
  intros n w _ Hi. wp_step. split; [done|]. exists []. split; [apply added_refl|]. simpl. split; [lia|done].
Qed.

Lemma tells_seq P1 P2 scan1 scan2 :
  tells P1 scan1 -> tells P2 scan2 -> tells (fun f sub => P1 f sub \/ P2 f sub) (fun n => bind (scan1 n) scan2).
Proof.
  intros H1 H2 n w Hb Hi. wp_step. eapply wp_mono; [|by apply H1].
  intros r w1 [Hi1 (l1 & Ha1 & Hr1)].
  assert (Ha1' : added now (fun f sub => P1 f sub \/ P2 f sub) (w_db w) (w_db w1) l1) by (eapply added_mono; [|done]; auto).
  destruct r as [n1|x]; [|by eauto]. destruct Hr1 as [-> Hq1].
  eapply wp_mono; [|by apply H2; [eapply books_added|]].
  intros r w2 [Hi2 (l2 & Ha2 & Hr2)]. split; [done|]. exists (l1 ++ l2).
  split; [eapply added_trans; [done|]; eapply added_mono; [|done]; auto|].
  destruct r as [n2|x]; [|done]. destruct Hr2 as [-> Hq2]. split; [rewrite length_app; lia|].
  intros f sub [Hf|Hf]; [|auto]. eapply queued_added; [done|]. auto.
Qed.

Lemma tells_fold {A} (P : A -> Fact -> Subscription -> Prop) (body : Z -> A -> webhook_prog Z) l :
  (forall x, tells (P x) (fun n => body n x)) ->
  tells (fun f sub => exists x, In x l /\ P x f sub) (fun n => fold body n l).
Proof.
  intros Hb. induction l as [|x l IH].
  - eapply tells_iff; [|exact tells_nobody]. intros f sub. split; [done|by intros (x & [] & _)].
  - eapply tells_iff; [|exact (tells_seq _ _ _ _ (Hb x) IH)]. intros f sub. simpl. split.
    + intros [H|(y & Hy & H)]; eauto.
    + intros (y & [->|Hy] & H); [by left|right; eauto].
Qed.

(** A scan that reads the books first. *)
Lemma tells_select {t} (Ht : t <> webhookDelivery) (P : Fact -> Subscription -> Prop) (k : list (row t) -> Z -> webhook_prog Z) :
  tells P (k (d0 t)) -> tells P (fun n => rows <- stmt (select t (fun _ => true)) ;; k rows n).
Proof.
  intros Hk n w Hb Hi. wp_step.
  assert (Hi' : ids_unused e (tick w)) by (apply (ids_unused_tick w (w_db w)); done).
  apply wp_select.
  - intros x. split; [done|]. exists []. split; [apply added_refl|done].
  - assert (List.filter (fun _ => true) (w_db w t) = d0 t) as ->.
    { rewrite (Hb t Ht). apply filter_true. }
    by apply (Hk n (tick w)).
Qed.

(** *** One delivery, and one per subscription *)
Definition fact_enqueue (f : Fact) (n : Z) (sub : Subscription) : webhook_prog Z :=
  enqueue now n sub (f_key f) (f_event f) (f_at f) (f_payload f).

Lemma tells_enqueue f sub :
  tells (fun f' sub' => (f' = f /\ sub' = sub) /\ ws_createdAt sub <= f_at f) (fun n => fact_enqueue f n sub).
Proof.
  intros n w Hb Hi. unfold fact_enqueue, enqueue. destruct (Z.ltb_spec (f_at f) (ws_createdAt sub)) as [Hlt|Hge].
  { wp_step. split; [done|]. exists []. split; [apply added_refl|]. simpl. split; [lia|]. intros f' sub'. lia. }
  wp_step. apply wp_stmt_op. split; [|intros s Hs].
  { intros x. split; [by apply (ids_unused_tick w (w_db w))|]. exists []. split; [apply added_refl|done]. }
  simpl in Hs. subst s. unfold insert_ignore. set (r := WebhookDelivery _ _ _ _ _ _ _ _ _ _ _).
  assert (Hnone : ids_unused e (tick w) /\ exists new, added now (fun f' sub' => (f' = f /\ sub' = sub) /\ ws_createdAt sub <= f_at f) (w_db w) (w_db w) new /\ True).
  { split; [by apply (ids_unused_tick w (w_db w))|]. exists []. split; [apply added_refl|done]. }
  change (in_range webhookDelivery r) with true. cbn [negb]. destruct (conflicts webhookDelivery r (w_db w)) eqn:Ec.
  { split; [|intros x _; exact Hnone]. wp_step. split; [apply Hnone|]. exists []. split; [apply added_refl|]. simpl.
    split; [lia|]. intros f' sub' [[-> ->] _]. apply existsb_exists in Ec as (r' & Hr' & Hc). exists r'. split; [done|].
    cbn [conflict] in Hc. apply orb_true_iff in Hc as [Hc|Hc].
    - apply bool_decide_eq_true in Hc. exfalso. apply (Hi (w_tick w) r'); [lia|done|by rewrite <- Hc].
    - apply andb_true_iff in Hc as [H1%bool_decide_eq_true H2%bool_decide_eq_true]. by rewrite <- H1, <- H2. }
  destruct (references_ok (w_db w) webhookDelivery r) eqn:Er; cbn [negb]; [|exact Hnone].
  assert (Ha : added now (fun f' sub' => (f' = f /\ sub' = sub) /\ ws_createdAt sub <= f_at f) (w_db w)
                 (set_table webhookDelivery (w_db w webhookDelivery ++ [r]) (w_db w)) [r]).
  { split; [intros t Ht; by rewrite set_table_other|]. rewrite set_table_same. split; [done|]. split.
    - constructor; [|constructor]. exists f, sub. done.
    - intros Hnd. rewrite List.map_app. apply NoDup_app. split; [done|]. split; [|by apply NoDup_singleton].
      intros k Hk%list_elem_of_In ->%list_elem_of_singleton. apply in_map_iff in Hk as (r' & Hk & Hr').
      apply not_true_iff_false in Ec. apply Ec, existsb_exists. exists r'. split; [done|].
      injection Hk as H1 H2. cbn [conflict]. apply orb_true_iff. right. apply andb_true_iff.
      by split; apply bool_decide_eq_true. }
  assert (Hi' : ids_unused e (tick (with_db w (set_table webhookDelivery (w_db w webhookDelivery ++ [r]) (w_db w))))).
  { intros m r' Hm Hr'. simpl in Hm, Hr'. rewrite set_table_same in Hr'. apply in_app_iff in Hr' as [Hr'|[<-|[]]].
    - apply Hi; [lia|done].
    - simpl. intros E%Hdistinct. lia. }
  split; [|intros x _; split; [done|by exists [r]]]. wp_step. split; [done|]. exists [r]. split; [done|].
  split; [done|]. intros f' sub' [[-> ->] _]. exists r. simpl. rewrite set_table_same. split; [apply in_app_iff; right; by left|done].
Qed.

Lemma tells_enqueue_all f subs :
  tells (fun f' sub => f' = f /\ In sub subs /\ ws_createdAt sub <= f_at f)
    (fun n => enqueue_all now n subs (f_key f) (f_event f) (f_at f) (f_payload f)).
Proof.
  eapply tells_iff; [|exact (tells_fold _ (fact_enqueue f) subs (tells_enqueue f))].
  intros f' sub. split.
  - intros (x & Hx & (-> & ->) & H). done.
  - intros (-> & Hs & H). eauto.
Qed.

Definition active_subs : list Subscription := List.filter ws_active (d0 webhookSubscription).

Lemma In_active sub : In sub active_subs <-> In sub (d0 webhookSubscription) /\ ws_active sub = true.
Proof. apply filter_In. Qed.

Lemma In_wanting sub event parties :
  In sub (wanting active_subs event parties) <->
  In sub (d0 webhookSubscription) /\ ws_active sub = true /\ wants sub event = true /\ In (ws_partyId sub) parties.
Proof.
  unfold wanting. rewrite filter_In, In_active, andb_true_iff. unfold among_parties. rewrite existsb_exists.
  split.
  - intros ([H1 H2] & (p & Hp & Heq) & Hw). apply bool_decide_eq_true in Heq as <-. done.
  - intros (H1 & H2 & H3 & H4). split; [done|]. split; [|done]. exists (ws_partyId sub). split; [done|].
    by apply bool_decide_eq_true.
Qed.

(** A fact told to the listening subscriptions among some parties. *)
Lemma tells_wanting f parties :
  tells (fun f' sub => f' = f /\ In (ws_partyId sub) parties /\ listens d0 sub f)
    (fun n => enqueue_all now n (wanting active_subs (f_event f) parties) (f_key f) (f_event f) (f_at f) (f_payload f)).
Proof.
  eapply tells_iff; [|apply tells_enqueue_all]. intros f' sub. cbn beta. rewrite In_wanting. unfold listens. naive_solver.
Qed.

(** *** The five scans *)
(** [f] concerns [sub] by a record [x] of the list scanned, as [Told x] says. *)
Definition told (Told : Fact -> string -> Prop) (f : Fact) (sub : Subscription) : Prop :=
  Told f (ws_partyId sub) /\ listens d0 sub f.

Lemma tells_told_nobody (Told : Fact -> string -> Prop) :
  (forall f p, ~ Told f p) -> tells (told Told) Ret.
Proof. intros Hno. eapply tells_iff; [|exact tells_nobody]. intros f sub. split; [done|]. intros [H _]. by apply Hno in H. Qed.

Lemma tells_told_fold {A} (Told : A -> Fact -> string -> Prop) (body : Z -> A -> webhook_prog Z) l :
  (forall x, tells (told (Told x)) (fun n => body n x)) ->
  tells (told (fun f p => exists x, In x l /\ Told x f p)) (fun n => fold body n l).
Proof.
  intros Hb. eapply tells_iff; [|exact (tells_fold _ body l Hb)]. intros f sub. unfold told. naive_solver.
Qed.

Lemma tells_told_wanting f parties :
  tells (told (fun f' p => f' = f /\ In p parties))
    (fun n => enqueue_all now n (wanting active_subs (f_event f) parties) (f_key f) (f_event f) (f_at f) (f_payload f)).
Proof. eapply tells_iff; [|apply tells_wanting]. intros f' sub. unfold told. naive_solver. Qed.

Lemma tells_margin :
  tells (told (fun f p => exists me, In me (List.filter (fun e => since now <=? me_createdAt e) (d0 marginEvent)) /\
      exists line, by_id cl_id (d0 creditLine) (me_creditLineId me) = Some line /\
      exists event, In event (eventsForMarginTransition (me_fromState me) (me_toState me)) /\
        f = margin_fact me event /\ In p [cl_lenderId line; cl_borrowerId line]))
    (fan_margin now active_subs).
Proof.
  unfold fan_margin. apply (@tells_select marginEvent); [done|]. cbv zeta. cbn [row].
  destruct (List.filter _ _) as [|me0 mes]; [apply tells_told_nobody; naive_solver|].
  apply (@tells_select creditLine); [done|]. cbn [row].
  apply (tells_told_fold (fun me f p => exists line, by_id cl_id (d0 creditLine) (me_creditLineId me) = Some line /\
      exists event, In event (eventsForMarginTransition (me_fromState me) (me_toState me)) /\
        f = margin_fact me event /\ In p [cl_lenderId line; cl_borrowerId line])). intros me.
  unfold margin_event_step. destruct (by_id _ _ _) as [line|]; [|apply tells_told_nobody; naive_solver].
  eapply tells_iff; [|apply (tells_told_fold (fun event f p => f = margin_fact me event /\ In p [cl_lenderId line; cl_borrowerId line]))].
  - intros f sub. unfold told. naive_solver.
  - intros event. apply (tells_told_wanting (margin_fact me event)).
Qed.

Lemma tells_liquidations :
  tells (told (fun f p => exists liq, In liq (d0 liquidation) /\ exists proceeds completedAt,
      li_proceeds liq = Some proceeds /\ li_completedAt liq = Some completedAt /\ since now <= completedAt /\
      exists line, by_id cl_id (d0 creditLine) (li_creditLineId liq) = Some line /\
        f = liquidation_fact liq completedAt /\ In p [cl_lenderId line; cl_borrowerId line]))
    (fan_liquidations now active_subs).
Proof.
  unfold fan_liquidations. apply (@tells_select liquidation); [done|]. cbv zeta. cbn [row].
  assert (Hin : forall liq, In liq (List.filter (fun l => match li_proceeds l, li_completedAt l with
      | Some _, Some c => since now <=? c | _, _ => false end) (d0 liquidation)) <->
    In liq (d0 liquidation) /\ exists proceeds completedAt, li_proceeds liq = Some proceeds /\
      li_completedAt liq = Some completedAt /\ since now <= completedAt).
  { intros liq. rewrite filter_In. destruct (li_proceeds liq), (li_completedAt liq); [|naive_solver..].
    rewrite Z.leb_le. naive_solver. }
  destruct (List.filter _ _) as [|l0 ls].
  { apply tells_told_nobody. intros f p (liq & Hl & pr & c & H1 & H2 & H3 & _). apply (Hin liq). naive_solver. }
  apply (@tells_select creditLine); [done|]. cbn [row].
  eapply tells_iff; [|apply (tells_told_fold (fun liq f p => exists c, li_completedAt liq = Some c /\ exists line,
    by_id cl_id (d0 creditLine) (li_creditLineId liq) = Some line /\
    f = liquidation_fact liq c /\ In p [cl_lenderId line; cl_borrowerId line]))].
  - intros f sub. unfold told. split.
    + intros [(liq & [Hl (pr & c & H1 & H2 & H3)]%Hin & c' & H2' & line & H) Hs]. simplify_eq/=. eauto 15.
    + intros [(liq & Hl & pr & c & H1 & H2 & H3 & line & H) Hs]. split; [|done]. exists liq. rewrite Hin. eauto 15.
  - intros liq. unfold liquidation_step.
    destruct (by_id _ _ _) as [line|], (li_completedAt liq) as [c|]; try (apply tells_told_nobody; naive_solver).
    eapply tells_iff; [|apply (tells_told_wanting (liquidation_fact liq c))]. intros f sub. unfold told. naive_solver.
Qed.

Lemma tells_fills :
  tells (told (fun f p => exists fill, In fill (List.filter (fun f => since now <=? ef_createdAt f) (d0 exitFill)) /\
      exists quote, by_id eq_id (d0 exitQuote) (ef_quoteId fill) = Some quote /\
        f = fill_fact fill quote /\ In p [eq_holderId quote]))
    (fan_fills now active_subs).
Proof.
  unfold fan_fills. apply (@tells_select exitFill); [done|]. cbn [row].
  destruct (List.filter _ _) as [|f0 fs]; [apply tells_told_nobody; naive_solver|].
  apply (@tells_select exitQuote); [done|]. cbn [row].
  apply (tells_told_fold (fun fill f p => exists quote, by_id eq_id (d0 exitQuote) (ef_quoteId fill) = Some quote /\
        f = fill_fact fill quote /\ In p [eq_holderId quote])). intros fill.
  unfold fill_step. destruct (by_id _ _ _) as [quote|]; [|apply tells_told_nobody; naive_solver].
  eapply tells_iff; [|apply (tells_told_wanting (fill_fact fill quote))]. intros f sub. unfold told. naive_solver.
Qed.

Definition accepted (i : txIntent_row) : bool :=
  eqs (ti_kind i) "repo.accept" && eqs (ti_status i) "settled" &&
  match ti_settledAt i with Some t => since now <=? t | None => false end.

Lemma accepted_true i : accepted i = true <-> ti_kind i = "repo.accept" /\ ti_status i = "settled" /\
  exists t, ti_settledAt i = Some t /\ since now <= t.
Proof.
  unfold accepted, eqs. rewrite !andb_true_iff, !bool_decide_eq_true.
  destruct (ti_settledAt i) as [t|]; [rewrite Z.leb_le|]; naive_solver.
Qed.

Lemma tells_accepts :
  tells (told (fun f p => exists i, In i (List.filter accepted (d0 txIntent)) /\ exists refId t,
      ti_refId i = Some refId /\ refId <> "" /\ ti_settledAt i = Some t /\
      exists trade, by_id rt_id (d0 repoTrade) refId = Some trade /\
        f = leg1_fact i trade t /\ In p [rt_cashLenderId trade; rt_cashBorrowerId trade]))
    (fan_accepts now active_subs).
Proof.
  unfold fan_accepts. apply (@tells_select txIntent); [done|]. fold accepted. cbn [row].
  destruct (List.filter _ _) as [|i0 is_]; [apply tells_told_nobody; naive_solver|].
  apply (@tells_select repoTrade); [done|]. cbn [row].
  apply (tells_told_fold (fun i f p => exists refId t, ti_refId i = Some refId /\ refId <> "" /\ ti_settledAt i = Some t /\
      exists trade, by_id rt_id (d0 repoTrade) refId = Some trade /\
        f = leg1_fact i trade t /\ In p [rt_cashLenderId trade; rt_cashBorrowerId trade])). intros i.
  unfold accept_step, truthy_id, eqs. destruct (ti_refId i) as [refId|]; [|apply tells_told_nobody; naive_solver].
  case_bool_decide; cbn [negb from_option id]; [apply tells_told_nobody; naive_solver|].
  destruct (by_id rt_id (d0 repoTrade) refId) as [trade|] eqn:Et, (ti_settledAt i) as [t|]; try (apply tells_told_nobody; naive_solver).
  eapply tells_iff; [|apply (tells_told_wanting (leg1_fact i trade t))]. intros f sub. unfold told. naive_solver.
Qed.

(** The price scan keeps the last status of every asset it has passed. *)
Lemma last_status_snoc l s a :
  last_status (l ++ [s]) a = if bool_decide (a = ps_assetId s) then Some (ps_status s) else last_status l a.
Proof.
  unfold last_status. rewrite rev_app_distr. simpl. unfold eqs.
  destruct (decide (a = ps_assetId s)) as [->|Hne]; [by rewrite !bool_decide_true|].
  rewrite !bool_decide_false; [done|done|]. congruence.
Qed.

(** A status change among [snaps], read after [passed]. *)
Definition change_after (passed snaps : list priceSnapshot_row) (f : Fact) : Prop :=
  exists before snap after b, snaps = before ++ snap :: after /\
    last_status (passed ++ before) (ps_assetId snap) = Some b /\ b <> ps_status snap /\
    since now <= ps_createdAt snap /\ f = price_fact b snap.

Definition change_at (passed : list priceSnapshot_row) (snap : priceSnapshot_row) (f : Fact) : Prop :=
  exists b, last_status passed (ps_assetId snap) = Some b /\ b <> ps_status snap /\
    since now <= ps_createdAt snap /\ f = price_fact b snap.

Lemma change_after_cons passed snap snaps f :
  change_after passed (snap :: snaps) f <-> change_at passed snap f \/ change_after (passed ++ [snap]) snaps f.
Proof.
  split.
  - intros (before & s & after & b & E & H). destruct before as [|s0 before]; injection E as -> ->.
    + left. exists b. by rewrite app_nil_r in H.
    + right. exists before, s, after, b. split; [done|]. by rewrite <- app_assoc.
  - intros [(b & H)|(before & s & after & b & -> & H)].
    + exists [], snap, snaps, b. by rewrite app_nil_r.
    + exists (snap :: before), s, after, b. split; [done|]. by rewrite <- app_assoc in H.
Qed.

Definition price_subs : list Subscription := List.filter (fun s => wants s "price.status_changed") active_subs.

Lemma tells_price_enqueue b snap :
  tells (told (fun f _ => f = price_fact b snap))
    (fun n => enqueue_all now n price_subs ("price_snapshot:" +:+ ps_id snap) "price.status_changed"
               (ps_createdAt snap) (f_payload (price_fact b snap))).
Proof.
  eapply tells_iff; [|apply (tells_enqueue_all (price_fact b snap) price_subs)].
  intros f sub. unfold told, listens, price_subs. rewrite filter_In, In_active. naive_solver.
Qed.

Lemma tells_bind_assoc {A B} P (scan : Z -> webhook_prog A) (f : A -> webhook_prog B) (g : B -> webhook_prog Z) :
  tells P (fun n => bind (scan n) (fun n => bind (f n) g)) -> tells P (fun n => bind (bind (scan n) f) g).
Proof. intros Ht n w Hb Hi. apply wp_bind_assoc. by apply Ht. Qed.

Lemma tells_price_loop snaps passed prev :
  (forall a, assoc a prev = last_status passed a) ->
  tells (told (fun f _ => change_after passed snaps f))
    (fun n => res <- fold (price_step now price_subs) (n, prev) snaps ;; Ret (fst res)).
Proof.
  revert passed prev. induction snaps as [|snap snaps IH]; intros passed prev Hprev; cbn [fold].
  { apply tells_told_nobody. intros f _ (before & s & after & b & E & _). by destruct before. }
  set (prev' := (ps_assetId snap, ps_status snap) :: prev).
  assert (Hprev' : forall a, assoc a prev' = last_status (passed ++ [snap]) a).
  { intros a. rewrite last_status_snoc. subst prev'. cbn [assoc]. by case_bool_decide. }
  specialize (IH _ _ Hprev'). unfold price_step at 1. fold prev'. rewrite Hprev.
  assert (Hskip : (forall f, ~ change_at passed snap f) ->
    tells (told (fun f _ => change_after passed (snap :: snaps) f))
      (fun n => res <- fold (price_step now price_subs) (n, prev') snaps ;; Ret (fst res))).
  { intros Hno. eapply tells_iff; [|exact IH]. intros f sub. unfold told. rewrite change_after_cons. naive_solver. }
  unfold change_at in Hskip. destruct (last_status passed (ps_assetId snap)) as [b|] eqn:El; [|apply Hskip; naive_solver].
  unfold eqs. case_bool_decide as Hb; cbn [orb]; [apply Hskip; naive_solver|].
  destruct (Z.ltb_spec (ps_createdAt snap) (since now)) as [Hlt|Hge]; [apply Hskip; intros f (b' & H); lia|].
  eapply tells_iff; [|apply (tells_bind_assoc (A := Z * list (string * string))), (tells_bind_assoc (A := Z));
    exact (tells_seq _ _ _ _ (tells_price_enqueue b snap) IH)].
  intros f sub. unfold told. rewrite change_after_cons. unfold change_at. split.
  - intros [[-> Hs]|[H Hs]]; (split; [|done]); [left; by exists b|by right].
  - intros [[(b' & H1 & H2 & H3 & H4)|H] Hs]; [left; simplify_eq/=; by split|by right].
Qed.

Lemma tells_price : tells (told (fun f _ => change_after [] (sort_asc ps_createdAt (d0 priceSnapshot)) f)) (fan_price now active_subs).
Proof.
  unfold fan_price. fold price_subs. destruct price_subs as [|s0 ss] eqn:Es.
  { eapply tells_iff; [|exact tells_nobody]. intros f sub. split; [done|]. intros [(b1 & s & b2 & b & _ & _ & _ & _ & ->) (H1 & H2 & H3 & _)].
    assert (In sub price_subs) as Hin by (unfold price_subs; rewrite filter_In, In_active; done). by rewrite Es in Hin. }
  apply (@tells_select priceSnapshot); [done|]. rewrite <- Es. cbn [row]. by apply tells_price_loop.
Qed.

(** All five: the facts of the last day, and whom they concern. *)
Lemma tells_fan_out :
  tells (told (concerns d0 now)) (fun n => n <- fan_margin now active_subs n ;; n <- fan_price now active_subs n ;;
    n <- fan_liquidations now active_subs n ;; n <- fan_fills now active_subs n ;; fan_accepts now active_subs n).
Proof.
  eapply tells_iff; [|exact (tells_seq _ _ _ _ tells_margin (tells_seq _ _ _ _ tells_price
    (tells_seq _ _ _ _ tells_liquidations (tells_seq _ _ _ _ tells_fills tells_accepts))))].
  intros f sub. unfold told. split.
  - intros [[H Hs]|[[H Hs]|[[H Hs]|[[H Hs]|[H Hs]]]]]; (split; [|exact Hs]).
    + destruct H as (me & [Hm Hr%Z.leb_le]%filter_In & line & Hl & event & He & -> & Hp). by eapply concerns_margin.
    + destruct H as (b1 & s & b2 & b & H1 & H2 & H3 & H4 & ->). by eapply concerns_price.
    + destruct H as (liq & Hl & pr & c & H1 & H2 & H3 & line & H4 & -> & Hp). by eapply concerns_liquidation.
    + destruct H as (fill & [Hm Hr%Z.leb_le]%filter_In & quote & Hq & -> & [<-|[]]). by eapply concerns_fill.
    + destruct H as (i & [Hm (Hk & Hst & t' & Ht & Hr)%accepted_true]%filter_In & refId & t & H1 & H2 & H3 & trade & H4 & -> & Hp).
      simplify_eq. by eapply concerns_leg1.
  - intros [H Hs]. destruct H.
    + left. split; [|done]. exists me. rewrite filter_In, Z.leb_le. eauto 10.
    + right. left. split; [|done]. unfold change_after. eauto 12.
    + do 2 right. left. split; [|done]. eauto 15.
    + do 3 right. left. split; [|done]. exists fill. rewrite filter_In, Z.leb_le. subst. split; [done|].
      exists quote. split; [done|]. split; [done|]. by left.
    + do 4 right. split; [|done]. exists intent. rewrite filter_In, accepted_true. eauto 15.
Qed.
End Tells.

(** C30. A fan-out over books [d] only adds deliveries: every one is an untried delivery, due at
    once, of a fact the books record in the last day to an active subscription that wants the event,
    belongs to a party the fact concerns and existed when it happened; no (subscription, event) pair
    is queued twice; and a fan-out that returns counts the deliveries it added and leaves every such
    fact queued for every such subscription. *)
Theorem fan_out_tells_exactly_the_concerned (e : env WebhookCall) (now : Z) (d : Database) (w := World d 0 [])
    (Hdistinct : uuids_distinct e) (Hunused : ids_unused e w) :
  let '(r, w') := run e (fanOutRecentEvents now) w in
  exists new,
    added now (fun f sub => concerns d now f (ws_partyId sub) /\ listens d sub f) d (w_db w') new /\
    forall n, r = Ok n -> n = Z.of_nat (List.length new) /\
      forall f sub, concerns d now f (ws_partyId sub) -> listens d sub f -> queued (w_db w') f sub.
Proof.
  pose (Q := fun r (w' : webhook_world) => exists new,
    added now (told d (concerns d now)) d (w_db w') new /\
    match r with Ok n => n = Z.of_nat (List.length new) /\ forall f sub, told d (concerns d now) f sub -> queued (w_db w') f sub
               | Err _ => True end).
  assert (Hwp : wp (stamped_by e) (fanOutRecentEvents now) Q w).
  { unfold fanOutRecentEvents. wp_step. wp_step.
    { intros x. exists []. split; [apply added_refl|done]. }
    rewrite filter_true. change (List.filter ws_active (w_db w webhookSubscription)) with (active_subs d).
    destruct (active_subs d) as [|a0 as_] eqn:Ea.
    { wp_step. exists []. split; [apply added_refl|]. split; [done|]. intros f sub [_ (H1 & H2 & _)].
      assert (In sub (active_subs d)) as Hin by (by apply In_active). by rewrite Ea in Hin. }
    rewrite <- Ea. eapply wp_mono; [|apply (tells_fan_out e now d Hdistinct 0 (tick w)); [done|]].
    - intros r w' [_ (new & Ha & Hr)]. exists new. split; [exact Ha|]. destruct r; [|done].
      destruct Hr as [-> Hr]. split; [lia|done].
    - intros n r Hn. apply Hunused. simpl in *. lia. }
  pose proof (wp_sound (stamped_by e) e _ _ _ (stamped_by_respects e) Hwp) as H.
  destruct (run e _ _) as [r w']. destruct H as (new & Ha & Hr). exists new. split; [exact Ha|].
  intros n ->. destruct Hr as [-> Hr]. split; [done|]. intros f sub H1 H2. by apply Hr.
Qed.

(** ** A concrete fan-out: a margin call on a line, one subscription of each party, one of which
    wants margin calls. *)
Definition sample_books : Database :=
  set_table webhookSubscription
    [WebhookSubscription "s1" "lender" "https://l.example" (JArr [JStr "margin.call_issued"]) "c" true 0;
     WebhookSubscription "s2" "borrower" "https://b.example" (JArr [JStr "exit.filled"]) "c" true 0]
  (set_table marginEvent [MarginEvent "m1" "line" "Warning" "MarginCall" 8000 None 1000]
  (set_table creditLine [CreditLine "line" "lender" "borrower" "USDC" "1000" 500 100 3600 "active" None None 0 None]
   empty_db)).

Definition silent_webhook (X : Type) (n : nat) (c : WebhookCall X) : outcome X := Err (Error "offline").
Definition sample_webhook_env : env WebhookCall :=
  Env silent_webhook (fun _ => NoFault) (fun n => Stamp 2000 (pretty (N.of_nat n))).

Lemma sample_uuids_distinct : uuids_distinct sample_webhook_env.
Proof. intros n m E. simpl in E. apply (inj pretty) in E. lia. Qed.

Lemma fan_out_tells_exactly_the_concerned_witness :
  let '(r, w') := run sample_webhook_env (fanOutRecentEvents 2000) (World sample_books 0 []) in
  exists new,
    added 2000 (fun f sub => concerns sample_books 2000 f (ws_partyId sub) /\ listens sample_books sub f) sample_books (w_db w') new /\
    forall n, r = Ok n -> n = Z.of_nat (List.length new) /\
      forall f sub, concerns sample_books 2000 f (ws_partyId sub) -> listens sample_books sub f -> queued (w_db w') f sub.
Proof.
  apply (fan_out_tells_exactly_the_concerned sample_webhook_env 2000 sample_books).
  - exact sample_uuids_distinct.
  - intros n r _ [].
Defined.

Example sample_fan_out :
  let '(r, w) := run sample_webhook_env (fanOutRecentEvents 2000) (World sample_books 0 []) in
  r = Ok 1 /\ List.map delivery_key (w_db w webhookDelivery) = [("s1", "margin_event:m1:margin.call_issued")].
Proof. vm_compute. auto. Qed.
