(* ===== verification/WebhookDeliver.v ===== *)
(** What a delivery round of the webhook outbox guarantees: how each due delivery ends, that nothing
    is posted to an address the URL check did not approve, and that a subscriber can verify what it
    receives. *)
From S2P Require Import Prelude Prog Schema Rules Domain Intents Webhooks.

Notation webhook_entry := (entry WebhookCall string).

(** ** Addresses *)
(** An IP address: four octets, or eight groups of sixteen bits. *)
Inductive address := V4 (a b c d : Z) | V6 (groups : list Z).

Definition octet (n : Z) : Prop := 0 <= n < 256.
Definition group (g : Z) : Prop := 0 <= g < 65536.

Definition dotted (a b c d : Z) : string := join "." (List.map Z_to_string [a; b; c; d]).
(** A group in lower-case hexadecimal, without leading zeros. *)
Definition hex_group (g : Z) : string :=
  list_to_string (List.map hex_digit (drop (if g <? 16 then 3 else if g <? 256 then 2 else if g <? 4096 then 1 else 0)
    [g / 4096; g / 256 mod 16; g / 16 mod 16; g mod 16])).
Definition hex_text (gs : list Z) : string := join ":" (List.map hex_group gs).

Definition zero_run (k : nat) (gs : list Z) : Prop := exists l r, gs = l ++ replicate k 0 ++ r.

(** The text of an address as URLs and resolvers print it: dotted; in groups, the longest run of zeros left
    out; an IPv4 address mapped into IPv6, its four octets dotted. *)
Inductive writes : string -> address -> Prop :=
| Dotted a b c d : Forall octet [a; b; c; d] -> writes (dotted a b c d) (V4 a b c d)
| MappedDotted a b c d : Forall octet [a; b; c; d] -> writes ("::ffff:" +:+ dotted a b c d) (V4 a b c d)
| InFull gs : Forall group gs -> List.length gs = 8%nat -> ~ zero_run 2 gs -> writes (hex_text gs) (V6 gs)
| Compressed pre k post : Forall group (pre ++ post) -> (List.length pre + k + List.length post = 8)%nat -> (2 <= k)%nat ->
    ~ zero_run (S k) (pre ++ replicate k 0 ++ post) ->
    writes (hex_text pre +:+ "::" +:+ hex_text post) (V6 (pre ++ replicate k 0 ++ post)).

(** Address blocks that are not for the public network: of IPv4, this network, private use, shared (carrier)
    use, loopback, link-local, protocol assignments, benchmarking, multicast and the reserved rest; of IPv6,
    unspecified, loopback, unique local, link-local and multicast. *)
Definition value (radix : Z) (parts : list Z) : Z := foldl (fun v p => v * radix + p) 0 parts.
Definition in_block (bits v base length : Z) : Prop := v / 2 ^ (bits - length) = base / 2 ^ (bits - length).
Definition special_v4 : list (list Z * Z) :=
  [([0; 0; 0; 0], 8); ([10; 0; 0; 0], 8); ([172; 16; 0; 0], 12); ([192; 168; 0; 0], 16); ([100; 64; 0; 0], 10); ([127; 0; 0; 0], 8);
   ([169; 254; 0; 0], 16); ([192; 0; 0; 0], 24); ([198; 18; 0; 0], 15); ([224; 0; 0; 0], 4); ([240; 0; 0; 0], 4)].
Definition special_v6 : list (list Z * Z) :=
  [([0; 0; 0; 0; 0; 0; 0; 0], 128); ([0; 0; 0; 0; 0; 0; 0; 1], 128); ([64512; 0; 0; 0; 0; 0; 0; 0], 7);
   ([65152; 0; 0; 0; 0; 0; 0; 0], 10); ([65280; 0; 0; 0; 0; 0; 0; 0], 8)].
Definition public_ip (addr : address) : Prop :=
  match addr with
  | V4 a b c d => Forall (fun '(base, length) => ~ in_block 32 (value 256 [a; b; c; d]) (value 256 base) length) special_v4
  | V6 gs => Forall (fun '(base, length) => ~ in_block 128 (value 65536 gs) (value 65536 base) length) special_v6
  end.

(** Node's [isIP] knows both kinds of address. *)
Definition knows_addresses `{NodeLib} : Prop := forall text addr, writes text addr ->
  isIP text = match addr with V4 a b c d => if bool_decide (text = dotted a b c d) then 4 else 6 | V6 _ => 6 end.

(** *** The check on IPv4 *)
Lemma split_dotted a b c d : Forall octet [a; b; c; d] ->
  split_on "." (dotted a b c d) = List.map Z_to_string [a; b; c; d].
Proof.
  intros Ho. apply split_join; [done|]. apply List.Forall_map. eapply Forall_impl; [exact Ho|].
  intros n [Hn _]. destruct (Z_to_string_nonneg n Hn) as (_ & Hd & _). unfold lacks. eapply string_forall_impl; [|exact Hd].
  intros x Hx. rewrite bool_decide_false; [done|]. by intros ->.
Qed.

Lemma Number_octet n : octet n -> Number (Z_to_string n) = Some n.
Proof.
  intros [Hn _]. destruct (Z_to_string_nonneg n Hn) as (Hne & _ & Hr). unfold Number, eqs. by rewrite bool_decide_false.
Qed.

Lemma div_interval u n k : 0 < n -> u / n = k -> n * k <= u < n * k + n.
Proof. intros Hn <-. pose proof (Z.mul_div_le u n Hn). pose proof (Z.mul_succ_div_gt u n Hn). lia. Qed.

Lemma ipv4_public a b c d : Forall octet [a; b; c; d] -> ipv4Private (dotted a b c d) = false -> public_ip (V4 a b c d).
Proof.
  intros Ho. unfold ipv4Private. cbv zeta. rewrite split_dotted by done.
  rewrite !Forall_cons in Ho. destruct Ho as (Ha & Hb & Hc & Hd & _). cbn [List.map nth_error mbind option_bind].
  rewrite !Number_octet by done. unfold num_is, num_ge, num_le, octet in *.
  rewrite !orb_false_iff, !andb_false_iff, !orb_false_iff, !Z.eqb_neq, !Z.leb_gt. intros Hp.
  unfold public_ip, special_v4, in_block, value. cbn [foldl]. rewrite !Forall_cons.
  split_and!; [..|by apply Forall_nil]; intros E; revert E; set (v := (((0 * 256 + a) * 256 + b) * 256 + c) * 256 + d).
  all: match goal with |- _ / ?p = ?r -> _ => let x := eval vm_compute in p in let y := eval vm_compute in r in change r with y; change p with x end.
  all: intros E; match type of E with ?u / ?n = ?k => assert (n * k <= u < n * k + n) by (by apply div_interval) end; clear E; subst v.
  all: first [assert (224 <= a) by (clear Hp; lia); lia|
    first [assert (a = 0) by (clear Hp; lia)|assert (a = 10) by (clear Hp; lia)|assert (a = 172) by (clear Hp; lia)|assert (a = 192) by (clear Hp; lia)
      |assert (a = 100) by (clear Hp; lia)|assert (a = 127) by (clear Hp; lia)|assert (a = 169) by (clear Hp; lia)|assert (a = 198) by (clear Hp; lia)];
    subst a; destruct Hp as [Hp _]; repeat (destruct Hp as [Hp H1]; try lia; clear H1); lia].
Qed.

(** *** The check on IPv6 *)
(** The characters of an address. *)
Definition address_char (c : ascii) : bool := is_digit c || ((97 <=? char_code c) && (char_code c <=? 102)) || bool_decide (c = ":"%char).

Lemma hex_digit_char x : 0 <= x < 16 -> address_char (hex_digit x) = true.
Proof.
  intros Hx. assert (Hall : forallb (fun n => address_char (hex_digit (Z.of_nat n))) (seq 0 16) = true) by done.
  rewrite forallb_forall in Hall. rewrite <- (Z2Nat.id x) by lia. apply Hall, in_seq. lia.
Qed.

Lemma hex_group_chars g : group g -> string_forall address_char (hex_group g) = true.
Proof.
  intros Hg. unfold hex_group, string_forall, group in *. rewrite string_to_list_to_string. apply forallb_forall.
  intros c [x [<- Hx]]%in_map_iff. apply hex_digit_char. 
  match type of Hx with In _ (drop ?n ?l) => assert (Hin : In x l) by (rewrite <- (take_drop n l); apply in_app_iff; by right) end.
  destruct Hin as [<-|[<-|[<-|[<-|[]]]]]; [|apply Z.mod_pos_bound; lia..].
  split; [apply Z.div_pos; lia|apply Z.div_lt_upper_bound; lia].
Qed.

Lemma hex_text_chars gs : Forall group gs -> string_forall address_char (hex_text gs) = true.
Proof.
  unfold hex_text. induction 1 as [|g gs Hg Hgs IH]; [done|]. cbn [List.map join]. destruct (List.map hex_group gs); [by apply hex_group_chars|].
  rewrite !string_forall_app, IH, hex_group_chars by done. done.
Qed.

Lemma map_fixes f s : (forall c, In c (string_to_list s) -> f c = c) -> string_map f s = s.
Proof.
  intros Hf. unfold string_map. rewrite <- (list_to_string_to_list s) at 2. f_equal. rewrite <- (List.map_id (string_to_list s)) at 2.
  by apply List.map_ext_in.
Qed.

Lemma lower_case_stays s : string_forall (fun c => address_char c || bool_decide (c = "."%char)) s = true -> toLowerCase s = s.
Proof.
  intros Hs. apply map_fixes. intros c Hc. unfold string_forall in Hs. rewrite forallb_forall in Hs. specialize (Hs c Hc).
  unfold to_lower. destruct ((65 <=? char_code c) && (char_code c <=? 90)) eqn:E; [|done]. exfalso.
  apply orb_true_iff in Hs as [Hs|Hs%bool_decide_eq_true]; [|by subst]. unfold address_char, is_digit in Hs.
  destruct (bool_decide (c = ":"%char)) eqn:Ec; [apply bool_decide_eq_true in Ec; by subst|]. lia.
Qed.

Lemma no_dots_no_mapping s : string_forall address_char s = true -> mapped_ipv4 s = None.
Proof.
  intros Hs. unfold mapped_ipv4. destruct (starts_with "::ffff:" s) eqn:E; [|done]. apply starts_with_drop in E.
  change (slen "::ffff:") with 7%nat in E. rewrite E, string_forall_app in Hs. apply andb_true_iff in Hs as [_ Hs].
  rewrite split_on_none; [done|]. eapply string_forall_impl; [|exact Hs]. intros c Hc. rewrite bool_decide_false; [done|]. by intros ->.
Qed.

(** A group of four digits starts with them. *)
Lemma long_group g : 4096 <= g < 65536 -> hex_group g =
  String (hex_digit (g / 4096)) (String (hex_digit (g / 256 mod 16)) (String (hex_digit (g / 16 mod 16)) (String (hex_digit (g mod 16)) ""))).
Proof.
  intros Hg. unfold hex_group. destruct (Z.ltb_spec g 16); [lia|]. destruct (Z.ltb_spec g 256); [lia|]. destruct (Z.ltb_spec g 4096); [lia|]. done.
Qed.

(** An address in groups starts with its first, unless that is a zero left out. *)
Lemma starts_with_group text gs : writes text (V6 gs) ->
  Forall group gs /\ List.length gs = 8%nat /\ string_forall address_char text = true /\
  forall g gs', gs = g :: gs' -> g <> 0 -> exists rest, text = hex_group g +:+ rest.
Proof.
  assert (Hhead : forall g gs', exists rest, hex_text (g :: gs') = hex_group g +:+ rest).
  { intros g [|g' gs']; [exists ""; by rewrite string_app_nil_r|]. by eexists. }
  intros Hw. remember (V6 gs) as addr eqn:Ea. destruct Hw as [| |gs' Hg Hl _|pre k post Hg Hl Hk _]; try done; injection Ea as <-.
  - split; [done|]. split; [done|]. split; [by apply hex_text_chars|]. intros g gs'' -> _. apply Hhead.
  - apply Forall_app in Hg as [Hg1 Hg2]. split; [|split; [|split]].
    + apply Forall_app. split; [done|]. apply Forall_app. split; [|done]. by apply Forall_replicate.
    + rewrite !length_app, length_replicate. lia.
    + rewrite !string_forall_app, !hex_text_chars by done. done.
    + intros g gs' E Hn. destruct pre as [|g' pre]; [destruct k; [lia|]; by injection E as <-|]. injection E as -> _.
      destruct (Hhead g pre) as [rest ->]. exists (rest +:+ "::" +:+ hex_text post). by rewrite <- string_app_assoc.
Qed.

(** The two special addresses have one text each. *)
Lemma unspecified_text text : writes text (V6 [0; 0; 0; 0; 0; 0; 0; 0]) -> text = "::".
Proof.
  intros Hw. remember (V6 _) as addr eqn:Ea. destruct Hw as [| |gs Hg Hl Hz|pre k post Hg Hl Hk Hz]; try done; injection Ea as Ea.
  - subst gs. destruct Hz. by exists [], [0; 0; 0; 0; 0; 0].
  - destruct (decide (k = 8%nat)) as [->|Hn]; [by destruct pre, post; simpl in Hl; try lia|]. destruct Hz. rewrite Ea.
    exists [], (replicate (7 - k) 0). cbn [app]. rewrite <- replicate_add. by replace (S k + (7 - k))%nat with 8%nat by lia.
Qed.

Lemma loopback_text text : writes text (V6 [0; 0; 0; 0; 0; 0; 0; 1]) -> text = "::1".
Proof.
  intros Hw. remember (V6 _) as addr eqn:Ea. destruct Hw as [| |gs Hg Hl Hz|pre k post Hg Hl Hk Hz]; try done; injection Ea as Ea.
  - subst gs. destruct Hz. by exists [], [0; 0; 0; 0; 0; 1].
  - destruct (decide (k < 7)%nat) as [Hn|Hn].
    { destruct Hz. rewrite Ea. exists [], (replicate (6 - k) 0 ++ [1]). cbn [app]. rewrite app_assoc, <- replicate_add.
      by replace (S k + (6 - k))%nat with 7%nat by lia. }
    assert (Hk' : k = 7%nat \/ k = 8%nat) by lia. destruct Hk' as [-> | ->].
    + destruct pre as [|x [|y pre]]; simpl in Hl, Ea; [|destruct post; [|simpl in Hl; lia]; simpl in Ea; congruence|lia].
      destruct post as [|x [|y post]]; simpl in Hl, Ea; [lia| |lia]. by injection Ea as ->.
    + destruct pre, post; simpl in Hl, Ea; try lia. congruence.
Qed.

Lemma value_bounds gs v : Forall group gs -> 0 <= v ->
  v * 65536 ^ Z.of_nat (List.length gs) <= foldl (fun v p => v * 65536 + p) v gs < (v + 1) * 65536 ^ Z.of_nat (List.length gs).
Proof.
  intros Hg. revert v. induction Hg as [|g gs Hg Hgs IH]; intros v Hv; cbn [foldl List.length]; [lia|].
  unfold group in Hg. specialize (IH (v * 65536 + g) ltac:(lia)). rewrite Nat2Z.inj_succ, Z.pow_succ_r by lia. nia.
Qed.

(** The leading bits of an address are those of its first group. *)
Lemma leading_bits g gs k : Forall group (g :: gs) -> List.length gs = 7%nat -> 0 <= k <= 16 ->
  value 65536 (g :: gs) / 2 ^ (128 - k) = g / 2 ^ (16 - k).
Proof.
  intros Hg Hl Hk. pose proof (value_bounds gs g) as Hb. rewrite Hl in Hb. inversion Hg as [|? ? Hg1 Hg2]; subst. unfold group in Hg1.
  specialize (Hb Hg2 ltac:(lia)). change (65536 ^ Z.of_nat 7) with (2 ^ 112) in Hb.
  unfold value. cbn [foldl]. replace (0 * 65536 + g) with g by lia.
  replace (128 - k) with (112 + (16 - k)) by lia. rewrite Z.pow_add_r, <- Z.div_div by lia. f_equal.
  symmetry. apply (Z.div_unique_pos _ _ _ (foldl (fun v p => v * 65536 + p) g gs - 2 ^ 112 * g)); lia.
Qed.

Lemma value_inj gs gs' : Forall group gs -> Forall group gs' -> List.length gs = List.length gs' -> value 65536 gs = value 65536 gs' -> gs = gs'.
Proof.
  revert gs'. induction gs as [|g gs IH] using rev_ind; intros gs'; [by destruct gs'|].
  destruct gs' as [|g' gs' _] using rev_ind; [by rewrite length_app; simpl; lia|].
  rewrite !Forall_app, !length_app, !Forall_singleton. unfold value, group. rewrite !foldl_app. cbn [foldl List.length].
  intros [H1 H2] [H3 H4] Hl E. fold (value 65536 gs) (value 65536 gs') in E. assert (g = g') as -> by lia. f_equal. apply IH; [done|done|lia|unfold value in *; lia].
Qed.

Lemma wide_group_prefix g q : 61440 <= g < 65536 -> g / 256 = 240 + q -> 0 <= q < 16 ->
  forall rest, exists rest', hex_group g +:+ rest = "f" +:+ String (hex_digit q) (String (hex_digit (g / 16 mod 16)) rest').
Proof.
  intros Hg Hq Hq16 rest. rewrite long_group by lia.
  assert (Ha : g / 4096 = 15) by (change 4096 with (256 * 16); rewrite <- Z.div_div, Hq by lia; symmetry; apply (Z.div_unique_pos _ _ _ q); lia).
  assert (Hb : g / 256 mod 16 = q) by (rewrite Hq; symmetry; apply (Z.mod_unique_pos _ _ 15); lia).
  rewrite Ha, Hb, !string_cons_app. by eexists.
Qed.

Ltac all_groups := repeat (apply List.Forall_cons; [unfold group; lia|]); apply List.Forall_nil.

Lemma ipv6_public text gs : writes text (V6 gs) ->
  (let lower := toLowerCase text in
   eqs lower "::" || eqs lower "::1" || (starts_with "fc" lower || starts_with "fd" lower) ||
   (starts_with "fe8" lower || starts_with "fe9" lower || starts_with "fea" lower || starts_with "feb" lower) || starts_with "ff" lower) = false ->
  public_ip (V6 gs).
Proof.
  intros Hw. destruct (starts_with_group text gs Hw) as (Hg & Hl & Hc & Hs). cbv zeta. rewrite lower_case_stays.
  2: { eapply string_forall_impl; [|exact Hc]. intros c Hx. by rewrite Hx. }
  rewrite !orb_false_iff. unfold eqs. rewrite !bool_decide_eq_false.
  intros [[[[H0 H1'] [Hfc Hfd]] [[[Hf8 Hf9] Hfa] Hfb]] Hff].
  assert (Hexact : forall gs', Forall group gs' -> List.length gs' = 8%nat ->
    in_block 128 (value 65536 gs) (value 65536 gs') 128 -> gs = gs').
  { intros gs' Hg' Hl' E. unfold in_block in E. change (2 ^ (128 - 128)) with 1 in E. rewrite !Z.div_1_r in E.
    apply value_inj; [done|done|lia|done]. }
  destruct gs as [|g gs]; [done|]. injection Hl as Hl.
  assert (Hlead : forall base k, 0 <= k <= 16 -> group base -> in_block 128 (value 65536 (g :: gs)) (value 65536 [base; 0; 0; 0; 0; 0; 0; 0]) k ->
    g / 2 ^ (16 - k) = base / 2 ^ (16 - k)).
  { intros base k Hk Hb E. unfold in_block in E. unfold group in Hb.
    rewrite leading_bits in E; [|done..]. rewrite leading_bits in E; [exact E|all_groups|done|done]. }
  assert (Hpre : forall q, g <> 0 -> 61440 <= g < 65536 -> g / 256 = 240 + q -> 0 <= q < 16 ->
    exists rest, text = String "f" (String (hex_digit q) (String (hex_digit (g / 16 mod 16)) rest))).
  { intros q Hn Hgb Hq Hq16. destruct (Hs g gs eq_refl Hn) as [rest ->].
    destruct (wide_group_prefix g q Hgb Hq Hq16 rest) as [rest' ->]. by exists rest'. }
  assert (Hgg : group g) by (by inversion Hg). unfold group in Hgg.
  unfold public_ip, special_v6. rewrite !Forall_cons. split_and!; [..|by apply Forall_nil]; intros E.
  - apply Hexact in E; [|all_groups|done]. apply H0, unspecified_text. by rewrite <- E.
  - apply Hexact in E; [|all_groups|done]. apply H1', loopback_text. by rewrite <- E.
  - apply Hlead in E; [|lia|unfold group; lia]. change (2 ^ (16 - 7)) with 512 in E. change (64512 / 512) with 126 in E.
    apply div_interval in E; [|lia].
    assert (Hq : g / 256 = 240 + 12 \/ g / 256 = 240 + 13).
    { pose proof (Z.mul_div_le g 256). pose proof (Z.mul_succ_div_gt g 256). lia. }
    destruct Hq as [Hq|Hq]; (destruct (Hpre _ ltac:(lia) ltac:(lia) Hq ltac:(lia)) as [rest E2]); subst text.
    + discriminate (eq_trans (eq_sym Hfc) (starts_with_append "fc" (String (hex_digit (g / 16 mod 16)) rest))).
    + discriminate (eq_trans (eq_sym Hfd) (starts_with_append "fd" (String (hex_digit (g / 16 mod 16)) rest))).
  - apply Hlead in E; [|lia|unfold group; lia]. change (2 ^ (16 - 10)) with 64 in E. change (65152 / 64) with 1018 in E. apply div_interval in E; [|lia].
    assert (Hq : g / 256 = 240 + 14) by (pose proof (Z.mul_div_le g 256); pose proof (Z.mul_succ_div_gt g 256); lia).
    destruct (Hpre _ ltac:(lia) ltac:(lia) Hq ltac:(lia)) as [rest E2].
    assert (Hd : g / 16 mod 16 = 8 \/ g / 16 mod 16 = 9 \/ g / 16 mod 16 = 10 \/ g / 16 mod 16 = 11).
    { assert (Hd : g / 16 = 16 * 254 + g / 16 mod 16).
      { rewrite (Z.div_mod (g / 16) 16) at 1 by lia. rewrite Z.div_div by lia. change (16 * 16) with 256. rewrite Hq. done. }
      pose proof (Z.mul_div_le g 16). pose proof (Z.mul_succ_div_gt g 16). lia. }
    destruct Hd as [Hd|[Hd|[Hd|Hd]]]; rewrite Hd in E2; subst text.
    + discriminate (eq_trans (eq_sym Hf8) (starts_with_append "fe8" rest)).
    + discriminate (eq_trans (eq_sym Hf9) (starts_with_append "fe9" rest)).
    + discriminate (eq_trans (eq_sym Hfa) (starts_with_append "fea" rest)).
    + discriminate (eq_trans (eq_sym Hfb) (starts_with_append "feb" rest)).
  - apply Hlead in E; [|lia|unfold group; lia]. change (2 ^ (16 - 8)) with 256 in E. change (65280 / 256) with 255 in E.
    destruct (Hpre 15 ltac:(intros ->; done) ltac:(apply div_interval in E; lia) E ltac:(lia)) as [rest E2]. subst text.
    discriminate (eq_trans (eq_sym Hff) (starts_with_append "ff" (String (hex_digit (g / 16 mod 16)) rest))).
Qed.

Lemma mapped_text a b c d : Forall octet [a; b; c; d] ->
  toLowerCase ("::ffff:" +:+ dotted a b c d) = "::ffff:" +:+ dotted a b c d /\ mapped_ipv4 ("::ffff:" +:+ dotted a b c d) = Some (dotted a b c d).
Proof.
  intros Ho.
  assert (Hd : forall n, octet n -> Z_to_string n <> "" /\ string_forall is_digit (Z_to_string n) = true).
  { intros n [Hn _]. by destruct (Z_to_string_nonneg n Hn) as (? & ? & _). }
  pose proof Ho as Ho'. rewrite !Forall_cons in Ho'. destruct Ho' as (Ha & Hb & Hc & Hdd & _). apply Hd in Ha, Hb, Hc, Hdd. split.
  - apply lower_case_stays. rewrite string_forall_app. apply andb_true_iff. split; [done|]. unfold dotted. cbn [List.map join].
    assert (Hn : forall s, string_forall is_digit s = true -> string_forall (fun c => address_char c || bool_decide (c = "."%char)) s = true).
    { intros s Hs. eapply string_forall_impl; [|exact Hs]. intros x Hx. unfold address_char. by rewrite Hx. }
    rewrite !string_forall_app. destruct Ha as [_ Ha], Hb as [_ Hb], Hc as [_ Hc], Hdd as [_ Hdd].
    by rewrite (Hn _ Ha), (Hn _ Hb), (Hn _ Hc), (Hn _ Hdd).
  - unfold mapped_ipv4. rewrite starts_with_append, string_drop_app_exact by done. cbv zeta. rewrite split_dotted by done.
    cbn [List.map List.length forallb]. unfold eqs. rewrite !bool_decide_false by tauto. destruct Ha as [_ ->], Hb as [_ ->], Hc as [_ ->], Hdd as [_ ->]. done.
Qed.

Lemma ends_with_append p s : ends_with s (p +:+ s) = true.
Proof.
  unfold ends_with. rewrite slen_app, string_drop_app_exact by lia. rewrite bool_decide_true by done. apply Nat.leb_le. lia.
Qed.

(** An address the check lets through is public. *)
Lemma let_through_is_public `{NodeLib} text : knows_addresses -> isPrivateAddress text = false ->
  isIP text <> 0 /\ forall addr, writes text addr -> public_ip addr.
Proof.
  intros Hk Hp. split.
  { intros E. unfold isPrivateAddress in Hp. rewrite E in Hp. done. }
  intros addr Hw. pose proof (Hk text addr Hw) as Hi. unfold isPrivateAddress in Hp. cbv zeta in Hp. destruct addr as [a b c d|gs].
  - assert (Hd : Forall octet [a; b; c; d] /\ (text = dotted a b c d \/ text = "::ffff:" +:+ dotted a b c d)) by (inversion Hw; subst; auto).
    destruct Hd as [Ho Ht]. apply ipv4_public; [done|]. case_bool_decide as E.
    + rewrite Hi in Hp. cbn in Hp. by rewrite <- E.
    + destruct Ht as [|Ht]; [done|]. rewrite Hi in Hp. cbn -[mapped_ipv4] in Hp. destruct (mapped_text a b c d Ho) as [El Em].
      by rewrite Ht, El, Em in Hp.
  - rewrite Hi in Hp. cbn -[mapped_ipv4] in Hp. destruct (starts_with_group text gs Hw) as (_ & _ & Hc & _).
    apply (ipv6_public text); [done|]. rewrite no_dots_no_mapping in Hp; [exact Hp|].
    rewrite lower_case_stays; [done|]. eapply string_forall_impl; [|exact Hc]. intros x Hx. by rewrite Hx.
Qed.

Section Round.
Context `{NodeLib} (now : Z) (secretKey : string) (allowHttp : bool) (d : Database).
Notation Adm := any_answer.
Notation world := webhook_world.
Implicit Types w : world.

(** ** What a request must satisfy *)
(** A name of this machine or its network. *)
Definition local_name (host : string) : Prop :=
  host = "localhost" \/ exists before suffix, host = before +:+ suffix /\ In suffix [".localhost"; ".local"; ".internal"; ".lan"; ".home.arpa"].

(** [url]'s host is not a local name, and it is an acceptable address or resolved, just before, to
    acceptable addresses only. *)
Definition host_found (acceptable : string -> Prop) (url : URL) (before : list webhook_entry) : Prop :=
  let host := toLowerCase (strip_brackets (u_hostname url)) in
  ~ local_name host /\
  ((isIP host <> 0 /\ before = [] /\ acceptable host) \/
   (isIP host = 0 /\ exists addrs, before = [ECall (ResolveHost host) (Ok addrs)] /\ addrs <> [] /\
      forall a, In a addrs -> acceptable a)).

Definition may_post (acceptable : string -> Prop) (raw : string) (url : URL) (before : list webhook_entry) : Prop :=
  new_URL raw = Some url /\
  (u_protocol url = "https:" \/ (allowHttp = true /\ u_protocol url = "http:")) /\
  u_username url = "" /\ u_password url = "" /\ host_found acceptable url before.

Definition is_fetch (x : webhook_entry) : bool :=
  match x with ECall c _ => match c with Fetch _ _ _ => true | _ => false end | EOut _ => false end.

Definition the_subscription (dl : webhookDelivery_row) : option Subscription :=
  hd_error (List.filter (fun s => eqs (ws_id s) (wd_subscriptionId dl)) (d webhookSubscription)).

(** The trace of one attempt, and the status the subscriber answered, if it did: nothing posted, or
    one signed request to the URL of the delivery's active subscription. *)
Inductive attempt (acceptable : string -> Prop) (dl : webhookDelivery_row) : list webhook_entry -> option Z -> Prop :=
| attempt_unposted l : Forall (fun x => is_fetch x = false) l -> attempt acceptable dl l None
| attempt_posted sub url secret before res after :
    the_subscription dl = Some sub -> ws_active sub = true -> may_post acceptable (ws_url sub) url before ->
    decryptSecret (ws_secretCiphertext sub) secretKey = Ok secret ->
    Forall (fun x => is_fetch x = false) after ->
    attempt acceptable dl
      (before ++ ECall (Fetch url
         [("content-type", "application/json"); ("x-ballast-event", wd_event dl); ("x-ballast-delivery", wd_id dl);
          ("x-ballast-signature", signWebhook secret (now / 1000) (JSON_stringify (wd_payload dl)))]
         (JSON_stringify (wd_payload dl))) res :: after)
      (match res with Ok s => Some s | Err _ => None end).

(** The addresses the code lets through. *)
Definition unblocked (a : string) : Prop := isPrivateAddress a = false.

Lemma host_found_mono (P Q : string -> Prop) url before : (forall a, P a -> Q a) -> host_found P url before -> host_found Q url before.
Proof.
  intros Hpq [Hl Hh]. split; [done|]. destruct Hh as [(H1 & H2 & H3)|(H1 & addrs & H2 & H3 & H4)]; [by left; auto|].
  right. split; [done|]. exists addrs. auto.
Qed.

Lemma attempt_mono (P Q : string -> Prop) dl l status : (forall a, P a -> Q a) -> attempt P dl l status -> attempt Q dl l status.
Proof.
  intros Hpq [l' Hl|sub url secret before res after Hs Ha (H1 & H2 & H3 & H4 & Hh) Hd Hl]; [by constructor|].
  eapply attempt_posted; try done. split; [done|]. split; [done|]. split; [done|]. split; [done|]. by eapply host_found_mono.
Qed.

(** ** How a delivery ends *)
Inductive Settlement := IsDelivered | IsRetried | IsDead.

Definition count (k : Settlement) (t : DeliverTally) : DeliverTally :=
  match k with
  | IsDelivered => Delivered (dt_delivered t + 1) (dt_retried t) (dt_dead t)
  | IsRetried => Delivered (dt_delivered t) (dt_retried t + 1) (dt_dead t)
  | IsDead => Delivered (dt_delivered t) (dt_retried t) (dt_dead t + 1)
  end.

Definition accepted_by_subscriber (status : option Z) : Prop := exists s, status = Some s /\ 200 <= s <= 299.

(** A delivery whose acknowledgement by the database was lost is failed again as attempted. *)
Definition base (dl : webhookDelivery_row) (status : option Z) (r b : webhookDelivery_row) : Prop :=
  b = r \/ (b = set_delivered (wd_attempts dl + 1) now r /\ accepted_by_subscriber status).

Definition no_active_subscription (dl : webhookDelivery_row) : Prop :=
  match the_subscription dl with Some sub => ws_active sub = false | None => True end.

Definition next_attempt (dl : webhookDelivery_row) : Z := now + backoff (wd_attempts dl + 1) * 1000.

(** Row [r], attempted as [dl], became [r'] and settled as [k] ([None]: not recorded). *)
Definition settled (dl : webhookDelivery_row) (status : option Z) (k : option Settlement) (r r' : webhookDelivery_row) : Prop :=
  match k with
  | None => r' = r
  | Some IsDelivered => r' = set_delivered (wd_attempts dl + 1) now r /\ accepted_by_subscriber status
  | Some IsRetried => exists b reason, base dl status r b /\ wd_attempts dl + 1 < MAX_ATTEMPTS /\
      r' = set_failed (wd_attempts dl + 1) reason "pending" (next_attempt dl) b
  | Some IsDead => exists b reason, base dl status r b /\
      (MAX_ATTEMPTS <= wd_attempts dl + 1 \/ no_active_subscription dl) /\
      r' = set_failed (wd_attempts dl + 1) reason "dead" (next_attempt dl) b
  end.

Lemma settled_id dl status k r r' : settled dl status k r r' -> wd_id r' = wd_id r.
Proof. destruct k as [[]|]; simpl; [|unfold base|unfold base|]; naive_solver. Qed.

(** Failing a row again only changes the reason. *)
Lemma settled_again dl status (perm dead : bool) reason k r r' :
  (perm = true -> no_active_subscription dl) -> dead = perm || (MAX_ATTEMPTS <=? wd_attempts dl + 1) ->
  settled dl status k r r' ->
  settled dl status (Some (if dead then IsDead else IsRetried)) r
    (set_failed (wd_attempts dl + 1) reason (if dead then "dead" else "pending") (next_attempt dl) r').
Proof.
  intros Hp -> Hs.
  assert (exists b, base dl status r b /\ forall st, set_failed (wd_attempts dl + 1) reason st (next_attempt dl) r'
    = set_failed (wd_attempts dl + 1) reason st (next_attempt dl) b) as (b & Hb & E).
  { destruct k as [[]|]; simpl in Hs.
    - destruct Hs as [-> Ha]. eexists. split; [right; by split|done].
    - destruct Hs as (b & re & Hb & _ & ->). by exists b.
    - destruct Hs as (b & re & Hb & _ & ->). by exists b.
    - subst. exists r. split; [by left|done]. }
  rewrite E. destruct perm; simpl.
  - exists b, reason. auto.
  - destruct (Z.leb_spec MAX_ATTEMPTS (wd_attempts dl + 1)); exists b, reason; auto.
Qed.

(** ** One delivery *)
Definition on_row (dl : webhookDelivery_row) (f : webhookDelivery_row -> webhookDelivery_row) (r : webhookDelivery_row) : webhookDelivery_row :=
  if eqs (wd_id r) (wd_id dl) then f r else r.

(** The rows of [w0] after the row of [dl] settled as [k]. *)
Definition rows_settled (dl : webhookDelivery_row) (status : option Z) (k : option Settlement) w0 w : Prop :=
  (forall t, t <> webhookDelivery -> w_db w t = w_db w0 t) /\
  exists f, w_db w webhookDelivery = List.map (on_row dl f) (w_db w0 webhookDelivery) /\
    forall r, settled dl status k r (f r).

Lemma rows_settled_refl dl status w0 w : w_db w = w_db w0 -> rows_settled dl status None w0 w.
Proof.
  intros E. split; [by intros t _; rewrite E|]. exists id. split; [|done]. rewrite E. unfold on_row. symmetry.
  rewrite <- (List.map_id (w_db w0 webhookDelivery)) at 2. apply List.map_ext. intros r. by case_match.
Qed.

Lemma rows_settled_update dl status k k' g w0 w w' :
  rows_settled dl status k w0 w -> (forall r r', settled dl status k r r' -> settled dl status k' r (g r')) ->
  w_db w' = set_table webhookDelivery (List.map (fun r => if eqs (wd_id r) (wd_id dl) then g r else r) (w_db w webhookDelivery)) (w_db w) ->
  rows_settled dl status k' w0 w'.
Proof.
  intros (Ho & f & Hd & Hf) Hg E. split.
  { intros t Ht. rewrite E, set_table_other by done. by apply Ho. }
  exists (fun r => g (f r)). rewrite E, set_table_same, Hd. split; [|intros r; apply Hg, Hf].
  rewrite List.map_map. apply List.map_ext. intros r. unfold on_row.
  destruct (eqs (wd_id r) (wd_id dl)) eqn:Eid; [|by rewrite Eid].
  by rewrite (settled_id _ _ _ _ _ (Hf r)), Eid.
Qed.

Definition quiet (w w' : world) : Prop :=
  exists l, w_log w' = w_log w ++ l /\ Forall (fun x => is_fetch x = false) l.

Lemma unfetched_refl w w' : w_log w' = w_log w -> quiet w w'.
Proof. intros E. exists []. by rewrite app_nil_r. Qed.

Lemma unfetched_trans w1 w2 w3 : quiet w1 w2 -> quiet w2 w3 -> quiet w1 w3.
Proof. intros (l1 & E1 & H1) (l2 & E2 & H2). exists (l1 ++ l2). rewrite E2, E1, app_assoc. split; [done|by apply Forall_app]. Qed.

Lemma attempt_quiet dl l status w w' w0 :
  w_log w = w_log w0 ++ l -> attempt unblocked dl l status -> quiet w w' ->
  exists l', w_log w' = w_log w0 ++ l' /\ attempt unblocked dl l' status.
Proof.
  intros E Ha (q & E' & Hq). exists (l ++ q). split; [by rewrite E', E, app_assoc|].
  destruct Ha as [l Hl|sub url secret before res after H1 H2 H3 H4 H5].
  - apply attempt_unposted. by apply Forall_app.
  - rewrite <- app_assoc. simpl. eapply attempt_posted; try done. by apply Forall_app.
Qed.

Lemma wp_fail_delivery dl tally reason perm k status w0 w :
  (perm = true -> no_active_subscription dl) -> rows_settled dl status k w0 w ->
  wp Adm (fail_delivery now dl tally reason perm) (fun r w' => quiet w w' /\
    exists k', rows_settled dl status k' w0 w' /\
      match r with Ok t => exists k1, k' = Some k1 /\ t = count k1 tally | Err _ => True end) w.
Proof.
  intros Hp Hr. unfold fail_delivery. cbv zeta. set (dead := perm || _). wp_step. wp_step.
  { intros x. split; [by apply unfetched_refl|]. exists k. split; [|done]. exact Hr. }
  intros s.
  assert (Hr' : rows_settled dl status (Some (if dead then IsDead else IsRetried)) w0
    (after w (set_table webhookDelivery (List.map (fun r => if eqs (wd_id r) (wd_id dl)
       then set_failed (wd_attempts dl + 1) reason (if dead then "dead" else "pending") (next_attempt dl) r else r)
       (w_db w webhookDelivery)) (w_db w)))).
  { eapply rows_settled_update; [exact Hr| |done]. intros r r' Hs. by eapply settled_again. }
  split; [|intros x; split; [by apply unfetched_refl|by eexists]].
  wp_step. wp_step. split; [eexists; split; [done|by apply Forall_singleton]|].
  eexists. split; [exact Hr'|]. eexists. split; [done|]. by destruct dead.
Qed.

Lemma wp_assertSafeWebhookUrl raw w :
  wp Adm (assertSafeWebhookUrl raw allowHttp) (fun r w' => w_db w' = w_db w /\
    exists l, w_log w' = w_log w ++ l /\ Forall (fun x => is_fetch x = false) l /\
      match r with Ok url => may_post unblocked raw url l | Err _ => True end) w.
Proof.
  assert (Hno : forall w, w_db w = w_db w /\ exists l, w_log w = w_log w ++ l /\ Forall (fun x => is_fetch x = false) l /\ True).
  { intros w1. split; [done|]. exists []. by rewrite app_nil_r. }
  unfold assertSafeWebhookUrl. wp_step; [|wp_step; apply Hno]. rename u into url.
  wp_step; [wp_step; apply Hno|]. rename E0 into Eproto.
  wp_step; [wp_step; apply Hno|]. rename E0 into Ecred. cbv zeta. set (host := toLowerCase _).
  wp_step; [wp_step; apply Hno|]. rename E0 into Elocal.
  assert (Hbase : forall l, ((isIP host <> 0 /\ l = [] /\ isPrivateAddress host = false) \/
      (isIP host = 0 /\ exists addrs, l = [ECall (ResolveHost host) (Ok addrs)] /\ addrs <> [] /\
         forall a, In a addrs -> isPrivateAddress a = false)) -> may_post unblocked raw url l).
  { intros l Hl. apply orb_false_iff in Elocal as [E1 E2]. apply orb_false_iff in Ecred as [E3 E4].
    apply negb_false_iff, bool_decide_eq_true in E3, E4. split; [done|]. split; [|split; [done|split; [done|]]].
    - apply andb_false_iff in Eproto as [Hp%negb_false_iff|Hp%negb_false_iff].
      + left. by apply bool_decide_eq_true in Hp.
      + right. apply andb_true_iff in Hp as [-> Hp]. by apply bool_decide_eq_true in Hp.
    - split; [|exact Hl]. fold host. intros [Hh|(p & s & Hh & Hs)]; [by apply bool_decide_eq_false in E1|].
      apply not_true_iff_false in E2. apply E2, existsb_exists. exists s. split; [exact Hs|]. rewrite Hh. apply ends_with_append. }
  assert (Hpub : forall addrs, existsb isPrivateAddress addrs = false -> forall a, In a addrs -> isPrivateAddress a = false).
  { intros addrs Hx a Ha. apply not_true_iff_false. intros Ht. apply not_true_iff_false in Hx. apply Hx, existsb_exists. eauto. }
  wp_step. destruct (Z.eqb_spec (isIP host) 0) as [Eip|Eip]; cbn [negb].
  - wp_step. wp_step. destruct r as [addrs|x].
    + wp_step; [wp_step|wp_step; wp_step]; (split; [done|]; exists [ECall (ResolveHost host) (Ok addrs)]; split; [done|];
        split; [by apply Forall_singleton|]); [done|done|]. apply Hbase. right. split; [done|]. exists addrs.
      split; [done|]. split; [by apply bool_decide_eq_false in E0|by apply Hpub].
    + wp_step. wp_step; [|done]. wp_step. split; [done|]. eexists. split; [done|]. split; [by apply Forall_singleton|done].
  - wp_step. wp_step; [done|]. wp_step; wp_step; [apply Hno|]. split; [done|]. exists []. rewrite app_nil_r.
    split; [done|]. split; [done|]. apply Hbase. left. split; [done|]. split; [done|]. apply (Hpub [host]); [done|by left].
Qed.

Lemma wp_post_delivery dl sub w :
  the_subscription dl = Some sub -> ws_active sub = true ->
  wp Adm (post_delivery now secretKey allowHttp dl sub) (fun r w' => w_db w' = w_db w /\
    exists l status, w_log w' = w_log w ++ l /\ attempt unblocked dl l status /\
      match r with Ok s => status = Some s | Err _ => True end) w.
Proof.
  intros Hsub Hact. unfold post_delivery. wp_step.
  eapply wp_mono; [|apply wp_assertSafeWebhookUrl]. intros [url|x] w1 (Hd1 & l & Hl & Hq & Hr).
  2: { split; [done|]. exists l, None. split; [done|]. split; [by constructor|done]. }
  cbv zeta. wp_step. wp_step. destruct (decryptSecret _ _) as [secret|x] eqn:Es.
  2: { split; [done|]. exists l, None. split; [done|]. split; [by constructor|done]. }
  wp_step. split; [done|]. do 2 eexists. split; [world_simpl; rewrite Hl, <- app_assoc; reflexivity|].
  split; [eapply attempt_posted; try done; constructor|by destruct r].
Qed.

(** What one attempt leaves: its trace, the status it got, how its row settled. *)
Definition attempted dl w0 (r : outcome DeliverTally) (tally : DeliverTally) w : Prop :=
  exists l status k, w_log w = w_log w0 ++ l /\ attempt unblocked dl l status /\ rows_settled dl status k w0 w /\
    match r with Ok t => exists k1, k = Some k1 /\ t = count k1 tally | Err _ => True end.

(** Failing after the trace [l]. *)
Lemma wp_fail_attempt dl tally reason perm k status l w0 w :
  w_log w = w_log w0 ++ l -> attempt unblocked dl l status ->
  (perm = true -> no_active_subscription dl) -> rows_settled dl status k w0 w ->
  wp Adm (fail_delivery now dl tally reason perm) (fun r w' => attempted dl w0 r tally w') w.
Proof.
  intros Hl Ha Hp Hr. eapply wp_mono; [|by apply (wp_fail_delivery _ _ _ _ k status w0)].
  intros r w' (Hq & k' & Hr' & Ht). destruct (attempt_quiet dl l status w w' w0 Hl Ha Hq) as (l' & Hl' & Ha').
  exists l', status, k'. done.
Qed.

Lemma no_trace dl : attempt unblocked dl [] None.
Proof. by constructor. Qed.

Lemma the_subscription_eq dl w : w_db w webhookSubscription = d webhookSubscription ->
  hd_error (List.filter (fun s : row webhookSubscription => eqs (ws_id s) (wd_subscriptionId dl)) (w_db w webhookSubscription)) = the_subscription dl.
Proof. by intros ->. Qed.

Lemma wp_deliver_step tally dl w :
  w_db w webhookSubscription = d webhookSubscription ->
  wp Adm (deliver_step now secretKey allowHttp tally dl) (fun r w' => attempted dl w r tally w') w.
Proof.
  intros Hsubs. unfold deliver_step, select_one.
  assert (Hnil : w_log w = w_log w ++ []) by (by rewrite app_nil_r).
  wp_step. wp_step. wp_step.
  { intros x. exists [], None, None. split; [done|]. split; [apply no_trace|]. split; [by apply rows_settled_refl|done]. }
  wp_step. rewrite the_subscription_eq by done.
  assert (Hinactive : forall perm reason, no_active_subscription dl ->
    wp Adm (fail_delivery now dl tally reason perm) (fun r w' => attempted dl w r tally w') (tick w)).
  { intros perm reason Hno. apply (wp_fail_attempt dl tally reason perm None None [] w); [done|apply no_trace|done|].
    by apply rows_settled_refl. }
  destruct (the_subscription dl) as [sub|] eqn:Esub; [|apply Hinactive; unfold no_active_subscription; by rewrite Esub].
  destruct (ws_active sub) eqn:Eact; cbn [negb]; [|apply Hinactive; unfold no_active_subscription; by rewrite Esub].
  wp_step. wp_step. eapply wp_mono; [|by apply (wp_post_delivery dl sub)].
  intros r w1 (Hd1 & l & status & Hl & Ha & Hst).
  assert (Hl1 : w_log w1 = w_log w ++ l) by done.
  assert (Hagain : forall k reason w2, w_log w2 = w_log w1 -> rows_settled dl status k w w2 ->
    wp Adm (fail_delivery now dl tally reason false) (fun r w' => attempted dl w r tally w') w2).
  { intros k reason w2 E2 Hr2. apply (wp_fail_attempt dl tally reason false k status l w); [by rewrite E2|done|done|done]. }
  destruct r as [s|x]; [|apply (Hagain None); [done|by apply rows_settled_refl]].
  subst status. destruct (res_ok s) eqn:Eok; cbn [negb].
  - assert (Hacc : accepted_by_subscriber (Some s)).
    { exists s. unfold res_ok in Eok. apply andb_true_iff in Eok as [?%Z.leb_le ?%Z.leb_le]. split; [done|lia]. }
    wp_step. wp_step; [intros x; apply (Hagain None); [done|by apply rows_settled_refl]|]. intros s0.
    assert (Hr : rows_settled dl (Some s) (Some IsDelivered) w (after w1 (set_table webhookDelivery (List.map (fun r =>
      if eqs (wd_id r) (wd_id dl) then set_delivered (wd_attempts dl + 1) now r else r) (w_db w1 webhookDelivery)) (w_db w1)))).
    { eapply rows_settled_update; [apply (rows_settled_refl dl (Some s) w w1); done| |done]. by intros r r' ->. }
    split; [|intros x; by apply (Hagain (Some IsDelivered))].
    wp_step. exists l, (Some s), (Some IsDelivered). split; [done|]. split; [done|]. split; [done|]. by exists IsDelivered.
  - (* a failure whose bookkeeping throws is caught and failed again *)
    eapply wp_mono; [|apply (wp_fail_delivery dl tally _ false None (Some s) w w1); [done|by apply rows_settled_refl]].
    intros r w2 (Hq & k' & Hr' & Ht).
    destruct (attempt_quiet dl l (Some s) w1 w2 w Hl1 Ha Hq) as (l' & Hl' & Ha').
    destruct r as [t|x]; [by exists l', (Some s), k'|].
    by apply (wp_fail_attempt dl tally _ false k' (Some s) l' w).
Qed.

(** ** A round *)
Record Attempt := MkAttempt {
  a_row : webhookDelivery_row; a_trace : list webhook_entry;
  a_status : option Z; a_settlement : option Settlement }.

Definition a_id (a : Attempt) : string := wd_id (a_row a).

(** The log and the rows after the attempts [outs]. *)
Definition round_done (outs : list Attempt) w : Prop :=
  (forall t, t <> webhookDelivery -> w_db w t = d t) /\
  w_log w = List.concat (List.map a_trace outs) /\
  Forall (fun a => attempt unblocked (a_row a) (a_trace a) (a_status a)) outs /\
  exists F, w_db w webhookDelivery = List.map F (d webhookDelivery) /\
    forall r, wd_id (F r) = wd_id r /\
      (forall a, In a outs -> a_id a = wd_id r -> settled (a_row a) (a_status a) (a_settlement a) r (F r)) /\
      ((forall a, In a outs -> a_id a <> wd_id r) -> F r = r).

Definition tally_of (outs : list Attempt) (t : DeliverTally) : Prop :=
  exists ks, List.map a_settlement outs = List.map Some ks /\ t = foldl (fun t k => count k t) (Delivered 0 0 0) ks.

Lemma round_none w : w_db w = d -> w_log w = [] -> round_done [] w.
Proof.
  intros Hd Hl. split; [by intros t _; rewrite Hd|]. split; [done|]. split; [constructor|].
  exists id. rewrite Hd, List.map_id. done.
Qed.

Lemma round_step outs dl w w' l status k :
  round_done outs w -> (forall a, In a outs -> a_id a <> wd_id dl) ->
  w_log w' = w_log w ++ l -> attempt unblocked dl l status -> rows_settled dl status k w w' ->
  round_done (outs ++ [MkAttempt dl l status k]) w'.
Proof.
  intros (Ho & Hl & Hf & F & Hd & HF) Hnew Hl' Ha (Ho' & f & Hd' & Hs). split; [|split; [|split]].
  - intros t Ht. rewrite Ho' by done. by apply Ho.
  - rewrite Hl', Hl, List.map_app, concat_app. simpl. by rewrite app_nil_r.
  - apply Forall_app. split; [done|]. by apply Forall_singleton.
  - exists (fun r => on_row dl f (F r)). rewrite Hd', Hd, List.map_map. split; [done|].
    intros r. destruct (HF r) as (Hid & Hat & Hun).
    assert (Hid' : wd_id (on_row dl f (F r)) = wd_id r).
    { unfold on_row. destruct (eqs _ _); [|done]. by rewrite (settled_id _ _ _ _ _ (Hs (F r))). }
    split; [done|]. split.
    + intros a Ha' Ea. apply in_app_iff in Ha' as [Ha'|[<-|[]]].
      * unfold on_row. rewrite Hid. unfold eqs. rewrite bool_decide_false; [by apply Hat|].
        rewrite <- Ea. by apply Hnew.
      * unfold a_id in Ea. simpl in Ea |- *. unfold on_row, eqs. rewrite bool_decide_true by congruence.
        rewrite Hun; [apply Hs|]. intros a Ha2. rewrite <- Ea. by apply Hnew.
    + intros Hno. rewrite Hun by (intros a Ha'; apply Hno, in_app_iff; by left).
      unfold on_row, eqs. rewrite bool_decide_false; [done|]. intros E.
      apply (Hno (MkAttempt dl l status k)); [apply in_app_iff; right; by left|done].
Qed.

(** How far a round over [due] got. *)
Definition round_ends (due : list webhookDelivery_row) (r : outcome DeliverTally) w : Prop :=
  exists outs, round_done outs w /\
    match r with
    | Ok t => List.map a_row outs = due /\ tally_of outs t
    | Err _ => exists rest, due = List.map a_row outs ++ rest
    end.

Lemma wp_deliver_all due w :
  NoDup (List.map wd_id due) -> w_db w = d -> w_log w = [] ->
  wp Adm (fold (deliver_step now secretKey allowHttp) (Delivered 0 0 0) due) (round_ends due) w.
Proof.
  intros Hnd Hd Hl.
  apply (wp_fold_split _ (fun done t w => exists outs, round_done outs w /\ List.map a_row outs = done /\ tally_of outs t)
    (fun x w => exists outs rest, round_done outs w /\ due = List.map a_row outs ++ rest) _ _ []).
  - intros done_ dl rest t w1 Hdue (outs & Hr & Hrows & ks & Hks & Ht). simpl in Hdue.
    assert (Hnew : forall a, In a outs -> a_id a <> wd_id dl).
    { intros a Ha E. rewrite Hdue, <- Hrows, List.map_app in Hnd. apply NoDup_app in Hnd as (_ & Hnd & _).
      apply (Hnd (wd_id dl)).
      - apply list_elem_of_In. rewrite List.map_map. apply in_map_iff. by exists a.
      - apply list_elem_of_In. by left. }
    eapply wp_mono; [|apply wp_deliver_step, Hr; done].
    intros r w2 (l & status & k & Hl2 & Ha & Hs & Hk).
    pose proof (round_step outs dl w1 w2 l status k Hr Hnew Hl2 Ha Hs) as Hr2.
    assert (Hrows2 : List.map a_row (outs ++ [MkAttempt dl l status k]) = done_ ++ [dl]).
    { by rewrite List.map_app, Hrows. }
    destruct r as [t'|x].
    + destruct Hk as (k1 & -> & ->). eexists. split; [exact Hr2|]. split; [done|].
      exists (ks ++ [k1]). rewrite !List.map_app, Hks, foldl_app, Ht. done.
    + eexists _, rest. split; [exact Hr2|]. by rewrite Hrows2, <- app_assoc.
  - intros t w1 (outs & Hr & Hrows & Ht). by exists outs.
  - intros x w1 (outs & rest & Hr & Hdue). exists outs. split; [done|]. by exists rest.
  - exists []. split; [by apply round_none|]. split; [done|]. by exists [].
Qed.

Definition due_deliveries : list webhookDelivery_row :=
  take BATCH_SIZE (List.filter (fun r => eqs (wd_status r) "pending" && (wd_nextAttemptAt r <=? now)) (d webhookDelivery)).

Lemma NoDup_filter_ids (P : webhookDelivery_row -> bool) l : NoDup (List.map wd_id l) -> NoDup (List.map wd_id (List.filter P l)).
Proof.
  induction l as [|r l IH]; [done|]. rewrite List.map_cons, NoDup_cons. intros [Hin Hnd]. simpl.
  destruct (P r); [|auto]. rewrite List.map_cons, NoDup_cons. split; [|auto]. intros H'. apply Hin.
  apply list_elem_of_In in H'. apply list_elem_of_In. apply in_map_iff in H' as (r' & E & [Hr' _]%filter_In).
  apply in_map_iff. eauto.
Qed.

Lemma NoDup_due : NoDup (List.map wd_id (d webhookDelivery)) -> NoDup (List.map wd_id due_deliveries).
Proof.
  intros Hnd. unfold due_deliveries. set (l := List.filter _ _).
  assert (Hl : NoDup (List.map wd_id l)) by (by apply NoDup_filter_ids).
  rewrite <- (take_drop BATCH_SIZE l), List.map_app in Hl. by apply NoDup_app in Hl as (? & _).
Qed.

Lemma deliverDue_round (e : env WebhookCall) :
  NoDup (List.map wd_id (d webhookDelivery)) ->
  let '(r, w) := run e (deliverDue now secretKey allowHttp) (World d 0 []) in round_ends due_deliveries r w.
Proof.
  intros Hnd. apply (wp_sound any_answer); [auto with ballast|]. unfold deliverDue. wp_step. wp_step.
  - intros x. exists []. split; [by apply round_none|]. by exists due_deliveries.
  - fold due_deliveries. apply wp_deliver_all; [by apply NoDup_due|done|done].
Qed.
End Round.

(** The rows a round may change, whatever the database and the subscribers answer. *)
Definition round_row `{NodeLib} (now : Z) (d : Database) (outs : list Attempt) (r r' : webhookDelivery_row) : Prop :=
  (exists a, In a outs /\ a_row a = r /\ settled now d r (a_status a) (a_settlement a) r r') \/
  (r' = r /\ forall a, In a outs -> a_row a <> r).

(** C29. A delivery round only touches rows of its batch, the first fifty pending deliveries that are
    due; each of them ends delivered (only after a 2xx answer), rescheduled with the next backoff
    while fewer than six attempts were made, or dead (after six attempts, or for want of an active
    subscription), or is left as it was; it costs exactly one attempt however the database fails; and
    a round that returns has settled its whole batch, as its tally counts. *)
Theorem round_settles_by_the_rules `{NodeLib} (e : env WebhookCall) now secretKey allowHttp (d : Database)
    (Hkeys : NoDup (List.map wd_id (d webhookDelivery))) :
  let '(r, w) := run e (deliverDue now secretKey allowHttp) (World d 0 []) in
  (forall t, t <> webhookDelivery -> w_db w t = d t) /\
  exists outs, (exists rest, due_deliveries now d = List.map a_row outs ++ rest) /\
    Forall2 (round_row now d outs) (d webhookDelivery) (w_db w webhookDelivery) /\
    forall t, r = Ok t -> List.map a_row outs = due_deliveries now d /\ tally_of outs t.
Proof.
  pose proof (deliverDue_round now secretKey allowHttp d e Hkeys) as Hr.
  destruct (run e _ _) as [r w]. destruct Hr as (outs & (Ho & _ & _ & F & Hd & HF) & Hr). split; [done|].
  exists outs.
  assert (Hpre : exists rest, due_deliveries now d = List.map a_row outs ++ rest).
  { destruct r as [t|x]; [|done]. destruct Hr as [-> _]. exists []. by rewrite app_nil_r. }
  split; [done|]. split; [|by intros t ->].
  rewrite Hd. apply Forall2_fmap_r, Forall_Forall2_diag, Forall_forall.
  intros r0 Hr0%list_elem_of_In. destruct (HF r0) as (Hid & Hat & Hun).
  assert (Huniq : forall a, In a outs -> a_id a = wd_id r0 -> a_row a = r0).
  { intros a Ha E. destruct Hpre as [rest Hpre].
    assert (In (a_row a) (d webhookDelivery)) as Hin.
    { assert (In (a_row a) (due_deliveries now d)) as H1.
      { rewrite Hpre. apply in_app_iff. left. by apply in_map. }
      unfold due_deliveries in H1. apply list_elem_of_In, (subseteq_take BATCH_SIZE), list_elem_of_In in H1.
      by apply filter_In in H1 as [? _]. }
    revert Hkeys Hr0 Hin E. unfold a_id. clear. induction (d webhookDelivery) as [|r1 l IH]; [done|].
    rewrite List.map_cons, NoDup_cons. intros [Hn Hnd] [<-|Hr0] [E1|Hin] E; [done| | |auto].
    - exfalso. apply Hn. rewrite <- E. apply list_elem_of_In. by apply in_map.
    - exfalso. apply Hn. rewrite E1, E. apply list_elem_of_In. by apply in_map. }
  destruct (decide (Exists (fun a => a_id a = wd_id r0) outs)) as [Hex|Hno].
  - left. apply Exists_exists in Hex as (a & Ha%list_elem_of_In & E). exists a. pose proof (Huniq a Ha E) as Er.
    split; [done|]. split; [done|]. specialize (Hat a Ha E). by rewrite Er in Hat.
  - right. assert (Hn : forall a, In a outs -> a_id a <> wd_id r0).
    { intros a Ha E. apply Hno, Exists_exists. exists a. by rewrite list_elem_of_In. }
    split; [by apply Hun|]. intros a Ha E. apply (Hn a Ha). unfold a_id. by rewrite E.
Qed.

(** An address by Node's account, and a public one: the one it is the text of is in none of the special
    blocks. *)
Definition public_address `{NodeLib} (text : string) : Prop := isIP text <> 0 /\ forall addr, writes text addr -> public_ip addr.

(** C31. Whatever a delivery round posts, it posts once per delivery of its batch, to the URL of the
    delivery's active subscription, signed with that subscription's secret, and only if the URL has an
    allowed scheme, no credentials and no local name, and its host is an address that is public or resolved,
    immediately before, to such addresses only.  Public is said of the numeric address: it is in none of the
    blocks for this network, private and shared use, loopback, link-local, protocol assignments,
    benchmarking, multicast and reserved use, of IPv4 also when mapped into IPv6 and written with dots.  Not
    so for a mapped address in hexadecimal ([mapped_loopback_is_accepted]); and the documentation and
    translation blocks are let through. *)
Theorem round_posts_only_where_allowed `{NodeLib} (e : env WebhookCall) now secretKey allowHttp (d : Database)
    (Hkeys : NoDup (List.map wd_id (d webhookDelivery))) (Hip : knows_addresses) :
  let '(r, w) := run e (deliverDue now secretKey allowHttp) (World d 0 []) in
  exists outs, (exists rest, due_deliveries now d = List.map a_row outs ++ rest) /\
    w_log w = List.concat (List.map a_trace outs) /\
    Forall (fun a => attempt now secretKey allowHttp d public_address (a_row a) (a_trace a) (a_status a)) outs.
Proof.
  pose proof (deliverDue_round now secretKey allowHttp d e Hkeys) as Hr.
  destruct (run e _ _) as [r w]. destruct Hr as (outs & (_ & Hl & Ha & _) & Hr). exists outs.
  split; [destruct r as [t|x]; [|done]; destruct Hr as [-> _]; exists []; by rewrite app_nil_r|]. split; [done|].
  eapply Forall_impl; [exact Ha|]. intros a. cbn. apply attempt_mono. intros x. by apply let_through_is_public.
Qed.

(** ** Signatures *)
(** A lower-case hex digit, as [digest("hex")] prints them. *)
Definition lower_hex (c : ascii) : bool := is_digit c || ((97 <=? char_code c) && (char_code c <=? 102)).

Lemma char_code_inj c c' : char_code c = char_code c' -> c = c'.
Proof. unfold char_code. intros E%N2Z.inj. rewrite <- (ascii_N_embedding c), E. apply ascii_N_embedding. Qed.

Lemma lower_hex_value c : lower_hex c = true -> exists v, hex_value c = Some v /\ 0 <= v < 16.
Proof.
  unfold lower_hex, hex_value, digit_value, is_digit. intros H.
  destruct (Z.leb_spec 48 (char_code c)), (Z.leb_spec (char_code c) 57), (Z.leb_spec 97 (char_code c)),
    (Z.leb_spec (char_code c) 102); simpl in *; try done; eexists; (split; [done|lia]).
Qed.

Lemma lower_hex_inj c c' : lower_hex c = true -> lower_hex c' = true -> hex_value c = hex_value c' -> c = c'.
Proof.
  unfold lower_hex, hex_value, digit_value, is_digit. intros H H' E. apply char_code_inj. revert H H' E.
  repeat match goal with |- context [?x <=? ?y] => destruct (Z.leb_spec x y); simpl end; intros ? ? [=]; done || lia.
Qed.

Lemma Buffer_from_hex_inj n s s' :
  slen s = (2 * n)%nat -> slen s' = (2 * n)%nat -> string_forall lower_hex s = true -> string_forall lower_hex s' = true ->
  Buffer_from_hex s = Buffer_from_hex s' -> s = s'.
Proof.
  revert s s'. induction n as [|n IH]; intros s s' Hl Hl' Hs Hs' E.
  { destruct s, s'; done. }
  destruct s as [|a [|b s]], s' as [|a' [|b' s']]; unfold slen in Hl, Hl'; simpl in Hl, Hl'; try lia.
  unfold string_forall in Hs, Hs'. simpl in Hs, Hs'.
  apply andb_true_iff in Hs as [Ha [Hb Hs]%andb_true_iff]. apply andb_true_iff in Hs' as [Ha' [Hb' Hs']%andb_true_iff].
  destruct (lower_hex_value a Ha) as (x & Ex & Hx), (lower_hex_value b Hb) as (y & Ey & Hy),
    (lower_hex_value a' Ha') as (x' & Ex' & Hx'), (lower_hex_value b' Hb') as (y' & Ey' & Hy').
  simpl in E. rewrite Ex, Ey, Ex', Ey' in E. injection E as E1 E2.
  rewrite (lower_hex_inj a a'), (lower_hex_inj b b'), (IH s s'); try done; unfold slen; try lia; rewrite ?Ex, ?Ey, ?Ex', ?Ey'; f_equal; lia.
Qed.

Lemma after_v1_skip s mac :
  string_forall is_digit s = true -> after_v1 (s +:+ ",v1=" +:+ mac) = mac.
Proof.
  induction s as [|c s IH]; intros Hs.
  - change ("" +:+ ",v1=" +:+ mac) with (String "," ("v1=" +:+ mac)). cbn [after_v1].
    replace (starts_with "v1=" (String "," ("v1=" +:+ mac))) with false by done.
    change ("v1=" +:+ mac) with (String "v" (String "1" (String "=" mac))). cbn [after_v1].
    replace (starts_with "v1=" (String "v" (String "1" (String "=" mac)))) with true by (unfold starts_with; simpl; by destruct mac).
    unfold string_drop. simpl. apply list_to_string_to_list.
  - unfold string_forall in Hs. simpl in Hs. apply andb_true_iff in Hs as [Hc Hs]. rewrite string_cons_app. cbn [after_v1].
    replace (starts_with "v1=" (String c (s +:+ ",v1=" +:+ mac))) with false; [by apply IH|].
    unfold starts_with. cbn [String.prefix]. destruct (ascii_dec "v" c) as [<-|]; [by vm_compute in Hc|done].
Qed.

Lemma hex_no sep s : lower_hex sep = false -> string_forall lower_hex s = true ->
  string_forall (fun c => negb (bool_decide (c = sep))) s = true.
Proof.
  intros Hsep. apply string_forall_impl. intros c Hc. apply negb_true_iff, bool_decide_eq_false. intros ->. congruence.
Qed.

Lemma digit_hex s : string_forall is_digit s = true -> string_forall lower_hex s = true.
Proof. apply string_forall_impl. intros c Hc. unfold lower_hex. by rewrite Hc. Qed.

Section Signatures.
Context `{NodeLib}.
(** What [digest("hex")] of a SHA-256 HMAC prints: 64 lower-case hex digits. *)
Context (hmac_hex : forall k m, slen (hmac_sha256_hex k m) = 64%nat /\ string_forall lower_hex (hmac_sha256_hex k m) = true).

Lemma header_parts secret t body : 0 <= t ->
  header_part "t" (signWebhook secret t body) = Some (Z_to_string t) /\
  header_part "v1" (signWebhook secret t body) = Some (hmac_sha256_hex secret (Z_to_string t +:+ "." +:+ body)).
Proof.
  intros Ht. destruct (Z_to_string_nonneg t Ht) as (_ & Hd & _). unfold signWebhook, header_part.
  set (mac := hmac_sha256_hex _ _). destruct (hmac_hex secret (Z_to_string t +:+ "." +:+ body)) as [_ Hm]. fold mac in Hm.
  rewrite string_app_assoc. change (",v1=" +:+ mac) with (String "," ("v1=" +:+ mac)).
  apply digit_hex in Hd. rewrite split_on_app.
  2: { rewrite string_forall_app. by rewrite (hex_no "," (Z_to_string t)). }
  rewrite (split_on_none "," ("v1=" +:+ mac)) by (rewrite string_forall_app; by rewrite (hex_no "," mac)).
  cbn [List.map]. change ("t=" +:+ Z_to_string t) with ("t" +:+ String "=" (Z_to_string t)).
  change ("v1=" +:+ mac) with ("v1" +:+ String "=" mac).
  rewrite !split_on_app by done. rewrite (split_on_none "=" (Z_to_string t)), (split_on_none "=" mac) by (by apply hex_no). done.
Qed.

(** A subscriber accepts a signed delivery exactly if it arrives within five minutes of its
    timestamp, on either side, and its body has the HMAC of the body that was signed. *)
Theorem signature_verifies secret (t nowS : Z) (body body' : string) (Ht : 0 <= t) :
  verifyWebhook secret (signWebhook secret t body) body' nowS = true <->
  Z.abs (nowS - t) <= 300 /\
  hmac_sha256_hex secret (Z_to_string t +:+ "." +:+ body) = hmac_sha256_hex secret (Z_to_string t +:+ "." +:+ body').
Proof.
  unfold verifyWebhook. destruct (header_parts secret t body Ht) as [-> ->].
  destruct (Z_to_string_nonneg t Ht) as (Hne & Hd & Hr).
  assert (Number_integer (Some (Z_to_string t)) = Some t) as ->.
  { unfold Number_integer. rewrite <- (string_app_nil_r (Z_to_string t)) at 1. rewrite no_minus_head by done.
    unfold Number, eqs. by rewrite bool_decide_false. }
  destruct (hmac_hex secret (Z_to_string t +:+ "." +:+ body)) as [Hl Hm].
  destruct (hmac_hex secret (Z_to_string t +:+ "." +:+ body')) as [Hl' Hm'].
  assert (after_v1 (signWebhook secret t body') = hmac_sha256_hex secret (Z_to_string t +:+ "." +:+ body')) as ->.
  { unfold signWebhook. exact (after_v1_skip _ _ Hd). }
  set (mac := hmac_sha256_hex secret (Z_to_string t +:+ "." +:+ body)) in *.
  set (mac' := hmac_sha256_hex secret (Z_to_string t +:+ "." +:+ body')) in *.
  unfold eqs. rewrite (bool_decide_false (mac = "")) by (intros E; by rewrite E in Hl). cbn [orb].
  unfold SIGNATURE_TOLERANCE_S. destruct (Z.ltb_spec 300 (Z.abs (nowS - t))); [split; [done|lia]|].
  rewrite bool_decide_eq_true. split.
  - intros E. split; [lia|]. symmetry. by apply (Buffer_from_hex_inj 32).
  - by intros [_ ->].
Qed.
End Signatures.

(** ** A concrete round: a subscriber at a public address that answers 200, and one behind a name
    that resolves to the cloud metadata address. *)
Definition sample_node : NodeLib := {|
  new_URL s := if eqs s "https://ok.example/h" then Some (Url s "https:" "" "" "ok.example")
               else if eqs s "https://evil.example/" then Some (Url s "https:" "" "" "evil.example") else None;
  isIP s := if negb (string_forall (fun c => negb (bool_decide (c = ":"%char))) s) then 6
            else if string_forall (fun c => is_digit c || bool_decide (c = "."%char)) s then 4 else 0;
  hmac_sha256_hex k m := if eqs m "1.x" then repeat_char "a" 64 else repeat_char "b" 64;
  decryptSecret c k := Ok c;
  JSON_stringify v := "{}" |}.

Lemma dotted_has_no_colon a b c d : Forall octet [a; b; c; d] ->
  string_forall (fun c => is_digit c || bool_decide (c = "."%char)) (dotted a b c d) = true /\
  string_forall (fun c => negb (bool_decide (c = ":"%char))) (dotted a b c d) = true.
Proof.
  intros Ho.
  assert (Hd : string_forall (fun c => is_digit c || bool_decide (c = "."%char)) (dotted a b c d) = true).
  { rewrite !Forall_cons in Ho. destruct Ho as (Ha & Hb & Hc & Hd & _). unfold dotted. cbn [List.map join].
    assert (Hn : forall n, octet n -> string_forall (fun c => is_digit c || bool_decide (c = "."%char)) (Z_to_string n) = true).
    { intros n [Hn _]. destruct (Z_to_string_nonneg n Hn) as (_ & H & _). eapply string_forall_impl; [|exact H]. intros x Hx. by rewrite Hx. }
    rewrite !string_forall_app. by rewrite (Hn _ Ha), (Hn _ Hb), (Hn _ Hc), (Hn _ Hd). }
  split; [done|]. eapply string_forall_impl; [|exact Hd]. intros x Hx. rewrite bool_decide_false; [done|]. by intros ->.
Qed.

Lemma sample_node_knows_addresses : @knows_addresses sample_node.
Proof.
  intros text addr Hw. cbn [isIP sample_node].
  assert (Hcolon : forall s t, string_forall (fun c => negb (bool_decide (c = ":"%char))) (s +:+ ":" +:+ t) = false).
  { intros s t. rewrite !string_forall_app. cbn. apply andb_false_r. }
  destruct Hw as [a b c d Ho|a b c d Ho|gs _ Hl _|pre k post _ _ _ _].
  - destruct (dotted_has_no_colon a b c d Ho) as [-> ->]. cbn [negb]. by rewrite bool_decide_true.
  - pose proof (Hcolon "" (":ffff:" +:+ dotted a b c d) : string_forall _ ("::ffff:" +:+ dotted a b c d) = false) as Hm.
    rewrite Hm. cbn [negb]. destruct (dotted_has_no_colon a b c d Ho) as [_ Hn].
    rewrite bool_decide_false; [done|]. intros E. rewrite E in Hm. congruence.
  - destruct gs as [|g [|g' gs]]; [done|done|]. change (hex_text (g :: g' :: gs)) with (hex_group g +:+ ":" +:+ hex_text (g' :: gs)).
    by rewrite Hcolon.
  - by rewrite (Hcolon (hex_text pre) (":" +:+ hex_text post) : string_forall _ (hex_text pre +:+ "::" +:+ hex_text post) = false).
Qed.

Definition sample_subscriber (X : Type) (n : nat) (c : WebhookCall X) : outcome X :=
  match c in WebhookCall X return outcome X with
  | ResolveHost h => Ok [if eqs h "ok.example" then "93.184.216.34" else "169.254.169.254"]
  | Fetch _ _ _ => Ok 200
  end.

Definition sample_round_env : env WebhookCall :=
  Env sample_subscriber (fun _ => NoFault) (fun n => Stamp (Z.of_nat n) (pretty (N.of_nat n))).

Definition sample_deliveries : Database :=
  set_table webhookSubscription
    [WebhookSubscription "s1" "p1" "https://ok.example/h" (JArr []) "k1" true 0;
     WebhookSubscription "s2" "p2" "https://evil.example/" (JArr []) "k2" true 0]
  (set_table webhookDelivery
    [WebhookDelivery "d1" "s1" "e1" "exit.filled" JNull "pending" 0 0 None 0 None;
     WebhookDelivery "d2" "s2" "e1" "exit.filled" JNull "pending" 5 0 None 0 None;
     WebhookDelivery "d3" "s1" "e2" "exit.filled" JNull "pending" 1 9999 None 0 None] empty_db).

Lemma round_settles_by_the_rules_witness :
  let '(r, w) := run sample_round_env (@deliverDue sample_node 1000 "k" false) (World sample_deliveries 0 []) in
  (forall t, t <> webhookDelivery -> w_db w t = sample_deliveries t) /\
  exists outs, (exists rest, due_deliveries 1000 sample_deliveries = List.map a_row outs ++ rest) /\
    Forall2 (@round_row sample_node 1000 sample_deliveries outs) (sample_deliveries webhookDelivery) (w_db w webhookDelivery) /\
    forall t, r = Ok t -> List.map a_row outs = due_deliveries 1000 sample_deliveries /\ tally_of outs t.
Proof. apply (@round_settles_by_the_rules sample_node). by apply (bool_decide_eq_true_1 (NoDup _)). Defined.

Lemma round_posts_only_where_allowed_witness :
  let '(r, w) := run sample_round_env (@deliverDue sample_node 1000 "k" false) (World sample_deliveries 0 []) in
  exists outs, (exists rest, due_deliveries 1000 sample_deliveries = List.map a_row outs ++ rest) /\
    w_log w = List.concat (List.map a_trace outs) /\
    Forall (fun a => @attempt sample_node 1000 "k" false sample_deliveries (@public_address sample_node) (a_row a) (a_trace a) (a_status a)) outs.
Proof.
  apply (@round_posts_only_where_allowed sample_node); [by apply (bool_decide_eq_true_1 (NoDup _))|exact sample_node_knows_addresses].
Defined.

(** The check on concrete addresses. *)
Example sample_addresses_checked :
  List.map (@isPrivateAddress sample_node) ["93.184.216.34"; "169.254.169.254"; "100.64.0.1"; "::ffff:10.0.0.1"; "::1"; "fd00::1"; "2606:2800::1"]
  = [false; true; true; true; true; true; false].
Proof. vm_compute. reflexivity. Qed.

Example sample_round :
  let '(r, w) := run sample_round_env (@deliverDue sample_node 1000 "k" false) (World sample_deliveries 0 []) in
  r = Ok (Delivered 1 0 1) /\
  List.map (fun r => (wd_id r, wd_status r, wd_attempts r)) (w_db w webhookDelivery)
    = [("d1", "delivered", 1); ("d2", "dead", 6); ("d3", "pending", 1)] /\
  List.length (List.filter is_fetch (w_log w)) = 1%nat.
Proof. vm_compute. auto. Qed.

Lemma signature_verifies_witness :
  (forall k m, slen (@hmac_sha256_hex sample_node k m) = 64%nat /\ string_forall lower_hex (@hmac_sha256_hex sample_node k m) = true) /\
  (@verifyWebhook sample_node "k" (@signWebhook sample_node "k" 1 "x") "x" 301 = true <->
   Z.abs (301 - 1) <= 300 /\
   @hmac_sha256_hex sample_node "k" (Z_to_string 1 +:+ "." +:+ "x") = @hmac_sha256_hex sample_node "k" (Z_to_string 1 +:+ "." +:+ "x")).
Proof.
  assert (Hh : forall k m, slen (@hmac_sha256_hex sample_node k m) = 64%nat /\ string_forall lower_hex (@hmac_sha256_hex sample_node k m) = true).
  { intros k m. simpl. by case_match. }
  split; [exact Hh|]. apply (@signature_verifies sample_node Hh "k" 1 301 "x" "x"). lia.
Defined.

(** A tampered body and a late delivery are refused. *)
Example sample_refusals :
  (@verifyWebhook sample_node "k" (@signWebhook sample_node "k" 1 "x") "y" 1,
   @verifyWebhook sample_node "k" (@signWebhook sample_node "k" 1 "x") "x" 302) = (false, false).
Proof. vm_compute. reflexivity. Qed.

(** Blocks that no network routes to, or that are translated to any IPv4 address, are let through. *)
Example blocks_let_through :
  List.map (@isPrivateAddress sample_node) ["192.0.2.1"; "198.51.100.1"; "2001:db8::1"; "64:ff9b::a00:1"; "2002:a00:1::"]
  = [false; false; false; false; false].
Proof. vm_compute. reflexivity. Qed.

(** The URL check knows an IPv4-mapped address only in its dotted form: the loopback address written
    as Node's URL parser prints it, [::ffff:7f00:1], is not private. *)
Definition mapped_node : NodeLib := {|
  new_URL s := Some (Url s "https:" "" "" "[::ffff:7f00:1]");
  isIP s := if eqs s "::ffff:7f00:1" || eqs s "::ffff:127.0.0.1" then 6 else 0;
  hmac_sha256_hex k m := ""; decryptSecret c k := Ok c; JSON_stringify v := "" |}.

Lemma mapped_loopback_is_accepted :
  @isPrivateAddress mapped_node "::ffff:127.0.0.1" = true /\
  let '(r, w) := run (D := Database) (Out := string) sample_round_env
      (@assertSafeWebhookUrl mapped_node "https://[::ffff:127.0.0.1]/" false) (World empty_db 0 []) in
  is_ok r = true.
Proof. vm_compute. auto. Qed.
