(* ===== verification/ApiKeys.v ===== *)
(** [services/api/src/apiKeys.ts], [session-token.ts] and [auth.ts]: institution API keys, the rate
    window and the hook that authenticates every request. *)
From stdpp Require Import gmap.
From S2P Require Import Prelude Prog Settings Schema Rules Webhooks.

(** SHA-256, and [jwt.verify] of the jsonwebtoken package: the [sub] claim of a token, if any. *)
Class AuthLib := {
  sha256_hex : string -> string;
  jwt_verify : string -> string -> list string -> string -> string -> outcome (option string) }.

(** These modules call nothing outside the database. *)
Inductive NoCall : Type -> Type := .
Notation auth_prog := (prog Database NoCall unit).
Notation auth_world := (world Database NoCall unit).

Definition TIMESTAMP_TOLERANCE_S : Z := 300.
Definition NONCE_RETENTION_S : Z := 2 * TIMESTAMP_TOLERANCE_S.

Definition is_letter (c : ascii) : bool :=
  ((65 <=? char_code c) && (char_code c <=? 90)) || ((97 <=? char_code c) && (char_code c <=? 122)).

(** [NONCE_FORMAT], [/^[A-Za-z0-9_-]{16,64}$/]. *)
Definition NONCE_FORMAT (s : string) : bool :=
  (16 <=? slen s)%nat && (slen s <=? 64)%nat &&
  string_forall (fun c => is_letter c || is_digit c || (char_code c =? 95) || (char_code c =? 45)) s.

(** [/^\d+$/]. *)
Definition TIMESTAMP_FORMAT (s : string) : bool := negb (eqs s "") && string_forall is_digit s.

Definition newline : string := String (ascii_of_nat 10) "".

(** The arguments of [canonicalRequest]. *)
Record RequestArgs := Args {
  ar_timestamp : string; ar_nonce : string; ar_method : string; ar_url : string; ar_rawBody : string }.

Inductive ApiKeyFailure :=
| unknown_key | revoked | bad_timestamp | stale_timestamp | bad_nonce | bad_signature | replayed.

Definition failure_text (f : ApiKeyFailure) : string :=
  match f with
  | unknown_key => "unknown_key" | revoked => "revoked" | bad_timestamp => "bad_timestamp"
  | stale_timestamp => "stale_timestamp" | bad_nonce => "bad_nonce" | bad_signature => "bad_signature"
  | replayed => "replayed"
  end.

Inductive ApiKeyResult :=
| KeyOk (partyId stellarAccount keyId : string)
| KeyRefused (reason : ApiKeyFailure).

Record SignedRequest := Signed {
  sr_keyId : string; sr_signature : string; sr_timestamp : option string; sr_nonce : option string;
  sr_method : string; sr_url : string; sr_rawBody : string }.

(** [Number] of a string of decimal digits. *)
Definition decimal (s : string) : Z := default 0 (read_digits 10 hex_value 0 s).

Section Keys.
Context `{NodeLib, AuthLib}.

Definition canonicalRequest (args : RequestArgs) : string :=
  let bodyHash := sha256_hex (ar_rawBody args) in
  join newline ["v1"; ar_timestamp args; ar_nonce args; toUpperCase (ar_method args); ar_url args; bodyHash].

Definition signRequest (secret : string) (args : RequestArgs) : string :=
  hmac_sha256_hex secret (canonicalRequest args).

(** [Math.abs(nowMs / 1000 - Number(timestamp)) > TIMESTAMP_TOLERANCE_S], in milliseconds. *)
Definition stale (nowMs : Z) (timestamp : string) : bool :=
  TIMESTAMP_TOLERANCE_S * 1000 <? Z.abs (nowMs - 1000 * decimal timestamp).

Definition args_of (req : SignedRequest) (timestamp nonce : string) : RequestArgs :=
  Args timestamp nonce (sr_method req) (sr_url req) (sr_rawBody req).

Definition verifyApiKeyRequest (secretKey : string) (req : SignedRequest) (nowMs : Z) : auth_prog ApiKeyResult :=
  key <- select_one partyApiKey (fun k => eqs (ak_keyId k) (sr_keyId req)) ;;
  match key with
  | None => Ret (KeyRefused unknown_key)
  | Some key =>
      if negb (eqs (ak_status key) "active") then Ret (KeyRefused revoked)
      else match sr_timestamp req with
      | None => Ret (KeyRefused bad_timestamp)
      | Some timestamp =>
          if negb (TIMESTAMP_FORMAT timestamp) then Ret (KeyRefused bad_timestamp)
          else if stale nowMs timestamp then Ret (KeyRefused stale_timestamp)
          else match sr_nonce req with
          | None => Ret (KeyRefused bad_nonce)
          | Some nonce =>
              if negb (NONCE_FORMAT nonce) then Ret (KeyRefused bad_nonce)
              else
                secret <- lift (decryptSecret (ak_secretCiphertext key) secretKey) ;;
                let expected := Buffer_from_hex (signRequest secret (args_of req timestamp nonce)) in
                let given := Buffer_from_hex (sr_signature req) in
                if negb (bool_decide (expected = given)) then Ret (KeyRefused bad_signature)
                else
                  fresh <- stmt (insert_ignore apiKeyNonce (fun s => ApiKeyNonce (ak_keyId key) nonce (st_now s))) ;;
                  match fresh with
                  | [] => Ret (KeyRefused replayed)
                  | _ =>
                      stmt (update partyApiKey (fun k => eqs (ak_id k) (ak_id key)) (fun _ k =>
                        PartyApiKey (ak_id k) (ak_partyId k) (ak_stellarAccount k) (ak_keyId k) (ak_secretCiphertext k)
                          (ak_label k) (ak_status k) (ak_createdAt k) (Some nowMs) (ak_revokedAt k))) ;;;
                      Ret (KeyOk (ak_partyId key) (ak_stellarAccount key) (ak_keyId key))
                  end
          end
      end
  end.
End Keys.

Definition purgeExpiredNonces (nowMs : Z) : auth_prog unit :=
  stmt (delete apiKeyNonce (fun n => an_createdAt n <? nowMs - NONCE_RETENTION_S * 1000)).

(** ** [RateWindow] *)
Record RateEntry := Hits { re_count : Z; re_resetAt : Z }.
Notation RateWindow := (gmap string RateEntry).

Section Rate.
Context (limit windowMs : Z).

Definition sweep (nowMs : Z) (hits : RateWindow) : RateWindow :=
  filter (fun kv : string * RateEntry => nowMs < re_resetAt (snd kv)) hits.

Definition hit (key : string) (nowMs : Z) (hits : RateWindow) : bool * RateWindow :=
  let reset :=
    let hits := <[key := Hits 1 (nowMs + windowMs)]> hits in
    (true, if (10000 <? Z.of_nat (size hits)) then sweep nowMs hits else hits) in
  match hits !! key with
  | None => reset
  | Some entry =>
      if re_resetAt entry <=? nowMs then reset
      else
        let entry := Hits (re_count entry + 1) (re_resetAt entry) in
        (re_count entry <=? limit, <[key := entry]> hits)
  end.

Definition rate_count (key : string) (nowMs : Z) (hits : RateWindow) : Z :=
  match hits !! key with
  | Some entry => if nowMs <? re_resetAt entry then re_count entry else 0
  | None => 0
  end.
End Rate.

(** ** session-token.ts *)
Definition SESSION_ALGORITHM : string := "HS256".
Definition SESSION_ISSUER : string := "ballast-api".
Definition SESSION_AUDIENCE : string := "ballast-api".

Definition verifySessionToken `{AuthLib} (token secret : string) : outcome string :=
  decoded <-? jwt_verify token secret [SESSION_ALGORITHM] SESSION_ISSUER SESSION_AUDIENCE ;;
  match decoded with
  | Some sub => if eqs sub "" then Err (Error "token has no sub claim") else Ok sub
  | None => Err (Error "token has no sub claim")
  end.

(** ** auth.ts *)
Definition FAILURES_PER_MINUTE : Z := 30.
Definition REQUESTS_PER_KEY_PER_MINUTE : Z := 1000.

(** A header the request carries once; [None] when it is absent or repeated. *)
Record Request := Req {
  rq_public : bool; rq_ip : string; rq_method : string; rq_url : string; rq_rawBody : option string;
  rq_authorization : option string; rq_apiKey : option string; rq_signature : option string;
  rq_timestamp : option string; rq_nonce : option string }.

(** What the hook does to the request: nothing, an error reply, or the identity it sets. *)
Inductive AuthReply :=
| PublicRoute
| Refused (code : Z) (error : string)
| Authenticated (partyId stellarAccount authMethod : string).

(** The two windows the hook closes over. *)
Record AuthState := Windows { failures : RateWindow; perKey : RateWindow }.

Definition buildAuthHook `{NodeLib, AuthLib} (config : ApiConfig) (st : AuthState) (request : Request)
  : auth_prog (AuthReply * AuthState) :=
  if rq_public request then Ret (PublicRoute, st)
  else
    match rq_apiKey request, rq_signature request with
    | Some apiKey, Some signature =>
        s <- sample ;;
        if FAILURES_PER_MINUTE <? rate_count (rq_ip request) (st_now s) (failures st)
        then Ret (Refused 429 "too many failed authentication attempts", st)
        else
          s <- sample ;;
          result <- verifyApiKeyRequest (apiKeySecretKey config)
            (Signed apiKey signature (rq_timestamp request) (rq_nonce request) (rq_method request) (rq_url request)
               (default "" (rq_rawBody request))) (st_now s) ;;
          s <- sample ;;
          match result with
          | KeyRefused reason =>
              let '(_, f) := hit FAILURES_PER_MINUTE 60000 (rq_ip request) (st_now s) (failures st) in
              Ret (Refused 401 ("api key authentication failed: " +:+ failure_text reason), Windows f (perKey st))
          | KeyOk partyId stellarAccount keyId =>
              let '(ok, p) := hit REQUESTS_PER_KEY_PER_MINUTE 60000 keyId (st_now s) (perKey st) in
              let st := Windows (failures st) p in
              if negb ok then Ret (Refused 429 "api key rate limit exceeded", st)
              else Ret (Authenticated partyId stellarAccount "api_key", st)
          end
    | _, _ =>
        match rq_authorization request with
        | Some authHeader =>
            if starts_with "Bearer " authHeader
            then
              match verifySessionToken (string_drop 7 authHeader) (jwtSigningSecret config) with
              | Err _ => Ret (Refused 401 "invalid or expired token", st)
              | Ok stellarAccount =>
                  account <- select_one partyAccount (fun a => eqs (pc_stellarAccount a) stellarAccount) ;;
                  match account with
                  | None => Ret (Refused 401 "stellar account not linked to a known party", st)
                  | Some account => Ret (Authenticated (pc_partyId account) stellarAccount "session", st)
                  end
              end
            else Ret (Refused 401 "missing bearer token or api key/signature", st)
        | None => Ret (Refused 401 "missing bearer token or api key/signature", st)
        end
    end.
