(* ===== verification/ApiKeySafety.v ===== *)
(** What authentication guarantees: an identity only with its proof, no signed request accepted twice,
    signatures that pin every part of a request, and rate windows that count. *)
From stdpp Require Import gmap sorting.
From S2P Require Import Prelude Prog Settings Schema Rules Webhooks ApiKeys.

Section Verify.
Context `{NodeLib, AuthLib} (e : env NoCall).
Notation Adm := (stamped_by e).
Notation world := auth_world.
Implicit Types w : world.

(** [req] carries a signature of [key]'s secret over its content, fresh at [nowMs]. *)
Definition signed_by (secretKey : string) (req : SignedRequest) (nowMs : Z) (key : partyApiKey_row)
    (timestamp nonce : string) : Prop :=
  sr_keyId req = ak_keyId key /\ ak_status key = "active" /\
  sr_timestamp req = Some timestamp /\ TIMESTAMP_FORMAT timestamp = true /\
  Z.abs (nowMs - 1000 * decimal timestamp) <= 300000 /\
  sr_nonce req = Some nonce /\ NONCE_FORMAT nonce = true /\
  exists secret, decryptSecret (ak_secretCiphertext key) secretKey = Ok secret /\
    Buffer_from_hex (signRequest secret (args_of req timestamp nonce)) = Buffer_from_hex (sr_signature req).

Definition nonce_used (d : Database) (k n : string) : Prop :=
  exists r, In r (d apiKeyNonce) /\ an_keyId r = k /\ an_nonce r = n.

(** What one verification does to the books. *)
Definition Verified (secretKey : string) (req : SignedRequest) (nowMs : Z) w (r : outcome ApiKeyResult) w' : Prop :=
  (w_tick w <= w_tick w')%nat /\
  (forall row, In row (w_db w apiKeyNonce) -> In row (w_db w' apiKeyNonce)) /\
  match r with
  | Ok (KeyOk p a k) => exists key timestamp nonce n,
      In key (w_db w partyApiKey) /\ p = ak_partyId key /\ a = ak_stellarAccount key /\ k = ak_keyId key /\
      signed_by secretKey req nowMs key timestamp nonce /\ ~ nonce_used (w_db w) k nonce /\
      (w_tick w <= n)%nat /\
      w_db w' apiKeyNonce = w_db w apiKeyNonce ++ [ApiKeyNonce k nonce (st_now (stamps e n))]
  | Ok (KeyRefused _) => w_db w' = w_db w
  | Err _ => True
  end.

Lemma wp_verifyApiKeyRequest secretKey req nowMs w :
  wp Adm (verifyApiKeyRequest secretKey req nowMs) (Verified secretKey req nowMs w) w.
Proof.
  unfold verifyApiKeyRequest, select_one.
  assert (Hno : forall r w', w_db w' = w_db w -> (w_tick w <= w_tick w')%nat ->
    match r with Ok (KeyOk _ _ _) => False | _ => True end -> Verified secretKey req nowMs w r w').
  { intros r w' Hd Ht Hr. split; [done|]. rewrite Hd. split; [done|]. by destruct r as [[]|]. }
  wp_step. wp_step. wp_step; [intros x; apply Hno; simpl; by auto|]. wp_step.
  destruct (hd_error _) as [key|] eqn:Ekey; [|wp_step; apply Hno; simpl; by auto].
  apply head_filter_In in Ekey as [Hin Hk]. apply bool_decide_eq_true in Hk.
  assert (Hno' : forall f, Verified secretKey req nowMs w (Ok (KeyRefused f)) (tick w)) by (intros f; apply Hno; simpl; by auto).
  wp_step; [by wp_step|]. apply negb_false_iff, bool_decide_eq_true in E.
  destruct (sr_timestamp req) as [timestamp|] eqn:Ets; [|by wp_step].
  wp_step; [by wp_step|]. apply negb_false_iff in E0. wp_step; [by wp_step|]. apply Z.ltb_ge in E1.
  destruct (sr_nonce req) as [nonce|] eqn:En; [|by wp_step].
  wp_step; [by wp_step|]. apply negb_false_iff in E2.
  wp_step. wp_step. destruct (decryptSecret _ _) as [secret|x] eqn:Es; [|apply Hno; simpl; by auto]. cbv zeta.
  wp_step; [by wp_step|]. apply negb_false_iff, bool_decide_eq_true in E3.
  wp_step. apply wp_stmt_op. split; [intros x; apply Hno; simpl; by auto|]. intros s Hs. simpl in Hs. subst s.
  unfold insert_ignore. cbn [in_range negb]. set (row := ApiKeyNonce _ _ _).
  destruct (conflicts apiKeyNonce row _) eqn:Ec; cbn [references_ok negb].
  { split; [wp_step; apply Hno; simpl; by auto|intros x _; apply Hno; simpl; by auto]. }
  assert (Hfresh : ~ nonce_used (w_db w) (ak_keyId key) nonce).
  { intros (r & Hr & H1 & H2). apply not_true_iff_false in Ec. apply Ec, existsb_exists. exists r. split; [exact Hr|].
    cbn [conflict]. apply andb_true_iff. split; by apply bool_decide_eq_true. }
  assert (Hgrow : forall w' : world, w_db w' apiKeyNonce = w_db w apiKeyNonce ++ [row] -> forall r, In r (w_db w apiKeyNonce) -> In r (w_db w' apiKeyNonce)).
  { intros w' -> r Hr. apply in_app_iff. by left. }
  split; [|intros x _; split; [simpl; lia|]; split; [|done]; apply Hgrow; simpl; by rewrite set_table_same].
  wp_step. wp_step; [intros x; split; [simpl; lia|]; split; [|done]; apply Hgrow; simpl; by rewrite set_table_same|].
  intros s0. split; [|intros x; split; [simpl; lia|]; split; [|done]; apply Hgrow; simpl; by db_simpl].
  wp_step. split; [simpl; lia|]. split; [apply Hgrow; simpl; by db_simpl|].
  exists key, timestamp, nonce, (w_tick (tick w)). split; [done|]. do 3 (split; [done|]).
  split. { split; [done|]. split; [done|]. split; [done|]. split; [done|]. split; [unfold TIMESTAMP_TOLERANCE_S in E1; lia|].
    split; [done|]. split; [done|]. by exists secret. }
  split; [done|]. split; [simpl; lia|]. simpl. by db_simpl.
Qed.

(** ** Replays *)
(** The service's work on API keys: requests verified, and the periodic purge of nonces, each at the
    clock it reads. *)
Inductive KeyTask := VerifyNow (req : SignedRequest) | PurgeNow.

Definition do_task (secretKey : string) (t : KeyTask) : auth_prog (outcome ApiKeyResult) :=
  s <- sample ;;
  match t with
  | VerifyNow req => attempt (verifyApiKeyRequest secretKey req (st_now s))
  | PurgeNow => r <- attempt (purgeExpiredNonces (st_now s)) ;; Ret (Err (Error "purged"))
  end.

Definition serve (secretKey : string) (tasks : list KeyTask) : auth_prog (list (KeyTask * outcome ApiKeyResult)) :=
  fold (fun acc t => r <- do_task secretKey t ;; Ret (acc ++ [(t, r)])) [] tasks.

(** Key, nonce and timestamp of an accepted request. *)
Definition accepted (x : KeyTask * outcome ApiKeyResult) : list (string * string * Z) :=
  match x with
  | (VerifyNow req, Ok (KeyOk _ _ k)) =>
      match sr_nonce req, sr_timestamp req with Some n, Some t => [(k, n, decimal t)] | _, _ => [] end
  | _ => []
  end.
Definition all_accepted (l : list (KeyTask * outcome ApiKeyResult)) := List.concat (List.map accepted l).

Lemma all_accepted_snoc l x : all_accepted (l ++ [x]) = all_accepted l ++ accepted x.
Proof. unfold all_accepted. rewrite List.map_app, concat_app. simpl. by rewrite app_nil_r. Qed.

(** A request accepted at time [at_] is on file as long as it could pass for fresh. *)
Definition remembered w (k n : string) (t : Z) : Prop :=
  exists at_, Z.abs (at_ - 1000 * t) <= 300000 /\
    ((exists r, In r (w_db w apiKeyNonce) /\ an_keyId r = k /\ an_nonce r = n /\ at_ <= an_createdAt r) \/
     (forall m, (w_tick w <= m)%nat -> at_ + 600000 < st_now (stamps e m))).

Definition replay_safe (l : list (KeyTask * outcome ApiKeyResult)) w : Prop :=
  NoDup (all_accepted l) /\ forall k n t, In (k, n, t) (all_accepted l) -> remembered w k n t.

Context (clock : forall n m, (n <= m)%nat -> st_now (stamps e n) <= st_now (stamps e m)).

Lemma remembered_later w w' k n t :
  (w_tick w <= w_tick w')%nat -> (forall row, In row (w_db w apiKeyNonce) -> In row (w_db w' apiKeyNonce)) ->
  remembered w k n t -> remembered w' k n t.
Proof.
  intros Ht Hrows (at_ & Ha & [(r & Hr & H1 & H2 & H3)|Hp]); exists at_; (split; [done|]).
  - left. exists r. auto.
  - right. intros m Hm. apply Hp. lia.
Qed.

(** The window closes before the nonce is forgotten. *)
Lemma remembered_purge w w' now k n t :
  (w_tick w <= w_tick w')%nat -> (forall m, (w_tick w' <= m)%nat -> now <= st_now (stamps e m)) ->
  (forall row, In row (w_db w apiKeyNonce) -> now - 600000 <= an_createdAt row -> In row (w_db w' apiKeyNonce)) ->
  remembered w k n t -> remembered w' k n t.
Proof.
  intros Ht Hnow Hrows (at_ & Ha & [(r & Hr & H1 & H2 & H3)|Hp]); exists at_; (split; [done|]).
  - destruct (Z.le_gt_cases (now - 600000) (an_createdAt r)).
    + left. exists r. auto.
    + right. intros m Hm. specialize (Hnow m Hm). lia.
  - right. intros m Hm. apply Hp. lia.
Qed.

Lemma wp_do_task secretKey t l w :
  replay_safe l w ->
  wp Adm (do_task secretKey t) (fun r w' => match r with Ok a => replay_safe (l ++ [(t, a)]) w' | Err _ => False end) w.
Proof.
  intros [Hnd Hrem]. unfold do_task. wp_step. cbn [wp sample]. intros s Hs. simpl in Hs. subst s.
  set (now := st_now _).
  assert (Hclock : forall m, (w_tick w <= m)%nat -> now <= st_now (stamps e m)) by (intros m; apply clock).
  assert (Hquiet : forall x w', accepted x = [] -> (forall k n t, In (k, n, t) (all_accepted l) -> remembered w' k n t) -> replay_safe (l ++ [x]) w').
  { intros x w' Hx Hr. split; rewrite all_accepted_snoc, Hx, app_nil_r; done. }
  destruct t as [req|].
  - wp_step. eapply wp_mono; [|apply wp_verifyApiKeyRequest]. intros r w' (Ht & Hrows & Hr). simpl in Ht, Hrows.
    assert (Hold : forall k n t, In (k, n, t) (all_accepted l) -> remembered w' k n t).
    { intros k n t Hin. apply (remembered_later w); [lia|done|by apply Hrem]. }
    destruct r as [[p a k|f]|x]; [|by apply Hquiet..].
    destruct Hr as (key & ts & nonce & n & _ & _ & _ & Ek & Hsig & Hfresh & Hn & Hnew). simpl in Hn, Hnew, Hfresh.
    destruct Hsig as (_ & _ & Ets & _ & Hts & En & _). fold now in Hts.
    split; rewrite all_accepted_snoc; unfold accepted; rewrite Ets, En.
    + apply NoDup_app. split; [done|]. split; [|apply NoDup_singleton].
      intros [[k1 n1] t1] Hin%list_elem_of_In E%list_elem_of_singleton. injection E as -> -> ->.
      destruct (Hrem _ _ _ Hin) as (at_ & Ha & [(r & Hr & H1 & H2 & _)|Hp]).
      * apply Hfresh. by exists r.
      * specialize (Hp (w_tick w) (le_n _)). fold now in Hp. lia.
    + intros k1 n1 t1 [Hin|[[= <- <- <-]|[]]]%in_app_iff; [by apply Hold|].
      exists now. split; [done|]. left. eexists. rewrite Hnew. split; [apply in_app_iff; right; by left|].
      split; [done|]. split; [done|]. simpl. apply Hclock. lia.
  - wp_step. wp_step. unfold purgeExpiredNonces. wp_step.
    + intros x. wp_step. apply Hquiet; [done|]. intros k n t Hin. apply (remembered_later w); [simpl; lia|done|by apply Hrem].
    + assert (Hp : replay_safe (l ++ [(PurgeNow, Err (Error "purged"))])
        (after (tick w) (set_table apiKeyNonce (List.filter (fun r => negb (an_createdAt r <? now - NONCE_RETENTION_S * 1000))
          (w_db (tick w) apiKeyNonce)) (w_db (tick w))))).
      { apply Hquiet; [done|]. intros k n t Hin. apply (remembered_purge w _ now); [simpl; lia| | |by apply Hrem].
        - intros m Hm. simpl in Hm. apply Hclock. lia.
        - intros row Hrow Hc. simpl. db_simpl. apply filter_In. split; [done|]. apply negb_true_iff, Z.ltb_ge.
          unfold NONCE_RETENTION_S, TIMESTAMP_TOLERANCE_S. lia. }
      split; [wp_step; exact Hp|intros x; wp_step; exact Hp].
Qed.
End Verify.

(** C16. However many requests are verified and nonces purged, in whatever order and whatever the
    database does, no two accepted requests share key, nonce and timestamp, as long as the clock does
    not go back: a nonce is kept until its request is too old to pass. *)
Theorem no_request_accepted_twice `{NodeLib, AuthLib} (e : env NoCall) secretKey tasks (d : Database)
    (clock : forall n m, (n <= m)%nat -> st_now (stamps e n) <= st_now (stamps e m)) :
  let '(r, w) := run e (serve secretKey tasks) (World d 0 []) in
  exists answers, r = Ok answers /\ NoDup (all_accepted answers).
Proof.
  apply (wp_sound (stamped_by e)); [auto with ballast|]. unfold serve.
  apply (wp_fold _ (fun _ l w => replay_safe e l w) (fun _ _ => False) _ _ []).
  - intros _ t l w Hl. wp_step. eapply wp_mono; [|by apply wp_do_task]. intros [a|x] w' Hw'; [|done]. by wp_step.
  - intros l w [Hnd _]. by exists l.
  - done.
  - split; [constructor|done].
Qed.

(** ** The authentication hook *)
(** The identity a request proved, on the books [d] and leaving [d']. *)
Definition proven `{NodeLib, AuthLib} (config : ApiConfig) (request : Request) (d d' : Database) (partyId account method : string) : Prop :=
  rq_public request = false /\
  ((method = "session" /\ exists token acc,
      rq_authorization request = Some ("Bearer " +:+ token) /\
      verifySessionToken token (jwtSigningSecret config) = Ok account /\
      In acc (d partyAccount) /\ pc_stellarAccount acc = account /\ pc_partyId acc = partyId) \/
   (method = "api_key" /\ exists key signature nowMs timestamp nonce,
      In key (d partyApiKey) /\ ak_partyId key = partyId /\ ak_stellarAccount key = account /\
      rq_apiKey request = Some (ak_keyId key) /\ rq_signature request = Some signature /\
      signed_by (apiKeySecretKey config)
        (Signed (ak_keyId key) signature (rq_timestamp request) (rq_nonce request) (rq_method request)
           (rq_url request) (default "" (rq_rawBody request))) nowMs key timestamp nonce /\
      ~ nonce_used d (ak_keyId key) nonce /\ nonce_used d' (ak_keyId key) nonce)).

Lemma wp_buildAuthHook `{NodeLib, AuthLib} (e : env NoCall) config st request (w0 : auth_world) :
  wp (stamped_by e) (buildAuthHook config st request) (fun r w => forall reply st', r = Ok (reply, st') ->
  match reply with
  | PublicRoute => rq_public request = true
  | Refused code _ => code = 401 \/ code = 429
  | Authenticated partyId account method => proven config request (w_db w0) (w_db w) partyId account method
  end) w0.
Proof.
  unfold buildAuthHook, proven. remember (w_db w0) as d eqn:Ed0. symmetry in Ed0.
  destruct (rq_public request); [wp_step; by intros ? ? [= <- <-]|].
  assert (Hbearer : forall w : auth_world, w_db w = d -> wp (stamped_by e) (match rq_authorization request with
     | Some authHeader => if starts_with "Bearer " authHeader
         then match verifySessionToken (string_drop 7 authHeader) (jwtSigningSecret config) with
              | Err _ => Ret (Refused 401 "invalid or expired token", st)
              | Ok stellarAccount =>
                  account <- select_one partyAccount (fun a => eqs (pc_stellarAccount a) stellarAccount) ;;
                  match account with
                  | None => Ret (Refused 401 "stellar account not linked to a known party", st)
                  | Some account => Ret (Authenticated (pc_partyId account) stellarAccount "session", st)
                  end
              end
         else Ret (Refused 401 "missing bearer token or api key/signature", st)
     | None => Ret (Refused 401 "missing bearer token or api key/signature", st)
     end) (fun r w => forall reply st', r = Ok (reply, st') -> match reply with
        | PublicRoute => False | Refused code _ => code = 401 \/ code = 429
        | Authenticated partyId account method => method = "session" /\ exists token acc,
          rq_authorization request = Some ("Bearer " +:+ token) /\
          verifySessionToken token (jwtSigningSecret config) = Ok account /\
          In acc (d partyAccount) /\ pc_stellarAccount acc = account /\ pc_partyId acc = partyId end) w).
  { intros w Hd. destruct (rq_authorization request) as [h|]; [|wp_step; intros ? ? [= <- <-]; by left].
    destruct (starts_with "Bearer " h) eqn:Eb; [|wp_step; intros ? ? [= <- <-]; by left].
    destruct (verifySessionToken _ _) as [account|x] eqn:Ev; [|wp_step; intros ? ? [= <- <-]; by left].
    unfold select_one. wp_step. wp_step. wp_step; [intros x; done|]. wp_step.
    destruct (hd_error _) as [acc|] eqn:Ea; wp_step; intros ? ? [= <- <-]; [|by left].
    apply head_filter_In in Ea as [Hin Hacc]. apply bool_decide_eq_true in Hacc. rewrite Hd in Hin.
    split; [done|]. exists (string_drop 7 h), acc. split; [|done]. f_equal. by apply starts_with_drop. }
  destruct (rq_apiKey request) as [apiKey|] eqn:Ek; [destruct (rq_signature request) as [signature|] eqn:Es|].
  2,3: eapply wp_mono; [|by apply Hbearer]; intros r w Hr reply st' E; specialize (Hr _ _ E); destruct reply; auto.
  wp_step. wp_step. wp_step; [wp_step; intros ? ? [= <- <-]; by right|].
  wp_step. wp_step. wp_step. eapply wp_mono; [|apply wp_verifyApiKeyRequest].
  intros [[p a k|f]|x] w1 (Ht & Hrows & Hr); [| |done].
  - destruct Hr as (key & ts & nonce & n & Hkey & -> & -> & -> & Hsig & Hfresh & _ & Hnew).
    wp_step. wp_step. destruct (hit REQUESTS_PER_KEY_PER_MINUTE 60000 _ _ _) as [ok pw]. cbv zeta.
    wp_step; wp_step; intros ? ? [= <- <-]; [by right|]. split; [done|]. right. split; [done|].
    subst d. exists key, signature, (st_now s0), ts, nonce. pose proof Hsig as (Ekey & _). simpl in Ekey. subst apiKey.
    do 5 (split; [done|]). split; [exact Hsig|]. split; [exact Hfresh|]. eexists. simpl. rewrite Hnew. split; [apply in_app_iff; right; by left|done].
  - wp_step. wp_step. destruct (hit FAILURES_PER_MINUTE 60000 _ _ _). wp_step. intros ? ? [= <- <-]. by left.
Qed.

(** The hook lets a request to a protected route through only with the identity it proved: a
    session token for the account it then looks the party up by, or a request signed, recently and
    with a nonce never used, by an active API key of that party and account.  Whatever else happens,
    the request is refused with 401 or 429. *)
Theorem authenticated_only_with_proof `{NodeLib, AuthLib} (e : env NoCall) config st request (w0 : auth_world) :
  let '(r, w) := run e (buildAuthHook config st request) w0 in
  forall reply st', r = Ok (reply, st') ->
  match reply with
  | PublicRoute => rq_public request = true
  | Refused code _ => code = 401 \/ code = 429
  | Authenticated partyId account method => proven config request (w_db w0) (w_db w) partyId account method
  end.
Proof. apply (wp_sound (stamped_by e)); [auto with ballast|]. apply wp_buildAuthHook. Qed.

(** ** What a signature covers *)
Definition one_line : string -> Prop := lacks (ascii_of_nat 10).

(** The signed text determines every part of the request: two requests of single-line parts have
    the same canonical form only if timestamp, nonce, method, path with query and the hash of the
    body agree, so a captured signature cannot be moved to another request. *)
Theorem canonical_request_pins_every_part `{NodeLib, AuthLib} (a b : RequestArgs)
    (Hhash : forall body, one_line (sha256_hex body))
    (Ha : Forall one_line [ar_timestamp a; ar_nonce a; toUpperCase (ar_method a); ar_url a])
    (Hb : Forall one_line [ar_timestamp b; ar_nonce b; toUpperCase (ar_method b); ar_url b]) :
  canonicalRequest a = canonicalRequest b <->
  ar_timestamp a = ar_timestamp b /\ ar_nonce a = ar_nonce b /\ toUpperCase (ar_method a) = toUpperCase (ar_method b) /\
  ar_url a = ar_url b /\ sha256_hex (ar_rawBody a) = sha256_hex (ar_rawBody b).
Proof.
  unfold canonicalRequest. cbv zeta.
  assert (Hlines : forall r : RequestArgs, Forall one_line [ar_timestamp r; ar_nonce r; toUpperCase (ar_method r); ar_url r] ->
    Forall one_line ["v1"; ar_timestamp r; ar_nonce r; toUpperCase (ar_method r); ar_url r; sha256_hex (ar_rawBody r)]).
  { intros r Hr. constructor; [done|]. apply (Forall_app_2 _ [_; _; _; _] [_]); [done|]. by constructor. }
  split.
  - intros E. apply (f_equal (split_on (ascii_of_nat 10))) in E. rewrite !split_join in E by (done || by apply Hlines). by injection E.
  - by intros (-> & -> & -> & -> & ->).
Qed.

(** ** Rate windows *)
Section RateWindows.
Context (limit windowMs : Z) (Hwindow : 0 < windowMs).

(** A sequence of hits, with the answer each got. *)
Definition rate_run (hits : list (string * Z)) : list (string * Z * bool) * RateWindow :=
  foldl (fun acc h => let '(b, m) := hit limit windowMs (fst h) (snd h) (snd acc) in (fst acc ++ [(h, b)], m)) ([], ∅) hits.

(** Hits of [k] let through in the period of one window's length from [T]. *)
Definition passed (k : string) (T : Z) (x : string * Z * bool) : bool :=
  let '(k', t, b) := x in eqs k k' && b && (T <=? t) && (t <? T + windowMs).
Definition passes (k : string) (T : Z) (l : list (string * Z * bool)) : Z := Z.of_nat (List.length (List.filter (passed k T) l)).

(** One key's entry, never swept. *)
Definition key_hit (now : Z) (o : option RateEntry) : bool * RateEntry :=
  match o with
  | Some en => if re_resetAt en <=? now then (true, Hits 1 (now + windowMs))
               else (re_count en + 1 <=? limit, Hits (re_count en + 1) (re_resetAt en))
  | None => (true, Hits 1 (now + windowMs))
  end.

Definition same_entry (now : Z) (i o : option RateEntry) : Prop :=
  i = o \/ (i = None /\ exists en, o = Some en /\ re_resetAt en <= now).

Lemma sweep_lookup now (m : RateWindow) k : sweep now m !! k = m !! k \/
  (sweep now m !! k = None /\ exists en, m !! k = Some en /\ re_resetAt en <= now).
Proof.
  unfold sweep. destruct (m !! k) as [en|] eqn:E.
  - destruct (decide (now < re_resetAt en)).
    + left. apply map_lookup_filter_Some. by split.
    + right. split; [|exists en; split; [done|lia]]. apply map_lookup_filter_None. right. intros en' E' Hlt. pose proof (eq_trans (eq_sym E) E') as [= <-]. simpl in Hlt. lia.
  - left. apply map_lookup_filter_None. by left.
Qed.

(** Sweeping is not observable: a key's answers are those of its own entry. *)
Lemma hit_same k now now' (m : RateWindow) (ref : string -> option RateEntry) :
  now <= now' -> (forall k', same_entry now (m !! k') (ref k')) ->
  let '(b, m') := hit limit windowMs k now' m in
  let '(b', en) := key_hit now' (ref k) in
  b = b' /\ forall k', same_entry now' (m' !! k') (if bool_decide (k' = k) then Some en else ref k').
Proof.
  intros Hnow Href.
  assert (Hother : forall k', same_entry now' (m !! k') (ref k')).
  { intros k'. destruct (Href k') as [->|[-> (en & -> & He)]]; [by left|]. right. split; [done|]. exists en. split; [done|lia]. }
  assert (Hput : forall en k', re_resetAt en = re_resetAt en -> same_entry now' (<[k := en]> m !! k') (if bool_decide (k' = k) then Some en else ref k')).
  { intros en k' _. case_bool_decide; [subst; rewrite lookup_insert_eq; by left|rewrite lookup_insert_ne by done; apply Hother]. }
  assert (Hreset : forall k', same_entry now' ((if 10000 <? Z.of_nat (size (<[k := Hits 1 (now' + windowMs)]> m))
      then sweep now' (<[k := Hits 1 (now' + windowMs)]> m) else <[k := Hits 1 (now' + windowMs)]> m) !! k')
      (if bool_decide (k' = k) then Some (Hits 1 (now' + windowMs)) else ref k')).
  { intros k'. case_match; [|by apply Hput].
    destruct (sweep_lookup now' (<[k := Hits 1 (now' + windowMs)]> m) k') as [->|[-> (en & E & He)]]; [by apply Hput|].
    pose proof (Hput (Hits 1 (now' + windowMs)) k' eq_refl) as [Hp|[Hp _]]; rewrite E in Hp; [|done].
    rewrite <- Hp. right. split; [done|]. by exists en. }
  unfold hit, key_hit. cbv zeta. destruct (Href k) as [E|[E (en & Eo & He)]]; rewrite E.
  - destruct (ref k) as [en|]; [|done]. destruct (re_resetAt en <=? now'); [done|]. split; [done|]. intros k'. by apply Hput.
  - rewrite Eo. destruct (Z.leb_spec (re_resetAt en) now'); [done|lia].
Qed.

(** One key's window and its passes in the period from [T], at time [now]. *)
Definition in_period (T now : Z) (o : option RateEntry) (c : Z) : Prop :=
  (now < T -> c = 0) /\
  match o with
  | None => c = 0
  | Some en => let s := re_resetAt en - windowMs in let L := Z.max 1 limit in
      1 <= re_count en /\ s <= now /\ (s < T -> c <= Z.min L (re_count en)) /\
      (T <= s < T + windowMs -> c <= L + Z.min L (re_count en)) /\ c <= 2 * L
  end.

Lemma in_period_hit T now t o c : now <= t -> 0 <= c -> in_period T now o c ->
  let '(b, en) := key_hit t o in
  in_period T t (Some en) (c + (if b && (T <=? t) && (t <? T + windowMs) then 1 else 0)).
Proof.
  intros Hnow Hc [H0 Ho]. unfold key_hit. unfold in_period. cbv zeta in *.
  destruct o as [en|]; [destruct (Z.leb_spec (re_resetAt en) t); [|destruct (Z.leb_spec (re_count en + 1) limit)]|];
    cbn [re_count re_resetAt andb]; (destruct (Z.leb_spec T t), (Z.ltb_spec t (T + windowMs)); cbn [andb]; lia).
Qed.

Lemma passes_snoc k T l x : passes k T (l ++ [x]) = passes k T l + (if passed k T x then 1 else 0).
Proof. unfold passes. rewrite List.filter_app, length_app. simpl. destruct (passed k T x); simpl; lia. Qed.

Lemma rate_run_snoc hits k u :
  rate_run (hits ++ [(k, u)]) =
  let '(b, m) := hit limit windowMs k u (snd (rate_run hits)) in (fst (rate_run hits) ++ [((k, u), b)], m).
Proof. unfold rate_run. by rewrite foldl_app. Qed.

Definition in_order (hits : list (string * Z)) : Prop := StronglySorted (fun a b => snd a <= snd b) hits.

Lemma rate_run_within hits T t :
  in_order hits -> (forall a, In a hits -> snd a <= t) ->
  exists ref, (forall k, same_entry t (snd (rate_run hits) !! k) (ref k)) /\
    forall k, in_period T t (ref k) (passes k T (fst (rate_run hits))).
Proof.
  revert t. induction hits as [|[k u] hits IH] using rev_ind; intros t Hsorted Hle.
  { exists (fun _ => None). split; [by left|]. done. }
  apply StronglySorted_app in Hsorted as (Hcross & Hsorted & _).
  destruct (IH u Hsorted) as (ref & Hsame & Hwith).
  { intros a Ha. apply (Hcross a (k, u)); apply list_elem_of_In; [done|by left]. }
  assert (Hut : u <= t) by (apply (Hle (k, u)), in_app_iff; right; by left).
  rewrite rate_run_snoc. pose proof (hit_same k u u (snd (rate_run hits)) ref (Z.le_refl _) Hsame) as Hhit.
  destruct (hit limit windowMs k u _) as [b m]. cbn [fst snd].
  pose proof (in_period_hit T u u (ref k) (passes k T (fst (rate_run hits))) (Z.le_refl _) ltac:(unfold passes; lia) (Hwith k)) as Hk.
  destruct (key_hit u (ref k)) as [b' en]. destruct Hhit as [<- Hsame'].
  assert (Hlater : forall o c, in_period T u o c -> in_period T t o c).
  { intros o c [H0 Ho]. split; [intros; apply H0; lia|]. destruct o as [en0|]; [|done]. cbv zeta in *. intuition lia. }
  exists (fun k' => if bool_decide (k' = k) then Some en else ref k'). split; intros k'.
  - destruct (Hsame' k') as [->|[-> (en0 & -> & He)]]; [by left|]. right. split; [done|]. exists en0. split; [done|lia].
  - apply Hlater. rewrite passes_snoc. unfold passed, eqs. case_bool_decide as Ek.
    + subst k'. exact Hk.
    + cbn [andb]. rewrite Z.add_0_r. apply Hwith.
Qed.
End RateWindows.

(** C38. In any period of one window's length, a rate window lets through at most twice its limit of
    hits of one key, whatever other keys are hit and however often stale entries are swept. *)
Theorem rate_window_bounds (limit windowMs : Z) (hits : list (string * Z)) (k : string) (T : Z)
    (Hwindow : 0 < windowMs) (Hlimit : 1 <= limit) (Hordered : in_order hits) :
  passes windowMs k T (fst (rate_run limit windowMs hits)) <= 2 * limit.
Proof.
  assert (exists t, forall a, In a hits -> snd a <= t) as [t Ht].
  { clear. induction hits as [|a hits [t Ht]]; [by exists 0|]. exists (Z.max t (snd a)). intros b [<-|Hb]; [lia|].
    specialize (Ht b Hb). lia. }
  destruct (rate_run_within limit windowMs Hwindow hits T t Hordered Ht) as (ref & _ & Hw).
  destruct (Hw k) as [_ Ho]. destruct (ref k) as [en|]; cbv zeta in Ho; lia.
Qed.

(** ** Witnesses *)
Definition sample_key_lib : NodeLib := {|
  new_URL s := None; isIP s := 0; hmac_sha256_hex k m := "ab"; decryptSecret c k := Ok c; JSON_stringify v := "" |}.
Definition sample_auth_lib : AuthLib := {|
  sha256_hex s := "00"; jwt_verify t s _ _ _ := Err (Error "jwt malformed") |}.
Definition no_answer (X : Type) (n : nat) (c : NoCall X) : outcome X := match c in NoCall X return outcome X with end.
Definition sample_key_env : env NoCall :=
  Env no_answer (fun _ => NoFault) (fun n => Stamp (1000000 + Z.of_nat n) (pretty (N.of_nat n))).
Definition sample_keys : Database :=
  set_table partyApiKey [PartyApiKey "i" "p" "G" "bk" "secret" None "active" 0 None None] empty_db.
Definition sample_request : SignedRequest := Signed "bk" "ab" (Some "1000") (Some "0123456789abcdef") "GET" "/v1/lines" "".

Lemma no_request_accepted_twice_witness :
  let '(r, w) := run sample_key_env (@serve sample_key_lib sample_auth_lib "k" [VerifyNow sample_request; PurgeNow; VerifyNow sample_request])
    (World sample_keys 0 []) in
  exists answers, r = Ok answers /\ NoDup (all_accepted answers).
Proof. apply no_request_accepted_twice. intros n m Hnm. simpl. lia. Defined.

(** The replay is refused. *)
Example sample_replay :
  let '(r, w) := run sample_key_env (@serve sample_key_lib sample_auth_lib "k" [VerifyNow sample_request; PurgeNow; VerifyNow sample_request])
    (World sample_keys 0 []) in
  omap' (List.map snd) r = Ok [Ok (KeyOk "p" "G" "bk"); Err (Error "purged"); Ok (KeyRefused replayed)].
Proof. vm_compute. reflexivity. Qed.

Lemma canonical_request_pins_every_part_witness :
  let a := Args "1" "n" "get" "/a" "x" in let b := Args "1" "n" "GET" "/a" "y" in
  @canonicalRequest sample_auth_lib a = @canonicalRequest sample_auth_lib b <->
  ar_timestamp a = ar_timestamp b /\ ar_nonce a = ar_nonce b /\ toUpperCase (ar_method a) = toUpperCase (ar_method b) /\
  ar_url a = ar_url b /\ @sha256_hex sample_auth_lib (ar_rawBody a) = @sha256_hex sample_auth_lib (ar_rawBody b).
Proof.
  apply (@canonical_request_pins_every_part sample_key_lib sample_auth_lib); [done|repeat constructor|repeat constructor].
Defined.

Lemma rate_window_bounds_witness :
  passes 60 "a" 50 (fst (rate_run 2 60 [("a", 0); ("a", 55); ("a", 59); ("b", 60); ("a", 61); ("a", 62); ("a", 63)])) <= 2 * 2.
Proof.
  apply rate_window_bounds; [done|done|].
  repeat (constructor; [|repeat (constructor; [simpl; lia|]); constructor]). constructor.
Defined.
