(* ===== verification/Idempotency.v ===== *)
(** [services/issuer-gateway/src/idempotency.ts]: idempotency keys on the calls that create a lasting
    obligation at an issuer, and what they guarantee. *)
From S2P Require Import Prelude Prog Schema Rules.

Definition IdempotencyKeyReusedError (m : string) : exn := Exn "IdempotencyKeyReusedError" m.
Definition IdempotencyInFlightError (m : string) : exn := Exn "IdempotencyInFlightError" m.
Definition InvalidIdempotencyKeyError (m : string) : exn := Exn "InvalidIdempotencyKeyError" m.

Definition MAX_KEY_LENGTH : nat := 255.

(** The [Idempotency-Key] header: absent, sent once, or repeated. *)
Inductive KeyHeader := NoHeader | OneHeader (value : string) | ManyHeaders.

Definition readIdempotencyKey (header : KeyHeader) : outcome (option string) :=
  match header with
  | NoHeader => Ok None
  | ManyHeaders => Err (InvalidIdempotencyKeyError "send a single Idempotency-Key header")
  | OneHeader h =>
      if (slen h =? 0)%nat || (MAX_KEY_LENGTH <? slen h)%nat ||
         negb (negb (eqs h "") && string_forall (fun c => (33 <=? char_code c) && (char_code c <=? 126)) h)
      then Err (InvalidIdempotencyKeyError "Idempotency-Key must be 1-255 printable ASCII characters with no spaces")
      else Ok (Some h)
  end.

Record IdempotentRequest := IdemRequest {
  iq_issuerCode : string; iq_route : string; iq_key : string; iq_params : list (string * string) }.

(** [None] is [undefined], what an issuer with nothing to say is taken to answer. *)
Record IdempotentOutcome := IdemOutcome { io_result : option jsval; io_replayed : bool }.

(** SHA-256 of the JSON of the parameters in key order. *)
Class Fingerprint := { sha256_json : list (string * string) -> string }.

(** [Object.keys(params).sort()], by code unit. *)
Fixpoint insert_key (kv : string * string) (l : list (string * string)) : list (string * string) :=
  match l with
  | [] => [kv]
  | kv' :: l' => if String.leb (fst kv') (fst kv) then kv' :: insert_key kv l' else kv :: l
  end.
Definition sort_keys (l : list (string * string)) : list (string * string) := foldl (fun acc kv => insert_key kv acc) [] l.

Section Run.
Context `{Fingerprint} {Ext : Type -> Type} {Out : Type}.
Notation issuer_prog := (prog Database Ext Out).

Definition fingerprint (params : list (string * string)) : string := sha256_json (sort_keys params).

(** The [where] of the request's row. *)
Definition row_of (request : IdempotentRequest) (r : issuerIdempotency_row) : bool :=
  eqs (ii_issuerCode r) (iq_issuerCode request) && eqs (ii_route r) (iq_route request) &&
  eqs (ii_idempotencyKey r) (iq_key request).

Definition claim_row (request : IdempotentRequest) (s : stamp) : issuerIdempotency_row :=
  IssuerIdempotency (iq_issuerCode request) (iq_route request) (iq_key request) (fingerprint (iq_params request))
    "in_flight" JNull (st_now s) None.

(** A column set to [undefined] keeps its value. *)
Definition complete (result : option jsval) (s : stamp) (r : issuerIdempotency_row) : issuerIdempotency_row :=
  IssuerIdempotency (ii_issuerCode r) (ii_route r) (ii_idempotencyKey r) (ii_requestHash r) "completed"
    (default (ii_response r) result) (ii_createdAt r) (Some (st_now s)).

(** The claimed half of [runIdempotent]: the call, and its bookkeeping. *)
Definition run_claimed (request : IdempotentRequest) (call : issuer_prog (option jsval))
    (onStorageError : exn -> string -> issuer_prog unit) : issuer_prog IdempotentOutcome :=
  answered <- attempt call ;;
  match answered with
  | Err err =>
      released <- attempt (stmt (delete issuerIdempotency (row_of request))) ;;
      match released with
      | Ok _ => Throw err
      | Err releaseErr => onStorageError releaseErr "release" ;;; Throw err
      end
  | Ok result =>
      stored <- attempt (stmt (update issuerIdempotency (row_of request) (complete result))) ;;
      match stored with
      | Ok _ => Ret (IdemOutcome result false)
      | Err err => onStorageError err "store" ;;; Ret (IdemOutcome result false)
      end
  end.

(** [fuel] bounds the retries after a claim released in between; none is needed when nobody else
    writes the table. *)
Fixpoint runIdempotent (fuel : nat) (request : IdempotentRequest) (call : issuer_prog (option jsval))
    (onStorageError : exn -> string -> issuer_prog unit) : issuer_prog IdempotentOutcome :=
  claimed <- stmt (insert_ignore issuerIdempotency (claim_row request)) ;;
  match claimed with
  | [] =>
      existing <- select_one issuerIdempotency (row_of request) ;;
      match existing, fuel with
      | None, S fuel => runIdempotent fuel request call onStorageError
      | None, O => Throw (Error "retry")
      | Some existing, _ =>
          if negb (eqs (ii_requestHash existing) (fingerprint (iq_params request)))
          then Throw (IdempotencyKeyReusedError ("Idempotency-Key " +:+ quoted (iq_key request) +:+ " was already used for a different " +:+ iq_route request +:+ " request"))
          else if negb (eqs (ii_status existing) "completed")
          then Throw (IdempotencyInFlightError ("the " +:+ iq_route request +:+ " request with Idempotency-Key " +:+ quoted (iq_key request) +:+ " is still in progress"))
          else Ret (IdemOutcome (Some (ii_response existing)) true)
      end
  | _ => run_claimed request call onStorageError
  end.
End Run.

(** ** A gateway whose every request is one call *)
Inductive IssuerCall : Type -> Type :=
| CallIssuer (r : IdempotentRequest) : IssuerCall (option jsval).

Inductive StorageError := StorageErr (stage : string).

Notation issuer_prog := (prog Database IssuerCall StorageError).
Notation issuer_world := (world Database IssuerCall StorageError).
Notation issuer_entry := (entry IssuerCall StorageError).

Section Serve.
Context `{Fingerprint}.

Definition call_issuer (q : IdempotentRequest) : issuer_prog (option jsval) := call (CallIssuer q).
Definition report (x : exn) (stage : string) : issuer_prog unit := emit (StorageErr stage).
Definition serve_one (fuel : nat) (q : IdempotentRequest) : issuer_prog IdempotentOutcome :=
  runIdempotent fuel q (call_issuer q) report.

(** A gateway's life: requests served one after another, each answered or refused. *)
Definition serve_all (requests : list IdempotentRequest)
  : issuer_prog (list (IdempotentRequest * outcome IdempotentOutcome)) :=
  fold (fun acc q => r <- attempt (serve_one 0 q) ;; Ret (acc ++ [(q, r)])) [] requests.
End Serve.

(** ** What a key guarantees *)
(** The requests for keyed obligations that issuers were sent, in order: what an event of the log says was
    asked, and the answer that came of it, [Err] when the issuer refused or nothing usable came back. *)
Notation key_attempt := (IdempotentRequest * outcome (option jsval))%type.
Class Obligations (Ext : Type -> Type) (Out : Type) := attempt_of : entry Ext Out -> list key_attempt.

#[export] Instance issuer_obligations : Obligations IssuerCall StorageError := fun x =>
  match x with
  | ECall c r =>
      match c in IssuerCall X return outcome X -> list key_attempt with
      | CallIssuer q => fun r => [(q, r)]
      end r
  | EOut _ => []
  end.

Section Guarantees.
Context {Ext : Type -> Type} {Out : Type} `{Obligations Ext Out}.

Definition attempts (log : list (entry Ext Out)) : list key_attempt := List.concat (List.map attempt_of log).

(** Those that were answered usably. *)
Definition answer_of (a : key_attempt) : option (IdempotentRequest * option jsval) :=
  match snd a with Ok v => Some (fst a, v) | Err _ => None end.
Definition usable (log : list (entry Ext Out)) : list (IdempotentRequest * option jsval) := omap answer_of (attempts log).

Lemma key_attempts_snoc log x : attempts (log ++ [x]) = attempts log ++ attempt_of x.
Proof. unfold attempts. rewrite List.map_app, concat_app. simpl. by rewrite app_nil_r. Qed.

Lemma usable_same log log' : attempts log' = attempts log -> usable log' = usable log.
Proof. unfold usable. by intros ->. Qed.
Lemma usable_answer_more log log' q v : attempts log' = attempts log ++ [(q, Ok v)] -> usable log' = usable log ++ [(q, v)].
Proof. unfold usable. intros ->. by rewrite omap_app. Qed.
Lemma usable_failure_more log log' q x : attempts log' = attempts log ++ [(q, Err x)] -> usable log' = usable log.
Proof. unfold usable. intros ->. by rewrite omap_app, app_nil_r. Qed.
Lemma usable_attempt log q v : In (q, Ok v) (attempts log) -> In (q, v) (usable log).
Proof. rewrite <- !list_elem_of_In. intros Hin. apply list_elem_of_omap. by exists (q, Ok v). Qed.
End Guarantees.

(** An answer in a reply and in the table, where [undefined] is nothing. *)
Definition wire (v : option jsval) : jsval := default JNull v.

Definition triple (q : IdempotentRequest) : string * string * string := (iq_issuerCode q, iq_route q, iq_key q).

Lemma row_of_true q r : row_of q r = true <-> (ii_issuerCode r, ii_route r, ii_idempotencyKey r) = triple q.
Proof. unfold row_of, triple, eqs. rewrite !andb_true_iff, !bool_decide_eq_true. split; [by intros [[-> ->] ->]|by intros [= -> -> ->]]. Qed.

(** A key's request is followed by another for the key only when it failed. *)
Definition again_only_after_failure (l : list key_attempt) : Prop :=
  forall i j q r q' r', (i < j)%nat -> l !! i = Some (q, r) -> l !! j = Some (q', r') -> triple q = triple q' -> exists x, r = Err x.

Lemma again_snoc l q r : again_only_after_failure l -> (forall q' v, In (q', Ok v) l -> triple q' <> triple q) ->
  again_only_after_failure (l ++ [(q, r)]).
Proof.
  intros Hl Hq i j q1 r1 q2 r2 Hij [[Hi E1']|[Hi E1']]%lookup_snoc_Some [[Hj E2]|[Hj E2]]%lookup_snoc_Some Ht; [by eapply (Hl i j)| |lia|lia].
  injection E2 as <- <-. destruct r1 as [v|x]; [|by exists x]. exfalso. apply (Hq q1 v); [|done].
  by apply list_elem_of_In, (list_elem_of_lookup_2 _ i).
Qed.

Section Kept.
Context `{Fingerprint} {Ext : Type -> Type} {Out : Type} `{Obligations Ext Out} (d0 : Database).
Implicit Types w : world Database Ext Out.

(** [v] is the issuer's answer to a request like [q], in this life or recorded before it. *)
Definition answered_once w (q : IdempotentRequest) (v : option jsval) : Prop :=
  (exists q' v', In (q', v') (usable (w_log w)) /\ wire v' = wire v /\ triple q' = triple q /\
     fingerprint (iq_params q') = fingerprint (iq_params q)) \/
  (exists r, In r (d0 issuerIdempotency) /\ row_of q r = true /\ ii_status r = "completed" /\
     ii_requestHash r = fingerprint (iq_params q) /\ ii_response r = wire v).

Definition recorded w (r : issuerIdempotency_row) : Prop :=
  In r (d0 issuerIdempotency) \/
  exists q v, In (q, v) (usable (w_log w)) /\ ii_response r = wire v /\ row_of q r = true /\
    ii_requestHash r = fingerprint (iq_params q).

Definition keys_hold w : Prop :=
  NoDup (List.map (fun qv => triple (fst qv)) (usable (w_log w))) /\
  (forall q v, In (q, v) (usable (w_log w)) -> exists r, In r (w_db w issuerIdempotency) /\ row_of q r = true) /\
  (forall r, In r (w_db w issuerIdempotency) -> ii_status r = "completed" -> recorded w r).

(** Only the table and the log matter. *)
Lemma keys_hold_ext w w' :
  w_db w' issuerIdempotency = w_db w issuerIdempotency -> usable (w_log w') = usable (w_log w) ->
  keys_hold w -> keys_hold w'.
Proof. unfold keys_hold, recorded. by intros -> ->. Qed.

Lemma keys_hold_claim w w' q s :
  w_db w' issuerIdempotency = w_db w issuerIdempotency ++ [claim_row q s] -> usable (w_log w') = usable (w_log w) ->
  keys_hold w -> keys_hold w'.
Proof.
  unfold keys_hold, recorded. intros -> ->. intros (H1 & H2 & H3). split; [done|]. split.
  - intros q' v Hq. destruct (H2 q' v Hq) as (r & Hr & E). exists r. split; [apply in_app_iff; by left|done].
  - intros r Hr Hc. apply in_app_iff in Hr as [Hr|[<-|[]]]; [auto|done].
Qed.

End Kept.

(** A claim that was refused leaves a row to read. *)
Lemma refused_claim `{Fingerprint} {Ext Out} (e : env Ext) q (w w1 : world Database Ext Out) :
  run_stmt e (insert_ignore issuerIdempotency (claim_row q)) w = (Ok [], w1) ->
  exists r0 l, List.filter (row_of q) (w_db w1 issuerIdempotency) = r0 :: l.
Proof.
  intros E.
  assert (w_db w1 = w_db w /\ conflicts issuerIdempotency (claim_row q (stamps e (w_tick w))) (w_db w) = true) as [-> Hc].
  { revert E. unfold run_stmt, insert_ignore. cbn [in_range negb references_ok].
    destruct (db_fault e (w_tick w)), (conflicts _ _ _) eqn:Ec; by intros [= <-]. }
  apply existsb_exists in Hc as (r0 & Hr0 & Hc). cbn [conflict] in Hc.
  rewrite !andb_true_iff in Hc. unfold eqs in Hc. rewrite !bool_decide_eq_true in Hc. destruct Hc as [[H1 H2] H3].
  assert (Hin : In r0 (List.filter (row_of q) (w_db w issuerIdempotency))).
  { apply filter_In. split; [done|]. apply row_of_true. unfold triple. simpl in H1, H2, H3. congruence. }
  destruct (List.filter _ _) as [|r1 l]; [done|]. by exists r1, l.
Qed.

(** A request served without others writing the table never goes round: more fuel changes
    nothing, so the retry after a vanished claim is only ever taken under a concurrent release. *)
Theorem retry_only_after_concurrent_release `{Fingerprint} {Ext Out} (e : env Ext) n q call onStorageError
    (w : world Database Ext Out) :
  run e (runIdempotent n q call onStorageError) w = run e (runIdempotent 0 q call onStorageError) w.
Proof.
  destruct n as [|n]; [done|]. cbn [runIdempotent bind stmt run].
  destruct (run_stmt e (insert_ignore issuerIdempotency (claim_row q)) w) as [[[|r l]|x] w1] eqn:E; [|done..].
  destruct (refused_claim e q w w1 E) as (r0 & l & Hsel). cbn [bind lift select_one stmt run].
  unfold run_stmt, select. cbn [row]; rewrite Hsel. by destruct (db_fault e (w_tick w1)).
Qed.

(** ** A concrete life: a redemption that times out at the issuer is retried with its key, then
    repeated twice. *)
Definition sample_print : Fingerprint := {| sha256_json l := join "," (List.map snd l) |}.
Definition sample_issuer (X : Type) (n : nat) (c : IssuerCall X) : outcome X :=
  match c in IssuerCall X return outcome X with
  | CallIssuer q => if (n <? 2)%nat then Err (Error "timeout") else Ok (Some (JStr "R1"))
  end.
Definition sample_issuer_env : env IssuerCall := Env sample_issuer (fun _ => NoFault) (fun n => Stamp (Z.of_nat n) "u").
Definition sample_redemption : IdempotentRequest := IdemRequest "acme" "redeem" "k1" [("units", "5")].

Example sample_retries :
  let '(r, w) := run sample_issuer_env (@serve_all sample_print [sample_redemption; sample_redemption; sample_redemption;
      IdemRequest "acme" "redeem" "k1" [("units", "6")]]) (World empty_db 0 []) in
  omap' (List.map snd) r =
    Ok [Err (Error "timeout"); Ok (IdemOutcome (Some (JStr "R1")) false); Ok (IdemOutcome (Some (JStr "R1")) true);
        Err (IdempotencyKeyReusedError ("Idempotency-Key " +:+ quoted "k1" +:+ " was already used for a different redeem request"))] /\
  List.length (usable (w_log w)) = 1%nat.
Proof. vm_compute. auto. Qed.
