(* ===== verification/IdempotencyOverlap.v ===== *)
(** Idempotency keys when requests overlap: whatever the interleaving of their statements and of the
    issuer's answers, a key's request goes out again only after one that failed, at most one is answered
    usably, and every answer is that answer.  What an issuer did with a request it did not answer usably is
    not known here, nor to the code. *)
From S2P Require Import Prelude Prog Interleave Schema Rules Idempotency.

Section Overlap.
Context `{Fingerprint} {Ext : Type -> Type} {Out : Type} `{Obligations Ext Out} (d0 : Database).
Notation prog := (prog Database Ext Out).
Notation world := (world Database Ext Out).
Notation rows w := (w_db w issuerIdempotency).
Implicit Types (w : world) (q : IdempotentRequest) (v : option jsval).

(** ** What a request does to its issuer *)
(** A program that leaves the keys and the issuers alone. *)
Definition quiet_step (_ : unit) w w' (_ : unit) : Prop := rows w' = rows w /\ attempts (w_log w') = attempts (w_log w).
Definition quiet {A} (p : prog A) : Prop := follows any_answer quiet_step p (fun _ _ => True) tt.

(** A call that sends the issuer at most one request for [q]: it returns exactly if the answer is usable,
    and then returns that. *)
Inductive asking := Asking | Failed | Got (v : option jsval).
Inductive issue_step q : asking -> world -> world -> asking -> Prop :=
| I_idle a w w' : rows w' = rows w -> attempts (w_log w') = attempts (w_log w) -> issue_step q a w w' a
| I_fail w w' x : rows w' = rows w -> attempts (w_log w') = attempts (w_log w) ++ [(q, Err x)] -> issue_step q Asking w w' Failed
| I_answer w w' v : rows w' = rows w -> attempts (w_log w') = attempts (w_log w) ++ [(q, Ok v)] -> issue_step q Asking w w' (Got v).
Definition asks_once q (call : prog (option jsval)) : Prop :=
  follows any_answer (issue_step q) call (fun a r => match r with Ok v => a = Got v | Err _ => a = Asking \/ a = Failed end) Asking.

(** ** What a request does, as the others see it *)
Inductive phase := Seeking | Owning | HasAnswer (v : option jsval) | Told (v : option jsval).
Notation member := (IdempotentRequest * phase)%type.
Implicit Types ss : list member.

(** The steps a request may take: claim a free key, send the issuer its request while holding the claim,
    release the claim or complete its row, or read a completed row. *)
Inductive key_step q : phase -> world -> world -> phase -> Prop :=
| K_idle ph w w' : rows w' = rows w -> attempts (w_log w') = attempts (w_log w) -> key_step q ph w w' ph
| K_claim ph w w' s :
    (forall r, In r (rows w) -> row_of q r = false) -> rows w' = rows w ++ [claim_row q s] ->
    attempts (w_log w') = attempts (w_log w) -> ph = Owning \/ ph = Seeking -> key_step q Seeking w w' ph
| K_answer w w' v : rows w' = rows w -> attempts (w_log w') = attempts (w_log w) ++ [(q, Ok v)] -> key_step q Owning w w' (HasAnswer v)
| K_fail w w' x : rows w' = rows w -> attempts (w_log w') = attempts (w_log w) ++ [(q, Err x)] -> key_step q Owning w w' Owning
| K_release w w' :
    rows w' = List.filter (fun r => negb (row_of q r)) (rows w) -> attempts (w_log w') = attempts (w_log w) ->
    key_step q Owning w w' Seeking
| K_store w w' v s :
    rows w' = List.map (fun r => if row_of q r then complete v s r else r) (rows w) ->
    attempts (w_log w') = attempts (w_log w) -> key_step q (HasAnswer v) w w' (HasAnswer v)
| K_read w w' r :
    In r (rows w) -> row_of q r = true -> ii_status r = "completed" -> ii_requestHash r = fingerprint (iq_params q) ->
    rows w' = rows w -> attempts (w_log w') = attempts (w_log w) -> key_step q Seeking w w' (Told (Some (ii_response r))).

Definition allowed (m : member) w w' (m' : member) : Prop := fst m' = fst m /\ key_step (fst m) (snd m) w w' (snd m').

(** An answer is the one the phase holds. *)
Definition answers (m : member) (r : outcome IdempotentOutcome) : Prop :=
  match r with Ok o => snd m = HasAnswer (io_result o) \/ snd m = Told (io_result o) | Err _ => True end.

Notation follows := (follows any_answer allowed).

Lemma idle q ph w w' : rows w' = rows w -> attempts (w_log w') = attempts (w_log w) -> allowed (q, ph) w w' (q, ph).
Proof. intros. split; [done|by apply K_idle]. Qed.

Lemma follows_quiet {A} (p : prog A) (Fin : member -> outcome A -> Prop) q ph :
  quiet p -> (forall r, Fin (q, ph) r) -> follows p Fin (q, ph).
Proof.
  intros Hp HF. apply (follows_embed any_answer quiet_step allowed (fun _ => (q, ph)) p (fun _ _ => True) Fin tt); [|auto|done].
  intros _ w w' _ [E1 E2]. by apply idle.
Qed.

Definition claimed_call (q : IdempotentRequest) (call : prog (option jsval)) (onStorageError : exn -> string -> prog unit) : Prop :=
  asks_once q call /\ forall x stage, quiet (onStorageError x stage).

Lemma follows_call_issuer q call (Fin : member -> outcome (option jsval) -> Prop) :
  asks_once q call -> (forall v, Fin (q, HasAnswer v) (Ok v)) -> (forall x, Fin (q, Owning) (Err x)) -> follows call Fin (q, Owning).
Proof.
  intros Hc Hok Herr.
  apply (follows_embed any_answer (issue_step q) allowed
    (fun a => (q, match a with Asking | Failed => Owning | Got v => HasAnswer v end)) call
    (fun a r => match r with Ok v => a = Got v | Err _ => a = Asking \/ a = Failed end) Fin Asking); [| |exact Hc].
  - intros a w w' a' [a0 w0 w1 E1 E2|w0 w1 x E1 E2|w0 w1 v E1 E2]; [by apply idle|by (split; [done|]; eapply K_fail)|]. split; [done|by apply K_answer].
  - intros a [v|x]; [intros ->; apply Hok|intros [-> | ->]; apply Herr].
Qed.

Lemma follows_released q err call onStorageError : claimed_call q call onStorageError -> follows (
    released <- attempt (stmt (delete issuerIdempotency (row_of q))) ;;
    match released with Ok _ => Throw err | Err releaseErr => onStorageError releaseErr "release" ;;; Throw err end) answers (q, Owning).
Proof.
  intros [_ Hq]. apply follows_bind, follows_attempt, follows_stmt. intros w.
  assert (Hemit : forall x ph, follows (onStorageError x "release" ;;; Throw err) answers (q, ph)).
  { intros x ph. apply follows_bind, follows_quiet; [apply Hq|]. by intros [[]|y]. }
  split; [intros x; exists (q, Owning); split; [by apply idle|apply Hemit]|]. intros s _. cbn [delete].
  assert (Hrel : allowed (q, Owning) w (tick (with_db w (set_table issuerIdempotency (List.filter (fun r => negb (row_of q r)) (rows w)) (w_db w)))) (q, Seeking)).
  { split; [done|]. apply K_release; [simpl; by rewrite set_table_same|done]. }
  split; [by exists (q, Seeking)|]. intros x _. exists (q, Seeking). split; [done|apply Hemit].
Qed.

Lemma follows_claimed q call onStorageError :
  claimed_call q call onStorageError -> follows (run_claimed q call onStorageError) answers (q, Owning).
Proof.
  intros Hcall. pose proof Hcall as [Hc Hq]. unfold run_claimed. apply follows_bind, follows_attempt, follows_call_issuer; [done| |].
  - intros v. apply follows_bind, follows_attempt, follows_stmt. intros w1.
    assert (Hemit : forall x, follows (onStorageError x "store" ;;; Ret (IdemOutcome v false)) answers (q, HasAnswer v)).
    { intros x. apply follows_bind, follows_quiet; [apply Hq|]. intros [[]|y]; [by left|done]. }
    split; [intros x; exists (q, HasAnswer v); split; [by apply idle|apply Hemit]|]. intros s _. unfold update.
    destruct (forallb _ _); [|exists (q, HasAnswer v); split; [by apply idle|apply Hemit]].
    assert (Hstore : allowed (q, HasAnswer v) w1
      (tick (with_db w1 (set_table issuerIdempotency (List.map (fun r => if row_of q r then complete v s r else r) (rows w1)) (w_db w1)))) (q, HasAnswer v)).
    { split; [done|]. apply (K_store _ _ _ _ s); [simpl; by rewrite set_table_same|done]. }
    split; [exists (q, HasAnswer v); split; [done|by left]|]. intros x _. exists (q, HasAnswer v). split; [done|apply Hemit].
  - intros x. by eapply follows_released.
Qed.

Lemma conflict_row_of q s r : conflict issuerIdempotency (claim_row q s) r = row_of q r.
Proof. cbn. unfold row_of. by rewrite !(eqs_sym (iq_issuerCode q)), !(eqs_sym (iq_route q)), !(eqs_sym (iq_key q)). Qed.

Lemma follows_claim q (k : list (row issuerIdempotency) -> prog IdempotentOutcome) :
  (forall r, follows (k [r]) answers (q, Owning)) -> follows (k []) answers (q, Seeking) ->
  follows (claimed <- stmt (insert_ignore issuerIdempotency (claim_row q)) ;; k claimed) answers (q, Seeking).
Proof.
  intros Hown Hseek. apply follows_bind, follows_stmt. intros w.
  assert (Herr : forall w' x, rows w' = rows w -> attempts (w_log w') = attempts (w_log w) ->
    exists m, allowed (q, Seeking) w w' m /\ answers m (Err x)) by (intros w' x E1 E2; exists (q, Seeking); split; [by apply idle|done]).
  split; [intros x; by apply Herr|]. intros s _. unfold insert_ignore. cbn [in_range negb references_ok].
  destruct (conflicts issuerIdempotency (claim_row q s) (w_db w)) eqn:Ec.
  - split; [exists (q, Seeking); split; [by apply idle|done]|]. intros x _. by apply Herr.
  - assert (Hclaim : forall ph, ph = Owning \/ ph = Seeking ->
      allowed (q, Seeking) w (tick (with_db w (set_table issuerIdempotency (rows w ++ [claim_row q s]) (w_db w)))) (q, ph)).
    { intros ph Hph. split; [done|]. apply (K_claim _ _ _ _ s); [|simpl; by rewrite set_table_same|done|done].
      intros r Hr. apply not_true_iff_false. intros E. apply not_true_iff_false in Ec. apply Ec, existsb_exists.
      exists r. by rewrite conflict_row_of. }
    split; [exists (q, Owning); split; [by apply Hclaim; left|apply Hown]|].
    intros x _. exists (q, Seeking). split; [by apply Hclaim; right|done].
Qed.

(** A request that finds its key claimed: refused, answered from a completed row, or going on when
    the row is gone. *)
Lemma follows_found q (k : option (row issuerIdempotency) -> prog IdempotentOutcome) :
  follows (k None) answers (q, Seeking) ->
  (forall r, (forall ph, follows (k (Some r)) answers (q, ph)) \/
     (k (Some r) = Ret (IdemOutcome (Some (ii_response r)) true) /\ ii_status r = "completed" /\ ii_requestHash r = fingerprint (iq_params q))) ->
  follows (existing <- select_one issuerIdempotency (row_of q) ;; k existing) answers (q, Seeking).
Proof.
  intros Hnone Hsome. apply follows_bind. unfold select_one. apply follows_bind, follows_stmt. intros w.
  split; [intros x; exists (q, Seeking); split; [by apply idle|done]|]. intros s _. unfold select.
  split; [|intros x _; exists (q, Seeking); split; [by apply idle|done]]. cbn [Interleave.follows].
  assert (Hk : forall o, (forall r, o = Some r -> In r (rows w) /\ row_of q r = true) ->
    exists m, allowed (q, Seeking) w (tick w) m /\ follows (k o) answers m).
  { intros [r|] Ho; [|exists (q, Seeking); split; [by apply idle|done]]. destruct (Ho r eq_refl) as [Hr Hrow].
    destruct (Hsome r) as [Hf|(-> & Hst & Hh)].
    - exists (q, Seeking). split; [by apply idle|apply Hf].
    - exists (q, Told (Some (ii_response r))). split; [|by right]. split; [done|]. by eapply K_read. }
  apply Hk. intros r Hr. by apply head_filter_In in Hr.
Qed.

Lemma follows_runIdempotent n q call onStorageError :
  claimed_call q call onStorageError -> follows (runIdempotent n q call onStorageError) answers (q, Seeking).
Proof.
  intros Hc. induction n as [|n IH]; cbn [runIdempotent]; (apply follows_claim; [intros r; by apply follows_claimed|]);
    (apply follows_found; [done || exact IH|]); intros r;
    (destruct (eqs (ii_requestHash r) _) eqn:Eh; cbn [negb]; [|by left]);
    (destruct (eqs (ii_status r) _) eqn:Es; cbn [negb]; [|by left]);
    apply bool_decide_eq_true in Eh, Es; right; done.
Qed.

(** ** The invariant *)
Definition triples w : list (string * string * string) := List.map (fun qv => triple (fst qv)) (usable (w_log w)).

(** The key's rows were claimed with these parameters, and hold no answer but [a]. *)
Definition claimed_by w q (a : jsval) : Prop := forall r, In r (rows w) -> row_of q r = true ->
  ii_requestHash r = fingerprint (iq_params q) /\ (ii_response r = JNull \/ ii_response r = a).

(** What a member's phase says of the world. *)
Definition phase_holds w (m : member) : Prop :=
  let q := fst m in
  match snd m with
  | Seeking => True
  | Owning => (exists r, In r (rows w) /\ row_of q r = true) /\ claimed_by w q JNull /\
      (forall r, In r (rows w) -> row_of q r = true -> ii_status r <> "completed") /\ ~ In (triple q) (triples w)
  | HasAnswer v => In (q, v) (usable (w_log w)) /\ claimed_by w q (wire v)
  | Told v => answered_once d0 w q v
  end.

Record keys_shared ss w : Prop := Shared {
  sh_keys : keys_hold d0 w;
  sh_order : again_only_after_failure (attempts (w_log w));
  sh_phases : forall i m, ss !! i = Some m -> phase_holds w m;
  sh_owner : forall i j q q', ss !! i = Some (q, Owning) -> ss !! j = Some (q', Owning) -> triple q = triple q' -> i = j }.

Lemma triples_usable q v w : In (q, v) (usable (w_log w)) -> In (triple q) (triples w).
Proof. intros Hin. apply in_map_iff. by exists (q, v). Qed.

Lemma row_of_triple q q' r : row_of q r = true -> row_of q' r = true -> triple q = triple q'.
Proof. rewrite !row_of_true. congruence. Qed.

(** A member's own move, and what the others keep. *)
Lemma shared_move ss w w' i q ph ph' :
  keys_shared ss w -> ss !! i = Some (q, ph) -> keys_hold d0 w' -> again_only_after_failure (attempts (w_log w')) -> phase_holds w' (q, ph') ->
  (forall j m, j <> i -> ss !! j = Some m -> phase_holds w' m) ->
  (ph' = Owning -> ph = Owning \/ forall r, In r (rows w) -> row_of q r = false) ->
  keys_shared (<[i := (q, ph')]> ss) w'.
Proof.
  intros [Hk _ Hph Ho] Hi Hk' Hord Hm Hothers Hown. split; [done|done| |].
  - intros j m [(<- & <- & _)|(Hne & Hj)]%list_lookup_insert_Some; [done|by eapply Hothers].
  - assert (Hone : forall j q' , j <> i -> ss !! j = Some (q', Owning) -> ph' = Owning -> triple q = triple q' -> False).
    { intros j q' Hne Hj E Ht. destruct (Hown E) as [->|Hfree]; [by apply Hne; eapply Ho|].
      destruct (Hph j _ Hj) as ((r & Hr & Hrow) & _). cbn in Hrow. specialize (Hfree r Hr).
      apply not_true_iff_false in Hfree. apply Hfree. apply row_of_true. apply row_of_true in Hrow. congruence. }
    intros j k q1 q2 [(<- & [= <- ->] & _)|(Hj & Ej)]%list_lookup_insert_Some
      [(<- & E2 & _)|(Hk2 & Ek)]%list_lookup_insert_Some Ht; [done| | |by eapply Ho].
    + exfalso. by eapply (Hone k q2).
    + exfalso. injection E2 as <- ->. by eapply (Hone j q1).
Qed.

Lemma phase_holds_ext w w' m :
  rows w' = rows w -> usable (w_log w') = usable (w_log w) -> phase_holds w m -> phase_holds w' m.
Proof. unfold phase_holds, claimed_by, triples, answered_once. intros -> ->. done. Qed.

Lemma keys_shared_step ss w i m w' m' :
  keys_shared ss w -> ss !! i = Some m -> allowed m w w' m' -> keys_shared (<[i := m']> ss) w'.
Proof.
  destruct m as [q ph], m' as [q' ph']. intros Hsh Hi [Eq Hstep]. cbn in Eq, Hstep. subst q'. pose proof Hsh as [Hk Hord Hph Ho].
  pose proof (Hph _ _ Hi) as Hmine. pose proof Hk as (Hnd & Hrows & Hdone).
  assert (Hsame : attempts (w_log w') = attempts (w_log w) -> again_only_after_failure (attempts (w_log w')) /\ usable (w_log w') = usable (w_log w))
    by (intros E; split; [by rewrite E|by apply usable_same]).
  assert (Hnext : forall r, ~ In (triple q) (triples w) -> again_only_after_failure (attempts (w_log w) ++ [(q, r)])).
  { intros r Hni. apply again_snoc; [done|]. intros q' v Hin E. apply Hni. rewrite <- E. by eapply triples_usable, usable_attempt. }
  destruct Hstep as [ph w w' Er El|ph w w' s Hfree Er El Hown|w w' v Er El|w w' x Er El|w w' Er El|w w' v s Er El|w w' r Hr Hrow Hst Hh Er El].
  all: try (destruct (Hsame El) as [Hord' Eu]; clear El; rename Eu into El).
  - eapply shared_move; eauto using keys_hold_ext, phase_holds_ext.
  - assert (Hother : forall q', triple q' <> triple q -> forall r, In r (rows w') -> row_of q' r = true -> In r (rows w)).
    { intros q' Hne r. rewrite Er. intros [Hr|[<-|[]]]%in_app_or Hrow; [done|]. exfalso. apply Hne.
      apply (row_of_triple _ _ (claim_row q s)); [done|by apply row_of_true]. }
    assert (Hclaim : In (claim_row q s) (rows w') /\ row_of q (claim_row q s) = true)
      by (split; [rewrite Er; apply in_or_app; right; by left|by apply row_of_true]).
    assert (Honly : forall r, In r (rows w') -> row_of q r = true -> r = claim_row q s).
    { intros r. rewrite Er. intros [Hr|[<-|[]]]%in_app_or Hrow; [|done]. by rewrite Hfree in Hrow. }
    eapply shared_move; eauto using keys_hold_claim.
    + destruct Hown as [->| ->]; [|done]. cbn. split; [by exists (claim_row q s)|]. split; [intros r Hr Hrow; rewrite (Honly r) by done; split; [done|by left]|].
      split; [intros r Hr Hrow; by rewrite (Honly r)|].
      unfold triples. rewrite El. intros Hin. apply in_map_iff in Hin as ([q' v] & Et & Hin). cbn in Et.
      destruct (Hrows q' v Hin) as (r & Hr & Hrow). apply row_of_true in Hrow. specialize (Hfree r Hr).
      apply not_true_iff_false in Hfree. apply Hfree, row_of_true. congruence.
    + intros j [q' [| |v|v]] Hne Hj; specialize (Hph j _ Hj); cbn in *; try done.
      * destruct Hph as ((r & Hr & Hrow) & Hcl & Hnc & Hni).
        assert (Htr : triple q' <> triple q) by (intros E; specialize (Hfree r Hr); apply row_of_true in Hrow;
          apply not_true_iff_false in Hfree; apply Hfree, row_of_true; congruence).
        split; [exists r; split; [rewrite Er; apply in_or_app; by left|done]|].
        split; [intros r' Hr' Hrow'; eauto|]. split; [intros r' Hr' Hrow'; eauto|]. unfold triples. by rewrite El.
      * rewrite El. destruct Hph as [Hin Hcl]. split; [done|].
        assert (Htr : triple q' <> triple q).
        { intros E. destruct (Hrows q' v Hin) as (r & Hr & Hrow). specialize (Hfree r Hr). apply row_of_true in Hrow.
          apply not_true_iff_false in Hfree. apply Hfree, row_of_true. congruence. }
        intros r Hr Hrow. eauto.
      * unfold answered_once. by rewrite El.
  - cbn in Hmine. destruct Hmine as ((r0 & Hr0 & Hrow0) & Hcl & Hnc & Hni).
    pose proof (Hnext (Ok v) Hni) as Hord'. rewrite <- El in Hord'. apply usable_answer_more in El.
    assert (Hgrow : forall q' v', In (q', v') (usable (w_log w)) -> In (q', v') (usable (w_log w')))
      by (intros; rewrite El; apply in_or_app; by left).
    assert (Hhere : In (q, v) (usable (w_log w'))) by (rewrite El; apply in_or_app; right; by left).
    eapply (shared_move _ w); [done|done| |done| | |done].
    + split; [|split].
      * rewrite El, List.map_app. apply NoDup_app. split; [done|]. split; [|by apply NoDup_singleton].
        intros t Ht ->%list_elem_of_singleton. by apply Hni, list_elem_of_In.
      * intros q' v'. rewrite El, Er. intros [Hin|[[= <- <-]|[]]]%in_app_or; [eauto|by exists r0].
      * intros r. rewrite Er. intros Hr Hst. destruct (Hdone r Hr Hst) as [?|(q' & v' & Hq & ?)]; [by left|right]. exists q', v'. auto.
    + cbn. split; [done|]. intros r. rewrite Er. intros Hr Hrow. destruct (Hcl r Hr Hrow) as [? [?|?]]; auto.
    + intros j [q' [| |v'|v']] Hne Hj; pose proof (Hph j _ Hj) as Hm; cbn in Hm |- *; try done.
      * unfold claimed_by, triples in *. rewrite Er, El. destruct Hm as (? & ? & ? & Hn). do 3 (split; [done|]).
        rewrite List.map_app. intros [Hin|[Et|[]]]%in_app_or; [done|]. cbn in Et. apply Hne. eapply Ho; [exact Hj|exact Hi|done].
      * unfold claimed_by in *. rewrite Er. destruct Hm. auto.
      * destruct Hm as [(q2 & v2 & Hin & Hq2)|Hm]; [left|by right]. exists q2, v2. auto.
  - pose proof Hmine as (_ & _ & _ & Hni). pose proof (Hnext (Err x) Hni) as Hord'. rewrite <- El in Hord'. apply usable_failure_more in El.
    eapply shared_move; eauto using keys_hold_ext, phase_holds_ext.
  - cbn in Hmine. destruct Hmine as ((r0 & Hr0 & Hrow0) & Hcl & Hnc & Hni).
    assert (Hkeep : forall q' r, triple q' <> triple q -> In r (rows w) -> row_of q' r = true -> In r (rows w')).
    { intros q' r Hne Hr Hrow. rewrite Er. apply List.filter_In. split; [done|]. apply negb_true_iff, not_true_iff_false.
      intros E. apply Hne. by eapply row_of_triple. }
    assert (Hsub : forall r, In r (rows w') -> In r (rows w)) by (intros r; rewrite Er; by intros [? _]%List.filter_In).
    assert (Hiss : forall q' v, In (q', v) (usable (w_log w)) -> triple q' <> triple q).
    { intros q' v Hin E. apply Hni. rewrite <- E. by eapply triples_usable. }
    eapply (shared_move _ w); [done|done| |done| | |done].
    + split; [by rewrite El|split].
      * intros q' v. rewrite El. intros Hin. destruct (Hrows q' v Hin) as (r & Hr & Hrow). exists r. eauto.
      * intros r Hr Hst. unfold recorded. rewrite El. apply Hdone; auto.
    + done.
    + intros j [q' [| |v'|v']] Hne Hj; pose proof (Hph j _ Hj) as Hm; cbn in Hm |- *; try done.
      * destruct Hm as ((r & Hr & Hrow) & Hcl' & Hnc' & Hni'). unfold claimed_by, triples in *. rewrite El.
        assert (triple q' <> triple q) by (intros E; apply Hne; by eapply Ho).
        split; [exists r; eauto|]. split_and!; [intros; apply Hcl'; auto|intros; apply Hnc'; auto|done].
      * rewrite El. destruct Hm as [Hin Hcl']. split; [done|]. intros r Hr. apply Hcl'. auto.
      * unfold answered_once. by rewrite El.
  - cbn in Hmine. destruct Hmine as [Hin0 Hcl].
    assert (Hmap : forall r, In r (rows w') -> exists r0, In r0 (rows w) /\ r = (if row_of q r0 then complete v s r0 else r0)).
    { intros r. rewrite Er. intros (r0 & <- & Hr0)%in_map_iff. eauto. }
    assert (Hback : forall r0, In r0 (rows w) -> In (if row_of q r0 then complete v s r0 else r0) (rows w')).
    { intros r0 Hr0. rewrite Er. apply in_map_iff. eauto. }
    assert (Hkey : forall q' r0, row_of q' (if row_of q r0 then complete v s r0 else r0) = row_of q' r0) by (intros q' r0; by destruct (row_of q r0)).
    assert (Hhash : forall r0, ii_requestHash (if row_of q r0 then complete v s r0 else r0) = ii_requestHash r0) by (intros r0; by destruct (row_of q r0)).
    assert (Hsays : forall r0, In r0 (rows w) -> row_of q r0 = true -> ii_response (complete v s r0) = wire v).
    { intros r0 Hr0 Hrow. destruct (Hcl r0 Hr0 Hrow) as [_ Ha]. destruct v as [v|]; [done|]. by destruct Ha. }
    assert (Hclaims : forall q' a, (triple q' = triple q -> a = wire v) -> claimed_by w q' a -> claimed_by w' q' a).
    { intros q' a Ht Hc r (r0 & Hr0 & ->)%Hmap. rewrite Hkey, Hhash. intros Hrow. split; [by apply Hc|].
      destruct (row_of q r0) eqn:E0; [|by apply Hc]. right. rewrite Ht; [by apply Hsays|by eapply row_of_triple]. }
    eapply (shared_move _ w); [done|done| |done| | |done].
    + split; [by rewrite El|split].
      * intros q' v'. rewrite El. intros Hin. destruct (Hrows q' v' Hin) as (r & Hr & Hrow). eexists. split; [by apply Hback|]. by rewrite Hkey.
      * intros r (r0 & Hr0 & ->)%Hmap. unfold recorded. rewrite El. destruct (row_of q r0) eqn:Erow; [|by apply Hdone].
        intros _. right. exists q, v. split; [done|]. split; [by apply Hsays|]. split; [done|]. exact (proj1 (Hcl r0 Hr0 Erow)).
    + cbn. rewrite El. auto.
    + intros j [q' [| |v'|v']] Hne Hj; pose proof (Hph j _ Hj) as Hm; cbn in Hm |- *; try done.
      * destruct Hm as ((r & Hr & Hrow) & Hcl' & Hnc' & Hni'). unfold triples. rewrite El.
        assert (Hdiff : triple q' <> triple q) by (intros E; apply Hni'; rewrite E; by eapply triples_usable).
        split; [eexists; split; [by apply Hback|by rewrite Hkey]|]. split; [by apply Hclaims|]. split; [|done].
        intros r' (r0 & Hr0 & ->)%Hmap. rewrite Hkey. intros Hrow'. destruct (row_of q r0) eqn:E0; [|by apply Hnc'].
        exfalso. by apply Hdiff, (row_of_triple _ _ r0).
      * rewrite El. destruct Hm as [Hin' Hcl']. split; [done|]. apply Hclaims; [|done]. intros Ht.
        by injection (NoDup_map_eq _ _ _ _ Hnd Hin' Hin0 Ht) as -> ->.
      * unfold answered_once. by rewrite El.
  - eapply shared_move; eauto using keys_hold_ext, phase_holds_ext; [|done].
    cbn. unfold answered_once. rewrite El. destruct (Hdone r Hr Hst) as [Hr0|(q' & v' & Hq & Hv & Hrow' & Hh')].
    + right. exists r. done.
    + left. exists q', v'. split; [done|]. split; [done|]. split; [by eapply row_of_triple|congruence].
Qed.

(** Threads that each seek one request, interleaved from the start of a life. *)
Lemma overlap_keeps {A} (e : env Ext) (Fin : member -> outcome A -> Prop) schedule ps qs :
  Forall2 (fun p q => follows p Fin (q, Seeking)) ps qs ->
  let '(threads, w) := interleave e schedule (ps, World d0 0 []) in
  exists ss, keys_shared ss w /\ List.map fst ss = qs /\ Forall2 (fun p m => follows p Fin m) threads ss.
Proof.
  intros Hps. set (start := List.map (fun q => (q, Seeking)) qs).
  set (J := fun ss w => keys_shared ss w /\ List.map fst ss = qs).
  destruct (interleave_invariant any_answer allowed e Fin J schedule ps start (World d0 0 [])) as (ss & [Hsh Hq] & Hf); [done| | | |].
  - subst start. induction Hps; by constructor.
  - split; [split|].
    + split; [constructor|]. split; [done|]. intros r Hr _. by left.
    + by intros i j q r q' r' _ Hi.
    + intros i m Hm. apply list_elem_of_lookup_2, list_elem_of_In, in_map_iff in Hm as (q & <- & _). done.
    + intros i j q q' Hi. apply list_elem_of_lookup_2, list_elem_of_In, in_map_iff in Hi as (q0 & [=] & _).
    + subst start. rewrite List.map_map. apply List.map_id.
  - intros ss w i m w' m' [H1 H2] Hi Ha. split; [by eapply keys_shared_step|]. rewrite <- H2.
    destruct Ha as [Ha _]. by eapply map_insert_same.
  - destruct (interleave _ _ _) as [threads w]. by exists ss.
Qed.

(** What a thread that has ended answered. *)
Lemma answers_shared w q ph o : phase_holds w (q, ph) -> answers (q, ph) (Ok o) -> answered_once d0 w q (io_result o).
Proof. cbn. intros Hph [-> | ->]; [|done]. left. exists q. eexists. by destruct Hph. Qed.
End Overlap.

Lemma serve_one_follows `{Fingerprint} n q : follows any_answer allowed (serve_one n q) answers (q, Seeking).
Proof.
  apply follows_runIdempotent. split.
  - apply follows_call. intros w [v|x] _.
    + exists (Got v). split; [apply I_answer; [done|world_simpl; by rewrite key_attempts_snoc]|done].
    + exists Failed. split; [apply (I_fail _ _ _ x); [done|world_simpl; by rewrite key_attempts_snoc]|by right].
  - intros x stage w. exists tt. split; [split; [done|world_simpl; by rewrite key_attempts_snoc, app_nil_r]|done].
Qed.

(** What a key is worth, however its requests overlap.  Take any requests in progress at once, each with any
    bound on its retries, any interleaving of their statements and calls, and whatever the database and the
    issuer do, lost acknowledgements included: of all requests with the same issuer, route and key all but
    the last failed, so at most one got a usable answer, and every request that was answered got the
    issuer's answer to a request with that key and the same parameters, in this life of the gateway or
    stored before it. *)
Theorem overlapping_requests_obtain_one `{Fingerprint} (e : env IssuerCall) (d : Database)
    (requests : list (nat * IdempotentRequest)) (schedule : list nat) :
  let '(threads, w) := interleave e schedule (List.map (fun nq => serve_one (fst nq) (snd nq)) requests, World d 0 []) in
  again_only_after_failure (attempts (w_log w)) /\
  NoDup (List.map (fun qv => triple (fst qv)) (usable (w_log w))) /\
  Forall2 (fun nq p => forall o, p = Ret o -> answered_once d w (snd nq) (io_result o)) requests threads.
Proof.
  pose proof (overlap_keeps d e answers schedule (List.map (fun nq => serve_one (fst nq) (snd nq)) requests) (List.map snd requests)) as Hk.
  destruct (interleave _ _ _) as [threads w]. destruct Hk as (ss & Hsh & Hq & Hf).
  { induction requests; constructor; [apply serve_one_follows|done]. }
  split; [apply Hsh|]. split; [apply Hsh|]. apply Forall2_same_length_lookup_2.
  - by rewrite (Forall2_length _ _ _ Hf), <- (length_map fst ss), Hq, length_map.
  - intros i nq p Hi Hp o ->. destruct (Forall2_lookup_l _ _ _ _ _ Hf Hp) as ([q ph] & Hm & Ha).
    pose proof (f_equal (lookup i) Hq) as Eq. rewrite !list_lookup_fmap, Hm, Hi in Eq. injection Eq as ->.
    eapply answers_shared; [by eapply sh_phases|exact Ha].
Qed.

(** A gateway that serves its requests one after another is one of these. *)
Lemma serve_all_each `{Fingerprint} (e : env IssuerCall) requests w :
  run e (serve_all requests) w =
    let '(rs, w') := run_each e (List.map (serve_one 0) requests) w in (Ok (List.combine requests rs), w').
Proof.
  unfold serve_all. enough (Hacc : forall acc, run e (fold (fun acc q => r <- attempt (serve_one 0 q) ;; Ret (acc ++ [(q, r)])) acc requests) w =
    let '(rs, w') := run_each e (List.map (serve_one 0) requests) w in (Ok (acc ++ List.combine requests rs), w')) by apply Hacc.
  revert w. induction requests as [|q l IH]; intros w acc; cbn [fold List.map run_each]; [by rewrite app_nil_r|].
  rewrite run_bind, run_bind, run_attempt. destruct (run e (serve_one 0 q) w) as [r w']. cbn [run].
  rewrite IH. destruct (run_each _ _ _) as [rs w'']. by rewrite <- app_assoc.
Qed.

(** The same one after another. *)
Theorem issuer_obligation_at_most_once `{Fingerprint} (e : env IssuerCall) (d : Database)
    (requests : list IdempotentRequest) :
  let '(r, w) := run e (serve_all requests) (World d 0 []) in
  again_only_after_failure (attempts (w_log w)) /\
  NoDup (List.map (fun qv => triple (fst qv)) (usable (w_log w))) /\
  exists answers, r = Ok answers /\
    Forall (fun qr => match snd qr with Ok o => answered_once d w (fst qr) (io_result o) | Err _ => True end) answers.
Proof.
  rewrite serve_all_each.
  destruct (in_turn_is_interleaving e (List.map (serve_one 0) requests) (World d 0 [])) as [schedule Hs].
  pose proof (overlapping_requests_obtain_one e d (List.map (pair 0%nat) requests) schedule) as H1.
  assert (E : List.map (fun nq => serve_one (fst nq) (snd nq)) (List.map (pair 0%nat) requests) = List.map (serve_one 0) requests)
    by (by rewrite List.map_map). rewrite E, Hs in H1. clear E.
  destruct (run_each _ _ _) as [rs w]. cbn [fst snd] in H1. destruct H1 as (Hagain & Hnd & Hall). split; [done|]. split; [done|]. eexists. split; [done|].
  clear Hagain Hnd Hs. revert rs Hall. induction requests as [|q l IH]; intros [|r rs] Hall; cbn; inversion Hall; subst; constructor; [|by apply IH].
  cbn. destruct r; eauto.
Qed.
