(* ===== verification/IssuerHttp.v ===== *)
(** The issuers as the gateway reaches them ([services/issuer-gateway/src/adapters/], [registry.ts]):
    authenticated JSON requests with a time limit, the SEP-8 approval protocol, one adapter per
    issuer, and the registry that builds them from the environment. *)
From S2P Require Import Prelude Prog Schema.

(** ** HTTP *)
Record HttpRequest := Http {
  hr_method : string; hr_url : string; hr_headers : list (string * string); hr_body : option jsval }.

(** A response, and what became of reading its body. *)
Record HttpResponse := Responded { ha_status : Z; ha_statusText : string; ha_text : outcome string }.

(** What came of a request, and whether its timer had gone off by then. *)
Record Fetched := Fetch_result { fd_response : outcome HttpResponse; fd_aborted : bool }.

Inductive IssuerHttpCall : Type -> Type :=
| Fetch (request : HttpRequest) (timeoutMs : Z) : IssuerHttpCall Fetched.

(** The engine's [JSON.parse]. *)
Class IssuerLib := { JSON_parse : string -> outcome jsval }.

(** [encodeURIComponent], on the bytes of the UTF-8 text. *)
Definition unreserved (c : ascii) : bool :=
  is_digit c || ((97 <=? char_code c) && (char_code c <=? 122)) || ((65 <=? char_code c) && (char_code c <=? 90)) ||
  List.existsb (fun d => bool_decide (c = d)) ["-"; "_"; "."; "!"; "~"; "*"; "'"; "("; ")"]%char.
Definition upper_hex (d : Z) : ascii := to_upper (hex_digit d).
Fixpoint encodeURIComponent (s : string) : string :=
  match s with
  | EmptyString => EmptyString
  | String c s' =>
      if unreserved c then String c (encodeURIComponent s')
      else String "%" (String (upper_hex (char_code c / 16)) (String (upper_hex (char_code c mod 16)) (encodeURIComponent s')))
  end.

(** *** liveShared.ts *)
Definition DEFAULT_REQUEST_TIMEOUT_MS : Z := 15000.
Definition MAX_REQUEST_TIMEOUT_MS : Z := 2147483647.

Definition requestTimeoutMs (env : ProcessEnv) : outcome Z :=
  let bad := Error ("issuer-gateway: ISSUER_GATEWAY_TIMEOUT_MS must be an integer between 1 and " +:+ Z_to_string MAX_REQUEST_TIMEOUT_MS) in
  match match env "ISSUER_GATEWAY_TIMEOUT_MS" with None => Some DEFAULT_REQUEST_TIMEOUT_MS | Some s => Number_of_text s end with
  | Some timeoutMs => if (timeoutMs <? 1) || (MAX_REQUEST_TIMEOUT_MS <? timeoutMs) then Err bad else Ok timeoutMs
  | None => Err bad
  end.

Definition requireLiveConfig (issuerName baseUrl apiKey : string) : outcome (string * string) :=
  let missing := (if eqs baseUrl "" then ["baseUrl"] else []) ++ (if eqs apiKey "" then ["apiKey"] else []) in
  match missing with
  | [] => Ok (baseUrl, apiKey)
  | _ => Err (Error (issuerName +:+ "Adapter: missing required config: " +:+ join ", " missing))
  end.

(** The SEP-8 answers; a field is [None] when it is [undefined]. *)
Record Sep8ApprovalResult := Sep8 {
  s8_approved : bool; s8_approvedTxXdr : option jsval; s8_reason : option jsval;
  s8_pending : option (option jsval) }.

(** [None]: a status the switch does not know. *)
Definition mapSep8Response (response : jsval) : outcome (option Sep8ApprovalResult) :=
  status <-? js_field "status" response ;;
  tx <-? js_field "tx" response ;;
  message <-? js_field "message" response ;;
  error <-? js_field "error" response ;;
  timeout <-? js_field "timeout" response ;;
  match status with
  | Some (JStr status) =>
      if eqs status "success" then Ok (Some (Sep8 true tx None None))
      else if eqs status "revised" then Ok (Some (Sep8 false tx message None))
      else if eqs status "rejected" then Ok (Some (Sep8 false None error None))
      else if eqs status "pending" then Ok (Some (Sep8 false None None (Some timeout)))
      else Ok None
  | _ => Ok None
  end.

(** The result as [reply.send] and a JSON column write it. *)
Definition sep8_json (r : Sep8ApprovalResult) : jsval :=
  js_object [("approved", Some (JBool (s8_approved r))); ("approvedTxXdr", s8_approvedTxXdr r); ("reason", s8_reason r);
    ("pending", option_map (fun retryAfterS => js_object [("retryAfterS", retryAfterS)]) (s8_pending r))].

Section Adapters.
Context `{IssuerLib} {Out : Type} (env : ProcessEnv).
Notation http_prog := (prog Database IssuerHttpCall Out).

(** What a response is worth to [issuerApiRequest]; [None] is [undefined], an empty body. *)
Definition read_response (method url : string) (res : HttpResponse) : outcome (option jsval) :=
  if negb ((200 <=? ha_status res) && (ha_status res <=? 299)) then
    let text := match ha_text res with Ok t => t | Err _ => "" end in
    Err (Error ("issuer API request failed: " +:+ method +:+ " " +:+ url +:+ " -> " +:+ Z_to_string (ha_status res) +:+ " " +:+
      ha_statusText res +:+ ": " +:+ text))
  else
    text <-? ha_text res ;;
    if eqs text "" then Ok None else v <-? JSON_parse text ;; Ok (Some v).

(** The [try] around a request: past its time limit every error is the timeout's. *)
Definition settled {A} (operation : string) (timeoutMs : Z) (f : Fetched) (read : HttpResponse -> outcome A) : outcome A :=
  match obind (fd_response f) read with
  | Ok v => Ok v
  | Err err => if fd_aborted f then Err (Error (operation +:+ ": request timed out after " +:+ Z_to_string timeoutMs +:+ " ms")) else Err err
  end.

Definition api_request (method url apiKey : string) (body : jsval) (idempotencyKey : option string) : HttpRequest :=
  Http method url
    ([("Authorization", "Bearer " +:+ apiKey); ("Content-Type", "application/json")] ++
     match idempotencyKey with Some key => [("Idempotency-Key", key)] | None => [] end) (Some body).

Definition issuerApiRequest (operation method url apiKey : string) (body : jsval) (idempotencyKey : option string)
  : http_prog (option jsval) :=
  timeoutMs <- lift (requestTimeoutMs env) ;;
  f <- call (Fetch (api_request method url apiKey body idempotencyKey) timeoutMs) ;;
  lift (settled operation timeoutMs f (read_response method url)).

Definition requestSep8ApprovalHttp (operation approvalServerUrl txXdr : string) : http_prog (option Sep8ApprovalResult) :=
  timeoutMs <- lift (requestTimeoutMs env) ;;
  f <- call (Fetch (Http "POST" approvalServerUrl [("Content-Type", "application/json")] (Some (JObj [("tx", JStr txXdr)]))) timeoutMs) ;;
  lift (settled operation timeoutMs f (fun res => text <-? ha_text res ;; body <-? JSON_parse text ;; mapSep8Response body)).

(** *** adapter.ts *)
Record IssuerAdapter := Adapter {
  requestAuthorization : string -> string -> http_prog (option jsval);
  requestSep8Approval : string -> string -> http_prog (option Sep8ApprovalResult);
  requestLienFreeze : string -> string -> Z -> option string -> http_prog (option jsval);
  requestLienRelease : string -> string -> http_prog unit;
  requestRedemption : string -> Z -> string -> option string -> http_prog (option jsval) }.

(** *** spikoAdapter.ts, etherfuseAdapter.ts, franklinAdapter.ts *)
Definition authorization_fields (assetCode holderAddress : string) : list (string * string) :=
  [("assetCode", assetCode); ("holderAddress", holderAddress)].
Definition lien_fields (assetCode holderAddress : string) (units : Z) : list (string * string) :=
  [("assetCode", assetCode); ("holderAddress", holderAddress); ("units", Z_to_string units)].
Definition redemption_fields (assetCode : string) (units : Z) (destination : string) : list (string * string) :=
  [("assetCode", assetCode); ("units", Z_to_string units); ("destination", destination)].
Definition text_object (fields : list (string * string)) : jsval := JObj (List.map (fun kv => (fst kv, JStr (snd kv))) fields).

(** The three classes are the same but for the issuer's name. *)
Definition live_methods (issuer baseUrl apiKey sep8Url : string) : IssuerAdapter := {|
  requestAuthorization assetCode holderAddress :=
    issuerApiRequest (issuer +:+ "Adapter.requestAuthorization") "POST" (baseUrl +:+ "/v1/authorizations") apiKey
      (text_object (authorization_fields assetCode holderAddress)) None;
  requestSep8Approval _ txXdr := requestSep8ApprovalHttp (issuer +:+ "Adapter.requestSep8Approval") sep8Url txXdr;
  requestLienFreeze assetCode holderAddress units idempotencyKey :=
    issuerApiRequest (issuer +:+ "Adapter.requestLienFreeze") "POST" (baseUrl +:+ "/v1/liens") apiKey
      (text_object (lien_fields assetCode holderAddress units)) idempotencyKey;
  requestLienRelease assetCode lienRef :=
    issuerApiRequest (issuer +:+ "Adapter.requestLienRelease") "DELETE" (baseUrl +:+ "/v1/liens/" +:+ encodeURIComponent lienRef) apiKey
      (text_object [("assetCode", assetCode)]) None ;;; Ret tt;
  requestRedemption assetCode units destination idempotencyKey :=
    issuerApiRequest (issuer +:+ "Adapter.requestRedemption") "POST" (baseUrl +:+ "/v1/redemptions") apiKey
      (text_object (redemption_fields assetCode units destination)) idempotencyKey |}.

Definition live_adapter (issuer baseUrl apiKey : string) (sep8ApprovalServerUrl : option string) : outcome IssuerAdapter :=
  config <-? requireLiveConfig issuer baseUrl apiKey ;;
  let '(baseUrl, apiKey) := config in
  Ok (live_methods issuer baseUrl apiKey
    (match sep8ApprovalServerUrl with Some url => js_or url (baseUrl +:+ "/sep8") | None => baseUrl +:+ "/sep8" end)).

Definition SpikoAdapter := live_adapter "Spiko".
Definition EtherfuseAdapter := live_adapter "Etherfuse".
Definition FranklinAdapter := live_adapter "Franklin".

(** *** registry.ts *)
Definition getAdapter (issuerCode : string) : outcome IssuerAdapter :=
  let code := toLowerCase issuerCode in
  if eqs code "spiko" then
    SpikoAdapter (default "" (env "SPIKO_API_BASE_URL")) (default "" (env "SPIKO_API_KEY")) (env "SPIKO_SEP8_APPROVAL_SERVER_URL")
  else if eqs code "etherfuse" then
    EtherfuseAdapter (default "" (env "ETHERFUSE_API_BASE_URL")) (default "" (env "ETHERFUSE_API_KEY"))
      (env "ETHERFUSE_SEP8_APPROVAL_SERVER_URL")
  else if eqs code "franklin" then
    FranklinAdapter (default "" (env "FRANKLIN_API_BASE_URL")) (default "" (env "FRANKLIN_API_KEY"))
      (env "FRANKLIN_SEP8_APPROVAL_SERVER_URL")
  else Err (Error ("issuer-gateway: no adapter registered for issuer code " +:+ quoted issuerCode)).
End Adapters.
Arguments IssuerAdapter Out : clear implicits.
