(* ===== verification/Gateway.v ===== *)
(** The issuer gateway's server ([services/issuer-gateway/src/index.ts]) behind the internal token
    ([network-config/src/internalAuth.ts]).  A request names the issuer in its path; its body has the
    fields its route declares. *)
From S2P Require Import Prelude Prog Schema Rules Idempotency IssuerHttp.

(** ** internalAuth.ts *)
Definition MIN_TOKEN_LENGTH : nat := 32.

Class TokenDigest := { sha256 : string -> list Z }.

Definition loadInternalToken (env : ProcessEnv) : outcome string :=
  let refused := Error "INTERNAL_API_TOKEN must be set to a secret of at least 32 characters (openssl rand -hex 32)" in
  match env "INTERNAL_API_TOKEN" with
  | Some token => if eqs token "" || (slen token <? MIN_TOKEN_LENGTH)%nat then Err refused else Ok token
  | None => Err refused
  end.

(** A header's value, as Fastify gives it: absent, one text, or repeated. *)
Notation HeaderValue := KeyHeader.

(** The hook: the requests it lets through. *)
Definition token_accepted `{TokenDigest} (token : string) (given : HeaderValue) : bool :=
  match given with
  | OneHeader value => bool_decide (sha256 value = sha256 token)
  | NoHeader | ManyHeaders => false
  end.

(** [requireInternalToken]: throws on a short token when the server is built. *)
Definition requireInternalToken `{TokenDigest} (token : string) : outcome (HeaderValue -> bool) :=
  if (slen token <? MIN_TOKEN_LENGTH)%nat then Err (Error "internal token is too short") else Ok (token_accepted token).

Definition dashes_to_underscores : string -> string := string_map (fun c => if bool_decide (c = "-"%char) then "_"%char else c).
Definition internalBindHost (name : string) (env : ProcessEnv) : string :=
  default "127.0.0.1" (setting env (dashes_to_underscores (toUpperCase name) +:+ "_HOST")).

(** ** index.ts *)
Inductive GatewayOut :=
| AuditLost (action : string) (payload : jsval)
| KeyLost (stage issuerCode route idempotencyKey : string).

Notation gateway_prog := (prog Database IssuerHttpCall GatewayOut).
Notation gateway_world := (world Database IssuerHttpCall GatewayOut).

Inductive GatewayBody :=
| AuthorizeBody (assetCode holderAddress : string)
| Sep8ApproveBody (assetCode txXdr : string)
| LienFreezeBody (assetCode holderAddress units : string)
| LienReleaseBody (assetCode lienRef : string)
| RedeemBody (assetCode units destination : string).

Record GatewayRequest := GRequest {
  gq_token : HeaderValue; gq_key : HeaderValue; gq_code : string; gq_body : GatewayBody }.

(** [None]: an empty body, what sending [undefined] gives. *)
Record GatewayReply := GReply { gr_code : Z; gr_replayed : bool; gr_body : option jsval }.
Definition sent (result : option jsval) : GatewayReply := GReply 200 false result.
Definition refusal (code : Z) (msg : string) : GatewayReply := GReply code false (Some (JObj [("error", JStr msg)])).

Definition audit (action : string) (payload : jsval) : gateway_prog unit :=
  catch (stmt (insert auditLog (fun s => AuditLog (st_uuid s) "issuer-gateway" action payload None (st_now s))))
    (fun _ => emit (AuditLost action payload)).

Section Server.
Context `{IssuerLib} `{Fingerprint} `{TokenDigest} (env : ProcessEnv) (fuel : nat).

Definition obligation (req : GatewayRequest) (route : string) (params : list (string * string))
    (call : option string -> gateway_prog (option jsval)) (recordAudit : option jsval -> option string -> gateway_prog unit)
  : gateway_prog GatewayReply :=
  match readIdempotencyKey (gq_key req) with
  | Err err => if eqs (exn_class err) "InvalidIdempotencyKeyError" then Ret (refusal 400 (exn_message err)) else Throw err
  | Ok None =>
      result <- call None ;;
      recordAudit result None ;;;
      Ret (sent result)
  | Ok (Some key) =>
      let issuerCode := toLowerCase (gq_code req) in
      catch
        (o <- runIdempotent fuel (IdemRequest issuerCode route key params) (call (Some key))
                (fun _ stage => emit (KeyLost stage issuerCode route key)) ;;
         if io_replayed o then Ret (GReply 200 true (io_result o))
         else recordAudit (io_result o) (Some key) ;;; Ret (sent (io_result o)))
        (fun err =>
           if eqs (exn_class err) "IdempotencyKeyReusedError" then Ret (refusal 422 (exn_message err))
           else if eqs (exn_class err) "IdempotencyInFlightError" then Ret (refusal 409 (exn_message err))
           else Throw err)
  end.

Definition str (s : string) : option jsval := Some (JStr s).

(** [getAdapter(code)], and the rest of the route with what it returned. *)
Definition with_adapter (code : string) (k : IssuerAdapter GatewayOut -> gateway_prog GatewayReply) : gateway_prog GatewayReply :=
  match getAdapter env code with Ok adapter => k adapter | Err err => Throw err end.

Definition authorize_route (code assetCode holderAddress : string) : gateway_prog GatewayReply :=
  with_adapter code (fun adapter =>
  result <- requestAuthorization adapter assetCode holderAddress ;;
  audit "issuer.authorize" (js_object [("issuerCode", str code); ("assetCode", str assetCode); ("holderAddress", str holderAddress); ("result", result)]) ;;;
  Ret (sent result)).

Definition sep8_approve_route (code assetCode txXdr : string) : gateway_prog GatewayReply :=
  with_adapter code (fun adapter =>
  result <- requestSep8Approval adapter assetCode txXdr ;;
  audit "issuer.sep8_approve" (js_object [("issuerCode", str code); ("assetCode", str assetCode); ("result", option_map sep8_json result)]) ;;;
  Ret (sent (option_map sep8_json result))).

Definition lien_freeze_route (req : GatewayRequest) (assetCode holderAddress units : string) : gateway_prog GatewayReply :=
  let code := gq_code req in
  with_adapter code (fun adapter =>
  amount <- lift (BigInt units) ;;
  obligation req "lien-freeze" (lien_fields assetCode holderAddress amount)
    (requestLienFreeze adapter assetCode holderAddress amount)
    (fun result idempotencyKey => audit "issuer.lien_freeze"
       (js_object [("issuerCode", str code); ("assetCode", str assetCode); ("holderAddress", str holderAddress); ("units", str units);
          ("idempotencyKey", option_map JStr idempotencyKey); ("result", result)]))).

Definition lien_release_route (code assetCode lienRef : string) : gateway_prog GatewayReply :=
  with_adapter code (fun adapter =>
  requestLienRelease adapter assetCode lienRef ;;;
  audit "issuer.lien_release" (js_object [("issuerCode", str code); ("assetCode", str assetCode); ("lienRef", str lienRef)]) ;;;
  Ret (sent (Some (JObj [("ok", JBool true)])))).

Definition redeem_route (req : GatewayRequest) (assetCode units destination : string) : gateway_prog GatewayReply :=
  let code := gq_code req in
  with_adapter code (fun adapter =>
  amount <- lift (BigInt units) ;;
  obligation req "redeem" (redemption_fields assetCode amount destination)
    (requestRedemption adapter assetCode amount destination)
    (fun result idempotencyKey => audit "issuer.redeem"
       (js_object [("issuerCode", str code); ("assetCode", str assetCode); ("units", str units); ("destination", str destination);
          ("idempotencyKey", option_map JStr idempotencyKey); ("result", result)]))).

Definition gateway_route (req : GatewayRequest) : gateway_prog GatewayReply :=
  match gq_body req with
  | AuthorizeBody assetCode holderAddress => authorize_route (gq_code req) assetCode holderAddress
  | Sep8ApproveBody assetCode txXdr => sep8_approve_route (gq_code req) assetCode txXdr
  | LienFreezeBody assetCode holderAddress units => lien_freeze_route req assetCode holderAddress units
  | LienReleaseBody assetCode lienRef => lien_release_route (gq_code req) assetCode lienRef
  | RedeemBody assetCode units destination => redeem_route req assetCode units destination
  end.

(** What Fastify answers to an exception. *)
Definition internal_error (err : exn) : GatewayReply :=
  GReply 500 false (Some (JObj [("statusCode", JNum 500); ("error", JStr "Internal Server Error"); ("message", JStr (exn_message err))])).

(** [buildServer]: the hook, then the route. *)
Definition serve_gateway (accepts : HeaderValue -> bool) (req : GatewayRequest) : gateway_prog GatewayReply :=
  if accepts (gq_token req) then catch (gateway_route req) (fun err => Ret (internal_error err))
  else Ret (refusal 401 "missing or invalid internal token").

Definition buildServer (internalToken : string) : outcome (GatewayRequest -> gateway_prog GatewayReply) :=
  accepts <-? requireInternalToken internalToken ;;
  Ok (serve_gateway accepts).
End Server.
