(* ===== verification/GatewayOverlap.v ===== *)
(** The issuer gateway under overlapping requests: what reaches the issuers over HTTP, and what the
    idempotency keys make of it. *)
From S2P Require Import Prelude Prog Interleave Schema Rules Idempotency IdempotencyOverlap IssuerHttp Gateway.

(** ** What the HTTP log says an issuer was asked *)
Section Obligations.
Context `{IssuerLib} (env : ProcessEnv).

(** The issuers of the registry, and where each one's back office is. *)
Definition issuers : list (string * string) :=
  [("spiko", default "" (env "SPIKO_API_BASE_URL")); ("etherfuse", default "" (env "ETHERFUSE_API_BASE_URL"));
   ("franklin", default "" (env "FRANKLIN_API_BASE_URL"))].

(** No two configured issuers have the same back office. *)
Definition distinct_issuers : Prop :=
  forall i j base, In (i, base) issuers -> In (j, base) issuers -> base <> "" -> i = j.

Definition obligation_urls : list (string * (string * string)) :=
  List.concat (List.map (fun ib : string * string =>
    [(snd ib +:+ "/v1/liens", (fst ib, "lien-freeze")); (snd ib +:+ "/v1/redemptions", (fst ib, "redeem"))]) issuers).

Fixpoint text_fields (fields : list (string * jsval)) : option (list (string * string)) :=
  match fields with
  | [] => Some []
  | (k, JStr s) :: fields => option_map (cons (k, s)) (text_fields fields)
  | _ => None
  end.

(** The keyed obligation an HTTP request asks for, if it is one. *)
Definition asked_for (r : HttpRequest) : option IdempotentRequest :=
  match assoc "Idempotency-Key" (hr_headers r), assoc (hr_url r) obligation_urls, hr_body r with
  | Some key, Some (issuer, route), Some (JObj fields) =>
      if eqs (hr_method r) "POST" then option_map (IdemRequest issuer route key) (text_fields fields) else None
  | _, _, _ => None
  end.

(** The answer read from a response, if it can be. *)
Definition usable_answer (r : HttpRequest) (f : Fetched) : outcome (option jsval) :=
  obind (fd_response f) (read_response (hr_method r) (hr_url r)).

#[export] Instance gateway_obligations : Obligations IssuerHttpCall GatewayOut := fun x =>
  match x with
  | ECall c r =>
      match c in IssuerHttpCall X return outcome X -> list key_attempt with
      | Fetch req _ => fun r =>
          match asked_for req with Some q => [(q, obind r (usable_answer req))] | None => [] end
      end r
  | EOut _ => []
  end.

(** ** The adapters *)
Lemma live_adapter_ok issuer base apiKey sep8 (adapter : IssuerAdapter GatewayOut) :
  live_adapter env issuer base apiKey sep8 = Ok adapter ->
  base <> "" /\ exists sep8Url, adapter = live_methods env issuer base apiKey sep8Url.
Proof.
  unfold live_adapter, requireLiveConfig, eqs. case_bool_decide; [done|]. case_bool_decide; [done|].
  intros [= <-]. split; [done|by eexists].
Qed.

Lemma adapter_of code (adapter : IssuerAdapter GatewayOut) : getAdapter env code = Ok adapter ->
  exists issuer base apiKey sep8Url, In (toLowerCase code, base) issuers /\ base <> "" /\
    adapter = live_methods env issuer base apiKey sep8Url.
Proof.
  unfold getAdapter, SpikoAdapter, EtherfuseAdapter, FranklinAdapter, eqs.
  repeat (case_bool_decide as E; [intros (Hb & url & ->)%live_adapter_ok;
    do 4 eexists; (split; [|split; [exact Hb|reflexivity]]); rewrite E; unfold issuers; first [by left|by right; left|by right; right; left]|clear E]). intros [=].
Qed.

Lemma text_fields_object params : text_fields (List.map (fun kv => (fst kv, JStr (snd kv))) params) = Some params.
Proof. induction params as [|[k v] l IH]; cbn; [done|]. by rewrite IH. Qed.

Lemma tails_differ (s t u v : string) n :
  string_take n (string_rev u) <> string_take n (string_rev v) -> (n <= slen u)%nat -> (n <= slen v)%nat -> s +:+ u <> t +:+ v.
Proof.
  intros Hd Hu Hv E. apply Hd. apply (f_equal (fun x => string_take n (string_rev x))) in E. revert E.
  unfold string_take, string_rev, slen in *. rewrite !string_to_list_to_string, !string_to_list_app, !rev_app_distr.
  rewrite !take_app_le by (rewrite length_rev; lia). done.
Qed.

Lemma same_tail (s t u : string) : s +:+ u = t +:+ u -> s = t.
Proof.
  intros E. apply (f_equal string_to_list) in E. rewrite !string_to_list_app in E. apply app_inv_tail in E.
  by rewrite <- (list_to_string_to_list s), E, list_to_string_to_list.
Qed.

Lemma assoc_found {V} k (l : list (string * V)) v : In (k, v) l -> exists v', assoc k l = Some v' /\ In (k, v') l.
Proof.
  induction l as [|[k' v'] l IH]; [done|]. intros Hin. cbn. case_bool_decide as E; [subst k'; exists v'; auto|].
  destruct Hin as [[= -> ->]|Hin]; [done|]. destruct (IH Hin) as (v2 & ? & ?). exists v2. auto.
Qed.

Lemma url_known i base tail route :
  distinct_issuers -> In (i, base) issuers -> base <> "" ->
  (tail, route) = ("/v1/liens", "lien-freeze") \/ (tail, route) = ("/v1/redemptions", "redeem") ->
  assoc (base +:+ tail) obligation_urls = Some (i, route).
Proof.
  intros Hd Hi Hb Htail.
  assert (Hin : In (base +:+ tail, (i, route)) obligation_urls).
  { apply in_concat. eexists. split; [apply (in_map _ _ _ Hi)|]. cbn [fst snd]. destruct Htail as [[= -> ->]|[= -> ->]]; cbn; auto. }
  apply assoc_found in Hin as ([i' route'] & -> & Hin).
  apply in_concat in Hin as (l & ([i2 base2] & <- & Hi2)%in_map_iff & Hin). cbn [fst snd] in Hin.
  destruct Htail as [[= -> ->]|[= -> ->]], Hin as [[= E <- <-]|[[= E <- <-]|[]]].
  1, 4: (apply same_tail in E as ->; f_equal; f_equal; by eapply Hd).
  all: exfalso; revert E; apply (tails_differ _ _ _ _ 5); [by vm_compute|vm_compute; lia|vm_compute; lia].
Qed.
End Obligations.

(** ** The server's programs *)
Section Serve.
Context `{IssuerLib} `{Fingerprint} `{TokenDigest} (env : ProcessEnv) (d0 : Database).
Hypothesis distinct : distinct_issuers env.
#[local] Instance obligations : Obligations IssuerHttpCall GatewayOut := gateway_obligations env.
Implicit Types w : gateway_world.
Notation quiet := (quiet (Ext := IssuerHttpCall) (Out := GatewayOut)).

(** *** Quiet programs *)
Lemma quiet_ret {A} (a : A) : quiet (Ret a). Proof. done. Qed.
Lemma quiet_lift {A} (r : outcome A) : quiet (lift r). Proof. by destruct r. Qed.

Lemma quiet_bind {A B} (p : gateway_prog A) (f : A -> gateway_prog B) : quiet p -> (forall a, quiet (f a)) -> quiet (bind p f).
Proof.
  intros Hp Hf. apply follows_bind. eapply follows_mono; [|exact Hp]. intros [] [a|x] _; [apply Hf|done].
Qed.

Lemma quiet_call {X} (c : IssuerHttpCall X) : (forall r, attempt_of (ECall c r) = []) -> quiet (call c).
Proof.
  intros Hc. apply follows_call. intros w r _. exists tt. split; [|done]. split; [done|]. world_simpl.
  by rewrite key_attempts_snoc, Hc, app_nil_r.
Qed.

Lemma quiet_emit (o : GatewayOut) : quiet (emit o).
Proof. intros w. exists tt. split; [|done]. split; [done|]. world_simpl. by rewrite key_attempts_snoc, app_nil_r. Qed.

Lemma quiet_audit action payload : quiet (audit action payload).
Proof.
  apply follows_catch, follows_stmt. intros w.
  assert (Hlost : forall w', w_db w' issuerIdempotency = w_db w issuerIdempotency -> w_log w' = w_log w ->
    exists u, quiet_step tt w w' u /\ follows any_answer quiet_step (emit (AuditLost action payload)) (fun _ _ => True) u).
  { intros w' E1 E2. exists tt. split; [|apply quiet_emit]. split; [done|by rewrite E2]. }
  split; [intros x; by apply Hlost|]. intros s _. unfold insert. cbn [in_range negb].
  destruct (conflicts auditLog _ _); [by apply Hlost|]. cbn [references_ok negb].
  split; [exists tt; split; [|done]|intros x _; apply Hlost]; [split|..]; world_simpl; by rewrite ?set_table_other.
Qed.

(** A request without a key asks for nothing that is kept. *)
Lemma quiet_unkeyed operation method url apiKey body : quiet (issuerApiRequest env operation method url apiKey body None).
Proof.
  unfold issuerApiRequest. apply quiet_bind; [apply quiet_lift|]. intros ms. apply quiet_bind; [by apply quiet_call|]. intros f. apply quiet_lift.
Qed.

Lemma quiet_sep8 operation url tx : quiet (requestSep8ApprovalHttp env operation url tx).
Proof.
  unfold requestSep8ApprovalHttp. apply quiet_bind; [apply quiet_lift|]. intros ms. apply quiet_bind; [by apply quiet_call|]. intros f. apply quiet_lift.
Qed.

(** *** Keyed obligations *)
Lemma obtained operation tail route i base apiKey key params :
  In (i, base) (issuers env) -> base <> "" ->
  (tail, route) = ("/v1/liens", "lien-freeze") \/ (tail, route) = ("/v1/redemptions", "redeem") ->
  asks_once (IdemRequest i route key params)
    (issuerApiRequest env operation "POST" (base +:+ tail) apiKey (text_object params) (Some key)).
Proof.
  intros Hi Hb Htail. unfold issuerApiRequest. apply follows_bind, follows_lift.
  destruct (requestTimeoutMs env) as [ms|x]; [|by left]. apply follows_bind, follows_call. intros w r _.
  set (req := api_request _ _ _ _ _).
  assert (Hasked : asked_for env req = Some (IdemRequest i route key params)).
  { unfold asked_for, req. cbn [api_request hr_headers hr_url hr_body hr_method]. rewrite (url_known env i base tail route) by done.
    cbn. unfold text_object. by rewrite text_fields_object. }
  assert (Hlog : attempts (w_log (note w (ECall (Fetch req ms) r))) =
    attempts (w_log w) ++ [(IdemRequest i route key params, obind r (usable_answer req))]).
  { world_simpl. rewrite key_attempts_snoc. unfold attempt_of, obligations, gateway_obligations. by rewrite Hasked. }
  destruct (obind r (usable_answer req)) as [v|x] eqn:Ea.
  - exists (Got v). split; [by apply I_answer|]. destruct r as [f|x]; [|done].
    change (read_response _ _) with (read_response (hr_method req) (hr_url req)). unfold settled.
    change (obind (fd_response f) _) with (usable_answer req f). cbn [obind] in Ea. by rewrite Ea.
  - exists Failed. split; [by eapply I_fail|]. destruct r as [f|y]; [|by right].
    change (read_response _ _) with (read_response (hr_method req) (hr_url req)). unfold settled.
    change (obind (fd_response f) _) with (usable_answer req f). cbn [obind] in Ea. rewrite Ea. cbn. destruct (fd_aborted f); by right.
Qed.

(** The obligation a request asks for, with its key. *)
Definition obligation_of (req : GatewayRequest) : option IdempotentRequest :=
  match readIdempotencyKey (gq_key req), gq_body req with
  | Ok (Some key), LienFreezeBody assetCode holderAddress units =>
      match BigInt units with
      | Ok amount => Some (IdemRequest (toLowerCase (gq_code req)) "lien-freeze" key (lien_fields assetCode holderAddress amount))
      | Err _ => None
      end
  | Ok (Some key), RedeemBody assetCode units destination =>
      match BigInt units with
      | Ok amount => Some (IdemRequest (toLowerCase (gq_code req)) "redeem" key (redemption_fields assetCode amount destination))
      | Err _ => None
      end
  | _, _ => None
  end.

(** What stands for a request that asks for none. *)
Definition no_obligation : IdempotentRequest := IdemRequest "" "" "" [].
Definition sought (req : GatewayRequest) : IdempotentRequest := default no_obligation (obligation_of req).

Definition replies (m : IdempotentRequest * phase) (r : outcome GatewayReply) : Prop :=
  match r with
  | Ok reply => gr_code reply = 200 -> iq_key (fst m) <> "" -> snd m = HasAnswer (gr_body reply) \/ snd m = Told (gr_body reply)
  | Err _ => True
  end.

Lemma replies_quiet {A} (p : gateway_prog A) q ph (Fin : IdempotentRequest * phase -> outcome A -> Prop) :
  quiet p -> (forall r, Fin (q, ph) r) -> follows any_answer allowed p Fin (q, ph).
Proof. apply follows_quiet. Qed.

Lemma follows_obligation fuel req route params call recordAudit :
  (forall key, readIdempotencyKey (gq_key req) = Ok (Some key) ->
     sought req = IdemRequest (toLowerCase (gq_code req)) route key params /\ asks_once (sought req) (call (Some key))) ->
  (readIdempotencyKey (gq_key req) = Ok None -> sought req = no_obligation /\ quiet (call None)) ->
  (forall v key, quiet (recordAudit v key)) ->
  follows any_answer allowed (obligation fuel req route params call recordAudit) replies (sought req, Seeking).
Proof.
  intros Hkeyed Hunkeyed Haudit. unfold obligation. destruct (readIdempotencyKey (gq_key req)) as [[key|]|x] eqn:Ek.
  - destruct (Hkeyed key eq_refl) as [Eq Hcall]. rewrite <- Eq. apply follows_catch, follows_bind.
    eapply follows_mono; [|apply follows_runIdempotent; split; [exact Hcall|intros x stage; apply quiet_emit]].
    intros [q ph] [o|x] Ha.
    + destruct (io_replayed o); [by intros _ _|]. apply follows_bind, follows_quiet; [apply Haudit|]. intros [[]|x].
      * by intros _ _.
      * cbn. by destruct (eqs _ _); [|destruct (eqs _ _)].
    + by destruct (eqs _ _); [|destruct (eqs _ _)].
  - destruct (Hunkeyed eq_refl) as [-> Hq]. apply follows_quiet; [|by intros [reply|x]; cbn].
    apply quiet_bind; [done|]. intros v. apply quiet_bind; [apply Haudit|]. intros _. apply quiet_ret.
  - by destruct (eqs _ _).
Qed.

(** *** A request, from the token on *)
Lemma with_adapter_follows code k m :
  (forall issuer base apiKey sep8Url, In (toLowerCase code, base) (issuers env) -> base <> "" ->
     follows any_answer allowed (k (live_methods env issuer base apiKey sep8Url)) replies m) ->
  follows any_answer allowed (with_adapter env code k) replies m.
Proof.
  intros Hk. unfold with_adapter. destruct (getAdapter env code) as [adapter|x] eqn:E; [|done].
  apply adapter_of in E as (issuer & base & apiKey & url & Hi & Hb & ->). by apply Hk.
Qed.

Lemma follows_other req p : obligation_of req = None -> quiet p -> follows any_answer allowed p replies (sought req, Seeking).
Proof. intros E Hp. unfold sought. rewrite E. apply follows_quiet; [done|]. by intros [reply|x]; cbn. Qed.

Lemma sought_eq req q : obligation_of req = Some q -> sought req = q.
Proof. unfold sought. by intros ->. Qed.

Lemma follows_gateway_route fuel req : follows any_answer allowed (gateway_route env fuel req) replies (sought req, Seeking).
Proof.
  unfold gateway_route. destruct (gq_body req) eqn:Eb.
  - apply with_adapter_follows. intros issuer base apiKey url _ _. apply follows_other.
    { unfold obligation_of. rewrite Eb. by destruct (readIdempotencyKey _) as [[|]|]. }
    apply quiet_bind; [apply quiet_unkeyed|]. intros v. apply quiet_bind; [apply quiet_audit|done].
  - apply with_adapter_follows. intros issuer base apiKey url _ _. apply follows_other.
    { unfold obligation_of. rewrite Eb. by destruct (readIdempotencyKey _) as [[|]|]. }
    apply quiet_bind; [apply quiet_sep8|]. intros v. apply quiet_bind; [apply quiet_audit|done].
  - apply with_adapter_follows. intros issuer base apiKey url Hi Hb. apply follows_bind, follows_lift.
    destruct (BigInt units) as [amount|x] eqn:Eu; [|done]. apply follows_obligation; [|intros Ek; split; [|apply quiet_unkeyed]|intros; apply quiet_audit].
    + intros key Ek. assert (Hq : obligation_of req = Some (IdemRequest (toLowerCase (gq_code req)) "lien-freeze" key (lien_fields assetCode holderAddress amount)))
        by (unfold obligation_of; by rewrite Ek, Eb, Eu). rewrite (sought_eq _ _ Hq). split; [done|]. apply obtained; auto.
    + unfold sought, obligation_of. by rewrite Ek.
  - apply with_adapter_follows. intros issuer base apiKey url _ _. apply follows_other.
    { unfold obligation_of. rewrite Eb. by destruct (readIdempotencyKey _) as [[|]|]. }
    apply quiet_bind; [apply quiet_bind; [apply quiet_unkeyed|done]|]. intros v. apply quiet_bind; [apply quiet_audit|done].
  - apply with_adapter_follows. intros issuer base apiKey url Hi Hb. apply follows_bind, follows_lift.
    destruct (BigInt units) as [amount|x] eqn:Eu; [|done]. apply follows_obligation; [|intros Ek; split; [|apply quiet_unkeyed]|intros; apply quiet_audit].
    + intros key Ek. assert (Hq : obligation_of req = Some (IdemRequest (toLowerCase (gq_code req)) "redeem" key (redemption_fields assetCode amount destination)))
        by (unfold obligation_of; by rewrite Ek, Eb, Eu). rewrite (sought_eq _ _ Hq). split; [done|]. apply obtained; auto.
    + unfold sought, obligation_of. by rewrite Ek.
Qed.

Lemma follows_serve fuel accepts req : follows any_answer allowed (serve_gateway env fuel accepts req) replies (sought req, Seeking).
Proof.
  unfold serve_gateway. destruct (accepts _); [|done]. apply follows_catch.
  eapply follows_mono; [|apply follows_gateway_route]. by intros m [reply|x].
Qed.

Lemma key_not_empty req q : obligation_of req = Some q -> iq_key q <> "".
Proof.
  unfold obligation_of. destruct (readIdempotencyKey (gq_key req)) as [[key|]|x] eqn:Ek; [|done|done].
  assert (key <> "").
  { intros ->. unfold readIdempotencyKey in Ek. destruct (gq_key req) as [|h|]; [done| |done].
    destruct (slen h =? 0)%nat eqn:E; [done|]. destruct (_ || _); [done|]. injection Ek as ->. done. }
  destruct (gq_body req); try done; (destruct (BigInt units); [|done]); by intros [= <-].
Qed.
End Serve.

(** C15. A key gets one answer, over HTTP and however requests overlap.  Take any requests to the gateway in
    progress at once, with or without tokens and keys, liens, redemptions and others; any interleaving of
    their statements and HTTP requests; and whatever the database and the issuers do, lost acknowledgements,
    errors and timeouts included.  If no two configured issuers share a back office, then of all HTTP requests
    for the same issuer, route and key every one but the last failed: refused, not answered in time, or
    answered with a body that could not be read, in which case the issuer may have acted on it
    ([unread_answer_is_asked_again]).  So at most one was answered usably, and none follows it; and every
    keyed obligation the gateway answered with 200 got the issuer's answer to a request with that key and the
    same parameters, in this life of the gateway or stored before it. *)
Theorem overlapping_obligations_obtained_once `{IssuerLib} `{Fingerprint} `{TokenDigest} (e : env IssuerHttpCall) (d : Database)
    (env : ProcessEnv) (accepts : KeyHeader -> bool) (requests : list (nat * GatewayRequest)) (schedule : list nat) :
  distinct_issuers env ->
  let '(threads, w) := interleave e schedule (List.map (fun nr => serve_gateway env (fst nr) accepts (snd nr)) requests, World d 0 []) in
  again_only_after_failure (@attempts _ _ (gateway_obligations env) (w_log w)) /\
  NoDup (List.map (fun qv => triple (fst qv)) (@usable _ _ (gateway_obligations env) (w_log w))) /\
  Forall2 (fun nr p => forall reply q, p = Ret reply -> gr_code reply = 200 -> obligation_of (snd nr) = Some q ->
    @answered_once _ _ _ (gateway_obligations env) d w q (gr_body reply)) requests threads.
Proof.
  intros Hd. pose proof (overlap_keeps (H0 := gateway_obligations env) d e replies schedule
    (List.map (fun nr => serve_gateway env (fst nr) accepts (snd nr)) requests) (List.map (fun nr => sought (snd nr)) requests)) as Hk.
  destruct (interleave _ _ _) as [threads w]. destruct Hk as (ss & Hsh & Hq & Hf).
  { induction requests; constructor; [by apply follows_serve|done]. }
  split; [apply Hsh|]. split; [apply Hsh|]. apply Forall2_same_length_lookup_2.
  - by rewrite (Forall2_length _ _ _ Hf), <- (length_map fst ss), Hq, length_map.
  - intros i nr p Hi Hp reply q -> Hcode Hreq. destruct (Forall2_lookup_l _ _ _ _ _ Hf Hp) as ([q' ph] & Hm & Ha).
    pose proof (f_equal (lookup i) Hq) as Eq. rewrite !list_lookup_fmap, Hm, Hi in Eq. injection Eq as ->.
    rewrite (sought_eq _ _ Hreq) in *. specialize (Ha Hcode (key_not_empty _ _ Hreq)).
    eapply (answers_shared d w q ph (IdemOutcome (gr_body reply) false)); [by eapply sh_phases|exact Ha].
Qed.

(** ** A concrete case *)
Definition sample_json : IssuerLib := {| JSON_parse t := Ok (JStr t) |}.
Definition sample_digest : TokenDigest := {| sha256 t := List.map char_code (string_to_list t) |}.
Definition sample_process : ProcessEnv := fun key =>
  if eqs key "SPIKO_API_BASE_URL" then Some "https://spiko.test" else if eqs key "SPIKO_API_KEY" then Some "k"
  else if eqs key "FRANKLIN_API_BASE_URL" then Some "https://franklin.test" else if eqs key "FRANKLIN_API_KEY" then Some "f" else None.
Definition sample_back_office (X : Type) (n : nat) (c : IssuerHttpCall X) : outcome X :=
  match c in IssuerHttpCall X return outcome X with Fetch r _ => Ok (Fetch_result (Ok (Responded 201 "Created" (Ok "L1"))) false) end.
Definition sample_gateway_env : env IssuerHttpCall := Env sample_back_office (fun _ => NoFault) (fun n => Stamp (Z.of_nat n) (Z_to_string (Z.of_nat n))).
Definition sample_token : string := "0123456789abcdef0123456789abcdef".
Definition sample_freeze (code : string) : GatewayRequest :=
  GRequest (OneHeader sample_token) (OneHeader "k1") code (LienFreezeBody "USTBL" "GHOLDER" "10").
Definition sample_requests : list (nat * GatewayRequest) := [(0%nat, sample_freeze "Spiko"); (0%nat, sample_freeze "spiko"); (0%nat, sample_freeze "franklin")].
Definition sample_threads `{IssuerLib} `{Fingerprint} `{TokenDigest} :=
  List.map (fun nr : nat * GatewayRequest => serve_gateway sample_process (fst nr) (token_accepted sample_token) (snd nr)) sample_requests.

Definition sample_schedule : list nat := [0; 1; 0; 2; 1; 0; 2; 0; 2; 2; 1; 0; 1; 2]%nat.

Lemma sample_distinct : distinct_issuers sample_process.
Proof.
  intros i j base Hi Hj Hne. vm_compute in Hi, Hj. intuition congruence.
Qed.

Lemma overlapping_obligations_obtained_once_witness :
  let '(threads, w) := interleave sample_gateway_env sample_schedule
    (@sample_threads sample_json sample_print sample_digest, World empty_db 0 []) in
  again_only_after_failure (@attempts _ _ (@gateway_obligations sample_json sample_process) (w_log w)) /\
  NoDup (List.map (fun qv => triple (fst qv)) (@usable _ _ (@gateway_obligations sample_json sample_process) (w_log w))) /\
  Forall2 (fun nr p => forall reply q, p = Ret reply -> gr_code reply = 200 -> obligation_of (snd nr) = Some q ->
    @answered_once sample_print _ _ (@gateway_obligations sample_json sample_process) empty_db w q (gr_body reply)) sample_requests threads.
Proof.
  unfold sample_threads. exact (@overlapping_obligations_obtained_once sample_json sample_print sample_digest sample_gateway_env empty_db sample_process
    (@token_accepted sample_digest sample_token) sample_requests sample_schedule sample_distinct).
Defined.

Definition code_of {A} (code : A -> Z) (p : gateway_prog A) : Z :=
  match p in Prog.prog _ _ _ A return (A -> Z) -> Z with Ret a => fun code => code a | _ => fun _ => 0 end code.

(** The two requests to the same issuer get one lien, the other issuer's request its own. *)
Example sample_overlap :
  let '(threads, w) := interleave sample_gateway_env sample_schedule
    (@sample_threads sample_json sample_print sample_digest, World empty_db 0 []) in
  List.map (fun qv => triple (fst qv)) (@usable _ _ (@gateway_obligations sample_json sample_process) (w_log w)) =
    [("spiko", "lien-freeze", "k1"); ("franklin", "lien-freeze", "k1")] /\
  List.map (code_of gr_code) threads = [200; 409; 200].
Proof. vm_compute. auto. Qed.

(** A lien that was made (201) but whose answer could not be read: the claim is released, and the key's next
    request asks the issuer again. *)
Definition unread_back_office (X : Type) (n : nat) (c : IssuerHttpCall X) : outcome X :=
  match c in IssuerHttpCall X return outcome X with
  | Fetch r _ => Ok (Fetch_result (Ok (Responded 201 "Created" (if (n <? 3)%nat then Err (Error "terminated") else Ok "L2"))) false)
  end.
Example unread_answer_is_asked_again :
  let e := Env unread_back_office (fun _ => NoFault) (fun n => Stamp (Z.of_nat n) (Z_to_string (Z.of_nat n))) in
  let '(rs, w) := run_each e (@sample_threads sample_json sample_print sample_digest) (World empty_db 0 []) in
  List.map (fun a => (triple (fst a), is_ok (snd a))) (@attempts _ _ (@gateway_obligations sample_json sample_process) (w_log w)) =
    [(("spiko", "lien-freeze", "k1"), false); (("spiko", "lien-freeze", "k1"), true); (("franklin", "lien-freeze", "k1"), true)].
Proof. vm_compute. auto. Qed.
