(* ===== verification/GatewaySafety.v ===== *)
(** What one request to the issuer gateway does: at most one HTTP request, an answer that is the
    issuer's, and a record of every interaction that succeeded. *)
From S2P Require Import Prelude Prog Schema Rules Idempotency IssuerHttp Gateway GatewayOverlap.

(** ** The effects of a request *)
Notation fetch := (HttpRequest * outcome Fetched)%type.
Notation entry := (Prog.entry IssuerHttpCall GatewayOut).

Definition fetch_of (x : entry) : list fetch :=
  match x with
  | ECall c r =>
      match c in IssuerHttpCall X return outcome X -> list fetch with Fetch req _ => fun r => [(req, r)] end r
  | EOut _ => []
  end.
Definition fetches (log : list entry) : list fetch := List.concat (List.map fetch_of log).

Definition loss_of (x : entry) : list (string * jsval) :=
  match x with EOut (AuditLost action payload) => [(action, payload)] | _ => [] end.
Definition losses (log : list entry) : list (string * jsval) := List.concat (List.map loss_of log).

(** How the audits of a request, in order, were kept: written, reported lost, or both when the
    acknowledgement of the insert was. *)
Inductive audits_kept : list (string * jsval) -> list auditLog_row -> list (string * jsval) -> Prop :=
| kept_none : audits_kept [] [] []
| kept_written action payload id t aus rows lost : audits_kept aus rows lost ->
    audits_kept ((action, payload) :: aus) (AuditLog id "issuer-gateway" action payload None t :: rows) lost
| kept_lost action payload aus rows lost : audits_kept aus rows lost ->
    audits_kept ((action, payload) :: aus) rows ((action, payload) :: lost)
| kept_both action payload id t aus rows lost : audits_kept aus rows lost ->
    audits_kept ((action, payload) :: aus) (AuditLog id "issuer-gateway" action payload None t :: rows) ((action, payload) :: lost).

(** A world's change: HTTP requests made, audits attempted; besides the idempotency keys and the audit
    log no table moves. *)
Definition touched (w w' : gateway_world) (fs : list fetch) (aus : list (string * jsval)) : Prop :=
  (forall t, t <> issuerIdempotency -> t <> auditLog -> w_db w' t = w_db w t) /\
  exists l rows, w_log w' = w_log w ++ l /\ fetches l = fs /\ w_db w' auditLog = w_db w auditLog ++ rows /\ audits_kept aus rows (losses l).

Lemma fetches_app l1 l2 : fetches (l1 ++ l2) = fetches l1 ++ fetches l2.
Proof. unfold fetches. by rewrite List.map_app, concat_app. Qed.
Lemma losses_app l1 l2 : losses (l1 ++ l2) = losses l1 ++ losses l2.
Proof. unfold losses. by rewrite List.map_app, concat_app. Qed.

Lemma kept_app a1 r1 l1 a2 r2 l2 : audits_kept a1 r1 l1 -> audits_kept a2 r2 l2 -> audits_kept (a1 ++ a2) (r1 ++ r2) (l1 ++ l2).
Proof. intros H1 H2. induction H1; cbn; [done|by constructor..]. Qed.

Lemma touched_refl w w' : w_db w' = w_db w -> w_log w' = w_log w -> touched w w' [] [].
Proof. intros Ed El. unfold touched. rewrite Ed, El. split; [done|]. exists [], []. rewrite !app_nil_r. repeat split; constructor. Qed.

Lemma touched_trans w w1 w2 f1 f2 a1 a2 : touched w w1 f1 a1 -> touched w1 w2 f2 a2 -> touched w w2 (f1 ++ f2) (a1 ++ a2).
Proof.
  intros [E1 (l1 & r1 & L1 & F1 & A1 & K1)] [E2 (l2 & r2 & L2 & F2 & A2 & K2)]. split; [intros; rewrite E2; auto|].
  exists (l1 ++ l2), (r1 ++ r2). rewrite L2, L1, fetches_app, losses_app, A2, A1, F1, F2, !app_assoc.
  repeat split. by apply kept_app.
Qed.

Lemma touched_note w x : touched w (note w x) (fetch_of x) (loss_of x).
Proof.
  split; [done|]. exists [x], []. rewrite app_nil_r. world_simpl. cbn. rewrite app_nil_r. repeat split.
  unfold losses. cbn. rewrite app_nil_r. destruct x as [X c r|[action payload|]]; repeat constructor.
Qed.

(** ** What programs yield: a result, HTTP requests, audits *)
Definition yields {A} (p : gateway_prog A) (S : outcome A -> list fetch -> list (string * jsval) -> Prop) : Prop :=
  forall w, wp any_answer p (fun r w' => exists fs aus, touched w w' fs aus /\ S r fs aus) w.

Lemma yields_mono {A} (p : gateway_prog A) S T : (forall r fs aus, S r fs aus -> T r fs aus) -> yields p S -> yields p T.
Proof. intros HT Hp w. eapply wp_mono; [|apply Hp]. intros r w' (fs & aus & Ht & Hs). exists fs, aus. auto. Qed.

Lemma yields_done {A} (p : gateway_prog A) r (S : outcome A -> list fetch -> list (string * jsval) -> Prop) : p = lift r -> S r [] [] -> yields p S.
Proof. intros -> HS w. apply wp_lift. exists [], []. split; [by apply touched_refl|done]. Qed.

Lemma yields_bind {A B} (p : gateway_prog A) (f : A -> gateway_prog B) S T :
  yields p S ->
  (forall a fs aus, S (Ok a) fs aus -> yields (f a) (fun r fs' aus' => T r (fs ++ fs') (aus ++ aus'))) ->
  (forall x fs aus, S (Err x) fs aus -> T (Err x) fs aus) -> yields (bind p f) T.
Proof.
  intros Hp Hf Hx w. apply wp_bind. eapply wp_mono; [|apply Hp]. intros [a|x] w1 (fs & aus & Ht & Hs).
  - eapply wp_mono; [|apply (Hf a fs aus Hs)]. intros r w2 (fs' & aus' & Ht' & Hs').
    exists (fs ++ fs'), (aus ++ aus'). split; [by eapply touched_trans|done].
  - exists fs, aus. auto.
Qed.

Lemma yields_catch {A} (p : gateway_prog A) (h : exn -> gateway_prog A) S T :
  yields p S -> (forall a fs aus, S (Ok a) fs aus -> T (Ok a) fs aus) ->
  (forall x fs aus, S (Err x) fs aus -> yields (h x) (fun r fs' aus' => T r (fs ++ fs') (aus ++ aus'))) -> yields (catch p h) T.
Proof.
  intros Hp Ha Hx w. apply wp_catch. eapply wp_mono; [|apply Hp]. intros [a|x] w1 (fs & aus & Ht & Hs).
  - exists fs, aus. auto.
  - eapply wp_mono; [|apply (Hx x fs aus Hs)]. intros r w2 (fs' & aus' & Ht' & Hs').
    exists (fs ++ fs'), (aus ++ aus'). split; [by eapply touched_trans|done].
Qed.

(** A result that is looked at whatever it is. *)
Lemma yields_try {A B} (p : gateway_prog A) (f : outcome A -> gateway_prog B) S T :
  yields p S -> (forall r fs aus, S r fs aus -> yields (f r) (fun r' fs' aus' => T r' (fs ++ fs') (aus ++ aus'))) ->
  yields (bind (attempt p) f) T.
Proof.
  intros Hp Hf w. apply wp_bind, wp_attempt. eapply wp_mono; [|apply Hp]. intros r w1 (fs & aus & Ht & Hs).
  eapply wp_mono; [|apply (Hf r fs aus Hs)]. intros r' w2 (fs' & aus' & Ht' & Hs').
  exists (fs ++ fs'), (aus ++ aus'). split; [by eapply touched_trans|done].
Qed.

Definition silent {A} (r : outcome A) (fs : list fetch) (aus : list (string * jsval)) : Prop := fs = [] /\ aus = [].

(** A statement on the keys. *)
Lemma yields_key_stmt {X} (q : sql X) :
  (forall s d v d', q s d = Ok (v, d') -> forall t, t <> issuerIdempotency -> d' t = d t) -> yields (stmt q) silent.
Proof.
  intros Hq w. pose (S := @silent X). assert (HS : forall r, S r [] []) by done. apply wp_stmt_op.
  assert (Hend : forall r (w' : gateway_world), (forall t, t <> issuerIdempotency -> w_db w' t = w_db w t) -> w_log w' = w_log w ->
    exists fs aus, touched w w' fs aus /\ S r fs aus).
  { intros r w' E1 E2. exists [], []. split; [|apply HS]. split; [auto|]. exists [], []. rewrite !app_nil_r. split_and!; [done|done|by apply E1|constructor]. }
  split; [intros x; by apply Hend|]. intros s _. specialize (Hq s (w_db w)). destruct (q s (w_db w)) as [[v d']|x]; [|by apply Hend].
  specialize (Hq _ _ eq_refl). split; [|intros x _]; by apply Hend.
Qed.

Lemma yields_emit_key stage issuerCode route key : yields (emit (KeyLost stage issuerCode route key)) (fun r fs aus => r = Ok tt /\ fs = [] /\ aus = []).
Proof. intros w. exists [], []. split; [apply touched_note|done]. Qed.

Lemma yields_audit action payload : yields (audit action payload) (fun r fs aus => r = Ok tt /\ fs = [] /\ aus = [(action, payload)]).
Proof.
  intros w. unfold audit. apply wp_catch, wp_stmt_op.
  assert (Hlost : forall w' : gateway_world, w_db w' = w_db w -> w_log w' = w_log w ->
    exists fs aus, touched w (note w' (EOut (AuditLost action payload))) fs aus /\ Ok tt = Ok tt /\ fs = [] /\ aus = [(action, payload)]).
  { intros w' E1 E2. exists [], [(action, payload)]. split; [|done]. apply (touched_trans _ w' _ [] [] []); [by apply touched_refl|apply touched_note]. }
  split; [intros x; by apply Hlost|]. intros s _. unfold insert. cbn [in_range negb].
  destruct (conflicts auditLog _ _); [by apply Hlost|]. cbn [references_ok negb].
  split; [|intros x _]; exists [], [(action, payload)]; (split; [|done]); (split; [intros t H1 H2; world_simpl; by rewrite set_table_other|]).
  - exists [], [AuditLog (st_uuid s) "issuer-gateway" action payload None (st_now s)]. world_simpl. rewrite app_nil_r, set_table_same.
    repeat split. apply kept_written, kept_none.
  - exists [EOut (AuditLost action payload)], [AuditLog (st_uuid s) "issuer-gateway" action payload None (st_now s)].
    world_simpl. rewrite set_table_same. repeat split. apply kept_both, kept_none.
Qed.

(** ** What a request may come to *)
Section Serve.
Context `{IssuerLib} `{Fingerprint} `{TokenDigest} (env : ProcessEnv).

(** The issuer's answer to a request, as its route reads it. *)
Definition read_for (body : GatewayBody) (f : fetch) : outcome (option jsval) :=
  answered <-? snd f ;;
  res <-? fd_response answered ;;
  match body with
  | Sep8ApproveBody _ _ =>
      text <-? ha_text res ;; v <-? JSON_parse text ;; result <-? mapSep8Response v ;; Ok (option_map sep8_json result)
  | LienReleaseBody _ _ =>
      _ <-? read_response (hr_method (fst f)) (hr_url (fst f)) res ;; Ok (Some (JObj [("ok", JBool true)]))
  | _ => read_response (hr_method (fst f)) (hr_url (fst f)) res
  end.

Definition action_of (body : GatewayBody) : string :=
  match body with
  | AuthorizeBody _ _ => "issuer.authorize"
  | Sep8ApproveBody _ _ => "issuer.sep8_approve"
  | LienFreezeBody _ _ _ => "issuer.lien_freeze"
  | LienReleaseBody _ _ => "issuer.lien_release"
  | RedeemBody _ _ _ => "issuer.redeem"
  end.

(** An audit that names the issuer as the request did, and the issuer's answer. *)
Definition audit_says (req : GatewayRequest) (v : option jsval) (au : string * jsval) : Prop :=
  fst au = action_of (gq_body req) /\ js_field "issuerCode" (snd au) = Ok (Some (JStr (gq_code req))) /\
  match gq_body req with LienReleaseBody _ _ => True | _ => js_field "result" (snd au) = Ok v end.

(** The response that came to an HTTP request, if one did. *)
Definition responded (f : fetch) (res : HttpResponse) : Prop := exists answered, snd f = Ok answered /\ fd_response answered = Ok res.
Definition by_sep8 (body : GatewayBody) : Prop := match body with Sep8ApproveBody _ _ => True | _ => False end.
Definition status_ok (res : HttpResponse) : Prop := 200 <= ha_status res <= 299.

(** The issuer said no: it answered with a status that is not a success (SEP-8 says no in its body). *)
Definition refused_by_issuer (body : GatewayBody) (f : fetch) : Prop :=
  ~ by_sep8 body /\ exists res, responded f res /\ ~ status_ok res.

(** A body that cannot be read: it did not arrive, is no JSON, or is no SEP-8 answer. *)
Inductive unreadable (body : GatewayBody) (res : HttpResponse) : Prop :=
| BodyLost x : ha_text res = Err x -> unreadable body res
| NotJson text x : ha_text res = Ok text -> JSON_parse text = Err x -> unreadable body res
| NotSep8 text v x : by_sep8 body -> ha_text res = Ok text -> JSON_parse text = Ok v -> mapSep8Response v = Err x -> unreadable body res.

(** What the issuer did is not known: no response came, for want of a connection or of time, or one that
    says yes came with a body that cannot be read. *)
Definition outcome_unknown (body : GatewayBody) (f : fetch) : Prop :=
  (forall res, ~ responded f res) \/ exists res, responded f res /\ (by_sep8 body \/ status_ok res) /\ unreadable body res.

(** No usable answer: nothing was asked, the issuer refused, or what it did is not known. *)
Definition unanswered (body : GatewayBody) (fs : list fetch) : Prop :=
  fs = [] \/ exists f, fs = [f] /\ (refused_by_issuer body f \/ outcome_unknown body f).

Lemma no_usable_answer body f x : read_for body f = Err x -> refused_by_issuer body f \/ outcome_unknown body f.
Proof.
  unfold read_for, refused_by_issuer, outcome_unknown. destruct (snd f) as [answered|y] eqn:Ef; cbn [obind].
  2: { intros _. right. left. intros res (a & E & _). congruence. }
  destruct (fd_response answered) as [res|y] eqn:Er; cbn [obind].
  2: { intros _. right. left. intros res (a & E & E2). congruence. }
  assert (Hres : responded f res) by (by exists answered).
  assert (Hapi : ~ by_sep8 body -> forall m u y, read_response m u res = Err y ->
    (~ by_sep8 body /\ exists res, responded f res /\ ~ status_ok res) \/
    (forall res, ~ responded f res) \/ exists res, responded f res /\ (by_sep8 body \/ status_ok res) /\ unreadable body res).
  { intros Hb m u y. unfold read_response. destruct ((200 <=? ha_status res) && (ha_status res <=? 299)) eqn:Es; cbn [negb].
    - apply andb_true_iff in Es as [H1'%Z.leb_le H2'%Z.leb_le]. intros E. right. right. exists res. split; [done|]. split; [by right|].
      destruct (ha_text res) as [text|z] eqn:Et; cbn [obind] in E; [|by eapply BodyLost]. destruct (eqs text ""); [done|].
      destruct (JSON_parse text) as [v|z] eqn:Ej; [done|]. by eapply NotJson.
    - intros _. left. split; [done|]. exists res. split; [done|]. unfold status_ok. apply andb_false_iff in Es as [?%Z.leb_gt|?%Z.leb_gt]; lia. }
  destruct body; try (by (intros E; eapply Hapi; [intros []|exact E])).
  - intros E. right. right. exists res. split; [done|]. split; [by left|]. destruct (ha_text res) as [text|y] eqn:Et; cbn [obind] in E; [|by eapply BodyLost].
    destruct (JSON_parse text) as [v|y] eqn:Ej; cbn [obind] in E; [|by eapply NotJson].
    destruct (mapSep8Response v) as [r|y] eqn:Em; [done|]. by eapply NotSep8.
  - intros E. destruct (read_response _ _ res) as [v|y] eqn:Ey; [done|]. eapply Hapi; [intros []|exact Ey].
Qed.

Lemma unanswered_read body fs : fs = [] \/ (exists f x, fs = [f] /\ read_for body f = Err x) -> unanswered body fs.
Proof. intros [->|(f & x & -> & E)]; [by left|]. right. exists f. split; [done|]. by eapply no_usable_answer. Qed.

Inductive served (req : GatewayRequest) : outcome GatewayReply -> list fetch -> list (string * jsval) -> Prop :=
| served_error x fs : unanswered (gq_body req) fs -> served req (Err x) fs []
| served_refused reply fs : gr_code reply <> 200 -> unanswered (gq_body req) fs -> served req (Ok reply) fs []
| served_replayed v : served req (Ok (GReply 200 true v)) [] []
| served_done f v au : read_for (gq_body req) f = Ok v -> audit_says req v au -> served req (Ok (sent v)) [f] [au].

(** ** The adapters make one HTTP request *)
Definition same_end {A} (answer r : outcome A) : Prop := match answer with Ok v => r = Ok v | Err _ => exists x, r = Err x end.
Definition one_request {A} (read : fetch -> outcome A) (r : outcome A) (fs : list fetch) (aus : list (string * jsval)) : Prop :=
  aus = [] /\ ((fs = [] /\ exists x, r = Err x) \/ exists f, fs = [f] /\ same_end (read f) r).

Definition read_json (f : fetch) : outcome (option jsval) :=
  answered <-? snd f ;; res <-? fd_response answered ;; read_response (hr_method (fst f)) (hr_url (fst f)) res.
Definition read_sep8 (f : fetch) : outcome (option Sep8ApprovalResult) :=
  answered <-? snd f ;; res <-? fd_response answered ;; text <-? ha_text res ;; v <-? JSON_parse text ;; mapSep8Response v.

Lemma yields_fetch {A} request timeout operation (read : HttpRequest -> HttpResponse -> outcome A) :
  yields (ms <- lift timeout ;; f <- call (Fetch request ms) ;; lift (settled operation ms f (read request)))
    (one_request (fun f => answered <-? snd f ;; res <-? fd_response answered ;; read (fst f) res)).
Proof.
  destruct timeout as [ms|x]; [|eapply (yields_done _ (Err x)); [done|split; [done|left; eauto]]]. intros w. cbn [lift bind].
  apply wp_bind, wp_call_op. intros r _. destruct r as [f|x].
  - apply wp_lift. exists [(request, Ok f)], []. split; [apply (touched_note w)|]. split; [done|]. right. eexists. split; [done|].
    cbn [fst snd obind]. unfold settled. destruct (obind (fd_response f) _) as [v|x]; [done|]. cbn. destruct (fd_aborted f); eauto.
  - exists [(request, Err x)], []. split; [apply (touched_note w)|]. split; [done|]. right. eexists. split; [done|]. cbn. eauto.
Qed.

Lemma yields_api operation method url apiKey body key :
  yields (issuerApiRequest env operation method url apiKey body key) (one_request read_json).
Proof.
  apply (yields_fetch (api_request method url apiKey body key) _ operation (fun request => read_response (hr_method request) (hr_url request))).
Qed.

Lemma yields_sep8 operation url tx : yields (requestSep8ApprovalHttp env operation url tx) (one_request read_sep8).
Proof. apply (yields_fetch (Http "POST" url _ _) _ operation (fun _ res => text <-? ha_text res ;; body <-? JSON_parse text ;; mapSep8Response body)). Qed.

(** ** A key's request *)
Definition key_result (r : outcome IdempotentOutcome) (fs : list fetch) (aus : list (string * jsval)) : Prop :=
  aus = [] /\ match r with
  | Ok o => (io_replayed o = true /\ fs = []) \/ (io_replayed o = false /\ exists f, fs = [f] /\ read_json f = Ok (io_result o))
  | Err _ => fs = [] \/ exists f x, fs = [f] /\ read_json f = Err x
  end.

(** The statements on the keys leave the other tables alone. *)
Ltac key_stmt :=
  apply yields_key_stmt;
  let s := fresh in let d := fresh in let v := fresh in let d' := fresh in let E := fresh in let t := fresh in let Ht := fresh in
  intros s d v d' E t Ht; revert E; unfold insert_ignore, select, update, delete; repeat case_match; intros [=]; subst;
  by rewrite ?set_table_other.

Definition reported (r : outcome unit) (fs : list fetch) (aus : list (string * jsval)) : Prop := r = Ok tt /\ fs = [] /\ aus = [].

Lemma yields_after_report {A} (report : gateway_prog unit) (p : gateway_prog A) (T : outcome A -> list fetch -> list (string * jsval) -> Prop) :
  yields report reported -> yields p T -> yields (report ;;; p) T.
Proof. intros Hr Hp. eapply yields_bind; [exact Hr| |]; [by intros [] fs aus (_ & -> & ->)|by intros y fs aus (? & _)]. Qed.

Lemma yields_ret {A} (a : A) (T : outcome A -> list fetch -> list (string * jsval) -> Prop) : T (Ok a) [] [] -> yields (Ret a) T.
Proof. by apply (yields_done _ (Ok a)). Qed.
Lemma yields_throw {A} x (T : outcome A -> list fetch -> list (string * jsval) -> Prop) : T (Err x) [] [] -> yields (Throw x) T.
Proof. by apply (yields_done _ (Err x)). Qed.

Section Key.
Context (q : IdempotentRequest) (call : gateway_prog (option jsval)) (onStorageError : exn -> string -> gateway_prog unit).
Hypothesis call_requests : yields call (one_request read_json).
Hypothesis errors_reported : forall x stage, yields (onStorageError x stage) reported.

Lemma yields_claimed : yields (run_claimed q call onStorageError) key_result.
Proof.
  unfold run_claimed. eapply yields_try; [exact call_requests|]. intros [v|x] fs aus [-> Hfs].
  - assert (Hf : exists f, fs = [f] /\ read_json f = Ok v).
    { destruct Hfs as [[_ [x [=]]]|(f & -> & Hf)]. exists f. split; [done|]. unfold same_end in Hf.
      destruct (read_json f) as [v'|y]; [congruence|by destruct Hf]. }
    assert (Hend : yields (Ret (IdemOutcome v false)) (fun r fs' aus' => key_result r (fs ++ fs') ([] ++ aus'))).
    { apply yields_ret. rewrite app_nil_r. split; [done|]. by right. }
    eapply yields_try; [key_stmt|]. intros [l|x] fs' aus' [-> ->]; [|apply yields_after_report; [apply errors_reported|]]; exact Hend.
  - assert (Hf : fs = [] \/ exists f y, fs = [f] /\ read_json f = Err y).
    { destruct Hfs as [[-> _]|(f & -> & Hf)]; [by left|]. right. exists f. unfold same_end in Hf.
      destruct (read_json f) as [v|y]; [done|by exists y]. }
    assert (Hend : yields (Throw x) (fun r fs' aus' => key_result r (fs ++ fs') ([] ++ aus'))).
    { apply yields_throw. by rewrite app_nil_r. }
    eapply yields_try; [key_stmt|]. intros [l|y] fs' aus' [-> ->]; [|apply yields_after_report; [apply errors_reported|]]; exact Hend.
Qed.

Lemma yields_select_one P : yields (select_one issuerIdempotency P) silent.
Proof. unfold select_one. eapply yields_bind; [key_stmt| |]; [intros rs fs aus [-> ->]; by apply yields_ret|done]. Qed.

Lemma quiet_failure (r : outcome IdempotentOutcome) fs aus : silent r fs aus -> match r with Ok _ => False | Err _ => True end -> key_result r fs aus.
Proof. intros [-> ->]. destruct r as [o|x]; [done|]. split; [done|by left]. Qed.

Lemma yields_runIdempotent fuel : yields (runIdempotent fuel q call onStorageError) key_result.
Proof.
  induction fuel as [|fuel IH]; cbn [runIdempotent];
    (eapply yields_bind; [key_stmt| |intros x fs aus Hs; by apply quiet_failure]);
    (intros [|r l] fs aus [-> ->]; [|apply yields_claimed]);
    (eapply yields_bind; [apply yields_select_one| |intros x fs aus Hs; by apply quiet_failure]);
    (intros [r|] fs aus [-> ->]; [|exact IH || by apply yields_throw, quiet_failure]);
    (case_match; [by apply yields_throw, quiet_failure|]); (case_match; [by apply yields_throw, quiet_failure|]);
    apply yields_ret; (split; [done|by left]).
Qed.
End Key.

(** ** The routes *)
(** A request to an issuer whose answer [use] makes the result of the route, then the audit. *)
Lemma yields_answered {A} (req : GatewayRequest) (p : gateway_prog A) (read : fetch -> outcome A) (use : A -> option jsval)
    (action : string) (payload : A -> jsval) :
  yields p (one_request read) ->
  (forall f, read_for (gq_body req) f = omap' use (read f)) ->
  (forall a, audit_says req (use a) (action, payload a)) ->
  yields (a <- p ;; audit action (payload a) ;;; Ret (sent (use a))) (served req).
Proof.
  intros Hp Hread Hsays. eapply yields_bind; [exact Hp| |].
  - intros a fs aus [-> [[_ [x [=]]]|(f & -> & Hf)]]. eapply yields_bind; [apply yields_audit| |by intros x fs aus [? _]].
    intros [] fs aus (_ & -> & ->). apply yields_ret. cbn [app]. apply served_done; [|apply Hsays].
    rewrite Hread. unfold same_end in Hf. destruct (read f) as [a'|x]; [by injection Hf as ->|by destruct Hf].
  - intros x fs aus [-> Hfs]. apply served_error, unanswered_read. destruct Hfs as [[-> _]|(f & -> & Hf)]; [by left|]. right. exists f.
    rewrite Hread. unfold same_end in Hf. destruct (read f) as [a'|y]; [done|by exists y].
Qed.

Lemma yields_obligation fuel req route params (call : option string -> gateway_prog (option jsval)) action payload :
  (forall key, yields (call key) (one_request read_json)) ->
  (forall f, read_for (gq_body req) f = read_json f) ->
  (forall v key, audit_says req v (action, payload v key)) ->
  yields (obligation fuel req route params call (fun v key => audit action (payload v key))) (served req).
Proof.
  intros Hcall Hread Hsays. unfold obligation. destruct (readIdempotencyKey (gq_key req)) as [[key|]|x].
  - apply (yields_catch _ _ (served req)); [|done|].
    + eapply yields_bind; [apply yields_runIdempotent; [apply Hcall|intros x stage; apply yields_emit_key]| |].
      * intros [v replayed] fs aus [-> [[Er ->]|(Er & f & -> & Hf)]]; cbn [io_result io_replayed] in *; subst replayed.
        -- apply yields_ret, served_replayed.
        -- eapply yields_bind; [apply yields_audit| |by intros x fs aus [? _]]. intros [] fs aus (_ & -> & ->).
           apply yields_ret, served_done; [by rewrite Hread|apply Hsays].
      * intros x fs aus [-> Hfs]. apply served_error, unanswered_read. destruct Hfs as [->|(f & y & -> & Hf)]; [by left|]. right. exists f, y. by rewrite Hread.
    + intros x fs aus Hs. inversion Hs as [? ? Hno| | |]; subst.
      repeat case_match; (apply yields_ret || apply yields_throw); rewrite app_nil_r; by constructor.
  - apply (yields_answered req (call None) read_json id action (fun v => payload v None)); [apply Hcall| |intros v; apply Hsays].
    intros f. rewrite Hread. by destruct (read_json f).
  - case_match; (apply yields_ret || apply yields_throw); constructor; by try left.
Qed.

Lemma yields_with_adapter req code k :
  (forall issuer base apiKey sep8Url, yields (k (live_methods env issuer base apiKey sep8Url)) (served req)) ->
  yields (with_adapter env code k) (served req).
Proof.
  intros Hk. unfold with_adapter. destruct (getAdapter env code) as [adapter|x] eqn:E; [|apply yields_throw, served_error; by left].
  apply adapter_of in E as (issuer & base & apiKey & url & _ & _ & ->). apply Hk.
Qed.

Lemma yields_amount (req : GatewayRequest) units (k : Z -> gateway_prog GatewayReply) :
  (forall amount, yields (k amount) (served req)) -> yields (amount <- lift (BigInt units) ;; k amount) (served req).
Proof. intros Hk. destruct (BigInt units) as [amount|x]; [apply Hk|]. apply yields_throw, served_error. by left. Qed.

Lemma yields_route fuel req : yields (gateway_route env fuel req) (served req).
Proof.
  unfold gateway_route.
  destruct (gq_body req) as [assetCode holder|assetCode tx|assetCode holder units|assetCode lienRef|assetCode units destination] eqn:Eb;
    apply yields_with_adapter; intros issuer base apiKey url.
  - apply (yields_answered req _ read_json id "issuer.authorize"); [apply yields_api| |].
    + intros f. rewrite Eb. change (read_for _ f) with (read_json f). by destruct (read_json f).
    + intros v. unfold audit_says. rewrite Eb. by destruct v.
  - apply (yields_answered req _ read_sep8 (option_map sep8_json) "issuer.sep8_approve"); [apply yields_sep8| |].
    + intros f. rewrite Eb. unfold read_for, read_sep8. destruct (snd f); [|done]. cbn. destruct (fd_response _); [|done]. cbn.
      destruct (ha_text _); [|done]. cbn. destruct (JSON_parse _); [|done]. cbn. by destruct (mapSep8Response _).
    + intros v. unfold audit_says. rewrite Eb. by destruct v.
  - apply yields_amount. intros amount. apply yields_obligation; [intros key; apply yields_api|intros f; by rewrite Eb|].
    intros v key. unfold audit_says. rewrite Eb. by destruct v, key.
  - apply (yields_answered req _ (fun f => omap' (fun _ => tt) (read_json f)) (fun _ => Some (JObj [("ok", JBool true)])) "issuer.lien_release").
    + eapply yields_bind; [apply yields_api| |].
      * intros v fs aus [-> Hfs]. apply yields_ret. split; [done|]. rewrite app_nil_r.
        destruct Hfs as [[-> [x [=]]]|(f & -> & Hf)]. right. exists f. split; [done|]. unfold same_end in Hf.
        destruct (read_json f) as [v'|y]; [done|by destruct Hf].
      * intros x fs aus [-> Hfs]. split; [done|]. destruct Hfs as [[-> _]|(f & -> & Hf)]; [left; eauto|]. right. exists f. split; [done|].
        unfold same_end in Hf. destruct (read_json f) as [v'|y]; [done|]. cbn. eauto.
    + intros f. rewrite Eb. unfold read_for, read_json. destruct (snd f); [|done]. cbn. destruct (fd_response _); [|done]. cbn.
      by destruct (read_response _ _ _).
    + intros v. unfold audit_says. by rewrite Eb.
  - apply yields_amount. intros amount. apply yields_obligation; [intros key; apply yields_api|intros f; by rewrite Eb|].
    intros v key. unfold audit_says. rewrite Eb. by destruct v, key.
Qed.

Lemma yields_serve fuel accepts req : yields (serve_gateway env fuel accepts req)
  (fun r fs aus => exists reply, r = Ok reply /\ served req (Ok reply) fs aus /\
     (accepts (gq_token req) = false -> fs = [] /\ gr_code reply = 401)).
Proof.
  unfold serve_gateway. destruct (accepts _).
  - eapply yields_catch; [apply yields_route| |].
    + intros reply fs aus Hs. by exists reply.
    + intros x fs aus Hs. inversion Hs as [? ? Hno| | |]; subst. apply yields_ret. eexists. split; [done|]. rewrite app_nil_r.
      split; [|done]. by apply served_refused.
  - apply yields_ret. eexists. split; [done|]. split; [|done]. apply served_refused; [done|by left].
Qed.
End Serve.

(** C13. What a request to the issuer gateway comes to.  Whatever the database and the issuers do, the
    gateway always replies, and makes at most one HTTP request, none at all without the internal
    token (401).  If the issuer's answer to it was usable, the gateway replies 200 with that answer,
    whatever became of its own bookkeeping, and exactly one audit, naming the issuer and the answer,
    was written, or reported lost; a replayed answer makes no request and no audit.  Any other reply is not
    a 200 and audits nothing: nothing was asked, or the issuer refused it with a status that is no success,
    or what the issuer did is not known, because no response came in time or because a success came with a
    body that could not be read.  Besides the keys and the audit log no table changes. *)
Theorem usable_answer_is_replied_and_audited `{IssuerLib} `{Fingerprint} `{TokenDigest} (e : env IssuerHttpCall)
    (env : ProcessEnv) fuel (token : string) (req : GatewayRequest) (w : gateway_world) :
  let '(r, w') := run e (serve_gateway env fuel (token_accepted token) req) w in
  exists reply fs aus, r = Ok reply /\ touched w w' fs aus /\ served req (Ok reply) fs aus /\
    ((forall value, gq_token req = OneHeader value -> sha256 value <> sha256 token) -> fs = [] /\ gr_code reply = 401).
Proof.
  pose proof (wp_sound any_answer e _ _ _ (any_answer_respects e) (yields_serve env fuel (token_accepted token) req w)) as Hw.
  destruct (run e _ w) as [r w']. destruct Hw as (fs & aus & Ht & reply & -> & Hs & Ha).
  exists reply, fs, aus. do 3 (split; [done|]). intros Hno. apply Ha. unfold token_accepted.
  destruct (gq_token req) as [|value|]; [done| |done]. apply bool_decide_eq_false. by apply Hno.
Qed.
