(* ===== verification/PayoutProcess.v ===== *)
(** [services/payout-hop/src/index.ts]: the payout hop as a process.  It starts with a shared token, a
    policy and a signer, forwards what is asked of it under the token, and books what earlier forwards
    could not record when it starts and at every interval; a repair does not wait for the one before it. *)
From S2P Require Import Prelude Prog Schema Rules Shape Interleave Domain Settings PayoutHop Idempotency Gateway.

(** ** Requests and passes *)
Record PayoutRequest := PRequest { pq_token : HeaderValue; pq_body : ForwardBody }.

(** What the listening process consists of; [pp_port] is [None] when the setting is no number. *)
Record PayoutProcess := PProcess {
  pp_accepts : HeaderValue -> bool; pp_policy : PayoutPolicy; pp_network : NetworkConfig;
  pp_port : option Z; pp_host : string; pp_repairEvery : option Z }.

Section Process.
Context `{StellarSdk} `{TokenDigest} (is_uuid : string -> bool).

Definition number_setting (env : ProcessEnv) (name : string) (otherwise : Z) : option Z :=
  match env name with Some text => Number_of_text text | None => Some otherwise end.

(** [main], up to listening.  The policy's three settings are those of [loadPayoutPolicy]; the signer is
    created between the network and the server, and a failure to create it ends the process too. *)
Definition payout_main (env : ProcessEnv) (signer_created : outcome unit) : outcome PayoutProcess :=
  internalToken <-? loadInternalToken env ;;
  policy <-? loadPayoutPolicy (PEnv (env "PAYOUT_HOP_USDC_ISSUER") (env "PAYOUT_HOP_ALLOWED_DESTINATIONS") (env "PAYOUT_HOP_MAX_AMOUNT")) ;;
  network <-? loadNetworkConfig env ;;
  _ <-? signer_created ;;
  accepts <-? requireInternalToken internalToken ;;
  Ok (PProcess accepts policy network (number_setting env "PAYOUT_HOP_PORT" 3002) (internalBindHost "payout-hop" env)
        (Z.mul 1000 <$> number_setting env "PAYOUT_HOP_REPAIR_INTERVAL_S" 300)).

(** A request, and the pass of the timer.  The operator's account is [publicKey]. *)
Inductive PayoutEvent := Asked (req : PayoutRequest) | RepairDue.

Definition repair : payout_prog unit := attempt bookPendingPayouts ;;; Ret tt.

(** The status and the result a request is answered with; nobody waits for a repair. *)
Definition payout_event (publicKey : string) (process : PayoutProcess) (event : PayoutEvent)
  : payout_prog (option (Z * option ForwardPayoutResult)) :=
  match event with
  | Asked req =>
      if pp_accepts process (pq_token req)
      then reply <- forward_route RpcFirstLegVerifier publicKey is_uuid (pp_policy process) (pq_body req) ;; Ret (Some reply)
      else Ret (Some (401, None))
  | RepairDue => repair ;;; Ret None
  end.

(** The first repair ends before the first timer, but the server listens already. *)
Definition payout_life (publicKey : string) (process : PayoutProcess) (events : list PayoutEvent)
  : list (payout_prog (option (Z * option ForwardPayoutResult))) :=
  List.map (payout_event publicKey process) (RepairDue :: events).

(** ** What may be paid *)
(** A request with the token whose body is well formed, as the forward's arguments. *)
Definition asked_with_token (process : PayoutProcess) (events : list PayoutEvent) (args : ForwardPayoutArgs) : Prop :=
  exists req amt, In (Asked req) events /\ pp_accepts process (pq_token req) = true /\
    forwardBody_ok is_uuid (pq_body req) = true /\ BigInt (b_amount (pq_body req)) = Ok amt /\
    args = PayoutArgs (b_fromContractPayoutTxHash (pq_body req)) (b_toAnchorAccount (pq_body req)) amt (b_memo (pq_body req))
             (b_usdcAssetAddress (pq_body req)) (b_quoteId (pq_body req)).

Definition within_policy (policy : PayoutPolicy) (args : ForwardPayoutArgs) : Prop :=
  In (toAnchorAccount args) (allowedDestinations policy) /\ usdcAssetAddress args = usdcIssuer policy /\
  0 < amount args <= maxAmount policy /\
  if all_digits (memo args) then exists m, BigInt (memo args) = Ok m /\ m <= MEMO_ID_MAX else (slen (memo args) <= 28)%nat.

Definition payment_for (policy : PayoutPolicy) (args : ForwardPayoutArgs) (tx : PaymentTx) : Prop :=
  tx_destination tx = toAnchorAccount args /\ tx_memo tx = buildMemo (memo args) /\ tx_assetCode tx = "USDC" /\
  tx_assetIssuer tx = usdcIssuer policy /\ scaledToDecimalString (amount args) = Ok (tx_amount tx).

(** The network showed that the first leg brought the operator the amount. *)
Definition shown_received (publicKey : string) (policy : PayoutPolicy) (args : ForwardPayoutArgs) (log : list (entry PayoutCall Alert)) : Prop :=
  exists response, In (ECall (GetTransaction (fromContractPayoutTxHash args)) (Ok response)) log /\
    checkReceived response (Expect (fromContractPayoutTxHash args) publicKey (usdcIssuer policy) (amount args)) = Ok tt.

Definition payment_of (x : entry PayoutCall Alert) : option (string * PaymentTx) :=
  match x with
  | ECall c _ => match c with SignAndSubmit leg tx => Some (leg, tx) | GetTransaction _ | LoadSequenceAccount => None end
  | EOut _ => None
  end.

Section Authorised.
Context (publicKey : string) (policy : PayoutPolicy) (legit : ForwardPayoutArgs -> Prop).
Implicit Types (w : payout_world) (s : option ForwardPayoutArgs).

(** Every payment in a log is for legitimate arguments the policy allows, after its first leg was shown. *)
Definition authorised (log : list (entry PayoutCall Alert)) : Prop :=
  forall before x after leg tx, log = before ++ x :: after -> payment_of x = Some (leg, tx) ->
    exists args, legit args /\ leg = fromContractPayoutTxHash args /\ within_policy policy args /\
      payment_for policy args tx /\ shown_received publicKey policy args before.

Definition no_payment (X : Type) (c : PayoutCall X) : Prop :=
  match c with SignAndSubmit _ _ => False | _ => True end.
#[local] Hint Extern 1 (no_payment _ _) => exact I : within.

Lemma authorised_quiet log l : authorised log -> Forall (made_by no_payment) l -> authorised (log ++ l).
Proof.
  intros Ha Hl before x after leg tx E Hx. apply app_eq_app in E as [m [[-> E]|[-> E]]].
  - destruct m as [|y m]; cbn in E; [|injection E as -> ->; by eapply Ha].
    exfalso. subst l. apply Forall_inv in Hl. by destruct x as [? [] ?|].
  - exfalso. subst l. apply Forall_app in Hl as [_ Hl]. apply Forall_inv in Hl. by destruct x as [? [] ?|].
Qed.

Lemma shown_more args log l : shown_received publicKey policy args log -> shown_received publicKey policy args (log ++ l).
Proof. intros (r & Hr & Hc). exists r. split; [|done]. apply in_app_iff. by left. Qed.

Lemma authorised_pay log x leg tx args :
  authorised log -> payment_of x = Some (leg, tx) -> legit args -> leg = fromContractPayoutTxHash args -> within_policy policy args ->
  payment_for policy args tx -> shown_received publicKey policy args log -> authorised (log ++ [x]).
Proof.
  intros Ha Hx Hl Hleg Hp Htx Hs before y after leg' tx' E Hy. apply app_eq_app in E as [m [[-> E]|[-> E]]].
  - destruct m as [|z m]; cbn in E; [|injection E as -> ->; by eapply Ha].
    injection E as -> ->. rewrite app_nil_r in Hs. simplify_eq. by exists args.
  - destruct m as [|z m]; [|by destruct m]. injection E as <- _. rewrite app_nil_r. simplify_eq. by exists args.
Qed.

(** ** The protocol of a request: nothing is paid before its first leg was shown *)
Inductive pay_step : option ForwardPayoutArgs -> payout_world -> payout_world -> option ForwardPayoutArgs -> Prop :=
| PS_quiet s w w' : logged no_payment w w' -> pay_step s w w' s
| PS_shown s w args response :
    legit args -> within_policy policy args ->
    checkReceived response (Expect (fromContractPayoutTxHash args) publicKey (usdcIssuer policy) (amount args)) = Ok tt ->
    pay_step s w (note w (ECall (GetTransaction (fromContractPayoutTxHash args)) (Ok response))) (Some args)
| PS_pay args w tx r :
    payment_for policy args tx ->
    pay_step (Some args) w (note w (ECall (SignAndSubmit (fromContractPayoutTxHash args) tx) r)) (Some args).

Notation follows := (follows any_answer pay_step).
Definition any_end {A} s (r : outcome A) : Prop := True.

(** A program without payments keeps to it. *)
Lemma follows_unpaid {A} (p : payout_prog A) (Fin : option ForwardPayoutArgs -> outcome A -> Prop) s :
  within any_stmt no_payment p -> (forall r, Fin s r) -> follows p Fin s.
Proof.
  intros Hp HF. revert Fin HF. induction p as [A a|A x|A X q k IH|A X c k IH|A k IH|A o k IH|A X body IHb k IH]; intros Fin HF; cbn in *; auto.
  - destruct Hp as [_ Hk]. intros w.
    assert (Hs : forall r w', w_log w' = w_log w -> exists s', pay_step s w w' s' /\ follows (k r) Fin s').
    { intros r w' E. exists s. split; [by apply PS_quiet, logged_same|by apply IH]. }
    split; [intros x; by apply Hs|]. intros st _. destruct (q st _) as [[v d']|x]; [split; [|intros x _]|]; by apply Hs.
  - destruct Hp as [Hc Hk]. intros w r _. exists s. split; [by apply PS_quiet, logged_note|by apply IH].
  - intros w st _. exists s. split; [by apply PS_quiet, logged_same|by apply IH].
  - intros w. exists s. split; [by apply PS_quiet, logged_note|by apply IH].
  - destruct Hp as [Hb Hk]. intros w. eapply wp_mono; [|by apply (wp_logged any_answer any_stmt no_payment)]. intros r w' Hw.
    apply wp_commit_any. assert (Hs : forall r' w'', w_log w'' = w_log w' -> exists s', pay_step s w w'' s' /\ follows (k r') Fin s').
    { intros r' w'' E. exists s. split; [|by apply IH]. apply PS_quiet. eapply logged_trans; [exact Hw|by apply logged_same]. }
    destruct r; [split; [|split; intros x]|]; by apply Hs.
Qed.
Lemma checkPolicy_within args : checkPolicy args policy = Ok tt -> within_policy policy args.
Proof.
  unfold checkPolicy, within_policy. destruct (existsb _ _) eqn:Ed; cbn [negb]; [|done].
  destruct (eqs (usdcAssetAddress args) (usdcIssuer policy)) eqn:Ea; cbn [negb]; [|done].
  destruct (Z.leb_spec (amount args) 0) as [|Hpos]; [done|]. destruct (Z.ltb_spec (maxAmount policy) (amount args)) as [|Hcap].
  { by destruct (scaledToDecimalString _). }
  apply existsb_exists in Ed as (x & Hx & ->%bool_decide_eq_true). apply bool_decide_eq_true in Ea. intros Hm.
  do 2 (split; [done|]). split; [lia|]. destruct (all_digits (memo args)).
  - apply obind_ok in Hm as (m & Em & Hm). exists m. split; [done|]. by destruct (Z.ltb_spec MEMO_ID_MAX m).
  - by destruct (Nat.ltb_spec 28 (slen (memo args))).
Qed.

Lemma follows_shown args (Fin : option ForwardPayoutArgs -> outcome unit -> Prop) :
  legit args -> within_policy policy args -> Fin (Some args) (Ok tt) -> (forall x, Fin None (Err x)) ->
  follows (RpcFirstLegVerifier_verify (Expect (fromContractPayoutTxHash args) publicKey (usdcIssuer policy) (amount args))) Fin None.
Proof.
  intros Hl Hp Hok Herr. unfold RpcFirstLegVerifier_verify. cbn [ex_txHash]. destruct (negb _); [apply Herr|].
  apply follows_bind, follows_catch, follows_call. intros w [response|x] _.
  - destruct (checkReceived response _) as [[]|x] eqn:Ec.
    + exists (Some args). split; [by apply PS_shown|]. by apply follows_lift.
    + exists None. split; [by apply PS_quiet, logged_note|]. apply follows_lift, Herr.
  - exists None. split; [by apply PS_quiet, logged_note|]. apply Herr.
Qed.

Lemma follows_paid args amt (Fin : option ForwardPayoutArgs -> outcome (string * string) -> Prop) :
  scaledToDecimalString (amount args) = Ok amt -> (forall r, Fin (Some args) r) -> follows (send args policy amt) Fin (Some args).
Proof.
  intros Ea HF. unfold send. apply follows_bind, follows_unpaid; [by stay_within|]. intros [seq|x]; [|apply HF].
  apply follows_bind, follows_lift. destruct (validatePayment _) as [[]|x]; [|apply HF].
  apply follows_bind, follows_call. intros w r _. exists (Some args). split; [by apply PS_pay|].
  destruct r as [res|x]; [|apply HF]. destruct (eqs _ _); apply HF.
Qed.

Lemma bookPayout_quiet bk : within any_stmt no_payment (bookPayout bk).
Proof. unfold bookPayout, recordJournalEntry. stay_within. Qed.
Lemma markUnbooked_quiet bk x : within any_stmt no_payment (markUnbooked bk x).
Proof. unfold markUnbooked. stay_within. Qed.

Lemma follows_authorised_forward args : legit args -> follows (forwardPayout RpcFirstLegVerifier publicKey args policy) any_end None.
Proof.
  intros Hl. unfold forwardPayout. apply follows_bind, follows_lift.
  destruct (checkPolicy args policy) as [[]|x] eqn:Ep; [|done]. apply checkPolicy_within in Ep.
  apply follows_bind, follows_shown; [done..| |done].
  apply follows_bind, follows_unpaid; [stay_within|]. intros [refId|x]; [|done].
  apply follows_bind, follows_lift. destruct (scaledToDecimalString _) as [amt|x] eqn:Ea; [|done].
  apply follows_bind, follows_unpaid; [unfold claim; stay_within|]. intros [[]|x]; [|done].
  apply follows_bind, follows_catch, follows_paid; [done|]. intros [[hash status]|x].
  - cbv zeta. apply follows_unpaid; [|done]. apply within_catch; [|intros x; apply within_bind; [apply markUnbooked_quiet|done]].
    apply within_bind; [|done]. apply within_transaction, within_bind; [by apply within_stmt|]. intros _. apply bookPayout_quiet.
  - apply follows_bind, follows_unpaid; [stay_within|]. by intros [r|y].
Qed.

Lemma repair_quiet : within any_stmt no_payment repair.
Proof.
  unfold repair, bookPendingPayouts. apply within_bind; [|done]. apply within_attempt, within_bind; [by apply within_stmt|].
  intros pending. apply within_fold. intros acc r. unfold repair_step. apply within_catch; [|stay_within].
  apply within_bind; [|done]. apply within_transaction. unfold repair_row. stay_within; apply bookPayout_quiet.
Qed.

(** The invariant of any number of them at once. *)
Definition threads_ok (ss : list (option ForwardPayoutArgs)) w : Prop :=
  authorised (w_log w) /\
  forall i args, ss !! i = Some (Some args) -> legit args /\ within_policy policy args /\ shown_received publicKey policy args (w_log w).

Lemma threads_ok_step ss w i s w' s' : threads_ok ss w -> ss !! i = Some s -> pay_step s w w' s' -> threads_ok (<[i := s']> ss) w'.
Proof.
  intros [Ha Hs] Hi Hstep.
  assert (Hkeep : forall l, w_log w' = w_log w ++ l -> authorised (w_log w') ->
    (forall args, s' = Some args -> legit args /\ within_policy policy args /\ shown_received publicKey policy args (w_log w')) ->
    threads_ok (<[i := s']> ss) w').
  { intros l El Ha' Hown. split; [done|]. intros j args [(<- & E & _)|(_ & Hj)]%list_lookup_insert_Some; [by apply Hown|].
    destruct (Hs j args Hj) as (H1 & H2 & H3). rewrite El. auto using shown_more. }
  destruct Hstep as [s w w' (l & El & Hl)|s w args response Hl Hp Hc|args w tx r Htx].
  - apply (Hkeep l); [done| |].
    + rewrite El. by apply authorised_quiet.
    + intros args ->. destruct (Hs i args Hi) as (H1 & H2 & H3). rewrite El. auto using shown_more.
  - eapply Hkeep; [done| |].
    + apply authorised_quiet; [done|]. by apply Forall_singleton.
    + intros args' [= <-]. do 2 (split; [done|]). exists response. split; [|done]. apply in_app_iff. right. by left.
  - destruct (Hs i args Hi) as (H1 & H2 & H3). eapply Hkeep; [done| |].
    + by eapply authorised_pay.
    + intros args' [= <-]. do 2 (split; [done|]). by apply shown_more.
Qed.
End Authorised.

Lemma follows_event publicKey process events event :
  (forall req, event = Asked req -> In (Asked req) events) ->
  follows any_answer (pay_step publicKey (pp_policy process) (asked_with_token process events)) (payout_event publicKey process event) any_end None.
Proof.
  intros Hin. destruct event as [req|]; cbn [payout_event].
  - destruct (pp_accepts process (pq_token req)) eqn:Ea; [|done]. apply follows_bind. unfold forward_route.
    destruct (forwardBody_ok is_uuid (pq_body req)) eqn:Eb; [|done]. cbn [negb].
    apply follows_catch, follows_bind, follows_lift. destruct (BigInt _) as [amt|x] eqn:Ez; [|done].
    apply follows_bind. eapply follows_mono; [|apply follows_authorised_forward].
    + by intros s [a|x] _.
    + exists req, amt. split; [by apply Hin|done].
  - apply follows_bind, follows_unpaid; [apply repair_quiet|]. by intros [[]|x].
Qed.

(** What the process's settings promise once it has started. *)
Lemma started_with env signer_created process :
  payout_main env signer_created = Ok process ->
  exists token, env "INTERNAL_API_TOKEN" = Some token /\ (MIN_TOKEN_LENGTH <= slen token)%nat /\
    pp_accepts process = token_accepted token /\
    allowedDestinations (pp_policy process) <> [] /\
    Forall (fun a => isValidEd25519PublicKey a = true) (allowedDestinations (pp_policy process)).
Proof.
  unfold payout_main. intros H'. apply obind_ok in H' as (token & Et & H'). apply obind_ok in H' as (policy & Ep & H').
  apply obind_ok in H' as (network & _ & H'). apply obind_ok in H' as ([] & _ & H'). apply obind_ok in H' as (accepts & Ea & H').
  injection H' as <-. cbn [pp_accepts pp_policy]. exists token. unfold loadInternalToken in Et.
  destruct (env "INTERNAL_API_TOKEN") as [t|]; [|done]. destruct (eqs t "") eqn:Ee; [done|]. cbn [orb] in Et.
  destruct (Nat.ltb_spec (slen t) MIN_TOKEN_LENGTH) as [|Hlen]; [done|]. injection Et as ->.
  split; [done|]. split; [done|]. unfold requireInternalToken in Ea. destruct (Nat.ltb _ _); [done|]. injection Ea as <-.
  split; [done|]. unfold loadPayoutPolicy in Ep. destruct (negb _ || negb _); [done|]. case_bool_decide as Ed; [done|].
  destruct (List.find _ _) eqn:Ef; [done|]. apply obind_ok in Ep as (cap & _ & Ep). injection Ep as <-. cbn [allowedDestinations].
  split; [done|]. apply Forall_forall. intros a Ha. apply list_elem_of_In in Ha. pose proof (find_none _ _ Ef a Ha) as Hn.
  by apply negb_false_iff in Hn.
Qed.

(** C2. Nothing is paid but what a holder of the token asked for and the policy allows.  Start the
    payout hop with any settings it starts with, send it any requests, and let its repairs run at any
    time, whatever the network answers, whichever statements and commits fail and however the
    operations interleave: every payment it submits is for a request that carried the token of at least
    32 characters, to an approved destination, of an amount above zero and within the cap, of the
    configured USDC, with the request's memo; and before it was submitted the network had shown the
    first leg's transaction to have brought the operator at least that amount. *)
Theorem payments_are_authorised (e : Prog.env PayoutCall) env signer_created process publicKey events schedule (d : Database)
    (Hmain : payout_main env signer_created = Ok process) :
  let '(_, w) := interleave e schedule (payout_life publicKey process events, World d 0 []) in
  authorised publicKey (pp_policy process) (asked_with_token process events) (w_log w) /\
  exists token, env "INTERNAL_API_TOKEN" = Some token /\ (MIN_TOKEN_LENGTH <= slen token)%nat /\
    forall given, pp_accepts process given = true <-> exists value, given = OneHeader value /\ sha256 value = sha256 token.
Proof.
  set (legit := asked_with_token process events).
  destruct (interleave_invariant any_answer (pay_step publicKey (pp_policy process) legit) e any_end
    (threads_ok publicKey (pp_policy process) legit) schedule (payout_life publicKey process events)
    (List.map (fun _ => None) (RepairDue :: events)) (World d 0 [])) as (ss & [Ha _] & _).
  - done.
  - unfold payout_life. subst legit. assert (Hin : forall req, In (Asked req) (RepairDue :: events) -> In (Asked req) events).
    { by intros req [|]. }
    revert Hin. generalize (RepairDue :: events) as l. induction l as [|event l IH]; intros Hin; constructor.
    + apply follows_event. intros req ->. apply Hin. by left.
    + apply IH. intros req Hr. apply Hin. by right.
  - split.
    + intros [|] x after leg tx E; done.
    + intros i args Hi. apply list_elem_of_lookup_2, list_elem_of_In, in_map_iff in Hi as (o & [=] & _).
  - intros ss w i s w' s'. apply threads_ok_step.
  - destruct (interleave _ _ _) as [threads w]. split; [exact Ha|].
    destruct (started_with _ _ _ Hmain) as (token & Et & Hlen & Eacc & _). exists token. do 2 (split; [done|]).
    intros given. rewrite Eacc. destruct given as [|value|]; cbn; [by split; [|intros (? & [=] & _)]| |by split; [|intros (? & [=] & _)]].
    split; [intros E%bool_decide_eq_true; by exists value|]. intros (v & [= ->] & E). by apply bool_decide_eq_true.
Qed.
End Process.

Module PayoutSample.
#[local] Instance sdk : StellarSdk := {|
  isValidEd25519PublicKey := starts_with "G"; validatePayment _ := Ok tt; fromXDR _ := Ok (Plain [Op "payment" "GOP" false "USDC" "GUSDC" "12.5"]);
  scValToNative s := Ok (JStr s); encodeContract s := s; usdcContractId := Ok; muxedBaseAccount := Ok |}.
#[local] Instance digest : TokenDigest := {| sha256 s := List.map char_code (string_to_list s) |}.

Definition token : string := "0123456789abcdef0123456789abcdef".
Definition env (name : string) : option string :=
  assoc name [("INTERNAL_API_TOKEN", token); ("PAYOUT_HOP_USDC_ISSUER", "GUSDC"); ("PAYOUT_HOP_ALLOWED_DESTINATIONS", "GANCHOR, GOTHER");
    ("STELLAR_RPC_URL", "https://rpc"); ("STELLAR_HORIZON_URL", "https://horizon");
    ("STELLAR_NETWORK_PASSPHRASE", "Standalone Network ; February 2017")].
Definition process : PayoutProcess :=
  PProcess (token_accepted token) (Policy ["GANCHOR"; "GOTHER"] "GUSDC" (5000 * UNIT))
    (Network "local" "https://rpc" "https://horizon" "Standalone Network ; February 2017"
       [("registry", None); ("priceGuard", None); ("pledgeVault", None); ("creditLine", None); ("exitDesk", None); ("repoDvp", None);
        ("usdcSac", None)])
    (Some 3002) "127.0.0.1" (Some 300000).
Definition leg : string := list_to_string (List.repeat "a"%char 64).
Definition body : ForwardBody := Body leg "GANCHOR" "125000000" "42" "GUSDC" None.


(** A network on which the first leg landed and payments are accepted. *)
Definition answers (X : Type) (n : nat) (c : PayoutCall X) : outcome X :=
  match c in PayoutCall X return outcome X with
  | GetTransaction _ => Ok (TxResponse "SUCCESS" "AAAA" None)
  | LoadSequenceAccount => Ok 7
  | SignAndSubmit _ _ => Ok ("hash", "PENDING")
  end.
Definition network : Prog.env PayoutCall := Env answers (fun _ => NoFault) (fun n => Stamp (Z.of_nat n) (Z_to_string (Z.of_nat n))).
Definition events : list PayoutEvent :=
  [Asked (PRequest (OneHeader token) body); Asked (PRequest NoHeader body); Asked (PRequest (OneHeader token) body)].
Definition schedule : list nat := List.concat (List.repeat [0; 1; 3; 2]%nat 12).

Lemma payments_are_authorised_witness :
  payout_main env (Ok tt) = Ok process /\
  let '(_, w) := interleave network schedule (payout_life (fun _ => true) "GOP" process events, World empty_db 0 []) in
  authorised "GOP" (pp_policy process) (asked_with_token (fun _ => true) process events) (w_log w) /\
  exists token, env "INTERNAL_API_TOKEN" = Some token /\ (MIN_TOKEN_LENGTH <= slen token)%nat /\
    forall given, pp_accepts process given = true <-> exists value, given = OneHeader value /\ sha256 value = sha256 token.
Proof.
  split; [vm_compute; reflexivity|].
  assert (Hm : payout_main env (Ok tt) = Ok process) by (vm_compute; reflexivity).
  exact (@payments_are_authorised sdk digest (fun _ => true) network env (Ok tt) process "GOP" events schedule empty_db Hm).
Defined.

Definition status_of (p : payout_prog (option (Z * option ForwardPayoutResult))) : Z :=
  match p in Prog.prog _ _ _ A return (A -> Z) -> Z with Ret a => fun code => code a | _ => fun _ => -1 end
    (fun reply => match reply with Some (code, _) => code | None => 0 end).

(** Two requests for one leg and one without the token: one payment, one refusal, one conflict. *)
Example one_payment_of_three_requests :
  let '(threads, w) := interleave network schedule (payout_life (fun _ => true) "GOP" process events, World empty_db 0 []) in
  omap payment_of (w_log w) = [(leg, Payment 7 (MemoId "42") "GANCHOR" "USDC" "GUSDC" "12.5000000" 30)] /\
  List.map status_of threads = [0; 200; 401; 409].
Proof. vm_compute. auto. Qed.
End PayoutSample.
