(* ===== verification/Sanctions.v ===== *)
(** [services/api/src/compliance/sanctionsList.ts]: the OFAC list parsed into something a party can be
    screened against.  Texts are in UTF-8, byte by byte; what Unicode says of normal forms and letter
    case is a parameter. *)
From stdpp Require Import gmap.
From S2P Require Import Prelude.

(** ** [parseCsv] *)
Definition quote : ascii := ascii_of_nat 34.
Definition cr : ascii := ascii_of_nat 13.
Definition lf : ascii := ascii_of_nat 10.

(** What ended a field: a comma, a line break, or the end of the text. *)
Inductive Separator := Comma (rest : string) | Line (rest : string) | EndOfText.

(** [(,|\r\n|\n|\r|$)] at the start of [s]. *)
Definition separator (s : string) : option Separator :=
  match s with
  | EmptyString => Some EndOfText
  | String c s' =>
      if bool_decide (c = ","%char) then Some (Comma s')
      else if bool_decide (c = lf) then Some (Line s')
      else if bool_decide (c = cr) then
        match s' with
        | String d s'' => if bool_decide (d = lf) then Some (Line s'') else Some (Line s')
        | EmptyString => Some (Line s')
        end
      else None
  end.

(** A quoted field after its opening quote: its text, with doubled quotes made single, and what
    follows the closing quote. *)
Fixpoint scan_quoted (s : string) : option (string * string) :=
  match s with
  | EmptyString => None
  | String c s' =>
      if bool_decide (c = quote) then
        match s' with
        | String d s'' =>
            if bool_decide (d = quote)
            then match scan_quoted s'' with Some (t, r) => Some (String quote t, r) | None => None end
            else Some (EmptyString, s')
        | EmptyString => Some (EmptyString, EmptyString)
        end
      else match scan_quoted s' with Some (t, r) => Some (String c t, r) | None => None end
  end.

(** [[^,\r\n]*]. *)
Definition ends_raw (c : ascii) : bool := bool_decide (c = ","%char) || bool_decide (c = cr) || bool_decide (c = lf).
Fixpoint scan_raw (s : string) : string * string :=
  match s with
  | EmptyString => (EmptyString, EmptyString)
  | String c s' => if ends_raw c then (EmptyString, s) else let '(t, r) := scan_raw s' in (String c t, r)
  end.

(** Every pair of quotes made one, from the left. *)
Fixpoint undouble (s : string) : string :=
  match s with
  | String c (String d s'' as s') =>
      if bool_decide (c = quote) && bool_decide (d = quote) then String quote (undouble s'') else String c (undouble s')
  | _ => s
  end.

(** A field that starts with a quote loses its first and last character. *)
Definition unquote (raw : string) : string :=
  match raw with
  | String c s' => if bool_decide (c = quote) then undouble (string_take (slen s' - 1) s') else raw
  | EmptyString => raw
  end.

(** One match of [token]: a quoted field if a separator follows it, else the text up to one. *)
Definition token (s : string) : string * Separator :=
  let raw := let '(t, r) := scan_raw s in (unquote t, default EndOfText (separator r)) in
  match s with
  | String c s' =>
      if bool_decide (c = quote) then
        match scan_quoted s' with
        | Some (t, r) => match separator r with Some sep => (t, sep) | None => raw end
        | None => raw
        end
      else raw
  | EmptyString => raw
  end.

Definition push_row (row : list string) (rows : list (list string)) : list (list string) :=
  if bool_decide (row = [""]) then rows else rows ++ [row].

(** Every token but the last consumes a separator: the length of the text is fuel enough. *)
Fixpoint parse_rows (fuel : nat) (s : string) (row : list string) (rows : list (list string)) : list (list string) :=
  let '(field, sep) := token s in
  let row := row ++ [field] in
  match sep, fuel with
  | Comma rest, S fuel => parse_rows fuel rest row rows
  | Line rest, S fuel => parse_rows fuel rest [] (push_row row rows)
  | EndOfText, _ => push_row row rows
  | _, O => rows
  end.

Definition parseCsv (text : string) : list (list string) := parse_rows (slen text) text [] [].

(** ** [nameKey] *)
(** [normalize("NFKD")] and [toUpperCase()], which go by the tables of Unicode. *)
Class Unicode := { normalize_NFKD : string -> string; js_toUpperCase : string -> string }.

(** [.replace(/[\u0300-\u036f]/g, "")]: in UTF-8 these marks are CC 80 to CC BF and CD 80 to CD AF. *)
Definition is_mark (a b : ascii) : bool :=
  (char_code a =? 204) && (128 <=? char_code b) && (char_code b <=? 191) ||
  (char_code a =? 205) && (128 <=? char_code b) && (char_code b <=? 175).
Fixpoint strip_marks (s : string) : string :=
  match s with
  | String a (String b rest as s') => if is_mark a b then strip_marks rest else String a (strip_marks s')
  | _ => s
  end.

Definition LEGAL_FORMS : list string :=
  ["LTD"; "LIMITED"; "LLC"; "INC"; "INCORPORATED"; "CORP"; "CORPORATION"; "CO"; "COMPANY"; "PLC"; "LLP"; "LP";
   "SA"; "SAS"; "SARL"; "SRL"; "SPA"; "AG"; "GMBH"; "BV"; "NV"; "OY"; "AB"; "AS"; "FZE"; "FZC"; "FZCO"; "PTE"; "PVT"].

Definition is_upper (c : ascii) : bool := (65 <=? char_code c) && (char_code c <=? 90).

(** The replacement of what is neither a capital, a digit nor a space by a space, character by
    character: the runs of spaces are split away next. *)
Definition word_char (c : ascii) : ascii := if is_upper c || is_digit c then c else " "%char.

Definition is_legal_form (t : string) : bool := existsb (fun f => bool_decide (f = t)) LEGAL_FORMS.

Fixpoint insert_string (s : string) (l : list string) : list string :=
  match l with
  | [] => [s]
  | t :: l' => if String.leb s t then s :: l else t :: insert_string s l'
  end.
Definition sort_strings (l : list string) : list string := foldr insert_string [] l.

Section Names.
Context `{Unicode}.

Definition name_tokens (name : string) : list string :=
  List.filter (fun t => negb (bool_decide (t = "")))
    (split_on " " (string_map word_char (js_toUpperCase (strip_marks (normalize_NFKD name))))).

Definition nameKey (name : string) : string :=
  let tokens := name_tokens name in
  let core := List.filter (fun t => negb (is_legal_form t)) tokens in
  join " " (sort_strings (match core with [] => tokens | _ => core end)).
End Names.

(** ** The remarks' aliases and addresses *)
Definition NULL_FIELD : string := "-0-".
Definition clean (v : option string) : string :=
  match v with
  | Some v => if negb (bool_decide (v = "")) && negb (bool_decide (trim v = NULL_FIELD)) then trim v else ""
  | None => ""
  end.

Definition is_alpha (c : ascii) : bool := is_upper c || ((97 <=? char_code c) && (char_code c <=? 122)).
Definition is_word (c : ascii) : bool := is_alpha c || is_digit c || (char_code c =? 95).

(** The longest prefix of characters satisfying [p], and the rest. *)
Fixpoint span (p : ascii -> bool) (s : string) : string * string :=
  match s with
  | String c s' => if p c then let '(t, r) := span p s' in (String c t, r) else (EmptyString, s)
  | EmptyString => (EmptyString, EmptyString)
  end.

Definition apostrophe : ascii := ascii_of_nat 39.

(** The pattern [AKA] at the start of [s], whatever the case: the name, and the rest. *)
Definition match_aka (s : string) : option (string * string) :=
  let head := toLowerCase (string_take 6 s) in
  if bool_decide (head = "a.k.a.") || bool_decide (head = "f.k.a.") || bool_decide (head = "n.k.a.")
  then
    match snd (span is_space (string_drop 6 s)) with
    | String c s' =>
        if bool_decide (c = apostrophe) then
          match span (fun c => negb (bool_decide (c = apostrophe))) s' with
          | (EmptyString, _) | (_, EmptyString) => None
          | (name, String _ rest) => Some (name, rest)
          end
        else None
    | EmptyString => None
    end
  else None.

(** [remarks.matchAll(AKA)]; [prev]: is the character before a word character? *)
Fixpoint akas (fuel : nat) (prev : bool) (s : string) : list string :=
  match fuel, s with
  | S fuel, String c s' =>
      match (if prev then None else match_aka s) with
      | Some (name, rest) => name :: akas fuel false rest
      | None => akas fuel (is_word c) s'
      end
  | _, _ => []
  end.

Definition DIGITAL_PREFIX : string := "Digital Currency Address - ".

Definition match_address (s : string) : option (string * string * string) :=
  if starts_with DIGITAL_PREFIX s then
    let '(coin, s1) := span (fun c => is_upper c || is_digit c) (string_drop (slen DIGITAL_PREFIX) s) in
    let '(blanks, s2) := span is_space s1 in
    let '(address, s3) := span (fun c => is_alpha c || is_digit c) s2 in
    if bool_decide (coin = "") || bool_decide (blanks = "") || bool_decide (address = "") then None
    else Some (coin, address, s3)
  else None.

Fixpoint digital_addresses (fuel : nat) (s : string) : list (string * string) :=
  match fuel, s with
  | S fuel, String _ s' =>
      match match_address s with
      | Some (coin, address, rest) => (coin, address) :: digital_addresses fuel rest
      | None => digital_addresses fuel s'
      end
  | _, _ => []
  end.

(** ** [SanctionsList] *)
Record Hit := MkHit { h_listed : string; h_entNum : string }.
Inductive MatchType := NameMatch | AddressMatch.
Record SanctionsMatch := Match { sm_type : MatchType; sm_listed : string; sm_entNum : string }.
Record ScreeningSubject := Subject { ss_legalName : option string; ss_stellarAccounts : list string }.

Record SanctionsList := SList { names : gmap string (list Hit); addresses : gmap string Hit; entries : nat }.

Section Screening.
Context `{Unicode}.

Definition addName (l : SanctionsList) (name listed entNum : string) : SanctionsList :=
  let key := nameKey name in
  if (slen key <? 5)%nat then l
  else SList (<[key := default [] (names l !! key) ++ [MkHit listed entNum]]> (names l)) (addresses l) (entries l).

Definition addAddress (l : SanctionsList) (coin address entNum : string) : SanctionsList :=
  SList (names l) (<[js_toUpperCase address := MkHit (coin +:+ " " +:+ address) entNum]> (addresses l)) (entries l).

Definition add_sdn_row (l : SanctionsList) (r : list string) : SanctionsList :=
  let entNum := clean (nth_error r 0) in
  let name := clean (nth_error r 1) in
  if bool_decide (entNum = "") || bool_decide (name = "") then l
  else
    let l := addName l name name entNum in
    let remarks := clean (nth_error r 11) in
    let l := foldl (fun l m => addName l m m entNum) l (akas (slen remarks) false remarks) in
    foldl (fun l m => addAddress l (fst m) (snd m) entNum) l (digital_addresses (slen remarks) remarks).

Definition add_alt_row (l : SanctionsList) (r : list string) : SanctionsList :=
  let entNum := clean (nth_error r 0) in
  let alias := clean (nth_error r 3) in
  if negb (bool_decide (entNum = "")) && negb (bool_decide (alias = "")) then addName l alias alias entNum else l.

Definition newSanctionsList (sdnCsv : string) (altCsv : option string) : SanctionsList :=
  let sdn := parseCsv sdnCsv in
  let l := foldl add_sdn_row (SList ∅ ∅ 0) sdn in
  let l := SList (names l) (addresses l) (List.length sdn) in
  match altCsv with
  | Some alt => if bool_decide (alt = "") then l else foldl add_alt_row l (parseCsv alt)
  | None => l
  end.

Definition screen (l : SanctionsList) (subject : ScreeningSubject) : list SanctionsMatch :=
  (match ss_legalName subject with
   | Some n => if bool_decide (n = "") then []
               else List.map (fun h => Match NameMatch (h_listed h) (h_entNum h)) (default [] (names l !! nameKey n))
   | None => []
   end) ++
  List.concat (List.map (fun account =>
    match addresses l !! js_toUpperCase account with
    | Some h => [Match AddressMatch (h_listed h) (h_entNum h)]
    | None => []
    end) (ss_stellarAccounts subject)).
End Screening.

(** Plain ASCII, on which the normal form is the text itself. *)
Definition ascii_text : Unicode := {| normalize_NFKD s := s; js_toUpperCase := toUpperCase |}.

Example sample_csv : parseCsv "1,a,-0-
2,b
" = [["1"; "a"; "-0-"]; ["2"; "b"]].
Proof. vm_compute. reflexivity. Qed.

Example sample_name_key : let key := @nameKey ascii_text in
  key "Trading Acme, Ltd." = "ACME TRADING" /\ key "The Co" = "THE" /\ key "co ltd" = "CO LTD".
Proof. vm_compute. auto. Qed.

(** E and a combining acute accent, as the normal form of É writes it. *)
Example sample_marks : strip_marks (String "E" (String (ascii_of_nat 204) (String (ascii_of_nat 129) "L"))) = "EL".
Proof. vm_compute. reflexivity. Qed.

Example sample_akas : akas 100 false "DOB 1; a.k.a. 'Foo Bar'; F.K.A. 'Baz'; xa.k.a. 'No'." = ["Foo Bar"; "Baz"].
Proof. vm_compute. reflexivity. Qed.

Example sample_addresses :
  digital_addresses 100 "x Digital Currency Address - XBT 1abC; Digital Currency Address - ETH 0x2f." = [("XBT", "1abC"); ("ETH", "0x2f")].
Proof. vm_compute. reflexivity. Qed.
