(* ===== verification/SanctionsSafety.v ===== *)
(** What the sanctions list finds: the CSV it parses is the CSV that was printed, two names match
    exactly if they have the same words, and screening finds every listing.  What a CSV file, a word and
    an alias are is stated here on its own, by relations on the text. *)
From stdpp Require Import gmap sorting.
From S2P Require Import Prelude Sanctions.

(** ** CSV files *)
Fixpoint double_quotes (s : string) : string :=
  match s with
  | String c s' => if bool_decide (c = quote) then String quote (String quote (double_quotes s')) else String c (double_quotes s')
  | EmptyString => EmptyString
  end.

(** A field in quotes, those it holds doubled; or as it is, when it holds no quote, comma or line break. *)
Definition bare (c : ascii) : Prop := ~ In c [quote; ","%char; cr; lf].
Inductive csv_field : string -> string -> Prop :=
| Quoted f : csv_field f (String quote (double_quotes f +:+ String quote ""))
| Bare f : Forall bare (string_to_list f) -> csv_field f f.

(** Fields between commas; rows, each ended by a line break. *)
Inductive csv_row : list string -> string -> Prop :=
| LastField f t : csv_field f t -> csv_row [f] t
| NextField f t r rest : csv_field f t -> csv_row r rest -> csv_row (f :: r) (t +:+ String "," rest).
Inductive csv_file : list (list string) -> string -> Prop :=
| NoRow : csv_file [] ""
| NextRow r t eol rows rest : csv_row r t -> eol = String lf "" \/ eol = String cr (String lf "") -> csv_file rows rest ->
    csv_file (r :: rows) (t +:+ eol +:+ rest).

Lemma scan_printed f rest sep :
  separator rest = Some sep -> scan_quoted (double_quotes f +:+ String quote rest) = Some (f, rest).
Proof.
  intros Hsep. induction f as [|c f IH].
  - change (double_quotes "" +:+ String quote rest) with (String quote rest). cbn [scan_quoted].
    rewrite bool_decide_true by done. destruct rest as [|d rest]; [done|]. rewrite bool_decide_false; [done|].
    intros ->. done.
  - cbn [double_quotes]. case_bool_decide as E.
    + subst c. rewrite !string_cons_app. cbn [scan_quoted]. rewrite !bool_decide_true by done. by rewrite IH.
    + rewrite string_cons_app. cbn [scan_quoted]. rewrite bool_decide_false by done. by rewrite IH.
Qed.

Lemma bare_goes_on c : bare c -> ends_raw c = false.
Proof.
  intros Hc. unfold ends_raw. rewrite !bool_decide_false; [done|..]; intros ->; apply Hc; simpl; tauto.
Qed.

(** A separator that ends a field at a character. *)
Definition ends_at (rest : string) (sep : Separator) : Prop :=
  separator rest = Some sep /\ exists c rest', rest = String c rest' /\ ends_raw c = true /\ c <> quote.

Lemma scan_bare f rest sep : Forall bare (string_to_list f) -> ends_at rest sep -> scan_raw (f +:+ rest) = (f, rest).
Proof.
  intros Hf (_ & c & rest' & -> & Hc & _). induction f as [|d f IH].
  { change ("" +:+ String c rest') with (String c rest'). cbn [scan_raw]. by rewrite Hc. }
  inversion Hf; subst.
  rewrite string_cons_app. cbn [scan_raw]. rewrite bare_goes_on by done. by rewrite IH.
Qed.

Lemma token_csv f t rest sep : csv_field f t -> ends_at rest sep -> token (t +:+ rest) = (f, sep).
Proof.
  intros Hf Hrest. pose proof Hrest as (Hsep & c & rest' & E & Hc & Hq). destruct Hf as [f|f Hf].
  - rewrite string_cons_app, <- string_app_assoc. unfold token.
    rewrite bool_decide_true by done. change (String quote "" +:+ rest) with (String quote rest).
    by rewrite (scan_printed f rest sep Hsep), Hsep.
  - pose proof (scan_bare f rest sep Hf Hrest) as Hscan. destruct f as [|d f].
    + rewrite E in *. change ("" +:+ String c rest') with (String c rest') in *. unfold token.
      rewrite bool_decide_false by done. rewrite Hscan. cbn [unquote]. by rewrite Hsep.
    + inversion Hf as [|? ? Hd]; subst. rewrite string_cons_app in *.
      assert (d <> quote) by (intros ->; apply Hd; by left).
      unfold token. rewrite bool_decide_false by done. rewrite Hscan, Hsep. cbn [unquote]. by rewrite bool_decide_false.
Qed.

Lemma slen_field_end t c rest : slen (t +:+ String c rest) = (slen t + S (slen rest))%nat.
Proof. by rewrite slen_app. Qed.

(** One step of the parser on a field and what ends it. *)
Lemma parse_field f t rest sep fuel row rows : csv_field f t -> ends_at rest sep ->
  parse_rows fuel (t +:+ rest) row rows =
  match sep, fuel with
  | Comma rest, S fuel => parse_rows fuel rest (row ++ [f]) rows
  | Line rest, S fuel => parse_rows fuel rest [] (push_row (row ++ [f]) rows)
  | EndOfText, _ => push_row (row ++ [f]) rows
  | _, O => rows
  end.
Proof. intros Hf Hr. destruct fuel; cbn [parse_rows]; by rewrite (token_csv f t rest sep). Qed.

Lemma parse_csv_row r t eol rest fuel row rows :
  csv_row r t -> eol = String lf "" \/ eol = String cr (String lf "") -> (slen (t +:+ eol +:+ rest) <= fuel)%nat ->
  exists fuel', (slen rest <= fuel')%nat /\ parse_rows fuel (t +:+ eol +:+ rest) row rows = parse_rows fuel' rest [] (push_row (row ++ r) rows).
Proof.
  intros Hr He. revert fuel row. induction Hr as [f t Hf|f t r text Hf Hr IH]; intros fuel row Hfuel.
  - assert (Hend : ends_at (eol +:+ rest) (Line rest)) by (destruct He as [-> | ->]; (split; [done|by eexists _, _])).
    rewrite (parse_field f t _ _ _ _ _ Hf Hend). destruct fuel as [|fuel].
    { destruct He as [-> | ->]; rewrite string_cons_app, slen_field_end in Hfuel; lia. }
    exists fuel. split; [|done]. destruct He as [-> | ->]; rewrite !slen_app in Hfuel; cbn in Hfuel; lia.
  - rewrite <- string_app_assoc, string_cons_app in *. rewrite slen_field_end in Hfuel. destruct fuel as [|fuel]; [lia|].
    rewrite (parse_field f t _ (Comma (text +:+ eol +:+ rest))); [|done|by split; [|eexists _, _]].
    destruct (IH fuel (row ++ [f])) as (fuel' & Hf' & E); [lia|]. exists fuel'. split; [done|]. by rewrite E, <- app_assoc.
Qed.

Lemma parse_csv_file rows text : csv_file rows text -> forall fuel acc, (slen text <= fuel)%nat ->
  parse_rows fuel text [] acc = acc ++ List.filter (fun r => negb (bool_decide (r = [""]))) rows.
Proof.
  induction 1 as [|r t eol rows rest Hr He Hrows IH]; intros fuel acc Hfuel; [by destruct fuel; rewrite app_nil_r|].
  destruct (parse_csv_row r t eol rest fuel [] acc Hr He Hfuel) as (fuel' & Hf' & ->). rewrite IH by done.
  cbn [List.filter app]. unfold push_row. case_bool_decide; cbn [negb]; [done|by rewrite <- app_assoc].
Qed.

(** Parsing is the inverse of printing: a file's rows are read back, whatever commas, line breaks and
    quotes their fields hold; only blank lines are dropped. *)
Lemma csv_parses rows text : csv_file rows text -> parseCsv text = List.filter (fun r => negb (bool_decide (r = [""]))) rows.
Proof. intros Hf. unfold parseCsv. by rewrite (parse_csv_file rows text Hf). Qed.

(** ** The words of a name *)
(** The two bytes UTF-8 writes a code point below 2048 in. *)
Definition utf8_pair (cp : nat) : string :=
  String (ascii_of_nat (192 + cp / 64)) (String (ascii_of_nat (128 + cp mod 64)) "").
(** U+0300 to U+036F. *)
Definition combining_mark (cp : nat) : Prop := (768 <= cp <= 879)%nat.

(** The text without its combining marks. *)
Inductive unmarked : string -> string -> Prop :=
| UnmarkedEnd : unmarked "" ""
| UnmarkedMark cp s t : combining_mark cp -> unmarked s t -> unmarked (utf8_pair cp +:+ s) t
| UnmarkedOther c s t : (forall cp rest, combining_mark cp -> String c s <> utf8_pair cp +:+ rest) -> unmarked s t ->
    unmarked (String c s) (String c t).

Definition letter_or_digit (c : ascii) : Prop :=
  let n := nat_of_ascii c in (nat_of_ascii "A" <= n <= nat_of_ascii "Z" \/ nat_of_ascii "0" <= n <= nat_of_ascii "9")%nat.
Definition starts_word (s : string) : Prop := match s with String c _ => letter_or_digit c | EmptyString => False end.

(** The longest runs of capital letters and digits, in order. *)
Inductive runs : string -> list string -> Prop :=
| RunsEnd : runs "" []
| RunsGap c s ws : ~ letter_or_digit c -> runs s ws -> runs (String c s) ws
| RunsWord w s ws : w <> "" -> Forall letter_or_digit (string_to_list w) -> ~ starts_word s -> runs s ws ->
    runs (w +:+ s) (w :: ws).

(** Legal forms: in English, in Romance languages, in Germanic and Nordic ones, in free zones. *)
Definition legal_forms : list string :=
  ["LTD"; "LIMITED"; "PTE"; "PVT"; "LLC"; "LLP"; "LP"; "PLC"; "INC"; "INCORPORATED"; "CORP"; "CORPORATION"; "CO"; "COMPANY"] ++
  ["SA"; "SAS"; "SARL"; "SRL"; "SPA"] ++ ["AG"; "GMBH"; "BV"; "NV"; "OY"; "AB"; "AS"] ++ ["FZE"; "FZC"; "FZCO"].

(** The words a name is known by: all but the legal forms, or all when there are no others. *)
Definition known_by (ws : list string) : list string :=
  match filter (fun w => w ∉ legal_forms) ws with [] => ws | core => core end.

Lemma letter_or_digit_code c : letter_or_digit c <-> is_upper c || is_digit c = true.
Proof.
  unfold letter_or_digit, is_upper, is_digit. cbv zeta. rewrite orb_true_iff, !andb_true_iff, !Z.leb_le.
  change (nat_of_ascii "A") with 65%nat. change (nat_of_ascii "Z") with 90%nat. change (nat_of_ascii "0") with 48%nat.
  change (nat_of_ascii "9") with 57%nat. rewrite !char_code_nat. lia.
Qed.

#[local] Instance letter_or_digit_dec c : Decision (letter_or_digit c).
Proof. refine (cast_if (decide (is_upper c || is_digit c = true))); by rewrite letter_or_digit_code. Defined.

(** The code's way to the runs. *)
Definition run_words (s : string) : list string :=
  List.filter (fun t => negb (bool_decide (t = ""))) (split_on " " (string_map word_char s)).

Lemma word_char_in c : letter_or_digit c -> word_char c = c /\ c <> " "%char.
Proof. intros Hc%letter_or_digit_code. unfold word_char. rewrite Hc. split; [done|]. by intros ->. Qed.
Lemma word_char_out c : ~ letter_or_digit c -> word_char c = " "%char.
Proof. rewrite letter_or_digit_code. unfold word_char. by intros ->%not_true_is_false. Qed.

Lemma string_map_cons f c s : string_map f (String c s) = String (f c) (string_map f s).
Proof. done. Qed.
Lemma string_map_word w s : Forall letter_or_digit (string_to_list w) -> string_map word_char (w +:+ s) = w +:+ string_map word_char s.
Proof.
  induction w as [|c w IH]; intros Hw; [done|]. inversion Hw; subst. rewrite !string_cons_app, string_map_cons.
  rewrite (proj1 (word_char_in c ltac:(done))). f_equal. by apply IH.
Qed.
Lemma word_lacks w : Forall letter_or_digit (string_to_list w) -> lacks " " w.
Proof.
  intros Hw. unfold lacks, string_forall. apply forallb_forall. intros c Hc. rewrite List.Forall_forall in Hw.
  rewrite bool_decide_false; [done|]. by apply word_char_in, Hw.
Qed.

Lemma split_space t : split_on " " (String " " t) = "" :: split_on " " t.
Proof. exact (split_on_app " " "" t eq_refl). Qed.

Lemma run_words_gap c s : ~ letter_or_digit c -> run_words (String c s) = run_words s.
Proof.
  intros Hc. unfold run_words. rewrite string_map_cons, word_char_out by done.
  by rewrite split_space.
Qed.
Lemma run_words_word w s : w <> "" -> Forall letter_or_digit (string_to_list w) -> ~ starts_word s -> run_words (w +:+ s) = w :: run_words s.
Proof.
  intros Hne Hw Hs. unfold run_words. rewrite string_map_word by done. pose proof (word_lacks w Hw) as Hl. destruct s as [|c s].
  - change (string_map word_char "") with "". rewrite string_app_nil_r, split_on_none by done. cbn. by rewrite bool_decide_false.
  - rewrite string_map_cons, word_char_out by done. rewrite split_on_app by done. cbn [List.filter]. rewrite (bool_decide_false (w = "")) by done.
    cbn [negb]. f_equal. by rewrite split_space.
Qed.

Lemma runs_unique s ws : runs s ws -> ws = run_words s.
Proof.
  induction 1 as [|c s ws Hc Hr ->|w s ws Hne Hw Hs Hr ->]; [done|by rewrite run_words_gap|by rewrite run_words_word].
Qed.

Lemma runs_exist s : exists ws, runs s ws.
Proof.
  induction s as [|c s [ws IH]]; [by exists []; constructor|]. destruct (decide (letter_or_digit c)) as [Hc|Hc].
  2: { exists ws. by constructor. }
  assert (Hone : Forall letter_or_digit (string_to_list (String c ""))) by (constructor; [done|constructor]).
  destruct s as [|d s].
  - exists [String c ""]. apply (RunsWord (String c "") "" []); [done|done|by intros []|constructor].
  - destruct (decide (letter_or_digit d)) as [Hd|Hd].
    2: { exists (String c "" :: ws). by apply (RunsWord (String c "") (String d s) ws). }
    inversion IH as [|d' s' ws' Hd' Hr|w s' ws' Hne Hw Hs Hr E]; subst; [done|]. exists (String c w :: ws').
    rewrite <- string_cons_app. by apply RunsWord; [|constructor|..].
Qed.

Lemma runs_words s ws : runs s ws <-> ws = run_words s.
Proof.
  split; [apply runs_unique|]. intros ->. destruct (runs_exist s) as [ws Hws]. by rewrite <- (runs_unique s ws Hws).
Qed.

Lemma utf8_pair_is_mark cp a b rest : combining_mark cp -> String a (String b rest) = utf8_pair cp +:+ rest -> is_mark a b = true.
Proof.
  intros Hc. unfold utf8_pair. rewrite !string_cons_app. intros E.
  assert (Ea : a = ascii_of_nat (192 + cp / 64)) by (by injection E). assert (Eb : b = ascii_of_nat (128 + cp mod 64)) by (by injection E).
  subst a b. clear E. unfold is_mark, combining_mark in *. rewrite !char_code_nat.
  pose proof (Nat.div_mod_eq cp 64) as Hd. pose proof (Nat.mod_upper_bound cp 64 ltac:(done)) as Hm.
  rewrite !nat_ascii_embedding by lia.
  rewrite orb_true_iff, !andb_true_iff, !Z.eqb_eq, !Z.leb_le. lia.
Qed.

Lemma is_mark_utf8_pair a b : is_mark a b = true -> exists cp, combining_mark cp /\ String a (String b "") = utf8_pair cp.
Proof.
  unfold is_mark. rewrite !char_code_nat, orb_true_iff, !andb_true_iff, !Z.eqb_eq, !Z.leb_le. intros Hab.
  exists ((nat_of_ascii a - 192) * 64 + (nat_of_ascii b - 128))%nat. unfold combining_mark, utf8_pair. split; [lia|].
  assert (Hb : (nat_of_ascii b - 128 < 64)%nat) by lia.
  rewrite Nat.div_add_l, Nat.div_small by lia. rewrite Nat.add_comm, (Nat.add_comm (_ * 64)), Nat.Div0.mod_add, Nat.mod_small by done.
  rewrite <- (ascii_nat_embedding a) at 1. rewrite <- (ascii_nat_embedding b) at 1. repeat f_equal; lia.
Qed.

Lemma unmarked_strip s t : unmarked s t <-> t = strip_marks s.
Proof.
  assert (H1 : forall s t, unmarked s t -> t = strip_marks s).
  { clear. induction 1 as [|cp s t Hc _ ->|c s t Hc _ ->]; [done| |].
    - unfold utf8_pair. rewrite !string_cons_app. change ("" +:+ s) with s. cbn [strip_marks].
      by rewrite (utf8_pair_is_mark cp _ _ s Hc eq_refl).
    - destruct s as [|b rest]; [done|]. cbn [strip_marks]. destruct (is_mark c b) eqn:E; [|done].
      destruct (is_mark_utf8_pair c b E) as (cp & Hcp & Ep). destruct (Hc cp rest Hcp). by rewrite <- Ep. }
  assert (H2 : forall n s, (slen s <= n)%nat -> exists t, unmarked s t).
  { clear. induction n as [|n IH]; intros [|c s] Hn; try (by exists ""; constructor); [by (unfold slen in Hn; simpl in Hn; lia)|].
    unfold slen in Hn. simpl in Hn.
    assert (Hother : (forall cp rest, combining_mark cp -> String c s <> utf8_pair cp +:+ rest) -> exists t, unmarked (String c s) t).
    { intros Hc. destruct (IH s) as [t Ht]; [unfold slen; lia|]. exists (String c t). by constructor. }
    destruct s as [|b rest]; [apply Hother; intros cp rest _; unfold utf8_pair; by rewrite !string_cons_app|].
    destruct (is_mark c b) eqn:E.
    - destruct (is_mark_utf8_pair c b E) as (cp & Hcp & Ep). destruct (IH rest) as [t Ht]; [unfold slen; simpl in Hn; lia|]. exists t.
      change (String c (String b rest)) with (String c (String b "") +:+ rest). rewrite Ep. by constructor.
    - apply Hother. intros cp rest' Hcp Ep. unfold utf8_pair in Ep. pose proof Ep as Ep'. rewrite !string_cons_app in Ep.
      assert (rest = rest') as <- by (by injection Ep). by rewrite (utf8_pair_is_mark cp c b rest Hcp Ep') in E. }
  split; [apply H1|]. intros ->. destruct (H2 (slen s) s) as [t Ht]; [done|]. by rewrite <- (H1 _ _ Ht).
Qed.

Lemma same_forms t : is_legal_form t = bool_decide (t ∈ legal_forms).
Proof.
  unfold is_legal_form. apply eq_true_iff_eq. rewrite existsb_exists, bool_decide_eq_true, list_elem_of_In.
  assert (Hf : forall x, In x LEGAL_FORMS <-> In x legal_forms).
  { assert (Hp : LEGAL_FORMS ≡ₚ legal_forms) by (apply (bool_decide_unpack _); vm_compute; done).
    intros x. by split; apply Permutation_in. }
  rewrite <- Hf. split; [by intros (x & Hx & ->%bool_decide_eq_true)|]. intros Ht. exists t. split; [done|]. by apply bool_decide_eq_true.
Qed.

Lemma insert_string_perm s l : insert_string s l ≡ₚ s :: l.
Proof. induction l as [|t l IH]; simpl; [done|]. case_match; [done|]. rewrite IH. apply Permutation_swap. Qed.

Lemma sort_strings_perm l : sort_strings l ≡ₚ l.
Proof. induction l as [|s l IH]; simpl; [done|]. by rewrite insert_string_perm, IH. Qed.

Lemma insert_string_sorted s l : Sorted String.le l -> Sorted String.le (insert_string s l).
Proof.
  intros Hl. induction Hl as [|t l Hl IH Ht]; simpl; [by repeat constructor|].
  destruct (String.leb s t) eqn:E.
  - constructor; [by constructor|]. constructor. unfold String.le. by rewrite E.
  - constructor; [done|]. assert (Hts : String.le t s).
    { destruct (total String.le s t) as [H|H]; [|done]. unfold String.le in H. by rewrite E in H. }
    destruct l as [|u l]; simpl; [by constructor|]. inversion Ht; subst. by destruct (String.leb s u); constructor.
Qed.

Lemma sort_strings_sorted l : Sorted String.le (sort_strings l).
Proof. induction l as [|s l IH]; simpl; [constructor|]. by apply insert_string_sorted. Qed.

(** What joining words with spaces loses: nothing. *)
Definition proper_word (t : string) : Prop := lacks " " t /\ t <> "".
Lemma join_nonempty l : Forall proper_word l -> join " " l = "" -> l = [].
Proof.
  intros Hl. destruct Hl as [|t l [_ Ht] _]; [done|]. destruct l as [|u l]; simpl; [done|]. by destruct t.
Qed.
Lemma join_words_inj l l' : Forall proper_word l -> Forall proper_word l' -> join " " l = join " " l' -> l = l'.
Proof.
  intros Hl Hl' E. destruct l as [|s l]; [symmetry in E |- *; by apply join_nonempty|].
  destruct l' as [|s' l']; [by apply join_nonempty|].
  rewrite <- (split_join " " (s :: l)), <- (split_join " " (s' :: l')); [by rewrite E|done| |done|];
    (eapply Forall_impl; [done|]; by intros t [? _]).
Qed.

(** The length of words written with a space between any two. *)
Definition written_length (ws : list string) : nat := (sum_list (List.map slen ws) + (List.length ws - 1))%nat.
Lemma slen_join ws : slen (join " " ws) = written_length ws.
Proof.
  unfold written_length. induction ws as [|w ws IH]; [done|]. destruct ws as [|v ws]; [simpl; lia|].
  change (join " " (w :: v :: ws)) with (w +:+ String " " (join " " (v :: ws))). rewrite slen_field_end, IH. simpl. lia.
Qed.
#[local] Instance written_length_perm : Proper ((≡ₚ) ==> eq) written_length.
Proof.
  intros l l' Hl. unfold written_length. rewrite (Permutation_length Hl). f_equal. induction Hl; simpl; lia.
Qed.

Section WithUnicode.
Context `{Unicode}.

(** The words of a name: the runs of its normal form, marks removed, in capitals. *)
Definition words_of (name : string) (ws : list string) : Prop :=
  exists t, unmarked (normalize_NFKD name) t /\ runs (js_toUpperCase t) ws.

Lemma words_of_tokens name ws : words_of name ws <-> ws = name_tokens name.
Proof.
  unfold words_of, name_tokens. split.
  - intros (t & ->%unmarked_strip & ->%runs_words). done.
  - intros ->. eexists. split; [by apply unmarked_strip|]. by apply runs_words.
Qed.

Lemma nameKey_known name : nameKey name = join " " (sort_strings (known_by (name_tokens name))).
Proof.
  unfold nameKey, known_by. cbv zeta.
  assert (E : List.filter (fun t => negb (is_legal_form t)) (name_tokens name) = filter (fun w => w ∉ legal_forms) (name_tokens name)).
  { induction (name_tokens name) as [|t l IH]; [done|]. cbn [List.filter]. rewrite IH, same_forms, filter_cons.
    destruct (decide (t ∈ legal_forms)) as [Hin|Hin].
    - rewrite bool_decide_true by done. by destruct (decide (t ∉ legal_forms)).
    - rewrite bool_decide_false by done. by destruct (decide (t ∉ legal_forms)). }
  rewrite E. by destruct (filter _ _).
Qed.

Lemma known_words name : Forall proper_word (known_by (name_tokens name)).
Proof.
  assert (Ht : Forall proper_word (name_tokens name)).
  { unfold name_tokens. apply Forall_forall. intros t [Ht Hne]%list_elem_of_In%filter_In.
    apply negb_true_iff, bool_decide_eq_false in Hne. split; [|done].
    pose proof (split_lacks " " (string_map word_char (js_toUpperCase (strip_marks (normalize_NFKD name))))) as Hs.
    rewrite Forall_forall in Hs. by apply Hs, list_elem_of_In. }
  unfold known_by. destruct (filter _ _) as [|t l] eqn:E; [done|]. rewrite <- E. apply Forall_forall.
  intros u [_ Hu]%list_elem_of_filter. rewrite Forall_forall in Ht. by apply Ht.
Qed.

Lemma same_key a b : nameKey a = nameKey b <-> known_by (name_tokens a) ≡ₚ known_by (name_tokens b).
Proof.
  rewrite !nameKey_known. split.
  - intros E. rewrite <- (sort_strings_perm (known_by (name_tokens a))), <- (sort_strings_perm (known_by (name_tokens b))).
    apply join_words_inj in E; [by rewrite E|rewrite sort_strings_perm; apply known_words..].
  - intros Hp. f_equal. apply (Sorted_unique String.le); [apply sort_strings_sorted..|].
    by rewrite !sort_strings_perm.
Qed.

Lemma slen_nameKey name : slen (nameKey name) = written_length (known_by (name_tokens name)).
Proof. by rewrite nameKey_known, slen_join, sort_strings_perm. Qed.

(** C40. Two names have the same key exactly if they are known by the same words, in any order and as
    often.  A name has exactly one list of words: the longest runs of capital letters and digits in its
    normal form, with the combining marks removed and the rest in capitals; it is known by those that are
    no legal forms (Ltd, GmbH, ...), or by all of them when there are no others. *)
Theorem same_key_same_words (a b : string) : exists wa wb,
  (forall ws, words_of a ws <-> ws = wa) /\ (forall ws, words_of b ws <-> ws = wb) /\
  (nameKey a = nameKey b <-> known_by wa ≡ₚ known_by wb).
Proof.
  exists (name_tokens a), (name_tokens b). split; [|split]; [intros ws; apply words_of_tokens..|apply same_key].
Qed.

(** ** What the remarks hold *)
(** The finds of a text, from the left and without overlap: at a place where one starts it is taken and
    the search goes on after it, elsewhere it goes on a character further.  [found after s x rest]: [s],
    read after a word character or not, starts with the find [x] and goes on with [rest]. *)
Section Leftmost.
Context {X : Type} (found : bool -> string -> X -> string -> Prop).

Inductive leftmost : bool -> string -> list X -> Prop :=
| NoText after : leftmost after "" []
| Find after s x rest l : found after s x rest -> leftmost false rest l -> leftmost after s (x :: l)
| NoFind after c s l : (forall x rest, ~ found after (String c s) x rest) -> leftmost (is_word c) s l -> leftmost after (String c s) l.

Context (step : bool -> string -> option (X * string)).
Fixpoint search (fuel : nat) (after : bool) (s : string) : list X :=
  match fuel, s with
  | S fuel, String c s' =>
      match step after s with
      | Some (x, rest) => x :: search fuel false rest
      | None => search fuel (is_word c) s'
      end
  | _, _ => []
  end.

Context (Hstep : forall after s x rest, step after s = Some (x, rest) <-> found after s x rest)
  (Hless : forall after s x rest, found after s x rest -> (slen rest < slen s)%nat).

Lemma leftmost_search after s l : leftmost after s l -> forall fuel, (slen s <= fuel)%nat -> l = search fuel after s.
Proof.
  induction 1 as [after|after s x rest l Hf Hl IH|after c s l Hn Hl IH]; intros fuel Hfuel; [by destruct fuel| |].
  - pose proof (Hless _ _ _ _ Hf). destruct s as [|c s]; [unfold slen in *; simpl in *; lia|]. destruct fuel as [|fuel]; [unfold slen in *; simpl in *; lia|].
    cbn [search]. apply Hstep in Hf. rewrite Hf. f_equal. apply IH. lia.
  - destruct fuel as [|fuel]; [unfold slen in *; simpl in *; lia|]. cbn [search].
    destruct (step after (String c s)) as [[x rest]|] eqn:E; [apply Hstep in E; by destruct (Hn x rest)|].
    apply IH. unfold slen in *. simpl in *. lia.
Qed.

Lemma search_leftmost fuel : forall after s, (slen s <= fuel)%nat -> leftmost after s (search fuel after s).
Proof.
  induction fuel as [|fuel IH]; intros after [|c s] Hfuel; try by constructor.
  { unfold slen in Hfuel. simpl in Hfuel. lia. }
  cbn [search]. destruct (step after (String c s)) as [[x rest]|] eqn:E.
  - apply Hstep in E. pose proof (Hless _ _ _ _ E). eapply Find; [done|]. apply IH. lia.
  - constructor; [intros x rest Hf%Hstep; congruence|]. apply IH. unfold slen in *. simpl in *. lia.
Qed.

Lemma leftmost_iff after s l : leftmost after s l <-> l = search (slen s) after s.
Proof. split; [intros Hl; by apply leftmost_search|]. intros ->. by apply search_leftmost. Qed.
End Leftmost.

Definition all_of (P : ascii -> bool) (s : string) : Prop := string_forall P s = true.
Definition starts_with_one (P : ascii -> bool) (s : string) : Prop := match s with String c _ => P c = true | EmptyString => False end.
Definition alphanumeric (c : ascii) : bool := is_alpha c || is_digit c.
Definition capital_or_digit (c : ascii) : bool := is_upper c || is_digit c.

(** [a.k.a. 'name'], [f.k.a.] or [n.k.a.], in any case and at the start of a word. *)
Definition alias_at (after : bool) (s name rest : string) : Prop :=
  after = false /\ exists marker blanks, s = marker +:+ blanks +:+ String apostrophe (name +:+ String apostrophe rest) /\
    In (toLowerCase marker) ["a.k.a."; "f.k.a."; "n.k.a."] /\ all_of is_space blanks /\ name <> "" /\ lacks apostrophe name.

(** [Digital Currency Address - XBT 1abc], to the end of the address. *)
Definition address_at (after : bool) (s : string) (ca : string * string) (rest : string) : Prop :=
  exists blanks, s = "Digital Currency Address - " +:+ fst ca +:+ blanks +:+ snd ca +:+ rest /\
    fst ca <> "" /\ all_of capital_or_digit (fst ca) /\ blanks <> "" /\ all_of is_space blanks /\
    snd ca <> "" /\ all_of alphanumeric (snd ca) /\ ~ starts_with_one alphanumeric rest.

Lemma all_of_cons p c s : all_of p (String c s) <-> p c = true /\ all_of p s.
Proof. unfold all_of, string_forall. cbn [string_to_list forallb]. apply andb_true_iff. Qed.

Lemma span_split p s : exists t r, span p s = (t, r) /\ s = t +:+ r /\ all_of p t /\ ~ starts_with_one p r.
Proof.
  induction s as [|c s (t & r & E & -> & Ht & Hr)]; [exists "", ""; by repeat split; [..|intros []]|].
  cbn [span]. destruct (p c) eqn:Ec.
  - exists (String c t), r. rewrite E. split; [done|]. split; [by rewrite string_cons_app|]. split; [|done]. by apply all_of_cons.
  - exists "", (String c (t +:+ r)). split; [done|]. split; [done|]. split; [done|]. cbn. by rewrite Ec.
Qed.

Lemma span_exact p t r : all_of p t -> ~ starts_with_one p r -> span p (t +:+ r) = (t, r).
Proof.
  intros Ht Hr. induction t as [|c t IH].
  - change ("" +:+ r) with r. destruct r as [|d r]; [done|]. cbn in Hr |- *. by rewrite (not_true_is_false _ Hr).
  - apply all_of_cons in Ht as [Hc Ht]. rewrite string_cons_app. cbn [span]. by rewrite Hc, IH.
Qed.

Lemma take_drop_string n s : string_take n s +:+ string_drop n s = s.
Proof.
  rewrite <- (list_to_string_to_list (string_take n s +:+ string_drop n s)), string_to_list_app. unfold string_take, string_drop.
  by rewrite !string_to_list_to_string, take_drop, list_to_string_to_list.
Qed.

Lemma alias_step (after : bool) s name rest : (if after then None else match_aka s) = Some (name, rest) <-> alias_at after s name rest.
Proof.
  unfold alias_at. destruct after; [split; [done|by intros []]|]. unfold match_aka. cbv zeta. split.
  - destruct (bool_decide (toLowerCase (string_take 6 s) = _) || _ || _) eqn:Em; [|done].
    assert (Hm : In (toLowerCase (string_take 6 s)) ["a.k.a."; "f.k.a."; "n.k.a."]).
    { apply orb_true_iff in Em as [[E%bool_decide_eq_true|E%bool_decide_eq_true]%orb_true_iff|E%bool_decide_eq_true]; rewrite E; simpl; auto. }
    clear Em.
    pose proof (take_drop_string 6 s) as Es. set (head := string_take 6 s) in *. clearbody head.
    destruct (span_split is_space (string_drop 6 s)) as (blanks & r & E & Ed & Hb & Hr). rewrite E. cbn [snd].
    destruct r as [|c r]; [done|]. case_bool_decide as Ec; [|done]. subst c.
    destruct (span_split (fun c => negb (bool_decide (c = apostrophe))) r) as (nm & r' & E' & Er & Hn & Hr'). rewrite E'.
    destruct nm as [|n nm]; [done|]. destruct r' as [|c r']; [done|]. intros [= <- <-]. split; [done|].
    cbn in Hr'. apply not_true_is_false in Hr'. apply negb_false_iff, bool_decide_eq_true in Hr'. subst c.
    exists head, blanks. split; [by rewrite <- Es, Ed, Er|]. by repeat split.
  - intros (_ & marker & blanks & -> & Hm & Hb & Hne & Hn).
    assert (Hlen : slen marker = 6%nat) by (rewrite <- (slen_map to_lower); fold (toLowerCase marker); by destruct Hm as [<-|[<-|[<-|[]]]]).
    rewrite string_take_app_exact, string_drop_app_exact by done.
    match goal with |- context [if ?b then _ else _] => replace b with true end;
      [|symmetry; rewrite !orb_true_iff, !bool_decide_eq_true; destruct Hm as [<-|[<-|[<-|[]]]]; auto].
    rewrite span_exact by done. cbn [snd]. rewrite bool_decide_true by done.
    rewrite (span_exact _ name (String apostrophe rest)); [by destruct name|done|]. cbn. by rewrite bool_decide_true.
Qed.

Lemma alias_shorter after s name rest : alias_at after s name rest -> (slen rest < slen s)%nat.
Proof. intros (_ & m & b & -> & _). rewrite !slen_app. unfold slen. cbn [string_to_list List.length]. rewrite string_to_list_app, length_app. simpl. lia. Qed.

Lemma akas_search fuel after s : akas fuel after s = search (fun after s => if after then None else match_aka s) fuel after s.
Proof.
  by revert after s; induction fuel as [|fuel IH]; intros after [|c s].
Qed.

Lemma aliases_akas after s l : leftmost alias_at after s l <-> l = akas (slen s) after s.
Proof. rewrite akas_search. apply leftmost_iff; [apply alias_step|apply alias_shorter]. Qed.

Lemma address_step (after : bool) s ca rest : match_address s = Some (ca, rest) <-> address_at after s ca rest.
Proof.
  destruct ca as [coin address]. unfold address_at, match_address. cbn [fst snd]. split.
  - destruct (starts_with DIGITAL_PREFIX s) eqn:Ep; [|done]. apply starts_with_drop in Ep.
    destruct (span_split capital_or_digit (string_drop (slen DIGITAL_PREFIX) s)) as (c & s1 & E1' & Ed1 & Hc & Hs1).
    change (fun c => is_upper c || is_digit c) with capital_or_digit. rewrite E1'.
    destruct (span_split is_space s1) as (b & s2 & E2 & Ed2 & Hb & Hs2). rewrite E2.
    change (fun c => is_alpha c || is_digit c) with alphanumeric.
    destruct (span_split alphanumeric s2) as (a & s3 & E3 & Ed3 & Ha & Hs3). rewrite E3.
    destruct (bool_decide (c = "") || _ || _) eqn:En; [done|]. intros [= <- <- <-].
    apply orb_false_iff in En as [[H1%bool_decide_eq_false H2%bool_decide_eq_false]%orb_false_iff H3%bool_decide_eq_false].
    exists b. split; [rewrite Ep, Ed1, Ed2, Ed3 at 1; done|]. by repeat split.
  - intros (b & -> & Hc & Hac & Hb & Hab & Ha & Haa & Hr). fold DIGITAL_PREFIX. rewrite starts_with_append, string_drop_app_exact by done.
    change (fun c => is_upper c || is_digit c) with capital_or_digit. change (fun c => is_alpha c || is_digit c) with alphanumeric.
    assert (Hhead : forall p q t r, t <> "" -> all_of q t -> (forall c, q c = true -> p c = false) -> ~ starts_with_one p (t +:+ r)).
    { intros p q [|x t] r Hne Ht Hpq; [done|]. apply all_of_cons in Ht as [Hx _]. rewrite string_cons_app. intros E. cbn in E. by rewrite (Hpq x Hx) in E. }
    assert (Hspace : forall c, is_space c = true -> capital_or_digit c = false)
      by (intros c; unfold is_space, capital_or_digit, is_upper, is_digit; lia).
    assert (Halnum : forall c, alphanumeric c = true -> is_space c = false)
      by (intros c; unfold is_space, alphanumeric, is_alpha, is_upper, is_digit; lia).
    rewrite span_exact; [|done|by eapply Hhead]. rewrite span_exact; [|done|by eapply Hhead]. rewrite span_exact by done.
    by rewrite !bool_decide_false.
Qed.

Lemma address_shorter after s ca rest : address_at after s ca rest -> (slen rest < slen s)%nat.
Proof. intros (b & -> & _). rewrite !slen_app. unfold slen at 2. cbn [string_to_list List.length]. lia. Qed.

Lemma addresses_search fuel after s : digital_addresses fuel s = search (fun _ => match_address) fuel after s.
Proof.
  revert after s. induction fuel as [|fuel IH]; intros after [|c s]; try done. cbn [digital_addresses search].
  destruct (match_address (String c s)) as [[[coin address] rest]|]; [f_equal|]; apply IH.
Qed.

Lemma addresses_found after s l : leftmost address_at after s l <-> l = digital_addresses (slen s) s.
Proof. rewrite (addresses_search _ after). apply leftmost_iff; [apply address_step|apply address_shorter]. Qed.

(** ** What the files publish *)
(** A cell that says something: its trimmed text, when that is neither empty nor the list's [-0-]. *)
Definition filled (r : list string) (i : nat) (t : string) : Prop :=
  exists v, nth_error r i = Some v /\ trim v = t /\ t <> "" /\ t <> "-0-".
Definition blank (r : list string) (i : nat) : Prop := forall t, ~ filled r i t.

Inductive remarks_hold (r : list string) : list string -> list (string * string) -> Prop :=
| NoRemarks : blank r 11 -> remarks_hold r [] []
| Remarks t aliases found : filled r 11 t -> leftmost alias_at false t aliases -> leftmost address_at false t found ->
    remarks_hold r aliases found.

(** A row of the list publishes its name and the aliases in its remarks, and the addresses there, under its id. *)
Inductive sdn_listing (r : list string) : list (string * string) -> list (string * string * string) -> Prop :=
| SdnBlank : blank r 0 \/ blank r 1 -> sdn_listing r [] []
| SdnListed ent name aliases found : filled r 0 ent -> filled r 1 name -> remarks_hold r aliases found ->
    sdn_listing r (List.map (fun n => (n, ent)) (name :: aliases)) (List.map (fun ca => (ca, ent)) found).
Inductive alt_listing (r : list string) : list (string * string) -> Prop :=
| AltBlank : blank r 0 \/ blank r 3 -> alt_listing r []
| AltListed ent alias : filled r 0 ent -> filled r 3 alias -> alt_listing r [(alias, ent)].

(** The listings of the rows of both files, in order. *)
Inductive published : list (list string) -> list (string * string) -> list (string * string * string) -> Prop :=
| NothingPublished : published [] [] []
| RowPublished r rows ns ads ns' ads' : sdn_listing r ns ads -> published rows ns' ads' -> published (r :: rows) (ns ++ ns') (ads ++ ads').
Inductive also_published : list (list string) -> list (string * string) -> Prop :=
| NothingElse : also_published [] []
| AlsoPublished r rows ns ns' : alt_listing r ns -> also_published rows ns' -> also_published (r :: rows) (ns ++ ns').

Lemma filled_clean r i t : filled r i t <-> clean (nth_error r i) = t /\ t <> "".
Proof.
  unfold filled, clean. destruct (nth_error r i) as [v|]; [|by split; [intros (v & [=] & _)|intros [<- Hn]]].
  split.
  - intros (v' & [= <-] & <- & H1 & H2). rewrite !bool_decide_false; [done|done|]. by intros ->.
  - intros [E Ht]. exists v. destruct (bool_decide (v = "")) eqn:Ev; [by subst|]. case_bool_decide as En; cbn in E; [by subst|].
    by subst.
Qed.

Lemma blank_clean r i : blank r i <-> clean (nth_error r i) = "".
Proof.
  split.
  - intros Hb. destruct (decide (clean (nth_error r i) = "")) as [|Hn]; [done|]. destruct (Hb (clean (nth_error r i))). by apply filled_clean.
  - intros E t [Ht Hn]%filled_clean. congruence.
Qed.

(** The listings the code reads from a row. *)
Definition sdn_names (r : list string) : list (string * string) :=
  let entNum := clean (nth_error r 0) in
  let name := clean (nth_error r 1) in
  if bool_decide (entNum = "") || bool_decide (name = "") then []
  else let remarks := clean (nth_error r 11) in
       List.map (fun n => (n, entNum)) (name :: akas (slen remarks) false remarks).

Definition sdn_addresses (r : list string) : list (string * string * string) :=
  let entNum := clean (nth_error r 0) in
  let name := clean (nth_error r 1) in
  if bool_decide (entNum = "") || bool_decide (name = "") then []
  else let remarks := clean (nth_error r 11) in
       List.map (fun m => (m, entNum)) (digital_addresses (slen remarks) remarks).

Definition alt_names (r : list string) : list (string * string) :=
  let entNum := clean (nth_error r 0) in
  let alias := clean (nth_error r 3) in
  if negb (bool_decide (entNum = "")) && negb (bool_decide (alias = "")) then [(alias, entNum)] else [].

Lemma remarks_read r aliases found : remarks_hold r aliases found <->
  let remarks := clean (nth_error r 11) in aliases = akas (slen remarks) false remarks /\ found = digital_addresses (slen remarks) remarks.
Proof.
  cbv zeta. split.
  - intros [->%blank_clean|t als ads [E _]%filled_clean ->%aliases_akas ->%addresses_found]; [done|by rewrite E].
  - intros [-> ->]. destruct (decide (clean (nth_error r 11) = "")) as [E|Hn].
    + rewrite E. constructor. by apply blank_clean.
    + econstructor; [by apply filled_clean|by apply aliases_akas|by apply addresses_found].
Qed.

Lemma sdn_listing_read r ns ads : sdn_listing r ns ads <-> ns = sdn_names r /\ ads = sdn_addresses r.
Proof.
  unfold sdn_names, sdn_addresses. cbv zeta. split.
  - intros [Hb|ent name aliases found [E0 H0]%filled_clean [E1' H1']%filled_clean [-> ->]%remarks_read].
    + destruct Hb as [->%blank_clean| ->%blank_clean]; [done|]. by rewrite orb_true_r.
    + by rewrite E0, E1', !bool_decide_false.
  - intros [-> ->]. destruct (bool_decide _ || bool_decide _) eqn:E.
    + apply orb_true_iff in E as [E%bool_decide_eq_true|E%bool_decide_eq_true]; constructor; [left|right]; by apply blank_clean.
    + apply orb_false_iff in E as [H0%bool_decide_eq_false H1'%bool_decide_eq_false].
      constructor; [by apply filled_clean..|by apply remarks_read].
Qed.

Lemma alt_listing_read r ns : alt_listing r ns <-> ns = alt_names r.
Proof.
  unfold alt_names. cbv zeta. split.
  - intros [[->%blank_clean| ->%blank_clean]|ent alias [-> H0]%filled_clean [-> H1']%filled_clean]; [done|by rewrite andb_false_r|].
    by rewrite !bool_decide_false.
  - intros ->. do 2 case_bool_decide; constructor; try (by (left; apply blank_clean)); try (by (right; apply blank_clean)); by apply filled_clean.
Qed.

Lemma published_read rows ns ads : published rows ns ads <->
  ns = List.concat (List.map sdn_names rows) /\ ads = List.concat (List.map sdn_addresses rows).
Proof.
  split.
  - induction 1 as [|r rows ns ads ns' ads' [-> ->]%sdn_listing_read _ [-> ->]]; done.
  - intros [-> ->]. induction rows as [|r rows IH]; constructor; [by apply sdn_listing_read|done].
Qed.
Lemma also_published_read rows ns : also_published rows ns <-> ns = List.concat (List.map alt_names rows).
Proof.
  split.
  - induction 1 as [|r rows ns ns' ->%alt_listing_read _ ->]; done.
  - intros ->. induction rows as [|r rows IH]; constructor; [by apply alt_listing_read|done].
Qed.

(** ** What the list holds *)
(** The listings of [name]'s key that are kept; the last listing of [account], letter case aside. *)
Definition name_hits (l : list (string * string)) (name : string) : list Hit :=
  List.map (fun ne => MkHit (fst ne) (snd ne))
    (List.filter (fun ne => (5 <=? slen (nameKey (fst ne)))%nat && bool_decide (nameKey (fst ne) = nameKey name)) l).
Definition address_hit (l : list (string * string * string)) (account : string) : option Hit :=
  (fun a => MkHit (fst (fst a) +:+ " " +:+ snd (fst a)) (snd a)) <$>
  List.find (fun a => bool_decide (js_toUpperCase (snd (fst a)) = js_toUpperCase account)) (rev l).

(** The list holds the names [ns] and addresses [ads]. *)
Definition holds (l : SanctionsList) (ns : list (string * string)) (ads : list (string * string * string)) : Prop :=
  (forall name, default [] (names l !! nameKey name) = name_hits ns name) /\
  (forall account, addresses l !! js_toUpperCase account = address_hit ads account).

Lemma holds_name l ns ads name ent : holds l ns ads -> holds (addName l name name ent) (ns ++ [(name, ent)]) ads.
Proof.
  intros [Hn Ha]. split; [|unfold addName; by case_match]. intros name'. specialize (Hn name').
  unfold addName, name_hits in *. rewrite List.filter_app, List.map_app. cbn [List.filter fst snd].
  destruct (Nat.ltb_spec (slen (nameKey name)) 5), (Nat.leb_spec 5 (slen (nameKey name))); try lia; cbn [andb].
  { by rewrite app_nil_r. }
  case_bool_decide as E; cbn [names].
  - rewrite E, lookup_insert_eq. cbn [default]. by rewrite <- Hn.
  - rewrite lookup_insert_ne by done. by rewrite app_nil_r.
Qed.

Lemma holds_address l ns ads coin address ent :
  holds l ns ads -> holds (addAddress l coin address ent) ns (ads ++ [(coin, address, ent)]).
Proof.
  intros [Hn Ha]. split; [done|]. intros account. specialize (Ha account). unfold addAddress, address_hit in *.
  rewrite rev_app_distr. cbn [addresses rev app List.find fst snd]. case_bool_decide as E.
  - by rewrite E, lookup_insert_eq.
  - by rewrite lookup_insert_ne.
Qed.

Lemma holds_names l ns ads xs ent :
  holds l ns ads -> holds (foldl (fun l m => addName l m m ent) l xs) (ns ++ List.map (fun n => (n, ent)) xs) ads.
Proof.
  revert l ns. induction xs as [|x xs IH]; intros l ns Hl; simpl; [by rewrite app_nil_r|].
  rewrite cons_middle, app_assoc. by apply IH, holds_name.
Qed.

Lemma holds_addresses l ns ads xs ent :
  holds l ns ads ->
  holds (foldl (fun l m => addAddress l (fst m) (snd m) ent) l xs) ns (ads ++ List.map (fun m => (m, ent)) xs).
Proof.
  revert l ads. induction xs as [|[coin address] xs IH]; intros l ads Hl; simpl; [by rewrite app_nil_r|].
  rewrite cons_middle, app_assoc. by apply IH, holds_address.
Qed.

Lemma holds_sdn_row l ns ads r : holds l ns ads -> holds (add_sdn_row l r) (ns ++ sdn_names r) (ads ++ sdn_addresses r).
Proof.
  intros Hl. unfold add_sdn_row, sdn_names, sdn_addresses. cbv zeta.
  case_match; [by rewrite !app_nil_r|]. apply holds_addresses. cbn [List.map].
  rewrite cons_middle, app_assoc. by apply holds_names, holds_name.
Qed.

Lemma holds_alt_row l ns ads r : holds l ns ads -> holds (add_alt_row l r) (ns ++ alt_names r) ads.
Proof.
  intros Hl. unfold add_alt_row, alt_names. cbv zeta. case_match; [by apply holds_name|by rewrite app_nil_r].
Qed.

Lemma holds_sdn rows l ns ads : holds l ns ads ->
  holds (foldl add_sdn_row l rows) (ns ++ List.concat (List.map sdn_names rows)) (ads ++ List.concat (List.map sdn_addresses rows)).
Proof.
  revert l ns ads. induction rows as [|r rows IH]; intros l ns ads Hl; simpl; [by rewrite !app_nil_r|].
  rewrite !app_assoc. by apply IH, holds_sdn_row.
Qed.

Lemma holds_alt rows l ns ads : holds l ns ads ->
  holds (foldl add_alt_row l rows) (ns ++ List.concat (List.map alt_names rows)) ads.
Proof.
  revert l ns. induction rows as [|r rows IH]; intros l ns Hl; simpl; [by rewrite app_nil_r|].
  rewrite !app_assoc. by apply IH, holds_alt_row.
Qed.

(** A blank line says nothing. *)
Lemma blank_lines {X} (f : list string -> list X) rows : f [""] = [] ->
  List.concat (List.map f (List.filter (fun r => negb (bool_decide (r = [""]))) rows)) = List.concat (List.map f rows).
Proof.
  intros Hf. induction rows as [|r rows IH]; [done|]. cbn [List.filter]. case_bool_decide as E; cbn [negb List.map List.concat]; [|by rewrite IH].
  by rewrite E, Hf.
Qed.

(** A file that may be missing. *)
Definition csv_file_or_none (rows : list (list string)) (text : option string) : Prop :=
  match text with Some text => csv_file rows text | None => rows = [] end.

Lemma holds_new sdn sdn_text alt alt_text ns ads alts : csv_file sdn sdn_text -> csv_file_or_none alt alt_text ->
  published sdn ns ads -> also_published alt alts -> holds (newSanctionsList sdn_text alt_text) (ns ++ alts) ads.
Proof.
  intros Hs Ha [-> ->]%published_read ->%also_published_read.
  pose proof (holds_sdn (parseCsv sdn_text) (SList ∅ ∅ 0) [] []) as H1'. rewrite (csv_parses sdn sdn_text Hs), !blank_lines in H1' by done.
  specialize (H1' (conj (fun _ => eq_refl) (fun _ => eq_refl))). cbn [app] in H1'.
  unfold newSanctionsList. cbv zeta. rewrite (csv_parses sdn sdn_text Hs).
  set (l := foldl add_sdn_row (SList ∅ ∅ 0) _) in *. set (n := List.length _).
  assert (H2' : holds (SList (names l) (addresses l) n) (List.concat (List.map sdn_names sdn)) (List.concat (List.map sdn_addresses sdn))) by exact H1'.
  destruct alt_text as [text|]; cbn in Ha; [|subst alt; cbn; by rewrite app_nil_r].
  apply (holds_alt (parseCsv text)) in H2'. rewrite (csv_parses alt text Ha), blank_lines in H2' by done.
  case_bool_decide as E; [|by rewrite (csv_parses alt text Ha)].
  rewrite <- (blank_lines alt_names alt), <- (csv_parses alt text Ha), E in H2' |- * by done. exact H2'.
Qed.

(** ** What a name finds *)
(** The sublist of the elements satisfying [P]. *)
Inductive picks {X} (P : X -> Prop) : list X -> list X -> Prop :=
| PicksEnd : picks P [] []
| Picked x l l' : P x -> picks P l l' -> picks P (x :: l) (x :: l')
| Passed x l l' : ~ P x -> picks P l l' -> picks P (x :: l) l'.

Lemma picks_filter {X} (P : X -> Prop) (f : X -> bool) l : (forall x, f x = true <-> P x) -> picks P l (List.filter f l).
Proof.
  intros Hf. induction l as [|x l IH]; [constructor|]. cbn [List.filter]. destruct (f x) eqn:E; constructor; try done; [by apply Hf|].
  intros Hx%Hf. congruence.
Qed.

(** A listed name is known by the words [name] is known by, at least five characters as written. *)
Definition same_words (name : string) (listing : string * string) : Prop :=
  exists wl wn, words_of (fst listing) wl /\ words_of name wn /\ known_by wl ≡ₚ known_by wn /\ (5 <= written_length (known_by wl))%nat.

Lemma same_words_key name listing :
  (5 <=? slen (nameKey (fst listing)))%nat && bool_decide (nameKey (fst listing) = nameKey name) = true <-> same_words name listing.
Proof.
  rewrite andb_true_iff, bool_decide_eq_true, Nat.leb_le, same_key, slen_nameKey. unfold same_words. split.
  - intros [Hl Hp]. exists (name_tokens (fst listing)), (name_tokens name). by rewrite !words_of_tokens.
  - by intros (wl & wn & ->%words_of_tokens & ->%words_of_tokens & Hp & Hl).
Qed.

(** C34. Screening a party against the list finds every listing, and nothing else: of the published names,
    those in the remarks and the alias file included, all that are known by the words the party's legal name
    is known by, save those under five characters; and the last listing of each of its accounts.  The files
    may be any CSV, their fields in quotes or bare, their lines ended either way; the names and addresses
    they publish are read off the cells and the remarks from left to right. *)
Theorem screening_finds_every_listing sdn sdn_text alt alt_text ns ads alts (subject : ScreeningSubject)
    (Hs : csv_file sdn sdn_text) (Ha : csv_file_or_none alt alt_text) (Hp : published sdn ns ads) (Hq : also_published alt alts) :
  exists hits, (match ss_legalName subject with
                | Some name => if decide (name = "") then hits = [] else picks (same_words name) (ns ++ alts) hits
                | None => hits = []
                end) /\
  screen (newSanctionsList sdn_text alt_text) subject =
    List.map (fun listing => Match NameMatch (fst listing) (snd listing)) hits ++
    List.concat (List.map (fun account => match address_hit ads account with
                                          | Some h => [Match AddressMatch (h_listed h) (h_entNum h)] | None => [] end)
                   (ss_stellarAccounts subject)).
Proof.
  destruct (holds_new sdn sdn_text alt alt_text ns ads alts Hs Ha Hp Hq) as [Hn Hads].
  exists (match ss_legalName subject with
    | Some name => if decide (name = "") then [] else
        List.filter (fun ne => (5 <=? slen (nameKey (fst ne)))%nat && bool_decide (nameKey (fst ne) = nameKey name)) (ns ++ alts)
    | None => [] end). split.
  - destruct (ss_legalName subject) as [name|]; [|done]. destruct (decide (name = "")); [done|]. apply picks_filter, same_words_key.
  - unfold screen. f_equal; [|f_equal; apply List.map_ext; intros a; by rewrite Hads].
    destruct (ss_legalName subject) as [name|]; [|done]. rewrite Hn. unfold name_hits. rewrite List.map_map.
    by destruct (decide (name = "")); [rewrite bool_decide_true|rewrite bool_decide_false].
Qed.
End WithUnicode.

(** ** Concrete files *)
(** A printer: fields in quotes where they must be. *)
Definition bare_field (f : string) : bool :=
  string_forall (fun c => negb (bool_decide (c = quote) || bool_decide (c = ","%char) || bool_decide (c = cr) || bool_decide (c = lf))) f.
Definition print_field (f : string) : string := if bare_field f then f else String quote (double_quotes f +:+ String quote "").
Fixpoint print_row (r : list string) : string :=
  match r with [] => "" | [f] => print_field f | f :: r => print_field f +:+ String "," (print_row r) end.
Fixpoint print_csv (rows : list (list string)) : string :=
  match rows with [] => "" | r :: rows => print_row r +:+ String lf "" +:+ print_csv rows end.

Lemma printed_field f : csv_field f (print_field f).
Proof.
  unfold print_field. destruct (bare_field f) eqn:E; constructor. apply List.Forall_forall. intros c Hc.
  unfold bare_field, string_forall in E. rewrite forallb_forall in E. specialize (E c Hc).
  apply negb_true_iff in E. rewrite !orb_false_iff, !bool_decide_eq_false in E. intros [<-|[<-|[<-|[<-|[]]]]]; tauto.
Qed.

Lemma printed_file rows : Forall (fun r => r <> []) rows -> csv_file rows (print_csv rows).
Proof.
  induction 1 as [|r rows Hr _ IH]; [constructor|]. cbn [print_csv]. constructor; [|by left|done]. clear IH.
  induction r as [|f r IH]; [done|]. destruct r as [|g r]; constructor; try apply printed_field. by apply IH.
Qed.

Definition sample_sdn : list (list string) :=
  [["306"; "BANCO, NACIONAL"; ""; ""; ""; ""; ""; ""; ""; ""; ""; "a.k.a. 'BNC'; f.k.a. 'Banco Viejo'. Digital Currency Address - XBT 1aB"];
   ["307"; "ISIS"]].
Definition sample_alt : list (list string) := [["306"; "7"; "aka"; "BANQUE NATIONALE"]].
Definition sample_listings : list (string * string) :=
  [("BANCO, NACIONAL", "306"); ("BNC", "306"); ("Banco Viejo", "306"); ("ISIS", "307")].

Lemma screening_finds_every_listing_witness :
  exists hits, picks (@same_words ascii_text "viejo Banco Ltd.") (sample_listings ++ [("BANQUE NATIONALE", "306")]) hits /\
    @screen ascii_text (@newSanctionsList ascii_text (print_csv sample_sdn) (Some (print_csv sample_alt))) (Subject (Some "viejo Banco Ltd.") ["1Ab"]) =
    List.map (fun listing => Match NameMatch (fst listing) (snd listing)) hits ++ [Match AddressMatch "XBT 1aB" "306"].
Proof.
  refine (@screening_finds_every_listing ascii_text sample_sdn (print_csv sample_sdn) sample_alt (Some (print_csv sample_alt))
    sample_listings [("XBT", "1aB", "306")] [("BANQUE NATIONALE", "306")] (Subject (Some "viejo Banco Ltd.") ["1Ab"]) _ _ _ _).
  - apply printed_file. by repeat constructor.
  - apply printed_file. by repeat constructor.
  - apply published_read. by vm_compute.
  - apply also_published_read. by vm_compute.
Defined.

(** The same words in another order and a legal form are found; a listing of four characters is not. *)
Example short_names_are_not_screened :
  let list := @newSanctionsList ascii_text (print_csv sample_sdn) None in
  @screen ascii_text list (Subject (Some "viejo Banco Ltd.") []) = [Match NameMatch "Banco Viejo" "306"] /\
  @screen ascii_text list (Subject (Some "ISIS") []) = [].
Proof. by vm_compute. Qed.
