(* ===== verification/Compliance.v ===== *)
(** [services/api/src/compliance]: the gate in front of the routes that take on risk ([gate.ts]), the
    hook that runs it ([hook.ts]) and the screener that keeps the sanctions list fresh
    ([screener.ts]). *)
From S2P Require Import Prelude Prog Schema Rules Sanctions.

(** ** screener.ts *)
Definition ScreeningUnavailableError (m : string) : exn := Exn "ScreeningUnavailableError" m.
Definition is_unavailable (e : exn) : bool := bool_decide (exn_class e = "ScreeningUnavailableError").

Record ScreenResult := Screened { sc_matches : list SanctionsMatch; sc_listSource : string; sc_listLoadedAt : Z }.

Definition OFAC_SDN_URL : string := "https://sanctionslistservice.ofac.treas.gov/api/PublicationPreview/exports/SDN.CSV".
Definition OFAC_ALT_URL : string := "https://sanctionslistservice.ofac.treas.gov/api/PublicationPreview/exports/ALT.CSV".

(** The response to a download: its status and text. *)
Inductive ScreenerCall : Type -> Type :=
| FetchText (url : string) : ScreenerCall (Z * string).
Notation screener_prog := (prog unit ScreenerCall unit).

Record OfacScreenerOptions := ScreenerOptions { sdnUrl : string; altUrl : string; refreshMs : Z; maxAgeMs : Z }.
Definition default_options : OfacScreenerOptions :=
  ScreenerOptions OFAC_SDN_URL OFAC_ALT_URL (12 * 3600 * 1000) (7 * 24 * 3600 * 1000).

(** [list] and [loadedAt]; [inFlight] is only ever set while a load is awaited. *)
Record OfacScreener := Screener { os_list : option SanctionsList; os_loadedAt : Z }.
Definition new_screener : OfacScreener := Screener None 0.

Section Ofac.
Context `{Unicode} (options : OfacScreenerOptions).

Definition download (url : string) : screener_prog string :=
  res <- call (FetchText url) ;;
  if negb ((200 <=? fst res) && (fst res <=? 299))
  then Throw (Error (url +:+ " responded " +:+ Z_to_string (fst res))) else Ret (snd res).

Definition load : screener_prog OfacScreener :=
  sdn <- download (sdnUrl options) ;;
  alt <- catch (alt <- download (altUrl options) ;; Ret (Some alt)) (fun _ => Ret None) ;;
  let l := newSanctionsList sdn alt in
  if (entries l <? 1000)%nat
  then Throw (Error ("SDN list looks truncated (" +:+ Z_to_string (Z.of_nat (entries l)) +:+ " rows)"))
  else s <- sample ;; Ret (Screener (Some l) (st_now s)).

Definition ensureFresh (st : OfacScreener) : screener_prog OfacScreener :=
  s <- sample ;;
  let age := st_now s - os_loadedAt st in
  match os_list st with
  | Some _ =>
      if age <? refreshMs options then Ret st
      else catch load (fun err =>
        if age <? maxAgeMs options then Ret st
        else Throw (ScreeningUnavailableError ("sanctions list unavailable: " +:+ exn_message err)))
  | None => catch load (fun err => Throw (ScreeningUnavailableError ("sanctions list unavailable: " +:+ exn_message err)))
  end.

Definition ofac_screen (st : OfacScreener) (subject : ScreeningSubject) : screener_prog (ScreenResult * OfacScreener) :=
  st <- ensureFresh st ;;
  match os_list st with
  | Some l => Ret (Screened (screen l subject) "OFAC SDN" (os_loadedAt st), st)
  | None => Throw (Exn "TypeError" "Cannot read properties of undefined (reading 'screen')")
  end.
End Ofac.

(** ** gate.ts *)
(** The gate asks a [SanctionsScreener]. *)
Inductive ComplianceCall : Type -> Type :=
| Screen (subject : ScreeningSubject) : ComplianceCall ScreenResult.
Notation gate_prog := (prog Database ComplianceCall unit).
Notation gate_world := (world Database ComplianceCall unit).

Definition SCREENING_TTL_MS : Z := 24 * 3600 * 1000.

Record Hold := MkHold { hd_status : Z; hd_error_text : string }.

Notation Check := complianceCheck_row.

Definition match_json (m : SanctionsMatch) : jsval :=
  JObj [("type", JStr (match sm_type m with NameMatch => "name" | AddressMatch => "address" end));
        ("listed", JStr (sm_listed m)); ("entNum", JStr (sm_entNum m))].

Definition manual_clear (c : Check) : bool :=
  eqs (cc_result c) "clear" && match cc_listSource c with Some s => starts_with "manual review by " s | None => false end.

Definition is_match (c : Check) : bool :=
  eqs (cc_result c) "match" && match cc_matches c with JArr _ => true | _ => false end.

Definition ent_nums (c : Check) : list string :=
  match cc_matches c with
  | JArr l => List.concat (List.map (fun m => match js_get "entNum" m with JStr s => [s] | _ => [] end) l)
  | _ => []
  end.

(** The listings a person reviewed and cleared: those of the last match before each manual clear, in
    the history [allChecks], newest first. *)
Fixpoint reviewedEntNums (allChecks : list Check) : list string :=
  match allChecks with
  | [] => []
  | c :: rest =>
      (if manual_clear c then match List.find is_match rest with Some prior => ent_nums prior | None => [] end else [])
      ++ reviewedEntNums rest
  end.

Definition HOLD_REVIEW : Hold := MkHold 403 "compliance hold: sanctions screening needs review".

Definition sanctions_of (partyId : string) (c : Check) : bool := eqs (cc_partyId c) partyId && eqs (cc_kind c) "sanctions".

Definition checkParty (partyId : string) (now : Z) : gate_prog (option Hold) :=
  p <- select_one party (fun p => eqs (pa_id p) partyId) ;;
  match p with
  | None => Ret (Some (MkHold 403 "party not found"))
  | Some p =>
      if negb (eqs (pa_kybStatus p) "approved")
      then Ret (Some (MkHold 403 ("compliance hold: KYB is " +:+ pa_kybStatus p)))
      else
        checks <- stmt (select complianceCheck (sanctions_of partyId)) ;;
        let latest := hd_error (order_desc cc_checkedAt checks) in
        if match latest with Some c => eqs (cc_result c) "match" | None => false end then Ret (Some HOLD_REVIEW)
        else if match latest with Some c => now - cc_checkedAt c <? SCREENING_TTL_MS | None => false end then Ret None
        else
          checks <- stmt (select complianceCheck (sanctions_of partyId)) ;;
          let reviewed := reviewedEntNums (order_desc cc_checkedAt checks) in
          accounts <- stmt (select partyAccount (fun a => eqs (pc_partyId a) partyId)) ;;
          screened <- attempt (call (Screen (Subject (Some (pa_legalName p)) (List.map pc_stellarAccount accounts)))) ;;
          match screened with
          | Err err => if is_unavailable err then Ret (Some (MkHold 503 (exn_message err))) else Throw err
          | Ok result =>
              let unreviewed := List.filter (fun m => negb (existsb (eqs (sm_entNum m)) reviewed)) (sc_matches result) in
              let hit := negb (bool_decide (unreviewed = [])) in
              stmt (insert complianceCheck (fun s => ComplianceCheck (st_uuid s) partyId "sanctions"
                (if hit then "match" else "clear") (JArr (List.map match_json (sc_matches result)))
                (Some (if hit then sc_listSource result
                       else if negb (bool_decide (reviewed = [])) && negb (bool_decide (sc_matches result = []))
                       then sc_listSource result +:+ " (reviewed matches ignored)" else sc_listSource result))
                (Some (sc_listLoadedAt result)) now)) ;;;
              if hit
              then
                stmt (insert auditLog (fun s => AuditLog (st_uuid s) "compliance" "sanctions.match"
                  (JObj [("partyId", JStr partyId); ("matches", JArr (List.map match_json unreviewed))]) None (st_now s))) ;;;
                Ret (Some HOLD_REVIEW)
              else Ret None
          end
  end.

(** ** hook.ts *)
Record GatedRoute := Route { gr_method : string; gr_url : string; gr_counterparties : list (string * jsval) -> list jsval }.

Definition body_get (k : string) (body : list (string * jsval)) : jsval := default JNull (assoc k body).

Definition GATED_ROUTES : list GatedRoute :=
  [Route "POST" "/v1/credit-lines" (fun b => [body_get "borrowerId" b]);
   Route "POST" "/v1/credit-lines/:id/fund" (fun _ => []);
   Route "POST" "/v1/credit-lines/:id/pledges" (fun _ => []);
   Route "POST" "/v1/credit-lines/:id/draws" (fun _ => []);
   Route "POST" "/v1/exit/quotes" (fun _ => []);
   Route "POST" "/v1/exit/quotes/:id/execute" (fun _ => []);
   Route "POST" "/v1/repo/proposals" (fun b => [body_get "cashBorrowerId" b]);
   Route "POST" "/v1/repo/proposals/:id/accept" (fun _ => [])].

(** [new Set(...)]: the first occurrence of each value. *)
Fixpoint unique (seen l : list string) : list string :=
  match l with
  | [] => []
  | s :: l' => if existsb (eqs s) seen then unique seen l' else s :: unique (s :: seen) l'
  end.

(** The route, as registered, and the caller the authentication hook set. *)
Record GatedRequest := GReq { gq_method : string; gq_url : string; gq_partyId : string; gq_body : list (string * jsval) }.

Definition screened_parties (route : GatedRoute) (request : GatedRequest) : list string :=
  unique [] (gq_partyId request ::
    List.concat (List.map (fun v => match v with JStr s => [s] | _ => [] end) (gr_counterparties route (gq_body request)))).

(** The hook's reply, if it replies. *)
Fixpoint gate_all (partyIds : list string) : gate_prog (option Hold) :=
  match partyIds with
  | [] => Ret None
  | p :: rest =>
      s <- sample ;;
      hold <- checkParty p (st_now s) ;;
      match hold with Some h => Ret (Some h) | None => gate_all rest end
  end.

Definition compliance_hook (request : GatedRequest) : gate_prog (option Hold) :=
  match List.find (fun r => eqs (gr_method r) (gq_method request) && eqs (gr_url r) (gq_url request)) GATED_ROUTES with
  | None => Ret None
  | Some route => if eqs (gq_partyId request) "" then Ret None else gate_all (screened_parties route request)
  end.
