(* ===== verification/ComplianceSafety.v ===== *)
(** What the compliance gate guarantees: nobody through without approved KYB and a clear, recent
    screening; and screening only against a sound list. *)
From S2P Require Import Prelude Prog Schema Rules Sanctions Compliance.

(** ** Reviewed matches *)
(** [n] was among the matches of the last match before a manual clear. *)
Definition cleared_by_review (history : list Check) (n : string) : Prop :=
  exists newer c between prior older, history = newer ++ c :: between ++ prior :: older /\
    manual_clear c = true /\ Forall (fun b => is_match b = false) between /\ is_match prior = true /\ In n (ent_nums prior).

Lemma find_split {A} (p : A -> bool) l a :
  List.find p l = Some a <-> exists l1 l2, l = l1 ++ a :: l2 /\ Forall (fun b => p b = false) l1 /\ p a = true.
Proof.
  split.
  - induction l as [|b l IH]; simpl; [done|]. destruct (p b) eqn:E.
    + intros [= ->]. by exists [], l.
    + intros H. destruct (IH H) as (l1 & l2 & -> & H1 & H2). exists (b :: l1), l2. split; [done|]. split; [by constructor|done].
  - intros (l1 & l2 & -> & H1 & H2). induction H1 as [|b l1 Hb _ IH]; simpl; [by rewrite H2|by rewrite Hb].
Qed.

Lemma reviewed_spec history n : In n (reviewedEntNums history) <-> cleared_by_review history n.
Proof.
  unfold cleared_by_review. induction history as [|c rest IH]; simpl.
  - split; [done|]. intros (newer & ? & ? & ? & ? & E & _). by destruct newer.
  - rewrite in_app_iff, IH. split.
    + intros [Hin|(newer & c' & b & p & o & -> & H)]; [|by exists (c :: newer), c', b, p, o].
      destruct (manual_clear c) eqn:Ec; [|done]. destruct (List.find is_match rest) as [prior|] eqn:Ef; [|done].
      apply find_split in Ef as (l1 & l2 & -> & H1 & H2). by exists [], c, l1, prior, l2.
    + intros (newer & c' & b & p & o & E & Hc & Hb & Hp & Hn). destruct newer as [|c0 newer]; injection E as -> ->.
      * left. rewrite Hc. assert (List.find is_match (b ++ p :: o) = Some p) as ->; [|done]. apply find_split. by exists b, o.
      * right. by exists newer, c', b, p, o.
Qed.

(** ** The gate *)
Section Gate.
Context (d : Database).
Notation Adm := any_answer.
Notation world := gate_world.
Implicit Types w : world.

Definition the_party (p : string) : option party_row := hd_error (List.filter (fun r => eqs (pa_id r) p) (d party)).

(** A party's screenings in books [d], newest first. *)
Definition history (p : string) : list Check := order_desc cc_checkedAt (List.filter (sanctions_of p) (d complianceCheck)).

Definition approved (p : string) : Prop := exists row, the_party p = Some row /\ pa_kybStatus row = "approved".

Definition on_hold (p : string) : Prop := exists c l, history p = c :: l /\ cc_result c = "match".

(** The screening recorded at [now] for the answer [res]. *)
Definition screening_row (p : string) (now : Z) (result : string) (res : ScreenResult) (c : Check) : Prop :=
  cc_partyId c = p /\ cc_kind c = "sanctions" /\ cc_result c = result /\
  cc_matches c = JArr (List.map match_json (sc_matches res)) /\ cc_listLoadedAt c = Some (sc_listLoadedAt res) /\
  cc_checkedAt c = now.

(** What a check answers, and what it leaves on file. *)
Definition Gated (p : string) (now : Z) w (r : outcome (option Hold)) w' : Prop :=
  (forall t, t <> complianceCheck -> t <> auditLog -> w_db w' t = d t) /\
  (exists new, w_db w' complianceCheck = d complianceCheck ++ new) /\
  (on_hold p -> approved p -> w_db w' = d /\ w_log w' = w_log w /\ forall h, r = Ok h -> h = Some HOLD_REVIEW) /\
  match r with
  | Ok None => approved p /\ ~ on_hold p /\
      ((exists c l, history p = c :: l /\ now - cc_checkedAt c < SCREENING_TTL_MS /\ w_db w' = d) \/
       (exists subject res c, w_log w' = w_log w ++ [ECall (Screen subject) (Ok res)] /\
          (forall m, In m (sc_matches res) -> cleared_by_review (history p) (sm_entNum m)) /\
          screening_row p now "clear" res c /\ w_db w' complianceCheck = d complianceCheck ++ [c]))
  | Ok (Some h) => hd_status h = 403 \/ hd_status h = 503
  | Err _ => True
  end.

Lemma wp_checkParty p now w : w_db w = d -> wp Adm (checkParty p now) (Gated p now w) w.
Proof.
  intros Hd. unfold checkParty, select_one.
  assert (Hsame : forall r w', w_db w' = d -> w_log w' = w_log w -> (approved p -> on_hold p -> forall h, r = Ok h -> h = Some HOLD_REVIEW) ->
    match r with Ok None => False | Ok (Some h) => hd_status h = 403 \/ hd_status h = 503 | Err _ => True end -> Gated p now w r w').
  { intros r w' E El Hh Hr. split; [by intros t _ _; rewrite E|]. split; [exists []; by rewrite E, app_nil_r|].
    split; [by intros ? ?; split; [|split; [|apply Hh]]|]. by destruct r as [[h|]|x]. }
  assert (Herr : forall x w', w_db w' = d -> w_log w' = w_log w -> Gated p now w (Err x) w') by (intros; by apply Hsame).
  wp_step. wp_step. wp_step; [intros x; by apply Herr|]. wp_step. cbn [row] in *.
  assert (hd_error (List.filter (fun r => eqs (pa_id r) p) (w_db w party)) = the_party p) as -> by (unfold the_party; by rewrite Hd).
  assert (Hkyb : forall e0, ~ approved p -> wp Adm (Ret (Some (MkHold 403 e0))) (Gated p now w) (tick w)).
  { intros e0 Hno. wp_step. apply Hsame; [done|done|done|by left]. }
  destruct (the_party p) as [prow|] eqn:Ep; [|apply Hkyb; unfold approved; rewrite Ep; naive_solver].
  wp_step; [apply Hkyb; unfold approved; rewrite Ep|].
  { apply negb_true_iff, bool_decide_eq_false in E. naive_solver. }
  apply negb_false_iff, bool_decide_eq_true in E. rename E into Ekyb. assert (Happ : approved p) by (exists prow; done).
  wp_step. wp_step; [intros x; by apply Herr|]. cbv zeta. cbn [row].
  assert (Hh : order_desc cc_checkedAt (List.filter (sanctions_of p) (w_db (tick w) complianceCheck)) = history p) by (unfold history; by rewrite <- Hd).
  rewrite Hh.
  destruct (match hd_error (history p) with Some c => eqs (cc_result c) "match" | None => false end) eqn:Em.
  { wp_step. apply Hsame; [done|done|by intros _ _ h [= <-]|by left]. }
  assert (Hnh : ~ on_hold p).
  { intros (c & l & E & Er). rewrite E in Em. simpl in Em. rewrite Er in Em. done. }
  destruct (match hd_error (history p) with Some c => now - cc_checkedAt c <? SCREENING_TTL_MS | None => false end) eqn:Et.
  { wp_step. split; [intros t _ _; simpl; by rewrite Hd|]. split; [exists []; simpl; by rewrite Hd, app_nil_r|]. split; [done|].
    split; [done|]. split; [done|]. left. destruct (history p) as [|c l]; [done|]. exists c, l.
    apply Z.ltb_lt in Et. done. }
  wp_step. wp_step; [intros x; by apply Herr|].
  assert (Hh2 : order_desc cc_checkedAt (List.filter (sanctions_of p) (w_db (tick (tick w)) complianceCheck)) = history p) by exact Hh.
  cbn [row] in *. rewrite Hh2. wp_step. wp_step; [intros x; by apply Herr|].
  wp_step. wp_step. wp_step. set (w3 := note _ _).
  assert (Hd3 : w_db w3 = d) by done.
  assert (Hpart : forall r w' new, (forall t, t <> complianceCheck -> t <> auditLog -> w_db w' t = d t) -> w_db w' complianceCheck = d complianceCheck ++ new ->
    match r with Ok None => False | Ok (Some h) => hd_status h = 403 \/ hd_status h = 503 | Err _ => True end -> Gated p now w r w').
  { intros r0 w' new H1 H2 H3. split; [done|]. split; [by eexists|]. split; [done|]. by destruct r0 as [[h|]|x]. }
  assert (Hquiet : forall r w', w_db w' = d -> match r with Ok None => False | Ok (Some h) => hd_status h = 403 \/ hd_status h = 503 | Err _ => True end -> Gated p now w r w').
  { intros r0 w' E Hr. apply (Hpart _ _ []); [by intros; rewrite E|by rewrite E, app_nil_r|done]. }
  destruct r as [res|err]; [|destruct (is_unavailable err); wp_step; apply Hquiet; [done|by right|done|done]].
  set (unreviewed := List.filter _ (sc_matches res)). set (hit := negb (bool_decide (unreviewed = []))).
  wp_step. wp_step; [intros x; by apply Hquiet|]. intros s _ _ _. set (c := ComplianceCheck _ _ _ _ _ _ _ _).
  assert (Hc : w_db w3 complianceCheck ++ [c] = d complianceCheck ++ [c]) by (by rewrite Hd3).
  assert (Hother : forall t, t <> complianceCheck -> set_table complianceCheck (w_db w3 complianceCheck ++ [c]) (w_db w3) t = d t).
  { intros t Ht. rewrite set_table_other by done. by rewrite Hd3. }
  split; [|intros x; apply (Hpart _ _ [c]); [intros t Ht _; by apply Hother|simpl; by rewrite set_table_same|done]].
  destruct hit eqn:Ehit.
  - assert (Hend : forall r w', (forall t, t <> auditLog -> w_db w' t = set_table complianceCheck (w_db w3 complianceCheck ++ [c]) (w_db w3) t) ->
      match r with Ok None => False | Ok (Some h) => hd_status h = 403 \/ hd_status h = 503 | Err _ => True end -> Gated p now w r w').
    { intros r w' E Hr. apply (Hpart _ _ [c]); [intros t Ht Ha; rewrite E by done; by apply Hother|rewrite E by done; by rewrite set_table_same|done]. }
    wp_step. wp_step; [intros x; by apply Hend|]. intros s2 _ _ _.
    split; [wp_step|intros x]; (apply Hend; [intros t Ht; simpl; by rewrite set_table_other|try done; by left]).
  - wp_step. split; [intros t Ht _; by apply Hother|]. split; [exists [c]; simpl; by rewrite set_table_same|]. split; [done|].
    split; [done|]. split; [done|]. right. eexists _, res, c.
    split; [reflexivity|]. split.
    + intros m Hm. apply negb_false_iff, bool_decide_eq_true in Ehit. apply reviewed_spec.
      assert (Hf : ~ In m unreviewed) by (rewrite Ehit; by intros []). unfold unreviewed in Hf. rewrite filter_In in Hf.
      destruct (existsb (eqs (sm_entNum m)) (reviewedEntNums (history p))) eqn:Ex; [|by destruct Hf].
      apply existsb_exists in Ex as (n & Hn & En). by apply bool_decide_eq_true in En as ->.
    + split; [done|]. simpl. by rewrite set_table_same.
Qed.
End Gate.

(** C24. Whatever the screener and the database do, the gate lets a party through only with approved
    KYB and no match as its latest screening, on a screening less than a day old or on one it takes
    and records now, all of whose matches a person has reviewed; a party whose latest screening is a
    match is held without being screened again, however old that match is; every other answer is a
    hold (403, or 503 for want of a list); and past screenings are never altered. *)
Theorem gate_lets_through_only_the_cleared (e : env ComplianceCall) p now (d : Database) :
  let '(r, w) := run e (checkParty p now) (World d 0 []) in Gated d p now (World d 0 []) r w.
Proof. apply (wp_sound any_answer); [auto with ballast|]. by apply wp_checkParty. Qed.

(** ** The hook *)
(** [p] is approved and has a screening other than a match, at most a day old at [at_], on file. *)
Definition cleared (d : Database) (p : string) (at_ : Z) : Prop :=
  approved d p /\ exists c, In c (d complianceCheck) /\ sanctions_of p c = true /\ cc_result c <> "match" /\
    at_ - cc_checkedAt c < SCREENING_TTL_MS.

Lemma gated_cleared d p now w w' : Gated d p now w (Ok None) w' -> cleared (w_db w') p now.
Proof.
  intros (Ho & [new Hnew] & _ & Ha & Hh & Hc). split.
  { destruct Ha as (row & E & Hk). exists row. split; [|done]. unfold the_party in *. by rewrite Ho. }
  destruct Hc as [(c & l & E & Ht & _)|(subject & res & c & _ & _ & Hc & E)].
  - exists c. assert (Hin : In c (List.filter (sanctions_of p) (d complianceCheck))).
    { apply (In_order_desc cc_checkedAt). change (In c (history d p)). rewrite E. by left. }
    apply filter_In in Hin as [Hin Hs]. rewrite Hnew. split; [apply in_app_iff; by left|]. split; [done|]. split; [|done].
    intros Er. apply Hh. by exists c, l.
  - destruct Hc as (H1 & H2 & H3 & _ & _ & H6). exists c. rewrite E. split; [apply in_app_iff; right; by left|].
    unfold sanctions_of, eqs. rewrite H1, H2, H3, H6, !bool_decide_true by done. split; [done|]. split; [done|].
    unfold SCREENING_TTL_MS. lia.
Qed.

Lemma cleared_later d d' p at_ :
  d' party = d party -> (exists new, d' complianceCheck = d complianceCheck ++ new) -> cleared d p at_ -> cleared d' p at_.
Proof.
  intros Hp [new Hnew] [Ha (c & Hc & H)]. split; [unfold approved, the_party in *; by rewrite Hp|].
  exists c. rewrite Hnew. split; [apply in_app_iff; by left|done].
Qed.

Lemma wp_gate_all ids w :
  wp any_answer (gate_all ids) (fun r w' => (forall t, t <> complianceCheck -> t <> auditLog -> w_db w' t = w_db w t) /\
    (exists new, w_db w' complianceCheck = w_db w complianceCheck ++ new) /\
    match r with
    | Ok None => forall p, In p ids -> exists at_, cleared (w_db w') p at_
    | Ok (Some h) => hd_status h = 403 \/ hd_status h = 503
    | Err _ => True
    end) w.
Proof.
  revert w. induction ids as [|p ids IH]; intros w; cbn [gate_all].
  { wp_step. split; [done|]. split; [exists []; by rewrite app_nil_r|done]. }
  wp_step. wp_step. wp_step. eapply wp_mono; [|by apply (wp_checkParty (w_db w))].
  intros r w1 Hg. pose proof Hg as (Ho & [new Hnew] & _ & Hr).
  destruct r as [[h|]|x]; [wp_step; by eauto| |by eauto].
  eapply wp_mono; [|apply IH]. intros r w2 (Hp2 & [new2 Hnew2] & Hr2).
  split; [intros t Ht Ha; by rewrite Hp2, Ho|]. split; [exists (new ++ new2); etransitivity; [exact Hnew2|]; rewrite app_assoc; f_equal; exact Hnew|].
  destruct r as [[h|]|x]; [done| |done]. intros q [<-|Hq]; [|by apply Hr2].
  exists (st_now s). eapply cleared_later; [by apply Hp2|by eexists|]. by eapply gated_cleared.
Qed.

Lemma in_unique l seen s : In s l -> In s (unique seen l) \/ In s seen.
Proof.
  revert seen. induction l as [|t l IH]; intros seen; simpl; [done|]. destruct (existsb (eqs t) seen) eqn:E.
  - apply existsb_exists in E as (u & Hu & ->%bool_decide_eq_true). intros [<-|Hs]; [by right|auto].
  - intros [<-|Hs]; [left; by left|]. destruct (IH (t :: seen) Hs) as [|[<-|]]; [left; by right|left; by left|by right].
Qed.

(** What the hook leaves, and what its passing on means. *)
Lemma wp_compliance_hook request w :
  wp any_answer (compliance_hook request) (fun r w' =>
    (forall t, t <> complianceCheck -> t <> auditLog -> w_db w' t = w_db w t) /\
    (exists new, w_db w' complianceCheck = w_db w complianceCheck ++ new) /\
    match r with
    | Ok None => forall route,
        List.find (fun r => eqs (gr_method r) (gq_method request) && eqs (gr_url r) (gq_url request)) GATED_ROUTES = Some route ->
        gq_partyId request <> "" -> forall p, p = gq_partyId request \/ In (JStr p) (gr_counterparties route (gq_body request)) ->
        exists at_, cleared (w_db w') p at_
    | Ok (Some h) => hd_status h = 403 \/ hd_status h = 503
    | Err _ => True
    end) w.
Proof.
  unfold compliance_hook. destruct (List.find _ _) as [route|]; [|wp_step; split; [done|]; split; [exists []; by rewrite app_nil_r|done]].
  wp_step; [wp_step; split; [done|]; split; [exists []; by rewrite app_nil_r|]; intros ? _ []; by apply bool_decide_eq_true in E|].
  eapply wp_mono; [|apply (wp_gate_all (screened_parties route request))]. intros r w' (Ho & Hn & Hr). split; [done|]. split; [done|].
  destruct r as [[h|]|x]; [done| |done]. intros ? [= <-] _ p Hp. apply Hr. unfold screened_parties.
  match goal with |- In _ (unique [] ?l) => destruct (in_unique l [] p) as [|[]]; [|done] end.
  destruct Hp as [->|Hp]; [by left|]. right. apply in_concat. exists [p]. split; [|by left].
  by apply (in_map (fun v => match v with JStr s => [s] | _ => [] end)) in Hp.
Qed.

(** The audit trail only grows. *)
Definition audits_grow (d d' : Database) : Prop := exists new, d' auditLog = d auditLog ++ new.

Lemma audits_same d d' : d' auditLog = d auditLog -> audits_grow d d'.
Proof. exists []. by rewrite app_nil_r. Qed.

Lemma wp_checkParty_audits p now (w : gate_world) :
  wp any_answer (checkParty p now) (fun _ w' => audits_grow (w_db w) (w_db w')) w.
Proof.
  assert (Hsame : forall w' : gate_world, w_db w' auditLog = w_db w auditLog -> audits_grow (w_db w) (w_db w')) by (intros; by apply audits_same).
  unfold checkParty, select_one. wp_step. wp_step. wp_step; [intros x; by apply Hsame|]. wp_step.
  destruct (hd_error _) as [prow|]; [|by apply Hsame]. wp_step; [by apply Hsame|]. wp_step. wp_step; [intros x; by apply Hsame|].
  cbv zeta. destruct (match hd_error _ with Some c => eqs (cc_result c) "match" | None => false end); [by apply Hsame|].
  destruct (match hd_error _ with Some c => _ <? _ | None => false end); [by apply Hsame|].
  wp_step. wp_step; [intros x; by apply Hsame|]. wp_step. wp_step; [intros x; by apply Hsame|].
  wp_step. wp_step. wp_step. destruct r as [res|err]; [|destruct (is_unavailable err); by apply Hsame].
  wp_step. wp_step; [intros x; by apply Hsame|]. intros s _ _ _.
  match goal with |- context [after ?w ?d] => set (w1 := after w d) end.
  assert (H1 : w_db w1 auditLog = w_db w auditLog) by (subst w1; world_simpl; by rewrite set_table_other).
  split; [|intros x; by apply Hsame]. wp_step; [|by apply Hsame].
  wp_step. wp_step; [intros x; by apply Hsame|]. intros s2 _ _ _. rewrite H1.
  split; [wp_step|intros x]; (eexists; world_simpl; rewrite set_table_same; done).
Qed.

Lemma wp_hook_audits request (w : gate_world) :
  wp any_answer (compliance_hook request) (fun _ w' => audits_grow (w_db w) (w_db w')) w.
Proof.
  assert (Hall : forall ids w, wp any_answer (gate_all ids) (fun _ w' => audits_grow (w_db w) (w_db w')) w).
  { induction ids as [|p ids IH]; intros w1; cbn [gate_all]; [by apply audits_same|].
    wp_step. wp_step. wp_step. eapply wp_mono; [|apply wp_checkParty_audits]. intros r w2 [new Hnew]. cbn in Hnew.
    destruct r as [[h|]|x]; [by exists new| |by exists new]. eapply wp_mono; [|apply IH].
    intros r w3 [new2 Hnew2]. exists (new ++ new2). rewrite Hnew2, app_assoc. f_equal. exact Hnew. }
  unfold compliance_hook. destruct (List.find _ _); [|by apply audits_same]. destruct (eqs _ _); [by apply audits_same|apply Hall].
Qed.

(** A request to a gated route is only let through when its caller and every other party it
    names are approved and cleared; otherwise it is answered 403 or 503. *)
Theorem gated_routes_need_everyone_cleared (e : env ComplianceCall) request route (d : Database)
    (Hroute : List.find (fun r => eqs (gr_method r) (gq_method request) && eqs (gr_url r) (gq_url request)) GATED_ROUTES = Some route)
    (Hcaller : gq_partyId request <> "") :
  let '(r, w) := run e (compliance_hook request) (World d 0 []) in
  match r with
  | Ok None => forall p, p = gq_partyId request \/ In (JStr p) (gr_counterparties route (gq_body request)) ->
      exists at_, cleared (w_db w) p at_
  | Ok (Some h) => hd_status h = 403 \/ hd_status h = 503
  | Err _ => True
  end.
Proof.
  pose proof (wp_sound any_answer e _ _ _ (any_answer_respects e) (wp_compliance_hook request (World d 0 []))) as Hw.
  destruct (run e _ _) as [r w]. destruct Hw as (_ & _ & Hr). destruct r as [[h|]|x]; [done| |done]. by apply Hr.
Qed.

(** ** The screener *)
Notation screener_world := (world unit ScreenerCall unit).

Section Screener.
Context `{Unicode} (options : OfacScreenerOptions) (e : env ScreenerCall).
Notation Adm := (stamped_by e).
Implicit Types w : screener_world.


















End Screener.


(** ** Concrete checks *)
Definition sample_screening (X : Type) (n : nat) (c : ComplianceCall X) : outcome X :=
  match c in ComplianceCall X return outcome X with
  | Screen _ => Ok (Screened [Match NameMatch "ACME" "12"] "OFAC SDN" 5)
  end.
Definition sample_gate_env : env ComplianceCall :=
  Env sample_screening (fun _ => NoFault) (fun n => Stamp (Z.of_nat n) (pretty (N.of_nat n))).
Definition sample_parties : Database :=
  set_table party [Party "p" "company" "Acme Ltd" None "approved" None None 0] empty_db.

(** A hit holds the party, now and a year later. *)
Example sample_hold :
  let '(r1, w1) := run sample_gate_env (checkParty "p" 1000) (World sample_parties 0 []) in
  let '(r2, w2) := run sample_gate_env (checkParty "p" 31536001000) w1 in
  r1 = Ok (Some HOLD_REVIEW) /\ r2 = Ok (Some HOLD_REVIEW) /\ List.length (w_log w2) = 1%nat.
Proof. vm_compute. auto. Qed.

Lemma gated_routes_need_everyone_cleared_witness :
  let request := GReq "POST" "/v1/exit/quotes" "p" [] in
  let '(r, w) := run sample_gate_env (compliance_hook request) (World sample_parties 0 []) in
  match r with
  | Ok None => forall p, p = gq_partyId request \/
      In (JStr p) (gr_counterparties (Route "POST" "/v1/exit/quotes" (fun _ => [])) (gq_body request)) ->
      exists at_, cleared (w_db w) p at_
  | Ok (Some h) => hd_status h = 403 \/ hd_status h = 503
  | Err _ => True
  end.
Proof.
  cbv zeta. apply (gated_routes_need_everyone_cleared sample_gate_env _ (Route "POST" "/v1/exit/quotes" (fun _ => []))); done.
Defined.
