(* ===== verification/ManualReview.v ===== *)
(** [packages/db/src/complianceCli.ts]: the operator's tool for the two compliance decisions a person
    makes, and what its decisions mean to the gate. *)
From S2P Require Import Prelude Prog Shape Schema Rules Sanctions Compliance ComplianceSafety.

Definition KYB_STATUSES : list string := ["approved"; "pending"; "rejected"].
Definition usage : string :=
  "usage: compliance kyb <partyId> <approved|pending|rejected> [provider] [ref] | compliance clear <partyId> <reviewer> <note...>".

(** A command argument, [None] when it is not given. *)
Definition arg (n : nat) (argv : list string) : option string := nth_error argv n.
Definition given (s : option string) : bool := match s with None | Some "" => false | _ => true end.
Definition or_else (s s' : option string) : option string := match s with None => s' | _ => s end.

(** [main], from [process.argv.slice(2)] to the line it prints; an exception ends the process with exit
    code 1.  [user] is [process.env.USER]. *)
Definition compliance_main (user : option string) (argv : list string) : gate_prog string :=
  let command := arg 0 argv in
  let partyId := default "" (arg 1 argv) in
  let rest := drop 2 argv in
  if negb (given command) || negb (given (arg 1 argv)) then Throw (Error usage)
  else
    row <- select_one party (fun p => eqs (pa_id p) partyId) ;;
    match row with
    | None => Throw (Error ("no party " +:+ partyId))
    | Some p =>
        if eqs (default "" command) "kyb" then
          let status := default "" (arg 0 rest) in
          let provider := arg 1 rest in
          let ref := arg 2 rest in
          if negb (existsb (eqs status) KYB_STATUSES) then Throw (Error usage)
          else
            update_row party (fun r => eqs (pa_id r) partyId)
              (fun r => Party (pa_id r) (pa_kind r) (pa_legalName r) (pa_jurisdiction r) status
                 (or_else provider (pa_kybProvider p)) (or_else ref (pa_kybRef p)) (pa_createdAt r)) ;;;
            stmt (insert auditLog (fun s => AuditLog (st_uuid s) (default "operator" user) "kyb.set"
              (js_object [("partyId", Some (JStr partyId)); ("from", Some (JStr (pa_kybStatus p))); ("to", Some (JStr status));
                          ("provider", JStr <$> provider); ("ref", JStr <$> ref)]) None (st_now s))) ;;;
            Ret (pa_legalName p +:+ ": KYB " +:+ pa_kybStatus p +:+ " -> " +:+ status)
        else if eqs (default "" command) "clear" then
          let reviewer := default "" (arg 0 rest) in
          let note := drop 1 rest in
          if negb (given (arg 0 rest)) || bool_decide (note = []) then Throw (Error usage)
          else
            stmt (insert complianceCheck (fun s => ComplianceCheck (st_uuid s) partyId "sanctions" "clear" (JArr [])
              (Some ("manual review by " +:+ reviewer +:+ ": " +:+ join " " note)) None (st_now s))) ;;;
            stmt (insert auditLog (fun s => AuditLog (st_uuid s) reviewer "sanctions.cleared"
              (JObj [("partyId", JStr partyId); ("note", JStr (join " " note))]) None (st_now s))) ;;;
            Ret (pa_legalName p +:+ ": sanctions hold cleared by " +:+ reviewer)
        else Throw (Error usage)
    end.

Lemma arg_drop n m argv : arg n (drop m argv) = arg (m + n) argv.
Proof. apply nth_error_skipn. Qed.

(** ** What a decision changes *)
Section Review.
Context (user : option string) (argv : list string).
Implicit Types (w : gate_world) (d : Database).

(** The party named, its row changed to the status given. *)
Definition kyb_set d d' : Prop :=
  exists p row status, arg 0 argv = Some "kyb" /\ arg 1 argv = Some p /\ arg 2 argv = Some status /\ In status KYB_STATUSES /\
    the_party d p = Some row /\
    d' = set_table party (List.map (fun r => if eqs (pa_id r) p then
      Party (pa_id r) (pa_kind r) (pa_legalName r) (pa_jurisdiction r) status
        (or_else (arg 3 argv) (pa_kybProvider row)) (or_else (arg 4 argv) (pa_kybRef row)) (pa_createdAt r) else r) (d party)) d.

(** A clear screening of the party by the person named. *)
Definition clear_recorded d d' : Prop :=
  exists p reviewer c, arg 0 argv = Some "clear" /\ arg 1 argv = Some p /\ arg 2 argv = Some reviewer /\ reviewer <> "" /\ drop 3 argv <> [] /\
    the_party d p <> None /\ sanctions_of p c = true /\ manual_clear c = true /\ d' = set_table complianceCheck (d complianceCheck ++ [c]) d.

Definition decision d d' : Prop := kyb_set d d' \/ clear_recorded d d'.

(** The record of who made it. *)
Definition audited d d' : Prop :=
  exists a : auditLog_row,
    let kyb := eqs (default "" (arg 0 argv)) "kyb" in
    al_actor a = (if kyb then default "operator" user else default "" (arg 2 argv)) /\
    al_action a = (if kyb then "kyb.set" else "sanctions.cleared") /\
    js_get "partyId" (al_payload a) = JStr (default "" (arg 1 argv)) /\ d' = set_table auditLog (d auditLog ++ [a]) d.

Definition outcome_of_review d (r : outcome string) d' : Prop :=
  match r with
  | Ok _ => exists d1, decision d d1 /\ audited d1 d'
  | Err _ => d' = d \/ decision d d' \/ exists d1, decision d d1 /\ audited d1 d'
  end.

Lemma wp_decided d (mk : stamp -> auditLog_row) line w :
  decision d (w_db w) ->
  (forall s, let a := mk s in let kyb := eqs (default "" (arg 0 argv)) "kyb" in
     al_actor a = (if kyb then default "operator" user else default "" (arg 2 argv)) /\
     al_action a = (if kyb then "kyb.set" else "sanctions.cleared") /\
     js_get "partyId" (al_payload a) = JStr (default "" (arg 1 argv))) ->
  wp any_answer (stmt (insert auditLog mk) ;;; Ret line) (fun r w' => outcome_of_review d r (w_db w')) w.
Proof.
  intros Hd Ha. wp_step. wp_step; [intros x; right; by left|]. intros s _ _ _.
  assert (Haud : audited (w_db w) (set_table auditLog (w_db w auditLog ++ [mk s]) (w_db w))).
  { exists (mk s). specialize (Ha s). cbv zeta in Ha |- *. destruct Ha as (Hx1 & Hx2 & Hx3). done. }
  split; [wp_step; by exists (w_db w)|intros x; right; right; by exists (w_db w)].
Qed.

(** A run that succeeds made one decision about one party and recorded who made it; one that fails
    changed nothing, or made the decision, with or without the record. *)
Lemma wp_compliance_main w : wp any_answer (compliance_main user argv) (fun r w' => outcome_of_review (w_db w) r (w_db w')) w.
Proof.
  unfold compliance_main, select_one. cbv zeta. destruct (arg 0 argv) as [command|] eqn:E0; [|by left].
  destruct (arg 1 argv) as [p|] eqn:E1; [|destruct command; by left].
  destruct (negb (given (Some command)) || negb (given (Some p))); [by left|].
  change (default "" (Some p)) with p. change (default "" (Some command)) with command.
  wp_step. wp_step. wp_step; [by left|]. wp_step. cbn [row] in *. fold (the_party (w_db w) p).
  destruct (the_party (w_db w) p) as [prow|] eqn:Ep; [|by left].
  destruct (eqs command "kyb") eqn:Ek.
  - apply bool_decide_eq_true in Ek. subst command. destruct (negb _) eqn:Es; [by left|].
    apply negb_false_iff, existsb_exists in Es as (status & Hin & Es%bool_decide_eq_true).
    unfold update_row. wp_step. wp_step. wp_step; [by left|]. intros s.
    assert (Hd : decision (w_db w) (set_table party (List.map (fun r => if eqs (pa_id r) p then
      Party (pa_id r) (pa_kind r) (pa_legalName r) (pa_jurisdiction r) (default "" (arg 0 (drop 2 argv)))
        (or_else (arg 1 (drop 2 argv)) (pa_kybProvider prow)) (or_else (arg 2 (drop 2 argv)) (pa_kybRef prow)) (pa_createdAt r) else r)
        (w_db w party)) (w_db w))).
    { left. exists p, prow, status. rewrite Es. rewrite !arg_drop in *. cbn [Nat.add] in *.
      destruct (arg 2 argv) as [t|] eqn:E2; [|by subst status; destruct Hin as [|[|[|[]]]]]. cbn in Es. subst t. auto 10. }
    split; [|intros x; right; by left]. wp_step. apply wp_decided; [exact Hd|].
    intros s2. rewrite E0, E1. cbn. auto.
  - destruct (eqs command "clear") eqn:Ec; [|by left]. apply bool_decide_eq_true in Ec. subst command.
    destruct (negb (given (arg 0 (drop 2 argv))) || bool_decide (drop 1 (drop 2 argv) = [])) eqn:Eg; [by left|].
    apply orb_false_iff in Eg as [Eg Hnote%bool_decide_eq_false]. rewrite arg_drop in *. rewrite drop_drop in Hnote. cbn [Nat.add] in *.
    destruct (arg 2 argv) as [reviewer|] eqn:E2; [|done].
    change (default "" (Some reviewer)) with reviewer.
    wp_step. wp_step; [by left|]. intros s _ _ _.
    assert (Hd : decision (w_db w) (set_table complianceCheck (w_db w complianceCheck ++ [ComplianceCheck (st_uuid s) p "sanctions" "clear" (JArr [])
      (Some ("manual review by " +:+ reviewer +:+ ": " +:+ join " " (drop 1 (drop 2 argv)))) None (st_now s)]) (w_db w))).
    { right. exists p, reviewer. eexists. split; [done|]. split; [done|]. split; [done|].
      split; [by intros ->|]. split; [done|]. split; [by rewrite Ep|]. split; [|split; [|reflexivity]].
      - unfold sanctions_of. cbn. unfold eqs. by rewrite bool_decide_true.
      - apply (starts_with_append "manual review by "). }
    split; [|intros x; right; by left]. apply wp_decided; [exact Hd|]. intros s2. rewrite E0, E1, E2. cbn. auto.
Qed.
End Review.

(** ** What a clear does to the gate *)
(** [c] is later than every screening on file. *)
Definition newest (c : Check) (d : Database) : Prop := Forall (fun b => cc_checkedAt b < cc_checkedAt c) (d complianceCheck).

Lemma history_newest d p c :
  sanctions_of p c = true -> newest c d -> history (set_table complianceCheck (d complianceCheck ++ [c]) d) p = c :: history d p.
Proof.
  intros Hs Hl. unfold history, newest in *. rewrite set_table_same, List.filter_app. cbn. rewrite Hs. apply order_desc_newest.
  rewrite List.Forall_forall in *. intros b [Hb _]%filter_In. by apply Hl.
Qed.

(** A person's clear puts an end to a hold: the party's latest screening is the clear, the listings of
    the match before it count as reviewed from then on, and the person is on record. *)
Theorem clear_lifts_the_hold (e : env ComplianceCall) user p reviewer note (d : Database) :
  let '(r, w) := run e (compliance_main user ("clear" :: p :: reviewer :: note)) (World d 0 []) in
  match r with
  | Ok _ => exists c a, sanctions_of p c = true /\ manual_clear c = true /\
      w_db w complianceCheck = d complianceCheck ++ [c] /\ w_db w auditLog = d auditLog ++ [a] /\ al_actor a = reviewer /\
      (forall t, t <> complianceCheck -> t <> auditLog -> w_db w t = d t) /\
      (newest c d -> ~ on_hold (w_db w) p /\
         forall prior newer older n, history d p = newer ++ prior :: older -> Forall (fun b => is_match b = false) newer ->
           is_match prior = true -> In n (ent_nums prior) -> cleared_by_review (history (w_db w) p) n)
  | Err _ => True
  end.
Proof.
  pose proof (wp_sound any_answer e _ _ _ (any_answer_respects e) (wp_compliance_main user ("clear" :: p :: reviewer :: note) (World d 0 []))) as Hw.
  destruct (run e _ _) as [[line|x] w]; [|done]. cbn [w_db] in Hw.
  destruct Hw as (d1 & [(? & ? & ? & ? & _)|(p' & v & c & _ & [= <-] & [= <-] & Hv & Hn & Hp & Hs & Hm & ->)] & a & Ha & _ & _ & E); [done|].
  exists c, a. split; [done|]. split; [done|]. rewrite E.
  assert (Ec : set_table auditLog (set_table complianceCheck (d complianceCheck ++ [c]) d auditLog ++ [a])
    (set_table complianceCheck (d complianceCheck ++ [c]) d) complianceCheck = d complianceCheck ++ [c]).
  { rewrite set_table_other by done. by rewrite set_table_same. }
  rewrite Ec. split; [done|]. split; [rewrite set_table_same; by rewrite set_table_other|]. split; [exact Ha|].
  split; [intros t Ht Hta; rewrite set_table_other by done; by rewrite set_table_other|]. intros Hnew.
  assert (Hh : history (set_table auditLog (set_table complianceCheck (d complianceCheck ++ [c]) d auditLog ++ [a])
    (set_table complianceCheck (d complianceCheck ++ [c]) d)) p = c :: history d p).
  { rewrite <- (history_newest d p c) by done. unfold history. by rewrite Ec, set_table_same. }
  split.
  - intros (b & l & E' & Er). rewrite Hh in E'. injection E' as <- <-. unfold manual_clear in Hm. rewrite Er in Hm. done.
  - intros prior newer older n Ehist Hf Hi Hin. rewrite Hh. exists [], c, newer, prior, older. by rewrite Ehist.
Qed.

(** ** Concrete decisions *)
Definition held_books : Database :=
  set_table complianceCheck [ComplianceCheck "m" "p" "sanctions" "match" (JArr [match_json (Match NameMatch "ACME" "12")]) None None 5] sample_parties.
Definition working_env (fault : nat -> fault_kind) : env ComplianceCall :=
  Env sample_screening fault (fun n => Stamp (1000 + Z.of_nat n) (pretty (N.of_nat n))).

(** Held, cleared by a person, let through; and a year later the same listing no longer holds. *)
Example cleared_party_passes :
  let e := working_env (fun _ => NoFault) in
  let '(r1, w1) := run e (checkParty "p" 900) (World held_books 0 []) in
  let '(r2, w2) := run e (compliance_main None ["clear"; "p"; "ann"; "different"; "entity"]) w1 in
  let '(r3, w3) := run e (checkParty "p" 2000) w2 in
  let '(r4, w4) := run e (checkParty "p" 31536002000) w3 in
  r1 = Ok (Some HOLD_REVIEW) /\ r2 = Ok "Acme Ltd: sanctions hold cleared by ann" /\ r3 = Ok None /\ r4 = Ok None.
Proof. vm_compute. auto. Qed.

(** The decision and its record are two statements: when the second fails the party is approved and
    nothing says by whom. *)
Example decision_without_record :
  let e := working_env (fun n => if (n =? 2)%nat then FailBefore (Error "connection lost") else NoFault) in
  let '(r, w) := run e (compliance_main (Some "ann") ["kyb"; "p"; "rejected"]) (World sample_parties 0 []) in
  r = Err (Error "connection lost") /\ List.map pa_kybStatus (w_db w party) = ["rejected"] /\ w_db w auditLog = [].
Proof. vm_compute. auto. Qed.
