(* ===== verification/Seed.v ===== *)
(** [packages/db/src/seed.ts]: the rows a deployment needs before anyone can log in or pledge, made from
    its settings, and made once; and the assets of a shadow run ([services/price-guard/src/seedShadow.ts]). *)
From S2P Require Import Prelude Prog Schema Rules Shape ApiKeys.

Notation seed_prog := (prog Database NoCall unit).
Notation seed_world := (world Database NoCall unit).

(** [process.env], as [deploy.sh] left it. *)
Definition requireEnv (env : ProcessEnv) (name : string) : outcome string :=
  match setting env name with
  | Some value => Ok value
  | None => Err (Error ("@ballast/db seed: " +:+ name +:+ " is not set (expected from .env.<network>-deploy)"))
  end.

Definition with_account (stellarAccount : string) (a : partyAccount_row) : bool := eqs (pc_stellarAccount a) stellarAccount.

Definition ensureParty (kind legalName stellarAccount : string) : seed_prog string :=
  existing <- select_one partyAccount (with_account stellarAccount) ;;
  match existing with
  | Some a => Ret (pc_partyId a)
  | None =>
      p <- stmt (insert_returning party (fun s => Party (st_uuid s) kind legalName None "approved" (Some "seed") None (st_now s))) ;;
      stmt (insert partyAccount (fun s => PartyAccount (pa_id p) stellarAccount kind (Some (st_now s)))) ;;;
      Ret (pa_id p)
  end.

Definition with_contract (contractC : string) (a : asset_row) : bool := eqs (a_contractC a) contractC.

Definition ensureAsset (env : ProcessEnv) : seed_prog string :=
  contractC <- lift (requireEnv env "RWA_SAC") ;;
  existing <- select_one asset (with_contract contractC) ;;
  match existing with
  | Some a => Ret (a_id a)
  | None =>
      issuerG <- lift (requireEnv env "RWA_ISSUER") ;;
      a <- stmt (insert_returning asset (fun s =>
        Asset (st_uuid s) (default "RWA1" (env "RWA_CODE")) issuerG (default "etherfuse" (env "RWA_ISSUER_CODE")) contractC
          "classic_sac" "accumulating" "escrow" "USD" 1 None "daily" 50 100 500 0 "active" (st_now s))) ;;
      Ret (a_id a)
  end.

(** [main]: the ids of the lender, the borrower and the asset, which it prints. *)
Definition seed_main (env : ProcessEnv) : seed_prog (string * string * string) :=
  lender <- lift (requireEnv env "LENDER") ;;
  lenderId <- ensureParty "lender" "Seed Lender" lender ;;
  borrower <- lift (requireEnv env "BORROWER") ;;
  borrowerId <- ensureParty "borrower" "Seed Borrower" borrower ;;
  assetId <- ensureAsset env ;;
  Ret (lenderId, borrowerId, assetId).

(** ** Seeding again *)
Section Again.
Context (env : ProcessEnv).
Implicit Types (w : seed_world) (d : Database).

(** The row a look-up returns stays the one it returns when rows are added behind it. *)
Definition found {t} (P : row t -> bool) (f : row t -> string) (d : Database) (id : string) : Prop :=
  exists r, hd_error (List.filter P (d t)) = Some r /\ f r = id.

Lemma found_more {t} P f d d' l id : found (t := t) P f d id -> d' t = d t ++ l -> found P f d' id.
Proof.
  intros (r & Hr & Hf) E. exists r. split; [|done]. rewrite E, List.filter_app. by destruct (List.filter P (d t)).
Qed.

Definition appended d d' (t : table) : Prop := exists l, d' t = d t ++ l.
Lemma appended_same d d' t : d' t = d t -> appended d d' t.
Proof. exists []. by rewrite app_nil_r. Qed.

(** An account's party and the asset's row are the ones the look-ups find. *)
Lemma wp_ensureParty kind legalName account w :
  wp any_answer (ensureParty kind legalName account) (fun r w' =>
    (forall t, appended (w_db w) (w_db w') t) /\
    match r with Ok id => found (t := partyAccount) (with_account account) pc_partyId (w_db w') id | Err _ => True end) w.
Proof.
  unfold ensureParty. wp_step. unfold select_one. wp_step.
  assert (Hsame : forall w', w_db w' = w_db w -> forall t, appended (w_db w) (w_db w') t) by (intros w' E t; apply appended_same; by rewrite E).
  wp_step; [intros x; split; [by apply Hsame|done]|]. wp_step. cbn [row] in *.
  destruct (hd_error (List.filter (with_account account) (w_db w partyAccount))) as [a|] eqn:Ea.
  { split; [by apply Hsame|]. by exists a. }
  wp_step. wp_step; [intros x; split; [by apply Hsame|done]|]. cbn zeta. intros s _ _ _. set (p := Party _ _ _ _ _ _ _ _).
  assert (Hp : forall t, appended (w_db w) (set_table party (w_db w party ++ [p]) (w_db w)) t).
  { intros t. destruct (decide (t = party)) as [->|Ht]; [exists [p]; by rewrite set_table_same|].
    apply appended_same. by rewrite set_table_other. }
  split; [|intros x; by split]. wp_step. wp_step; [intros x; by split|]. cbn zeta. intros s2 _ _ _.
  world_simpl. rewrite set_table_other by done. cbn [row]. set (acc := PartyAccount _ _ _ _).
  assert (Hboth : forall t, appended (w_db w) (set_table partyAccount (w_db w partyAccount ++ [acc]) (set_table party (w_db w party ++ [p]) (w_db w))) t).
  { intros t. destruct (decide (t = partyAccount)) as [->|Ht]; [exists [acc]; by rewrite set_table_same|]. unfold appended. rewrite set_table_other by done. apply Hp. }
  split; [|intros x; by split]. wp_step. split; [exact Hboth|]. exists acc. split; [|done]. world_simpl. rewrite set_table_same. cbn [row].
  rewrite List.filter_app. destruct (List.filter (with_account account) (w_db w partyAccount)); [|done]. cbn.
  unfold with_account, eqs. cbn. by rewrite bool_decide_true.
Qed.

Lemma wp_ensureAsset w :
  wp any_answer (ensureAsset env) (fun r w' =>
    (forall t, appended (w_db w) (w_db w') t) /\
    match r with
    | Ok id => exists contractC, requireEnv env "RWA_SAC" = Ok contractC /\ found (t := asset) (with_contract contractC) a_id (w_db w') id
    | Err _ => True
    end) w.
Proof.
  assert (Hsame : forall w', w_db w' = w_db w -> forall t, appended (w_db w) (w_db w') t) by (intros w' E t; apply appended_same; by rewrite E).
  unfold ensureAsset. wp_step. apply wp_lift. destruct (requireEnv env "RWA_SAC") as [contractC|x]; [|split; [by apply Hsame|done]].
  wp_step. unfold select_one. wp_step. wp_step; [intros x; split; [by apply Hsame|done]|]. wp_step. cbn [row] in *.
  destruct (hd_error (List.filter (with_contract contractC) (w_db w asset))) as [a|] eqn:Ea.
  { split; [by apply Hsame|]. exists contractC. split; [done|]. by exists a. }
  wp_step. apply wp_lift. destruct (requireEnv env "RWA_ISSUER") as [issuerG|x]; [|split; [by apply Hsame|done]].
  wp_step. wp_step; [intros x; split; [by apply Hsame|done]|]. cbn zeta. intros s _ _ _. set (a := Asset _ _ _ _ _ _ _ _ _ _ _ _ _ _ _ _ _ _).
  assert (Hp : forall t, appended (w_db w) (set_table asset (w_db w asset ++ [a]) (w_db w)) t).
  { intros t. destruct (decide (t = asset)) as [->|Ht]; [exists [a]; by rewrite set_table_same|]. apply appended_same. by rewrite set_table_other. }
  split; [|intros x; by split]. wp_step. split; [exact Hp|]. exists contractC. split; [done|]. exists a. split; [|done].
  world_simpl. rewrite set_table_same. cbn [row]. rewrite List.filter_app.
  destruct (List.filter (with_contract contractC) (w_db w asset)); [|done]. cbn. unfold with_contract, eqs. cbn. by rewrite bool_decide_true.
Qed.

(** The three rows are there to be found. *)
Definition seeded (d : Database) (ids : string * string * string) : Prop :=
  exists lender borrower contractC,
    requireEnv env "LENDER" = Ok lender /\ requireEnv env "BORROWER" = Ok borrower /\ requireEnv env "RWA_SAC" = Ok contractC /\
    found (t := partyAccount) (with_account lender) pc_partyId d (fst (fst ids)) /\
    found (t := partyAccount) (with_account borrower) pc_partyId d (snd (fst ids)) /\
    found (t := asset) (with_contract contractC) a_id d (snd ids).

Lemma wp_seed w : wp any_answer (seed_main env) (fun r w' => match r with Ok ids => seeded (w_db w') ids | Err _ => True end) w.
Proof.
  unfold seed_main. wp_step. apply wp_lift. destruct (requireEnv env "LENDER") as [lender|x] eqn:El; [|done].
  wp_step. eapply wp_mono; [|apply wp_ensureParty]. intros [lenderId|x] w1 [_ H1]; [|done].
  wp_step. apply wp_lift. destruct (requireEnv env "BORROWER") as [borrower|x] eqn:Eb; [|done].
  wp_step. eapply wp_mono; [|apply wp_ensureParty]. intros [borrowerId|x] w2 [A2 H2]; [|done].
  wp_step. eapply wp_mono; [|apply wp_ensureAsset]. intros [assetId|x] w3 [A3 H3]; [|done].
  wp_step. destruct H3 as (contractC & Ec & H3). destruct (A2 partyAccount) as [l2 E2]. destruct (A3 partyAccount) as [l3 E3].
  exists lender, borrower, contractC. do 3 (split; [done|]). split; [|split; [by eapply found_more|exact H3]].
  eapply found_more; [|exact E3]. by eapply found_more.
Qed.

Lemma wp_found_party kind legalName account id w (Q : outcome string -> seed_world -> Prop) :
  found (t := partyAccount) (with_account account) pc_partyId (w_db w) id ->
  (forall r w', w_db w' = w_db w -> (r = Ok id \/ exists x, r = Err x) -> Q r w') ->
  wp any_answer (ensureParty kind legalName account) Q w.
Proof.
  intros (a & Ha & <-) HQ. unfold ensureParty. wp_step. unfold select_one. wp_step. wp_step; [intros x; apply HQ; eauto|].
  wp_step. rewrite Ha. apply HQ; auto.
Qed.

(** Seeding what is seeded changes nothing, whatever fails, and gives the same ids when it ends. *)
Lemma wp_seed_again ids w :
  seeded (w_db w) ids -> wp any_answer (seed_main env) (fun r w' => w_db w' = w_db w /\ (r = Ok ids \/ exists x, r = Err x)) w.
Proof.
  intros (lender & borrower & contractC & El & Eb & Ec & H1 & H2 & H3). destruct ids as [[lenderId borrowerId] assetId]. cbn [fst snd] in *.
  unfold seed_main. rewrite El, Eb. wp_step. wp_step. wp_step. apply (wp_found_party _ _ _ lenderId); [done|].
  intros r w1 D1 [->|[x ->]]; [|eauto]. wp_step. wp_step. wp_step. apply (wp_found_party _ _ _ borrowerId); [by rewrite D1|].
  intros r w2 D2 [->|[x ->]]; [|split; [congruence|eauto]]. wp_step. unfold ensureAsset. rewrite Ec.
  destruct H3 as (a & Ha & <-). wp_step. wp_step. wp_step. unfold select_one. wp_step.
  assert (Hd : w_db w2 = w_db w) by congruence. wp_step; [intros x; split; [done|eauto]|].
  wp_step. rewrite Hd, Ha. cbn. auto.
Qed.
End Again.

(** The seed is made once: when it ended well, running it again, with whatever failures, leaves the
    database as it is, and gives the same ids unless a statement fails. *)
Theorem seed_is_made_once env (e e' : Prog.env NoCall) d ids (w : seed_world) :
  run e (seed_main env) (World d 0 []) = (Ok ids, w) ->
  let '(r, w') := run e' (seed_main env) (World (w_db w) 0 []) in
  w_db w' = w_db w /\ (r = Ok ids \/ exists x, r = Err x).
Proof.
  intros Hrun. pose proof (wp_sound any_answer e _ _ _ (any_answer_respects e) (wp_seed env (World d 0 []))) as Hs. rewrite Hrun in Hs.
  pose proof (wp_sound any_answer e' _ _ _ (any_answer_respects e') (wp_seed_again env ids (World (w_db w) 0 []) Hs)) as Ha.
  by destruct (run e' _ _).
Qed.

(** A run that fails between a party and its account leaves the party behind: the next run makes another. *)
Module SeedSample.
Definition settings (name : string) : option string :=
  assoc name [("LENDER", "GL"); ("BORROWER", "GB"); ("RWA_SAC", "CRWA"); ("RWA_ISSUER", "GI")].
Definition server (bad : nat) (from : nat) : Prog.env NoCall :=
  Env (fun X n (c : NoCall X) => match c with end) (fun n => if (n =? bad)%nat then FailBefore (Error "connection lost") else NoFault)
    (fun n => Stamp (Z.of_nat n) (Z_to_string (Z.of_nat (from + n)))).

Example party_left_behind :
  let '(r1, w1) := run (server 2 0) (seed_main settings) (World empty_db 0 []) in
  let '(r2, w2) := run (server 99 100) (seed_main settings) (World (w_db w1) 0 []) in
  r1 = Err (Error "connection lost") /\ r2 = Ok ("101", "104", "107") /\
  List.map (fun p => (pa_id p, pa_legalName p)) (w_db w2 party) = [("1", "Seed Lender"); ("101", "Seed Lender"); ("104", "Seed Borrower")].
Proof. vm_compute. auto. Qed.
End SeedSample.

(** ** The assets of a shadow run ([services/price-guard/src/seedShadow.ts]) *)
Record ShadowAsset := MkShadowAsset { sa_code : string; sa_issuer : string; sa_issuerCode : string; sa_ccy : string; sa_feed : string }.
Definition MAINNET : string := "Public Global Stellar Network ; September 2015".

(** The SDK derives the id of an asset's contract from its code, its issuer and the network. *)
Class ShadowLib := { asset_contractId : string -> string -> string -> outcome string }.

Section Shadow.
Context `{ShadowLib}.
Implicit Types (w : seed_world) (d : Database) (a : ShadowAsset).

Definition contract_of a : outcome string := asset_contractId (sa_code a) (sa_issuer a) MAINNET.
Definition seed_shadow_asset a : seed_prog unit :=
  contractC <- lift (contract_of a) ;;
  existing <- select_one asset (with_contract contractC) ;;
  match existing with
  | Some _ => Ret tt
  | None =>
      stmt (insert asset (fun s =>
        Asset (st_uuid s) (sa_code a) (sa_issuer a) (sa_issuerCode a) contractC "classic_sac" "accumulating" "escrow" (sa_ccy a)
          1 None "daily" 50 100 500 0 "active" (st_now s)))
  end.
(** The script, over the assets of its file. *)
Definition seed_shadow (assets : list ShadowAsset) : seed_prog unit := fold (fun _ a => seed_shadow_asset a) tt assets.

(** The asset's contract is on file. *)
Definition watched d a : Prop := exists contractC, contract_of a = Ok contractC /\ List.filter (with_contract contractC) (d asset) <> [].

Lemma watched_more d d' a : appended d d' asset -> watched d a -> watched d' a.
Proof.
  intros [l E] (c & Ec & Hc). exists c. split; [done|]. rewrite E, List.filter_app. by intros [Hn _]%app_eq_nil.
Qed.

(** Rows are only added, one for a contract that had none; what is there stays alone. *)
Lemma wp_seed_shadow_asset a w :
  wp any_answer (seed_shadow_asset a) (fun r w' =>
    (forall t, t <> asset -> w_db w' t = w_db w t) /\ appended (w_db w) (w_db w') asset /\
    (watched (w_db w) a -> w_db w' = w_db w) /\ (r = Ok tt -> watched (w_db w') a)) w.
Proof.
  assert (Hsame : forall w', w_db w' = w_db w -> (forall t, t <> asset -> w_db w' t = w_db w t) /\ appended (w_db w) (w_db w') asset /\ (watched (w_db w) a -> w_db w' = w_db w))
    by (intros w' E; rewrite E; split_and!; try done; by apply appended_same).
  assert (Herr : forall (x : exn) w', w_db w' = w_db w -> (forall t, t <> asset -> w_db w' t = w_db w t) /\ appended (w_db w) (w_db w') asset /\
    (watched (w_db w) a -> w_db w' = w_db w) /\ (Err x = Ok tt -> watched (w_db w') a)) by (intros x w' E; destruct (Hsame w' E) as (? & ? & ?); by split_and!).
  unfold seed_shadow_asset. wp_step. apply wp_lift. destruct (contract_of a) as [contractC|x] eqn:Ec; [|by apply Herr].
  wp_step. unfold select_one. wp_step. wp_step; [intros x; by apply Herr|]. wp_step. cbn [row] in *.
  destruct (List.filter (with_contract contractC) (w_db w asset)) as [|b l] eqn:El; cbn [hd_error].
  - wp_step; [intros x; by apply Herr|]. intros s _ _ _. set (new := Asset _ _ _ _ _ _ _ _ _ _ _ _ _ _ _ _ _ _). world_simpl.
    assert (Hnew : forall r : outcome unit, (forall t, t <> asset -> set_table asset (w_db w asset ++ [new]) (w_db w) t = w_db w t) /\
      appended (w_db w) (set_table asset (w_db w asset ++ [new]) (w_db w)) asset /\
      (watched (w_db w) a -> set_table asset (w_db w asset ++ [new]) (w_db w) = w_db w) /\
      (r = Ok tt -> watched (set_table asset (w_db w asset ++ [new]) (w_db w)) a)).
    { intros r. split_and!.
      - intros t Ht. by apply set_table_other.
      - exists [new]. by rewrite set_table_same.
      - intros (c & Ec' & Hc). rewrite Ec in Ec'. injection Ec' as <-. by rewrite El in Hc.
      - intros _. exists contractC. split; [done|]. rewrite set_table_same. cbn [row]. rewrite List.filter_app, El. cbn. unfold with_contract, eqs. cbn.
        by rewrite bool_decide_true. }
    split; [|intros x]; apply Hnew.
  - wp_step. destruct (Hsame (tick w) eq_refl) as (H1 & H2 & H3). split_and!; try done. intros _. exists contractC. split; [done|]. cbn. by rewrite El.
Qed.

(** Whatever fails, the script only adds assets, and adds none when all are on file; once it ends well, they
    are. *)
Lemma wp_seed_shadow assets w :
  wp any_answer (seed_shadow assets) (fun r w' =>
    (forall t, t <> asset -> w_db w' t = w_db w t) /\ appended (w_db w) (w_db w') asset /\
    ((forall a, In a assets -> watched (w_db w) a) -> w_db w' = w_db w) /\ (r = Ok tt -> forall a, In a assets -> watched (w_db w') a)) w.
Proof.
  unfold seed_shadow. revert w. induction assets as [|a assets IH]; intros w; cbn [fold].
  { cbn. split_and!; try done. exists []. by rewrite app_nil_r. }
  wp_step. eapply wp_mono; [|apply wp_seed_shadow_asset]. intros [[]|x] w1 (H1 & [l1 H2] & H3 & H4).
  - eapply wp_mono; [|apply IH]. intros r w2 (G1 & [l2 G2] & G3 & G4). split_and!.
    + intros t Ht. by rewrite G1, H1.
    + exists (l1 ++ l2). by rewrite G2, H2, <- app_assoc.
    + intros Hall. rewrite G3, H3; [done|apply Hall; by left|]. intros b Hb. rewrite H3 by (apply Hall; by left). apply Hall. by right.
    + intros Hr b [<-|Hb]; [|by apply G4]. eapply watched_more; [by exists l2|by apply H4].
  - split_and!; try done; [by exists l1|]. intros Hall. apply H3, Hall. by left.
Qed.
End Shadow.

(** Once the script has ended well, every asset of its file is watched, and running it again, with whatever
    failures, leaves the database as it is. *)
Theorem shadow_seed_is_made_once `{ShadowLib} assets (e e' : Prog.env NoCall) d (w : seed_world) :
  run e (seed_shadow assets) (World d 0 []) = (Ok tt, w) ->
  (forall a, In a assets -> watched (w_db w) a) /\
  w_db (snd (run e' (seed_shadow assets) (World (w_db w) 0 []))) = w_db w.
Proof.
  intros Hrun. pose proof (wp_sound any_answer e _ _ _ (any_answer_respects e) (wp_seed_shadow assets (World d 0 []))) as Hs. rewrite Hrun in Hs.
  destruct Hs as (_ & _ & _ & Hall). specialize (Hall eq_refl). split; [exact Hall|].
  pose proof (wp_sound any_answer e' _ _ _ (any_answer_respects e') (wp_seed_shadow assets (World (w_db w) 0 []))) as Ha.
  destruct (run e' _ _) as [r w']. destruct Ha as (_ & _ & Ha & _). by apply Ha.
Qed.
