(* ===== verification/Alerting.v ===== *)
(** [packages/observability/src]: the alerter every service raises its alerts through ([metrics.ts]) and
    the check of an operator account's balance ([balance.ts]). *)
From Stdlib Require Import SpecFloat.
From stdpp Require Import gmap strings.
From S2P Require Import Prelude Prog Floats Webhooks.

(** ** metrics.ts *)
Notation AlertContext := (list (string * jsval)).

(** [a ?? b ?? ... ?? ""] over fields of the context. *)
Fixpoint first_of (keys : list string) (context : AlertContext) : jsval :=
  match keys with
  | [] => JStr ""
  | k :: keys' => match assoc k context with Some JNull | None => first_of keys' context | Some v => v end
  end.

Definition subject_of (context : AlertContext) : string :=
  String_of (first_of ["subject"; "assetId"; "code"; "creditLineId"; "line"] context).
Definition state_suffix (context : AlertContext) : string :=
  match assoc "state" context with Some (JStr state) => ":" +:+ state | _ => "" end.
Definition alert_key (kind : string) (context : AlertContext) : string :=
  kind +:+ ":" +:+ subject_of context +:+ state_suffix context.

(** [jsonSafe], as the replacer of [JSON.stringify]. *)
Fixpoint jsonSafe (v : jsval) : jsval :=
  match v with
  | JBig z => JStr (Z_to_string z)
  | JArr l => JArr (List.map jsonSafe l)
  | JObj l => JObj (List.map (fun kv => (fst kv, jsonSafe (snd kv))) l)
  | _ => v
  end.

(** [cooldownMs] is [None] when it is no number. *)
Record AlerterOptions := MkAlerter { al_service : string; al_webhookUrl : option string; al_cooldownMs : option Z }.

(** [createAlerter(service)] with the environment's settings; the cooldown is a whole number of seconds. *)
Definition createAlerter (service : string) (env : ProcessEnv) : AlerterOptions :=
  MkAlerter service (setting env "ALERT_WEBHOOK_URL")
    (match env "ALERT_COOLDOWN_S" with None => Some 900000 | Some text => Z.mul 1000 <$> Number_of_text text end).
Definition createConsoleAlerter (service : string) (env : ProcessEnv) : AlerterOptions := createAlerter service env.

Inductive AlertOut :=
| AlertLine (service kind : string) (context : AlertContext)
| AlertPost (url : string) (body : jsval).

Definition alert_body (service kind : string) (context : AlertContext) (at_ : Z) : jsval :=
  let subject := subject_of context in
  let detail := match assoc "reason" context with Some (JStr reason) => " - " +:+ reason | _ => "" end in
  let text := "[ballast/" +:+ service +:+ "] " +:+ kind +:+ (if eqs subject "" then "" else " (" +:+ subject +:+ ")") +:+ detail in
  jsonSafe (JObj [("text", JStr text); ("content", JStr text); ("service", JStr service); ("kind", JStr kind);
    ("context", JObj context); ("at", JStr (toISOString at_))]).

(** [fire], at [at_]: what it outputs and the map [lastSent] it leaves. *)
Definition fire (alerter : AlerterOptions) (kind : string) (context : AlertContext) (at_ : Z) (lastSent : gmap string Z)
    : list AlertOut * gmap string Z :=
  let line := AlertLine (al_service alerter) kind context in
  match al_webhookUrl alerter with
  | None => ([line], lastSent)
  | Some url =>
      let key := alert_key kind context in
      let quiet := match lastSent !! key, al_cooldownMs alerter with
                   | Some previous, Some cooldown => at_ - previous <? cooldown
                   | _, _ => false
                   end in
      if quiet then ([line], lastSent)
      else ([line; AlertPost url (alert_body (al_service alerter) kind context at_)], <[key := at_]> lastSent)
  end.

(** An alert raised, and a service's alerts one after the other; each comes with what it output. *)
Record Raised := Raise { ra_kind : string; ra_context : AlertContext; ra_at : Z }.
Definition ra_key (a : Raised) : string := alert_key (ra_kind a) (ra_context a).

Fixpoint fire_all (alerter : AlerterOptions) (alerts : list Raised) (lastSent : gmap string Z) : list (Raised * list AlertOut) :=
  match alerts with
  | [] => []
  | a :: rest =>
      let '(out, lastSent') := fire alerter (ra_kind a) (ra_context a) (ra_at a) lastSent in
      (a, out) :: fire_all alerter rest lastSent'
  end.

(** ** What gets through *)
Definition posts (out : list AlertOut) : list (string * jsval) :=
  List.concat (List.map (fun o => match o with AlertPost url body => [(url, body)] | AlertLine _ _ _ => [] end) out).

(** When an alert with the key was last posted. *)
Fixpoint last_post (key : string) (before : list (Raised * list AlertOut)) : option Z :=
  match before with
  | [] => None
  | (a, out) :: later =>
      match last_post key later with
      | Some t => Some t
      | None => if eqs (ra_key a) key && negb (bool_decide (length (posts out) = 0%nat)) then Some (ra_at a) else None
      end
  end.

Lemma last_post_snoc key before a out :
  last_post key (before ++ [(a, out)]) =
  if eqs (ra_key a) key && negb (bool_decide (length (posts out) = 0%nat)) then Some (ra_at a) else last_post key before.
Proof.
  induction before as [|[b o] before IH]; cbn -[eqs]; [by destruct (_ && _)|]. rewrite IH. by destruct (eqs (ra_key a) key && _).
Qed.

Section Cooldown.
Context (alerter : AlerterOptions) (url : string) (cooldown : Z)
  (Hurl : al_webhookUrl alerter = Some url) (Hcooldown : al_cooldownMs alerter = Some cooldown).

(** The line is written whatever happens; the alert is posted unless one with its key was, less than a
    cooldown before. *)
Definition handled (before : list (Raised * list AlertOut)) (x : Raised * list AlertOut) : Prop :=
  let '(a, out) := x in
  let line := AlertLine (al_service alerter) (ra_kind a) (ra_context a) in
  out = match last_post (ra_key a) before with
        | Some t => if ra_at a - t <? cooldown then [line] else [line; AlertPost url (alert_body (al_service alerter) (ra_kind a) (ra_context a) (ra_at a))]
        | None => [line; AlertPost url (alert_body (al_service alerter) (ra_kind a) (ra_context a) (ra_at a))]
        end.

Lemma fire_all_handled alerts before lastSent :
  (forall key, lastSent !! key = last_post key before) ->
  forall pre x post, fire_all alerter alerts lastSent = pre ++ x :: post -> handled (before ++ pre) x.
Proof.
  revert before lastSent. induction alerts as [|a alerts IH]; intros before lastSent Hm pre x post; cbn; [by destruct pre|].
  destruct (fire alerter (ra_kind a) (ra_context a) (ra_at a) lastSent) as [out lastSent'] eqn:Ef.
  unfold fire in Ef. rewrite Hurl, Hcooldown in Ef. fold (ra_key a) in Ef. rewrite Hm in Ef.
  assert (Hout : handled before (a, out) /\ forall key, lastSent' !! key = last_post key (before ++ [(a, out)])).
  { unfold handled. destruct (last_post (ra_key a) before) as [t|] eqn:Et; [destruct (ra_at a - t <? cooldown)|];
      injection Ef as <- <-; (split; [done|]); intros key; rewrite last_post_snoc; cbn -[eqs];
      [by rewrite andb_false_r|..]; rewrite andb_true_r; unfold eqs; case_bool_decide as Ek;
      [subst; by rewrite lookup_insert_eq|by rewrite lookup_insert_ne, Hm|subst; by rewrite lookup_insert_eq|by rewrite lookup_insert_ne, Hm]. }
  destruct Hout as [Hh Hm']. destruct pre as [|y pre]; cbn; intros [= <- Hrest].
  - by rewrite app_nil_r.
  - replace (before ++ (a, out) :: pre) with ((before ++ [(a, out)]) ++ pre) by (by rewrite <- app_assoc). by eapply IH.
Qed.

(** Of any alerts a process raises, each is logged, and posted unless one of the same kind about the
    same subject in the same state was posted less than a cooldown before. *)
Lemma alerts_once_per_cooldown alerts pre x post :
  fire_all alerter alerts ∅ = pre ++ x :: post -> handled pre x.
Proof. by apply (fire_all_handled alerts [] ∅). Qed.
End Cooldown.

(** Alerts about different subjects do not keep each other quiet, nor do different states of one. *)
Example different_subjects :
  let alerter := MkAlerter "keeper" (Some "https://hooks") (Some 900000) in
  let raise subject state at_ := Raise "margin_call" [("creditLineId", JStr subject); ("state", JStr state)] at_ in
  List.map (fun x => length (posts (snd x)))
    (fire_all alerter [raise "a" "MarginCall" 0; raise "b" "MarginCall" 1; raise "a" "Liquidation" 2; raise "a" "MarginCall" 899999;
                       raise "a" "MarginCall" 900000] ∅) = [1; 1; 1; 0; 1]%nat.
Proof. vm_compute. done. Qed.

(** ** balance.ts *)
Definition DEFAULT_MIN_XLM : double := Floats.Number "20".
Definition below (x y : double) : bool := SFltb x y.

(** Horizon's answer: its status, and an account's balances as the interface of the source declares
    them.  [None] is a body that is no such account. *)
Record HorizonAccount := Account { ha_status : Z; ha_balances : outcome (list (string * string)) }.
Inductive BalanceCall : Type -> Type :=
| FetchAccount (url : string) : BalanceCall HorizonAccount.
Inductive BalanceOut :=
| BalanceUnread (label reason : string)
| BalanceLow (account label : string) (balance minXlm : double).
Notation balance_prog := (prog unit BalanceCall BalanceOut).
Notation balance_world := (world unit BalanceCall BalanceOut).

Definition nativeBalanceXlm (horizonUrl account : string) : balance_prog double :=
  res <- call (FetchAccount (without_slashes horizonUrl +:+ "/accounts/" +:+ account)) ;;
  if ha_status res =? 404 then Ret (S754_zero false)
  else if negb ((200 <=? ha_status res) && (ha_status res <=? 299))
  then Throw (Error ("Horizon responded " +:+ Z_to_string (ha_status res) +:+ " for " +:+ account))
  else
    balances <- lift (ha_balances res) ;;
    match List.find (fun b => eqs (fst b) "native") balances with
    | Some native => Ret (Floats.Number (snd native))
    | None => Ret (S754_zero false)
    end.

(** [minXlm] is [OPERATOR_MIN_XLM] or the default. *)
Definition min_xlm (env : ProcessEnv) : double :=
  match env "OPERATOR_MIN_XLM" with Some text => Floats.Number text | None => DEFAULT_MIN_XLM end.

Definition checkOperatorBalance (env : ProcessEnv) (horizonUrl account label : string) : balance_prog (option double) :=
  read <- attempt (nativeBalanceXlm horizonUrl account) ;;
  match read with
  | Err err => emit (BalanceUnread label (exn_message err)) ;;; Ret None
  | Ok balance =>
      (if below balance (min_xlm env) then emit (BalanceLow account label balance (min_xlm env)) else Ret tt) ;;;
      Ret (Some balance)
  end.

(** A check asks Horizon once, never fails, alerts exactly when a balance was read that is below the
    minimum (an account that does not exist has none), and takes no outage for an empty account. *)
Lemma balance_check_alerts_exactly_when_low env horizonUrl account label (w : balance_world) :
  wp any_answer (checkOperatorBalance env horizonUrl account label) (fun r w' =>
    exists answer, let asked := ECall (FetchAccount (without_slashes horizonUrl +:+ "/accounts/" +:+ account)) answer in
    match r with
    | Ok None => exists reason, w_log w' = w_log w ++ [asked; EOut (BalanceUnread label reason)] /\
        match answer with Ok res => ha_status res <> 404 | Err _ => True end
    | Ok (Some balance) => w_log w' = w_log w ++ asked ::
          (if below balance (min_xlm env) then [EOut (BalanceLow account label balance (min_xlm env))] else []) /\
        exists res, answer = Ok res /\ (ha_status res = 404 -> balance = S754_zero false)
    | Err _ => False
    end) w.
Proof.
  intros answer _. destruct answer as [res|x]; cbn -[below min_xlm].
  2: { exists (Err x). cbn. exists (exn_message x). by rewrite <- app_assoc. }
  destruct (ha_status res =? 404) eqn:E4.
  { cbn -[below min_xlm]. destruct (below _ _) eqn:Eb; exists (Ok res); cbn -[below min_xlm]; rewrite ?Eb; (split; [by rewrite <- ?app_assoc|by exists res]). }
  apply Z.eqb_neq in E4. destruct (negb _); cbn -[below min_xlm]; [exists (Ok res); eexists; by rewrite <- app_assoc|].
  destruct (ha_balances res) as [balances|x]; cbn -[below min_xlm]; [|exists (Ok res); eexists; by rewrite <- app_assoc].
  destruct (List.find _ balances) as [native|]; cbn -[below min_xlm];
    (destruct (below _ _) eqn:Eb; exists (Ok res); cbn -[below min_xlm]; rewrite ?Eb; (split; [by rewrite <- ?app_assoc|by exists res])).
Qed.
