(* ===== verification/Reconcile.v ===== *)
(** [services/ledger/src]: the nightly comparison of the books with the indexed contract events
    ([reconcile.ts]) and its scheduled run ([index.ts]). *)
From S2P Require Import Prelude Prog Schema Rules Domain.

(** The reconciliation calls nothing but the database. *)
Inductive LedgerCall : Type -> Type :=.

(** ** The report *)
Record AssetMismatch := Mismatch {
  am_assetId : string; am_code : string; am_pgUnits : string; am_chainUnitsImplied : string; am_diffUnits : string }.

Record Balance := Bal { b_debit : Z; b_credit : Z; b_net : Z }.

Record ReconciliationReport := Report {
  rp_comparedAssets : Z; rp_mismatches : list AssetMismatch; rp_journalAccountBalances : list (string * Balance) }.

(** The alert, and the log lines of the scheduled run. *)
Inductive LedgerOut :=
| ReconciliationBreak (breaks : Z) (mismatches : list AssetMismatch)
| ReconciliationComplete (breaks comparedAssets : Z)
| ReconciliationFailed (err : exn).

Notation ledger_prog := (prog Database LedgerCall LedgerOut).
Notation ledger_world := (world Database LedgerCall LedgerOut).

Definition TOLERANCE_UNITS : Z := 100.
Definition PLEDGE_TOPICS : list string := ["pledged"; "released"; "liquidated"].

Definition topicDelta (topic : string) (units : Z) : Z :=
  if eqs topic "pledged" then units
  else if eqs topic "released" || eqs topic "liquidated" then - units
  else 0.

(** ** The books: balances per account.  [(balances[account] ??= zero)] and the additions to it. *)
Fixpoint add_balance (account : string) (debit credit : Z) (l : list (string * Balance)) : list (string * Balance) :=
  match l with
  | [] => [(account, Bal debit credit (debit - credit))]
  | (a, b) :: l' =>
      if eqs account a
      then (a, Bal (b_debit b + debit) (b_credit b + credit) (b_net b + (debit - credit))) :: l'
      else (a, b) :: add_balance account debit credit l'
  end.

Definition add_journal_row (acc : list (string * Balance)) (row : journalEntry_row) : outcome (list (string * Balance)) :=
  debit <-? decimalStringToScaled (je_debit row) ;;
  credit <-? decimalStringToScaled (je_credit row) ;;
  Ok (add_balance (je_account row) debit credit acc).

(** ** Units held, by the books and by the events *)
Definition is_held (assetId : string) (p : pledge_row) : bool := eqs (pl_assetId p) assetId && eqs (pl_status p) "active".

Definition pg_units (pledges : list pledge_row) (assetId : string) : outcome Z :=
  ofold (fun sum p => units <-? decimalStringToScaled (pl_units p) ;; Ok (sum + units)) 0
    (List.filter (is_held assetId) pledges).

Definition event_value (e : chainEvent_row) : jsval := js_get "value" (ce_data e).

(** [Array.isArray(value) && value[0] === address]. *)
Definition names_asset (address : string) (e : chainEvent_row) : bool :=
  match event_value e with
  | JArr (JStr a :: _) => eqs a address
  | _ => false
  end.

Definition relevant (address : string) (e : chainEvent_row) : bool :=
  existsb (eqs (ce_topic e)) PLEDGE_TOPICS && names_asset address e.

Definition event_units (e : chainEvent_row) : outcome Z :=
  match js_nth 1 (event_value e) with
  | JStr unitsField => BigInt unitsField
  | _ => Ok 0
  end.

Definition chain_units (events : list chainEvent_row) (address : string) : outcome Z :=
  ofold (fun sum e => units <-? event_units e ;; Ok (sum + topicDelta (ce_topic e) units)) 0
    (List.filter (relevant address) events).

Definition compare_asset (pledges : list pledge_row) (events : list chainEvent_row)
    (mismatches : list AssetMismatch) (a : asset_row) : outcome (list AssetMismatch) :=
  pgUnits <-? pg_units pledges (a_id a) ;;
  chainUnits <-? chain_units events (a_contractC a) ;;
  let diff := pgUnits - chainUnits in
  let absDiff := if diff <? 0 then - diff else diff in
  Ok (if TOLERANCE_UNITS <? absDiff
      then mismatches ++ [Mismatch (a_id a) (a_code a) (Z_to_string pgUnits) (Z_to_string chainUnits) (Z_to_string diff)]
      else mismatches).

(** The report as the [jsonb] column holds it. *)
Definition balance_json (b : string * Balance) : string * jsval :=
  (fst b, JObj [("debit", JStr (Z_to_string (b_debit (snd b)))); ("credit", JStr (Z_to_string (b_credit (snd b))));
                ("net", JStr (Z_to_string (b_net (snd b))))]).

Definition mismatch_json (m : AssetMismatch) : jsval :=
  JObj [("assetId", JStr (am_assetId m)); ("code", JStr (am_code m)); ("pgUnits", JStr (am_pgUnits m));
        ("chainUnitsImplied", JStr (am_chainUnitsImplied m)); ("diffUnits", JStr (am_diffUnits m))].

Definition scope_json : jsval :=
  JObj [("compared", JStr ("postgres pledge.units (status='active') per asset vs. pledged/released/liquidated " +:+
           "chain_event rows naming that asset at index 0 of the decoded (asset, units, ...) " +:+
           "data.value tuple, reading units from index 1"));
        ("deferred", JArr [
           JStr ("no direct on-chain contract-balance introspection (this compares against our own indexed " +:+
                 "chain_event log, not a fresh read of contract storage)");
           JStr "credit-line USDC draw/repay balances are not reconciled here, only RWA pledge units";
           JStr "repo_trade and exit_fill flows are not yet folded into the chain-event-implied comparison"])].

Definition report_json (r : ReconciliationReport) : jsval :=
  JObj [("comparedAssets", JNum (rp_comparedAssets r));
        ("mismatches", JArr (List.map mismatch_json (rp_mismatches r)));
        ("journalAccountBalances", JObj (List.map balance_json (rp_journalAccountBalances r)));
        ("scope", scope_json)].

(** ** runReconciliation *)
Definition everything (t : table) : ledger_prog (list (row t)) := stmt (select t (fun _ => true)).

Definition report_of (journalRows : list journalEntry_row) (assets : list asset_row)
    (pledgeRows : list pledge_row) (chainEventRows : list chainEvent_row) : outcome ReconciliationReport :=
  balances <-? ofold add_journal_row [] journalRows ;;
  mismatches <-? ofold (compare_asset pledgeRows chainEventRows) [] assets ;;
  Ok (Report (Z.of_nat (List.length assets)) mismatches balances).

Definition runReconciliation : ledger_prog (Z * ReconciliationReport) :=
  journalRows <- everything journalEntry ;;
  assets <- everything asset ;;
  pledgeRows <- everything pledge ;;
  chainEventRows <- everything chainEvent ;;
  report <- lift (report_of journalRows assets pledgeRows chainEventRows) ;;
  let breaks := Z.of_nat (List.length (rp_mismatches report)) in
  stmt (insert reconciliationRun (fun s =>
    ReconciliationRun (st_uuid s) "nightly" (st_now s) breaks (report_json report))) ;;;
  (if 0 <? breaks then emit (ReconciliationBreak breaks (rp_mismatches report)) else Ret tt) ;;;
  Ret (breaks, report).

(** index.ts: what the cron job runs. *)
Definition scheduled_run : ledger_prog unit :=
  catch (outcome <- runReconciliation ;;
         emit (ReconciliationComplete (fst outcome) (rp_comparedAssets (snd outcome))))
    (fun err => emit (ReconciliationFailed err)).

(** ** What the figures are *)
Implicit Types d : Database.
Notation units_of := (fun p : pledge_row => amount_of (pl_units p)).

(** What the books hold of an asset, and what the events of its contract address say is held. *)
Definition held (d : Database) (a : asset_row) : Z := sum_of units_of (List.filter (is_held (a_id a)) (d pledge)).

Definition moved (d : Database) (topic address : string) : Z :=
  sum_of (fun e => value_or_0 (event_units e))
    (List.filter (fun e => eqs (ce_topic e) topic && names_asset address e) (d chainEvent)).

Definition implied (d : Database) (a : asset_row) : Z :=
  let c := a_contractC a in moved d "pledged" c - moved d "released" c - moved d "liquidated" c.

Definition breaks_on (d : Database) (a : asset_row) : bool := TOLERANCE_UNITS <? Z.abs (held d a - implied d a).

Definition mismatch_of (d : Database) (a : asset_row) : AssetMismatch :=
  Mismatch (a_id a) (a_code a) (Z_to_string (held d a)) (Z_to_string (implied d a)) (Z_to_string (held d a - implied d a)).

(** An account's balance over its journal rows; it has none without a row. *)
Definition account_rows (d : Database) (account : string) : list journalEntry_row :=
  List.filter (fun r => eqs account (je_account r)) (d journalEntry).

Definition balance_of (rows : list journalEntry_row) : option Balance :=
  match rows with
  | [] => None
  | _ => Some (Bal (sum_of (fun r => amount_of (je_debit r)) rows) (sum_of (fun r => amount_of (je_credit r)) rows) (journal_net rows))
  end.

(** Every amount the reconciliation reads is a number. *)
Definition readable (d : Database) : Prop :=
  Forall (fun r => is_ok (decimalStringToScaled (je_debit r)) && is_ok (decimalStringToScaled (je_credit r))) (d journalEntry) /\
  Forall (fun a =>
    Forall (fun p => is_ok (decimalStringToScaled (pl_units p))) (List.filter (is_held (a_id a)) (d pledge)) /\
    Forall (fun e => is_ok (event_units e)) (List.filter (relevant (a_contractC a)) (d chainEvent))) (d asset).

Lemma moved_split events address :
  sum_of (fun e => topicDelta (ce_topic e) (value_or_0 (event_units e))) (List.filter (relevant address) events) =
  let moved t := sum_of (fun e => value_or_0 (event_units e)) (List.filter (fun e => eqs (ce_topic e) t && names_asset address e) events) in
  moved "pledged" - moved "released" - moved "liquidated".
Proof.
  cbn zeta. induction events as [|e events IH]; [done|]. cbn [List.filter].
  assert (Hr : relevant address e = (eqs (ce_topic e) "pledged" || (eqs (ce_topic e) "released" || (eqs (ce_topic e) "liquidated" || false))) && names_asset address e) by done.
  rewrite Hr. clear Hr. destruct (names_asset address e); [|by rewrite !andb_false_r].
  rewrite !andb_true_r, orb_false_r.
  assert (Ht : forall u, topicDelta (ce_topic e) u = if eqs (ce_topic e) "pledged" then u
    else if eqs (ce_topic e) "released" || eqs (ce_topic e) "liquidated" then - u else 0) by done.
  assert (Hone : forall s t, eqs (ce_topic e) s = true -> eqs (ce_topic e) t = true -> s = t).
  { unfold eqs. intros s t <-%bool_decide_eq_true <-%bool_decide_eq_true. done. }
  destruct (eqs (ce_topic e) "pledged") eqn:E1, (eqs (ce_topic e) "released") eqn:E2, (eqs (ce_topic e) "liquidated") eqn:E3;
    try (discriminate (Hone _ _ E1 E2)); try (discriminate (Hone _ _ E1 E3)); try (discriminate (Hone _ _ E2 E3));
    cbn [orb] in *; rewrite ?sum_of_cons, ?Ht; lia.
Qed.

Lemma pg_units_spec d a :
  match pg_units (d pledge) (a_id a) with
  | Ok z => z = held d a
  | Err _ => ~ Forall (fun p => is_ok (decimalStringToScaled (pl_units p))) (List.filter (is_held (a_id a)) (d pledge))
  end.
Proof.
  pose proof (ofold_sum (fun p => decimalStringToScaled (pl_units p)) (fun _ u => u) (List.filter (is_held (a_id a)) (d pledge)) 0) as H.
  unfold pg_units. destruct (ofold _ _ _); [|done]. by destruct H as [_ ->].
Qed.

Lemma chain_units_spec d a :
  match chain_units (d chainEvent) (a_contractC a) with
  | Ok z => z = implied d a
  | Err _ => ~ Forall (fun e => is_ok (event_units e)) (List.filter (relevant (a_contractC a)) (d chainEvent))
  end.
Proof.
  pose proof (ofold_sum event_units (fun e u => topicDelta (ce_topic e) u) (List.filter (relevant (a_contractC a)) (d chainEvent)) 0) as H.
  unfold chain_units. destruct (ofold _ _ _); [|done]. destruct H as [_ ->]. by rewrite moved_split.
Qed.

Lemma compare_all d assets acc :
  match ofold (compare_asset (d pledge) (d chainEvent)) acc assets with
  | Ok ms => ms = acc ++ List.map (mismatch_of d) (List.filter (breaks_on d) assets)
  | Err _ => ~ Forall (fun a =>
      Forall (fun p => is_ok (decimalStringToScaled (pl_units p))) (List.filter (is_held (a_id a)) (d pledge)) /\
      Forall (fun e => is_ok (event_units e)) (List.filter (relevant (a_contractC a)) (d chainEvent))) assets
  end.
Proof.
  revert acc. induction assets as [|a assets IH]; intros acc; [by rewrite app_nil_r|]. cbn [ofold].
  pose proof (pg_units_spec d a) as Hp. pose proof (chain_units_spec d a) as Hc. unfold compare_asset at 1.
  destruct (pg_units _ _) as [pg|x]; cbn [obind]; [|intros Hal; inversion Hal; naive_solver].
  destruct (chain_units _ _) as [ch|x]; cbn [obind]; [|intros Hal; inversion Hal; naive_solver]. subst pg ch.
  replace (if held d a - implied d a <? 0 then - (held d a - implied d a) else held d a - implied d a)
    with (Z.abs (held d a - implied d a)) by (destruct (Z.ltb_spec (held d a - implied d a) 0); lia).
  fold (breaks_on d a). fold (mismatch_of d a). cbn [List.filter].
  set (acc' := if breaks_on d a then _ else _). specialize (IH acc').
  destruct (ofold _ _ _); [|intros Hal; inversion Hal; by apply IH]. rewrite IH. subst acc'.
  destruct (breaks_on d a); [|done]. cbn [List.map]. by rewrite <- app_assoc.
Qed.

Lemma assoc_add_balance account account' debit credit l :
  assoc account (add_balance account' debit credit l) =
  if eqs account account' then
    Some (let b := default (Bal 0 0 0) (assoc account l) in Bal (b_debit b + debit) (b_credit b + credit) (b_net b + (debit - credit)))
  else assoc account l.
Proof.
  unfold eqs. induction l as [|[a b] l IH]; cbn [add_balance assoc]; unfold eqs.
  - case_bool_decide; [|done]. by cbn.
  - destruct (decide (account' = a)) as [<-|Hne].
    + rewrite bool_decide_true by done. cbn [assoc]. by case_bool_decide.
    + rewrite (bool_decide_false (account' = a)) by done. cbn [assoc]. rewrite IH.
      repeat case_bool_decide; congruence.
Qed.

(** One more journal row of an account. *)
Lemma balance_of_snoc rows r :
  let b := default (Bal 0 0 0) (balance_of rows) in
  let debit := amount_of (je_debit r) in
  let credit := amount_of (je_credit r) in
  balance_of (rows ++ [r]) = Some (Bal (b_debit b + debit) (b_credit b + credit) (b_net b + (debit - credit))).
Proof.
  assert (E : balance_of (rows ++ [r]) = Some (Bal (sum_of (fun r => amount_of (je_debit r)) (rows ++ [r]))
    (sum_of (fun r => amount_of (je_credit r)) (rows ++ [r])) (journal_net (rows ++ [r])))) by (by destruct rows).
  cbn zeta. rewrite E, !sum_of_app, journal_net_app. cbn [sum_of journal_net foldr].
  destruct rows; cbn [balance_of default]; repeat f_equal; cbn [b_debit b_credit b_net sum_of journal_net foldr]; lia.
Qed.

Lemma balances_spec rows :
  match ofold add_journal_row [] rows with
  | Ok l => forall account, assoc account l = balance_of (List.filter (fun r => eqs account (je_account r)) rows)
  | Err _ => ~ Forall (fun r => is_ok (decimalStringToScaled (je_debit r)) && is_ok (decimalStringToScaled (je_credit r))) rows
  end.
Proof.
  induction rows as [|r rows IH] using rev_ind; [done|]. rewrite ofold_app.
  destruct (ofold add_journal_row [] rows) as [l|x]; cbn [obind];
    [|rewrite Forall_app; tauto].
  cbn [ofold]. unfold add_journal_row.
  destruct (decimalStringToScaled (je_debit r)) as [dd|x] eqn:Ed; cbn [obind];
    [|rewrite Forall_app, Forall_singleton, Ed; cbn; tauto].
  destruct (decimalStringToScaled (je_credit r)) as [cc|x] eqn:Ec; cbn [obind];
    [|rewrite Forall_app, Forall_singleton, Ed, Ec; cbn; tauto].
  intros account. rewrite assoc_add_balance, IH, List.filter_app. cbn [List.filter].
  destruct (eqs account (je_account r)); [|by rewrite app_nil_r].
  pose proof (balance_of_snoc (List.filter (fun r => eqs account (je_account r)) rows) r) as H.
  unfold amount_of in H. rewrite Ed, Ec in H. cbn zeta in H. by rewrite H.
Qed.

(** ** What a run does *)
Definition Exact d (report : ReconciliationReport) : Prop :=
  rp_comparedAssets report = Z.of_nat (List.length (d asset)) /\
  rp_mismatches report = List.map (mismatch_of d) (List.filter (breaks_on d) (d asset)) /\
  forall account, assoc account (rp_journalAccountBalances report) = balance_of (account_rows d account).

Lemma report_of_spec d :
  match report_of (d journalEntry) (d asset) (d pledge) (d chainEvent) with
  | Ok report => Exact d report
  | Err _ => ~ readable d
  end.
Proof.
  unfold report_of. pose proof (balances_spec (d journalEntry)) as Hb. pose proof (compare_all d (d asset) []) as Hm.
  destruct (ofold add_journal_row _ _); cbn [obind]; [|intros [? _]; by apply Hb].
  destruct (ofold _ _ _); cbn [obind]; [|intros [_ ?]; by apply Hm]. by split_and!.
Qed.

(** The row a run leaves. *)
Definition run_row (report : ReconciliationReport) (r : reconciliationRun_row) : Prop :=
  rr_scope r = "nightly" /\ rr_breaks r = Z.of_nat (List.length (rp_mismatches report)) /\ rr_report r = report_json report.

(** Why a run can fail: a fault of the database, an amount that is no number, or a row the table
    refuses (more breaks than an [integer] holds, or a UUID drawn before). *)
Definition excused (e : env LedgerCall) d : Prop :=
  (exists n, db_fault e n <> NoFault) \/ ~ readable d \/
  INT4_MAX < Z.of_nat (List.length (d asset)) \/
  exists n, existsb (fun r : reconciliationRun_row => eqs (st_uuid (stamps e n)) (rr_id r)) (d reconciliationRun) = true.

Definition run_spec (e : env LedgerCall) d (r : outcome (Z * ReconciliationReport)) (w : ledger_world) : Prop :=
  (forall t, t <> reconciliationRun -> w_db w t = d t) /\
  match r with
  | Ok (breaks, report) =>
      Exact d report /\ breaks = Z.of_nat (List.length (rp_mismatches report)) /\
      (exists row, run_row report row /\ w_db w reconciliationRun = d reconciliationRun ++ [row]) /\
      w_log w = if 0 <? breaks then [EOut (ReconciliationBreak breaks (rp_mismatches report))] else []
  | Err _ =>
      w_log w = [] /\ excused e d /\
      (w_db w = d \/ exists report row, Exact d report /\ run_row report row /\
         w_db w reconciliationRun = d reconciliationRun ++ [row])
  end.

(** A read of a whole table answers it, or there was a fault. *)
Lemma run_everything (e : env LedgerCall) t (w : ledger_world) :
  run e (everything t) w = (Ok (w_db w t), tick w) \/
  exists x, run e (everything t) w = (Err x, tick w) /\ exists n, db_fault e n <> NoFault.
Proof.
  unfold everything. rewrite run_stmt_op. unfold run_stmt, select.
  destruct (db_fault e (w_tick w)) eqn:Ef; [left|right; exists e0|right; exists e0].
  - by rewrite filter_true.
  - split; [done|]. exists (w_tick w). by rewrite Ef.
  - split; [done|]. exists (w_tick w). by rewrite Ef.
Qed.

Lemma run_read_seq (e : env LedgerCall) d t (k : list (row t) -> ledger_prog (Z * ReconciliationReport)) (w : ledger_world) :
  w_db w = d -> w_log w = [] ->
  (forall w', w_db w' = d -> w_log w' = [] -> let '(r, w'') := run e (k (d t)) w' in run_spec e d r w'') ->
  let '(r, w'') := run e (bind (everything t) k) w in run_spec e d r w''.
Proof.
  intros Hd Hl Hk. rewrite run_bind. destruct (run_everything e t w) as [->|(x & -> & Hf)].
  - rewrite Hd. by apply Hk.
  - split; [intros t' _; by rewrite <- Hd|]. split; [done|]. split; [by left|]. left. exact Hd.
Qed.

Lemma run_record (e : env LedgerCall) d report (w : ledger_world) :
  w_db w = d -> w_log w = [] -> Exact d report ->
  let breaks := Z.of_nat (List.length (rp_mismatches report)) in
  let '(r, w') := run e (stmt (insert reconciliationRun (fun s =>
      ReconciliationRun (st_uuid s) "nightly" (st_now s) breaks (report_json report))) ;;;
    (if 0 <? breaks then emit (ReconciliationBreak breaks (rp_mismatches report)) else Ret tt) ;;;
    Ret (breaks, report)) w in run_spec e d r w'.
Proof.
  intros Hd Hl He breaks. rewrite run_bind, run_stmt_op. unfold run_stmt. rewrite Hd.
  set (row := ReconciliationRun (st_uuid (stamps e (w_tick w))) "nightly" (st_now (stamps e (w_tick w))) breaks (report_json report)). assert (Hrow : run_row report row) by done.
  assert (Hq : (insert reconciliationRun (fun s => ReconciliationRun (st_uuid s) "nightly" (st_now s) breaks (report_json report)) (stamps e (w_tick w)) d
    = Ok (tt, set_table reconciliationRun (d reconciliationRun ++ [row]) d)) \/
    excused e d /\ exists x, insert reconciliationRun (fun s => ReconciliationRun (st_uuid s) "nightly" (st_now s) breaks (report_json report)) (stamps e (w_tick w)) d = Err x).
  { unfold insert. cbn [in_range rr_breaks]. fold row. destruct (int4 breaks) eqn:Ei; cbn [negb].
    - unfold conflicts. destruct (existsb _ (d reconciliationRun)) eqn:Ec; [|by left].
      right. split; [|by eauto]. do 3 right. by exists (w_tick w).
    - right. split; [|by eauto]. right. right. left. destruct He as (_ & Hm & _). subst breaks.
      rewrite Hm, length_map in Ei. pose proof (List.filter_length_le (breaks_on d) (d asset)) as Hle.
      unfold int4, INT4_MAX in *. cbn [row] in *. apply andb_false_iff in Ei as [Ei|Ei]; apply Z.leb_gt in Ei; [lia|].
      eapply Z.lt_le_trans; [exact Ei|]. by apply inj_le. }
  assert (Hfail : forall x w', db_fault e (w_tick w) <> NoFault \/ excused e d -> w_log w' = [] ->
    (w_db w' = d \/ w_db w' = set_table reconciliationRun (d reconciliationRun ++ [row]) d) -> run_spec e d (Err x) w').
  { intros x w' Hx Hl' Hw'. split; [intros t Ht; destruct Hw' as [E|E]; rewrite E; [done|by rewrite set_table_other]|].
    split; [done|]. split; [destruct Hx as [Hx|Hx]; [left; by eauto|done]|].
    destruct Hw' as [Hw'|Hw']; [by left|]. right. exists report, row. split; [done|]. split; [done|].
    by rewrite Hw', set_table_same. }
  destruct (db_fault e (w_tick w)) eqn:Ef.
  2: { apply Hfail; [by left|done|by left]. }
  all: destruct Hq as [->|[Hx [x ->]]]; [|apply Hfail; [by right|done|by left]].
  2: { apply Hfail; [by left|done|by right]. }
  assert (Hok : forall w', w_db w' = set_table reconciliationRun (d reconciliationRun ++ [row]) d ->
    w_log w' = (if 0 <? breaks then [EOut (ReconciliationBreak breaks (rp_mismatches report))] else []) ->
    run_spec e d (Ok (breaks, report)) w').
  { intros w' E1 E2. split; [intros t Ht; by rewrite E1, set_table_other|]. split; [done|]. split; [done|].
    split; [exists row; by rewrite E1, set_table_same|done]. }
  destruct (0 <? breaks) eqn:Eb; cbn; apply Hok; cbn; rewrite ?Hl; done.
Qed.

(** C33. A reconciliation run changes nothing but its own table.  If it returns, its report names
    exactly the assets whose active pledges differ by more than the tolerance from what the vault's
    events imply (pledged less released less liquidated, over the events that name the asset's
    contract), with both figures; it gives every account's debits, credits and net; the report is on
    file, and an alert with it was fired exactly if there was a break.  It fails only on a database
    fault, an amount that is not a number or a row the table refuses, and then has alerted nobody. *)
Theorem reconciliation_reports_every_break (e : env LedgerCall) (d : Database) :
  let '(r, w) := run e runReconciliation (World d 0 []) in run_spec e d r w.
Proof.
  unfold runReconciliation. do 4 (apply run_read_seq; [done..|]; intros ? ?Hd ?Hl).
  rewrite run_bind. pose proof (report_of_spec d) as Hr. destruct (report_of _ _ _ _) as [report|x]; cbn [lift run].
  - by apply run_record.
  - split; [by intros t _; rewrite Hd2|]. split; [done|]. split; [right; by left|by left].
Qed.

(** Units whose release was asked for are still in the vault, but their pledge is [pending_release],
    not [active]: where the events account for both, exactly they are reported as a break. *)
Lemma requested_release_is_a_break d a :
  let pending := sum_of units_of (List.filter (fun p => eqs (pl_assetId p) (a_id a) && eqs (pl_status p) "pending_release") (d pledge)) in
  implied d a = held d a + pending -> breaks_on d a = (TOLERANCE_UNITS <? Z.abs pending).
Proof. intros pending E. unfold breaks_on. rewrite E. by replace (held d a - (held d a + pending)) with (- pending) by lia; rewrite Z.abs_opp. Qed.

(** The report on a small set of books: 12 units pledged, 2 released again, 5 of the rest held. *)
Definition sample_asset : asset_row :=
  Asset "a1" "USTRY" "G" "etherfuse" "CASSET" "classic_sac" "accumulating" "escrow" "USD" 1 None "daily" 50 100 500 0 "active" 0.
Definition vault_event (topic units : string) : chainEvent_row :=
  ChainEvent topic None 7 "h" "CVAULT" topic (JObj [("topics", JArr [JStr "1"]); ("value", JArr [JStr "CASSET"; JStr units])]) 0.
Definition sample_pledge (status units : string) : pledge_row := Pledge status "l1" "a1" units "escrow" None None status 0.

Example reports_the_difference :
  omap' rp_mismatches (report_of [] [sample_asset]
    [sample_pledge "active" "5.0000000"; sample_pledge "released" "2.0000000"; sample_pledge "pending_release" "5.0000000"]
    [vault_event "pledged" "120000000"; vault_event "released" "20000000"; vault_event "lien_recorded" "120000000"]) =
  Ok [Mismatch "a1" "USTRY" "50000000" "100000000" "-50000000"].
Proof. vm_compute. reflexivity. Qed.
