(* ===== verification/PriceGuard.v ===== *)
(** [services/price-guard/src]: the readings of the issuers' net asset values and of the independent
    feed ([adapters/]), the attestation of a NAV ([navSignature.ts], [navAttestor.ts]), and the cycle
    that records them, publishes them on chain and reads the guarded price back ([pipeline.ts],
    [index.ts]). *)
From S2P Require Import Prelude Prog Settings Schema Rules Domain Rpc Chain Intents.

(** ** Outside the service *)

(** What [fetch] answers: the status line and what [res.text()] and [res.json()] give. *)
Record Response := Resp {
  rs_status : Z; rs_statusText : string; rs_text : outcome string; rs_json : outcome jsval }.
Definition rs_ok (r : Response) : bool := (200 <=? rs_status r) && (rs_status r <=? 299).

(** What a feed contract's [read_price_data] and the contract's [guarded_price] decode to. *)
Record OnChainPriceData := PriceData { packageTimestamp : Z; price : Z; writeTimestamp : Z }.
Record GuardedPrice := Guarded { gp_value : Z; gp_status : string; gp_sources : list (list (string * jsval)) }.

Inductive PriceCall : Type -> Type :=
| Fetch (url : string) : PriceCall Response
| ReadPriceData (rpcUrl caller contractId : string) : PriceCall OnChainPriceData
| ReadDecimals (rpcUrl caller contractId : string) : PriceCall Z
| SignMessage (message : string) : PriceCall string
| PublishNav (source assetAddress assetCode : string) (value ts : Z) (sig : string) : PriceCall string
| PublishFeed (source assetAddress sourceName : string) (value ts : Z) : PriceCall string
| SignTx (unsignedXdr : string) : PriceCall string
| SendTransaction (signedXdr : string) : PriceCall SendResponse
| GetTransactionStatus (hash : string) : PriceCall string
| ReadGuardedPrice (assetAddress : string) : PriceCall GuardedPrice.

(** The Stellar SDK, Node's crypto and base64, [JSON.parse] of a map of strings, and [Date.parse],
    whose reading of a text that is no ISO date is the engine's. *)
Class PriceLib := {
  decodeEd25519PublicKey : string -> outcome string;
  base64 : string -> string;
  unbase64 : string -> string;
  createPublicKey : string -> outcome string;
  cryptoVerify : string -> string -> string -> outcome bool;
  envelope_ok : string -> outcome unit;
  JSON_parse_map : string -> option (list (string * string));
  Date_parse : string -> option Z }.

#[export] Instance price_rpc `{PriceLib} : RpcServer PriceCall := {|
  sendTransaction := SendTransaction;
  getTransaction := GetTransactionStatus;
  parseEnvelope := envelope_ok |}.

(** What an alert tells, and the two log lines of the scheduled cycle. *)
Inductive Detail :=
| Reason (reason : string)
| SourceReason (source reason : string)
| DegradedStatus
| Disagreement (bps : option Z) (band : Z).

Inductive PriceOut :=
| PriceDegraded (assetId code : string) (detail : Detail)
| PriceHalted (assetId code : string)
| CycleComplete (count : Z)
| CycleFailed.

Notation price_prog := (prog Database PriceCall PriceOut).
Notation price_world := (world Database PriceCall PriceOut).

(** ** The adapters *)
Record Reading := Read { rd_value : Z; rd_ts : Z }.

(** *** adapters/liveNavShared.ts *)
Definition ATTEMPTS : nat := 2.

(** One turn per attempt that is left; only a request that got no answer is made again. *)
Fixpoint getJson_from (attempts : nat) (url : string) : price_prog jsval :=
  match attempts with
  | O => Throw (Error "unreachable")
  | S more =>
      answer <- attempt (call (Fetch url)) ;;
      match answer with
      | Err err => if (more =? 0)%nat then Throw err else getJson_from more url
      | Ok res =>
          if negb (rs_ok res)
          then Throw (Error ("issuer NAV request failed: GET " +:+ url +:+ " -> " +:+ Z_to_string (rs_status res) +:+ " " +:+
                 rs_statusText res +:+ ": " +:+ match rs_text res with Ok text => text | Err _ => "" end))
          else lift (rs_json res)
      end
  end.
Definition getJson (url : string) : price_prog jsval := getJson_from ATTEMPTS url.

(** [url.replace(/\/+$/, "")]. *)
Fixpoint drop_slashes (l : list ascii) : list ascii :=
  match l with "/"%char :: l' => drop_slashes l' | _ => l end.
Definition trimTrailingSlash (url : string) : string := string_rev (list_to_string (drop_slashes (string_to_list (string_rev url)))).

(** [encodeURIComponent]: bytes other than letters, digits and [-_.!~*'()] are escaped. *)
Definition hex_upper (n : Z) : ascii := if n <? 10 then ascii_of_N (Z.to_N (48 + n)) else ascii_of_N (Z.to_N (55 + n)).
Definition uri_unreserved (c : ascii) : bool :=
  is_alnum c || existsb (fun d => bool_decide (c = d)) ["-"%char; "_"%char; "."%char; "!"%char; "~"%char; "*"%char; "'"%char; "("%char; ")"%char].
Fixpoint encodeURIComponent (s : string) : string :=
  match s with
  | EmptyString => EmptyString
  | String c s' =>
      if uri_unreserved c then String c (encodeURIComponent s')
      else String "%" (String (hex_upper (char_code c / 16)) (String (hex_upper (char_code c mod 16)) (encodeURIComponent s')))
  end.

(** [v.key] on a value that may be missing. *)
Definition prop (key : string) (v : jsval) : outcome jsval :=
  match v with JNull => Err undefined_read | _ => Ok (js_get key v) end.

(** scaled.ts keeps its own copy of the parser of decimals; only a string can be parsed. *)
Definition decimalStringToScaled (decimal : string) : outcome Z := Domain.decimalStringToScaled decimal.
Definition scaled_of (v : jsval) : outcome Z :=
  match v with
  | JStr decimal => decimalStringToScaled decimal
  | JNull => Err undefined_read
  | _ => Err (TypeError "decimal.startsWith is not a function")
  end.

Section Adapters.
Context `{PriceLib}.

(** *** adapters/spikoNavAdapter.ts *)
Definition SPIKO_PUBLIC_API : string := "https://public-api.spiko.io/v0".

Definition spiko_url (baseUrl assetCode : string) : string :=
  trimTrailingSlash baseUrl +:+ "/net-asset-values/" +:+ encodeURIComponent (toUpperCase assetCode) +:+ "/latest".

Definition spiko_reading (assetCode : string) (body : jsval) : outcome Reading :=
  amount <-? prop "amount" body ;;
  currency <-? prop "currency" amount ;;
  match currency with
  | JStr "USD" =>
      updatedAt <-? prop "updatedAt" body ;;
      match Date_parse (js_String updatedAt) with
      | None => Err (Error ("spikoNavAdapter: unparseable updatedAt " +:+ quoted (js_String updatedAt) +:+ " for " +:+ assetCode))
      | Some updatedMs =>
          value <-? prop "value" amount ;;
          value <-? scaled_of value ;;
          Ok (Read value (updatedMs / 1000))
      end
  | _ => Err (Error ("spikoNavAdapter: " +:+ assetCode +:+ " NAV is quoted in " +:+ js_String currency +:+
           "; FX conversion to USD is not configured"))
  end.

Definition spiko_fetchNav (baseUrl assetCode : string) : price_prog Reading :=
  body <- getJson (spiko_url baseUrl assetCode) ;;
  lift (spiko_reading assetCode body).

(** *** adapters/etherfuseNavAdapter.ts *)
Definition ETHERFUSE_API : string := "https://api.etherfuse.com".

Definition etherfuse_url (baseUrl assetCode : string) : string :=
  trimTrailingSlash baseUrl +:+ "/lookup/tokens/cost/" +:+ encodeURIComponent (toUpperCase assetCode).

(** [Object.values(sources).map((s) => s.updated_at)]; one that is not a number is [None]. *)
Definition updates_of (sources : jsval) : outcome (list (option Z)) :=
  omap_list (fun s => updated <-? prop "updated_at" s ;; Ok (match updated with JNum z => Some z | _ => None end))
    (match sources with JObj l => List.map snd l | JArr l => l | _ => [] end).

(** [[...values].sort((a, b) => a - b)], missing values last, and the element at half its length. *)
Definition sorted_numbers (values : list (option Z)) : list (option Z) :=
  List.map Some (order_desc Z.opp (omap id values)) ++ List.filter (fun v => match v with None => true | Some _ => false end) values.
Definition median (values : list (option Z)) : option Z :=
  nth (List.length values / 2) (sorted_numbers values) None.

Definition etherfuse_reading (assetCode : string) (body : jsval) : outcome Reading :=
  sources <-? prop "sources" body ;;
  updates <-? updates_of sources ;;
  ts <-? (match updates with
          | [] => current_time <-? prop "current_time" body ;; Ok ((fun ms => ms / 1000) <$> Date_parse (js_String current_time))
          | _ => Ok (median updates)
          end) ;;
  match ts with
  | None => Err (Error ("etherfuseNavAdapter: no usable timestamp in response for " +:+ assetCode))
  | Some ts =>
      cost <-? prop "token_cost_in_usd" body ;;
      value <-? scaled_of cost ;;
      Ok (Read value ts)
  end.

Definition etherfuse_fetchNav (baseUrl assetCode : string) : price_prog Reading :=
  body <- getJson (etherfuse_url baseUrl assetCode) ;;
  lift (etherfuse_reading assetCode body).

(** *** adapters/redstoneAdapter.ts *)
Definition PRICE_SCALE_DECIMALS : Z := 7.

Definition rescalePrice (price decimals : Z) : Z :=
  let shift := decimals - PRICE_SCALE_DECIMALS in
  if shift =? 0 then price
  else if 0 <? shift then Z.quot price (10 ^ shift)
  else price * 10 ^ (- shift).

Definition oracleNetwork (env : ProcessEnv) : outcome NetworkConfig :=
  match setting env "REDSTONE_RPC_URL" with
  | None => loadNetworkConfig env
  | Some rpcUrl =>
      match setting env "REDSTONE_NETWORK_PASSPHRASE" with
      | None => Err (Error "redstoneAdapter: REDSTONE_RPC_URL is set but REDSTONE_NETWORK_PASSPHRASE is not")
      | Some passphrase => Ok (Network "mainnet" rpcUrl "" passphrase [])
      end
  end.

(** The reading of what the feed contract answers: its price rescaled, its milliseconds in seconds. *)
Definition redstone_reading (data : OnChainPriceData) (decimals : Z) : Reading :=
  Read (rescalePrice (price data) (Number decimals)) (Number (packageTimestamp data) / 1000).

Definition redstone_fetchPrice (feedContractIds : list (string * string)) (env : ProcessEnv) (assetCode : string) : price_prog Reading :=
  match assoc assetCode feedContractIds with
  | None | Some "" =>
      Throw (Error ("redstoneAdapter: no REDSTONE_FEED_CONTRACT_IDS entry for asset code " +:+ quoted assetCode +:+
        " (known: " +:+ js_or (join ", " (List.map fst feedContractIds)) "<none configured>" +:+ ")"))
  | Some contractId =>
      network <- lift (oracleNetwork env) ;;
      caller <- lift (resolveSimulationSource env) ;;
      data <- call (ReadPriceData (nc_rpcUrl network) caller contractId) ;;
      decimals <- call (ReadDecimals (nc_rpcUrl network) caller contractId) ;;
      Ret (redstone_reading data decimals)
  end.

Definition load_map (env : ProcessEnv) (key : string) : outcome (list (string * string)) :=
  match setting env key with
  | None => Ok []
  | Some text =>
      match JSON_parse_map text with
      | Some map => Ok map
      | None => Err (Error ("price-guard: " +:+ key +:+ " is not valid JSON"))
      end
  end.
Definition loadRedstoneFeedContractIds (env : ProcessEnv) : outcome (list (string * string)) := load_map env "REDSTONE_FEED_CONTRACT_IDS".

(** *** adapters/registry.ts *)
Definition loadIssuerNavSymbols (env : ProcessEnv) : outcome (list (string * string)) := load_map env "ISSUER_NAV_SYMBOLS".

Definition withSymbols (fetchNav : string -> price_prog Reading) (symbols : list (string * string)) (assetCode : string) : price_prog Reading :=
  fetchNav (default assetCode (assoc assetCode symbols)).

Definition NO_NAV_API : list string := ["franklin"].

(** [None] is an issuer without a NAV API. *)
Definition getIssuerNavAdapter (issuerCode : string) (env : ProcessEnv) : outcome (option (string -> price_prog Reading)) :=
  let code := toLowerCase issuerCode in
  if existsb (eqs code) NO_NAV_API then Ok None
  else
    symbols <-? loadIssuerNavSymbols env ;;
    if eqs code "spiko"
    then Ok (Some (withSymbols (spiko_fetchNav (default SPIKO_PUBLIC_API (setting env "SPIKO_NAV_API_BASE_URL"))) symbols))
    else if eqs code "etherfuse"
    then Ok (Some (withSymbols (etherfuse_fetchNav (default ETHERFUSE_API (setting env "ETHERFUSE_NAV_API_BASE_URL"))) symbols))
    else Err (Error ("price-guard: no issuer NAV adapter for issuer code " +:+ quoted issuerCode)).

Definition getIndependentFeedAdapter (env : ProcessEnv) : outcome (string -> price_prog Reading) :=
  feeds <-? loadRedstoneFeedContractIds env ;;
  match feeds with
  | [] => Err (Error "price-guard: REDSTONE_FEED_CONTRACT_IDS is not configured")
  | _ => Ok (redstone_fetchPrice feeds env)
  end.
End Adapters.

(** ** asset.ts, and index.ts: the configuration of an asset from its row *)
Record AssetConfig := MkAssetConfig {
  ac_id : string; ac_code : string; ac_issuerG : string; ac_issuerCode : string; ac_contractC : string;
  ac_standard : string; ac_yieldType : string; ac_custodyMode : string; ac_ccy : string;
  ac_redemptionLagDays : Z; ac_redemptionDailyCap : Z; ac_navSchedule : string; ac_priceBandBps : Z;
  ac_dailyMoveBandBps : Z; ac_haircutBaseBps : Z; ac_haircutFxBps : Z; ac_status : string }.

Definition toAssetConfig (r : asset_row) : outcome AssetConfig :=
  cap <-? match a_redemptionDailyCap r with
          | None | Some "" => Ok 0
          | Some cap => decimalStringToScaled cap
          end ;;
  Ok (MkAssetConfig (a_id r) (a_code r) (a_issuerG r) (a_issuerCode r) (a_contractC r) (a_standard r) (a_yieldType r)
        (a_custodyMode r) (a_ccy r) (a_redemptionLagDays r) cap (a_navSchedule r) (a_priceBandBps r)
        (a_dailyMoveBandBps r) (a_haircutBaseBps r) (a_haircutFxBps r) (a_status r)).

Section Pipeline.
Context `{PriceLib}.

(** ** navSignature.ts and navAttestor.ts *)
Definition canonicalNavMessage (assetCode : string) (ts value : Z) : string :=
  assetCode +:+ ":" +:+ Z_to_string ts +:+ ":" +:+ Z_to_string value.

(** The DER prefix of a raw Ed25519 key. *)
Definition ED25519_SPKI_DER_PREFIX : string :=
  list_to_string (List.map ascii_of_nat [48; 42; 48; 5; 6; 3; 43; 101; 112; 3; 33; 0]%nat).

Definition publicKeyFromRawBase64 (rawBase64 : string) : outcome string :=
  let raw := unbase64 rawBase64 in
  if negb (slen raw =? 32)%nat
  then Err (Error ("navSignature: expected a 32-byte raw Ed25519 public key (base64), got " +:+
              Z_to_string (Z.of_nat (slen raw)) +:+ " bytes"))
  else createPublicKey (ED25519_SPKI_DER_PREFIX +:+ raw).

Definition verifyNavSignature (assetCode : string) (ts value : Z) (sig issuerPublicKeyRawBase64 : string) : outcome bool :=
  publicKey <-? publicKeyFromRawBase64 issuerPublicKeyRawBase64 ;;
  cryptoVerify (canonicalNavMessage assetCode ts value) publicKey sig.

Definition attestorPublicKeyBase64 (publicKey : string) : outcome string :=
  raw <-? decodeEd25519PublicKey publicKey ;; Ok (base64 raw).

(** A signature that verifies under the publisher's own key. *)
Definition verify_own (publicKey assetCode : string) (ts value : Z) (sig : string) : outcome bool :=
  key <-? attestorPublicKeyBase64 publicKey ;; verifyNavSignature assetCode ts value sig key.

Definition attestNav (publicKey assetCode : string) (ts value : Z) : price_prog string :=
  sig <- call (SignMessage (canonicalNavMessage assetCode ts value)) ;;
  ok <- lift (verify_own publicKey assetCode ts value sig) ;;
  if negb ok
  then Throw (Error ("navAttestor: signature for " +:+ assetCode +:+ " does not verify against the signer's public key"))
  else Ret sig.

(** ** pipeline.ts *)
Definition degraded (a : AssetConfig) (detail : Detail) : price_prog unit := emit (PriceDegraded (ac_id a) (ac_code a) detail).

Definition settle (a : AssetConfig) (source : string) (read : price_prog Reading) : price_prog (option Reading) :=
  catch (r <- read ;; Ret (Some r))
    (fun err => degraded a (Reason (source +:+ " fetch failed: " +:+ exn_message err)) ;;; Ret None).

(** [None] is positive infinity. *)
Definition divergenceBps (a b : Z) : option Z :=
  if a =? 0 then None
  else
    let diff := if b <? a then a - b else b - a in
    Some (Number (Z.quot (diff * 10000) a)).
Definition above (bps : option Z) (band : Z) : bool := match bps with None => true | Some z => band <? z end.

Definition observation_row (a : AssetConfig) (source : string) (r : Reading) (observedAt : Z) (s : stamp) : priceObservation_row :=
  PriceObservation (st_uuid s) (ac_id a) source (signed_scaledToDecimalString (rd_value r)) observedAt None false.

Definition observe (a : AssetConfig) (source : string) (r : Reading) : price_prog unit :=
  observedAt <- lift (date_of_seconds (rd_ts r)) ;;
  stmt (insert_ignore priceObservation (observation_row a source r observedAt)) ;;; Ret tt.
Definition observe_opt (a : AssetConfig) (source : string) (r : option Reading) : price_prog unit :=
  match r with Some r => observe a source r | None => Ret tt end.

(** The publication of one source; its failure is remembered, not thrown. *)
Definition publish_source (source : string) (publish : price_prog unit) (errors : list (string * string)) : price_prog (list (string * string)) :=
  catch (publish ;;; Ret errors)
    (fun err => Ret (errors ++ [(source, source +:+ " publish failed: " +:+ exn_message err)])).

Definition sign_and_submit (unsignedXdr : string) : price_prog unit :=
  signedXdr <- call (SignTx unsignedXdr) ;; submitSignedTx signedXdr ;;; Ret tt.

Definition publish_nav (publicKey : string) (a : AssetConfig) (nav : Reading) : price_prog unit :=
  sig <- attestNav publicKey (ac_code a) (rd_ts nav) (rd_value nav) ;;
  navUnsignedXdr <- call (PublishNav publicKey (ac_contractC a) (ac_code a) (rd_value nav) (rd_ts nav) sig) ;;
  sign_and_submit navUnsignedXdr.

Definition publish_feed (publicKey : string) (a : AssetConfig) (feed : Reading) : price_prog unit :=
  feedUnsignedXdr <- call (PublishFeed publicKey (ac_contractC a) "redstone" (rd_value feed) (rd_ts feed)) ;;
  sign_and_submit feedUnsignedXdr.

(** The sources of a guarded price as JSON, bigints as text. *)
Definition source_json (s : list (string * jsval)) : jsval :=
  JObj (List.map (fun kv => (fst kv, match snd kv with JBig z => JStr (Z_to_string z) | v => v end)) s).

Definition snapshot_row (a : AssetConfig) (guarded : GuardedPrice) (s : stamp) : priceSnapshot_row :=
  PriceSnapshot (st_uuid s) (ac_id a) (signed_scaledToDecimalString (gp_value guarded)) (gp_status guarded)
    (JArr (List.map source_json (gp_sources guarded))) 0 (st_now s).

Definition publish_and_read_back (publicKey : string) (a : AssetConfig) (nav feed : option Reading) : price_prog unit :=
  publishErrors <- match nav with
                   | Some nav => publish_source "issuer NAV" (publish_nav publicKey a nav) []
                   | None => Ret []
                   end ;;
  publishErrors <- match feed with
                   | Some feed => publish_source "RedStone feed" (publish_feed publicKey a feed) publishErrors
                   | None => Ret publishErrors
                   end ;;
  guarded <- call (ReadGuardedPrice (ac_contractC a)) ;;
  stmt (insert priceSnapshot (snapshot_row a guarded)) ;;;
  fold (fun _ err => degraded a (SourceReason (fst err) (snd err))) tt publishErrors ;;;
  if eqs (gp_status guarded) "Degraded" then degraded a DegradedStatus
  else if eqs (gp_status guarded) "Halted" then emit (PriceHalted (ac_id a) (ac_code a))
  else Ret tt.

Definition flag_disagreement (a : AssetConfig) (nav feed : option Reading) : price_prog unit :=
  match nav, feed with
  | Some nav, Some feed =>
      let bps := divergenceBps (rd_value nav) (rd_value feed) in
      if above bps (ac_priceBandBps a) then degraded a (Disagreement bps (ac_priceBandBps a)) else Ret tt
  | _, _ => Ret tt
  end.

Section Cycle.
Context (env : ProcessEnv) (fetchPrice : string -> price_prog Reading).

Definition shadow : bool := match env "PRICE_GUARD_PUBLISH" with Some v => eqs v "false" | None => false end.

(** The body of the loop's [try]; [signer] is the publisher's public key. *)
Definition update_asset (signer : option string) (a : AssetConfig) : price_prog unit :=
  match getIssuerNavAdapter (ac_issuerCode a) env with
  | Err err => Throw err
  | Ok issuerAdapter =>
      nav <- match issuerAdapter with
             | Some fetchNav => settle a "issuer NAV" (fetchNav (ac_code a))
             | None => Ret None
             end ;;
      feed <- settle a "RedStone feed" (fetchPrice (ac_code a)) ;;
      match nav, feed with
      | None, None => Ret tt
      | _, _ =>
          observe_opt a "issuer_nav" nav ;;;
          observe_opt a "redstone" feed ;;;
          if shadow then flag_disagreement a nav feed
          else
            match signer with
            | Some publicKey => publish_and_read_back publicKey a nav feed
            | None => Throw undefined_read
            end
      end
  end.

Definition update_guarded (signer : option string) (a : AssetConfig) : price_prog unit :=
  catch (update_asset signer a) (fun err => degraded a (Reason (exn_message err))).
End Cycle.

Definition runPriceUpdateCycle (priceGuardClient : bool) (signer : option string) (assets : list AssetConfig) (env : ProcessEnv) : price_prog unit :=
  match getIndependentFeedAdapter env with
  | Err err => Throw err
  | Ok fetchPrice =>
      if negb (shadow env) && (negb priceGuardClient || bool_decide (signer = None))
      then Throw (Error "price-guard: publishing needs a PriceGuard client and an operator signer")
      else fold (fun _ a => update_guarded env fetchPrice signer a) tt assets
  end.

(** ** index.ts: what the cron job runs *)
Definition scheduled_cycle (signer : option string) (env : ProcessEnv) : price_prog unit :=
  catch (rows <- stmt (select asset (fun r => eqs (a_status r) "active")) ;;
         assets <- lift (omap_list toAssetConfig rows) ;;
         runPriceUpdateCycle (negb (shadow env)) signer assets env ;;;
         emit (CycleComplete (Z.of_nat (List.length assets))))
    (fun _ => emit CycleFailed).
End Pipeline.
