(* ===== verification/PriceGuardSafety.v ===== *)
(** What a price cycle publishes and records is what it read, attested by the publisher's key; and an
    asset nobody was alerted about went through every step. *)
From S2P Require Import Prelude Prog Settings Schema Rules Domain Rpc Chain Intents PriceGuard.

Notation price_entry := (entry PriceCall PriceOut).

(** ** The calls that end in a transaction *)
Inductive Publication :=
| NavPub (source assetAddress assetCode : string) (value ts : Z) (sig : string)
| FeedPub (source assetAddress sourceName : string) (value ts : Z).

Definition pub_call (p : Publication) : PriceCall string :=
  match p with
  | NavPub s a c v t sig => PublishNav s a c v t sig
  | FeedPub s a n v t => PublishFeed s a n v t
  end.

Definition pub_of (e : price_entry) : option Publication :=
  match e with
  | ECall c _ =>
      match c with
      | PublishNav s a co v t sig => Some (NavPub s a co v t sig)
      | PublishFeed s a n v t => Some (FeedPub s a n v t)
      | _ => None
      end
  | EOut _ => None
  end.
Definition signed_of (e : price_entry) : option string :=
  match e with ECall c _ => match c with SignTx u => Some u | _ => None end | EOut _ => None end.
Definition sent_of (e : price_entry) : option string :=
  match e with ECall c _ => match c with SendTransaction s => Some s | _ => None end | EOut _ => None end.

Definition plain (e : price_entry) : Prop := pub_of e = None /\ signed_of e = None /\ sent_of e = None.

Section Safety.
Context `{PriceLib} (env : ProcessEnv) (signer : option string) (assets : list AssetConfig).
Notation world := price_world.
Implicit Types (w : world) (log : list price_entry) (a : AssetConfig).

(** ** What was read *)
Definition nav_symbol (a : AssetConfig) (symbols : list (string * string)) : string :=
  default (ac_code a) (assoc (ac_code a) symbols).

(** The issuer's API of the asset answered with a body that reads as [r]. *)
Definition nav_read log a (r : Reading) : Prop :=
  exists symbols url resp body,
    loadIssuerNavSymbols env = Ok symbols /\
    In (ECall (Fetch url) (Ok resp)) log /\ rs_ok resp = true /\ rs_json resp = Ok body /\
    let code := nav_symbol a symbols in
    (toLowerCase (ac_issuerCode a) = "spiko" /\
     url = spiko_url (default SPIKO_PUBLIC_API (setting env "SPIKO_NAV_API_BASE_URL")) code /\ spiko_reading code body = Ok r \/
     toLowerCase (ac_issuerCode a) = "etherfuse" /\
     url = etherfuse_url (default ETHERFUSE_API (setting env "ETHERFUSE_NAV_API_BASE_URL")) code /\ etherfuse_reading code body = Ok r).

(** The asset's feed contract answered with data that read as [r]. *)
Definition feed_read log a (r : Reading) : Prop :=
  exists feeds contractId network caller data decimals,
    loadRedstoneFeedContractIds env = Ok feeds /\ assoc (ac_code a) feeds = Some contractId /\
    oracleNetwork env = Ok network /\ resolveSimulationSource env = Ok caller /\
    In (ECall (ReadPriceData (nc_rpcUrl network) caller contractId) (Ok data)) log /\
    In (ECall (ReadDecimals (nc_rpcUrl network) caller contractId) (Ok decimals)) log /\
    r = redstone_reading data decimals.

(** ** What may be published and recorded *)
Definition justified log (p : Publication) : Prop :=
  shadow env = false /\
  exists a, In a assets /\
  match p with
  | NavPub pk address code value ts sig =>
      signer = Some pk /\ address = ac_contractC a /\ code = ac_code a /\
      verify_own pk code ts value sig = Ok true /\ nav_read log a (Read value ts)
  | FeedPub pk address name value ts =>
      signer = Some pk /\ address = ac_contractC a /\ name = "redstone" /\ feed_read log a (Read value ts)
  end.

Definition Good log : Prop := forall e, In e log ->
  (forall p, pub_of e = Some p -> justified log p) /\
  (forall u, signed_of e = Some u -> exists p, In (ECall (pub_call p) (Ok u)) log) /\
  (forall s, sent_of e = Some s -> exists u, In (ECall (SignTx u) (Ok s)) log).

Definition read_from log a (source : string) (r : Reading) : Prop :=
  source = "issuer_nav" /\ nav_read log a r \/ source = "redstone" /\ feed_read log a r.

(** A recorded observation is a reading, and a recorded snapshot the contract's guarded price. *)
Definition observation_ok log (row : priceObservation_row) : Prop :=
  exists a r, In a assets /\ read_from log a (po_source row) r /\ po_assetId row = ac_id a /\
    po_value row = signed_scaledToDecimalString (rd_value r) /\ po_observedAt row = rd_ts r * 1000.
Definition snapshot_ok log (row : priceSnapshot_row) : Prop :=
  exists a guarded s, In a assets /\ In (ECall (ReadGuardedPrice (ac_contractC a)) (Ok guarded)) log /\
    row = snapshot_row a guarded s.

(** ** Steps that keep to it *)
Record fine w w' : Prop := Fine {
  fine_log : grown w w';
  fine_good : Good (w_log w) -> Good (w_log w');
  fine_tables : forall t, t <> priceObservation -> t <> priceSnapshot -> w_db w' t = w_db w t;
  fine_shadow : shadow env = true -> w_db w' priceSnapshot = w_db w priceSnapshot;
  fine_observations : incl (w_db w priceObservation) (w_db w' priceObservation);
  fine_snapshots : incl (w_db w priceSnapshot) (w_db w' priceSnapshot);
  fine_new_observations : forall r, In r (w_db w' priceObservation) -> In r (w_db w priceObservation) \/ observation_ok (w_log w') r;
  fine_new_snapshots : forall r, In r (w_db w' priceSnapshot) -> In r (w_db w priceSnapshot) \/ snapshot_ok (w_log w') r }.

Lemma nav_read_app log l a r : nav_read log a r -> nav_read (log ++ l) a r.
Proof.
  intros (symbols & url & resp & body & Hs & Hin & Hr). exists symbols, url, resp, body. split; [done|].
  split; [by apply in_or_app; left|done].
Qed.

Lemma feed_read_app log l a r : feed_read log a r -> feed_read (log ++ l) a r.
Proof.
  intros (feeds & id & n & c & data & dec & Hf & Hi & Hn & Hc & H1 & H2 & Hr).
  exists feeds, id, n, c, data, dec. do 4 (split; [done|]). by split_and!; [apply in_or_app; left..|].
Qed.

Lemma justified_grows log l p : justified log p -> justified (log ++ l) p.
Proof.
  intros [Hs (a & Ha & Hp)]. split; [done|]. exists a. split; [done|].
  destruct p; naive_solver eauto using nav_read_app, feed_read_app.
Qed.

Lemma Good_snoc log e :
  (forall p, pub_of e = Some p -> justified log p) ->
  (forall u, signed_of e = Some u -> exists p, In (ECall (pub_call p) (Ok u)) log) ->
  (forall s, sent_of e = Some s -> exists u, In (ECall (SignTx u) (Ok s)) log) ->
  Good log -> Good (log ++ [e]).
Proof.
  intros H1 H2 H3 Hg e' Hin.
  assert (Hup : forall e'', In e'' log -> In e'' (log ++ [e])) by (intros; apply in_or_app; by left).
  assert (Ho : (forall p, pub_of e' = Some p -> justified log p) /\
    (forall u, signed_of e' = Some u -> exists p, In (ECall (pub_call p) (Ok u)) log) /\
    (forall s, sent_of e' = Some s -> exists u, In (ECall (SignTx u) (Ok s)) log)).
  { apply in_app_or in Hin as [Hin|[<-|[]]]; [by apply Hg|done]. }
  destruct Ho as (G1 & G2 & G3). split_and!.
  - intros p Hp. by apply justified_grows, G1.
  - intros u Hu. destruct (G2 u Hu) as [p Hp]. eauto.
  - intros s Hs. destruct (G3 s Hs) as [u Hu]. eauto.
Qed.

Lemma observation_ok_app log l r : observation_ok log r -> observation_ok (log ++ l) r.
Proof.
  intros (a & rd & Ha & Hr & Hrow). exists a, rd. split; [done|]. split; [|done].
  destruct Hr as [[-> Hr]|[-> Hr]]; [left|right]; split; auto using nav_read_app, feed_read_app.
Qed.

Lemma snapshot_ok_app log l r : snapshot_ok log r -> snapshot_ok (log ++ l) r.
Proof.
  intros (a & g & s & Ha & Hin & ->). exists a, g, s. split; [done|]. split; [|done]. apply in_or_app. by left.
Qed.

Lemma fine_refl w w' : w_db w' = w_db w -> w_log w' = w_log w -> fine w w'.
Proof. intros Hd Hl. constructor; try by rewrite Hd; auto using incl_refl. - by apply grown_refl. - by rewrite Hl. Qed.

Lemma fine_trans w1 w2 w3 : fine w1 w2 -> fine w2 w3 -> fine w1 w3.
Proof.
  intros [L1 G1 T1 S1 O1 P1 NO1 NP1] [L2 G2 T2 S2 O2 P2 NO2 NP2]. pose proof L2 as [l Hl]. constructor.
  - by eapply grown_trans.
  - auto.
  - intros t Ho Hs. by rewrite T2, T1.
  - intros Hs. by rewrite S2, S1.
  - by eapply incl_tran.
  - by eapply incl_tran.
  - intros r [Hr|Hr]%NO2; [|by right]. destruct (NO1 r Hr) as [|Hok]; [by left|right]. rewrite Hl. by apply observation_ok_app.
  - intros r [Hr|Hr]%NP2; [|by right]. destruct (NP1 r Hr) as [|Hok]; [by left|right]. rewrite Hl. by apply snapshot_ok_app.
Qed.

Lemma fine_In w w' e : fine w w' -> In e (w_log w) -> In e (w_log w').
Proof. intros [[l ->] _ _ _ _ _ _ _] Hin. apply in_or_app. by left. Qed.

Lemma fine_note w e : (Good (w_log w) -> Good (w_log w ++ [e])) -> fine w (note w e).
Proof. intros Hg. constructor; simpl; auto using incl_refl. by exists [e]. Qed.

Lemma fine_plain w e : plain e -> fine w (note w e).
Proof. intros (H1 & H2 & H3). apply fine_note, Good_snoc; congruence. Qed.

Lemma fine_tick w : fine w (tick w).
Proof. by apply fine_refl. Qed.

Notation Adm := any_answer.

(** A call that publishes nothing. *)
Lemma wp_plain_call {X} (c : PriceCall X) w (Q : outcome X -> world -> Prop) :
  (forall r, plain (ECall c r)) ->
  (forall r w', fine w w' -> w_log w' = w_log w ++ [ECall c r] -> Q r w') ->
  wp Adm (call c) Q w.
Proof. intros Hc HQ. wp_step. apply HQ; [by apply fine_plain|done]. Qed.

Lemma In_snoc {A} (e : A) l l' : l' = l ++ [e] -> In e l'.
Proof. intros ->. apply in_or_app. right. by left. Qed.

(** ** Reading *)
Lemma wp_getJson n url w (Q : outcome jsval -> world -> Prop) :
  (forall r w', fine w w' ->
     (forall body, r = Ok body -> exists resp, In (ECall (Fetch url) (Ok resp)) (w_log w') /\ rs_ok resp = true /\ rs_json resp = Ok body) ->
     Q r w') ->
  wp Adm (getJson_from n url) Q w.
Proof.
  revert w. induction n as [|n IH]; intros w HQ; cbn [getJson_from]; [wp_step; apply HQ; [by apply fine_refl|done]|].
  wp_step. wp_step. apply wp_plain_call; [by repeat split|]. intros r w1 H1 Hl1. destruct r as [res|x].
  - destruct (rs_ok res) eqn:Eok; cbn [negb].
    + wp_step. apply HQ; [done|]. intros body Hb. exists res. by split; [eapply In_snoc|].
    + wp_step. by apply HQ.
  - wp_step; [wp_step; by apply HQ|]. apply IH. intros r w2 H2 Hr. apply HQ; [by eapply fine_trans|done].
Qed.

(** The adapter of an issuer reads what its API answers. *)
Lemma wp_fetchNav a fetchNav w (Q : outcome Reading -> world -> Prop) :
  getIssuerNavAdapter (ac_issuerCode a) env = Ok (Some fetchNav) ->
  (forall r w', fine w w' -> (forall rd, r = Ok rd -> nav_read (w_log w') a rd) -> Q r w') ->
  wp Adm (fetchNav (ac_code a)) Q w.
Proof.
  unfold getIssuerNavAdapter. intros Hf HQ. destruct (existsb _ NO_NAV_API); [done|].
  destruct (loadIssuerNavSymbols env) as [symbols|x] eqn:Es; cbn [obind] in Hf; [|done].
  set (code := nav_symbol a symbols).
  assert (Hread : forall (url : string) (decode : jsval -> outcome Reading),
    (forall resp body r log, In (ECall (Fetch url) (Ok resp)) log -> rs_ok resp = true -> rs_json resp = Ok body ->
       decode body = Ok r -> nav_read log a r) ->
    wp Adm (body <- getJson url ;; lift (decode body)) Q w).
  { intros url decode Hd. wp_step. apply wp_getJson. intros r w' Hw Hb. destruct r as [body|x]; [|by apply HQ].
    destruct (Hb body eq_refl) as (resp & Hin & Hok & Hj). wp_step. apply HQ; [done|]. intros rd Hrd. by eapply Hd. }
  destruct (eqs (toLowerCase (ac_issuerCode a)) "spiko") eqn:E1.
  { apply bool_decide_eq_true in E1. injection Hf as <-. apply Hread. intros resp body r log Hin Hok Hj Hr.
    exists symbols. do 3 eexists. do 4 (split; [done|]). left. by split_and!. }
  destruct (eqs (toLowerCase (ac_issuerCode a)) "etherfuse") eqn:E2; [|done].
  apply bool_decide_eq_true in E2. injection Hf as <-. apply Hread. intros resp body r log Hin Hok Hj Hr.
  exists symbols. do 3 eexists. do 4 (split; [done|]). right. by split_and!.
Qed.

Lemma wp_fetchPrice a fetchPrice w (Q : outcome Reading -> world -> Prop) :
  getIndependentFeedAdapter env = Ok fetchPrice ->
  (forall r w', fine w w' -> (forall rd, r = Ok rd -> feed_read (w_log w') a rd) -> Q r w') ->
  wp Adm (fetchPrice (ac_code a)) Q w.
Proof.
  unfold getIndependentFeedAdapter. intros Hf HQ. destruct (loadRedstoneFeedContractIds env) as [feeds|x] eqn:Ef; cbn [obind] in Hf; [|done].
  assert (Hthrow : forall x, Q (Err x) w) by (intros x; apply HQ; [by apply fine_refl|done]).
  assert (fetchPrice = redstone_fetchPrice feeds env) as -> by (destruct feeds; congruence). unfold redstone_fetchPrice.
  assert (Hgo : forall id, assoc (ac_code a) feeds = Some id -> wp Adm (
    network <- lift (oracleNetwork env) ;; caller <- lift (resolveSimulationSource env) ;;
    data <- call (ReadPriceData (nc_rpcUrl network) caller id) ;; decimals <- call (ReadDecimals (nc_rpcUrl network) caller id) ;;
    Ret (redstone_reading data decimals)) Q w).
  { intros id Hid. wp_step. wp_step. destruct (oracleNetwork env) as [n|x] eqn:En; [|apply Hthrow].
    wp_step. wp_step. destruct (resolveSimulationSource env) as [c|x] eqn:Ec; [|apply Hthrow].
    wp_step. apply wp_plain_call; [by repeat split|]. intros [data|x] w1 H1 Hl1; [|by apply HQ].
    wp_step. apply wp_plain_call; [by repeat split|]. intros [decimals|x] w2 H2 Hl2; (assert (fine w w2) by (by eapply fine_trans)); [|by apply HQ].
    wp_step. apply HQ; [done|]. intros rd [= <-]. exists feeds, id, n, c, data, decimals. do 4 (split; [done|]).
    split_and!; [|by eapply In_snoc|done]. eapply fine_In; [exact H2|by eapply In_snoc]. }
  destruct (assoc (ac_code a) feeds) as [[|ch id]|]; [wp_step; apply Hthrow|by apply Hgo|wp_step; apply Hthrow].
Qed.

(** ** Alerts *)
Definition alert_about a (e : price_entry) : Prop :=
  (exists detail, e = EOut (PriceDegraded (ac_id a) (ac_code a) detail)) \/ e = EOut (PriceHalted (ac_id a) (ac_code a)).
Definition alerted a log : Prop := exists e, In e log /\ alert_about a e.

Lemma alerted_fine w w' a : fine w w' -> alerted a (w_log w) -> alerted a (w_log w').
Proof. intros Hw (e & Hin & He). exists e. split; [by eapply fine_In|done]. Qed.

Lemma wp_degraded a detail w (Q : outcome unit -> world -> Prop) :
  (forall w', fine w w' -> alerted a (w_log w') -> Q (Ok tt) w') -> wp Adm (degraded a detail) Q w.
Proof.
  intros HQ. unfold degraded. wp_step. apply HQ; [by apply fine_plain|].
  eexists. split; [by eapply In_snoc|]. left. by eexists.
Qed.

Lemma wp_settle_reading a source read (P : Reading -> list price_entry -> Prop) w (Q : outcome (option Reading) -> world -> Prop) :
  (forall Q' : outcome Reading -> world -> Prop,
     (forall r w', fine w w' -> (forall rd, r = Ok rd -> P rd (w_log w')) -> Q' r w') -> wp Adm read Q' w) ->
  (forall rd w', fine w w' -> P rd (w_log w') -> Q (Ok (Some rd)) w') ->
  (forall w', fine w w' -> alerted a (w_log w') -> Q (Ok None) w') ->
  wp Adm (settle a source read) Q w.
Proof.
  intros Hread Hsome Hnone. unfold settle. wp_step. wp_step. apply Hread. intros r w1 H1 Hr. destruct r as [rd|x].
  - wp_step. apply Hsome; auto.
  - wp_step. apply wp_degraded. intros w2 H2 Hal. wp_step. apply Hnone; [by eapply fine_trans|done].
Qed.

(** ** Recording *)
(** The reading is on file, or a row it conflicts with (of the same asset, source and time) is. *)
Definition observed a (source : string) (r : Reading) (d : Database) : Prop :=
  exists s row, In row (d priceObservation) /\
    conflict priceObservation (observation_row a source r (rd_ts r * 1000) s) row = true.
Definition recorded a (guarded : GuardedPrice) (d : Database) : Prop :=
  exists s, In (snapshot_row a guarded s) (d priceSnapshot).

Lemma observed_fine w w' a source r : fine w w' -> observed a source r (w_db w) -> observed a source r (w_db w').
Proof. intros Hw (s & row & Hin & Hc). exists s, row. split; [by apply (fine_observations _ _ Hw)|done]. Qed.

Lemma recorded_fine w w' a g : fine w w' -> recorded a g (w_db w) -> recorded a g (w_db w').
Proof. intros Hw (s & Hin). exists s. by apply (fine_snapshots _ _ Hw). Qed.

Lemma fine_observation w row : observation_ok (w_log w) row ->
  fine w (after w (set_table priceObservation (w_db w priceObservation ++ [row]) (w_db w))).
Proof.
  intros Hok. constructor; cbn [w_db w_log after tick with_db].
  - by apply grown_refl.
  - done.
  - intros t Ho _. by apply set_table_other.
  - intros _. by apply set_table_other.
  - rewrite set_table_same. apply incl_appl, incl_refl.
  - rewrite set_table_other by done. apply incl_refl.
  - rewrite set_table_same. intros r [Hr|[<-|[]]]%in_app_or; auto.
  - rewrite set_table_other by done. auto.
Qed.

Lemma fine_snapshot w row : shadow env = false -> snapshot_ok (w_log w) row ->
  fine w (after w (set_table priceSnapshot (w_db w priceSnapshot ++ [row]) (w_db w))).
Proof.
  intros Hsh Hok. constructor; cbn [w_db w_log after tick with_db].
  - by apply grown_refl.
  - done.
  - intros t _ Hs. by apply set_table_other.
  - congruence.
  - rewrite set_table_other by done. apply incl_refl.
  - rewrite set_table_same. apply incl_appl, incl_refl.
  - rewrite set_table_other by done. auto.
  - rewrite set_table_same. intros r [Hr|[<-|[]]]%in_app_or; auto.
Qed.

Lemma wp_observe a source r w (Q : outcome unit -> world -> Prop) :
  In a assets -> read_from (w_log w) a source r ->
  (forall w', fine w w' -> observed a source r (w_db w') -> Q (Ok tt) w') ->
  (forall x w', fine w w' -> Q (Err x) w') ->
  wp Adm (observe a source r) Q w.
Proof.
  intros Ha Hr Hok Herr. unfold observe. wp_step. wp_step. unfold date_of_seconds.
  destruct (_ <=? _); [|apply Herr; by apply fine_refl]. wp_step. wp_step.
  - intros x. apply Herr, fine_tick.
  - intros s Hc. wp_step. apply Hok; [by apply fine_refl|]. apply existsb_exists in Hc as (row & Hin & Hc). by exists s, row.
  - intros s _ _ _. set (row := observation_row _ _ _ _ _).
    assert (Hf : fine w (after w (set_table priceObservation (w_db w priceObservation ++ [row]) (w_db w)))).
    { apply fine_observation. by exists a, r. }
    split; [|intros x; by apply Herr]. wp_step. apply Hok; [done|]. exists s, row. cbn [w_db after tick with_db].
    rewrite set_table_same. split; [apply in_or_app; right; by left|]. unfold conflict, row, eqs. by rewrite !bool_decide_true.
Qed.

Lemma wp_observe_opt a source r w (Q : outcome unit -> world -> Prop) :
  In a assets -> (forall rd, r = Some rd -> read_from (w_log w) a source rd) ->
  (forall w', fine w w' -> (forall rd, r = Some rd -> observed a source rd (w_db w')) -> Q (Ok tt) w') ->
  (forall x w', fine w w' -> Q (Err x) w') ->
  wp Adm (observe_opt a source r) Q w.
Proof.
  intros Ha Hr Hok Herr. destruct r as [rd|]; cbn [observe_opt].
  - apply wp_observe; [done|auto| |done]. intros w' Hw Ho. apply Hok; [done|]. by intros ? [= <-].
  - wp_step. apply Hok; [by apply fine_refl|done].
Qed.

(** ** Publishing *)
(** The network reported the publication's transaction as successful. *)
Definition confirmed log (p : Publication) : Prop :=
  exists unsigned signed st hash,
    In (ECall (pub_call p) (Ok unsigned)) log /\ In (ECall (SignTx unsigned) (Ok signed)) log /\
    In (ECall (SendTransaction signed) (Ok (SendR st hash))) log /\
    In (ECall (GetTransactionStatus hash) (Ok "SUCCESS")) log.

Lemma confirmed_fine w w' p : fine w w' -> confirmed (w_log w) p -> confirmed (w_log w') p.
Proof. intros Hw (u & s & st & h & H1 & H2 & H3 & H4). exists u, s, st, h. split_and!; by eapply fine_In. Qed.

Lemma wp_publication p w (Q : outcome unit -> world -> Prop) :
  justified (w_log w) p ->
  (forall w', fine w w' -> confirmed (w_log w') p -> Q (Ok tt) w') ->
  (forall x w', fine w w' -> Q (Err x) w') ->
  wp Adm (unsigned <- call (pub_call p) ;; sign_and_submit unsigned) Q w.
Proof.
  intros Hp Hok Herr. wp_step. wp_step. set (w1 := note w _).
  assert (H1 : fine w w1).
  { apply fine_note, Good_snoc; [by destruct p; intros ? [= <-]|by destruct p..]. }
  destruct r as [u|x]; [|by apply Herr]. unfold sign_and_submit. wp_step. wp_step. set (w2 := note w1 _).
  assert (Hu : In (ECall (pub_call p) (Ok u)) (w_log w1)) by (by eapply In_snoc).
  assert (H2 : fine w1 w2).
  { apply fine_note, Good_snoc; [done| |done]. intros ? [= <-]. by exists p. }
  assert (H12 : fine w w2) by (by eapply fine_trans). destruct r as [s|x]; [|by apply Herr].
  assert (Hs : In (ECall (SignTx u) (Ok s)) (w_log w2)) by (by eapply In_snoc).
  wp_step. apply (wp_submitSignedTx (H := price_rpc) Adm fine); [intros ?; by apply fine_refl|by apply fine_trans| | |by apply fine_In|].
  - intros w' h r. apply fine_plain. by repeat split.
  - intros w' r Hw'. apply fine_note, Good_snoc; [done|done|]. intros ? [= <-]. exists u. by eapply fine_In.
  - intros r w3 H3 Hr. assert (H13 : fine w w3) by (by eapply fine_trans). destruct r as [[h st]|x]; [|by apply Herr].
    wp_step. apply Hok; [done|]. destruct (Hr _ eq_refl) as (st' & Hsend & Hget). exists u, s, st', h.
    split_and!; [exact (fine_In _ _ _ H3 (fine_In _ _ _ H2 Hu))|exact (fine_In _ _ _ H3 Hs)|done|done].
Qed.

(** A reading is published only signed by the publisher over itself. *)
Lemma wp_publish_nav pk a nav w (Q : outcome unit -> world -> Prop) :
  shadow env = false -> signer = Some pk -> In a assets -> nav_read (w_log w) a nav ->
  (forall w', fine w w' -> (exists sig, confirmed (w_log w') (NavPub pk (ac_contractC a) (ac_code a) (rd_value nav) (rd_ts nav) sig)) -> Q (Ok tt) w') ->
  (forall x w', fine w w' -> Q (Err x) w') ->
  wp Adm (publish_nav pk a nav) Q w.
Proof.
  intros Hsh Hsig Ha Hnav Hok Herr. unfold publish_nav, attestNav. wp_step. wp_step.
  apply wp_plain_call; [by repeat split|]. intros r w1 H1 _. destruct r as [sig|x]; [|by apply Herr].
  wp_step. wp_step. destruct (verify_own _ _ _ _ _) as [ok|x] eqn:Ev; [|by apply Herr].
  destruct ok; cbn [negb]; wp_step; [|by apply Herr].
  apply (wp_publication (NavPub pk (ac_contractC a) (ac_code a) (rd_value nav) (rd_ts nav) sig)).
  - split; [done|]. exists a. do 5 (split; [done|]). destruct (fine_log _ _ H1) as [l ->]. destruct nav. by apply nav_read_app.
  - intros w2 H2 Hc. apply Hok; [by eapply fine_trans|by exists sig].
  - intros x w2 H2. apply Herr. by eapply fine_trans.
Qed.

Lemma wp_publish_feed pk a feed w (Q : outcome unit -> world -> Prop) :
  shadow env = false -> signer = Some pk -> In a assets -> feed_read (w_log w) a feed ->
  (forall w', fine w w' -> confirmed (w_log w') (FeedPub pk (ac_contractC a) "redstone" (rd_value feed) (rd_ts feed)) -> Q (Ok tt) w') ->
  (forall x w', fine w w' -> Q (Err x) w') ->
  wp Adm (publish_feed pk a feed) Q w.
Proof.
  intros Hsh Hsig Ha Hfeed Hok Herr. unfold publish_feed.
  apply (wp_publication (FeedPub pk (ac_contractC a) "redstone" (rd_value feed) (rd_ts feed))); [|done..].
  split; [done|]. exists a. do 4 (split; [done|]). by destruct feed.
Qed.

(** A source's publication never throws: it went through, or its failure was remembered. *)
Lemma wp_publish_source source publish errors (P : world -> Prop) w (Q : outcome (list (string * string)) -> world -> Prop) :
  (forall Q' : outcome unit -> world -> Prop,
     (forall w', fine w w' -> P w' -> Q' (Ok tt) w') -> (forall x w', fine w w' -> Q' (Err x) w') -> wp Adm publish Q' w) ->
  (forall w', fine w w' -> P w' -> Q (Ok errors) w') ->
  (forall err w', fine w w' -> Q (Ok (errors ++ [err])) w') ->
  wp Adm (publish_source source publish errors) Q w.
Proof.
  intros Hp Hok Herr. unfold publish_source. wp_step. wp_step. apply Hp.
  - intros w' Hw HP. wp_step. by apply Hok.
  - intros x w' Hw. wp_step. by apply Herr.
Qed.

(** Telling the errors. *)
Lemma wp_tell_errors a errors w (Q : outcome unit -> world -> Prop) :
  (forall w', fine w w' -> (errors <> [] -> alerted a (w_log w')) -> Q (Ok tt) w') ->
  wp Adm (fold (fun _ err => degraded a (SourceReason (fst err) (snd err))) tt errors) Q w.
Proof.
  revert w. induction errors as [|err errors IH]; intros w HQ; cbn [fold].
  - wp_step. apply HQ; [by apply fine_refl|done].
  - wp_step. apply wp_degraded. intros w1 H1 Hal. apply IH. intros w2 H2 _.
    apply HQ; [by eapply fine_trans|]. intros _. by eapply alerted_fine.
Qed.

(** Nobody was alerted about a source that was published. *)
Definition published a pk (nav feed : option Reading) (w : world) : Prop :=
  (forall r, nav = Some r -> exists sig, confirmed (w_log w) (NavPub pk (ac_contractC a) (ac_code a) (rd_value r) (rd_ts r) sig)) /\
  (forall r, feed = Some r -> confirmed (w_log w) (FeedPub pk (ac_contractC a) "redstone" (rd_value r) (rd_ts r))) /\
  exists guarded, In (ECall (ReadGuardedPrice (ac_contractC a)) (Ok guarded)) (w_log w) /\
    gp_status guarded <> "Degraded" /\ gp_status guarded <> "Halted" /\ recorded a guarded (w_db w).

Lemma wp_read_back pk a nav feed errors w (Q : outcome unit -> world -> Prop) :
  shadow env = false -> In a assets ->
  (errors = [] ->
    (forall r, nav = Some r -> exists sig, confirmed (w_log w) (NavPub pk (ac_contractC a) (ac_code a) (rd_value r) (rd_ts r) sig)) /\
    (forall r, feed = Some r -> confirmed (w_log w) (FeedPub pk (ac_contractC a) "redstone" (rd_value r) (rd_ts r)))) ->
  (forall w', fine w w' -> (alerted a (w_log w') \/ published a pk nav feed w') -> Q (Ok tt) w') ->
  (forall x w', fine w w' -> Q (Err x) w') ->
  wp Adm (guarded <- call (ReadGuardedPrice (ac_contractC a)) ;;
          stmt (insert priceSnapshot (snapshot_row a guarded)) ;;;
          fold (fun _ err => degraded a (SourceReason (fst err) (snd err))) tt errors ;;;
          if eqs (gp_status guarded) "Degraded" then degraded a DegradedStatus
          else if eqs (gp_status guarded) "Halted" then emit (PriceHalted (ac_id a) (ac_code a))
          else Ret tt) Q w.
Proof.
  intros Hsh Ha Hpub Hok Herr. wp_step. apply wp_plain_call; [by repeat split|]. intros r w1 H1 Hl1.
  destruct r as [g|x]; [|by apply Herr]. assert (Hg : In (ECall (ReadGuardedPrice (ac_contractC a)) (Ok g)) (w_log w1)) by (by eapply In_snoc).
  wp_step. wp_step; [intros x; apply Herr; eapply fine_trans; [exact H1|by apply fine_tick]|]. intros s _ _ _.
  set (d2 := set_table _ _ _). assert (H2 : fine w1 (after w1 d2)) by (apply fine_snapshot; [done|]; by exists a, g, s).
  assert (H12 : fine w (after w1 d2)) by (by eapply fine_trans). split; [|intros x; by apply Herr].
  assert (Hrec : recorded a g d2).
  { exists s. subst d2. rewrite set_table_same. apply in_or_app. right. by left. }
  wp_step. apply wp_tell_errors. intros w3 H3 Herrs. assert (H13 : fine w w3) by (by eapply fine_trans).
  destruct (eqs (gp_status g) "Degraded") eqn:E1.
  { apply wp_degraded. intros w4 H4 Hal. apply Hok; [by eapply fine_trans|by left]. }
  destruct (eqs (gp_status g) "Halted") eqn:E2.
  { wp_step. apply Hok; [eapply fine_trans; [exact H13|]; by apply fine_plain|]. left.
    eexists. split; [by eapply In_snoc|]. by right. }
  wp_step. apply Hok; [done|]. destruct errors as [|err errors]; [right|by left; apply Herrs].
  destruct (Hpub eq_refl) as [Hn Hf]. split; [|split].
  - intros rd Hrd. destruct (Hn rd Hrd) as [sig Hc]. exists sig. by eapply confirmed_fine.
  - intros rd Hrd. eapply confirmed_fine; [exact H13|]. by apply Hf.
  - exists g. split; [exact (fine_In _ _ _ H3 Hg)|]. apply bool_decide_eq_false in E1, E2.
    split; [done|]. split; [done|]. exact (recorded_fine _ _ _ _ H3 Hrec).
Qed.

Lemma wp_publish_and_read_back pk a nav feed w (Q : outcome unit -> world -> Prop) :
  shadow env = false -> signer = Some pk -> In a assets ->
  (forall r, nav = Some r -> nav_read (w_log w) a r) -> (forall r, feed = Some r -> feed_read (w_log w) a r) ->
  (forall w', fine w w' -> (alerted a (w_log w') \/ published a pk nav feed w') -> Q (Ok tt) w') ->
  (forall x w', fine w w' -> Q (Err x) w') ->
  wp Adm (publish_and_read_back pk a nav feed) Q w.
Proof.
  intros Hsh Hsig Ha Hnav Hfeed Hok Herr. unfold publish_and_read_back.
  set (NavOut := fun w' : world => forall r, nav = Some r ->
    exists sig, confirmed (w_log w') (NavPub pk (ac_contractC a) (ac_code a) (rd_value r) (rd_ts r) sig)).
  assert (Hrest : forall errors w1, fine w w1 -> (errors = [] -> NavOut w1) -> wp Adm
    (publishErrors <- match feed with
       | Some feed => publish_source "RedStone feed" (publish_feed pk a feed) errors
       | None => Ret errors
       end ;;
     guarded <- call (ReadGuardedPrice (ac_contractC a)) ;;
     stmt (insert priceSnapshot (snapshot_row a guarded)) ;;;
     fold (fun _ err => degraded a (SourceReason (fst err) (snd err))) tt publishErrors ;;;
     if eqs (gp_status guarded) "Degraded" then degraded a DegradedStatus
     else if eqs (gp_status guarded) "Halted" then emit (PriceHalted (ac_id a) (ac_code a)) else Ret tt) Q w1).
  { intros errors w1 H1 Hn. wp_step.
    assert (Hback : forall errors' w2, fine w w2 -> (errors' = [] -> NavOut w2 /\
      (forall r, feed = Some r -> confirmed (w_log w2) (FeedPub pk (ac_contractC a) "redstone" (rd_value r) (rd_ts r)))) ->
      wp Adm (guarded <- call (ReadGuardedPrice (ac_contractC a)) ;;
        stmt (insert priceSnapshot (snapshot_row a guarded)) ;;;
        fold (fun _ err => degraded a (SourceReason (fst err) (snd err))) tt errors' ;;;
        if eqs (gp_status guarded) "Degraded" then degraded a DegradedStatus
        else if eqs (gp_status guarded) "Halted" then emit (PriceHalted (ac_id a) (ac_code a)) else Ret tt) Q w2).
    { intros errors' w2 H2 Hp. apply (wp_read_back pk a nav feed); [done|done|exact Hp| |].
      - intros w' Hw. apply Hok. by eapply fine_trans.
      - intros x w' Hw. apply Herr. by eapply fine_trans. }
    destruct feed as [f|]; [|wp_step; apply Hback; [done|]; intros E; split; [by apply Hn|done]].
    apply (wp_publish_source _ _ _ (fun w' => confirmed (w_log w') (FeedPub pk (ac_contractC a) "redstone" (rd_value f) (rd_ts f)))).
    - intros Q' HQ1 HQ2. apply wp_publish_feed; [done|done|done| |done|done].
      destruct (fine_log _ _ H1) as [l ->]. by apply feed_read_app, Hfeed.
    - intros w2 H2 Hc. apply Hback; [by eapply fine_trans|]. intros E. split; [|by intros ? [= <-]].
      intros r Hr. destruct (Hn E r Hr) as [sig Hs]. exists sig. exact (confirmed_fine _ _ _ H2 Hs).
    - intros err w2 H2. apply Hback; [by eapply fine_trans|]. intros E. by destruct errors. }
  wp_step. destruct nav as [n|]; [|wp_step; apply Hrest; [by apply fine_refl|done]].
  apply (wp_publish_source _ _ _ (fun w' => exists sig, confirmed (w_log w') (NavPub pk (ac_contractC a) (ac_code a) (rd_value n) (rd_ts n) sig))).
  - intros Q' HQ1 HQ2. apply wp_publish_nav; [done|done|done|by apply Hnav|done|done].
  - intros w1 H1 Hc. apply Hrest; [done|]. by intros _ ? [= <-].
  - intros err w1 H1. by apply Hrest.
Qed.

(** ** One asset *)
(** Every step an asset's update stands for was made: its sources were read and recorded; in a shadow
    run they agree, otherwise they were published and the contract's usable price is on file. *)
Definition updated a w : Prop :=
  exists nav feed,
    match nav with
    | Some r => nav_read (w_log w) a r /\ observed a "issuer_nav" r (w_db w)
    | None => existsb (eqs (toLowerCase (ac_issuerCode a))) NO_NAV_API = true
    end /\
    feed_read (w_log w) a feed /\ observed a "redstone" feed (w_db w) /\
    if shadow env
    then forall r, nav = Some r -> above (divergenceBps (rd_value r) (rd_value feed)) (ac_priceBandBps a) = false
    else exists pk, signer = Some pk /\ published a pk nav (Some feed) w.

Lemma published_fine w w' a pk nav feed : fine w w' -> published a pk nav feed w -> published a pk nav feed w'.
Proof.
  intros Hw (Hn & Hf & g & Hg & H1 & H2 & Hr). split; [|split].
  - intros r Hr'. destruct (Hn r Hr') as [sig Hc]. exists sig. by eapply confirmed_fine.
  - intros r Hr'. eapply confirmed_fine; [exact Hw|]. by apply Hf.
  - exists g. split; [by eapply fine_In|]. split; [done|]. split; [done|]. by eapply recorded_fine.
Qed.

Lemma nav_read_fine w w' a r : fine w w' -> nav_read (w_log w) a r -> nav_read (w_log w') a r.
Proof. intros Hw. destruct (fine_log _ _ Hw) as [l ->]. apply nav_read_app. Qed.
Lemma feed_read_fine w w' a r : fine w w' -> feed_read (w_log w) a r -> feed_read (w_log w') a r.
Proof. intros Hw. destruct (fine_log _ _ Hw) as [l ->]. apply feed_read_app. Qed.

Lemma updated_fine w w' a : fine w w' -> updated a w -> updated a w'.
Proof.
  intros Hw (nav & feed & Hn & Hf & Ho & Hrest). exists nav, feed. split_and!.
  - destruct nav; [|done]. destruct Hn. split; [by eapply nav_read_fine|by eapply observed_fine].
  - by eapply feed_read_fine.
  - by eapply observed_fine.
  - destruct (shadow env); [done|]. destruct Hrest as (pk & Hs & Hp). exists pk. split; [done|]. by eapply published_fine.
Qed.

Context (fetchPrice : string -> price_prog Reading) (Hfetch : getIndependentFeedAdapter env = Ok fetchPrice).
Context (Hsigner : shadow env = false -> exists pk, signer = Some pk).

(** What is known once the sources were asked. *)
Definition sources_known a (nav feed : option Reading) w : Prop :=
  (alerted a (w_log w) \/
   match nav with Some _ => True | None => existsb (eqs (toLowerCase (ac_issuerCode a))) NO_NAV_API = true end /\ feed <> None) /\
  (forall r, nav = Some r -> nav_read (w_log w) a r) /\ (forall r, feed = Some r -> feed_read (w_log w) a r).

Lemma wp_record_and_publish a nav feed w (Q : outcome unit -> world -> Prop) :
  In a assets -> sources_known a nav feed w ->
  (forall w', fine w w' -> (alerted a (w_log w') \/ updated a w') -> Q (Ok tt) w') ->
  (forall x w', fine w w' -> Q (Err x) w') ->
  wp Adm (observe_opt a "issuer_nav" nav ;;; observe_opt a "redstone" feed ;;;
          if shadow env then flag_disagreement a nav feed
          else match signer with
               | Some publicKey => publish_and_read_back publicKey a nav feed
               | None => Throw undefined_read
               end) Q w.
Proof.
  intros Ha (Hk & Hnav & Hfeed) Hok Herr.
  wp_step. apply wp_observe_opt; [done|left; by auto| |done]. intros w1 H1 Ho1.
  wp_step. apply wp_observe_opt; [done|right; split; [done|eapply feed_read_fine; [exact H1|by auto]]| |intros x w2 H2; apply Herr; by eapply fine_trans].
  intros w2 H2 Ho2. assert (H12 : fine w w2) by (by eapply fine_trans).
  assert (Hdone : forall w', fine w2 w' ->
    (feed <> None -> if shadow env
     then forall n f, nav = Some n -> feed = Some f -> above (divergenceBps (rd_value n) (rd_value f)) (ac_priceBandBps a) = false
     else exists pk, signer = Some pk /\ published a pk nav feed w') -> alerted a (w_log w') \/ updated a w').
  { intros w' Hw Hrest. destruct Hk as [Hal|[Hn Hf]].
    - left. eapply alerted_fine; [exact Hw|]. by eapply alerted_fine.
    - right. destruct feed as [f|]; [|done]. specialize (Hrest Hf). exists nav, f. split_and!.
      + destruct nav as [n|]; [|done]. split.
        * eapply nav_read_fine; [exact Hw|]. eapply nav_read_fine; [exact H12|]. by apply Hnav.
        * eapply observed_fine; [exact Hw|]. eapply observed_fine; [exact H2|]. by apply Ho1.
      + eapply feed_read_fine; [exact Hw|]. eapply feed_read_fine; [exact H12|]. by apply Hfeed.
      + eapply observed_fine; [exact Hw|]. by apply Ho2.
      + destruct (shadow env); [|done]. intros r Hr. by apply Hrest. }
  destruct (shadow env) eqn:Hsh.
  - unfold flag_disagreement. destruct nav as [n|]; [destruct feed as [f|]|].
    2, 3: wp_step; apply Hok; [done|]; apply Hdone; [by apply fine_refl|done].
    wp_step.
    + apply wp_degraded. intros w3 H3 Hal. apply Hok; [by eapply fine_trans|by left].
    + wp_step. apply Hok; [done|]. apply Hdone; [by apply fine_refl|]. by intros _ ? ? [= <-] [= <-].
  - destruct (Hsigner eq_refl) as [pk Epk]. rewrite Epk. apply wp_publish_and_read_back; [done|done|done|..].
    + intros r Hr. eapply nav_read_fine; [exact H12|]. by apply Hnav.
    + intros r Hr. eapply feed_read_fine; [exact H12|]. by apply Hfeed.
    + intros w3 H3 Hout. apply Hok; [by eapply fine_trans|]. destruct Hout as [Hal|Hp]; [by left|].
      apply Hdone; [done|]. intros _. exists pk. by split.
    + intros x w3 H3. apply Herr. by eapply fine_trans.
Qed.

Lemma wp_update_asset a w (Q : outcome unit -> world -> Prop) :
  In a assets ->
  (forall w', fine w w' -> (alerted a (w_log w') \/ updated a w') -> Q (Ok tt) w') ->
  (forall x w', fine w w' -> Q (Err x) w') ->
  wp Adm (update_asset env fetchPrice signer a) Q w.
Proof.
  intros Ha Hok Herr. unfold update_asset.
  destruct (getIssuerNavAdapter (ac_issuerCode a) env) as [adapter|x] eqn:Ead; [|wp_step; apply Herr; by apply fine_refl].
  assert (Hrest : forall nav w1, fine w w1 ->
    (alerted a (w_log w1) \/ match nav with Some _ => True | None => existsb (eqs (toLowerCase (ac_issuerCode a))) NO_NAV_API = true end) ->
    (forall r, nav = Some r -> nav_read (w_log w1) a r) ->
    wp Adm (feed <- settle a "RedStone feed" (fetchPrice (ac_code a)) ;;
      match nav, feed with
      | None, None => Ret tt
      | _, _ => observe_opt a "issuer_nav" nav ;;; observe_opt a "redstone" feed ;;;
          if shadow env then flag_disagreement a nav feed
          else match signer with Some publicKey => publish_and_read_back publicKey a nav feed | None => Throw undefined_read end
      end) Q w1).
  { intros nav w1 H1 Hk Hnav. wp_step. apply (wp_settle_reading _ _ _ (fun r log => feed_read log a r)).
    - intros Q' HQ'. by apply (wp_fetchPrice a fetchPrice).
    - intros f w2 H2 Hf. assert (H12 : fine w w2) by (by eapply fine_trans).
      assert (Hs : sources_known a nav (Some f) w2).
      { split; [|split; [|by intros ? [= <-]]].
        - destruct Hk as [Hal|Hn]; [left; exact (alerted_fine _ _ _ H2 Hal)|by right].
        - intros r Hr. eapply nav_read_fine; [exact H2|]. by apply Hnav. }
      destruct nav; (apply wp_record_and_publish; [done|exact Hs|intros w3 H3; apply Hok; by eapply fine_trans|intros x w3 H3; apply Herr; by eapply fine_trans]).
    - intros w2 H2 Hal. assert (H12 : fine w w2) by (by eapply fine_trans).
      destruct nav as [n|]; [|wp_step; apply Hok; [done|by left]].
      apply wp_record_and_publish; [done| |intros w3 H3; apply Hok; by eapply fine_trans|intros x w3 H3; apply Herr; by eapply fine_trans].
      split; [by left|]. split; [|done]. intros r Hr. eapply nav_read_fine; [exact H2|]. by apply Hnav. }
  wp_step. destruct adapter as [fetchNav|].
  - apply (wp_settle_reading _ _ _ (fun r log => nav_read log a r)).
    + intros Q' HQ'. by apply (wp_fetchNav a fetchNav).
    + intros n w1 H1 Hn. apply (Hrest (Some n)); [done|by right|by intros ? [= <-]].
    + intros w1 H1 Hal. apply (Hrest None); [done|by left|done].
  - wp_step. apply (Hrest None); [by apply fine_refl|right|done]. unfold getIssuerNavAdapter in Ead.
    destruct (existsb _ NO_NAV_API); [done|]. destruct (loadIssuerNavSymbols env); cbn [obind] in Ead; [|done].
    by destruct (eqs (toLowerCase (ac_issuerCode a)) "spiko"), (eqs (toLowerCase (ac_issuerCode a)) "etherfuse").
Qed.

Lemma wp_update_guarded a w (Q : outcome unit -> world -> Prop) :
  In a assets -> (forall w', fine w w' -> (alerted a (w_log w') \/ updated a w') -> Q (Ok tt) w') ->
  wp Adm (update_guarded env fetchPrice signer a) Q w.
Proof.
  intros Ha HQ. unfold update_guarded. wp_step. apply wp_update_asset; [done|done|].
  intros x w1 H1. apply wp_degraded. intros w2 H2 Hal. apply HQ; [by eapply fine_trans|by left].
Qed.

Lemma wp_cycle w :
  wp Adm (fold (fun _ a => update_guarded env fetchPrice signer a) tt assets)
    (fun r w' => r = Ok tt /\ fine w w' /\ forall a, In a assets -> alerted a (w_log w') \/ updated a w') w.
Proof.
  apply (wp_fold_split Adm (fun done _ w' => fine w w' /\ forall a, In a done -> alerted a (w_log w') \/ updated a w') (fun _ _ => False) _ _ []).
  - intros l0 a rest [] w1 El [H1 Hall]. simpl in El. apply wp_update_guarded; [rewrite El; apply in_or_app; right; by left|].
    intros w2 H2 Ha. split; [by eapply fine_trans|]. intros b [Hb|[<-|[]]]%in_app_or; [|done].
    destruct (Hall b Hb); [left; by eapply alerted_fine|right; by eapply updated_fine].
  - intros [] w1 [H1 Hall]. by split_and!.
  - done.
  - split; [by apply fine_refl|done].
Qed.
End Safety.

(** ** What a cycle does *)
Section Cycle.
Context `{PriceLib}.

(** Why a cycle can refuse to start. *)
Definition refused (env : ProcessEnv) (client : bool) (signer : option string) : Prop :=
  (exists x, getIndependentFeedAdapter env = Err x) \/
  shadow env = false /\ (client = false \/ signer = None).

Lemma wp_runPriceUpdateCycle env client signer assets w :
  w_log w = [] ->
  wp any_answer (runPriceUpdateCycle client signer assets env) (fun r w' =>
    (refused env client signer /\ w_db w' = w_db w /\ w_log w' = [] /\ exists x, r = Err x) \/
    r = Ok tt /\ fine env signer assets w w' /\ Good env signer assets (w_log w') /\
    forall a, In a assets -> alerted a (w_log w') \/ updated env signer a w') w.
Proof.
  intros Hl. unfold runPriceUpdateCycle.
  destruct (getIndependentFeedAdapter env) as [fetchPrice|x] eqn:Ef; [|wp_step; left; split_and!; eauto; left; by eexists].
  destruct (negb (shadow env) && (negb client || bool_decide (signer = None))) eqn:Eg.
  - wp_step. left. split_and!; eauto. right. apply andb_true_iff in Eg as [Hs%negb_true_iff Ho]. split; [done|].
    apply orb_true_iff in Ho as [Ho%negb_true_iff|Ho%bool_decide_eq_true]; auto.
  - assert (Hsig : shadow env = false -> exists pk, signer = Some pk).
    { intros Hs. rewrite Hs in Eg. apply orb_false_iff in Eg as [_ Ho%bool_decide_eq_false]. destruct signer; [by eexists|done]. }
    eapply wp_mono; [|apply (wp_cycle env signer assets fetchPrice Ef Hsig)].
    intros r w' (-> & Hw & Hall). right. split_and!; [done|done| |done]. apply (fine_good _ _ _ _ _ Hw).
    rewrite Hl. by intros e [].
Qed.

(** C19. Whatever the outside answers, every transaction a price cycle sends carries the publication,
    under the publisher's account, of a reading made in this cycle from the asset's own source: a NAV
    its issuer's API answered, with a signature over exactly that asset, time and value that verifies
    under the publisher's key, or the rescaled price of its feed contract.  A shadow run sends nothing
    and writes no snapshot.  Every observation recorded is such a reading, and every snapshot the
    guarded price the contract answered. *)
Theorem published_as_read (e : Prog.env PriceCall) (env : ProcessEnv) client signer assets (d : Database) :
  let '(r, w) := run e (runPriceUpdateCycle client signer assets env) (World d 0 []) in
  (forall x signed, In x (w_log w) -> sent_of x = Some signed ->
     shadow env = false /\ exists unsigned p, In (ECall (SignTx unsigned) (Ok signed)) (w_log w) /\
       In (ECall (pub_call p) (Ok unsigned)) (w_log w) /\ justified env signer assets (w_log w) p) /\
  (forall o, In o (w_db w priceObservation) -> In o (d priceObservation) \/ observation_ok env assets (w_log w) o) /\
  (forall s, In s (w_db w priceSnapshot) -> In s (d priceSnapshot) \/ snapshot_ok assets (w_log w) s) /\
  (shadow env = true -> w_db w priceSnapshot = d priceSnapshot) /\
  (forall t, t <> priceObservation -> t <> priceSnapshot -> w_db w t = d t).
Proof.
  pose proof (wp_sound any_answer e _ _ _ (any_answer_respects e) (wp_runPriceUpdateCycle env client signer assets (World d 0 []) eq_refl)) as Hw.
  destruct (run e _ _) as [r w]. destruct Hw as [(_ & Hd & Hl & _)|(_ & Hf & Hg & _)].
  - rewrite Hl, Hd. split; [done|]. by split_and!; auto.
  - destruct Hf as [_ _ Ht Hs _ _ Ho Hn]. split_and!; auto. intros x signed Hin Hx.
    destruct (Hg x Hin) as (_ & _ & Hsent). destruct (Hsent _ Hx) as [u Hu].
    destruct (Hg _ Hu) as (_ & Hsign & _). destruct (Hsign u eq_refl) as [p Hp].
    assert (Hj : justified env signer assets (w_log w) p) by (apply (Hg _ Hp); by destruct p).
    split; [apply Hj|]. by exists u, p.
Qed.

(** C32. Silence means success: a cycle that starts ends normally for all its assets, whatever fails
    on the way, and an asset nobody was alerted about went through every step.  Each of its sources
    was read and is on file; in a shadow run they agree within the asset's band; otherwise each was
    published, the network confirmed the transactions, and the price the contract then guaranteed was
    neither degraded nor halted and is on file.  Only an alert can stand in for a missing step. *)
Theorem silence_means_updated (e : Prog.env PriceCall) (env : ProcessEnv) client signer assets (d : Database) :
  let '(r, w) := run e (runPriceUpdateCycle client signer assets env) (World d 0 []) in
  (refused env client signer /\ w_db w = d /\ exists x, r = Err x) \/
  r = Ok tt /\ forall a, In a assets -> alerted a (w_log w) \/ updated env signer a w.
Proof.
  pose proof (wp_sound any_answer e _ _ _ (any_answer_respects e) (wp_runPriceUpdateCycle env client signer assets (World d 0 []) eq_refl)) as Hw.
  destruct (run e _ _) as [r w]. destruct Hw as [(Hr & Hd & _ & Hx)|(Hr & _ & _ & Hall)]; [by left|by right].
Qed.
End Cycle.

(** ** What a signature covers *)
Lemma Z_to_string_lacks_colon z : lacks ":" (Z_to_string z).
Proof.
  assert (Hd : forall n, 0 <= n -> lacks ":" (Z_to_string n)).
  { intros n Hn. destruct (Z_to_string_nonneg n Hn) as (_ & Hd & _). unfold lacks. eapply string_forall_impl; [|exact Hd].
    intros c Hc. apply negb_true_iff, bool_decide_eq_false. intros ->. by vm_compute in Hc. }
  destruct z as [|p|p]; [apply Hd; lia..|]. exact (Hd (Z.pos p) ltac:(lia)).
Qed.

(** The text signed determines the asset code, whatever characters it has, the time and the value. *)
Lemma nav_message_pins_reading code code' ts ts' value value' :
  canonicalNavMessage code ts value = canonicalNavMessage code' ts' value' -> code = code' /\ ts = ts' /\ value = value'.
Proof.
  assert (Hsep : forall s t x y, lacks ":" x -> lacks ":" y -> s +:+ ":" +:+ x = t +:+ ":" +:+ y -> s = t /\ x = y).
  { intros s t x y Hx Hy. change (":" +:+ x) with (String ":" x). change (":" +:+ y) with (String ":" y). by apply last_separator. }
  unfold canonicalNavMessage. rewrite !(string_app_assoc code), !(string_app_assoc code'), !(string_app_assoc (code +:+ ":")), !(string_app_assoc (code' +:+ ":")).
  intros E. apply Hsep in E as [E Ev]; [|apply Z_to_string_lacks_colon..].
  rewrite <- !string_app_assoc in E. apply Hsep in E as [-> Et]; [|apply Z_to_string_lacks_colon..].
  split; [done|]. unfold Z_to_string in *. split; by apply (inj pretty).
Qed.

(** Of two timestamps the "median" is the later one: with two sources a stuck one does not show. *)
Lemma median_of_two t t' : median [Some t; Some t'] = Some (Z.max t t').
Proof.
  unfold median, sorted_numbers. cbn. destruct (Z.ltb_spec (- t) (- t')); cbn; f_equal; lia.
Qed.

(** The readings of bodies as the issuers serve them. *)
Section Bodies.
Context `{PriceLib}.
Example etherfuse_body : etherfuse_reading "CETES"
  (JObj [("token_symbol", JStr "CETES"); ("token_cost_in_usd", JStr "0.065766");
         ("sources", JObj [("a", JObj [("updated_at", JNum 30)]); ("b", JObj [("updated_at", JNum 10)]); ("c", JObj [("updated_at", JNum 20)])])]) =
  Ok (Read 657660 20).
Proof. vm_compute. reflexivity. Qed.

Example spiko_refuses_euros : spiko_reading "EUTBL"
  (JObj [("amount", JObj [("value", JStr "1.05"); ("currency", JStr "EUR")]); ("updatedAt", JStr "2026-10-08")]) =
  Err (Error "spikoNavAdapter: EUTBL NAV is quoted in EUR; FX conversion to USD is not configured").
Proof. vm_compute. reflexivity. Qed.
End Bodies.

Example rescaled : rescalePrice 6575000 8 = 657500 /\ rescalePrice 12 5 = 1200 /\ rescalePrice 7 7 = 7.
Proof. vm_compute. auto. Qed.
