(* ===== verification/Api.v ===== *)
(** What the API's routes share: requests and replies, the bodies' schemas
    ([services/api/src/schemas.ts]), the lookups and figures of [routes/helpers.ts], and the mapping
    of exceptions to replies ([server.ts]). *)
From S2P Require Import Prelude Prog Schema Rules Domain Rpc Chain Intents.

(** ** Outside the routes *)

(** The contract calls the routes build unsigned envelopes for; the first argument of each is the
    account that has to sign. *)
Inductive ApiInvocation :=
| OpenLine (source borrower assetAddress : string) (limit rateBps cureS : Z) (agreementHash : list Z)
| FundLine (source : string) (line amount : Z)
| WithdrawUndrawn (source : string) (line amount : Z)
| WithdrawInterest (source : string) (line amount : Z)
| CloseLiquidated (source : string) (line : Z)
| PledgeUnits (source : string) (line : Z) (assetAddress : string) (units : Z)
| ReleaseUnits (source : string) (line : Z) (assetAddress : string) (units : Z)
| DrawLine (source : string) (line amount : Z) (to : string)
| RepayLine (source : string) (line amount : Z)
| ExitUnits (source assetAddress : string) (units minUsdcOut : Z) (to : string)
| ProposeRepo (source cashBorrower assetAddress : string) (units cashAmount rateBps : Z) (kind : string)
    (maturityAt : Z) (agreementHash : list Z)
| AcceptRepo (source : string) (trade : Z)
| UnwindRepo (source : string) (trade : Z)
| TopUpRepo (source : string) (trade units : Z).

(** exit-desk-client.ts *)
Record OnChainExitQuote := ChainExitQuote { xq_price : Z; xq_spreadBps : Z; xq_usdcOut : Z; xq_expiresAt : Z }.

Inductive ApiCall : Type -> Type :=
| BuildTx (i : ApiInvocation) : ApiCall string
| LtvOf (line : Z) : ApiCall LtvView
| LineOf (line : Z) : ApiCall OnChainLine
| ClaimableInterest (line : Z) : ApiCall Z
| LiquidationOf (line : Z) : ApiCall OnChainLiquidationRecord
| ExitQuoteOf (assetAddress : string) (units : Z) : ApiCall OnChainExitQuote.

(** The SDK's transaction hash, zod's checks of UUIDs and timestamps, Postgres's reading of a UUID,
    and the engine's [Date.parse]. *)
Class ApiLib := {
  chain_txHash : string -> outcome string;
  zod_uuid : string -> bool;
  pg_uuid : string -> bool;
  zod_datetime : string -> bool;
  Date_of : string -> Z }.

Notation api_prog := (prog Database ApiCall string).
Notation api_world := (world Database ApiCall string).

(** ** Replies *)
Record HttpReply := HReply { rp_code : Z; rp_body : jsval }.
Definition error_body (msg : string) : jsval := JObj [("error", JStr msg)].
Definition fail (code : Z) (msg : string) : api_prog HttpReply := Ret (HReply code (error_body msg)).
Definition text (z : Z) : jsval := JStr (Z_to_string z).
Definition opt_text (s : option string) : jsval := match s with Some s => JStr s | None => JNull end.

(** The mapping of [setErrorHandler]: a rejected body, a call the contract rejected, an upstream that
    is away, and everything else.  Messages' details are left out. *)
(** The message of a failed simulation: a name between quotes, not empty, and what follows it. *)
Fixpoint closes_failed (named : bool) (s : string) : bool :=
  match s with
  | String "034" s' => named && starts_with " failed" s'
  | String _ s' => closes_failed true s'
  | EmptyString => false
  end.
Fixpoint simulation_failed (s : string) : bool :=
  let opening := "simulation of " +:+ String "034" "" in
  (starts_with opening s && closes_failed false (string_drop (slen opening) s)) ||
  match s with String _ s' => simulation_failed s' | EmptyString => false end.

Definition rejected_by_contract (err : exn) : bool :=
  eqs (exn_class err) "ContractRejectedError" ||
  let message := toLowerCase (exn_message err) in
  simulation_failed message ||
  contains "contract rejected the request" message || contains "hosterror" message || contains "error(contract" message.

Definition isTimeout (err : exn) : bool :=
  let message := toLowerCase (exn_message err) in
  existsb (fun t => contains t message) ["timeout"; "time out"; "timedout"; "timed out"].

(** The errors that carry a status code are Fastify's own; its name for the code is left out. *)
Definition error_reply_of (statusCode : option Z) (err : exn) : HttpReply :=
  if eqs (exn_class err) "ZodError" then HReply 400 (error_body "invalid request")
  else if rejected_by_contract err then HReply 422 (error_body "contract rejected the request")
  else if isTransientRpcError err || isTimeout err
  then HReply 503 (error_body (if isTimeout err then "rpc request timed out" else "upstream rpc unavailable"))
  else match statusCode with
  | Some code =>
      if code <? 500 then HReply code (JObj [("statusCode", JNum code); ("message", JStr (exn_message err))])
      else HReply code (JObj [("statusCode", JNum code); ("error", JStr "Internal Server Error")])
  | None => HReply 500 (JObj [("statusCode", JNum 500); ("error", JStr "Internal Server Error")])
  end.
Definition error_reply : exn -> HttpReply := error_reply_of None.

(** What a client is answered. *)
Definition respond (route : api_prog HttpReply) : api_prog HttpReply := catch route (fun err => Ret (error_reply err)).

(** ** schemas.ts *)
Definition ZodError (msg : string) : exn := Exn "ZodError" msg.
Definition decoder (A : Type) : Type := option jsval -> outcome A.

(** A property of the body; [None] is [undefined]. *)
Definition field {A} (key : string) (d : decoder A) (body : jsval) : outcome A :=
  match body with JObj l => d (assoc key l) | _ => Err (ZodError "expected object") end.

Definition optional {A} (d : decoder A) : decoder (option A) := fun v =>
  match v with None => Ok None | Some _ => a <-? d v ;; Ok (Some a) end.

Definition z_string : decoder string := fun v =>
  match v with Some (JStr s) => Ok s | _ => Err (ZodError "expected string") end.
Definition z_check (p : string -> bool) : decoder string := fun v =>
  s <-? z_string v ;; if p s then Ok s else Err (ZodError "invalid string").
Definition z_enum (names : list string) : decoder string := z_check (fun s => existsb (eqs s) names).
Definition z_int (p : Z -> bool) : decoder Z := fun v =>
  match v with
  | Some (JNum z) => if p z then Ok z else Err (ZodError "number out of range")
  | _ => Err (ZodError "expected number")
  end.
Definition z_default {A} (a : A) (d : decoder A) : decoder A := fun v => match v with None => Ok a | Some _ => d v end.

Definition DIGITS_ONLY (s : string) : bool := negb (eqs s "") && string_forall is_digit s.

(** [positiveAmount] and [nonNegativeAmount] differ in the least amount they take. *)
Definition amount_from (least : Z) : decoder Z := fun v =>
  match v with
  | Some (JNum z) =>
      if (z <? - MAX_SAFE_INTEGER) || (MAX_SAFE_INTEGER <? z) then Err (ZodError "expected a safe integer or numeric string")
      else if z <? least then Err (ZodError "amount too small") else Ok z
  | Some (JStr s) =>
      if negb (DIGITS_ONLY s) then Err (ZodError "expected a string of digits only")
      else z <-? BigInt s ;; if z <? least then Err (ZodError "amount too small") else Ok z
  | _ => Err (ZodError "expected string or number")
  end.
Definition positiveAmount : decoder Z := amount_from 1.
Definition nonNegativeAmount : decoder Z := amount_from 0.

(** The bytes of a hexadecimal text, with or without [0x]. *)
Definition hexBuffer : decoder (list Z) := fun v =>
  hex <-? z_string v ;; Ok (Buffer_from_hex (if starts_with "0x" hex then string_drop 2 hex else hex)).

Section Schemas.
Context `{ApiLib}.
Definition z_uuid : decoder string := z_check zod_uuid.
Definition nonnegative : decoder Z := z_int (fun z => 0 <=? z).

Record OpenCreditLine := OpenLineBody {
  ol_lenderId : string; ol_borrowerId : string; ol_loanCcy : string; ol_limit : Z; ol_rateBps : Z; ol_feeBps : Z;
  ol_cureWindowS : Z; ol_asset : string; ol_agreementHash : list Z }.

Definition openCreditLineSchema (b : jsval) : outcome OpenCreditLine :=
  lenderId <-? field "lenderId" z_uuid b ;; borrowerId <-? field "borrowerId" z_uuid b ;;
  loanCcy <-? field "loanCcy" z_string b ;; limit <-? field "limit" positiveAmount b ;;
  rateBps <-? field "rateBps" nonnegative b ;; feeBps <-? field "feeBps" (z_default 0 nonnegative) b ;;
  cureWindowS <-? field "cureWindowS" (z_int (fun z => 0 <? z)) b ;; asset <-? field "asset" z_string b ;;
  agreementHash <-? field "agreementHash" hexBuffer b ;;
  Ok (OpenLineBody lenderId borrowerId loanCcy limit rateBps feeBps cureWindowS asset agreementHash).

Record CreatePledge := PledgeBody { cp_assetId : string; cp_units : Z; cp_custodyMode : string }.
Definition createPledgeSchema (b : jsval) : outcome CreatePledge :=
  assetId <-? field "assetId" z_uuid b ;; units <-? field "units" positiveAmount b ;;
  custodyMode <-? field "custodyMode" (z_enum ["escrow"; "issuer_lien"; "custodian_lien"]) b ;;
  Ok (PledgeBody assetId units custodyMode).

(** [fundCreditLineSchema] and [createRepaymentSchema]. *)
Definition amountSchema (b : jsval) : outcome Z := field "amount" positiveAmount b.

Definition withdrawSchema (b : jsval) : outcome (string * Z) :=
  kind <-? field "kind" (z_enum ["undrawn"; "interest"]) b ;; amount <-? field "amount" positiveAmount b ;; Ok (kind, amount).
Definition createDrawSchema (b : jsval) : outcome (Z * string) :=
  amount <-? field "amount" positiveAmount b ;; to <-? field "to" z_string b ;; Ok (amount, to).
Definition exitQuoteRequestSchema (b : jsval) : outcome (string * Z) :=
  assetId <-? field "assetId" z_uuid b ;; units <-? field "units" positiveAmount b ;; Ok (assetId, units).
Definition exitExecuteSchema (b : jsval) : outcome (option Z * string) :=
  minUsdcOut <-? field "minUsdcOut" (optional positiveAmount) b ;; to <-? field "to" z_string b ;; Ok (minUsdcOut, to).
Definition repoTradeActionSchema (b : jsval) : outcome (option Z) := field "contractTradeId" (optional nonNegativeAmount) b.
Definition repoTopUpSchema (b : jsval) : outcome Z := field "units" positiveAmount b.

Record RepoProposal := ProposalBody {
  bp_cashLenderId : string; bp_cashBorrowerId : string; bp_assetId : string; bp_units : Z; bp_cashAmount : Z;
  bp_rateBps : Z; bp_kind : string; bp_maturityAt : string; bp_agreementHash : list Z }.
Definition repoProposalSchema (b : jsval) : outcome RepoProposal :=
  cashLenderId <-? field "cashLenderId" z_uuid b ;; cashBorrowerId <-? field "cashBorrowerId" z_uuid b ;;
  assetId <-? field "assetId" z_uuid b ;; units <-? field "units" positiveAmount b ;;
  cashAmount <-? field "cashAmount" positiveAmount b ;; rateBps <-? field "rateBps" nonnegative b ;;
  kind <-? field "kind" (z_enum ["intraday"; "overnight"; "open"; "term"]) b ;;
  maturityAt <-? field "maturityAt" (z_check zod_datetime) b ;; agreementHash <-? field "agreementHash" hexBuffer b ;;
  Ok (ProposalBody cashLenderId cashBorrowerId assetId units cashAmount rateBps kind maturityAt agreementHash).
End Schemas.

(** ** routes/helpers.ts *)
Definition requireStellarAccount (partyId : string) : api_prog string :=
  account <- select_one partyAccount (fun r => eqs (pc_partyId r) partyId) ;;
  match account with
  | Some a => Ret (pc_stellarAccount a)
  | None => Throw (Error ("no stellar account on file for party " +:+ partyId))
  end.

Definition requireAsset (assetId : string) : api_prog asset_row :=
  found <- select_one asset (fun r => eqs (a_id r) assetId) ;;
  match found with
  | Some a => Ret a
  | None => Throw (Error ("asset " +:+ assetId +:+ " not found"))
  end.

Inductive Role := borrower | lender | either.

Definition isLineParty (line : creditLine_row) (partyId : string) (role : Role) : bool :=
  match role with
  | borrower => eqs (cl_borrowerId line) partyId
  | lender => eqs (cl_lenderId line) partyId
  | either => eqs (cl_borrowerId line) partyId || eqs (cl_lenderId line) partyId
  end.

(** [reduce((a, b) => (b.createdAt > a.createdAt ? b : a))] of a non-empty array. *)
Definition latest (first : priceSnapshot_row) (rest : list priceSnapshot_row) : priceSnapshot_row :=
  List.fold_left (fun a b => if ps_createdAt a <? ps_createdAt b then b else a) rest first.

Definition latestGuardedPrice (assetId : string) : api_prog (option (Z * string)) :=
  rows <- stmt (select priceSnapshot (fun r => eqs (ps_assetId r) assetId)) ;;
  match rows with
  | [] => Ret None
  | first :: rest =>
      let r := latest first rest in
      value <- lift (decimalStringToScaled (ps_guardedValue r)) ;; Ret (Some (value, ps_status r))
  end.

(** What one pledge of a line adds to its collateral. *)
Definition add_collateral (excludePledgeId : option string) (total : Z) (p : pledge_row) : api_prog Z :=
  if negb (eqs (pl_status p) "active") then Ret total
  else if match excludePledgeId with Some id => negb (eqs id "") && eqs (pl_id p) id | None => false end then Ret total
  else
    a <- requireAsset (pl_assetId p) ;;
    price <- latestGuardedPrice (pl_assetId p) ;;
    match price with
    | Some (value, status) =>
        if negb (eqs status "Ok") then Ret total
        else
          units <- lift (decimalStringToScaled (pl_units p)) ;;
          v <- lift (collateralValue units value (a_haircutBaseBps a + a_haircutFxBps a)) ;;
          Ret (total + v)
    | None => Ret total
    end.

Definition estimateLtvBps (creditLineId : string) (excludePledgeId : option string) (debtOverride : option Z) : api_prog Z :=
  pledges <- stmt (select pledge (fun p => eqs (pl_creditLineId p) creditLineId)) ;;
  totalCollateral <- fold (add_collateral excludePledgeId) 0 pledges ;;
  debt <- match debtOverride with Some d => Ret d | None => outstandingDebt (Some creditLineId) end ;;
  Ret (ltvBps debt totalCollateral).

Section Lookups.
Context `{ApiLib}.

(** A row looked up by an id of the URL: Postgres refuses an id that is no UUID. *)
Definition by_param (t : table) (id : string) (id_of : row t -> string) : api_prog (option (row t)) :=
  if pg_uuid id then select_one t (fun r => eqs (id_of r) id)
  else Throw (PostgresError ("invalid input syntax for type uuid: " +:+ id)).

Definition requireCreditLine (id : string) : api_prog creditLine_row :=
  line <- by_param creditLine id cl_id ;;
  match line with
  | Some l => Ret l
  | None => Throw (Error ("credit line " +:+ id +:+ " not found"))
  end.

(** [recordIntent] of a route: the hash the client is told. *)
Definition record (xdr : string) (kind : IntentKind) (refId partyId : string) (payload : option (list (string * string))) : api_prog string :=
  recordIntent chain_txHash (IArgs xdr kind refId partyId payload).
End Lookups.
