(* ===== verification/ClientsSafety.v ===== *)
(** What the contract clients hand out: an envelope is the request it was built for, from the account that
    has to sign it, and an asset's configuration survives the way to the contract and back. *)
From S2P Require Import Prelude Prog Settings Schema Rules Domain Rpc Chain Clients Intents Api.

(** ** The SDK's encoders return a value of the type they are asked for *)
Definition typed (n : Native) (type : string) : option ScVal :=
  match n with
  | NUndefined => Some ScvVoid
  | NInt z => if eqs type "i128" then Some (ScvI128 z) else if eqs type "u32" then Some (ScvU32 z)
              else if eqs type "u64" then Some (ScvU64 z) else None
  | NText s => if eqs type "symbol" then Some (ScvSymbol s) else None
  | NBool b => if eqs type "bool" then Some (ScvBool b) else None
  | NBytes b => if eqs type "bytes" then Some (ScvBytes b) else None
  end.

Class ScLaws `{ScLib} : Prop := {
  address_is : forall a v, address_ScVal a = Ok v -> v = ScvAddress a;
  native_is : forall n type v, nativeToScVal n type = Ok v -> typed n type = Some v }.

Section Envelopes.
Context `{ScLib} `{!ScLaws} (c : ContractClients).
Notation build_prog := (prog Database RpcCall string).
Notation build_world := (world Database RpcCall string).

(** ** The routes' invocations, made with the clients *)
Definition api_build (i : ApiInvocation) : build_prog string :=
  match i with
  | OpenLine source taker token limit rateBps cureS hash => CreditLine_open (creditLine_ c) source (OpenArgs taker token limit rateBps cureS hash)
  | FundLine source line amount => CreditLine_fund (creditLine_ c) source line amount
  | WithdrawUndrawn source line amount => CreditLine_withdrawUndrawn (creditLine_ c) source line amount
  | WithdrawInterest source line amount => CreditLine_withdrawInterest (creditLine_ c) source line amount
  | CloseLiquidated source line => CreditLine_closeLiquidated (creditLine_ c) source line
  | PledgeUnits source line token units => PledgeVault_pledge (pledgeVault c) source line token units
  | ReleaseUnits source line token units => PledgeVault_release (pledgeVault c) source line token units
  | DrawLine source line amount to => CreditLine_draw (creditLine_ c) source line amount to
  | RepayLine source line amount => CreditLine_repay (creditLine_ c) source line amount
  | ExitUnits source token units minUsdcOut to => ExitDesk_exit (exitDesk c) source token units minUsdcOut to
  | ProposeRepo source taker token units cash rateBps kind maturityAt hash =>
      RepoDvp_propose (repoDvp c) source (RepoTerms taker token units cash rateBps kind maturityAt hash)
  | AcceptRepo source trade => RepoDvp_acceptAndSettle (repoDvp c) source trade
  | UnwindRepo source trade => RepoDvp_unwind (repoDvp c) source trade
  | TopUpRepo source trade units => RepoDvp_topUp (repoDvp c) source trade units
  end.

(** ** What they should come to *)
Definition signer (i : ApiInvocation) : string :=
  match i with
  | OpenLine s _ _ _ _ _ _ | FundLine s _ _ | WithdrawUndrawn s _ _ | WithdrawInterest s _ _ | CloseLiquidated s _ | PledgeUnits s _ _ _
  | ReleaseUnits s _ _ _ | DrawLine s _ _ _ | RepayLine s _ _ | ExitUnits s _ _ _ _ | ProposeRepo s _ _ _ _ _ _ _ _ | AcceptRepo s _
  | UnwindRepo s _ | TopUpRepo s _ _ => s
  end.

Definition kind_variant (kind : string) : ScVal := match REPO_KIND_VARIANT kind with Some v => ScvSymbol v | None => ScvVoid end.

(** The contract, the method, and the arguments after the signer. *)
Definition terms (i : ApiInvocation) : ContractClientConfig * string * list ScVal :=
  match i with
  | OpenLine _ taker token limit rateBps cureS hash =>
      (creditLine_ c, "open", [ScvAddress taker; ScvAddress token; ScvI128 limit; ScvU32 rateBps; ScvU64 cureS; ScvBytes hash])
  | FundLine _ line amount => (creditLine_ c, "fund", [ScvU64 line; ScvI128 amount])
  | WithdrawUndrawn _ line amount => (creditLine_ c, "withdraw_undrawn", [ScvU64 line; ScvI128 amount])
  | WithdrawInterest _ line amount => (creditLine_ c, "withdraw_interest", [ScvU64 line; ScvI128 amount])
  | CloseLiquidated _ line => (creditLine_ c, "close_liquidated", [ScvU64 line])
  | PledgeUnits _ line token units => (pledgeVault c, "pledge", [ScvU64 line; ScvAddress token; ScvI128 units])
  | ReleaseUnits _ line token units => (pledgeVault c, "release", [ScvU64 line; ScvAddress token; ScvI128 units])
  | DrawLine _ line amount to => (creditLine_ c, "draw", [ScvU64 line; ScvI128 amount; ScvAddress to])
  | RepayLine _ line amount => (creditLine_ c, "repay", [ScvU64 line; ScvI128 amount])
  | ExitUnits _ token units minUsdcOut to => (exitDesk c, "exit", [ScvAddress token; ScvI128 units; ScvI128 minUsdcOut; ScvAddress to])
  | ProposeRepo _ taker token units cash rateBps kind maturityAt hash =>
      (repoDvp c, "propose", [ScvAddress taker; ScvAddress token; ScvI128 units; ScvI128 cash; ScvU32 rateBps;
         ScvVec [kind_variant kind]; ScvU64 maturityAt; ScvBytes hash])
  | AcceptRepo _ trade => (repoDvp c, "accept_and_settle", [ScvU64 trade])
  | UnwindRepo _ trade => (repoDvp c, "unwind", [ScvU64 trade])
  | TopUpRepo _ trade units => (repoDvp c, "top_up", [ScvU64 trade; ScvI128 units])
  end.

(** The transaction the signer is to sign: one invocation, the signer its first argument. *)
Definition envelope (i : ApiInvocation) (sequence : Z) : Tx :=
  let '(client, method, rest) := terms i in
  BuiltTx (signer i) sequence (nc_networkPassphrase (kc_network client))
    (Invoke (kc_contractId client) method (ScvAddress (signer i) :: rest)) UNSIGNED_TX_TIMEOUT_S.
Definition rpc_of (i : ApiInvocation) : string := nc_rpcUrl (kc_network (fst (fst (terms i)))).

(** Two invocations with the same call are the same; a repo's kind has to be one of the four. *)
Definition kinded (i : ApiInvocation) : Prop :=
  match i with ProposeRepo _ _ _ _ _ _ kind _ _ => REPO_KIND_VARIANT kind <> None | _ => True end.

Lemma kind_variant_inj k k' : REPO_KIND_VARIANT k <> None -> REPO_KIND_VARIANT k' <> None -> kind_variant k = kind_variant k' -> k = k'.
Proof.
  assert (Hinv : forall k v, REPO_KIND_VARIANT k = Some v -> k = match v with "Intraday" => "intraday" | "Overnight" => "overnight" | "Open" => "open" | _ => "term" end).
  { intros k0 v. unfold REPO_KIND_VARIANT. cbn. repeat (case_bool_decide as E; [intros [= <-]; exact E|clear E]). done. }
  unfold kind_variant. destruct (REPO_KIND_VARIANT k) as [v|] eqn:E; [|done]. destruct (REPO_KIND_VARIANT k') as [v'|] eqn:E'; [|done].
  intros _ _ [= <-]. by rewrite (Hinv k v E), (Hinv k' v E').
Qed.

Lemma envelope_determines i j s s' : kinded i -> kinded j -> tx_operation (envelope i s) = tx_operation (envelope j s') -> i = j.
Proof.
  intros Hi Hj. destruct i, j; cbn; intros E; try discriminate E; injection E; intros; subst; try reflexivity.
  f_equal. by apply kind_variant_inj.
Qed.

(** ** The encoders give what they should *)
Definition gives (v : outcome ScVal) (x : ScVal) : Prop := forall y, v = Ok y -> y = x.

Lemma gives_address a : gives (scAddress a) (ScvAddress a).
Proof. intros y. apply address_is. Qed.
Lemma gives_i128 z : gives (scI128 z) (ScvI128 z).
Proof. intros y Hy%native_is. change (Some (ScvI128 z) = Some y) in Hy. congruence. Qed.
Lemma gives_u32 z : gives (scU32 z) (ScvU32 z).
Proof. intros y Hy%native_is. change (Some (ScvU32 z) = Some y) in Hy. congruence. Qed.
Lemma gives_u64 z : gives (scU64 z) (ScvU64 z).
Proof. intros y Hy%native_is. change (Some (ScvU64 z) = Some y) in Hy. congruence. Qed.
Lemma gives_bytes b : gives (scBytes b) (ScvBytes b).
Proof. intros y Hy%native_is. change (Some (ScvBytes b) = Some y) in Hy. congruence. Qed.
Lemma gives_symbol s : gives (scSymbol (Some s)) (ScvSymbol s).
Proof. intros y Hy%native_is. change (Some (ScvSymbol s) = Some y) in Hy. congruence. Qed.

Lemma gives_variant name : gives (enumToScVal name []) (ScvVec [match name with Some s => ScvSymbol s | None => ScvVoid end]).
Proof.
  intros y. unfold enumToScVal, scSymbol. cbn. destruct (nativeToScVal _ _) as [v|x] eqn:E; [|done]. intros [= <-].
  apply native_is in E. destruct name as [s|]; [change (Some (ScvSymbol s) = Some v) in E|cbn in E]; congruence.
Qed.
Lemma gives_kind kind : gives (enumToScVal (REPO_KIND_VARIANT kind) []) (ScvVec [kind_variant kind]).
Proof. apply gives_variant. Qed.

Lemma args_give l xs ys : Forall2 gives l xs -> args l = Ok ys -> ys = xs.
Proof.
  intros Hl. revert ys. induction Hl as [|v x l xs Hv Hl IH]; intros ys; cbn; [by intros [= <-]|].
  destruct v as [y|]; [|done]. cbn. fold (args l). destruct (args l) as [ys'|]; [|done]. cbn. intros [= <-]. f_equal; auto.
Qed.

(** ** Building an envelope *)
(** One to four equal calls from tick [t], the last one answering [r]. *)
Definition asked {X} (e : env RpcCall) (call : RpcCall X) (t n : nat) (r : outcome X) : Prop :=
  (0 < n <= 4)%nat /\ transient_failures e call t (n - 1) /\ r = answer e X (t + (n - 1)) call.

Lemma run_retry (e : env RpcCall) {X} (q : RpcCall X) (w : build_world) :
  exists n r, run e (withRpcRetry (call q)) w = (r, World (w_db w) (w_tick w + n) (w_log w ++ calls e q (w_tick w) n)) /\ asked e q (w_tick w) n r.
Proof.
  pose proof (withRpcRetry_last_answer e q w) as Hr. destruct (run e _ _) as [r w']. destruct Hr as (n & Hn & Ht & Hr & -> & _).
  by exists n, r.
Qed.

(** How the building of an envelope for [tx seq] ends: the RPC was asked for the source account and, once it
    answered, to prepare the transaction with that sequence number. *)
Definition refusal (y : exn) : exn := if isTransientRpcError y then y else ContractRejectedError (exn_message y).

Definition built (e : env RpcCall) (url source : string) (tx : Z -> Tx) (w w' : build_world) (r : outcome string) : Prop :=
  w_db w' = w_db w /\
  match r with
  | Ok xdr => exists n m sequence,
      asked e (GetAccount url source) (w_tick w) n (Ok sequence) /\
      asked e (PrepareTransaction url (tx sequence)) (w_tick w + n) m (Ok xdr) /\
      w_log w' = w_log w ++ calls e (GetAccount url source) (w_tick w) n ++ calls e (PrepareTransaction url (tx sequence)) (w_tick w + n) m
  | Err x =>
      (exists n, (n <= 4)%nat /\ w_log w' = w_log w ++ calls e (GetAccount url source) (w_tick w) n) \/
      (exists n m sequence y,
        asked e (GetAccount url source) (w_tick w) n (Ok sequence) /\
        asked e (PrepareTransaction url (tx sequence)) (w_tick w + n) m (Err y) /\ x = refusal y /\
        w_log w' = w_log w ++ calls e (GetAccount url source) (w_tick w) n ++ calls e (PrepareTransaction url (tx sequence)) (w_tick w + n) m)
  end.

Lemma run_buildUnsignedTx (e : env RpcCall) config source contractId method scArgs (w : build_world) :
  let '(r, w') := run e (buildUnsignedTx config source contractId method scArgs) w in
  built e (nc_rpcUrl config) source
    (fun sequence => BuiltTx source sequence (nc_networkPassphrase config) (Invoke contractId method scArgs) UNSIGNED_TX_TIMEOUT_S) w w' r.
Proof.
  unfold buildUnsignedTx. rewrite run_bind.
  destruct (run_retry e (GetAccount (nc_rpcUrl config) source) w) as (n & a & -> & Ha).
  destruct a as [sequence|x]; [|split; [done|]; left; exists n; destruct Ha as [[??] _]; by split].
  rewrite run_bind. destruct (new_Contract contractId) as [[]|x]; cbn [lift run];
    [|split; [done|]; left; exists n; destruct Ha as [[??] _]; by split].
  cbv zeta. rewrite run_catch. set (tx := BuiltTx _ _ _ _ _).
  destruct (run_retry e (PrepareTransaction (nc_rpcUrl config) tx) (World (w_db w) (w_tick w + n) (w_log w ++ calls e (GetAccount (nc_rpcUrl config) source) (w_tick w) n)))
    as (m & b & -> & Hb). cbn [w_tick w_db w_log] in *.
  destruct b as [xdr|y].
  - split; [done|]. exists n, m, sequence. by rewrite <- app_assoc.
  - assert (Hend : forall x w', w_db w' = w_db w -> x = refusal y ->
      w_log w' = (w_log w ++ calls e (GetAccount (nc_rpcUrl config) source) (w_tick w) n) ++ calls e (PrepareTransaction (nc_rpcUrl config) tx) (w_tick w + n) m ->
      built e (nc_rpcUrl config) source (fun sequence => BuiltTx source sequence (nc_networkPassphrase config) (Invoke contractId method scArgs) UNSIGNED_TX_TIMEOUT_S) w w' (Err x)).
    { intros x w' Hd -> Hl. split; [done|]. right. exists n, m, sequence, y. rewrite Hl, <- app_assoc. done. }
    unfold refusal in Hend. destruct (isTransientRpcError y); by apply Hend.
Qed.

Lemma run_invoke (e : env RpcCall) client source method scArgs xs (w : build_world) :
  Forall2 gives scArgs xs ->
  let '(r, w') := run e (invoke client source method scArgs) w in
  built e (nc_rpcUrl (kc_network client)) source
    (fun sequence => BuiltTx source sequence (nc_networkPassphrase (kc_network client)) (Invoke (kc_contractId client) method xs) UNSIGNED_TX_TIMEOUT_S) w w' r.
Proof.
  intros Hargs. unfold invoke. rewrite run_bind. destruct (args scArgs) as [ys|x] eqn:E; cbn [lift run].
  - rewrite (args_give _ _ _ Hargs E). apply run_buildUnsignedTx.
  - split; [done|]. left. exists 0%nat. split; [lia|]. by rewrite app_nil_r.
Qed.

Lemma run_api_build (e : env RpcCall) i (w : build_world) :
  let '(r, w') := run e (api_build i) w in built e (rpc_of i) (signer i) (envelope i) w w' r.
Proof.
  destruct i; cbn [api_build];
    unfold CreditLine_open, CreditLine_fund, CreditLine_withdrawUndrawn, CreditLine_withdrawInterest, CreditLine_closeLiquidated, PledgeVault_pledge,
      PledgeVault_release, CreditLine_draw, CreditLine_repay, ExitDesk_exit, RepoDvp_propose, RepoDvp_acceptAndSettle, RepoDvp_unwind, RepoDvp_topUp;
    apply run_invoke; repeat constructor;
    auto using gives_address, gives_i128, gives_u32, gives_u64, gives_bytes, gives_kind.
Qed.
End Envelopes.

(** C20. What a wallet is given to sign is the request.  When the clients return an envelope for an
    invocation, it is the RPC's preparation of one transaction: from the account that has to sign, at the
    sequence number the RPC gave for it, on the network of the configuration, valid for five minutes, with
    a single call of the contract and method the invocation names, whose first argument is the signer and
    the others exactly the terms; each RPC method was called one to four times and nothing else happened.
    Different invocations have different calls, so an envelope stands for one only.  A call the node
    refuses for good is answered 422, a node that is away keeps its error. *)
Theorem envelope_is_the_request `{ScLib} `{!ScLaws} (c : ContractClients) (i : ApiInvocation) (e : env RpcCall) (w : world Database RpcCall string) :
  (let '(r, w') := run e (api_build c i) w in built e (rpc_of c i) (signer i) (envelope c i) w w' r) /\
  (forall y, isTransientRpcError y = false -> rp_code (error_reply (refusal y)) = 422) /\
  (forall j s s', kinded i -> kinded j -> tx_operation (envelope c i s) = tx_operation (envelope c j s') -> i = j).
Proof.
  split; [apply run_api_build|]. split; [|intros; by eapply envelope_determines].
  intros y Hy. unfold refusal. by rewrite Hy.
Qed.

(** ** An asset's configuration, there and back *)
(** What [scValToNative] makes of the values a configuration is built of: numbers, texts, an array of a
    vector's values, an object of a map with symbols as keys. *)
Class ReadLaws `{ScLib} : Prop := {
  read_u32 : forall n, scValToNative (ScvU32 n) = Ok (JNum n);
  read_symbol : forall s, scValToNative (ScvSymbol s) = Ok (JStr s);
  read_address : forall a, scValToNative (ScvAddress a) = Ok (JStr a);
  read_vec : forall l, scValToNative (ScvVec l) = omap' JArr (omap_list scValToNative l);
  read_map : forall l, NoDup (List.map fst l) ->
    scValToNative (ScvMap (List.map (fun kv => (ScvSymbol (fst kv), snd kv)) l)) =
    omap' JObj (omap_list (fun kv => v <-? scValToNative (snd kv) ;; Ok (fst kv, v)) l) }.

(** The fields of the interface [OnChainAssetConfig], read from an object. *)
Definition num_field (k : string) (l : list (string * jsval)) : option Z := match assoc k l with Some (JNum z) => Some z | _ => None end.
Definition text_field (k : string) (l : list (string * jsval)) : option string := match assoc k l with Some (JStr s) => Some s | _ => None end.
Definition as_config (v : jsval) : option OnChainAssetConfig :=
  match v with
  | JObj l =>
      match text_field "issuer" l, text_field "contract" l, text_field "standard" l, text_field "yieldType" l, text_field "custodyMode" l,
        text_field "ccy" l, text_field "status" l with
      | Some issuer, Some contract, Some standard, Some yieldType, Some custodyMode, Some ccy, Some status =>
          match num_field "redemptionLagDays" l, num_field "haircutBaseBps" l, num_field "haircutFxBps" l, num_field "priceBandBps" l,
            num_field "dailyMoveBandBps" l with
          | Some lag, Some base, Some fx, Some band, Some move =>
              Some (ChainAsset issuer contract standard yieldType custodyMode ccy lag base fx band move status)
          | _, _, _, _, _ => None
          end
      | _, _, _, _, _, _, _ => None
      end
  | _ => None
  end.

(** The words of the types [AssetStandard], [YieldType] and [CustodyMode]. *)
Definition in_vocabulary (config : OnChainAssetConfig) : Prop :=
  In (an_standard config) ["classic_sac"; "sep57"] /\ In (an_yieldType config) ["accumulating"; "distributing"] /\
  In (an_custodyMode config) ["escrow"; "issuer_lien"; "custodian_lien"].

Section Assets.
Context `{ScLib} `{!ScLaws} `{!ReadLaws}.

Lemma struct_gives fields xs v :
  Forall2 (fun f x => fst f = fst x /\ gives (snd f) (snd x)) fields xs -> scStruct fields = Ok v ->
  v = ScvMap (List.map (fun kv => (ScvSymbol (fst kv), snd kv)) (sort_fields xs)).
Proof.
  intros Hf. unfold scStruct.
  assert (Hvals : forall ys, omap_list (fun kv => v <-? snd kv ;; Ok (fst kv, v)) fields = Ok ys -> ys = xs).
  { induction Hf as [|[k o] [k' x] fields xs [Hk Hg] Hf IH]; intros ys; cbn; [by intros [= <-]|]. cbn in Hk, Hg. subst k'.
    destruct o as [y|]; [|done]. cbn. destruct (omap_list _ fields) as [ys'|]; [|done]. cbn. intros [= <-]. f_equal; [|by apply IH].
    f_equal. by apply Hg. }
  destruct (omap_list _ fields) as [ys|x]; [|done]. cbn. rewrite (Hvals ys eq_refl). generalize (sort_fields xs) as l.
  intros l. assert (Hkeys : forall zs, omap_list (fun kv => key <-? scSymbol (Some (fst kv)) ;; Ok (key, snd kv)) l = Ok zs ->
    zs = List.map (fun kv => (ScvSymbol (fst kv), snd kv)) l).
  { induction l as [|[k x] l IH]; intros zs; cbn; [by intros [= <-]|]. destruct (scSymbol (Some k)) as [key|] eqn:E; [|done]. cbn.
    destruct (omap_list _ l) as [zs'|]; [|done]. cbn. intros [= <-]. rewrite (gives_symbol _ _ E). f_equal. by apply IH. }
  destruct (omap_list _ l) as [zs|]; [|done]. cbn. intros [= <-]. by rewrite (Hkeys zs eq_refl).
Qed.

Definition variant (table : list (string * string)) (k : string) : ScVal :=
  ScvVec [match assoc k table with Some s => ScvSymbol s | None => ScvVoid end].

Lemma encoded config v : encodeAssetConfig config = Ok v ->
  v = ScvMap (List.map (fun kv => (ScvSymbol (fst kv), snd kv)) [
    ("ccy", ScvSymbol (an_ccy config)); ("contract", ScvAddress (an_contract config));
    ("custody_mode", variant CUSTODY_MODE_VARIANT (an_custodyMode config)); ("daily_move_band_bps", ScvU32 (an_dailyMoveBandBps config));
    ("haircut_base_bps", ScvU32 (an_haircutBaseBps config)); ("haircut_fx_bps", ScvU32 (an_haircutFxBps config));
    ("issuer", ScvAddress (an_issuer config)); ("price_band_bps", ScvU32 (an_priceBandBps config));
    ("redemption_lag_days", ScvU32 (an_redemptionLagDays config)); ("standard", variant STANDARD_VARIANT (an_standard config));
    ("status", ScvSymbol (an_status config)); ("yield_type", variant YIELD_TYPE_VARIANT (an_yieldType config))]).
Proof.
  intros Hv. unfold encodeAssetConfig in Hv. apply (struct_gives _ [
    ("issuer", ScvAddress (an_issuer config)); ("contract", ScvAddress (an_contract config));
    ("standard", variant STANDARD_VARIANT (an_standard config)); ("yield_type", variant YIELD_TYPE_VARIANT (an_yieldType config));
    ("custody_mode", variant CUSTODY_MODE_VARIANT (an_custodyMode config)); ("ccy", ScvSymbol (an_ccy config));
    ("redemption_lag_days", ScvU32 (an_redemptionLagDays config)); ("haircut_base_bps", ScvU32 (an_haircutBaseBps config));
    ("haircut_fx_bps", ScvU32 (an_haircutFxBps config)); ("price_band_bps", ScvU32 (an_priceBandBps config));
    ("daily_move_band_bps", ScvU32 (an_dailyMoveBandBps config)); ("status", ScvSymbol (an_status config))]) in Hv; [exact Hv|].
  repeat (apply Forall2_cons; split; [split; [reflexivity|];
    cbn [snd]; auto using gives_address, gives_u32, gives_symbol, gives_variant|]). by apply Forall2_nil.
Qed.

(** What a read of the encoded value decodes to. *)
Lemma asset_reads_back config v : in_vocabulary config -> encodeAssetConfig config = Ok v ->
  exists native, scValToNative v = Ok native /\ as_config (asset_from_chain (normalizeContractValue native)) = Some config.
Proof.
  intros (Hs & Hy & Hc) ->%encoded. rewrite read_map.
  2: { cbn. repeat (apply NoDup_cons; split; [rewrite list_elem_of_In; cbn; intuition congruence|]). apply NoDup_nil_2. }
  destruct config as [issuer contract standard yieldType custodyMode ccy lag base fx band move status]. cbn [an_standard an_yieldType an_custodyMode] in *.
  destruct Hs as [<-|[<-|[]]], Hy as [<-|[<-|[]]], Hc as [<-|[<-|[<-|[]]]]; cbn -[variant];
    repeat match goal with |- context [variant ?t ?k] => let r := eval vm_compute in (variant t k) in change (variant t k) with r end;
    rewrite !read_vec, !read_symbol, !read_address, !read_u32; cbn; rewrite !read_symbol; cbn;
    eexists; (split; [reflexivity|]); vm_compute; reflexivity.
Qed.
End Assets.

(** What was registered is what is read: an asset whose contract answers with the value its configuration
    was registered as is read back as that configuration, field by field, in Ballast's words. *)
Theorem asset_config_round_trips `{ScLib} `{!ScLaws} `{!ReadLaws} (settings : ProcessEnv) (client : ContractClientConfig)
    (assetAddress source : string) (config : OnChainAssetConfig) (v address : ScVal) (e : env RpcCall) (w : world Database RpcCall string) :
  in_vocabulary config -> encodeAssetConfig config = Ok v -> scAddress assetAddress = Ok address ->
  resolveSimulationSource settings = Ok source -> new_Account source = Ok tt -> new_Contract (kc_contractId client) = Ok tt ->
  (forall n url tx, answer e _ n (SimulateTransaction url tx) = Ok (SimulationResult (Some v))) ->
  exists js, fst (run e (Registry_asset settings client assetAddress) w) = Ok js /\ as_config js = Some config.
Proof.
  intros Hvoc Henc Haddr Hsource Hacc Hcon Hsim. destruct (asset_reads_back config v Hvoc Henc) as (native & Hn & Hc).
  exists (asset_from_chain (normalizeContractValue native)). split; [|done].
  unfold Registry_asset, read, simulateRead, args. rewrite run_bind, run_bind. cbn [omap_list]. rewrite Haddr. cbn [obind lift run].
  rewrite run_bind, Hsource. cbn [lift run]. rewrite run_bind, Hacc. cbn [lift run]. rewrite run_bind, Hcon. cbn [lift run]. cbv zeta. rewrite run_bind.
  match goal with |- context [withRpcRetry (call ?q)] => pose proof (withRpcRetry_last_answer e q w) as Hr end.
  destruct (run e (withRpcRetry _) w) as [r w']. destruct Hr as (n & _ & _ & -> & _). rewrite Hsim. cbv iota beta. rewrite run_bind, Hn. done.
Qed.

(** ** Witnesses *)
Module ClientSample.
Fixpoint native (v : ScVal) : outcome jsval :=
  match v with
  | ScvVoid => Ok JNull
  | ScvAddress a | ScvSymbol a => Ok (JStr a)
  | ScvI128 z | ScvU64 z => Ok (JBig z)
  | ScvU32 z => Ok (JNum z)
  | ScvBool b => Ok (JBool b)
  | ScvBytes b => Ok (JArr (List.map JNum b))
  | ScvVec l => omap' JArr (omap_list native l)
  | ScvMap l => omap' JObj (omap_list (fun kv => v <-? native (snd kv) ;; Ok (match fst kv with ScvSymbol k => k | _ => "" end, v)) l)
  end.

#[local] Instance sdk : ScLib := {|
  address_ScVal a := Ok (ScvAddress a);
  nativeToScVal n type := match typed n type with Some v => Ok v | None => Err (Error "invalid type") end;
  scValToNative := native; new_Contract _ := Ok tt; new_Account _ := Ok tt |}.

#[local] Instance sdk_encodes : ScLaws.
Proof.
  split; cbn; [by intros a v [= <-]|]. intros n type v. destruct (typed n type); [by intros [= <-]|done].
Qed.
#[local] Instance sdk_reads : ReadLaws.
Proof.
  split; try done. intros l _. cbn [scValToNative sdk native]. f_equal. induction l as [|[k v] l IH]; [done|].
  cbn [List.map omap_list fst snd]. destruct (native v); [|done]. cbn [obind]. by rewrite IH.
Qed.

Definition network : NetworkConfig := Network "testnet" "https://rpc" "https://horizon" TESTNET_PASSPHRASE [].
Definition client (id : string) : ContractClientConfig := Client network id.
Definition clients : ContractClients := ApiClients (client "C1") (client "C2") (client "C3") (client "C4") (client "C5") (client "C6").
Definition config : OnChainAssetConfig := ChainAsset "GISSUER" "CASSET" "sep57" "accumulating" "escrow" "EUR" 2 500 300 200 100 "Active".

(** A node that answers the account at sequence 41, prepares, and simulates the registered asset. *)
Definition node (X : Type) (n : nat) (q : RpcCall X) : outcome X :=
  match q in RpcCall X return outcome X with
  | GetAccount _ _ => if (n =? 0)%nat then Err (Error "503") else Ok 41
  | PrepareTransaction _ _ => Ok "prepared"
  | SimulateTransaction _ _ => Ok (SimulationResult match encodeAssetConfig config with Ok v => Some v | Err _ => None end)
  end.
Definition environment : env RpcCall := Env node (fun _ => NoFault) (fun n => Stamp (Z.of_nat n) "u").

Lemma envelope_is_the_request_witness :
  fst (run environment (api_build clients (DrawLine "GB" 7 100 "GB")) (World empty_db 0 [])) = Ok "prepared" /\
  built environment "https://rpc" "GB" (envelope clients (DrawLine "GB" 7 100 "GB")) (World empty_db 0 [])
    (snd (run environment (api_build clients (DrawLine "GB" 7 100 "GB")) (World empty_db 0 []))) (Ok "prepared").
Proof.
  split; [vm_compute; reflexivity|].
  exact (proj1 (envelope_is_the_request clients (DrawLine "GB" 7 100 "GB") environment (World empty_db 0 []))).
Defined.

Example asset_reads_back_here :
  exists js, fst (run environment (Registry_asset (fun k => if eqs k "STELLAR_SIMULATION_SOURCE" then Some "GS" else None) (client "C1") "CASSET")
    (World empty_db 0 [] : world Database RpcCall string)) = Ok js /\ as_config js = Some config.
Proof.
  destruct (encodeAssetConfig config) as [v|x] eqn:E; [|discriminate E].
  apply (asset_config_round_trips _ (client "C1") "CASSET" "GS" config v (ScvAddress "CASSET")); try reflexivity; [split_and!; cbn; intuition|done|].
  intros n url tx. cbn [answer environment node]. by rewrite E.
Qed.
End ClientSample.
