(* ===== verification/ReadRoutes.v ===== *)
(** The routes that only read, of [services/api/src/routes]: [assets.ts], [positions.ts], [markets.ts] and
    [reports.ts]. *)
From stdpp Require Import gmap.
From Stdlib Require Import SpecFloat.
From S2P Require Import Prelude Floats Prog Settings Schema Rules Domain Intents Api.

(** The engine's texts for dates, its reading of one, and [JSON.stringify]. *)
Class DateLib := {
  toISOString : Z -> string;
  parse_date : string -> option Z;
  cell_text : jsval -> string }.

(** ** Rows as the replies and the report have them: the columns of the schema, in its order *)
Section Json.
Context `{DateLib}.
Definition date (t : Z) : jsval := JStr (toISOString t).
Definition opt_date (t : option Z) : jsval := match t with Some t => date t | None => JNull end.

Definition snapshot_json (s : priceSnapshot_row) : list (string * jsval) :=
  [("id", JStr (ps_id s)); ("assetId", JStr (ps_assetId s)); ("guardedValue", JStr (ps_guardedValue s)); ("status", JStr (ps_status s));
   ("sources", ps_sources s); ("ledger", JNum (ps_ledger s)); ("createdAt", date (ps_createdAt s))].
Definition line_json (l : creditLine_row) : list (string * jsval) :=
  [("id", JStr (cl_id l)); ("lenderId", JStr (cl_lenderId l)); ("borrowerId", JStr (cl_borrowerId l)); ("loanCcy", JStr (cl_loanCcy l));
   ("limitAmount", JStr (cl_limitAmount l)); ("rateBps", JNum (cl_rateBps l)); ("feeBps", JNum (cl_feeBps l));
   ("cureWindowS", JNum (cl_cureWindowS l)); ("status", JStr (cl_status l)); ("contractLineId", opt_text (cl_contractLineId l));
   ("agreementHash", opt_text (cl_agreementHash l)); ("openedAt", date (cl_openedAt l)); ("closedAt", opt_date (cl_closedAt l))].
Definition pledge_json (p : pledge_row) : list (string * jsval) :=
  [("id", JStr (pl_id p)); ("creditLineId", JStr (pl_creditLineId p)); ("assetId", JStr (pl_assetId p)); ("units", JStr (pl_units p));
   ("custodyMode", JStr (pl_custodyMode p)); ("contractPositionId", opt_text (pl_contractPositionId p)); ("lienRef", opt_text (pl_lienRef p));
   ("status", JStr (pl_status p)); ("createdAt", date (pl_createdAt p))].
Definition draw_json (r : draw_row) : list (string * jsval) :=
  [("id", JStr (dr_id r)); ("creditLineId", JStr (dr_creditLineId r)); ("amount", JStr (dr_amount r)); ("txHash", JStr (dr_txHash r));
   ("ledger", JNum (dr_ledger r)); ("createdAt", date (dr_createdAt r))].
Definition repayment_json (r : repayment_row) : list (string * jsval) :=
  [("id", JStr (rp_id r)); ("creditLineId", JStr (rp_creditLineId r)); ("principal", JStr (rp_principal r)); ("interest", JStr (rp_interest r));
   ("txHash", JStr (rp_txHash r)); ("ledger", JNum (rp_ledger r)); ("createdAt", date (rp_createdAt r))].
Definition margin_event_json (r : marginEvent_row) : list (string * jsval) :=
  [("id", JStr (me_id r)); ("creditLineId", JStr (me_creditLineId r)); ("fromState", JStr (me_fromState r)); ("toState", JStr (me_toState r));
   ("ltvBps", JNum (me_ltvBps r)); ("priceSnapshotId", opt_text (me_priceSnapshotId r)); ("createdAt", date (me_createdAt r))].
Definition liquidation_json (r : liquidation_row) : list (string * jsval) :=
  [("id", JStr (li_id r)); ("creditLineId", JStr (li_creditLineId r)); ("route", JStr (li_route r)); ("units", JStr (li_units r));
   ("proceeds", opt_text (li_proceeds r)); ("shortfall", opt_text (li_shortfall r));
   ("txHashes", match li_txHashes r with Some l => JArr (List.map JStr l) | None => JNull end);
   ("startedAt", date (li_startedAt r)); ("completedAt", opt_date (li_completedAt r))].
Definition quote_json (q : exitQuote_row) : list (string * jsval) :=
  [("id", JStr (eq_id q)); ("holderId", JStr (eq_holderId q)); ("assetId", JStr (eq_assetId q)); ("units", JStr (eq_units q));
   ("price", JStr (eq_price q)); ("spreadBps", JNum (eq_spreadBps q)); ("usdcOut", JStr (eq_usdcOut q)); ("expiresAt", date (eq_expiresAt q));
   ("status", JStr (eq_status q))].
Definition trade_json (t : repoTrade_row) : list (string * jsval) :=
  [("id", JStr (rt_id t)); ("cashLenderId", JStr (rt_cashLenderId t)); ("cashBorrowerId", JStr (rt_cashBorrowerId t));
   ("assetId", JStr (rt_assetId t)); ("units", JStr (rt_units t)); ("cashAmount", JStr (rt_cashAmount t)); ("rateBps", JNum (rt_rateBps t));
   ("kind", JStr (rt_kind t)); ("startLedger", JNum (rt_startLedger t)); ("maturityAt", date (rt_maturityAt t));
   ("agreementHash", JStr (rt_agreementHash t)); ("status", JStr (rt_status t)); ("contractTradeId", opt_text (rt_contractTradeId t));
   ("leg1Tx", opt_text (rt_leg1Tx t)); ("leg2Tx", opt_text (rt_leg2Tx t))].
Definition rows_json {A} (f : A -> list (string * jsval)) (l : list A) : jsval := JArr (List.map (fun r => JObj (f r)) l).
End Json.

(** ** The latest row of each key: [latestSnapshotByAsset] and [latestBy] *)
Section Latest.
Context {A : Type} (key : A -> string) (time : A -> Z).

Definition keep_latest (out : gmap string A) (r : A) : gmap string A :=
  match out !! key r with
  | None => <[key r := r]> out
  | Some existing => if time existing <? time r then <[key r := r]> out else out
  end.
Definition latestBy (rows : list A) : gmap string A := foldl keep_latest ∅ rows.
End Latest.

Definition latestSnapshotByAsset : list priceSnapshot_row -> gmap string priceSnapshot_row := latestBy ps_assetId ps_createdAt.

Section Reads.
Context `{ApiLib, DateLib}.

(** ** routes/assets.ts *)
Definition asset_price (snapshot : option priceSnapshot_row) : jsval :=
  match snapshot with
  | Some s => JObj [("value", JStr (ps_guardedValue s)); ("status", JStr (ps_status s)); ("asOf", date (ps_createdAt s))]
  | None => JNull
  end.

Definition asset_json (latest : gmap string priceSnapshot_row) (a : asset_row) : jsval :=
  JObj [("id", JStr (a_id a)); ("code", JStr (a_code a)); ("contractC", JStr (a_contractC a)); ("ccy", JStr (a_ccy a));
        ("standard", JStr (a_standard a)); ("custodyMode", JStr (a_custodyMode a));
        ("haircutBps", JNum (a_haircutBaseBps a + a_haircutFxBps a)); ("status", JStr (a_status a));
        ("price", asset_price (latest !! a_id a))].

Definition assets_route : api_prog HttpReply :=
  assets <- stmt (select asset (fun _ => true)) ;;
  snapshots <- stmt (select priceSnapshot (fun _ => true)) ;;
  let latest := latestSnapshotByAsset snapshots in
  Ret (HReply 200 (JObj [("assets", JArr (List.map (asset_json latest) assets))])).

Definition asset_price_route (id : string) : api_prog HttpReply :=
  found <- by_param asset id a_id ;;
  match found with
  | None => fail 404 "asset not found"
  | Some a =>
      rows <- stmt (select priceSnapshot (fun s => eqs (ps_assetId s) (a_id a))) ;;
      let history := take 50 (order_desc ps_createdAt rows) in
      let latest := hd_error history in
      Ret (HReply 200 (JObj [("assetId", JStr (a_id a));
        ("status", match latest with Some s => JStr (ps_status s) | None => JStr "Halted" end);
        ("value", match latest with Some s => JStr (ps_guardedValue s) | None => JNull end);
        ("ts", match latest with Some s => date (ps_createdAt s) | None => JNull end);
        ("sources", match latest with Some s => ps_sources s | None => JArr [] end);
        ("history", rows_json snapshot_json history)]))
  end.

(** ** routes/positions.ts *)
Definition positions_query (query : jsval) : outcome string := field "party" z_uuid query.

Definition pledges_of (lines : list creditLine_row) : api_prog (list pledge_row) :=
  fold (fun acc line =>
    rows <- stmt (select pledge (fun p => eqs (pl_creditLineId p) (cl_id line))) ;; Ret (acc ++ rows)) [] lines.

Definition positions_route (partyId : string) (query : jsval) : api_prog HttpReply :=
  match positions_query query with
  | Err _ => fail 400 "party query param is required"
  | Ok who =>
      if negb (eqs who partyId) then fail 403 "you can only read your own positions"
      else
        creditLines <- stmt (select creditLine (fun l => eqs (cl_borrowerId l) who || eqs (cl_lenderId l) who)) ;;
        pledges <- pledges_of creditLines ;;
        exitQuotes <- stmt (select exitQuote (fun q => eqs (eq_holderId q) who)) ;;
        repoTrades <- stmt (select repoTrade (fun t => eqs (rt_cashLenderId t) who || eqs (rt_cashBorrowerId t) who)) ;;
        Ret (HReply 200 (JObj [("party", JStr who); ("creditLines", rows_json line_json creditLines); ("pledges", rows_json pledge_json pledges);
          ("exitQuotes", rows_json quote_json exitQuotes); ("repoTrades", rows_json trade_json repoTrades)]))
  end.

(** ** routes/markets.ts *)
Definition OBSERVATION_WINDOW : nat := 2000.

Definition divergenceBps (a b : string) : option Z :=
  let x := Floats.Number a in let y := Floats.Number b in
  if negb (isFinite x) || negb (isFinite y) || SFeqb x (S754_zero false) then None
  else Math_round (Floats.mul (Floats.div (SFabs (Floats.sub x y)) x) (Floats.Number "10000")).

Definition observation_key (o : priceObservation_row) : string := po_assetId o +:+ ":" +:+ po_source o.

Definition ageS (now t : Z) : Z := Z.max 0 (round_thousandth (now - t)).

Definition reading (now : Z) (latestObservation : gmap string priceObservation_row) (assetId source : string) : option (string * jsval) :=
  option_map (fun o => (po_value o, JObj [("value", JStr (po_value o)); ("observedAt", date (po_observedAt o)); ("ageS", JNum (ageS now (po_observedAt o)))]))
    (latestObservation !! (assetId +:+ ":" +:+ source)).
Definition reading_json (r : option (string * jsval)) : jsval := match r with Some (_, js) => js | None => JNull end.

Definition market_json (now : Z) (snapshots : gmap string priceSnapshot_row) (observations : gmap string priceObservation_row) (a : asset_row) : jsval :=
  let issuerNav := reading now observations (a_id a) "issuer_nav" in
  let redstone := reading now observations (a_id a) "redstone" in
  JObj [("code", JStr (a_code a)); ("issuer", JStr (a_issuerG a)); ("issuerCode", JStr (a_issuerCode a)); ("contract", JStr (a_contractC a));
        ("ccy", JStr (a_ccy a)); ("priceBandBps", JNum (a_priceBandBps a));
        ("guarded", match snapshots !! a_id a with
                    | Some s => JObj [("value", JStr (ps_guardedValue s)); ("status", JStr (ps_status s)); ("asOf", date (ps_createdAt s));
                                      ("ageS", JNum (ageS now (ps_createdAt s)))]
                    | None => JNull
                    end);
        ("sources", JObj [("issuerNav", reading_json issuerNav); ("redstone", reading_json redstone)]);
        ("sourceCount", JNum (Z.of_nat (List.length (omap (fun r : option (string * jsval) => r) [issuerNav; redstone]))));
        ("divergenceBps", match issuerNav, redstone with
                          | Some (nav, _), Some (feed, _) => match divergenceBps nav feed with Some z => JNum z | None => JNull end
                          | _, _ => JNull
                          end)].

Definition markets_route (env : ProcessEnv) : api_prog HttpReply :=
  s <- sample ;;
  let now := st_now s in
  assets <- stmt (select asset (fun _ => true)) ;;
  snapshots <- stmt (select priceSnapshot (fun _ => true)) ;;
  rows <- stmt (select priceObservation (fun _ => true)) ;;
  let observations := take OBSERVATION_WINDOW (order_desc po_observedAt rows) in
  let latestSnapshot := latestBy ps_assetId ps_createdAt snapshots in
  let latestObservation := latestBy observation_key po_observedAt observations in
  Ret (HReply 200 (JObj [("network", JStr (default "local" (env "STELLAR_NETWORK"))); ("priceGuardContract", opt_text (setting env "PRICE_GUARD_CONTRACT_ID"));
    ("generatedAt", date now);
    ("markets", JArr (List.map (market_json now latestSnapshot latestObservation) (List.filter (fun a => eqs (a_status a) "active") assets)))])).

(** ** routes/reports.ts *)
Definition DATE_FORMAT (s : string) : bool :=
  match split_on "-" s with
  | [y; m; d] => (slen y =? 4)%nat && (slen m =? 2)%nat && (slen d =? 2)%nat && string_forall is_digit (y +:+ m +:+ d)
  | _ => false
  end.

(** The format is [json] when the query names none. *)
Definition reports_query (query : jsval) : outcome (string * string) :=
  day <-? field "date" (z_check DATE_FORMAT) query ;;
  format <-? field "format" (z_default "json" (z_enum ["json"; "csv"])) query ;;
  Ok (day, format).

Definition REPORT_CSV_FALLBACK_COLUMNS : list string :=
  ["kind"; "id"; "creditLineId"; "fromState"; "toState"; "ltvBps"; "priceSnapshotId"; "createdAt"; "route"; "units"; "proceeds"; "shortfall";
   "txHashes"; "startedAt"; "completedAt"; "amount"; "txHash"; "ledger"; "principal"; "interest"].

(** The keys in the order a [Set] keeps them. *)
Definition headers_of (rows : list (list (string * jsval))) (defaultColumns : list string) : list string :=
  match rows with
  | [] => dedup [] defaultColumns
  | _ =>
      let hasKind := existsb (fun row => existsb (fun kv => eqs (fst kv) "kind") row) rows in
      dedup [] ((if hasKind then ["kind"] else []) ++ List.concat (List.map (List.map fst) rows))
  end.

(** [JSON.stringify(row[h] ?? "")]. *)
Definition cell (row : list (string * jsval)) (h : string) : string :=
  cell_text match assoc h row with Some JNull | None => JStr "" | Some v => v end.

Definition toCsv (rows : list (list (string * jsval))) (defaultColumns : list string) : string :=
  let headers := headers_of rows defaultColumns in
  join (String "010" "") (join "," headers :: List.map (fun row => join "," (List.map (cell row) headers)) rows).

Definition DAY_MS : Z := 24 * 60 * 60 * 1000.
Definition in_day (dayStart t : Z) : bool := (dayStart <=? t) && (t <? dayStart + DAY_MS).

Definition of_kind (kind : string) (row : list (string * jsval)) : list (string * jsval) := ("kind", JStr kind) :: row.

(** The reads of [Promise.all] are made one after another; on a date that is none the driver throws before
    the first. *)
Definition daily_report_route (partyId : string) (query : jsval) : api_prog HttpReply :=
  match reports_query query with
  | Err err => fail 400 (exn_message err)
  | Ok (day, format) =>
      lines <- stmt (select creditLine (fun l => eqs (cl_lenderId l) partyId || eqs (cl_borrowerId l) partyId)) ;;
      let mine := List.map cl_id lines in
      match parse_date (day +:+ "T00:00:00.000Z") with
      | None => Throw (Exn "RangeError" "Invalid time value")
      | Some dayStart =>
          marginEventsAll <- stmt (select marginEvent (fun r => in_day dayStart (me_createdAt r))) ;;
          liquidationsAll <- stmt (select liquidation (fun r => in_day dayStart (li_startedAt r))) ;;
          drawsAll <- stmt (select draw (fun r => in_day dayStart (dr_createdAt r))) ;;
          repaymentsAll <- stmt (select repayment (fun r => in_day dayStart (rp_createdAt r))) ;;
          priceSnapshots <- stmt (select priceSnapshot (fun r => in_day dayStart (ps_createdAt r))) ;;
          let own {A} (line_of : A -> string) (rows : list A) := List.filter (fun r => existsb (eqs (line_of r)) mine) rows in
          let marginEvents := own me_creditLineId marginEventsAll in
          let liquidations := own li_creditLineId liquidationsAll in
          let draws := own dr_creditLineId drawsAll in
          let repayments := own rp_creditLineId repaymentsAll in
          if eqs format "csv"
          then Ret (HReply 200 (JStr (toCsv (List.map (fun r => of_kind "margin_event" (margin_event_json r)) marginEvents ++
                 List.map (fun r => of_kind "liquidation" (liquidation_json r)) liquidations ++
                 List.map (fun r => of_kind "draw" (draw_json r)) draws ++
                 List.map (fun r => of_kind "repayment" (repayment_json r)) repayments) REPORT_CSV_FALLBACK_COLUMNS)))
          else Ret (HReply 200 (JObj [("date", JStr day); ("marginEvents", rows_json margin_event_json marginEvents);
                 ("liquidations", rows_json liquidation_json liquidations); ("draws", rows_json draw_json draws);
                 ("repayments", rows_json repayment_json repayments); ("priceSnapshots", rows_json snapshot_json priceSnapshots)]))
      end
  end.

Inductive ReadRequest :=
| GetAssets | GetAssetPrice (id : string) | GetMarkets | GetPositions (query : jsval) | GetDailyReport (query : jsval).

Definition read_route (env : ProcessEnv) (partyId : string) (req : ReadRequest) : api_prog HttpReply :=
  match req with
  | GetAssets => assets_route
  | GetAssetPrice id => asset_price_route id
  | GetMarkets => markets_route env
  | GetPositions query => positions_route partyId query
  | GetDailyReport query => daily_report_route partyId query
  end.

(** The public ones are answered without authentication. *)
Definition is_public (req : ReadRequest) : bool :=
  match req with GetAssets | GetAssetPrice _ | GetMarkets => true | _ => false end.
End Reads.
