(* ===== verification/ReadSafety.v ===== *)
(** What the read-only routes show: the latest row of each key, and of the books only what belongs to the
    party that asks. *)
From stdpp Require Import gmap.
From S2P Require Import Prelude Prog Shape Settings Schema Rules Views Domain Intents Api ReadRoutes.

(** ** The latest row of a key *)
Section Latest.
Context {A : Type} (key : A -> string) (time : A -> Z).

(** A row of [k] that no other row of [k] is later than. *)
Definition is_latest (rows : list A) (k : string) (r : A) : Prop :=
  In r rows /\ key r = k /\ forall r', In r' rows -> key r' = k -> time r' <= time r.

Lemma keep_latest_other out r k : k <> key r -> keep_latest key time out r !! k = out !! k.
Proof.
  intros Hk. unfold keep_latest. destruct (out !! key r) as [x|]; [destruct (time x <? time r)|]; by rewrite ?lookup_insert_ne.
Qed.

Lemma latestBy_snoc rows r : latestBy key time (rows ++ [r]) = keep_latest key time (latestBy key time rows) r.
Proof. apply foldl_snoc. Qed.

Lemma latestBy_spec rows k :
  match latestBy key time rows !! k with
  | Some r => is_latest rows k r
  | None => forall r, In r rows -> key r <> k
  end.
Proof.
  induction rows as [|r rows IH] using rev_ind; [cbn; rewrite lookup_empty; by intros r []|]. rewrite latestBy_snoc.
  destruct (decide (k = key r)) as [->|Hk].
  - unfold keep_latest. destruct (latestBy key time rows !! key r) as [x|] eqn:E.
    + destruct IH as (Hin & Hx & Hmax). destruct (time x <? time r) eqn:Et.
      * rewrite lookup_insert_eq. split; [apply in_or_app; right; by left|]. split; [done|].
        intros r' [Hr'|[<-|[]]]%in_app_or Hk'; [specialize (Hmax r' Hr' Hk')|]; lia.
      * rewrite E. split; [apply in_or_app; by left|]. split; [done|].
        intros r' [Hr'|[<-|[]]]%in_app_or Hk'; [by apply Hmax|lia].
    + rewrite lookup_insert_eq. split; [apply in_or_app; right; by left|]. split; [done|].
      intros r' [Hr'|[<-|[]]]%in_app_or Hk'; [by destruct (IH r' Hr')|lia].
  - rewrite keep_latest_other by done. destruct (latestBy key time rows !! k) as [x|].
    + destruct IH as (Hin & Hx & Hmax). split; [apply in_or_app; by left|]. split; [done|].
      intros r' [Hr'|[<-|[]]]%in_app_or Hk'; [by apply Hmax|by destruct Hk].
    + intros r' [Hr'|[<-|[]]]%in_app_or; [by apply IH|congruence].
Qed.
End Latest.

(** ** What a party may see *)
Definition own_line (partyId : string) (l : creditLine_row) : bool := eqs (cl_borrowerId l) partyId || eqs (cl_lenderId l) partyId.
Definition own_line_ids (partyId : string) (d : Database) : list string := List.map cl_id (List.filter (own_line partyId) (d creditLine)).
Definition on_own_line {A} (line_of : A -> string) (partyId : string) (d : Database) (r : A) : bool :=
  existsb (eqs (line_of r)) (own_line_ids partyId d).
Definition own_quote (partyId : string) (q : exitQuote_row) : bool := eqs (eq_holderId q) partyId.
Definition own_trade (partyId : string) (t : repoTrade_row) : bool := eqs (rt_cashLenderId t) partyId || eqs (rt_cashBorrowerId t) partyId.

(** Two databases with the same prices, and the same books as far as the party has a part in them. *)
Record same_books (partyId : string) (d d' : Database) : Prop := SameBooks {
  sb_assets : d asset = d' asset;
  sb_snapshots : d priceSnapshot = d' priceSnapshot;
  sb_observations : d priceObservation = d' priceObservation;
  sb_lines : List.filter (own_line partyId) (d creditLine) = List.filter (own_line partyId) (d' creditLine);
  sb_pledges : List.filter (on_own_line pl_creditLineId partyId d) (d pledge) = List.filter (on_own_line pl_creditLineId partyId d') (d' pledge);
  sb_margin : List.filter (on_own_line me_creditLineId partyId d) (d marginEvent) = List.filter (on_own_line me_creditLineId partyId d') (d' marginEvent);
  sb_liquidations : List.filter (on_own_line li_creditLineId partyId d) (d liquidation) = List.filter (on_own_line li_creditLineId partyId d') (d' liquidation);
  sb_draws : List.filter (on_own_line dr_creditLineId partyId d) (d draw) = List.filter (on_own_line dr_creditLineId partyId d') (d' draw);
  sb_repayments : List.filter (on_own_line rp_creditLineId partyId d) (d repayment) = List.filter (on_own_line rp_creditLineId partyId d') (d' repayment);
  sb_quotes : List.filter (own_quote partyId) (d exitQuote) = List.filter (own_quote partyId) (d' exitQuote);
  sb_trades : List.filter (own_trade partyId) (d repoTrade) = List.filter (own_trade partyId) (d' repoTrade) }.

Lemma same_books_ids partyId d d' : same_books partyId d d' -> own_line_ids partyId d = own_line_ids partyId d'.
Proof. intros H. unfold own_line_ids. by rewrite (sb_lines _ _ _ H). Qed.

(** ** Reads leave the database alone *)
Section Quiet.
Context `{ApiLib, DateLib} (settings : ProcessEnv) (partyId : string).
Notation world := api_world.
Implicit Types w : world.

Lemma quiet_read_route req : within leaves_db (fun _ _ => False) (read_route settings partyId req).
Proof.
  destruct req; cbn [read_route]; unfold assets_route, asset_price_route, markets_route, positions_route, pledges_of, daily_report_route, by_param, fail;
    cbv zeta; auto 40 with within.
Qed.

(** ** Only the party's own rows count *)
Section Seen.
Context (e : env ApiCall) (calm : forall n, db_fault e n = NoFault) (d1 d2 : Database) (Hsame : same_books partyId d1 d2).
Notation sees := (sees e d1 d2).
Notation sees_select := (sees_select e calm d1 d2).

Lemma sees_table t (k : list (row t) -> api_prog HttpReply) : d1 t = d2 t -> (forall rows, sees (k rows)) -> sees (rows <- stmt (select t (fun _ => true)) ;; k rows).
Proof. intros E Hk. apply sees_select; [by rewrite E|apply Hk]. Qed.

(** Filtering the rows of a day by the party's lines, or the party's rows by the day. *)
Lemma filter_comm {A} (P Q : A -> bool) l : List.filter P (List.filter Q l) = List.filter Q (List.filter P l).
Proof. rewrite !filter_filter. apply List.filter_ext. intros r. apply andb_comm. Qed.

Lemma sees_assets : sees assets_route.
Proof.
  apply sees_table; [apply Hsame|]. intros rows. apply sees_table; [apply Hsame|]. intros snaps. apply sees_ret.
Qed.

Lemma sees_asset_price id : sees (asset_price_route id).
Proof.
  unfold asset_price_route, by_param. destruct (pg_uuid id); [|apply sees_throw].
  apply (sees_select_one e calm); [by rewrite (sb_assets _ _ _ Hsame)|]. intros [a|] _; [|apply sees_ret].
  apply sees_select; [by rewrite (sb_snapshots _ _ _ Hsame)|]. apply sees_ret.
Qed.

Lemma sees_markets : sees (markets_route settings).
Proof.
  apply sees_sample. intros s. cbv zeta. apply sees_table; [apply Hsame|]. intros rows. apply sees_table; [apply Hsame|]. intros snaps.
  apply sees_table; [apply Hsame|]. intros obs. apply sees_ret.
Qed.

Lemma sees_positions query : sees (positions_route partyId query).
Proof.
  unfold positions_route. destruct (positions_query query) as [who|x]; [|apply sees_ret].
  destruct (negb (eqs who partyId)) eqn:E; [apply sees_ret|]. apply negb_false_iff, bool_decide_eq_true in E as ->.
  apply sees_select; [apply Hsame|]. apply sees_bind.
  - apply sees_fold. intros acc line Hin. apply sees_select; [|apply sees_ret].
    eapply filter_within; [|apply Hsame]. intros p Ep. apply bool_decide_eq_true in Ep.
    assert (In (pl_creditLineId p) (own_line_ids partyId d1)) as Hp by (rewrite Ep; apply in_map; exact Hin).
    split; apply existsb_exists; exists (pl_creditLineId p); (split; [|by apply bool_decide_eq_true]); [done|].
    by rewrite <- (same_books_ids _ _ _ Hsame).
  - intros pledges. apply sees_select; [apply Hsame|]. apply sees_select; [apply Hsame|]. apply sees_ret.
Qed.

(** The party's rows of a day are the same in both. *)
Lemma own_of_day {A} (line_of : A -> string) (day : A -> bool) mine (l1 l2 : list A) :
  mine = own_line_ids partyId d1 ->
  List.filter (on_own_line line_of partyId d1) l1 = List.filter (on_own_line line_of partyId d2) l2 ->
  List.filter (fun r => existsb (eqs (line_of r)) mine) (List.filter day l1) = List.filter (fun r => existsb (eqs (line_of r)) mine) (List.filter day l2).
Proof.
  intros -> E. rewrite !(filter_comm _ day). unfold on_own_line in E. rewrite <- (same_books_ids _ _ _ Hsame) in E. by rewrite E.
Qed.

Lemma sees_daily_report query : sees (daily_report_route partyId query).
Proof.
  unfold daily_report_route. destruct (reports_query query) as [[day format]|x]; [|apply sees_ret].
  assert (Hswap : forall d : Database, List.filter (fun l : creditLine_row => eqs (cl_lenderId l) partyId || eqs (cl_borrowerId l) partyId) (d creditLine) =
    List.filter (own_line partyId) (d creditLine)) by (intros d; apply List.filter_ext; intros l; apply orb_comm).
  apply sees_select; [etrans; [apply Hswap|etrans; [apply Hsame|symmetry; apply Hswap]]|]. cbn [row] in *. rewrite Hswap. cbv zeta. destruct (parse_date _) as [dayStart|]; [|apply sees_throw].
  unfold Views.sees.
  apply (sees2_select e calm d1 d2 marginEvent), (sees2_select e calm d1 d2 liquidation), (sees2_select e calm d1 d2 draw),
    (sees2_select e calm d1 d2 repayment), (sees2_select e calm d1 d2 priceSnapshot).
  change (List.map cl_id (List.filter (own_line partyId) (d1 creditLine))) with (own_line_ids partyId d1). cbv beta.
  rewrite (sb_snapshots _ _ _ Hsame).
  rewrite (own_of_day me_creditLineId _ _ (d1 marginEvent) (d2 marginEvent) eq_refl (sb_margin _ _ _ Hsame)).
  rewrite (own_of_day li_creditLineId _ _ (d1 liquidation) (d2 liquidation) eq_refl (sb_liquidations _ _ _ Hsame)).
  rewrite (own_of_day dr_creditLineId _ _ (d1 draw) (d2 draw) eq_refl (sb_draws _ _ _ Hsame)).
  rewrite (own_of_day rp_creditLineId _ _ (d1 repayment) (d2 repayment) eq_refl (sb_repayments _ _ _ Hsame)).
  destruct (eqs format "csv"); apply sees_ret.
Qed.

Lemma sees_read_route req : sees (read_route settings partyId req).
Proof.
  destruct req; cbn [read_route]; auto using sees_assets, sees_asset_price, sees_markets, sees_positions, sees_daily_report.
Qed.
End Seen.
End Quiet.

(** C26. The read-only routes show a party its own books and the public prices, and nothing else.  A read changes
    no row, whatever faults the database has; and its reply is the same from any two databases that agree
    on the prices and on the party's own lines, trades and quotes with what belongs to them. *)
Theorem reads_show_only_their_own `{ApiLib, DateLib} (settings : ProcessEnv) (partyId : string) (req : ReadRequest) (e : env ApiCall)
    (d : Database) n l :
  w_db (snd (run e (respond (read_route settings partyId req)) (World d n l))) = d /\
  (forall d', (forall m, db_fault e m = NoFault) -> same_books partyId d d' ->
     fst (run e (respond (read_route settings partyId req)) (World d n l)) = fst (run e (respond (read_route settings partyId req)) (World d' n l))).
Proof.
  split.
  - pose proof (run_leaves_db _ e _ (World d n l) (quiet_read_route settings partyId req)) as Hw.
    unfold respond. rewrite run_catch. destruct (run e _ _) as [[r|x] w']; exact Hw.
  - intros d' Hcalm Hsame. unfold respond.
    destruct (sees_catch e d d' _ (fun err => Ret (error_reply err)) (sees_read_route settings partyId e Hcalm d d' Hsame req)
      (fun x => sees_ret e d d' _) (World d n l) (World d' n l)) as (r & w1 & w2 & E1 & E2 & _); [done|]. by rewrite E1, E2.
Qed.

(** A report as CSV is a table: a first line of distinct columns, [kind] first when any row has one, and one
    line per row with one cell per column; every field of every row has a column, and the cell under it is
    the field's. *)
Theorem csv_is_a_table `{DateLib} (rows : list (list (string * jsval))) (columns : list string) :
  exists headers, toCsv rows columns = join (String "010" "") (join "," headers :: List.map (fun row => join "," (List.map (cell row) headers)) rows) /\
    NoDup headers /\
    (forall row k v, In row rows -> In (k, v) row -> exists i, nth_error headers i = Some k /\ nth_error (List.map (cell row) headers) i = Some (cell row k)) /\
    ((exists row v, In row rows /\ In ("kind", v) row) -> hd_error headers = Some "kind").
Proof.
  exists (headers_of rows columns). split; [done|]. split; [|split].
  - unfold headers_of. destruct rows; apply dedup_NoDup.
  - intros row k v Hrow Hk. assert (Hin : In k (headers_of rows columns)).
    { unfold headers_of. destruct rows as [|r rows]; [done|]. apply dedup_In. split; [|by intros []]. apply in_or_app. right.
      apply in_concat. exists (List.map fst row). split; [by apply in_map|]. by apply (in_map fst) in Hk. }
    apply In_nth_error in Hin as [i Hi]. exists i. split; [done|]. by rewrite nth_error_map, Hi.
  - intros (row & v & Hrow & Hv). unfold headers_of. destruct rows as [|r rows]; [done|].
    assert (existsb (fun row => existsb (fun kv : string * jsval => eqs (fst kv) "kind") row) (r :: rows) = true) as ->; [|done].
    apply existsb_exists. exists row. split; [done|]. apply existsb_exists. exists ("kind", v). split; [done|]. by apply bool_decide_eq_true.
Qed.

(** *** Witness: another party's line, and its draw, make no difference to a party's report. *)
Module ReadSample.
#[local] Instance api : ApiLib := {| chain_txHash := Ok; zod_uuid s := true; pg_uuid s := true; zod_datetime s := true; Date_of s := 0 |}.
#[local] Instance dates : DateLib := {| toISOString t := Z_to_string t; parse_date s := Some 0; cell_text v := match v with JStr s => s | _ => "" end |}.

Definition offline (X : Type) (n : nat) (c : ApiCall X) : outcome X := Err (Error "offline").
Definition server : env ApiCall := Env offline (fun _ => NoFault) (fun n => Stamp (Z.of_nat n) "u").
Definition line (id lenderId borrowerId : string) : creditLine_row :=
  CreditLine id lenderId borrowerId "USDC" "100" 500 0 3600 "open" (Some "1") None 0 None.
Definition own : Database :=
  set_table draw [DrawRow "d" "l" "40" "tx" 1 5] (set_table creditLine [line "l" "p" "b"] empty_db).
Definition shared : Database :=
  set_table draw [DrawRow "d" "l" "40" "tx" 1 5; DrawRow "d2" "l2" "7" "tx2" 2 6]
    (set_table creditLine [line "l" "p" "b"; line "l2" "q" "b"] empty_db).
Definition daily : ReadRequest := GetDailyReport (JObj [("date", JStr "2026-01-01"); ("format", JStr "csv")]).

Lemma strangers_unnoticed : same_books "p" shared own.
Proof. split; reflexivity. Qed.

Lemma reads_show_only_their_own_witness :
  fst (run server (respond (read_route (fun _ => None) "p" daily)) (World shared 0 [])) =
  fst (run server (respond (read_route (fun _ => None) "p" daily)) (World own 0 [])).
Proof. exact (proj2 (reads_show_only_their_own (fun _ => None) "p" daily server shared 0%nat []) own (fun _ => eq_refl) strangers_unnoticed). Defined.

(** The report has the party's draw, and only that. *)
Example daily_report_of_own_draw :
  fst (run server (respond (read_route (fun _ => None) "p" daily)) (World shared 0 [])) =
  Ok (HReply 200 (JStr ("kind,id,creditLineId,amount,txHash,ledger,createdAt" +:+ String "010" "" +:+ "draw,d,l,40,tx,,5"))).
Proof. vm_compute. reflexivity. Qed.
End ReadSample.
