(* ===== verification/LineRoutes.v ===== *)
(** [services/api/src/routes/credit-lines.ts]: the routes of a credit line.  Each checks who asks,
    builds an unsigned transaction for that party's account and records what it would mean. *)
From S2P Require Import Prelude Prog Schema Rules Domain Chain Intents Api.

Definition MARGIN_THRESHOLDS : MarginThresholds := Thresholds 7000 8000 9000.

Definition created (body : list (string * jsval)) : api_prog HttpReply := Ret (HReply 201 (JObj body)).

Section Lines.
Context `{ApiLib}.

(** What every route of a line starts with: the line, on chain already, and the caller's right to it. *)
Definition with_line (id : string) (k : creditLine_row -> api_prog HttpReply) : api_prog HttpReply :=
  found <- attempt (requireCreditLine id) ;;
  match found with
  | Err _ => fail 404 "credit line not found"
  | Ok line => k line
  end.

Definition with_settled_line (id partyId : string) (role : Role) (refusal : string)
    (k : creditLine_row -> option string -> api_prog HttpReply) : api_prog HttpReply :=
  with_line id (fun line =>
    if negb (truthy_id (cl_contractLineId line)) then fail 409 "credit line has not settled on-chain yet"
    else if negb (isLineParty line partyId role) then fail 403 refusal
    else k line (cl_contractLineId line)).

(** ** POST /v1/credit-lines *)
Definition pending_line (body : OpenCreditLine) (limit : string) (s : stamp) : creditLine_row :=
  CreditLine (st_uuid s) (ol_lenderId body) (ol_borrowerId body) (ol_loanCcy body) limit (ol_rateBps body)
    (ol_feeBps body) (ol_cureWindowS body) "pending_open" None (Some (Buffer_to_hex (ol_agreementHash body))) (st_now s) None.

Definition open_line_route (partyId : string) (request_body : jsval) : api_prog HttpReply :=
  body <- lift (openCreditLineSchema request_body) ;;
  if negb (eqs (ol_lenderId body) partyId) then fail 403 "a credit line can only be opened by its own lender"
  else
    lenderAccount <- requireStellarAccount (ol_lenderId body) ;;
    borrowerAccount <- requireStellarAccount (ol_borrowerId body) ;;
    xdr <- call (BuildTx (OpenLine lenderAccount borrowerAccount (ol_asset body) (ol_limit body) (ol_rateBps body)
                   (ol_cureWindowS body) (ol_agreementHash body))) ;;
    done <- transaction (
      limit <- lift (scaledToDecimalString (ol_limit body)) ;;
      row <- stmt (insert_returning creditLine (pending_line body limit)) ;;
      txHash <- record xdr credit_line_open (cl_id row) partyId None ;;
      Ret (cl_id row, txHash)) ;;
    created [("xdr", JStr xdr); ("txHash", JStr (snd done)); ("creditLineId", JStr (fst done))].

(** ** GET /v1/credit-lines/:id *)
Record LiquidationView := LView { lv_closed : bool; lv_debtText : string; lv_recovered : string; lv_surplus : string; lv_shortfall : string }.

(** The variables the route fills in, first from the books, then from the chain. *)
Record LineView := VView {
  vw_debt : Z; vw_ltvBps : Z; vw_marginState : string; vw_priceStatus : option string; vw_collateralValue : option string;
  vw_funded : option string; vw_undrawn : option string; vw_claimableInterest : option string;
  vw_liquidation : option LiquidationView }.

Definition chain_view (view : LtvView) (onChain : OnChainLine) : LineView :=
  VView (lv_debt view) (lv_ltvBps view) (lv_state view) (Some (lv_priceStatus view))
    (Some (Z_to_string (lv_collateralValue view))) (Some (Z_to_string (oc_funded onChain)))
    (Some (Z_to_string (oc_funded onChain - oc_drawn onChain))) None None.
Definition with_claimable (interest : Z) (v : LineView) : LineView :=
  VView (vw_debt v) (vw_ltvBps v) (vw_marginState v) (vw_priceStatus v) (vw_collateralValue v) (vw_funded v) (vw_undrawn v)
    (Some (Z_to_string interest)) (vw_liquidation v).
Definition with_liquidation (r : OnChainLiquidationRecord) (v : LineView) : LineView :=
  VView (vw_debt v) (vw_ltvBps v) (vw_marginState v) (vw_priceStatus v) (vw_collateralValue v) (vw_funded v) (vw_undrawn v)
    (vw_claimableInterest v)
    (Some (LView (ol_closed r) (Z_to_string (ol_debt r)) (Z_to_string (ol_recovered r)) (Z_to_string (ol_surplus r)) (Z_to_string (ol_shortfall r)))).

(** The reads of the [try]: what was filled in before one of them failed stays. *)
Definition read_chain (contractLineId : option string) (fallback : LineView) : api_prog LineView :=
  let failed (v : LineView) : api_prog LineView := emit "on-chain ltv read failed; using Postgres estimate" ;;; Ret v in
  first <- attempt (n <- lift (BigInt_nullable contractLineId) ;; view <- call (LtvOf n) ;; onChain <- call (LineOf n) ;;
                    Ret (n, chain_view view onChain, oc_status onChain)) ;;
  match first with
  | Err _ => failed fallback
  | Ok (n, v, status) =>
      interest <- attempt (call (ClaimableInterest n)) ;;
      match interest with
      | Err _ => failed v
      | Ok interest =>
          let v := with_claimable interest v in
          if eqs status "Open" then Ret v
          else
            record <- attempt (call (LiquidationOf n)) ;;
            match record with Err _ => failed v | Ok r => Ret (with_liquidation r v) end
      end
  end.

Definition text_or_null (v : option string) : jsval := match v with Some s => JStr s | None => JNull end.
Definition liquidation_json (v : option LiquidationView) : jsval :=
  match v with
  | Some l => JObj [("closed", JBool (lv_closed l)); ("debt", JStr (lv_debtText l)); ("recovered", JStr (lv_recovered l));
                    ("surplus", JStr (lv_surplus l)); ("shortfall", JStr (lv_shortfall l))]
  | None => JNull
  end.

Definition line_json (line : creditLine_row) (limit : Z) (v : LineView) : jsval :=
  JObj [("id", JStr (cl_id line)); ("lenderId", JStr (cl_lenderId line)); ("borrowerId", JStr (cl_borrowerId line));
        ("loanCcy", JStr (cl_loanCcy line)); ("limit", text limit); ("drawn", text (vw_debt v)); ("rateBps", JNum (cl_rateBps line));
        ("feeBps", JNum (cl_feeBps line)); ("cureWindowS", JNum (cl_cureWindowS line)); ("status", JStr (cl_status line));
        ("contractLineId", text_or_null (cl_contractLineId line)); ("ltvBps", JNum (vw_ltvBps v)); ("marginState", JStr (vw_marginState v));
        ("funded", text_or_null (vw_funded v)); ("undrawn", text_or_null (vw_undrawn v));
        ("claimableInterest", text_or_null (vw_claimableInterest v)); ("collateralValue", text_or_null (vw_collateralValue v));
        ("priceStatus", text_or_null (vw_priceStatus v)); ("liquidation", liquidation_json (vw_liquidation v))].

Definition get_line_route (partyId id : string) : api_prog HttpReply :=
  with_line id (fun line =>
    if negb (isLineParty line partyId either) then fail 404 "credit line not found"
    else
      debt <- outstandingDebt (Some (cl_id line)) ;;
      ltv <- estimateLtvBps (cl_id line) None None ;;
      let fallback := VView debt ltv (MarginState_name (classifyMargin ltv MARGIN_THRESHOLDS)) None None None None None None in
      v <- (if truthy_id (cl_contractLineId line) then read_chain (cl_contractLineId line) fallback else Ret fallback) ;;
      limit <- lift (decimalStringToScaled (cl_limitAmount line)) ;;
      Ret (HReply 200 (line_json line limit v))).

(** ** The lender's routes: fund, withdraw, close a liquidation *)
Definition told (xdr txHash : string) : api_prog HttpReply := created [("xdr", JStr xdr); ("txHash", JStr txHash)].

Definition fund_route (partyId id : string) (request_body : jsval) : api_prog HttpReply :=
  amount <- lift (amountSchema request_body) ;;
  with_settled_line id partyId lender "only this line's lender may fund it" (fun line contractLineId =>
    lenderAccount <- requireStellarAccount (cl_lenderId line) ;;
    n <- lift (BigInt_nullable contractLineId) ;;
    xdr <- call (BuildTx (FundLine lenderAccount n amount)) ;;
    txHash <- record xdr credit_line_fund (cl_id line) partyId (Some [("amount", Z_to_string amount)]) ;;
    told xdr txHash).

Definition withdraw_route (partyId id : string) (request_body : jsval) : api_prog HttpReply :=
  body <- lift (withdrawSchema request_body) ;;
  with_settled_line id partyId lender "only this line's lender may withdraw from it" (fun line contractLineId =>
    lenderAccount <- requireStellarAccount (cl_lenderId line) ;;
    n <- lift (BigInt_nullable contractLineId) ;;
    xdr <- call (BuildTx (if eqs (fst body) "undrawn" then WithdrawUndrawn lenderAccount n (snd body)
                          else WithdrawInterest lenderAccount n (snd body))) ;;
    txHash <- record xdr credit_line_withdraw (cl_id line) partyId
                (Some [("kind", fst body); ("amount", Z_to_string (snd body))]) ;;
    told xdr txHash).

Definition close_route (partyId id : string) : api_prog HttpReply :=
  with_settled_line id partyId lender "only this line's lender may close it" (fun line contractLineId =>
    if negb (eqs (cl_status line) "liquidating") then fail 409 ("credit line is " +:+ cl_status line +:+ ", not liquidating")
    else
      lenderAccount <- requireStellarAccount (cl_lenderId line) ;;
      n <- lift (BigInt_nullable contractLineId) ;;
      xdr <- call (BuildTx (CloseLiquidated lenderAccount n)) ;;
      txHash <- record xdr credit_line_close_liquidated (cl_id line) partyId None ;;
      told xdr txHash).

(** ** The borrower's routes: pledge, release, draw, repay *)
Definition pending_pledge (line : creditLine_row) (a : asset_row) (body : CreatePledge) (units : string) (s : stamp) : pledge_row :=
  Pledge (st_uuid s) (cl_id line) (a_id a) units (cp_custodyMode body) None None "pending" (st_now s).

Definition pledge_route (partyId id : string) (request_body : jsval) : api_prog HttpReply :=
  body <- lift (createPledgeSchema request_body) ;;
  with_settled_line id partyId borrower "only this line's borrower may pledge to it" (fun line contractLineId =>
    a <- requireAsset (cp_assetId body) ;;
    borrowerAccount <- requireStellarAccount (cl_borrowerId line) ;;
    n <- lift (BigInt_nullable contractLineId) ;;
    xdr <- call (BuildTx (PledgeUnits borrowerAccount n (a_contractC a) (cp_units body))) ;;
    done <- transaction (
      units <- lift (scaledToDecimalString (cp_units body)) ;;
      row <- stmt (insert_returning pledge (pending_pledge line a body units)) ;;
      txHash <- record xdr pledge_create (pl_id row) partyId None ;;
      Ret (pl_id row, txHash)) ;;
    created [("xdr", JStr xdr); ("txHash", JStr (snd done)); ("pledgeId", JStr (fst done))]).

Definition release_route (partyId id pledgeId : string) : api_prog HttpReply :=
  with_settled_line id partyId borrower "only this line's borrower may release its collateral" (fun line contractLineId =>
    found <- by_param pledge pledgeId pl_id ;;
    match found with
    | None => fail 404 "pledge not found on this credit line"
    | Some p =>
        if negb (eqs (pl_creditLineId p) (cl_id line)) then fail 404 "pledge not found on this credit line"
        else if negb (eqs (pl_status p) "active") then fail 409 ("pledge is " +:+ pl_status p +:+ ", not active")
        else
          read <- attempt (n <- lift (BigInt_nullable contractLineId) ;; view <- call (LtvOf n) ;; Ret (lv_debt view)) ;;
          onChainDebt <- match read with
                         | Ok d => Ret (Some d)
                         | Err _ => emit "release: on-chain debt read failed, using the Postgres estimate" ;;; Ret None
                         end ;;
          let debtSource := match onChainDebt with Some _ => "on-chain" | None => "estimate" end in
          ltv <- estimateLtvBps (cl_id line) (Some (pl_id p)) onChainDebt ;;
          if warningBps MARGIN_THRESHOLDS <=? ltv
          then Ret (HReply 409 (JObj [("error", JStr "release would breach the healthy LTV threshold");
                                      ("projectedLtvBps", JNum ltv); ("debtSource", JStr debtSource)]))
          else
            a <- requireAsset (pl_assetId p) ;;
            borrowerAccount <- requireStellarAccount (cl_borrowerId line) ;;
            n <- lift (BigInt_nullable contractLineId) ;;
            units <- lift (decimalStringToScaled (pl_units p)) ;;
            xdr <- call (BuildTx (ReleaseUnits borrowerAccount n (a_contractC a) units)) ;;
            txHash <- transaction (
              update_row pledge (fun r => eqs (pl_id r) (pl_id p)) (set_pledge_status "pending_release") ;;;
              record xdr pledge_release (pl_id p) partyId None) ;;
            Ret (HReply 200 (JObj [("xdr", JStr xdr); ("txHash", JStr txHash); ("pledgeId", JStr (pl_id p));
                                   ("projectedLtvBps", JNum ltv); ("debtSource", JStr debtSource)]))
    end).

(** [db.insert(schema.auditLog)]. *)
Definition audit (actor action : string) (payload : list (string * jsval)) : api_prog unit :=
  stmt (insert auditLog (fun s => AuditLog (st_uuid s) actor action (JObj payload) None (st_now s))).

Definition draw_route (partyId id : string) (request_body : jsval) : api_prog HttpReply :=
  body <- lift (createDrawSchema request_body) ;;
  with_settled_line id partyId borrower "only this line's borrower may draw on it" (fun line contractLineId =>
    borrowerAccount <- requireStellarAccount (cl_borrowerId line) ;;
    audit borrowerAccount "credit_line.draw.requested"
      [("creditLineId", JStr (cl_id line)); ("amount", text (fst body)); ("to", JStr (snd body))] ;;;
    n <- lift (BigInt_nullable contractLineId) ;;
    xdr <- call (BuildTx (DrawLine borrowerAccount n (fst body) (snd body))) ;;
    txHash <- record xdr credit_line_draw (cl_id line) partyId
                (Some [("amount", Z_to_string (fst body)); ("to", snd body)]) ;;
    told xdr txHash).

Definition repay_route (partyId id : string) (request_body : jsval) : api_prog HttpReply :=
  amount <- lift (amountSchema request_body) ;;
  with_settled_line id partyId borrower "only this line's borrower may repay it" (fun line contractLineId =>
    borrowerAccount <- requireStellarAccount (cl_borrowerId line) ;;
    audit borrowerAccount "credit_line.repayment.requested" [("creditLineId", JStr (cl_id line)); ("amount", text amount)] ;;;
    n <- lift (BigInt_nullable contractLineId) ;;
    xdr <- call (BuildTx (RepayLine borrowerAccount n amount)) ;;
    txHash <- record xdr credit_line_repay (cl_id line) partyId (Some [("amount", Z_to_string amount)]) ;;
    told xdr txHash).
End Lines.
