(* ===== verification/DealRoutes.v ===== *)
(** [services/api/src/routes/exit.ts] and [routes/repo.ts]: quotes for leaving an asset and their
    execution, and repo trades from proposal to unwinding. *)
From S2P Require Import Prelude Prog Schema Rules Domain Chain Intents Api LineRoutes.

Definition EXIT_MIN_OUT_FLOOR_BPS : Z := 9900.

Section Deals.
Context `{ApiLib}.

(** ** POST /v1/exit/quotes *)
Definition open_quote (partyId : string) (a : asset_row) (units price usdcOut : string) (spreadBps expiresAt : Z) (s : stamp) : exitQuote_row :=
  ExitQuote (st_uuid s) partyId (a_id a) units price spreadBps usdcOut expiresAt "open".

Definition quote_route (partyId : string) (request_body : jsval) : api_prog HttpReply :=
  body <- lift (exitQuoteRequestSchema request_body) ;;
  a <- requireAsset (fst body) ;;
  q <- call (ExitQuoteOf (a_contractC a) (snd body)) ;;
  units <- lift (scaledToDecimalString (snd body)) ;;
  price <- lift (scaledToDecimalString (xq_price q)) ;;
  usdcOut <- lift (scaledToDecimalString (xq_usdcOut q)) ;;
  expiresAt <- lift (date_of_seconds (Number (xq_expiresAt q))) ;;
  row <- stmt (insert_returning exitQuote (open_quote partyId a units price usdcOut (xq_spreadBps q) expiresAt)) ;;
  units <- lift (decimalStringToScaled (eq_units row)) ;;
  price <- lift (decimalStringToScaled (eq_price row)) ;;
  usdcOut <- lift (decimalStringToScaled (eq_usdcOut row)) ;;
  created [("id", JStr (eq_id row)); ("assetId", JStr (a_id a)); ("units", text units); ("price", text price);
           ("spreadBps", JNum (eq_spreadBps row)); ("usdcOut", text usdcOut); ("expiresAt", JNum (eq_expiresAt row))].

(** ** POST /v1/exit/quotes/:id/execute *)
(** A pending execution of the quote. *)
Definition is_in_flight (quoteId : string) (i : txIntent_row) : bool :=
  eqs_null (ti_refId i) (Some quoteId) && eqs (ti_kind i) "exit.execute" && eqs (ti_status i) "pending".

Definition min_out_floor (quotedOut : Z) : Z := Z.quot (quotedOut * EXIT_MIN_OUT_FLOOR_BPS) 10000.

Definition execute_quote (partyId : string) (q : exitQuote_row) (minUsdcOut : option Z) (to : string) : api_prog HttpReply :=
  inFlight <- stmt (select txIntent (is_in_flight (eq_id q))) ;;
  match inFlight with
  | _ :: _ => fail 409 "an execute for this quote is already pending"
  | [] =>
      quotedOut <- lift (decimalStringToScaled (eq_usdcOut q)) ;;
      let floor := min_out_floor quotedOut in
      let minUsdcOut := default quotedOut minUsdcOut in
      if minUsdcOut <? floor
      then Ret (HReply 400 (JObj [("error", JStr "minUsdcOut is below the allowed slippage floor for this quote");
                                  ("minUsdcOutFloor", text floor); ("quotedUsdcOut", text quotedOut)]))
      else
        a <- requireAsset (eq_assetId q) ;;
        holderAccount <- requireStellarAccount (eq_holderId q) ;;
        audit holderAccount "exit.execute.requested"
          [("quoteId", JStr (eq_id q)); ("minUsdcOut", text minUsdcOut); ("to", JStr to)] ;;;
        units <- lift (decimalStringToScaled (eq_units q)) ;;
        xdr <- call (BuildTx (ExitUnits holderAccount (a_contractC a) units minUsdcOut to)) ;;
        txHash <- record xdr exit_execute (eq_id q) partyId None ;;
        created [("xdr", JStr xdr); ("txHash", JStr txHash); ("quoteId", JStr (eq_id q))]
  end.

Definition execute_route (partyId id : string) (request_body : jsval) : api_prog HttpReply :=
  body <- lift (exitExecuteSchema request_body) ;;
  found <- by_param exitQuote id eq_id ;;
  match found with
  | None => fail 404 "quote not found"
  | Some q =>
      if negb (eqs (eq_holderId q) partyId) then fail 404 "quote not found"
      else if negb (eqs (eq_status q) "open") then fail 409 ("quote is " +:+ eq_status q)
      else
        s <- sample ;;
        if eq_expiresAt q <? st_now s
        then update_row exitQuote (fun r => eqs (eq_id r) (eq_id q)) (set_quote_status "expired") ;;;
             fail 409 "quote expired"
        else execute_quote partyId q (fst body) (snd body)
  end.

(** ** POST /v1/repo/proposals *)
Definition proposed_trade (body : RepoProposal) (a : asset_row) (units cashAmount : string) (s : stamp) : repoTrade_row :=
  RepoTrade (st_uuid s) (bp_cashLenderId body) (bp_cashBorrowerId body) (a_id a) units cashAmount (bp_rateBps body)
    (bp_kind body) 0 (Date_of (bp_maturityAt body)) (Buffer_to_hex (bp_agreementHash body)) "proposed" None None None.

Definition propose_route (partyId : string) (request_body : jsval) : api_prog HttpReply :=
  body <- lift (repoProposalSchema request_body) ;;
  if negb (eqs (bp_cashLenderId body) partyId) then fail 403 "a repo can only be proposed by its own cash lender"
  else
    a <- requireAsset (bp_assetId body) ;;
    cashLenderAccount <- requireStellarAccount (bp_cashLenderId body) ;;
    cashBorrowerAccount <- requireStellarAccount (bp_cashBorrowerId body) ;;
    xdr <- call (BuildTx (ProposeRepo cashLenderAccount cashBorrowerAccount (a_contractC a) (bp_units body) (bp_cashAmount body)
                   (bp_rateBps body) (bp_kind body) (Date_of (bp_maturityAt body) / 1000) (bp_agreementHash body))) ;;
    done <- transaction (
      units <- lift (scaledToDecimalString (bp_units body)) ;;
      cashAmount <- lift (scaledToDecimalString (bp_cashAmount body)) ;;
      row <- stmt (insert_returning repoTrade (proposed_trade body a units cashAmount)) ;;
      txHash <- record xdr repo_propose (rt_id row) partyId None ;;
      Ret (rt_id row, txHash)) ;;
    created [("xdr", JStr xdr); ("txHash", JStr (snd done)); ("tradeId", JStr (fst done))].

(** The on-chain id of a trade: the request's, or the one the books have. *)
Definition contract_trade_id (given : option Z) (trade : repoTrade_row) : api_prog (option Z) :=
  match given with
  | Some n => Ret (Some n)
  | None =>
      if truthy_id (rt_contractTradeId trade)
      then n <- lift (BigInt_nullable (rt_contractTradeId trade)) ;; Ret (Some n)
      else Ret None
  end.

Definition told_trade (xdr txHash : string) (trade : repoTrade_row) : api_prog HttpReply :=
  created [("xdr", JStr xdr); ("txHash", JStr txHash); ("tradeId", JStr (rt_id trade))].

(** What accepting and unwinding share once the caller's right is established. *)
Definition act_on_trade (partyId actorId : string) (trade : repoTrade_row) (given : option Z)
    (op : string -> Z -> ApiInvocation) (kind : IntentKind) : api_prog HttpReply :=
  account <- requireStellarAccount actorId ;;
  contractTradeId <- contract_trade_id given trade ;;
  match contractTradeId with
  | None => fail 409 "repo proposal has not settled on-chain yet"
  | Some n =>
      xdr <- call (BuildTx (op account n)) ;;
      txHash <- record xdr kind (rt_id trade) partyId None ;;
      told_trade xdr txHash trade
  end.

(** [request.body ?? {}]. *)
Definition body_or_empty (body : jsval) : jsval := match body with JNull => JObj [] | b => b end.

(** ** POST /v1/repo/proposals/:id/accept *)
Definition accept_route (partyId id : string) (request_body : jsval) : api_prog HttpReply :=
  given <- lift (repoTradeActionSchema (body_or_empty request_body)) ;;
  found <- by_param repoTrade id rt_id ;;
  match found with
  | None => fail 404 "repo proposal not found"
  | Some trade =>
      if negb (eqs (rt_cashBorrowerId trade) partyId) then fail 403 "only the cash borrower can accept a repo proposal"
      else if negb (eqs (rt_status trade) "proposed") then fail 409 ("trade is " +:+ rt_status trade)
      else act_on_trade partyId (rt_cashBorrowerId trade) trade given AcceptRepo repo_accept
  end.

(** ** POST /v1/repo/trades/:id/unwind *)
Definition unwind_route (partyId id : string) (request_body : jsval) : api_prog HttpReply :=
  given <- lift (repoTradeActionSchema (body_or_empty request_body)) ;;
  found <- by_param repoTrade id rt_id ;;
  match found with
  | None => fail 404 "repo trade not found"
  | Some trade =>
      if negb (eqs (rt_cashBorrowerId trade) partyId) && negb (eqs (rt_cashLenderId trade) partyId)
      then fail 404 "repo trade not found"
      else if negb (eqs (rt_status trade) "settled") then fail 409 ("trade is " +:+ rt_status trade +:+ ", not settled")
      else act_on_trade partyId partyId trade given UnwindRepo repo_unwind
  end.

(** ** POST /v1/repo/trades/:id/top-ups *)
Definition top_up_route (partyId id : string) (request_body : jsval) : api_prog HttpReply :=
  units <- lift (repoTopUpSchema request_body) ;;
  found <- by_param repoTrade id rt_id ;;
  match found with
  | None => fail 404 "repo trade not found"
  | Some trade =>
      if negb (eqs (rt_cashBorrowerId trade) partyId) then fail 403 "only the cash borrower can add collateral to a repo"
      else if negb (eqs (rt_status trade) "settled") then fail 409 ("trade is " +:+ rt_status trade +:+ ", not settled")
      else if negb (truthy_id (rt_contractTradeId trade)) then fail 409 "repo has not settled on-chain yet"
      else
        cashBorrowerAccount <- requireStellarAccount (rt_cashBorrowerId trade) ;;
        n <- lift (BigInt_nullable (rt_contractTradeId trade)) ;;
        xdr <- call (BuildTx (TopUpRepo cashBorrowerAccount n units)) ;;
        txHash <- record xdr repo_top_up (rt_id trade) partyId (Some [("units", Z_to_string units)]) ;;
        told_trade xdr txHash trade
  end.
End Deals.

(** ** The routes that hand out a transaction *)
Inductive Request :=
| OpenLineR (body : jsval) | FundR (id : string) (body : jsval) | WithdrawR (id : string) (body : jsval)
| CloseR (id : string) | PledgeR (id : string) (body : jsval) | ReleaseR (id pledgeId : string)
| DrawR (id : string) (body : jsval) | RepayR (id : string) (body : jsval)
| ExecuteR (id : string) (body : jsval) | ProposeR (body : jsval) | AcceptR (id : string) (body : jsval)
| UnwindR (id : string) (body : jsval) | TopUpR (id : string) (body : jsval).

Definition route `{ApiLib} (partyId : string) (r : Request) : api_prog HttpReply :=
  match r with
  | OpenLineR body => open_line_route partyId body
  | FundR id body => fund_route partyId id body
  | WithdrawR id body => withdraw_route partyId id body
  | CloseR id => close_route partyId id
  | PledgeR id body => pledge_route partyId id body
  | ReleaseR id pledgeId => release_route partyId id pledgeId
  | DrawR id body => draw_route partyId id body
  | RepayR id body => repay_route partyId id body
  | ExecuteR id body => execute_route partyId id body
  | ProposeR body => propose_route partyId body
  | AcceptR id body => accept_route partyId id body
  | UnwindR id body => unwind_route partyId id body
  | TopUpR id body => top_up_route partyId id body
  end.
