(* ===== verification/RouteSpec.v ===== *)
(** What the routes of lines and deals may do, as a relation between the books, what a caller is
    entitled to have built, and the rows its signature will be matched against. *)
From S2P Require Import Prelude Prog Schema Rules Domain Rpc Chain Intents Api LineRoutes DealRoutes.

Notation api_entry := (entry ApiCall string).

(** The envelope a call asked to have built. *)
Definition built_of (e : api_entry) : option ApiInvocation :=
  match e with ECall c _ => match c with BuildTx i => Some i | _ => None end | EOut _ => None end.
Definition unbuilt (l : list api_entry) : Prop := Forall (fun e => built_of e = None) l.

(** ** What the books say *)
Section Books.
Context (d : Database).

Definition on_file (partyId account : string) : Prop :=
  exists r, In r (d partyAccount) /\ pc_partyId r = partyId /\ pc_stellarAccount r = account.
Definition asset_address (assetId address : string) : Prop :=
  exists a, In a (d asset) /\ a_id a = assetId /\ a_contractC a = address.

(** The id a row has on chain, as a number. *)
Definition on_chain_as (id : option string) (n : Z) : Prop := truthy_id id = true /\ BigInt_nullable id = Ok n.

(** The latest guarded price of an asset, the value of a pledge and of a line's collateral. *)
Definition books_price (assetId : string) : outcome (option (Z * string)) :=
  match List.filter (fun r => eqs (ps_assetId r) assetId) (d priceSnapshot) with
  | [] => Ok None
  | first :: rest =>
      let r := latest first rest in v <-? decimalStringToScaled (ps_guardedValue r) ;; Ok (Some (v, ps_status r))
  end.

Definition counts (excluded : option string) (p : pledge_row) : bool :=
  eqs (pl_status p) "active" &&
  negb (match excluded with Some id => negb (eqs id "") && eqs (pl_id p) id | None => false end).

Definition books_value (p : pledge_row) : outcome Z :=
  match List.filter (fun a => eqs (a_id a) (pl_assetId p)) (d asset) with
  | [] => Err (Error ("asset " +:+ pl_assetId p +:+ " not found"))
  | a :: _ =>
      price <-? books_price (pl_assetId p) ;;
      match price with
      | Some (value, status) =>
          if eqs status "Ok"
          then units <-? decimalStringToScaled (pl_units p) ;; collateralValue units value (a_haircutBaseBps a + a_haircutFxBps a)
          else Ok 0
      | None => Ok 0
      end
  end.

Definition books_collateral (line : string) (excluded : option string) : outcome Z :=
  ofold (fun total p => if counts excluded p then v <-? books_value p ;; Ok (total + v) else Ok total) 0
    (List.filter (fun p => eqs (pl_creditLineId p) line) (d pledge)).

Definition books_debt (line : string) : outcome Z :=
  drawn <-? sum_scaled dr_amount (List.filter (fun r => ref_is (Some line) (dr_creditLineId r)) (d draw)) ;;
  repaid <-? sum_scaled rp_principal (List.filter (fun r => ref_is (Some line) (rp_creditLineId r)) (d repayment)) ;;
  Ok (Z.max 0 (drawn - repaid)).

Definition books_ltv (line : string) (excluded : option string) (debt : Z) : outcome Z :=
  c <-? books_collateral line excluded ;; Ok (ltvBps debt c).
End Books.

(** ** Deals *)
(** The rows an intent is about: one on file, or the one recorded with it. *)
Inductive Change :=
| OnFile (id : string)
| NewLine (P : creditLine_row -> Prop)
| NewPledge (P : pledge_row -> Prop)
| NewTrade (P : repoTrade_row -> Prop)
| Releasing (id : string).

Notation payload := (list (string * string)).

Section Deals.
Context (clock : nat -> stamp) (partyId : string) (start : nat) (d : Database).

(** The line of a request: on chain as [n], and the caller's in that role. *)
Definition callers_line (line : creditLine_row) (role : Role) (n : Z) : Prop :=
  In line (d creditLine) /\ on_chain_as (cl_contractLineId line) n /\ isLineParty line partyId role = true.

(** A release leaves the line healthy: with the debt the contract reports, or, only when it cannot be
    asked, the books'. *)
Definition healthy_without (log : list api_entry) (line : creditLine_row) (n : Z) (p : pledge_row) : Prop :=
  exists debt ltv,
    ((exists view, In (ECall (LtvOf n) (Ok view)) log /\ debt = lv_debt view) \/
     ((exists x, In (ECall (LtvOf n) (Err x)) log) /\ books_debt d (cl_id line) = Ok debt)) /\
    books_ltv d (cl_id line) (Some (pl_id p)) debt = Ok ltv /\ ltv < 7000.

(** [deal log i k payload c]: the caller may have [i] built, having seen [log], to be recorded as an
    intent of kind [k] with the change [c].  Accepting and unwinding take the trade's number on chain
    from the request when it names one, so [n] is not tied to the trade there. *)
Inductive deal (log : list api_entry) : ApiInvocation -> IntentKind -> payload -> Change -> Prop :=
| D_open account borrowerId borrowerAccount address limit rate cure hash :
    on_file d partyId account -> on_file d borrowerId borrowerAccount -> 0 < limit ->
    deal log (OpenLine account borrowerAccount address limit rate cure hash) credit_line_open []
      (NewLine (fun r => cl_lenderId r = partyId /\ cl_borrowerId r = borrowerId /\
         scaledToDecimalString limit = Ok (cl_limitAmount r) /\ cl_rateBps r = rate /\ cl_cureWindowS r = cure /\
         cl_agreementHash r = Some (Buffer_to_hex hash) /\ cl_status r = "pending_open" /\ cl_contractLineId r = None))
| D_fund account line n amount :
    callers_line line lender n -> on_file d partyId account -> 0 < amount ->
    deal log (FundLine account n amount) credit_line_fund [("amount", Z_to_string amount)] (OnFile (cl_id line))
| D_withdraw_undrawn account line n amount :
    callers_line line lender n -> on_file d partyId account -> 0 < amount ->
    deal log (WithdrawUndrawn account n amount) credit_line_withdraw
      [("kind", "undrawn"); ("amount", Z_to_string amount)] (OnFile (cl_id line))
| D_withdraw_interest account line n amount :
    callers_line line lender n -> on_file d partyId account -> 0 < amount ->
    deal log (WithdrawInterest account n amount) credit_line_withdraw
      [("kind", "interest"); ("amount", Z_to_string amount)] (OnFile (cl_id line))
| D_close account line n :
    callers_line line lender n -> cl_status line = "liquidating" -> on_file d partyId account ->
    deal log (CloseLiquidated account n) credit_line_close_liquidated [] (OnFile (cl_id line))
| D_pledge account line n assetId address units :
    callers_line line borrower n -> on_file d partyId account -> asset_address d assetId address -> 0 < units ->
    deal log (PledgeUnits account n address units) pledge_create []
      (NewPledge (fun p => pl_creditLineId p = cl_id line /\ pl_assetId p = assetId /\
         scaledToDecimalString units = Ok (pl_units p) /\ pl_status p = "pending"))
| D_release account line n p address units :
    callers_line line borrower n -> on_file d partyId account ->
    In p (d pledge) -> pl_creditLineId p = cl_id line -> pl_status p = "active" ->
    asset_address d (pl_assetId p) address -> decimalStringToScaled (pl_units p) = Ok units ->
    healthy_without log line n p ->
    deal log (ReleaseUnits account n address units) pledge_release [] (Releasing (pl_id p))
| D_draw account line n amount to :
    callers_line line borrower n -> on_file d partyId account -> 0 < amount ->
    deal log (DrawLine account n amount to) credit_line_draw [("amount", Z_to_string amount); ("to", to)] (OnFile (cl_id line))
| D_repay account line n amount :
    callers_line line borrower n -> on_file d partyId account -> 0 < amount ->
    deal log (RepayLine account n amount) credit_line_repay [("amount", Z_to_string amount)] (OnFile (cl_id line))
| D_exit account q address units quotedOut minUsdcOut to n :
    In q (d exitQuote) -> eq_holderId q = partyId -> eq_status q = "open" ->
    (start <= n)%nat -> st_now (clock n) <= eq_expiresAt q ->
    (forall i, In i (d txIntent) -> is_in_flight (eq_id q) i = false) ->
    on_file d partyId account -> asset_address d (eq_assetId q) address ->
    decimalStringToScaled (eq_units q) = Ok units -> decimalStringToScaled (eq_usdcOut q) = Ok quotedOut ->
    Z.quot (quotedOut * 9900) 10000 <= minUsdcOut ->
    deal log (ExitUnits account address units minUsdcOut to) exit_execute [] (OnFile (eq_id q))
| D_propose account borrowerId borrowerAccount assetId address units cash rate kind maturityAt hash :
    on_file d partyId account -> on_file d borrowerId borrowerAccount -> asset_address d assetId address ->
    0 < units -> 0 < cash ->
    deal log (ProposeRepo account borrowerAccount address units cash rate kind (maturityAt / 1000) hash) repo_propose []
      (NewTrade (fun t => rt_cashLenderId t = partyId /\ rt_cashBorrowerId t = borrowerId /\ rt_assetId t = assetId /\
         scaledToDecimalString units = Ok (rt_units t) /\ scaledToDecimalString cash = Ok (rt_cashAmount t) /\
         rt_rateBps t = rate /\ rt_kind t = kind /\ rt_maturityAt t = maturityAt /\
         rt_agreementHash t = Buffer_to_hex hash /\ rt_status t = "proposed"))
| D_accept account t n :
    In t (d repoTrade) -> rt_cashBorrowerId t = partyId -> rt_status t = "proposed" -> on_file d partyId account ->
    deal log (AcceptRepo account n) repo_accept [] (OnFile (rt_id t))
| D_unwind account t n :
    In t (d repoTrade) -> (rt_cashBorrowerId t = partyId \/ rt_cashLenderId t = partyId) -> rt_status t = "settled" ->
    on_file d partyId account ->
    deal log (UnwindRepo account n) repo_unwind [] (OnFile (rt_id t))
| D_top_up account t n units :
    In t (d repoTrade) -> rt_cashBorrowerId t = partyId -> rt_status t = "settled" -> on_chain_as (rt_contractTradeId t) n ->
    on_file d partyId account -> 0 < units ->
    deal log (TopUpRepo account n units) repo_top_up [("units", Z_to_string units)] (OnFile (rt_id t)).
End Deals.

(** ** What a request leaves in the books *)
(** Tables other than the audit log, the intents and those named keep their rows; the audit log only
    grows. *)
Definition same_but (ts : list table) (d d' : Database) : Prop :=
  (forall t, t <> auditLog -> ~ In t ts -> d' t = d t) /\ exists l, d' auditLog = d auditLog ++ l.

(** The change [c], whose row has id [ref]. *)
Definition changed (c : Change) (ref : string) (d d' : Database) : Prop :=
  match c with
  | OnFile id => ref = id /\ same_but [txIntent] d d'
  | NewLine P => exists r, P r /\ cl_id r = ref /\ d' creditLine = d creditLine ++ [r] /\ same_but [creditLine; txIntent] d d'
  | NewPledge P => exists r, P r /\ pl_id r = ref /\ d' pledge = d pledge ++ [r] /\ same_but [pledge; txIntent] d d'
  | NewTrade P => exists r, P r /\ rt_id r = ref /\ d' repoTrade = d repoTrade ++ [r] /\ same_but [repoTrade; txIntent] d d'
  | Releasing id => ref = id /\ same_but [pledge; txIntent] d d' /\
      d' pledge = List.map (fun p => if eqs (pl_id p) id then set_pledge_status "pending_release" p else p) (d pledge)
  end.

(** One more pending intent of the caller, under the envelope's hash, together with its change. *)
Definition recorded `{ApiLib} (partyId : string) (k : IntentKind) (pay : payload) (c : Change) (xdr h : string) (d d' : Database) : Prop :=
  chain_txHash xdr = Ok h /\ (forall i, In i (d txIntent) -> ti_txHash i <> h) /\
  exists ref now, changed c ref d d' /\
    d' txIntent = d txIntent ++ [TxIntent h (kind_name k) (Some ref) partyId (Some pay) "pending" None None now None].

(** A reply that hands out the envelope and its hash. *)
Definition tells (reply : HttpReply) (xdr h : string) : Prop :=
  (rp_code reply = 200 \/ rp_code reply = 201) /\
  exists fields, rp_body reply = JObj fields /\ assoc "xdr" fields = Some (JStr xdr) /\ assoc "txHash" fields = Some (JStr h).

(** Nothing is handed out: an exception, or a reply with an error code. *)
Definition refused (r : outcome HttpReply) : Prop := match r with Ok reply => 400 <= rp_code reply | Err _ => True end.

(** The books of a refusal: untouched but for the audit log, or the caller's quote found expired. *)
Definition unmoved (partyId : string) (d d' : Database) : Prop :=
  same_but [] d d' \/
  exists q, In q (d exitQuote) /\ eq_holderId q = partyId /\ eq_status q = "open" /\ same_but [exitQuote] d d' /\
    d' exitQuote = List.map (fun r => if eqs (eq_id r) (eq_id q) then set_quote_status "expired" r else r) (d exitQuote).

(** How a request ends: refused, without having had anything built; or with one deal's envelope built,
    and then handed out and recorded as a whole, or neither told nor recorded, or recorded but, the
    acknowledgement lost, not told. *)
Definition concluded `{ApiLib} (clock : nat -> stamp) (partyId : string) (start : nat) (d d' : Database)
    (log : list api_entry) (r : outcome HttpReply) : Prop :=
  (unbuilt log /\ refused r /\ unmoved partyId d d') \/
  exists log1 i built k pay c,
    log = log1 ++ [ECall (BuildTx i) built] /\ unbuilt log1 /\ deal clock partyId start d log1 i k pay c /\
    match r with
    | Ok reply => exists xdr h, built = Ok xdr /\ tells reply xdr h /\ recorded partyId k pay c xdr h d d'
    | Err _ => same_but [] d d' \/ exists xdr h, built = Ok xdr /\ recorded partyId k pay c xdr h d d'
    end.
