(* ===== verification/RouteSafety.v ===== *)
(** Every route of lines and deals concludes as [RouteSpec] allows: it refuses, or has one envelope
    built that the caller is entitled to, and hands it out together with the rows its settlement will
    be matched against. *)
From S2P Require Import Prelude Prog Interleave Schema Rules Domain Rpc Chain Intents Api LineRoutes DealRoutes RouteSpec.

(** ** same_but *)
Lemma same_but_refl ts d : same_but ts d d.
Proof. split; [done|]. exists []. by rewrite app_nil_r. Qed.

Lemma same_but_trans ts d1 d2 d3 : same_but [] d1 d2 -> same_but ts d2 d3 -> same_but ts d1 d3.
Proof.
  intros [H1 [l1 L1]] [H2 [l2 L2]]. split; [intros t Ha Ht; rewrite H2, H1; auto|].
  exists (l1 ++ l2). by rewrite L2, L1, app_assoc.
Qed.

Lemma same_but_set ts t l d : t <> auditLog -> In t ts -> same_but ts d (set_table t l d).
Proof.
  intros Ha Ht. split; [|exists []; by rewrite app_nil_r, set_table_other]. intros t' _ Hn.
  apply set_table_other. by intros ->.
Qed.

Lemma same_but_set2 ts t l t' l' d :
  t <> auditLog -> t' <> auditLog -> In t ts -> In t' ts -> same_but ts d (set_table t l (set_table t' l' d)).
Proof.
  intros Ha Ha' Ht Ht'. split; [|exists []; by rewrite app_nil_r, !set_table_other].
  intros t'' _ Hn. rewrite !set_table_other; [done| |]; by intros ->.
Qed.

Lemma changed_trans c ref d1 d2 d3 :
  same_but [] d1 d2 -> changed c ref d2 d3 -> changed c ref d1 d3.
Proof.
  intros H. pose proof (proj1 H) as T. destruct c; cbn [changed].
  - intros [? ?]. split; [done|by eapply same_but_trans].
  - intros (r & ? & ? & E & ?). exists r. rewrite (T creditLine) in E by (done || tauto). split_and!; try done. by eapply same_but_trans.
  - intros (r & ? & ? & E & ?). exists r. rewrite (T pledge) in E by (done || tauto). split_and!; try done. by eapply same_but_trans.
  - intros (r & ? & ? & E & ?). exists r. rewrite (T repoTrade) in E by (done || tauto). split_and!; try done. by eapply same_but_trans.
  - intros (? & ? & E). rewrite (T pledge) in E by (done || tauto). split_and!; try done. by eapply same_but_trans.
Qed.

(** ** What a decoded body holds *)
Lemma field_ok {A} key (d : decoder A) b a : field key d b = Ok a -> exists v, d v = Ok a.
Proof. unfold field. destruct b; try discriminate. eauto. Qed.

Lemma amount_from_least least v z : amount_from least v = Ok z -> least <= z.
Proof.
  unfold amount_from. destruct v as [[]|]; try discriminate.
  - destruct (_ || _); [discriminate|]. destruct (Z.ltb_spec z0 least); [discriminate|]. by intros [= <-].
  - destruct (negb _); [discriminate|]. destruct (BigInt s) as [n|]; cbn [obind]; [|discriminate].
    destruct (Z.ltb_spec n least); [discriminate|]. by intros [= <-].
Qed.

Lemma positive_field key b z : field key positiveAmount b = Ok z -> 0 < z.
Proof. intros [v Hv%amount_from_least]%field_ok. lia. Qed.

Lemma enum_field names key b s : field key (z_enum names) b = Ok s -> In s names.
Proof.
  intros [v Hv]%field_ok. unfold z_enum, z_check in Hv. destruct (z_string v) as [t|]; cbn [obind] in Hv; [|discriminate].
  destruct (existsb (eqs t) names) eqn:E; [|discriminate]. injection Hv as <-.
  apply existsb_exists in E as (t' & Hin & ->%bool_decide_eq_true). done.
Qed.

(** Opens a decoder's successive fields. *)
Ltac decoded H :=
  repeat (apply obind_ok in H as (? & ? & H)); injection H as <-; cbn in *.

Section Safety.
Context `{ApiLib} (e : env ApiCall) (partyId : string) (w0 : api_world).
Notation Adm := (stamped_by e).
Notation d0 := (w_db w0).
Implicit Types (w : api_world).

(** ** Before anything is built *)
(** A request that has only read, and audited, since it began. *)
Record quiet w : Prop := Quiet {
  quiet_log : exists l, w_log w = w_log w0 ++ l /\ unbuilt l;
  quiet_tick : (w_tick w0 <= w_tick w)%nat;
  quiet_db : same_but [] d0 (w_db w) }.

Lemma quiet_table w t : quiet w -> t <> auditLog -> w_db w t = d0 t.
Proof. intros [_ _ [Ht _]] Ha. apply Ht; [done|tauto]. Qed.

Lemma quiet_step w w' :
  quiet w -> w_log w' = w_log w -> (w_tick w <= w_tick w')%nat -> same_but [] (w_db w) (w_db w') -> quiet w'.
Proof.
  intros [(l & Hl & Hu) Ht Hd] El Et Ed. constructor; [exists l; by rewrite El, Hl|lia|exact (same_but_trans _ _ _ _ Hd Ed)].
Qed.

Lemma quiet_ticked w : quiet w -> quiet (tick w).
Proof. intros Hq. eapply quiet_step; [done|done|simpl; lia|apply same_but_refl]. Qed.

Lemma quiet_noted w x : quiet w -> built_of x = None -> quiet (note w x).
Proof.
  intros [(l & Hl & Hu) Ht Hd] Hx. constructor; [|simpl; lia|done].
  exists (l ++ [x]). simpl. rewrite Hl, app_assoc. split; [done|]. apply Forall_app. split; [done|by apply Forall_singleton].
Qed.

(** What the request has seen. *)
Definition seen w : list api_entry := List.skipn (length (w_log w0)) (w_log w).

Lemma seen_is w l : w_log w = w_log w0 ++ l -> seen w = l.
Proof. unfold seen. intros ->. rewrite List.skipn_app, List.skipn_all, Nat.sub_diag. done. Qed.

Lemma seen_noted w x : quiet w -> seen (note w x) = seen w ++ [x].
Proof.
  intros [(l & Hl & _) _ _]. rewrite (seen_is w l Hl). apply seen_is. simpl. by rewrite Hl, app_assoc.
Qed.

(** How the request ends. *)
Definition ends (r : outcome HttpReply) w : Prop :=
  exists l, w_log w = w_log w0 ++ l /\ concluded (stamps e) partyId (w_tick w0) d0 (w_db w) l r.

Lemma ends_refused r w : quiet w -> refused r -> ends r w.
Proof. intros [(l & Hl & Hu) _ Hd] Hr. exists l. split; [done|]. left. split; [done|]. split; [done|by left]. Qed.

(** A condition that lets a reading request throw. *)
Definition throws {A} (Q : outcome A -> api_world -> Prop) : Prop := forall x w, quiet w -> Q (Err x) w.

Lemma ends_throws : throws ends.
Proof. intros x w Hq. by apply ends_refused. Qed.

Lemma wp_fail code msg w : quiet w -> 400 <= code -> wp Adm (fail code msg) ends w.
Proof. intros Hq Hc. by apply ends_refused. Qed.

(** ** Reading *)
Lemma wp_lift_then {A B} (Q : outcome B -> api_world -> Prop) (r : outcome A) (k : A -> api_prog B) w :
  throws Q -> quiet w -> (forall a, r = Ok a -> wp Adm (k a) Q w) -> wp Adm (a <- lift r ;; k a) Q w.
Proof. intros HQ Hq Hk. wp_step. wp_step. destruct r; [by apply Hk|by apply HQ]. Qed.

Lemma wp_select_then {B} (Q : outcome B -> api_world -> Prop) t (P : row t -> bool) (k : list (row t) -> api_prog B) w :
  throws Q -> quiet w -> t <> auditLog -> (forall w', quiet w' -> seen w' = seen w -> wp Adm (k (List.filter P (d0 t))) Q w') ->
  wp Adm (rows <- stmt (select t P) ;; k rows) Q w.
Proof.
  intros HQ Hq Ht Hk. wp_step. apply (wp_select _ t); [intros x; by apply HQ, quiet_ticked|].
  rewrite (quiet_table _ _ Hq Ht). apply Hk; [by apply quiet_ticked|done].
Qed.

Lemma wp_select_one_then {B} (Q : outcome B -> api_world -> Prop) t (P : row t -> bool) (k : option (row t) -> api_prog B) w :
  throws Q -> quiet w -> t <> auditLog -> (forall w', quiet w' -> seen w' = seen w -> wp Adm (k (hd_error (List.filter P (d0 t)))) Q w') ->
  wp Adm (r <- select_one t P ;; k r) Q w.
Proof.
  intros HQ Hq Ht Hk. unfold select_one. apply wp_bind_assoc. apply wp_select_then; [done..|]. intros w' Hq' Hs.
  cbn [bind]. by apply Hk.
Qed.

Lemma wp_account_then {B} (Q : outcome B -> api_world -> Prop) p (k : string -> api_prog B) w :
  throws Q -> quiet w -> (forall a w', quiet w' -> seen w' = seen w -> on_file d0 p a -> wp Adm (k a) Q w') ->
  wp Adm (a <- requireStellarAccount p ;; k a) Q w.
Proof.
  intros HQ Hq Hk. unfold requireStellarAccount. apply wp_bind_assoc. apply (wp_select_one_then _ partyAccount); [done..|].
  intros w' Hq' Hs. destruct (hd_error _) as [r|] eqn:E; [|by apply HQ].
  apply head_filter_In in E as [Hin Hp%bool_decide_eq_true]. cbn [bind]. apply Hk; [done|done|]. by exists r.
Qed.

Lemma wp_asset_then {B} (Q : outcome B -> api_world -> Prop) id (k : asset_row -> api_prog B) w :
  throws Q -> quiet w -> (forall a w', quiet w' -> seen w' = seen w -> In a (d0 asset) -> a_id a = id -> wp Adm (k a) Q w') ->
  wp Adm (a <- requireAsset id ;; k a) Q w.
Proof.
  intros HQ Hq Hk. unfold requireAsset. apply wp_bind_assoc. apply (wp_select_one_then _ asset); [done..|].
  intros w' Hq' Hs. destruct (hd_error _) as [r|] eqn:E; [|by apply HQ].
  apply head_filter_In in E as [Hin Hp%bool_decide_eq_true]. cbn [bind]. by apply Hk.
Qed.

Lemma wp_by_param_then {B} (Q : outcome B -> api_world -> Prop) t id id_of (k : option (row t) -> api_prog B) w :
  throws Q -> quiet w -> t <> auditLog ->
  (forall w', quiet w' -> seen w' = seen w -> wp Adm (k None) Q w') ->
  (forall r w', quiet w' -> seen w' = seen w -> In r (d0 t) -> id_of r = id -> wp Adm (k (Some r)) Q w') ->
  wp Adm (r <- by_param t id id_of ;; k r) Q w.
Proof.
  intros HQ Hq Ht Hnone Hsome. unfold by_param. destruct (pg_uuid id); [|by apply HQ].
  apply wp_select_one_then; [done..|]. intros w' Hq' Hs. destruct (hd_error _) as [r|] eqn:E; [|auto].
  apply head_filter_In in E as [Hin Hp%bool_decide_eq_true]. by apply Hsome.
Qed.

Lemma wp_audit_then {B} (Q : outcome B -> api_world -> Prop) actor action pay (k : api_prog B) w :
  throws Q -> quiet w -> (forall w', quiet w' -> seen w' = seen w -> wp Adm k Q w') ->
  wp Adm (audit actor action pay ;;; k) Q w.
Proof.
  intros HQ Hq Hk. unfold audit. wp_step. apply (wp_insert _ auditLog); cbn zeta; [intros x; by apply HQ, quiet_ticked|].
  intros s _ _ _.
  assert (Hq' : quiet (after w (set_table auditLog (w_db w auditLog ++ [AuditLog (st_uuid s) actor action (JObj pay) None (st_now s)]) (w_db w)))).
  { eapply quiet_step; [done|done|simpl; lia|]. cbn. split; [intros t Ha _; by apply set_table_other|].
    eexists. by rewrite set_table_same. }
  split; [by apply Hk|intros x; by apply HQ].
Qed.

(** A contract read. *)
Lemma wp_read_then {X} (c : ApiCall X) w (Q : outcome X -> api_world -> Prop) :
  quiet w -> (forall r, built_of (ECall c r) = None) ->
  (forall r w', quiet w' -> seen w' = seen w ++ [ECall c r] -> Q r w') -> wp Adm (call c) Q w.
Proof. intros Hq Hc HQ. wp_step. apply HQ; [by apply quiet_noted|by apply seen_noted]. Qed.

(** ** The projected LTV *)
Lemma wp_price_then {B} (Q : outcome B -> api_world -> Prop) id (k : option (Z * string) -> api_prog B) w :
  throws Q -> quiet w ->
  (forall price w', quiet w' -> seen w' = seen w -> books_price d0 id = Ok price -> wp Adm (k price) Q w') ->
  wp Adm (price <- latestGuardedPrice id ;; k price) Q w.
Proof.
  intros HQ Hq Hk. unfold latestGuardedPrice. apply wp_bind_assoc. apply (wp_select_then _ priceSnapshot); [done..|].
  intros w' Hq' Hs. unfold books_price in Hk. cbn [row] in *.
  destruct (List.filter (A := priceSnapshot_row) _ (d0 priceSnapshot)) as [|first rest]; cbn [bind]; [by apply Hk|].
  apply wp_bind_assoc. apply wp_lift_then; [done..|]. intros v Hv. cbn [bind]. apply Hk; [done|done|]. by rewrite Hv.
Qed.

Lemma wp_add_collateral {B} (Q : outcome B -> api_world -> Prop) excl total p (k : Z -> api_prog B) w :
  throws Q -> quiet w ->
  (forall total' w', quiet w' -> seen w' = seen w ->
     (if counts excl p then v <-? books_value d0 p ;; Ok (total + v) else Ok total) = Ok total' -> wp Adm (k total') Q w') ->
  wp Adm (t <- add_collateral excl total p ;; k t) Q w.
Proof.
  intros HQ Hq Hk. unfold add_collateral. unfold counts in Hk.
  destruct (eqs (pl_status p) "active"); cbn [negb andb] in *; [|by apply Hk].
  destruct (match excl with Some _ => _ | None => _ end); cbn [negb] in *; [by apply Hk|].
  apply wp_bind_assoc. unfold requireAsset. apply wp_bind_assoc.
  apply (wp_select_one_then _ asset); [done..|]. intros w1 Hq1 Hs1. unfold books_value in Hk. cbn [row] in *.
  destruct (List.filter (A := asset_row) _ (d0 asset)) as [|a rest]; cbn [hd_error bind]; [by apply HQ|].
  apply wp_bind_assoc. apply wp_price_then; [done..|]. intros price w2 Hq2 Hs2 Hp. rewrite Hp in Hk. cbn [obind] in Hk.
  assert (Hs : seen w2 = seen w) by congruence.
  destruct price as [[value status]|]; [|cbn [bind]; apply Hk; [done|done|cbn [obind]; f_equal; lia]].
  destruct (eqs status "Ok"); cbn [negb]; [|cbn [bind]; apply Hk; [done|done|cbn [obind]; f_equal; lia]].
  apply wp_bind_assoc. apply wp_lift_then; [done..|]. intros units Hu.
  apply wp_bind_assoc. apply wp_lift_then; [done..|]. intros v Hv. cbn [bind]. apply Hk; [done|done|].
  by rewrite Hu; cbn [obind]; rewrite Hv.
Qed.

Lemma wp_collateral {B} (Q : outcome B -> api_world -> Prop) excl l total (k : Z -> api_prog B) w :
  throws Q -> quiet w ->
  (forall total' w', quiet w' -> seen w' = seen w ->
     ofold (fun total p => if counts excl p then v <-? books_value d0 p ;; Ok (total + v) else Ok total) total l = Ok total' ->
     wp Adm (k total') Q w') ->
  wp Adm (t <- fold (add_collateral excl) total l ;; k t) Q w.
Proof.
  revert total w. induction l as [|p l IH]; intros total w HQ Hq Hk; cbn [fold ofold bind] in *; [by apply Hk|].
  apply wp_bind_assoc. apply wp_add_collateral; [done..|]. intros total' w1 Hq1 Hs1 H1. rewrite H1 in Hk. cbn [obind] in Hk.
  apply IH; [done..|]. intros t2 w2 Hq2 Hs2. apply Hk; [done|congruence].
Qed.

Lemma wp_debt_then {B} (Q : outcome B -> api_world -> Prop) line (k : Z -> api_prog B) w :
  throws Q -> quiet w ->
  (forall debt w', quiet w' -> seen w' = seen w -> books_debt d0 line = Ok debt -> wp Adm (k debt) Q w') ->
  wp Adm (t <- outstandingDebt (Some line) ;; k t) Q w.
Proof.
  intros HQ Hq Hk. unfold outstandingDebt. apply wp_bind_assoc. apply (wp_select_then _ draw); [done..|]. intros w1 Hq1 Hs1.
  apply wp_bind_assoc. apply (wp_select_then _ repayment); [done..|]. intros w2 Hq2 Hs2.
  unfold books_debt in Hk. cbn [row] in *.
  apply wp_bind_assoc. apply wp_lift_then; [done..|]. intros drawn Hd. rewrite Hd in Hk. cbn [obind] in Hk.
  apply wp_bind_assoc. apply wp_lift_then; [done..|]. intros repaid Hr. rewrite Hr in Hk. cbn [obind] in Hk. cbn [bind].
  apply Hk; [done|congruence|]. f_equal. destruct (Z.ltb_spec 0 (drawn - repaid)); lia.
Qed.

(** The debt an LTV is projected with. *)
Definition debt_used (line : string) (given : option Z) (debt : Z) : Prop :=
  match given with Some g => debt = g | None => books_debt d0 line = Ok debt end.

Lemma wp_estimate_then {B} (Q : outcome B -> api_world -> Prop) line excl given (k : Z -> api_prog B) w :
  throws Q -> quiet w ->
  (forall debt ltv w', quiet w' -> seen w' = seen w -> debt_used line given debt -> books_ltv d0 line excl debt = Ok ltv ->
     wp Adm (k ltv) Q w') ->
  wp Adm (t <- estimateLtvBps line excl given ;; k t) Q w.
Proof.
  intros HQ Hq Hk. unfold estimateLtvBps. apply wp_bind_assoc. apply (wp_select_then _ pledge); [done..|]. intros w1 Hq1 Hs1.
  apply wp_bind_assoc. apply wp_collateral; [done..|]. intros total w2 Hq2 Hs2 Ht.
  unfold books_ltv, books_collateral in Hk. cbn [row] in *. rewrite Ht in Hk. cbn [obind] in Hk.
  destruct given as [g|]; cbn [bind]; [eapply Hk; [done|congruence|done|done]|].
  apply wp_bind_assoc. apply wp_debt_then; [done..|]. intros debt w3 Hq3 Hs3 Hd. cbn [bind].
  eapply Hk; [done|congruence|done|done].
Qed.

(** ** Handing out *)
(** What recording left of books [d]: told and recorded, or thrown with all or nothing recorded. *)
Definition handled k pay c xdr (d : Database) (r : outcome HttpReply) (d' : Database) : Prop :=
  match r with
  | Ok reply => exists h, tells reply xdr h /\ recorded partyId k pay c xdr h d d'
  | Err _ => same_but [] d d' \/ exists h, recorded partyId k pay c xdr h d d'
  end.

Lemma recorded_trans k pay c xdr h d1 d2 d3 :
  same_but [] d1 d2 -> recorded partyId k pay c xdr h d2 d3 -> recorded partyId k pay c xdr h d1 d3.
Proof.
  intros Hd (Hh & Hf & ref & now & Hc & Hi). pose proof (proj1 Hd txIntent) as E.
  rewrite E in * by (done || tauto). split; [done|]. split; [done|]. exists ref, now. split; [by eapply changed_trans|done].
Qed.

Lemma handled_trans k pay c xdr d1 d2 d3 r :
  same_but [] d1 d2 -> handled k pay c xdr d2 r d3 -> handled k pay c xdr d1 r d3.
Proof.
  intros Hd. destruct r as [reply|x]; cbn.
  - intros (h & Ht & Hr). exists h. split; [done|by eapply recorded_trans].
  - intros [Hs|(h & Hr)]; [left; by eapply same_but_trans|right]. exists h. by eapply recorded_trans.
Qed.

(** The call that builds the deal's envelope, and what follows it. *)
Lemma wp_built i k pay c (rest : string -> api_prog HttpReply) w :
  quiet w -> deal (stamps e) partyId (w_tick w0) d0 (seen w) i k pay c ->
  (forall xdr w1, wp Adm (rest xdr) (fun r w' => w_log w' = w_log w1 /\ handled k pay c xdr (w_db w1) r (w_db w')) w1) ->
  wp Adm (xdr <- call (BuildTx i) ;; rest xdr) ends w.
Proof.
  intros Hq Hd Hrest. pose proof Hq as [(l & Hl & Hu) _ Hs]. rewrite (seen_is w l Hl) in Hd. wp_step. wp_step.
  assert (Hend : forall r' w', w_log w' = w_log w0 ++ l ++ [ECall (BuildTx i) r] ->
    (exists xdr, r = Ok xdr /\ handled k pay c xdr d0 r' (w_db w')) \/ (exists x, r' = Err x /\ same_but [] d0 (w_db w')) -> ends r' w').
  { intros r' w' El Hr. exists (l ++ [ECall (BuildTx i) r]). split; [done|]. right. exists l, i, r, k, pay, c.
    do 3 (split; [done|]). destruct Hr as [(xdr & -> & Hh)|(x & -> & Hx)]; [|by left].
    destruct r'; cbn in *; [destruct Hh as (h & ? & ?); by exists xdr, h|].
    destruct Hh as [?|(h & ?)]; [by left|right; by exists xdr, h]. }
  assert (El : w_log (note w (ECall (BuildTx i) r)) = w_log w0 ++ l ++ [ECall (BuildTx i) r]) by (simpl; by rewrite Hl, app_assoc).
  destruct r as [xdr|x]; [|apply Hend; [done|right; by exists x]].
  eapply wp_mono; [|apply Hrest]. intros r' w' [El' Hh]. apply Hend; [by rewrite El'|].
  left. exists xdr. split; [done|]. by eapply handled_trans.
Qed.

(** The intent a route records. *)
Definition intent_added xdr k ref pay h (d d' : Database) : Prop :=
  chain_txHash xdr = Ok h /\ (forall i, In i (d txIntent) -> ti_txHash i <> h) /\
  exists now, d' = set_table txIntent (d txIntent ++ [TxIntent h (kind_name k) (Some ref) partyId (Some pay) "pending" None None now None]) d.

Lemma wp_record_intent xdr k ref pay w :
  wp Adm (record xdr k ref partyId pay) (fun r w' => w_log w' = w_log w /\
    match r with
    | Ok h => intent_added xdr k ref (default [] pay) h (w_db w) (w_db w')
    | Err _ => w_db w' = w_db w \/ exists h, intent_added xdr k ref (default [] pay) h (w_db w) (w_db w')
    end) w.
Proof.
  unfold record, recordIntent. cbn [ia_xdr ia_kind ia_refId ia_partyId ia_payload]. wp_step. wp_step.
  destruct (chain_txHash xdr) as [h|x] eqn:Eh; [|split; [done|by left]].
  wp_step. apply (wp_insert _ txIntent); cbn zeta; [intros x; split; [done|by left]|].
  intros s _ Hc _.
  assert (Ha : forall d', d' = set_table txIntent (w_db w txIntent ++ [TxIntent h (kind_name k) (Some ref) partyId (Some (default [] pay)) "pending" None None (st_now s) None]) (w_db w) ->
    intent_added xdr k ref (default [] pay) h (w_db w) d').
  { intros d' ->. split; [done|]. split; [|by eexists]. intros i Hi Heq. unfold conflicts in Hc. apply not_true_iff_false in Hc.
    apply Hc, existsb_exists. exists i. split; [done|]. cbn. by apply bool_decide_eq_true. }
  split; [split; [done|by apply Ha]|]. intros x. split; [done|right; exists h; by apply Ha].
Qed.

Lemma added_recorded xdr k ref pay h d d' :
  intent_added xdr k ref pay h d d' -> recorded partyId k pay (OnFile ref) xdr h d d'.
Proof.
  intros (Hh & Hf & now & ->). split; [done|]. split; [done|]. exists ref, now. split; [|by rewrite set_table_same].
  split; [done|]. apply same_but_set; [done|by left].
Qed.

(** A deal about a row on file. *)
Lemma wp_hand_out i k ref pay (K : string -> string -> api_prog HttpReply) w :
  quiet w -> deal (stamps e) partyId (w_tick w0) d0 (seen w) i k (default [] pay) (OnFile ref) ->
  (forall xdr h, exists reply, K xdr h = Ret reply /\ tells reply xdr h) ->
  wp Adm (xdr <- call (BuildTx i) ;; h <- record xdr k ref partyId pay ;; K xdr h) ends w.
Proof.
  intros Hq Hd HK. apply (wp_built i k (default [] pay) (OnFile ref)); [done|done|]. intros xdr w1.
  wp_step. eapply wp_mono; [|apply wp_record_intent]. intros [h|x] w' [Hl Hr].
  - destruct (HK xdr h) as (reply & -> & Ht). cbn [wp]. split; [done|]. exists h. split; [done|by apply added_recorded].
  - split; [done|]. destruct Hr as [->|(h & Hr)]; [left; apply same_but_refl|right; exists h; by apply added_recorded].
Qed.

(** A deal whose rows change together with its intent. *)
Lemma wp_hand_out_tx {X} i k pay c (body : string -> api_prog X) (K : string -> X -> api_prog HttpReply) w :
  quiet w -> deal (stamps e) partyId (w_tick w0) d0 (seen w) i k pay c ->
  (forall xdr w1, wp Adm (body xdr) (fun r w' => w_log w' = w_log w1 /\
     match r with
     | Ok v => exists reply h, K xdr v = Ret reply /\ tells reply xdr h /\ recorded partyId k pay c xdr h (w_db w1) (w_db w')
     | Err _ => True
     end) w1) ->
  wp Adm (xdr <- call (BuildTx i) ;; v <- transaction (body xdr) ;; K xdr v) ends w.
Proof.
  intros Hq Hd Hbody. apply (wp_built i k pay c); [done|done|]. intros xdr w1. wp_step. wp_step.
  eapply wp_mono; [|apply Hbody]. intros r w' [Hl Hr]. apply wp_commit_any. destruct r as [v|x]; cbn.
  - destruct Hr as (reply & h & -> & Ht & Hr). split_and!.
    + cbn [wp]. split; [done|]. by exists h.
    + intros x. split; [done|left; apply same_but_refl].
    + intros x. split; [done|right; by exists h].
  - split; [done|left; apply same_but_refl].
Qed.

(** ** The routes of a line *)
Lemma on_chain_nonempty id n : truthy_id id = true -> BigInt_nullable id = Ok n -> on_chain_as id n.
Proof. by split. Qed.

Lemma wp_requireCreditLine id w :
  quiet w -> wp Adm (requireCreditLine id)
    (fun r w' => quiet w' /\ seen w' = seen w /\ forall line, r = Ok line -> In line (d0 creditLine)) w.
Proof.
  intros Hq. set (Q := fun (r : outcome creditLine_row) w' => _).
  assert (HQ : forall x w', quiet w' -> seen w' = seen w -> Q (Err x) w') by done.
  unfold requireCreditLine, by_param. destruct (pg_uuid id); [|by apply HQ].
  unfold select_one. apply wp_bind_assoc. wp_step. apply (wp_select _ creditLine); [intros x; apply HQ; [by apply quiet_ticked|done]|].
  cbn [bind]. destruct (hd_error _) as [line|] eqn:E; [|by apply HQ; [apply quiet_ticked|]].
  apply head_filter_In in E as [Hin _]. rewrite (quiet_table _ creditLine Hq) in Hin by done.
  split; [by apply quiet_ticked|]. split; [done|]. by intros ? [= <-].
Qed.

Lemma wp_line_then id (k : creditLine_row -> api_prog HttpReply) w :
  quiet w -> (forall line w', quiet w' -> seen w' = seen w -> In line (d0 creditLine) -> wp Adm (k line) ends w') ->
  wp Adm (with_line id k) ends w.
Proof.
  intros Hq Hk. unfold with_line. wp_step. wp_step. eapply wp_mono; [|by apply wp_requireCreditLine].
  intros [line|x] w' (Hq' & Hs & Hr); [apply Hk; auto|by apply wp_fail].
Qed.

Lemma wp_settled_line id role refusal (k : creditLine_row -> option string -> api_prog HttpReply) w :
  quiet w ->
  (forall line w', quiet w' -> seen w' = seen w -> In line (d0 creditLine) -> truthy_id (cl_contractLineId line) = true ->
     isLineParty line partyId role = true -> wp Adm (k line (cl_contractLineId line)) ends w') ->
  wp Adm (with_settled_line id partyId role refusal k) ends w.
Proof.
  intros Hq Hk. apply wp_line_then; [done|]. intros line w' Hq' Hs Hin.
  destruct (truthy_id _) eqn:Et; cbn [negb]; [|by apply wp_fail].
  destruct (isLineParty _ _ _) eqn:Ep; cbn [negb]; [by apply Hk|by apply wp_fail].
Qed.

Lemma lender_is line : isLineParty line partyId lender = true -> cl_lenderId line = partyId.
Proof. apply bool_decide_eq_true. Qed.
Lemma borrower_is line : isLineParty line partyId borrower = true -> cl_borrowerId line = partyId.
Proof. apply bool_decide_eq_true. Qed.

(** One step of a route up to the call that builds. *)
Ltac then_step :=
  lazymatch goal with
  | |- wp _ (bind (lift _) _) _ _ => apply wp_lift_then; [apply ends_throws|done|]
  | |- wp _ (bind (requireStellarAccount _) _) _ _ =>
      apply wp_account_then; [apply ends_throws|done|]; let a := fresh "account" in intros a ? ? ? ?
  | |- wp _ (bind (requireAsset _) _) _ _ =>
      apply wp_asset_then; [apply ends_throws|done|]; let a := fresh "a" in intros a ? ? ? ? ?
  | |- wp _ (bind (audit _ _ _) _) _ _ => apply wp_audit_then; [apply ends_throws|done|]; intros ? ? ?
  | |- wp _ (fail _ _) _ _ => apply wp_fail; [done|lia]
  | |- wp _ (if negb ?b then _ else _) _ _ => let E := fresh "E" in destruct b eqn:E; cbn [negb]
  end.

Ltac told_reply := intros; eexists; split; [reflexivity|]; split; [by (left + right)|eexists; by repeat split].

Lemma wp_fund id body w : quiet w -> wp Adm (fund_route partyId id body) ends w.
Proof.
  intros Hq. unfold fund_route. then_step. intros amount Ha%positive_field.
  apply wp_settled_line; [done|]. intros line w1 Hq1 Hs1 Hin Ht Hp. pose proof (lender_is _ Hp) as El. rewrite El.
  then_step. then_step. intros n Hn. eapply wp_hand_out; [done| |told_reply]. by apply D_fund.
Qed.

Lemma wp_withdraw id body w : quiet w -> wp Adm (withdraw_route partyId id body) ends w.
Proof.
  intros Hq. unfold withdraw_route. then_step. intros [kind amount] Hb.
  apply obind_ok in Hb as (kind' & Hk%enum_field & Hb). apply obind_ok in Hb as (a' & Ha%positive_field & [= <- <-]). cbn [fst snd].
  apply wp_settled_line; [done|]. intros line w1 Hq1 Hs1 Hin Ht Hp. pose proof (lender_is _ Hp) as El. rewrite El.
  then_step. then_step. intros n Hn. eapply wp_hand_out; [done| |told_reply].
  destruct Hk as [<-|[<-|[]]]; [by apply D_withdraw_undrawn|by apply D_withdraw_interest].
Qed.

Lemma wp_close id w : quiet w -> wp Adm (close_route partyId id) ends w.
Proof.
  intros Hq. apply wp_settled_line; [done|]. intros line w1 Hq1 Hs1 Hin Ht Hp. pose proof (lender_is _ Hp) as El. rewrite El.
  then_step; [|then_step]. apply bool_decide_eq_true in E. then_step. then_step. intros n Hn.
  eapply wp_hand_out; [done| |told_reply]. by apply D_close.
Qed.

Lemma wp_draw id body w : quiet w -> wp Adm (draw_route partyId id body) ends w.
Proof.
  intros Hq. unfold draw_route. then_step. intros [amount to] Hb.
  apply obind_ok in Hb as (a' & Ha%positive_field & Hb). apply obind_ok in Hb as (to' & _ & [= <- <-]). cbn [fst snd].
  apply wp_settled_line; [done|]. intros line w1 Hq1 Hs1 Hin Ht Hp. pose proof (borrower_is _ Hp) as El. rewrite El.
  then_step. then_step. then_step. intros n Hn. eapply wp_hand_out; [done| |told_reply]. by apply D_draw.
Qed.

Lemma wp_repay id body w : quiet w -> wp Adm (repay_route partyId id body) ends w.
Proof.
  intros Hq. unfold repay_route. then_step. intros amount Ha%positive_field.
  apply wp_settled_line; [done|]. intros line w1 Hq1 Hs1 Hin Ht Hp. pose proof (borrower_is _ Hp) as El. rewrite El.
  then_step. then_step. then_step. intros n Hn. eapply wp_hand_out; [done| |told_reply]. by apply D_repay.
Qed.

(** A new row and its intent, in one transaction. *)
Lemma wp_insert_and_record t (mk : stamp -> row t) id_of xdr k w :
  wp Adm (r <- stmt (insert_returning t mk) ;; h <- record xdr k (id_of r) partyId None ;; Ret (id_of r, h))
    (fun r w' => w_log w' = w_log w /\
       match r with
       | Ok v => exists s, fst v = id_of (mk s) /\
           intent_added xdr k (id_of (mk s)) [] (snd v) (set_table t (w_db w t ++ [mk s]) (w_db w)) (w_db w')
       | Err _ => True
       end) w.
Proof.
  wp_step. wp_step; [by intros|]. intros s _ _ _. split; [|by intros]. wp_step.
  eapply wp_mono; [|apply wp_record_intent]. intros [h|x] w' [Hl Hr]; cbn [wp]; split; try done.
  exists s. by split.
Qed.

(** What the intent and the new row make of the books. *)
Lemma added_row t (r : row t) xdr k ref h d d' :
  t <> txIntent -> t <> auditLog -> intent_added xdr k ref [] h (set_table t (d t ++ [r]) d) d' ->
  chain_txHash xdr = Ok h /\ (forall i, In i (d txIntent) -> ti_txHash i <> h) /\
  d' t = d t ++ [r] /\ same_but [t; txIntent] d d' /\
  exists now, d' txIntent = d txIntent ++ [TxIntent h (kind_name k) (Some ref) partyId (Some []) "pending" None None now None].
Proof.
  intros Ht Ha (Hh & Hf & now & ->). rewrite !set_table_same. rewrite (set_table_other t txIntent) in * by done.
  split; [done|]. split; [done|]. rewrite set_table_other, set_table_same by done. split; [done|].
  split; [apply same_but_set2; [done|done|right; by left|by left]|by exists now].
Qed.

Lemma wp_open body w : quiet w -> wp Adm (open_line_route partyId body) ends w.
Proof.
  intros Hq. unfold open_line_route. then_step. intros b Hb. then_step; [|then_step]. apply bool_decide_eq_true in E. rewrite E.
  then_step. then_step. assert (Hlimit : 0 < ol_limit b) by (decoded Hb; by eapply positive_field).
  eapply wp_hand_out_tx; [done|by eapply (D_open _ _ _ _ _ _ (ol_borrowerId b))|].
  intros xdr w1. wp_step. wp_step. destruct (scaledToDecimalString (ol_limit b)) as [limit|] eqn:El; [|done].
  eapply wp_mono; [|apply (wp_insert_and_record creditLine (pending_line b limit) cl_id)].
  intros [[id h]|x] w9 [Hl Hr]; split; try done. destruct Hr as (s & -> & (Hh & Hf & Hrow & Hsame & now & Hi)%added_row); try done.
  eexists _, h. split; [reflexivity|]. split; [split; [by right|eexists; by repeat split]|].
  split; [done|]. split; [done|]. exists (cl_id (pending_line b limit s)), now. split; [|done]. exists (pending_line b limit s).
  split; [by repeat split|by split_and!].
Qed.

Lemma wp_pledge id body w : quiet w -> wp Adm (pledge_route partyId id body) ends w.
Proof.
  intros Hq. unfold pledge_route. then_step. intros b Hb. assert (Hunits : 0 < cp_units b) by (decoded Hb; by eapply positive_field).
  apply wp_settled_line; [done|]. intros line w1 Hq1 Hs1 Hin Ht Hp. pose proof (borrower_is _ Hp) as El. rewrite El.
  then_step. then_step. then_step. intros n Hn.
  eapply wp_hand_out_tx; [done| |].
  { apply (D_pledge _ _ _ _ _ _ line _ (cp_assetId b)); [done|done|by exists a|done]. }
  intros xdr w4. wp_step. wp_step. destruct (scaledToDecimalString (cp_units b)) as [units|] eqn:Eu; [|done].
  eapply wp_mono; [|apply (wp_insert_and_record pledge (pending_pledge line a b units) pl_id)].
  intros [[pid h]|x] w9 [Hl Hr]; split; try done. destruct Hr as (s & -> & (Hh & Hf & Hrow & Hsame & now & Hi)%added_row); try done.
  eexists _, h. split; [reflexivity|]. split; [split; [by right|eexists; by repeat split]|].
  split; [done|]. split; [done|]. exists (pl_id (pending_pledge line a b units s)), now. split; [|done].
  exists (pending_pledge line a b units s).
  split; [by repeat split|by split_and!].
Qed.

Lemma wp_propose body w : quiet w -> wp Adm (propose_route partyId body) ends w.
Proof.
  intros Hq. unfold propose_route. then_step. intros b Hb. then_step; [|then_step]. apply bool_decide_eq_true in E. rewrite E.
  assert (Hu : 0 < bp_units b /\ 0 < bp_cashAmount b) by (decoded Hb; split; by eapply positive_field).
  then_step. then_step. then_step.
  eapply wp_hand_out_tx; [done| |].
  { apply (D_propose _ _ _ _ _ _ (bp_cashBorrowerId b) _ (bp_assetId b)); [done|done|by exists a|apply Hu|apply Hu]. }
  intros xdr w4. wp_step. wp_step. destruct (scaledToDecimalString (bp_units b)) as [units|] eqn:Eu; [|done].
  wp_step. wp_step. destruct (scaledToDecimalString (bp_cashAmount b)) as [cash|] eqn:Ec; [|done].
  eapply wp_mono; [|apply (wp_insert_and_record repoTrade (proposed_trade b a units cash) rt_id)].
  intros [[tid h]|x] w9 [Hl Hr]; split; try done. destruct Hr as (s & -> & (Hh & Hf & Hrow & Hsame & now & Hi)%added_row); try done.
  eexists _, h. split; [reflexivity|]. split; [split; [by right|eexists; by repeat split]|].
  split; [done|]. split; [done|]. exists (rt_id (proposed_trade b a units cash s)), now. split; [|done].
  exists (proposed_trade b a units cash s).
  split; [by repeat split|by split_and!].
Qed.

(** ** Releasing a pledge *)
(** The debt a release is checked with: the contract's, or the books' after the contract could not be
    asked. *)
Definition debt_seen (log : list api_entry) n (given : option Z) : Prop :=
  match given with
  | Some debt => exists view, In (ECall (LtvOf n) (Ok view)) log /\ debt = lv_debt view
  | None => exists x, In (ECall (LtvOf n) (Err x)) log
  end.

Lemma debt_seen_more log l n given : debt_seen log n given -> debt_seen (log ++ l) n given.
Proof.
  unfold debt_seen. destruct given; [intros (v & ? & ?); exists v|intros (x & ?); exists x]; split_and?; try done; apply in_or_app; by left.
Qed.

Lemma wp_debt_read_then id (k : option Z -> api_prog HttpReply) w :
  quiet w ->
  (forall given w', quiet w' -> (forall n, BigInt_nullable id = Ok n -> debt_seen (seen w') n given) -> wp Adm (k given) ends w') ->
  wp Adm (read <- attempt (n <- lift (BigInt_nullable id) ;; view <- call (LtvOf n) ;; Ret (lv_debt view)) ;;
          given <- match read with
                   | Ok d => Ret (Some d)
                   | Err _ => emit "release: on-chain debt read failed, using the Postgres estimate" ;;; Ret None
                   end ;; k given) ends w.
Proof.
  intros Hq Hk. wp_step. wp_step. wp_step. wp_step. destruct (BigInt_nullable id) as [n|x] eqn:En.
  - wp_step. apply wp_read_then; [done|done|]. intros [view|x] w1 Hq1 Hs1.
    + wp_step. wp_step. cbn [wp]. apply Hk; [done|]. intros ? [= <-]. exists view. split; [|done]. rewrite Hs1. apply in_or_app. right. by left.
    + wp_step. wp_step. wp_step. cbn [wp]. apply Hk; [by apply quiet_noted|]. intros ? [= <-]. rewrite seen_noted by done.
      apply debt_seen_more. exists x. rewrite Hs1. apply in_or_app. right. by left.
  - wp_step. wp_step. wp_step. cbn [wp]. apply Hk; [by apply quiet_noted|done].
Qed.

Lemma wp_release id pledgeId w : quiet w -> wp Adm (release_route partyId id pledgeId) ends w.
Proof.
  intros Hq. unfold release_route. apply wp_settled_line; [done|]. intros line w1 Hq1 Hs1 Hin Ht Hp.
  pose proof (borrower_is _ Hp) as El.
  apply (wp_by_param_then _ pledge); [apply ends_throws|done|done|intros; by apply wp_fail|].
  intros p w2 Hq2 Hs2 Hpin Hpid. destruct (eqs (pl_creditLineId p) _) eqn:E1; cbn [negb]; [|by apply wp_fail].
  destruct (eqs (pl_status p) _) eqn:E2; cbn [negb]; [|by apply wp_fail].
  apply bool_decide_eq_true in E1, E2. apply wp_debt_read_then; [done|]. intros given w3 Hq3 Hgiven.
  apply wp_estimate_then; [apply ends_throws|done|]. intros debt ltv w4 Hq4 Hs4 Hdebt Hltv.
  change (warningBps MARGIN_THRESHOLDS) with 7000. destruct (Z.leb_spec 7000 ltv) as [|Hlt]; [by apply ends_refused|].
  rewrite El. then_step. then_step. then_step. intros n Hn. then_step. intros units Hu.
  eapply wp_hand_out_tx; [done| |].
  { apply (D_release _ _ _ _ _ _ line _ p); [done|done|done|done|done|by exists a|done|].
    exists debt, ltv. split; [|done]. specialize (Hgiven n Hn). unfold debt_used in Hdebt.
    replace (seen _) with (seen w3) by congruence. destruct given; [left|by right].
    destruct Hgiven as (view & ? & ?). exists view. split; [done|by subst]. }
  intros xdr w9. wp_step. unfold update_row. wp_step. wp_step; [done|]. intros s. split; [|done]. wp_step.
  eapply wp_mono; [|apply wp_record_intent]. intros [h|x] w10 [Hl Hr]; split; try done.
  destruct Hr as (Hh & Hf & now & Hr). eexists _, h. split; [reflexivity|].
  split; [split; [by left|eexists; by repeat split]|]. split; [done|].
  cbn in Hf, Hr. rewrite (set_table_other pledge txIntent) in Hf, Hr by done. split; [done|].
  exists (pl_id p), now. rewrite Hr. split; [|by rewrite set_table_same].
  split; [done|]. split; [apply same_but_set2; [done|done|right; by left|by left]|]. by rewrite set_table_other, set_table_same.
Qed.

(** ** The routes of quotes and trades *)
Lemma wp_execute id body w : quiet w -> wp Adm (execute_route partyId id body) ends w.
Proof.
  intros Hq. unfold execute_route. then_step. intros [given to] _.
  apply (wp_by_param_then _ exitQuote); [apply ends_throws|done|done|intros; by apply wp_fail|].
  intros q w1 Hq1 Hs1 Hin Hid. then_step; [|then_step]. then_step; [|then_step].
  apply bool_decide_eq_true in E, E0. wp_step. cbn [wp sample]. intros s ->. destruct (Z.ltb_spec (eq_expiresAt q) (st_now (stamps e (w_tick w1)))) as [|Hexp].
  - assert (Hend : forall r d', refused r -> unmoved partyId d0 d' -> ends r (after (tick w1) d')).
    { intros r d' Hr Hd. destruct Hq1 as [(l & Hl & Hu) _ _]. exists l. split; [done|]. by left. }
    assert (Hmoved : unmoved partyId d0 (set_table exitQuote (List.map (fun r => if eqs (eq_id r) (eq_id q) then set_quote_status "expired" r else r) (w_db w1 exitQuote)) (w_db w1))).
    { right. exists q. do 3 (split; [done|]). rewrite (quiet_table _ exitQuote Hq1) by done. split; [|by rewrite set_table_same].
      eapply same_but_trans; [apply Hq1|]. apply same_but_set; [done|by left]. }
    unfold update_row. wp_step. wp_step. wp_step; [intros x; by apply ends_throws, quiet_ticked, quiet_ticked|].
    intros s. split; [|intros x; by apply Hend]. cbn [wp bind]. by apply Hend.
  - unfold execute_quote. apply (wp_select_then _ txIntent); [apply ends_throws|by apply quiet_ticked|done|].
    intros w2 Hq2 Hs2. cbn [row] in *. destruct (List.filter (A := txIntent_row) _ (d0 txIntent)) as [|i rest] eqn:Ef; [|then_step].
    then_step. intros quotedOut Hout. cbv zeta. cbn [fst snd]. destruct (Z.ltb_spec (default quotedOut given) (min_out_floor quotedOut)) as [|Hfloor]; [cbn [wp]; by apply ends_refused|].
    then_step. rewrite E. then_step. then_step. then_step. intros units Hu.
    eapply wp_hand_out; [done| |told_reply].
    apply (D_exit _ _ _ _ _ _ q _ _ quotedOut _ _ (w_tick w1)); try done; [apply Hq1| |by exists a].
    intros i Hi. destruct (is_in_flight (eq_id q) i) eqn:Ei; [|done]. exfalso.
    assert (Hnil : In i (List.filter (is_in_flight (eq_id q)) (d0 txIntent))) by (by apply List.filter_In). by rewrite Ef in Hnil.
Qed.

(** The trade's number on chain. *)
Lemma wp_trade_number_then given trade (k : option Z -> api_prog HttpReply) w :
  quiet w -> (forall n w', quiet w' -> wp Adm (k n) ends w') -> wp Adm (n <- contract_trade_id given trade ;; k n) ends w.
Proof.
  intros Hq Hk. unfold contract_trade_id. destruct given as [n|]; [by apply Hk|].
  destruct (truthy_id _); [|by apply Hk]. apply wp_bind_assoc. then_step. intros n _. cbn [bind]. by apply Hk.
Qed.

Lemma wp_act_on_trade trade given op k w :
  quiet w ->
  (forall account n log, on_file d0 partyId account ->
     deal (stamps e) partyId (w_tick w0) d0 log (op account n) k [] (OnFile (rt_id trade))) ->
  wp Adm (act_on_trade partyId partyId trade given op k) ends w.
Proof.
  intros Hq Hd. unfold act_on_trade. then_step. apply wp_trade_number_then; [done|]. intros [n|] w2 Hq2; [|then_step].
  eapply wp_hand_out; [done|by apply Hd|told_reply].
Qed.

Lemma wp_accept id body w : quiet w -> wp Adm (accept_route partyId id body) ends w.
Proof.
  intros Hq. unfold accept_route. then_step. intros given _.
  apply (wp_by_param_then _ repoTrade); [apply ends_throws|done|done|intros; by apply wp_fail|].
  intros t w1 Hq1 Hs1 Hin Hid. then_step; [|then_step]. then_step; [|then_step].
  apply bool_decide_eq_true in E, E0. rewrite E. apply wp_act_on_trade; [done|]. intros. by apply D_accept.
Qed.

Lemma wp_unwind id body w : quiet w -> wp Adm (unwind_route partyId id body) ends w.
Proof.
  intros Hq. unfold unwind_route. then_step. intros given _.
  apply (wp_by_param_then _ repoTrade); [apply ends_throws|done|done|intros; by apply wp_fail|].
  intros t w1 Hq1 Hs1 Hin Hid. destruct (negb _ && negb _) eqn:Ep; [then_step|]. then_step; [|then_step].
  apply bool_decide_eq_true in E. apply wp_act_on_trade; [done|]. intros. apply D_unwind; [done| |done|done].
  apply andb_false_iff in Ep as [Ep%negb_false_iff%bool_decide_eq_true|Ep%negb_false_iff%bool_decide_eq_true]; auto.
Qed.

Lemma wp_top_up id body w : quiet w -> wp Adm (top_up_route partyId id body) ends w.
Proof.
  intros Hq. unfold top_up_route. then_step. intros units Hu%positive_field.
  apply (wp_by_param_then _ repoTrade); [apply ends_throws|done|done|intros; by apply wp_fail|].
  intros t w1 Hq1 Hs1 Hin Hid. then_step; [|then_step]. then_step; [|then_step]. then_step; [|then_step].
  apply bool_decide_eq_true in E, E0. rewrite E. then_step. then_step. intros n Hn.
  eapply wp_hand_out; [done| |told_reply]. by apply (D_top_up _ _ _ _ _ _ t).
Qed.

Lemma quiet_start : quiet w0.
Proof. constructor; [exists []; split; [by rewrite app_nil_r|constructor]|lia|apply same_but_refl]. Qed.

Lemma wp_route r : wp Adm (route partyId r) ends w0.
Proof.
  pose proof quiet_start. destruct r; cbn [route];
    auto using wp_open, wp_fund, wp_withdraw, wp_close, wp_pledge, wp_release, wp_draw, wp_repay, wp_execute, wp_propose, wp_accept, wp_unwind, wp_top_up.
Qed.
End Safety.

(** C14. A transaction is built only for someone entitled to it.  Whatever the database and the
    contracts answer, a request has at most one envelope built, as its last call, and what it asks for
    is a deal open to the caller: on a line that is on chain under that number and that the caller
    lends, or borrows, on; a quote of the caller's, open, not expired and with no execution pending, at
    99% or more of what was quoted; a trade of the caller's in the right state; a pledge whose release
    leaves the line under its first threshold.  The account that has to sign is one on file for the
    caller, assets are the books' and amounts positive. *)
Theorem built_only_for_the_entitled `{ApiLib} (e : env ApiCall) partyId r (w0 : api_world) :
  let '(_, w) := run e (route partyId r) w0 in
  exists l, w_log w = w_log w0 ++ l /\
  forall l1 x l2 i, l = l1 ++ x :: l2 -> built_of x = Some i ->
    l2 = [] /\ exists k pay c, deal (stamps e) partyId (w_tick w0) (w_db w0) l1 i k pay c.
Proof.
  pose proof (wp_sound _ e _ _ _ (stamped_by_respects e) (wp_route e partyId w0 r)) as Hw.
  destruct (run e _ _) as [res w]. destruct Hw as (l & Hl & [(Hu & _)|(log1 & i & built & k & pay & c & -> & Hu & Hd & _)]); exists l + eexists; (split; [exact Hl|]).
  - intros l1 x l2 i -> Hx. apply Forall_app in Hu as [_ Hu]. apply Forall_cons in Hu as [Hu _]. congruence.
  - intros l1 x l2 i' El Hx. destruct (snoc_split _ _ _ _ _ El) as [(-> & -> & <-)|(l3 & ->)].
    + injection Hx as <-. split; [done|]. by exists k, pay, c.
    + apply Forall_app in Hu as [_ Hu]. apply Forall_cons in Hu as [Hu _]. congruence.
Qed.

(** C7. What a request hands out is what the books will match.  An answer with an envelope carries
    the hash of a new pending intent of the caller's, recorded with the deal's kind and figures in the
    same step as the rows it is about: a line, pledge or trade as the deal says, a pledge marked as
    being released, or none.  An error reply was preceded by no envelope and left the books alone,
    except that an expired quote is marked as such; and an exception left them alone, or with the
    intent and its rows together, never one without the other. *)
Theorem handed_out_is_recorded `{ApiLib} (e : env ApiCall) partyId r (w0 : api_world) :
  let '(res, w) := run e (route partyId r) w0 in
  let handed_out reply_to := exists i xdr h k pay c log,
    In (ECall (BuildTx i) (Ok xdr)) (w_log w) /\ deal (stamps e) partyId (w_tick w0) (w_db w0) log i k pay c /\
    recorded partyId k pay c xdr h (w_db w0) (w_db w) /\ reply_to xdr h in
  match res with
  | Ok reply => 400 <= rp_code reply /\ unmoved partyId (w_db w0) (w_db w) \/ handed_out (tells reply)
  | Err _ => unmoved partyId (w_db w0) (w_db w) \/ handed_out (fun _ _ => True)
  end.
Proof.
  pose proof (wp_sound _ e _ _ _ (stamped_by_respects e) (wp_route e partyId w0 r)) as Hw.
  destruct (run e _ _) as [res w]. cbv zeta.
  destruct Hw as (l & Hl & [(_ & Hr & Hm)|(log1 & i & built & k & pay & c & -> & _ & Hd & Hr)]).
  - destruct res; by left.
  - assert (Hin : In (ECall (BuildTx i) built) (w_log w)) by (rewrite Hl; apply in_or_app; right; apply in_or_app; right; by left).
    destruct res as [reply|x].
    + destruct Hr as (xdr & h & -> & Ht & Hr). right. by exists i, xdr, h, k, pay, c, log1.
    + destruct Hr as [Hr|(xdr & h & -> & Hr)]; [left; by left|]. right. by exists i, xdr, h, k, pay, c, log1.
Qed.

(** ** Concrete requests *)
Module Sample.
#[local] Instance lib : ApiLib :=
  {| chain_txHash := fun xdr => Ok ("hash of " +:+ xdr); zod_uuid := fun _ => true; pg_uuid := fun _ => true;
     zod_datetime := fun _ => true; Date_of := fun _ => 0 |}.

(** A lender, a borrower, their line, settled on chain as line 7, a trade between them, on chain as
    trade 3, and a quote. *)
Definition line : creditLine_row := CreditLine "l" "lender" "borrower" "USDC" "100" 500 0 86400 "open" (Some "7") None 0 None.
Definition trade : repoTrade_row :=
  RepoTrade "t" "lender" "borrower" "a" "10" "100" 300 "overnight" 0 0 "" "proposed" (Some "3") None None.
Definition quote : exitQuote_row := ExitQuote "q" "borrower" "a" "1" "100" 50 "99.5" 1000 "open".
Definition books : Database :=
  set_table creditLine [line] (set_table repoTrade [trade] (set_table exitQuote [quote]
    (set_table party [Party "lender" "desk" "Lender" None "approved" None None 0; Party "borrower" "desk" "Borrower" None "approved" None None 0]
      (set_table partyAccount [PartyAccount "lender" "GLENDER" "trading" None; PartyAccount "borrower" "GBORROWER" "trading" None] empty_db)))).

Definition node (X : Type) (n : nat) (c : ApiCall X) : outcome X :=
  match c in ApiCall X return outcome X with BuildTx _ => Ok "xdr" | _ => Err (Error "rpc down") end.
Definition environment : env ApiCall :=
  Env node (fun _ => NoFault) (fun n => Stamp (Z.of_nat n) (pretty (N.of_nat n))).

Definition asked (partyId : string) (r : Request) : outcome HttpReply * api_world :=
  run environment (route partyId r) (World books 0 []).
Definition code_of (res : outcome HttpReply * api_world) : option Z :=
  match fst res with Ok reply => Some (rp_code reply) | Err _ => None end.
Definition built_in (res : outcome HttpReply * api_world) : list ApiInvocation := omap built_of (w_log (snd res)).

Lemma lender_funds :
  let res := asked "lender" (FundR "l" (JObj [("amount", JStr "50")])) in
  code_of res = Some 201 /\ built_in res = [FundLine "GLENDER" 7 50] /\
  w_db (snd res) txIntent = [TxIntent "hash of xdr" "credit_line.fund" (Some "l") "lender" (Some [("amount", "50")]) "pending" None None 3 None].
Proof. vm_compute. auto. Qed.

Lemma borrower_may_not_fund : let res := asked "borrower" (FundR "l" (JObj [("amount", JStr "50")])) in
  code_of res = Some 403 /\ built_in res = [].
Proof. vm_compute. auto. Qed.

(** The number a request names replaces the one the books have for the trade: the borrower of trade 3
    is handed an acceptance of trade 9, recorded as the acceptance of trade 3. *)
Lemma accept_takes_the_number_it_is_given :
  let res := asked "borrower" (AcceptR "t" (JObj [("contractTradeId", JStr "9")])) in
  code_of res = Some 201 /\ built_in res = [AcceptRepo "GBORROWER" 9] /\
  List.map ti_refId (w_db (snd res) txIntent) = [Some "t"] /\ rt_contractTradeId trade = Some "3".
Proof. vm_compute. auto. Qed.
End Sample.

(** ** Requests of one quote that overlap: the check that no execution is pending and the recording of the
    new one are separate operations, and two requests can pass the check before either records. *)
Module RouteOverlap.
#[local] Existing Instance Sample.lib.

Definition fund_asset : asset_row :=
  Asset "a" "FUND" "GISSUER" "spiko" "CFUND" "classic_sac" "accumulating" "escrow" "EUR" 0 None "daily" 100 100 500 0 "active" 0.
Definition books : Database := set_table asset [fund_asset] Sample.books.

(** A node that builds a different envelope each time. *)
Definition node (X : Type) (n : nat) (c : ApiCall X) : outcome X :=
  match c in ApiCall X return outcome X with BuildTx _ => Ok ("xdr" +:+ pretty n) | _ => Err (Error "rpc down") end.
Definition environment : env ApiCall := Env node (fun _ => NoFault) (stamps Sample.environment).

Definition execute : api_prog HttpReply := route "borrower" (ExecuteR "q" (JObj [("to", JStr "GBORROWER")])).
Definition two_requests (schedule : list nat) : list (api_prog HttpReply) * api_world :=
  interleave environment schedule ([execute; execute], World books 0 []).

Definition exits (w : api_world) : nat := List.length (omap built_of (w_log w)).
Definition pending_executions (w : api_world) : nat := List.length (List.filter (is_in_flight "q") (w_db w txIntent)).

(** One after the other, the second is refused; each looking before the other records, both are handed
    an envelope, and both stand as pending executions of the quote. *)
Lemma overlapping_executions_both_pass :
  (let w := snd (two_requests (List.repeat 0%nat 10 ++ List.repeat 1%nat 10)) in exits w = 1%nat /\ pending_executions w = 1%nat) /\
  (let w := snd (two_requests (List.repeat 0%nat 3 ++ List.repeat 1%nat 10 ++ List.repeat 0%nat 10)) in
   exits w = 2%nat /\ pending_executions w = 2%nat).
Proof. vm_compute. auto. Qed.
End RouteOverlap.
