(* ===== verification/Lifecycle.v ===== *)
(** The life of the books between the routes that hand transactions out and the settlements that take
    their outcome back: every operation is a sequence of few kinds of step, and what every step keeps
    holds in any history.  No row waits for a transaction nobody tracks, and every intent on file is
    about a row of the right table with what its settlement needs. *)
From stdpp Require Import relations.
From S2P Require Import Prelude Prog Schema Rules Domain Chain Intents IntentBooks IntentSafety Api LineRoutes DealRoutes RouteSpec RouteSafety.

(** ** Steps *)
(** The parts of an intent that never change. *)
Definition same_intent (i r : IntentRow) : Prop :=
  ti_txHash r = ti_txHash i /\ ti_kind r = ti_kind i /\ ti_refId r = ti_refId i /\ ti_payload r = ti_payload i.
Definition on_record (i : IntentRow) (d : Database) : Prop := exists r, In r (d txIntent) /\ same_intent i r.

(** An intent the network cannot carry out any more is written off. *)
Definition WrittenOff (intent : IntentRow) (d d' : Database) : Prop :=
  (exists now, rows_updated txIntent (is_pending (ti_txHash intent)) (set_intent_expired now) d d') /\
  FailureEffect intent d d'.

(** One change a settlement or a sweep makes to the books, for one of the intents it is about. *)
Inductive book_step (mine : IntentRow -> Prop) (d d' : Database) : Prop :=
| StepNone : same_db d d' -> book_step mine d d'
| StepMoved intent v ledger : mine intent -> on_record intent d -> Moved intent v ledger d d' -> book_step mine d d'
| StepReopened intent : mine intent -> on_record intent d -> Reopened intent d d' -> book_step mine d d'
| StepWrittenOff intent : mine intent -> on_record intent d -> WrittenOff intent d d' -> book_step mine d d'.
Definition anyones (i : IntentRow) : Prop := True.
Definition of_party (p : string) (i : IntentRow) : Prop := ti_partyId i = p.

(** Intents stay on file through a step. *)
Lemma on_record_map i (P : IntentRow -> bool) f d d' :
  rows_updated txIntent P f d d' -> (forall r, same_intent r (f r)) -> on_record i d -> on_record i d'.
Proof.
  unfold rows_updated, on_record. cbn [row]. intros -> Hf (r & Hr & H1 & H2 & H3 & H4).
  exists (if P r then f r else r). split; [apply in_map_iff; by exists r|].
  destruct (P r); [|done]. destruct (Hf r) as (G1 & G2 & G3 & G4). split_and!; congruence.
Qed.

Lemma on_record_step mine i d d' : book_step mine d d' -> on_record i d -> on_record i d'.
Proof.
  intros [Hs|intent v ledger _ _ (_ & [now Hu] & _)|intent _ _ (_ & msg & Hu)|intent _ _ ([now Hu] & _)] Hi.
  - destruct Hi as (r & Hr & Hs'). exists r. split; [by rewrite (Hs txIntent)|done].
  - by eapply on_record_map.
  - by eapply on_record_map.
  - by eapply on_record_map.
Qed.

Notation steps mine := (rtc (book_step mine)).

Lemma on_record_steps mine i d d' : steps mine d d' -> on_record i d -> on_record i d'.
Proof. induction 1; eauto using on_record_step. Qed.

Lemma steps_same mine d d' : same_db d d' -> steps mine d d'.
Proof. intros. by apply rtc_once, StepNone. Qed.

Lemma steps_anyones mine d d' : steps mine d d' -> steps anyones d d'.
Proof.
  induction 1 as [d|d d1 d' Hs _ IH]; [done|]. eapply rtc_l; [|exact IH].
  destruct Hs; [by apply StepNone|by eapply StepMoved|by eapply StepReopened|by eapply StepWrittenOff].
Qed.

Lemma in_on_record i (d : Database) : In i (d txIntent) -> on_record i d.
Proof. intros. exists i. by repeat split. Qed.

(** ** The operations of the intents are made of these steps *)
Section Refinement.
Notation Adm := any_answer.
Implicit Types w : intent_world.

Section Mine.
Context (mine : IntentRow -> Prop).

Lemma wp_settle_steps intent w :
  mine intent -> on_record intent (w_db w) -> wp Adm (settle intent) (fun _ w' => steps mine (w_db w) (w_db w')) w.
Proof.
  intros Hm Hi. eapply wp_mono; [|apply wp_settle]. intros [s|x] w'.
  - intros [[H _]|(v & ledger & _ & _ & H)]; [by apply steps_same|by eapply rtc_once, (StepMoved _ _ _ intent)].
  - intros (_ & d1 & H1 & H2).
    assert (Hd1 : steps mine (w_db w) d1) by (destruct H1 as [H1|(_ & v & ledger & H1)]; [by apply steps_same|by eapply rtc_once, (StepMoved _ _ _ intent)]).
    etrans; [exact Hd1|]. destruct H2 as [H2|H2]; [by apply steps_same|].
    eapply rtc_once, (StepReopened _ _ _ intent); [done| |exact H2]. by eapply on_record_steps.
Qed.

Lemma wp_expire_step now intent w :
  mine intent -> on_record intent (w_db w) -> wp Adm (expire now intent) (ok_db (fun _ d' => book_step mine (w_db w) d')) w.
Proof.
  intros Hm Hi. unfold expire. set (h := ti_txHash intent).
  change (fun r : row txIntent => is_intent h r && eqs (ti_status r) "pending") with (is_pending h).
  wp_step. wp_step; [done|]. intros s. split; [|done]. cbn [row] in *.
  match goal with |- context [after w ?d] => set (d1 := d) end.
  assert (Hu : rows_updated txIntent (is_pending h) (set_intent_expired now) (w_db w) d1)
    by (unfold rows_updated; subst d1; by rewrite set_table_same).
  assert (Hother : same_except [] (w_db w) d1) by (intros t Ht _; subst d1; by rewrite set_table_other).
  destruct (List.filter (is_pending h) (w_db w txIntent)) as [|r0 rs] eqn:Ef; cbn [List.map].
  - simpl. apply StepNone. intros t. destruct (decide (t = txIntent)) as [->|Ht];
      [rewrite Hu; by apply map_if_filter_nil|apply Hother; [done|tauto]].
  - apply (wp_seq _ _ _ _ (fun _ d' => FailureEffect intent d1 d' /\ keeps_intents d1 d')).
    { eapply wp_mono; [|apply wp_applyFailure]. by intros [[]|x] w'. }
    intros [] w' [He Hkeep]. simpl. apply (StepWrittenOff _ _ _ intent Hm Hi). split.
    + exists now. unfold rows_updated. rewrite Hkeep. exact Hu.
    + exact (Effect_ext anything intent Rejected 0 _ _ _ Hother He).
Qed.

Lemma wp_sweep_step_steps now tally intent w :
  mine intent -> on_record intent (w_db w) -> wp Adm (sweep_step now tally intent) (fun _ w' => steps mine (w_db w) (w_db w')) w.
Proof.
  intros Hm Hi. unfold sweep_step. wp_step. wp_step. eapply wp_mono; [|by apply wp_settle_steps]. cbv beta.
  intros r w1 H1. assert (Hi1 : on_record intent (w_db w1)) by (by eapply on_record_steps).
  assert (Hend : forall status notFound t,
    wp Adm
      (if eqs status "settled" then Ret (add_settled t)
       else if eqs status "failed" then Ret (add_failed t)
       else if notFound && (INTENT_EXPIRY_MS <? now - ti_createdAt intent)
       then catch (wroteOff <- transaction (expire now intent) ;;
                   Ret (if wroteOff : bool then add_expired t else t))
                  (fun _ => Ret (add_errors t))
       else Ret t) (fun _ w' => steps mine (w_db w) (w_db w')) w1).
  { intros status notFound t. wp_step; [done|]. wp_step; [done|]. wp_step; [|done]. wp_step. wp_step. wp_step.
    eapply wp_mono; [|by apply wp_expire_step]. intros [b|x] w2 H2; apply wp_commit_any; [|done].
    assert (Hs : steps mine (w_db w) (w_db w2)) by (etrans; [exact H1|by apply rtc_once]).
    split; [done|]. split; intros x; cbn; done. }
  destruct r as [s|x]; apply Hend.
Qed.

Lemma wp_findIntent_steps {A} h (k : option IntentRow -> intent_prog A) d Q w :
  steps mine d (w_db w) -> (forall x w', steps mine d (w_db w') -> Q (Err x) w') ->
  (forall o w', steps mine d (w_db w') -> (forall i, o = Some i -> on_record i (w_db w')) -> wp Adm (k o) Q w') ->
  wp Adm (bind (findIntent h) k) Q w.
Proof.
  intros Hd HE Hk. wp_step. unfold findIntent. wp_step. wp_step; [intros x; by apply HE|]. wp_step.
  apply Hk; [exact Hd|]. intros i [Hi _]%head_filter_In. by apply in_on_record.
Qed.

Lemma wp_poll_steps n intent w :
  mine intent -> on_record intent (w_db w) -> wp Adm (poll_settle n intent) (fun _ w' => steps mine (w_db w) (w_db w')) w.
Proof.
  revert w. induction n as [|n IH]; intros w Hm Hi; cbn [poll_settle]; [by apply steps_same|].
  wp_step. wp_step. unfold settleIntent. wp_step. eapply wp_mono; [|by apply wp_settle_steps]. cbv beta.
  intros [s|x] w1 H1; assert (Hi1 : on_record intent (w_db w1)) by (by eapply on_record_steps).
  - wp_step. wp_step; [done|]. eapply wp_mono; [|by apply IH]. intros r w2 H2. by etrans.
  - wp_step. wp_step. eapply wp_mono; [|by apply IH]. intros r w2 H2. by etrans.
Qed.
End Mine.

Lemma wp_sweep_steps now w : wp Adm (sweepPendingIntents now) (fun _ w' => steps anyones (w_db w) (w_db w')) w.
Proof.
  unfold sweepPendingIntents. wp_step. wp_step; [intros x; by apply steps_same|].
  eapply (wp_fold_split Adm (fun _ _ w' => steps anyones (w_db w) (w_db w')) (fun _ w' => steps anyones (w_db w) (w_db w'))) with (l0 := []);
    [|done..|by apply steps_same].
  intros done x rest t w1 Eq H1.
  assert (Hx : on_record x (w_db w1)).
  { eapply on_record_steps; [exact H1|]. apply in_on_record.
    assert (Hx : In x (List.filter (fun r : IntentRow => eqs (ti_status r) "pending") (w_db w txIntent))).
    { cbn [app row] in Eq. rewrite Eq. apply in_app_iff. right. by left. }
    by apply List.filter_In in Hx as [Hx _]. }
  eapply wp_mono; [|by apply (wp_sweep_step_steps anyones)]. intros [t'|e] w2 H2; by etrans.
Qed.

Lemma wp_submit_steps chain p xdr w : wp Adm (submit_route chain p xdr) (fun _ w' => steps (of_party p) (w_db w) (w_db w')) w.
Proof.
  unfold submit_route. assert (Hrefl : steps (of_party p) (w_db w) (w_db w)) by done.
  wp_step; [done|]. wp_step; [|done]. apply (wp_findIntent_steps (of_party p) _ _ (w_db w)); [done|done|]. intros o w1 H1 Ho.
  wp_step; [|done]. subst. specialize (Ho _ eq_refl). wp_step; [done|]. match goal with E : negb (eqs (ti_partyId _) p) = false |- _ => apply negb_false_iff, bool_decide_eq_true in E; rename E into Hp end.
  wp_step; [done|]. wp_step. wp_step. wp_step. destruct r as [hash|x]; [|done]. eapply wp_mono; [|by apply (wp_poll_steps (of_party p))]. intros r w2 H2. etrans; [exact H1|exact H2].
Qed.

Lemma wp_settle_route_steps p h w : wp Adm (settle_route p h) (fun _ w' => steps (of_party p) (w_db w) (w_db w')) w.
Proof.
  unfold settle_route. apply (wp_findIntent_steps (of_party p) _ _ (w_db w)); [done|done|]. intros o w1 H1 Ho.
  wp_step; [|done]. subst. specialize (Ho _ eq_refl). wp_step; [done|]. match goal with E : negb (eqs (ti_partyId _) p) = false |- _ => apply negb_false_iff, bool_decide_eq_true in E; rename E into Hp end.
  wp_step. unfold settleIntent. wp_step. eapply wp_mono; [|by apply (wp_settle_steps (of_party p))]. intros [s|x] w2 H2; cbn; by etrans.
Qed.
End Refinement.

(** ** Rows that wait *)
(** The transaction a row waits for, if any. *)
Definition waits_line (l : creditLine_row) : option IntentKind :=
  if eqs (cl_status l) "pending_open" then Some credit_line_open else None.
Definition waits_pledge (p : pledge_row) : option IntentKind :=
  if eqs (pl_status p) "pending" then Some pledge_create
  else if eqs (pl_status p) "pending_release" then Some pledge_release else None.
Definition waits_trade (t : repoTrade_row) : option IntentKind :=
  if eqs (rt_status t) "proposed" && bool_decide (rt_contractTradeId t = None) then Some repo_propose else None.

(** A pending intent of that kind is about the row. *)
Definition tracked (d : Database) (k : IntentKind) (ref : string) : Prop :=
  exists i, In i (d txIntent) /\ kind_of (ti_kind i) = Some k /\ ti_refId i = Some ref /\ ti_status i = "pending".

(** Hashes are unique, and every row that waits is tracked. *)
Record Tracked (d : Database) : Prop := {
  tracked_hashes : NoDup (List.map ti_txHash (d txIntent));
  tracked_lines : forall l k, In l (d creditLine) -> waits_line l = Some k -> tracked d k (cl_id l);
  tracked_pledges : forall p k, In p (d pledge) -> waits_pledge p = Some k -> tracked d k (pl_id p);
  tracked_trades : forall t k, In t (d repoTrade) -> waits_trade t = Some k -> tracked d k (rt_id t) }.

(** The transaction of [intent] is the one the row waits for. *)
Definition awaited (intent : IntentRow) (k : IntentKind) (ref : string) : Prop :=
  kind_of (ti_kind intent) = Some k /\ ti_refId intent = Some ref.

(** Rows mapped by an update keep waiting only if it does not touch them. *)
Lemma still_waiting {A} (waits : A -> option IntentKind) (P : A -> bool) f (id : A -> string) l r' k :
  In r' (List.map (fun r => if P r then f r else r) l) -> waits r' = Some k ->
  (forall r, P r = true -> waits (f r) = Some k -> waits r = Some k /\ id (f r) = id r) ->
  exists r, In r l /\ id r = id r' /\ waits r = Some k /\ (P r = false \/ waits (f r) = Some k).
Proof.
  intros (r & <- & Hr)%in_map_iff Hw Hf. exists r. destruct (P r) eqn:E; [|auto].
  destruct (Hf r E Hw). auto.
Qed.

Lemma ref_is_not refId id : ref_is refId id = false -> refId <> Some id.
Proof. intros H ->. unfold ref_is in H. cbn in H. by rewrite eqs_refl in H. Qed.

(** What an effect leaves waiting did wait before, for something else. *)
Ltac effect_cases He :=
  lazymatch type of He with EffectOn _ _ ?v _ _ _ =>
    destruct v as [rv|]; cbn [EffectOn] in He; [unfold SuccessEffect in He|unfold FailureEffect in He];
    unfold awaited; destruct (kind_of _) as [[]|] end.

(** A table the effect leaves alone. *)
Ltac untouched He Hin :=
  let off H := rewrite H in Hin by (try done; cbn; intuition discriminate) in
  first [off He | let Hs := fresh "Hs" in destruct He as [Hs _]; off Hs];
  eexists; split; [exact Hin|]; split; [done|]; split; [done|]; intros [? _]; intuition congruence.

Lemma effect_lines intent v ledger d d' l' k :
  Effect intent v ledger d d' -> In l' (d' creditLine) -> waits_line l' = Some k ->
  exists l, In l (d creditLine) /\ cl_id l = cl_id l' /\ waits_line l = Some k /\ ~ awaited intent k (cl_id l).
Proof.
  intros He Hin Hw.
  assert (Hk : k = credit_line_open) by (unfold waits_line in Hw; destruct (eqs _ _); congruence). subst k.
  assert (Hmap : forall P f, rows_updated creditLine P f d d' -> (forall r, cl_id (f r) = cl_id r) -> (forall r, waits_line (f r) = None) ->
    exists l, In l (d creditLine) /\ cl_id l = cl_id l' /\ waits_line l = Some credit_line_open /\ P l = false).
  { intros P f Hu Hid Hf. unfold rows_updated in Hu. cbn [row] in *. rewrite Hu in Hin.
    destruct (still_waiting waits_line P f cl_id _ _ _ Hin Hw) as (l & ? & ? & ? & [?|Hx]);
      [intros r _ Hx; by rewrite Hf in Hx|by exists l|by rewrite Hf in Hx]. }
  effect_cases He; try (untouched He Hin).
  - destruct He as [_ Hu]. destruct (Hmap _ _ Hu) as (l & ? & ? & ? & ?%ref_is_not); [done|done|]. exists l. naive_solver.
  - destruct He as (_ & _ & now & Hu). destruct (Hmap _ _ Hu) as (l & ? & ? & ? & ?); [done|done|]. exists l. naive_solver.
  - destruct He as [_ Hu]. destruct (Hmap _ _ Hu) as (l & ? & ? & ? & ?%ref_is_not); [done|done|]. exists l. naive_solver.
Qed.

Lemma effect_pledges intent v ledger d d' p' k :
  Effect intent v ledger d d' -> In p' (d' pledge) -> waits_pledge p' = Some k ->
  exists p, In p (d pledge) /\ pl_id p = pl_id p' /\ waits_pledge p = Some k /\ ~ awaited intent k (pl_id p).
Proof.
  intros He Hin Hw.
  assert (Hk : k = pledge_create \/ k = pledge_release)
    by (unfold waits_pledge in Hw; destruct (eqs _ "pending"); [left; congruence|right; destruct (eqs _ _); congruence]).
  assert (Hmap : forall P f, rows_updated pledge P f d d' -> (forall r, pl_id (f r) = pl_id r) -> (forall r, waits_pledge (f r) = None) ->
    exists p, In p (d pledge) /\ pl_id p = pl_id p' /\ waits_pledge p = Some k /\ P p = false).
  { intros P f Hu Hid Hf. unfold rows_updated in Hu. cbn [row] in *. rewrite Hu in Hin.
    destruct (still_waiting waits_pledge P f pl_id _ _ _ Hin Hw) as (l & ? & ? & ? & [?|Hx]);
      [intros r _ Hx; by rewrite Hf in Hx|by exists l|by rewrite Hf in Hx]. }
  effect_cases He; try (untouched He Hin);
    destruct He as [_ Hu]; destruct (Hmap _ _ Hu) as (l & ? & ? & ? & ?%ref_is_not); try done; exists l; naive_solver.
Qed.

Lemma effect_trades intent v ledger d d' t' k :
  Effect intent v ledger d d' -> In t' (d' repoTrade) -> waits_trade t' = Some k ->
  exists t, In t (d repoTrade) /\ rt_id t = rt_id t' /\ waits_trade t = Some k /\ ~ awaited intent k (rt_id t).
Proof.
  intros He Hin Hw.
  assert (Hk : k = repo_propose) by (unfold waits_trade in Hw; destruct (_ && _); congruence). subst k.
  assert (Hmap : forall P f, rows_updated repoTrade P f d d' -> (forall r, rt_id (f r) = rt_id r) -> (forall r, waits_trade (f r) = Some repo_propose -> waits_trade r = Some repo_propose) ->
    exists t, In t (d repoTrade) /\ rt_id t = rt_id t' /\ waits_trade t = Some repo_propose /\ (P t = false \/ waits_trade (f t) = Some repo_propose)).
  { intros P f Hu Hid Hf. unfold rows_updated in Hu. cbn [row] in *. rewrite Hu in Hin.
    destruct (still_waiting waits_trade P f rt_id _ _ _ Hin Hw) as (l & ? & ? & ? & Hx); [intros r _ Hx; auto|by exists l]. }
  effect_cases He; try (untouched He Hin).
  all: first [destruct He as (_ & onChain & _ & (text & _ & Hu) & _) | destruct He as [_ Hu]].
  all: destruct (Hmap _ _ Hu) as (t & ? & ? & ? & Hx); [done|intros r Hr; unfold waits_trade in *; cbn in *; (done || (rewrite andb_false_r in Hr; done))|].
  all: exists t; split_and!; try done.
  all: intros [? ?]; try congruence.
  all: destruct Hx as [?%ref_is_not|Hx]; [congruence|]; unfold waits_trade in Hx; cbn in Hx; rewrite ?andb_false_r in Hx; done.
Qed.

Lemma hash_unique (l : list IntentRow) a b :
  NoDup (List.map ti_txHash l) -> In a l -> In b l -> ti_txHash a = ti_txHash b -> a = b.
Proof.
  induction l as [|c l IH]; simpl; [done|]. intros [Hn Hl]%NoDup_cons Ha Hb E. rewrite list_elem_of_In in Hn.
  destruct Ha as [->|Ha], Hb as [->|Hb]; [done| | |by apply IH]; destruct Hn; [rewrite E|rewrite <- E]; by apply in_map.
Qed.

(** An intent that is closed leaves the others tracking. *)
Lemma tracked_closed intent f (d d' : Database) k ref :
  NoDup (List.map ti_txHash (d txIntent)) -> on_record intent d ->
  rows_updated txIntent (is_pending (ti_txHash intent)) f d d' ->
  tracked d k ref -> ~ awaited intent k ref -> tracked d' k ref.
Proof.
  intros Hnd (r & Hr & Hh & Hk & Href & _) Hu (i & Hi & Hik & Hir & Hst) Hn.
  exists i. split; [|done]. unfold rows_updated in Hu. cbn [row] in *. rewrite Hu. apply in_map_iff. exists i. split; [|done].
  destruct (is_pending _ i) eqn:E; [|done]. exfalso. apply Hn. apply is_pending_hash in E.
  assert (i = r) as -> by (apply (hash_unique (d txIntent)); congruence). split; congruence.
Qed.

Lemma tracked_same (d d' : Database) k ref : d' txIntent = d txIntent -> tracked d k ref -> tracked d' k ref.
Proof. unfold tracked. by intros ->. Qed.

Lemma closed_Tracked intent v ledger f d d' :
  on_record intent d -> rows_updated txIntent (is_pending (ti_txHash intent)) f d d' ->
  (forall r, ti_txHash (f r) = ti_txHash r) -> Effect intent v ledger d d' -> Tracked d -> Tracked d'.
Proof.
  intros Hi Hu Hf He [Hnd Hl Hp Ht]. split.
  - destruct (intents_updated _ _ _ _ _ Hu (pending_intent _) Hf) as [-> _]. done.
  - intros l k Hin Hw. destruct (effect_lines _ _ _ _ _ _ _ He Hin Hw) as (l0 & Hin0 & <- & Hw0 & Hn).
    eapply tracked_closed; eauto.
  - intros p k Hin Hw. destruct (effect_pledges _ _ _ _ _ _ _ He Hin Hw) as (p0 & Hin0 & <- & Hw0 & Hn).
    eapply tracked_closed; eauto.
  - intros t k Hin Hw. destruct (effect_trades _ _ _ _ _ _ _ He Hin Hw) as (t0 & Hin0 & <- & Hw0 & Hn).
    eapply tracked_closed; eauto.
Qed.

Lemma Tracked_tables (d d' : Database) :
  NoDup (List.map ti_txHash (d' txIntent)) -> (forall k ref, tracked d k ref -> tracked d' k ref) ->
  d' creditLine = d creditLine -> d' pledge = d pledge -> d' repoTrade = d repoTrade -> Tracked d -> Tracked d'.
Proof.
  intros Hnd Hk El Ep Et [_ Hl Hp Ht]. split; [done|..].
  - intros l k. rewrite El. eauto.
  - intros p k. rewrite Ep. eauto.
  - intros t k. rewrite Et. eauto.
Qed.

Lemma book_step_Tracked mine d d' : book_step mine d d' -> Tracked d -> Tracked d'.
Proof.
  intros [Hs|intent v ledger _ Hi (_ & [now Hu] & He)|intent _ Hi (Hs & msg & Hu)|intent _ Hi ([now Hu] & He)] Hd.
  - apply (Tracked_tables d); try apply Hs; [rewrite (Hs txIntent); apply Hd| |done]. intros k ref. apply tracked_same, Hs.
  - exact (closed_Tracked _ _ _ _ _ _ Hi Hu (fun _ => eq_refl) He Hd).
  - destruct (intents_updated _ _ _ _ _ Hu (fun _ H => H) (fun _ => eq_refl)) as [Hk _].
    apply (Tracked_tables d); try (apply Hs; [done|tauto]); [rewrite Hk; apply Hd| |done].
    intros k ref (i & Hin & Hki & Hri & Hst). unfold rows_updated in Hu. unfold tracked. cbn [row] in *. rewrite Hu.
    exists (if is_intent (ti_txHash intent) i then set_intent_error msg i else i).
    split; [apply in_map_iff; by exists i|]. by destruct (is_intent _ _).
  - exact (closed_Tracked _ Rejected 0 _ _ _ Hi Hu (fun _ => eq_refl) He Hd).
Qed.

Lemma steps_Tracked mine d d' : steps mine d d' -> Tracked d -> Tracked d'.
Proof. induction 1; eauto using book_step_Tracked. Qed.

(** ** What a request adds *)
Section Asked.
Context `{ApiLib}.

Lemma recorded_Tracked clock partyId start d d' log i k pay c xdr h :
  deal clock partyId start d log i k pay c -> recorded partyId k pay c xdr h d d' -> Tracked d -> Tracked d'.
Proof.
  intros Hdeal (_ & Hfresh & ref & now & Hc & Hi) Hd. pose proof Hd as [Hnd Hl Hp Ht].
  assert (Hold : forall k ref, tracked d k ref -> tracked d' k ref).
  { intros k' ref' (i' & Hin & Hrest). exists i'. split; [rewrite Hi; apply in_or_app; by left|done]. }
  assert (Hnew : tracked d' k ref).
  { eexists. split; [rewrite Hi; apply in_or_app; right; by left|]. split; [apply kind_of_name|done]. }
  assert (Hnd' : NoDup (List.map ti_txHash (d' txIntent))).
  { rewrite Hi, List.map_app. apply NoDup_app. split; [done|]. split; [|by apply NoDup_singleton].
    intros h' Hh Hs. apply list_elem_of_In, in_map_iff in Hh as (i' & <- & Hin). apply list_elem_of_singleton in Hs.
    by apply (Hfresh i'). }
  assert (Htab : forall ts, same_but ts d d' -> forall t, t <> auditLog -> ~ In t ts -> d' t = d t) by (intros ts [Hs _]; exact Hs).
  inversion Hdeal; subst; cbn [changed] in Hc.
  all: try (destruct Hc as [-> Hs]; apply (Tracked_tables d); [done|done|by apply (Htab _ Hs); cbn; intuition discriminate..|done]).
  - destruct Hc as (r & Hr & <- & Er & Hs). split; [done|..].
    + intros l k'. rewrite Er. intros [Hin|[<-|[]]]%in_app_or Hw; [eauto|]. unfold waits_line in Hw.
      destruct (eqs _ _); [|done]. by injection Hw as <-.
    + intros p k'. rewrite (Htab _ Hs pledge) by (done || cbn; intuition discriminate). eauto.
    + intros t k'. rewrite (Htab _ Hs repoTrade) by (done || cbn; intuition discriminate). eauto.
  - destruct Hc as (r & Hr & <- & Er & Hs). split; [done|..].
    + intros l k'. rewrite (Htab _ Hs creditLine) by (done || cbn; intuition discriminate). eauto.
    + intros p k'. rewrite Er. intros [Hin|[<-|[]]]%in_app_or Hw; [eauto|]. destruct Hr as (_ & _ & _ & Hst).
      unfold waits_pledge in Hw. rewrite Hst in Hw. by injection Hw as <-.
    + intros t k'. rewrite (Htab _ Hs repoTrade) by (done || cbn; intuition discriminate). eauto.
  - destruct Hc as (-> & Hs & Er). split; [done|..].
    + intros l k'. rewrite (Htab _ Hs creditLine) by (done || cbn; intuition discriminate). eauto.
    + intros p' k'. rewrite Er. intros (p0 & <- & Hin)%in_map_iff. destruct (eqs (pl_id p0) (pl_id p)) eqn:E; [|eauto].
      apply bool_decide_eq_true in E. intros Hw. assert (Some pledge_release = Some k') as [= <-] by exact Hw. cbn. by rewrite E.
    + intros t k'. rewrite (Htab _ Hs repoTrade) by (done || cbn; intuition discriminate). eauto.
  - destruct Hc as (r & Hr & <- & Er & Hs). split; [done|..].
    + intros l k'. rewrite (Htab _ Hs creditLine) by (done || cbn; intuition discriminate). eauto.
    + intros p k'. rewrite (Htab _ Hs pledge) by (done || cbn; intuition discriminate). eauto.
    + intros t k'. rewrite Er. intros [Hin|[<-|[]]]%in_app_or Hw; [eauto|]. unfold waits_trade in Hw.
      destruct (_ && _); [|done]. by injection Hw as <-.
Qed.

Lemma unmoved_Tracked partyId d d' : unmoved partyId d d' -> Tracked d -> Tracked d'.
Proof.
  intros Hm Hd.
  assert (He : forall t, t <> auditLog -> t <> exitQuote -> d' t = d t).
  { destruct Hm as [[Hs _]|(q & _ & _ & _ & [Hs _] & _)]; intros t Ha Hq; apply Hs; auto; cbn; intuition congruence. }
  apply (Tracked_tables d); try (by apply He); [rewrite (He txIntent) by done; apply Hd| |done].
  intros k ref. apply tracked_same. by apply He.
Qed.
End Asked.

(** ** Intents and what they are about *)
(** What never changes of a row: its id and its parties. *)
Definition line_keys (d : Database) : list (string * string * string) :=
  List.map (fun l : creditLine_row => (cl_id l, cl_lenderId l, cl_borrowerId l)) (d creditLine).
Definition pledge_keys (d : Database) : list (string * string) :=
  List.map (fun p : pledge_row => (pl_id p, pl_creditLineId p)) (d pledge).
Definition quote_keys (d : Database) : list (string * string) :=
  List.map (fun q : exitQuote_row => (eq_id q, eq_holderId q)) (d exitQuote).
Definition trade_keys (d : Database) : list (string * string * string) :=
  List.map (fun t : repoTrade_row => (rt_id t, rt_cashLenderId t, rt_cashBorrowerId t)) (d repoTrade).

(** The subject of an intent: a row of the kind's table, and the party's in the role the kind needs. *)
Definition subject (d : Database) (k : IntentKind) (ref partyId : string) : Prop :=
  match k with
  | credit_line_open | credit_line_fund | credit_line_withdraw | credit_line_close_liquidated =>
      exists b, In (ref, partyId, b) (line_keys d)
  | credit_line_draw | credit_line_repay => exists l, In (ref, l, partyId) (line_keys d)
  | pledge_create | pledge_release => exists line l, In (ref, line) (pledge_keys d) /\ In (line, l, partyId) (line_keys d)
  | exit_execute => In (ref, partyId) (quote_keys d)
  | repo_propose => exists b, In (ref, partyId, b) (trade_keys d)
  | repo_accept | repo_top_up => exists l, In (ref, l, partyId) (trade_keys d)
  | repo_unwind => exists o, In (ref, partyId, o) (trade_keys d) \/ In (ref, o, partyId) (trade_keys d)
  end.

(** The amount a settlement of that kind reads from the intent. *)
Definition payload_typed (k : IntentKind) (intent : IntentRow) : Prop :=
  match k with
  | credit_line_draw | credit_line_repay | credit_line_fund | credit_line_withdraw =>
      exists n, BigInt_undefined (payload_get "amount" intent) = Ok n /\ 0 < n
  | repo_top_up => exists n, BigInt_undefined (payload_get "units" intent) = Ok n /\ 0 < n
  | _ => True
  end.

Definition typed_intent (d : Database) (i : IntentRow) : Prop :=
  exists k ref, kind_of (ti_kind i) = Some k /\ ti_refId i = Some ref /\ subject d k ref (ti_partyId i) /\ payload_typed k i.
Definition Typed (d : Database) : Prop := forall i, In i (d txIntent) -> typed_intent d i.

(** Rows are never dropped and keep their keys. *)
Record keys_kept (d d' : Database) : Prop := {
  kept_lines : incl (line_keys d) (line_keys d'); kept_pledges : incl (pledge_keys d) (pledge_keys d');
  kept_quotes : incl (quote_keys d) (quote_keys d'); kept_trades : incl (trade_keys d) (trade_keys d') }.

Lemma subject_kept d d' k ref p : keys_kept d d' -> subject d k ref p -> subject d' k ref p.
Proof. intros [Hl Hp Hq Ht]. destruct k; cbn; naive_solver. Qed.

Lemma typed_kept d d' i i' :
  keys_kept d d' -> ti_kind i' = ti_kind i -> ti_refId i' = ti_refId i -> ti_partyId i' = ti_partyId i ->
  ti_payload i' = ti_payload i -> typed_intent d i -> typed_intent d' i'.
Proof.
  intros Hk E1 E2 E3 E4 (k & ref & H1 & H2 & H3 & H4). exists k, ref. rewrite E1, E2, E3. split_and!; try done.
  - by eapply subject_kept.
  - unfold payload_typed, payload_get in *. by rewrite E4.
Qed.

Lemma map_keys {A B} (key : A -> B) (P : A -> bool) f l :
  (forall a, key (f a) = key a) -> List.map key (List.map (fun a => if P a then f a else a) l) = List.map key l.
Proof. intros Hf. rewrite List.map_map. apply map_ext. intros a. destruct (P a); [apply Hf|done]. Qed.

Lemma updated_Typed P f d d' :
  rows_updated txIntent P f d d' -> keys_kept d d' ->
  (forall r, ti_kind (f r) = ti_kind r /\ ti_refId (f r) = ti_refId r /\ ti_partyId (f r) = ti_partyId r /\ ti_payload (f r) = ti_payload r) ->
  Typed d -> Typed d'.
Proof.
  unfold rows_updated, Typed. cbn [row]. intros Hu Hk Hf Hd i. rewrite Hu. intros (i0 & <- & Hi)%in_map_iff.
  destruct (Hf i0) as (E1 & E2 & E3 & E4). by destruct (P i0); (eapply typed_kept; [exact Hk|..|by apply Hd]).
Qed.

(** Keys after a change that leaves the table alone, maps its rows, or adds one. *)
Lemma keys_kept_of d d' :
  line_keys d' = line_keys d -> pledge_keys d' = pledge_keys d -> quote_keys d' = quote_keys d -> trade_keys d' = trade_keys d ->
  keys_kept d d'.
Proof. intros E1 E2 E3 E4. split; rewrite ?E1, ?E2, ?E3, ?E4; apply incl_refl. Qed.

Lemma effect_keys intent v ledger d d' : Effect intent v ledger d d' -> keys_kept d d'.
Proof.
  intros He. apply keys_kept_of; unfold line_keys, pledge_keys, quote_keys, trade_keys; effect_cases He.
  all: unfold liquidation_closed, topped_up, rows_updated, row_added in He; cbn [row] in *.
  all: try (rewrite He by (try done; cbn; intuition discriminate); done).
  all: try (destruct He as [Hs _]; rewrite Hs by (try done; cbn; intuition discriminate); done).
  all: decompose [and ex] He; match goal with E : ?l = List.map _ _ |- context [?l] => rewrite E; by apply map_keys end.
Qed.

Lemma book_step_Typed mine d d' : book_step mine d d' -> Typed d -> Typed d'.
Proof.
  intros [Hs|intent v ledger _ Hi (_ & [now Hu] & He)|intent _ Hi (Hs & msg & Hu)|intent _ Hi ([now Hu] & He)].
  - intros Hd i Hin. rewrite (Hs txIntent) in Hin. eapply typed_kept; [|done..|by apply Hd].
    apply keys_kept_of; unfold line_keys, pledge_keys, quote_keys, trade_keys; by rewrite Hs.
  - eapply updated_Typed; [exact Hu|by eapply effect_keys|done].
  - eapply updated_Typed; [exact Hu| |done].
    apply keys_kept_of; unfold line_keys, pledge_keys, quote_keys, trade_keys; rewrite Hs; try done; tauto.
  - eapply updated_Typed; [exact Hu|exact (effect_keys intent Rejected 0 _ _ He)|done].
Qed.

Lemma steps_Typed mine d d' : steps mine d d' -> Typed d -> Typed d'.
Proof. induction 1; eauto using book_step_Typed. Qed.

(** ** Histories *)
Section History.
Context `{ApiLib}.

(** Rows added to a table of keys. *)
Lemma incl_snoc {A B} (key : A -> B) l l' (a : A) : l' = l ++ [a] -> incl (List.map key l) (List.map key l').
Proof. intros ->. rewrite List.map_app. apply incl_appl, incl_refl. Qed.

Lemma in_keys {A B} (key : A -> B) l (a : A) : In a l -> In (key a) (List.map key l).
Proof. apply in_map. Qed.

Lemma same_but_keys ts d d' :
  same_but ts d d' -> ~ In creditLine ts -> ~ In pledge ts -> ~ In exitQuote ts -> ~ In repoTrade ts -> keys_kept d d'.
Proof.
  intros [Hs _] H1 H2 H3 H4. apply keys_kept_of; unfold line_keys, pledge_keys, quote_keys, trade_keys; by rewrite Hs.
Qed.

Lemma changed_keys c ref d d' : changed c ref d d' -> keys_kept d d'.
Proof.
  destruct c; cbn [changed].
  - intros [_ Hs]. eapply same_but_keys; [exact Hs|cbn; intuition discriminate..].
  - intros (r & _ & _ & E & Hs & _). split; unfold line_keys, pledge_keys, quote_keys, trade_keys;
      [by eapply incl_snoc|rewrite Hs by (try done; cbn; intuition discriminate); apply incl_refl..].
  - intros (r & _ & _ & E & Hs & _). split; unfold line_keys, pledge_keys, quote_keys, trade_keys;
      [rewrite Hs by (try done; cbn; intuition discriminate); apply incl_refl|by eapply incl_snoc|rewrite Hs by (try done; cbn; intuition discriminate); apply incl_refl..].
  - intros (r & _ & _ & E & Hs & _). split; unfold line_keys, pledge_keys, quote_keys, trade_keys;
      [rewrite Hs by (try done; cbn; intuition discriminate); apply incl_refl..|by eapply incl_snoc].
  - intros (_ & [Hs _] & E). apply keys_kept_of; unfold line_keys, pledge_keys, quote_keys, trade_keys;
      try (by rewrite Hs by (try done; cbn; intuition discriminate)). rewrite E. by apply map_keys.
Qed.

Lemma keys_in_line (l : creditLine_row) (d : Database) : In l (d creditLine) -> In (cl_id l, cl_lenderId l, cl_borrowerId l) (line_keys d).
Proof. apply (in_keys (fun l => (cl_id l, cl_lenderId l, cl_borrowerId l))). Qed.

Lemma keys_in_trade (t : repoTrade_row) (d : Database) : In t (d repoTrade) -> In (rt_id t, rt_cashLenderId t, rt_cashBorrowerId t) (trade_keys d).
Proof. apply (in_keys (fun t => (rt_id t, rt_cashLenderId t, rt_cashBorrowerId t))). Qed.

(** The deal an intent was recorded for types it. *)
Lemma deal_typed clock partyId start d d' log i k pay c xdr h :
  deal clock partyId start d log i k pay c -> recorded partyId k pay c xdr h d d' ->
  forall i', In i' (d' txIntent) -> In i' (d txIntent) \/ typed_intent d' i'.
Proof.
  intros Hdeal (_ & _ & ref & now & Hc & Hi) i' Hin. rewrite Hi in Hin. apply in_app_or in Hin as [Hin|[<-|[]]]; [by left|right].
  exists k, ref. split; [apply kind_of_name|]. split; [done|]. pose proof (changed_keys _ _ _ _ Hc) as Hk.
  assert (Hamount : forall n, 0 < n -> BigInt_undefined (Some (Z_to_string n)) = Ok n /\ 0 < n).
  { intros n Hn. split; [apply BigInt_Z_to_string; lia|done]. }
  assert (Hline : forall line r n, callers_line partyId d line r n -> In (cl_id line, cl_lenderId line, cl_borrowerId line) (line_keys d')).
  { intros line r n (Hl & _). apply (kept_lines _ _ Hk). by apply keys_in_line. }
  inversion Hdeal; subst; cbn [changed ti_partyId subject payload_typed] in *.
  all: try match goal with Hl : callers_line _ _ ?line _ _, Hc : _ = cl_id ?line /\ _ |- _ =>
    destruct Hc as [-> _]; pose proof (Hline _ _ _ Hl) as Hkey; destruct Hl as (_ & _ & Ep);
    first [apply lender_is in Ep | apply borrower_is in Ep]; rewrite Ep in Hkey;
    split; [eexists; exact Hkey|]; try done; eexists; by apply Hamount end.
  - destruct Hc as (r & (El & _) & <- & E & _). split; [|done]. exists (cl_borrowerId r). rewrite <- El. apply keys_in_line. rewrite E. apply in_or_app. right. by left.
  - match goal with Hl : callers_line _ _ ?line borrower _ |- _ => pose proof (Hline _ _ _ Hl) as Hkey; destruct Hl as (_ & _ & Eb%borrower_is); rewrite Eb in Hkey end.
    destruct Hc as (r & (El & _) & <- & E & _). split; [|done]. exists (pl_creditLineId r), (cl_lenderId line). split.
    + unfold pledge_keys. rewrite E. apply (in_keys (fun p => (pl_id p, pl_creditLineId p))). apply in_or_app. right. by left.
    + by rewrite El.
  - match goal with Hl : callers_line _ _ ?line borrower _ |- _ => pose proof (Hline _ _ _ Hl) as Hkey; destruct Hl as (_ & _ & Eb%borrower_is); rewrite Eb in Hkey end.
    destruct Hc as [-> _]. split; [|done]. exists (cl_id line), (cl_lenderId line). split.
    + apply (kept_pledges _ _ Hk). match goal with Hp : pl_creditLineId _ = cl_id line |- _ => rewrite <- Hp end.
      by apply (in_keys (fun p => (pl_id p, pl_creditLineId p))).
    + done.
  - destruct Hc as [-> _]. split; [|done]. apply (kept_quotes _ _ Hk). by apply (in_keys (fun q => (eq_id q, eq_holderId q))).
  - destruct Hc as (r & (El & _) & <- & E & _). split; [|done]. exists (rt_cashBorrowerId r). rewrite <- El. apply keys_in_trade. rewrite E. apply in_or_app. right. by left.
  - destruct Hc as [-> _]. split; [|done]. eexists. apply (kept_trades _ _ Hk). by apply keys_in_trade.
  - destruct Hc as [-> _]. split; [|done].
    match goal with Hp : _ \/ _ |- _ => destruct Hp as [<-|<-] end; eexists; [right|left]; apply (kept_trades _ _ Hk); by apply keys_in_trade.
  - destruct Hc as [-> _]. split; [eexists; apply (kept_trades _ _ Hk); by apply keys_in_trade|]. eexists. by apply Hamount.
Qed.

(** What happens to the books, one thing after the other: a request of a party, an envelope submitted,
    a settlement asked for, a sweep; each against its own network, database and clock. *)
Inductive Event :=
| Asked (e : env ApiCall) (partyId : string) (r : Request)
| Submitted (e : env IntentCall) (partyId signedXdr : string)
| SettlementAsked (e : env IntentCall) (partyId hash : string)
| Swept (e : env IntentCall) (now : Z).

Definition happens (d : Database) (ev : Event) : Database :=
  match ev with
  | Asked e p r => w_db (snd (run e (route p r) (World d 0 [])))
  | Submitted e p xdr => w_db (snd (run e (submit_route chain_txHash p xdr) (World d 0 [])))
  | SettlementAsked e p h => w_db (snd (run e (settle_route p h) (World d 0 [])))
  | Swept e now => w_db (snd (run e (sweepPendingIntents now) (World d 0 [])))
  end.
Definition history (evs : list Event) (d : Database) : Database := List.fold_left happens evs d.

Lemma run_steps {A} (e : env IntentCall) (p : intent_prog A) d :
  (exists mine, forall w, wp any_answer p (fun _ w' => steps mine (w_db w) (w_db w')) w) -> steps anyones d (w_db (snd (run e p (World d 0 [])))).
Proof.
  intros [mine Hw]. pose proof (wp_sound any_answer e _ _ _ (any_answer_respects e) (Hw (World d 0 []))) as H1.
  destruct (run e p _). by eapply steps_anyones.
Qed.

(** What an event does: the steps of a settlement, a refusal, or a deal recorded. *)
Lemma happens_is ev d (I : Database -> Prop) :
  (forall d', steps anyones d d' -> I d') -> (forall p d', unmoved p d d' -> I d') ->
  (forall clock p start d' log i k pay c xdr h, deal clock p start d log i k pay c -> recorded p k pay c xdr h d d' -> I d') ->
  I (happens d ev).
Proof.
  intros Hs Hu Hr. destruct ev as [e p r|e p xdr|e p h|e now]; cbn [happens].
  - pose proof (wp_sound _ e _ _ _ (stamped_by_respects e) (wp_route e p (World d 0 []) r)) as Hw.
    destruct (run e _ _) as [res w]. destruct Hw as (l & _ & [(_ & _ & Hm)|(log1 & i & built & k & pay & c & _ & _ & Hd & Hx)]); cbn in *; [by eapply Hu|].
    destruct res as [reply|x].
    + destruct Hx as (xdr & h & _ & _ & Hx). by eapply Hr.
    + destruct Hx as [Hx|(xdr & h & _ & Hx)]; [apply (Hu p); by left|by eapply Hr].
  - apply Hs, run_steps. eexists. intros w. apply wp_submit_steps.
  - apply Hs, run_steps. eexists. intros w. apply wp_settle_route_steps.
  - apply Hs, run_steps. eexists. intros w. apply wp_sweep_steps.
Qed.

Lemma history_keeps (I : Database -> Prop) evs d :
  (forall d ev, I d -> I (happens d ev)) -> I d -> I (history evs d).
Proof. intros Hi. revert d. induction evs as [|ev evs IH]; intros d Hd; [done|]. apply IH. by apply Hi. Qed.

(** C21. Nothing waits for a transaction nobody tracks.  From books whose intents have distinct hashes
    and whose waiting rows are each the subject of a pending intent of the right kind, any sequence of
    requests, submissions, settlements and sweeps, with any answers of the network and any database
    fault, lost acknowledgements included, ends in such books: a line being opened, a pledge being
    made or released and a trade being proposed always have their transaction on record, pending, so
    that a settlement or a sweep decides it. *)
Theorem nothing_waits_untracked evs d (Hd : Tracked d) : Tracked (history evs d).
Proof.
  apply history_keeps; [|done]. intros d1 ev H1. apply happens_is.
  - intros d' Hs. by eapply steps_Tracked.
  - intros p d' Hu. by eapply unmoved_Tracked.
  - intros. by eapply recorded_Tracked.
Qed.

(** C37. Intents are well typed, and stay so: in any such history every intent on file has a kind the
    settlement knows, names a row that exists in that kind's table and belongs to the intent's party
    in the role the kind needs (its lender, borrower or holder), and carries the positive amount, in
    digits, that its kind's settlement reads. *)
Theorem intents_stay_typed evs d (Hd : Typed d) : Typed (history evs d).
Proof.
  apply history_keeps; [|done]. intros d1 ev H1. apply happens_is.
  - intros d' Hs. by eapply steps_Typed.
  - intros p d' [Hs|(q & _ & _ & _ & [Hs _] & E)] i Hin.
    + rewrite (proj1 Hs txIntent) in Hin by (try done; cbn; intuition discriminate).
      eapply typed_kept; [eapply same_but_keys; [exact Hs|cbn; tauto..]|done..|by apply H1].
    + rewrite (Hs txIntent) in Hin by (try done; cbn; intuition discriminate). eapply typed_kept; [|done..|by apply H1].
      apply keys_kept_of; unfold line_keys, pledge_keys, quote_keys, trade_keys; try (by rewrite Hs by (try done; cbn; intuition discriminate)).
      rewrite E. by apply map_keys.
  - intros clock p start d' log i k pay c xdr h Hdeal Hrec i' Hin. destruct (deal_typed _ _ _ _ _ _ _ _ _ _ _ _ Hdeal Hrec i' Hin) as [Hold|]; [|done].
    destruct Hrec as (_ & _ & ref & now & Hc & _). eapply typed_kept; [by eapply changed_keys|done..|by apply H1].
Qed.
End History.

(** ** A concrete history *)
#[local] Existing Instance Sample.lib.
Definition network (X : Type) (n : nat) (c : IntentCall X) : outcome X :=
  match c in IntentCall X return outcome X with
  | ChainOutcome _ => Ok (TxSuccess 12 None)
  | ChainSend _ => Ok "hash of xdr"
  | _ => Err (Error "none")
  end.
Definition network_env : env IntentCall := Env network (fun _ => NoFault) (stamps Sample.environment).

(** A lender opens a line and the transaction is submitted and lands. *)
Definition opening : Request :=
  OpenLineR (JObj [("lenderId", JStr "lender"); ("borrowerId", JStr "borrower"); ("loanCcy", JStr "USDC"); ("limit", JStr "1000000000");
    ("rateBps", JNum 500); ("cureWindowS", JNum 86400); ("asset", JStr "CA"); ("agreementHash", JStr "00ff")]).
Definition opened : list Event := [Asked Sample.environment "lender" opening].
Definition landed : list Event := opened ++ [Submitted network_env "lender" "xdr"].

Lemma sample_history :
  List.map cl_status (history opened Sample.books creditLine) = ["open"; "pending_open"] /\
  List.map ti_status (history opened Sample.books txIntent) = ["pending"] /\
  List.map cl_status (history landed Sample.books creditLine) = ["open"; "open"] /\
  List.map ti_status (history landed Sample.books txIntent) = ["settled"].
Proof. vm_compute. auto. Qed.

Lemma nothing_waits_untracked_witness : Tracked Sample.books /\ Tracked (history landed Sample.books).
Proof.
  assert (Hd : Tracked Sample.books).
  { split; [apply NoDup_nil_2| | |]; intros x k Hin Hw; vm_compute in Hin; intuition; subst; vm_compute in Hw; discriminate. }
  split; [exact Hd|]. apply (nothing_waits_untracked landed Sample.books Hd).
Defined.

Lemma intents_stay_typed_witness : Typed Sample.books /\ Typed (history landed Sample.books).
Proof.
  assert (Hd : Typed Sample.books) by (intros i Hin; vm_compute in Hin; done).
  split; [exact Hd|]. apply (intents_stay_typed landed Sample.books Hd).
Defined.
