(* ===== verification/AccountRoutes.v ===== *)
(** The routes that log a party in and manage its API keys and webhook subscriptions: [auth.ts],
    [dev-auth.ts], [api-keys.ts], [webhooks.ts] and [parties.ts] of [services/api/src/routes], with
    [signSessionToken] and the key material of [apiKeys.ts].  Bodies are validated as the schemas
    say; the issues listed in a 400 are left out. *)
From S2P Require Import Prelude Prog Settings Schema Rules Api Webhooks ApiKeys.

(** ** Outside the routes *)
(** The sealing half of [secretBox.ts] (its cipher is Node's), the random bytes that come with a fresh
    draw, as hexadecimal text, the JSON web tokens of jsonwebtoken, and the SDK's checks of accounts and of SEP-10 challenges: the account
    a challenge was built for, and whether that account signed it. *)
Record ChallengeArgs := Challenge { ch_transaction : string; ch_serverKey : string; ch_passphrase : string; ch_homeDomain : string; ch_webAuthDomain : string }.

Class AccountLib := {
  seal : string -> string -> string -> string;
  random_hex : nat -> string -> string;
  jwt_sign : string -> string -> list (string * string) -> string;
  isValidEd25519PublicKey : string -> bool;
  keypair_of : string -> outcome string;
  buildChallengeTx : string -> string -> string -> Z -> string -> string -> stamp -> string;
  readChallengeTx : ChallengeArgs -> stamp -> outcome string;
  verifyChallengeTxSigners : ChallengeArgs -> list string -> stamp -> outcome unit }.

Notation account_prog := webhook_prog.
Notation account_world := webhook_world.

(** Who the authentication hook found the request to come from. *)
Record Caller := Caller_of { ca_partyId : string; ca_stellarAccount : string; ca_authMethod : string }.

(** The configuration the routes are registered with, and whether the process runs in production. *)
Record AccountConfig := AConfig { ac_config :> ApiConfig; ac_production : bool }.

(** A reply without a body. *)
Definition no_content : HttpReply := HReply 204 JNull.
Definition refuse (code : Z) (msg : string) : account_prog HttpReply := Ret (HReply code (error_body msg)).
Definition opt_time (t : option Z) : jsval := match t with Some t => JNum t | None => JNull end.

(** *** secretBox.ts *)
Definition isValidSecretKey (keyHex : string) : bool := KEY_HEX keyHex.

Section Accounts.
Context `{ApiLib, NodeLib, AuthLib, AccountLib}.

Definition encryptSecret (plaintext keyHex iv : string) : outcome string :=
  if isValidSecretKey keyHex then Ok (seal plaintext keyHex iv)
  else Err (Error "WEBHOOK_SECRET_KEY must be 32 bytes as 64 hex characters").

Definition randomBytes (n : nat) : account_prog string := s <- sample ;; Ret (random_hex n (st_uuid s)).

(** *** apiKeys.ts *)
Definition newKeyId : account_prog string := hex <- randomBytes 16 ;; Ret ("bk_" +:+ hex).
Definition newKeySecret : account_prog string := randomBytes 32.

(** *** session-token.ts *)
Definition SESSION_TTL : string := "12h".
Definition signSessionToken (stellarAccount secret : string) : account_prog string :=
  s <- sample ;;
  Ret (jwt_sign secret stellarAccount [("algorithm", SESSION_ALGORITHM); ("issuer", SESSION_ISSUER); ("audience", SESSION_AUDIENCE);
    ("jwtid", st_uuid s); ("expiresIn", SESSION_TTL)]).

(** ** routes/auth.ts *)
Definition CHALLENGE_TIMEOUT_S : Z := 300.
Definition challengeSchema (b : jsval) : outcome string := field "account" (z_check isValidEd25519PublicKey) b.
Definition tokenSchema (b : jsval) : outcome string := field "transaction" (z_check (fun s => negb (eqs s ""))) b.

Definition loadServerKeypair (config : AccountConfig) : outcome string :=
  if eqs (sep10ServerSecret config) "" then Err (Error "SEP10_SERVER_SECRET is not configured")
  else keypair_of (sep10ServerSecret config).

Definition challenge_route (config : AccountConfig) (body : jsval) : account_prog HttpReply :=
  match challengeSchema body with
  | Err _ => refuse 400 "invalid account"
  | Ok account =>
      match loadServerKeypair config with
      | Err _ => refuse 500 "SEP-10 server keypair not configured"
      | Ok serverKey =>
          s <- sample ;;
          Ret (HReply 200 (JObj [("transaction", JStr (buildChallengeTx serverKey account (sep10HomeDomain config) CHALLENGE_TIMEOUT_S
            (networkPassphrase config) (sep10WebAuthDomain config) s))]))
      end
  end.

Definition challenge_args (config : AccountConfig) (serverKey transaction : string) : ChallengeArgs :=
  Challenge transaction serverKey (networkPassphrase config) (sep10HomeDomain config) (sep10WebAuthDomain config).

(** The reply to an account that has proved itself. *)
Definition log_in (config : AccountConfig) (stellarAccount : string) : account_prog HttpReply :=
  account <- select_one partyAccount (fun a => eqs (pc_stellarAccount a) stellarAccount) ;;
  match account with
  | None => refuse 404 "stellar account not linked to a known party"
  | Some account =>
      token <- signSessionToken stellarAccount (jwtSigningSecret config) ;;
      Ret (HReply 200 (JObj [("token", JStr token); ("partyId", JStr (pc_partyId account))]))
  end.

Definition token_route (config : AccountConfig) (body : jsval) : account_prog HttpReply :=
  match tokenSchema body with
  | Err _ => refuse 400 "invalid transaction"
  | Ok transaction =>
      match loadServerKeypair config with
      | Err _ => refuse 500 "SEP-10 server keypair not configured"
      | Ok serverKey =>
          let args := challenge_args config serverKey transaction in
          s <- sample ;;
          match parsed <-? readChallengeTx args s ;; signed <-? verifyChallengeTxSigners args [parsed] s ;; Ok parsed with
          | Err _ => refuse 401 "invalid, expired, or unsigned challenge transaction"
          | Ok clientAccountID => log_in config clientAccountID
          end
      end
  end.

(** *** routes/dev-auth.ts: [parse] throws on a bad body *)
Definition devLoginSchema (b : jsval) : outcome string := field "stellarAccount" (z_check (fun s => negb (eqs s ""))) b.
Definition dev_login_route (config : AccountConfig) (body : jsval) : account_prog HttpReply :=
  stellarAccount <- lift (devLoginSchema body) ;; log_in config stellarAccount.

(** ** routes/api-keys.ts *)
Definition MAX_ACTIVE_KEYS_PER_PARTY : nat := 10.

Definition z_label : decoder string := fun v =>
  s <-? z_string v ;; let s := trim s in
  if (1 <=? slen s)%nat && (slen s <=? 80)%nat then Ok s else Err (ZodError "invalid string").
Definition createKeySchema (b : jsval) : outcome (option string) := field "label" (optional z_label) b.

(** [request.body ?? {}]. *)
Definition body_or_empty (body : option jsval) : jsval :=
  match body with None | Some JNull => JObj [] | Some b => b end.

Definition is_session (caller : Caller) : bool := eqs (ca_authMethod caller) "session".
Definition sessionOnly (caller : Caller) (route : account_prog HttpReply) : account_prog HttpReply :=
  if is_session caller then route else refuse 403 "API keys are managed with a session, not with an API key".

Definition api_key_row (caller : Caller) (keyId ciphertext : string) (label : option string) (s : stamp) : partyApiKey_row :=
  PartyApiKey (st_uuid s) (ca_partyId caller) (ca_stellarAccount caller) keyId ciphertext label "active" (st_now s) None None.

Definition audit_key (caller : Caller) (action keyId : string) : account_prog unit :=
  stmt (insert auditLog (fun s => AuditLog (st_uuid s) (ca_stellarAccount caller) action
    (JObj [("keyId", JStr keyId); ("partyId", JStr (ca_partyId caller))]) None (st_now s))).

Definition active_key (k : partyApiKey_row) : bool := eqs (ak_status k) "active".
Definition own_key (caller : Caller) (k : partyApiKey_row) : bool := eqs (ak_partyId k) (ca_partyId caller).

Definition create_key_route (config : AccountConfig) (caller : Caller) (body : option jsval) : account_prog HttpReply :=
  sessionOnly caller (
    if negb (isValidSecretKey (apiKeySecretKey config)) then refuse 503 "API keys are not configured on this deployment"
    else match createKeySchema (body_or_empty body) with
    | Err _ => refuse 400 "invalid request"
    | Ok label =>
        mine <- stmt (select partyApiKey (own_key caller)) ;;
        if (MAX_ACTIVE_KEYS_PER_PARTY <=? List.length (List.filter active_key mine))%nat
        then refuse 409 "at most 10 active API keys per party"
        else
          keyId <- newKeyId ;;
          secret <- newKeySecret ;;
          iv <- randomBytes 12 ;;
          ciphertext <- lift (encryptSecret secret (apiKeySecretKey config) iv) ;;
          stmt (insert partyApiKey (api_key_row caller keyId ciphertext label)) ;;;
          audit_key caller "api_key.create" keyId ;;;
          Ret (HReply 201 (JObj [("keyId", JStr keyId); ("secret", JStr secret); ("label", opt_text label)]))
    end).

Definition key_json (k : partyApiKey_row) : jsval :=
  JObj [("keyId", JStr (ak_keyId k)); ("label", opt_text (ak_label k)); ("status", JStr (ak_status k)); ("createdAt", JNum (ak_createdAt k));
        ("lastUsedAt", opt_time (ak_lastUsedAt k)); ("revokedAt", opt_time (ak_revokedAt k))].

Definition list_keys_route (caller : Caller) : account_prog HttpReply :=
  sessionOnly caller (
    rows <- stmt (select partyApiKey (own_key caller)) ;;
    Ret (HReply 200 (JObj [("keys", JArr (List.map key_json rows))]))).

Definition revoke (s : stamp) (k : partyApiKey_row) : partyApiKey_row :=
  PartyApiKey (ak_id k) (ak_partyId k) (ak_stellarAccount k) (ak_keyId k) (ak_secretCiphertext k) (ak_label k) "revoked"
    (ak_createdAt k) (ak_lastUsedAt k) (Some (st_now s)).

Definition revoke_key_route (caller : Caller) (keyId : string) : account_prog HttpReply :=
  sessionOnly caller (
    key <- select_one partyApiKey (fun k => eqs (ak_keyId k) keyId && own_key caller k) ;;
    match key with
    | None => refuse 404 "api key not found"
    | Some key =>
        stmt (update partyApiKey (fun k => eqs (ak_id k) (ak_id key)) revoke) ;;;
        audit_key caller "api_key.revoke" (ak_keyId key) ;;;
        Ret no_content
    end).

(** ** routes/webhooks.ts *)
Definition MAX_SUBSCRIPTIONS_PER_PARTY : nat := 10.

(** [domain-types/src/webhook.ts] *)
Definition DELIVERABLE_WEBHOOK_EVENTS : list string :=
  ["price.status_changed"; "margin.state_changed"; "margin.call_issued"; "margin.cured"; "liquidation.started";
   "liquidation.completed"; "exit.filled"; "repo.leg1_settled"].

Definition z_array {A} (d : decoder A) : decoder (list A) := fun v =>
  match v with Some (JArr l) => omap_list (fun x => d (Some x)) l | _ => Err (ZodError "expected array") end.

Definition createSubscriptionSchema (b : jsval) : outcome (string * list string) :=
  url <-? field "url" (z_check (fun s => (1 <=? slen s)%nat && (slen s <=? 2048)%nat)) b ;;
  events <-? field "events" (z_array (z_enum DELIVERABLE_WEBHOOK_EVENTS)) b ;;
  match events with [] => Err (ZodError "too few events") | _ => Ok (url, events) end.

Definition webhook_events_route : account_prog HttpReply :=
  Ret (HReply 200 (JObj [("events", JArr (List.map JStr DELIVERABLE_WEBHOOK_EVENTS))])).

Definition own_subscription (caller : Caller) (s : webhookSubscription_row) : bool := eqs (ws_partyId s) (ca_partyId caller).

Definition subscription_row (caller : Caller) (url ciphertext : string) (events : list string) (s : stamp) : webhookSubscription_row :=
  WebhookSubscription (st_uuid s) (ca_partyId caller) url (JArr (List.map JStr (dedup [] events))) ciphertext true (st_now s).

(** [body] is [None] when there is none. *)
Definition create_subscription_route (config : AccountConfig) (caller : Caller) (body : option jsval) : account_prog HttpReply :=
  if negb (isValidSecretKey (webhookSecretKey config)) then refuse 503 "webhooks are not configured on this deployment"
  else match match body with Some b => createSubscriptionSchema b | None => Err (ZodError "expected object") end with
  | Err _ => refuse 400 "invalid request"
  | Ok (url, events) =>
      checked <- attempt (assertSafeWebhookUrl url (negb (ac_production config))) ;;
      match checked with
      | Err err => if eqs (exn_class err) "UnsafeWebhookUrlError" then refuse 400 (exn_message err) else Throw err
      | Ok _ =>
          mine <- stmt (select webhookSubscription (own_subscription caller)) ;;
          if (MAX_SUBSCRIPTIONS_PER_PARTY <=? List.length (List.filter ws_active mine))%nat
          then refuse 409 "at most 10 active subscriptions per party"
          else
            secret <- randomBytes 32 ;;
            iv <- randomBytes 12 ;;
            ciphertext <- lift (encryptSecret secret (webhookSecretKey config) iv) ;;
            sub <- stmt (insert_returning webhookSubscription (subscription_row caller url ciphertext events)) ;;
            Ret (HReply 201 (JObj [("id", JStr (ws_id sub)); ("url", JStr (ws_url sub)); ("events", ws_events sub); ("secret", JStr secret)]))
      end
  end.

Definition subscription_json (s : webhookSubscription_row) : jsval :=
  JObj [("id", JStr (ws_id s)); ("url", JStr (ws_url s)); ("events", ws_events s); ("createdAt", JNum (ws_createdAt s))].

Definition list_subscriptions_route (caller : Caller) : account_prog HttpReply :=
  rows <- stmt (select webhookSubscription (own_subscription caller)) ;;
  Ret (HReply 200 (JObj [("subscriptions", JArr (List.map subscription_json (List.filter ws_active rows)))])).

(** A row by an id of the URL: Postgres refuses an id that is no UUID. *)
Definition by_uuid (t : table) (id : string) (P : row t -> bool) : account_prog (option (row t)) :=
  if pg_uuid id then select_one t P else Throw (PostgresError ("invalid input syntax for type uuid: " +:+ id)).

Definition find_own_subscription (caller : Caller) (id : string) : account_prog (option webhookSubscription_row) :=
  by_uuid webhookSubscription id (fun s => eqs (ws_id s) id && own_subscription caller s).

Definition deactivate (s : webhookSubscription_row) : webhookSubscription_row :=
  WebhookSubscription (ws_id s) (ws_partyId s) (ws_url s) (ws_events s) (ws_secretCiphertext s) false (ws_createdAt s).

Definition delete_subscription_route (caller : Caller) (id : string) : account_prog HttpReply :=
  sub <- find_own_subscription caller id ;;
  match sub with
  | None => refuse 404 "subscription not found"
  | Some sub => stmt (update webhookSubscription (fun s => eqs (ws_id s) (ws_id sub)) (fun _ => deactivate)) ;;; Ret no_content
  end.

Definition delivery_json (d : webhookDelivery_row) : jsval :=
  JObj [("id", JStr (wd_id d)); ("event", JStr (wd_event d)); ("status", JStr (wd_status d)); ("attempts", JNum (wd_attempts d));
        ("lastError", opt_text (wd_lastError d)); ("createdAt", JNum (wd_createdAt d)); ("deliveredAt", opt_time (wd_deliveredAt d))].

Definition list_deliveries_route (caller : Caller) (id : string) : account_prog HttpReply :=
  sub <- find_own_subscription caller id ;;
  match sub with
  | None => refuse 404 "subscription not found"
  | Some sub =>
      rows <- stmt (select webhookDelivery (fun d => eqs (wd_subscriptionId d) (ws_id sub))) ;;
      Ret (HReply 200 (JObj [("deliveries", JArr (List.map delivery_json (take 50 (order_desc wd_createdAt rows))))]))
  end.

Definition requeue (s : stamp) (d : webhookDelivery_row) : webhookDelivery_row :=
  WebhookDelivery (wd_id d) (wd_subscriptionId d) (wd_eventKey d) (wd_event d) (wd_payload d) "pending" 0 (st_now s) None
    (wd_createdAt d) (wd_deliveredAt d).

Definition redeliver_route (caller : Caller) (id : string) : account_prog HttpReply :=
  delivery <- by_uuid webhookDelivery id (fun d => eqs (wd_id d) id) ;;
  sub <- match delivery with
         | Some d => select_one webhookSubscription (fun s => eqs (ws_id s) (wd_subscriptionId d))
         | None => Ret None
         end ;;
  match delivery, sub with
  | Some d, Some sub =>
      if negb (own_subscription caller sub) then refuse 404 "delivery not found"
      else if negb (eqs (wd_status d) "dead") then refuse 409 ("delivery is " +:+ wd_status d)
      else
        stmt (update webhookDelivery (fun d' => eqs (wd_id d') (wd_id d)) requeue) ;;;
        Ret (HReply 202 (JObj [("id", JStr (wd_id d)); ("status", JStr "pending")]))
  | _, _ => refuse 404 "delivery not found"
  end.

(** ** routes/parties.ts *)
Definition party_by_account_route (account : string) : account_prog HttpReply :=
  if negb (isValidEd25519PublicKey account) then refuse 400 "invalid Stellar account (G...)"
  else
    link <- select_one partyAccount (fun a => eqs (pc_stellarAccount a) account) ;;
    match link with
    | None => refuse 404 "no onboarded party for that account"
    | Some link =>
        party <- select_one party (fun p => eqs (pa_id p) (pc_partyId link)) ;;
        Ret (HReply 200 (JObj [("partyId", JStr (pc_partyId link)); ("stellarAccount", JStr account);
          ("kind", JStr match party with Some p => pa_kind p | None => pc_role link end);
          ("legalName", match party with Some p => JStr (pa_legalName p) | None => JNull end)]))
    end.

(** ** The requests of an authenticated party, and what it is answered *)
Inductive AccountRequest :=
| CreateKey (body : option jsval) | ListKeys | RevokeKey (keyId : string)
| WebhookEvents | CreateSubscription (body : option jsval) | ListSubscriptions | DeleteSubscription (id : string)
| ListDeliveries (id : string) | Redeliver (id : string)
| PartyByAccount (account : string).

Definition account_route (config : AccountConfig) (caller : Caller) (req : AccountRequest) : account_prog HttpReply :=
  match req with
  | CreateKey body => create_key_route config caller body
  | ListKeys => list_keys_route caller
  | RevokeKey keyId => revoke_key_route caller keyId
  | WebhookEvents => webhook_events_route
  | CreateSubscription body => create_subscription_route config caller body
  | ListSubscriptions => list_subscriptions_route caller
  | DeleteSubscription id => delete_subscription_route caller id
  | ListDeliveries id => list_deliveries_route caller id
  | Redeliver id => redeliver_route caller id
  | PartyByAccount account => party_by_account_route account
  end.

Definition serve_account (config : AccountConfig) (caller : Caller) (req : AccountRequest) : account_prog HttpReply :=
  catch (account_route config caller req) (fun err => Ret (error_reply err)).
End Accounts.
