(* ===== verification/AccountSafety.v ===== *)
(** What the account routes do: each request is one of a few changes to the caller's own keys,
    subscriptions and deliveries; a key works from its creation to its revocation and never after;
    what a party is shown depends on its own rows only. *)
From S2P Require Import Prelude Prog Settings Schema Rules Api Webhooks ApiKeys AccountRoutes.

Section Effects.
Context `{ApiLib, NodeLib, AuthLib, AccountLib} (config : AccountConfig) (caller : Caller).
Notation world := account_world.
Notation Adm := any_answer.
Implicit Types (d : Database) (w : world).

(** ** What a request may change *)
Definition active_keys (l : list partyApiKey_row) : list partyApiKey_row := List.filter active_key (List.filter (own_key caller) l).
Definition active_subscriptions (l : list webhookSubscription_row) : list webhookSubscription_row :=
  List.filter ws_active (List.filter (own_subscription caller) l).

(** An audit in the caller's name, if it was written. *)
Definition audited d d' : Prop :=
  d' = d \/ exists r, al_actor r = ca_stellarAccount caller /\ d' = set_table auditLog (d auditLog ++ [r]) d.

Definition created_key d (keyId secret iv : string) (label : option string) (s : stamp) : Database :=
  set_table partyApiKey (d partyApiKey ++ [api_key_row caller keyId (seal secret (apiKeySecretKey config) iv) label s]) d.
Definition revoked_key d (key : partyApiKey_row) (s : stamp) : Database :=
  set_table partyApiKey (List.map (fun k => if eqs (ak_id k) (ak_id key) then revoke s k else k) (d partyApiKey)) d.

Inductive account_effect : AccountRequest -> Database -> Database -> Prop :=
| E_none req d : account_effect req d d
| E_create body keyId secret iv label s d d' :
    is_session caller = true -> isValidSecretKey (apiKeySecretKey config) = true ->
    (List.length (active_keys (d partyApiKey)) < MAX_ACTIVE_KEYS_PER_PARTY)%nat ->
    conflicts partyApiKey (api_key_row caller keyId (seal secret (apiKeySecretKey config) iv) label s) d = false ->
    audited (created_key d keyId secret iv label s) d' -> account_effect (CreateKey body) d d'
| E_revoke key s d d' :
    is_session caller = true -> In key (d partyApiKey) -> own_key caller key = true ->
    audited (revoked_key d key s) d' -> account_effect (RevokeKey (ak_keyId key)) d d'
| E_subscribe body url ciphertext events s d :
    (List.length (active_subscriptions (d webhookSubscription)) < MAX_SUBSCRIPTIONS_PER_PARTY)%nat ->
    conflicts webhookSubscription (subscription_row caller url ciphertext events s) d = false ->
    account_effect (CreateSubscription body) d
      (set_table webhookSubscription (d webhookSubscription ++ [subscription_row caller url ciphertext events s]) d)
| E_unsubscribe sub d :
    In sub (d webhookSubscription) -> own_subscription caller sub = true ->
    account_effect (DeleteSubscription (ws_id sub)) d
      (set_table webhookSubscription (List.map (fun s => if eqs (ws_id s) (ws_id sub) then deactivate s else s) (d webhookSubscription)) d)
| E_requeue dl sub s d :
    In dl (d webhookDelivery) -> In sub (d webhookSubscription) -> ws_id sub = wd_subscriptionId dl ->
    own_subscription caller sub = true -> wd_status dl = "dead" ->
    account_effect (Redeliver (wd_id dl)) d
      (set_table webhookDelivery (List.map (fun x => if eqs (wd_id x) (wd_id dl) then requeue s x else x) (d webhookDelivery)) d).

(** What some replies promise. *)
Definition told (req : AccountRequest) (reply : HttpReply) d d' : Prop :=
  match req with
  | CreateKey _ => rp_code reply = 201 -> exists keyId secret iv label s,
      rp_body reply = JObj [("keyId", JStr keyId); ("secret", JStr secret); ("label", opt_text label)] /\
      isValidSecretKey (apiKeySecretKey config) = true /\
      conflicts partyApiKey (api_key_row caller keyId (seal secret (apiKeySecretKey config) iv) label s) d = false /\
      d' partyApiKey = created_key d keyId secret iv label s partyApiKey
  | RevokeKey keyId => rp_code reply = 204 -> exists key s,
      In key (d partyApiKey) /\ ak_keyId key = keyId /\ own_key caller key = true /\ d' partyApiKey = revoked_key d key s partyApiKey
  | _ => True
  end.

Definition account_post (req : AccountRequest) d (r : outcome HttpReply) w' : Prop :=
  account_effect req d (w_db w') /\ match r with Ok reply => told req reply d (w_db w') | Err _ => True end.

Lemma post_none req d r w' : w_db w' = d ->
  match r with Ok reply => rp_code reply <> 201 /\ rp_code reply <> 204 | Err _ => True end -> account_post req d r w'.
Proof. intros <- Hr. split; [constructor|]. destruct r as [reply|x]; [|done]. destruct Hr, req; cbn; tauto. Qed.

(** A request that only looks. *)
Lemma post_read req d r w' : w_db w' = d -> match req with CreateKey _ | RevokeKey _ => False | _ => True end -> account_post req d r w'.
Proof. intros <- Hr. split; [constructor|]. destruct r; [|done]. by destruct req. Qed.

Lemma wp_audit_key action keyId d (Q : outcome unit -> world -> Prop) w :
  w_db w = d -> (forall r w', audited d (w_db w') -> Q r w') -> wp Adm (audit_key caller action keyId) Q w.
Proof.
  intros <- HQ. unfold audit_key. wp_step; [intros x; apply HQ; by left|]. intros s _ _ _.
  split; [|intros x]; apply HQ; right; eexists; (split; [|reflexivity]); done.
Qed.

Lemma wp_session req route d w : w_db w = d -> (is_session caller = true -> wp Adm route (account_post req d) w) ->
  wp Adm (sessionOnly caller route) (account_post req d) w.
Proof. intros Hd Hr. unfold sessionOnly. destruct (is_session caller); [by apply Hr|]. by apply post_none. Qed.

Lemma wp_random {A} n (k : string -> account_prog A) (Q : outcome A -> world -> Prop) w :
  (forall hex, wp Adm (k hex) Q (tick w)) -> wp Adm (hex <- randomBytes n ;; k hex) Q w.
Proof. intros Hk. unfold randomBytes. do 3 wp_step. cbn [wp]. apply Hk. Qed.

Lemma wp_create_key body w : wp Adm (create_key_route config caller body) (account_post (CreateKey body) (w_db w)) w.
Proof.
  unfold create_key_route. apply wp_session; [done|]. intros Hs. wp_step; [by apply post_none|]. apply negb_false_iff in E.
  wp_step; [|by apply post_none]. wp_step. wp_step; [intros x; by apply post_none|]. cbn [row]. wp_step; [by apply post_none|].
  apply Nat.leb_gt in E1. rename a into label. unfold newKeyId, newKeySecret. wp_step. apply wp_random. intros hex. wp_step.
  set (keyId := "bk_" +:+ hex). apply wp_random. intros secret. apply wp_random. intros iv.
  unfold encryptSecret. rewrite E. wp_step. wp_step. wp_step. wp_step; [intros x; by apply post_none|].
  cbn [row]. intros s _ Hc _. set (w1 := after _ _).
  assert (Heff : forall d', audited (w_db w1) d' -> account_effect (CreateKey body) (w_db w) d').
  { intros d' Hd'. by apply (E_create body keyId secret iv label s). }
  split; [|intros x; split; [apply Heff; by left|done]].
  wp_step. apply (wp_audit_key _ _ (w_db w1)); [done|]. intros r w2 Haud. destruct r as [[]|x]; [|split; [by apply Heff|done]].
  wp_step. split; [by apply Heff|]. intros _. exists keyId, secret, iv, label, s. do 3 (split; [done|]).
  destruct Haud as [-> |(r & _ & ->)]; [done|by rewrite set_table_other].
Qed.

Lemma wp_revoke_key keyId w : wp Adm (revoke_key_route caller keyId) (account_post (RevokeKey keyId) (w_db w)) w.
Proof.
  unfold revoke_key_route. apply wp_session; [done|]. intros Hs. unfold select_one. wp_step. wp_step. wp_step; [intros x; by apply post_none|].
  wp_step. cbn [row]. destruct (hd_error _) as [key|] eqn:Ek; [|by apply post_none].
  apply head_filter_In in Ek as [Hin [Hk Hown]%andb_true_iff]. apply bool_decide_eq_true in Hk as <-.
  wp_step. wp_step; [intros x; by apply post_none|]. cbn [row]. intros s. set (w1 := after _ _).
  assert (Heff : forall d', audited (w_db w1) d' -> account_effect (RevokeKey (ak_keyId key)) (w_db w) d').
  { intros d' Hd'. by apply (E_revoke key s). }
  split; [|intros x; split; [apply Heff; by left|done]].
  wp_step. apply (wp_audit_key _ _ (w_db w1)); [done|]. intros r w2 Haud. destruct r as [[]|x]; [|split; [by apply Heff|done]].
  wp_step. split; [by apply Heff|]. intros _. exists key, s. do 3 (split; [done|]).
  destruct Haud as [-> |(r & _ & ->)]; [done|by rewrite set_table_other].
Qed.

Lemma wp_list_keys w : wp Adm (list_keys_route caller) (account_post ListKeys (w_db w)) w.
Proof.
  unfold list_keys_route. apply wp_session; [done|]. intros _. wp_step. wp_step; [intros x; by apply post_read|]. wp_step. by apply post_read.
Qed.

(** The URL check looks outside and leaves the database alone. *)
Lemma wp_url_check raw allowHttp (Q : outcome URL -> world -> Prop) w :
  (forall r w', w_db w' = w_db w -> Q r w') -> wp Adm (assertSafeWebhookUrl raw allowHttp) Q w.
Proof.
  intros HQ. assert (Hthrow : forall w' x, w_db w' = w_db w -> wp Adm (Throw x) Q w') by (intros; by apply HQ).
  unfold assertSafeWebhookUrl. destruct (new_URL raw) as [url|]; [|by apply Hthrow].
  destruct (negb _ && negb _); [by apply Hthrow|]. destruct (_ || _); [by apply Hthrow|]. cbv zeta.
  destruct (_ || _); [by apply Hthrow|]. wp_step.
  assert (Hrest : forall addresses w', w_db w' = w_db w -> wp Adm (if bool_decide (addresses = []) then Throw (UnsafeWebhookUrlError "webhook host does not resolve")
    else if existsb isPrivateAddress addresses then Throw (UnsafeWebhookUrlError "webhook URL resolves to a private or reserved address") else Ret url) Q w').
  { intros addresses w' Hd. case_bool_decide; [by apply Hthrow|]. destruct (existsb _ _); [by apply Hthrow|]. by apply HQ. }
  destruct (negb _); [by apply Hrest|]. wp_step. wp_step. destruct r as [addresses|x]; by apply Hrest.
Qed.

Lemma wp_create_subscription body w : wp Adm (create_subscription_route config caller body) (account_post (CreateSubscription body) (w_db w)) w.
Proof.
  unfold create_subscription_route. wp_step; [by apply post_read|].
  destruct (match body with Some b => createSubscriptionSchema b | None => _ end) as [[url events]|x]; [|by apply post_read].
  wp_step. wp_step. apply wp_url_check. intros r w1 Hd. destruct r as [u|x].
  2: { destruct (eqs _ _); by apply post_read. }
  wp_step. wp_step; [intros x; by apply post_read|]. cbn [row]. rewrite Hd. wp_step; [by apply post_read|].
  apply Nat.leb_gt in E0. apply wp_random. intros secret. apply wp_random. intros iv. apply negb_false_iff in E.
  unfold encryptSecret. rewrite E. wp_step. wp_step. wp_step. wp_step; [intros x; by apply post_read|].
  cbn [row]. intros s _ Hc _. world_simpl. rewrite Hd in *.
  assert (Heff : account_effect (CreateSubscription body) (w_db w) (set_table webhookSubscription (w_db w webhookSubscription ++
    [subscription_row caller url (seal secret (webhookSecretKey config) iv) events s]) (w_db w))) by (by apply E_subscribe).
  split; [wp_step|intros x]; (split; [exact Heff|done]).
Qed.

Lemma wp_list_subscriptions w : wp Adm (list_subscriptions_route caller) (account_post ListSubscriptions (w_db w)) w.
Proof. unfold list_subscriptions_route. wp_step. wp_step; [intros x; by apply post_read|]. wp_step. by apply post_read. Qed.

(** A row found by its id in the URL, or an exception; nothing changes. *)
Lemma wp_by_uuid t id P (k : option (row t) -> account_prog HttpReply) (Q : outcome HttpReply -> world -> Prop) w :
  (forall x w', w_db w' = w_db w -> Q (Err x) w') ->
  (forall o w', w_db w' = w_db w -> (forall r, o = Some r -> In r (w_db w t) /\ P r = true) -> wp Adm (k o) Q w') ->
  wp Adm (o <- by_uuid t id P ;; k o) Q w.
Proof.
  intros Herr Hk. unfold by_uuid. wp_step. destruct (pg_uuid id); [|by apply Herr].
  unfold select_one. wp_step. wp_step; [intros x; by apply Herr|]. wp_step. apply Hk; [done|]. intros r Hr. by apply head_filter_In in Hr.
Qed.

Lemma wp_delete_subscription id w : wp Adm (delete_subscription_route caller id) (account_post (DeleteSubscription id) (w_db w)) w.
Proof.
  unfold delete_subscription_route, find_own_subscription. apply (wp_by_uuid webhookSubscription id); [intros x w' Hd; by apply post_read|].
  intros [sub|] w1 Hd Hsub; [|by apply post_read]. destruct (Hsub sub eq_refl) as [Hin [Hid Hown]%andb_true_iff].
  apply bool_decide_eq_true in Hid as <-. wp_step. wp_step; [intros x; by apply post_read|]. cbn [row]. intros s. world_simpl. rewrite Hd in *.
  assert (Heff := E_unsubscribe sub (w_db w) Hin Hown).
  split; [wp_step|intros x]; (split; [exact Heff|done]).
Qed.

Lemma wp_list_deliveries id w : wp Adm (list_deliveries_route caller id) (account_post (ListDeliveries id) (w_db w)) w.
Proof.
  unfold list_deliveries_route, find_own_subscription. apply (wp_by_uuid webhookSubscription id); [intros x w' Hd; by apply post_read|].
  intros [sub|] w1 Hd Hsub; [|by apply post_read]. wp_step. wp_step; [intros x; by apply post_read|]. wp_step. by apply post_read.
Qed.

Lemma wp_redeliver id w : wp Adm (redeliver_route caller id) (account_post (Redeliver id) (w_db w)) w.
Proof.
  unfold redeliver_route. apply (wp_by_uuid webhookDelivery id); [intros x w' Hd; by apply post_read|].
  intros [dl|] w1 Hd Hdl; [|wp_step; wp_step; by apply post_read]. destruct (Hdl dl eq_refl) as [Hin Hid]. apply bool_decide_eq_true in Hid as <-.
  wp_step. unfold select_one. wp_step. wp_step; [intros x; by apply post_read|]. wp_step. cbn [row].
  destruct (hd_error _) as [sub|] eqn:Es; [|by apply post_read]. apply head_filter_In in Es as [Hs Hsid]. apply bool_decide_eq_true in Hsid.
  wp_step; [by apply post_read|]. wp_step; [by apply post_read|]. apply negb_false_iff in E, E0. apply bool_decide_eq_true in E0.
  wp_step. wp_step; [intros x; by apply post_read|]. cbn [row]. intros s. world_simpl. rewrite Hd in *.
  assert (Heff := E_requeue dl sub s (w_db w) Hin Hs Hsid E E0).
  split; [wp_step|intros x]; (split; [exact Heff|done]).
Qed.

Lemma wp_party_by_account account w : wp Adm (party_by_account_route account) (account_post (PartyByAccount account) (w_db w)) w.
Proof.
  unfold party_by_account_route. wp_step; [by apply post_read|]. unfold select_one. wp_step. wp_step. wp_step; [intros x; by apply post_read|].
  wp_step. destruct (hd_error _) as [link|]; [|by apply post_read]. wp_step. wp_step. wp_step; [intros x; by apply post_read|].
  wp_step. by apply post_read.
Qed.

Lemma wp_account_route req w : wp Adm (account_route config caller req) (account_post req (w_db w)) w.
Proof.
  destruct req; cbn [account_route];
    auto using wp_create_key, wp_list_keys, wp_revoke_key, wp_create_subscription, wp_list_subscriptions, wp_delete_subscription,
      wp_list_deliveries, wp_redeliver, wp_party_by_account.
  by apply post_read.
Qed.

Lemma error_reply_code err : rp_code (error_reply err) <> 201 /\ rp_code (error_reply err) <> 204.
Proof. unfold error_reply, error_reply_of. repeat case_match; done. Qed.

Lemma wp_serve_account req w : wp Adm (serve_account config caller req) (fun r w' => is_ok r /\ account_post req (w_db w) r w') w.
Proof.
  unfold serve_account. wp_step. eapply wp_mono; [|apply wp_account_route]. intros [reply|x] w' [He Ht]; [done|].
  wp_step. split; [done|]. split; [done|]. destruct (error_reply_code x), req; cbn; tauto.
Qed.
End Effects.

(** ** Isolation *)
(** The primary keys of the tables the routes change hold, as Postgres enforces them. *)
Record keyed (d : Database) : Prop := Keyed {
  kd_keys : NoDup (List.map ak_id (d partyApiKey));
  kd_keyIds : NoDup (List.map ak_keyId (d partyApiKey));
  kd_subs : NoDup (List.map ws_id (d webhookSubscription));
  kd_deliveries : NoDup (List.map wd_id (d webhookDelivery)) }.

Lemma map_kept {A B} (g : A -> B) (P : A -> bool) f l :
  (forall r, g (f r) = g r) -> List.map g (List.map (fun r => if P r then f r else r) l) = List.map g l.
Proof. intros Hg. rewrite List.map_map. apply List.map_ext. intros r. destruct (P r); auto. Qed.

Lemma filter_outside {A} (N P : A -> bool) (f : A -> A) l :
  (forall r, In r l -> P r = true -> N r = false /\ N (f r) = false) ->
  List.filter N (List.map (fun r => if P r then f r else r) l) = List.filter N l.
Proof.
  induction l as [|r l IH]; intros HP; [done|]. cbn. rewrite IH by (intros; apply HP; [by right|done]).
  destruct (P r) eqn:E; [|done]. by destruct (HP r (or_introl eq_refl) E) as [-> ->].
Qed.

Lemma filter_shrinks {A} (N P : A -> bool) (f : A -> A) l :
  (forall r, P r = true -> N (f r) = true -> N r = true) ->
  (List.length (List.filter N (List.map (fun r => if P r then f r else r) l)) <= List.length (List.filter N l))%nat.
Proof.
  intros HN. induction l as [|r l IH]; [done|]. cbn. destruct (P r) eqn:E.
  - destruct (N (f r)) eqn:Ef; [rewrite (HN r E Ef); cbn; lia|]. destruct (N r); cbn; lia.
  - destruct (N r); cbn; lia.
Qed.

Section Isolation.
Context `{ApiLib, NodeLib, AuthLib, AccountLib} (config : AccountConfig) (caller : Caller).
Implicit Types (d : Database).

Definition own_delivery d (dl : webhookDelivery_row) : bool :=
  existsb (fun s => own_subscription caller s && eqs (ws_id s) (wd_subscriptionId dl)) (d webhookSubscription).

Record isolated (d d' : Database) : Prop := Isolated {
  io_others : forall t, t <> partyApiKey -> t <> auditLog -> t <> webhookSubscription -> t <> webhookDelivery -> d' t = d t;
  io_keys : List.filter (fun k => negb (own_key caller k)) (d' partyApiKey) = List.filter (fun k => negb (own_key caller k)) (d partyApiKey);
  io_subs : List.filter (fun s => negb (own_subscription caller s)) (d' webhookSubscription) =
            List.filter (fun s => negb (own_subscription caller s)) (d webhookSubscription);
  io_deliveries : List.filter (fun dl => negb (own_delivery d dl)) (d' webhookDelivery) =
                  List.filter (fun dl => negb (own_delivery d dl)) (d webhookDelivery);
  io_audit : exists rows, d' auditLog = d auditLog ++ rows /\ Forall (fun r => al_actor r = ca_stellarAccount caller) rows;
  io_session : is_session caller = false -> d' partyApiKey = d partyApiKey;
  io_key_bound : (List.length (active_keys caller (d' partyApiKey)) <= Nat.max MAX_ACTIVE_KEYS_PER_PARTY (List.length (active_keys caller (d partyApiKey))))%nat;
  io_sub_bound : (List.length (active_subscriptions caller (d' webhookSubscription)) <=
     Nat.max MAX_SUBSCRIPTIONS_PER_PARTY (List.length (active_subscriptions caller (d webhookSubscription))))%nat;
  io_keyed : keyed d' }.

Lemma isolated_refl d : keyed d -> isolated d d.
Proof. intros Hk. split; try done; [by exists []; rewrite app_nil_r|lia|lia]. Qed.

(** An audit afterwards changes none of it. *)
Lemma isolated_audited d d1 d' : d1 auditLog = d auditLog -> isolated d d1 -> audited caller d1 d' -> isolated d d'.
Proof.
  intros Ha Hi [->|(r & Hr & ->)]; [done|]. destruct Hi as [Ho Hk Hs Hd Hau Hse Hkb Hsb [K1 K2 K3 K4]].
  split; [| | | | | | | |split]; db_simpl; try done.
  - intros t H1' H2' H3' H4'. rewrite set_table_other by done. auto.
  - exists [r]. rewrite Ha. split; [done|]. by apply Forall_singleton.
Qed.

Lemma NoDup_snoc_map {A} (g : A -> string) l r : NoDup (List.map g l) -> (forall r', In r' l -> g r' <> g r) -> NoDup (List.map g (l ++ [r])).
Proof.
  intros Hl Hr. rewrite List.map_app. apply NoDup_app. split; [done|]. split; [|apply NoDup_singleton].
  intros x Hx ->%list_elem_of_singleton. apply list_elem_of_In, in_map_iff in Hx as (r' & E & Hin). by apply (Hr r').
Qed.

Lemma conflict_free t (r : row t) d r' : conflicts t r d = false -> In r' (d t) -> conflict t r r' = false.
Proof. intros Hc Hin. apply not_true_iff_false. intros E. apply not_true_iff_false in Hc. apply Hc, existsb_exists. eauto. Qed.

Lemma isolated_effect req d d' : keyed d -> account_effect config caller req d d' -> isolated d d'.
Proof.
  intros Hkd Heff. pose proof Hkd as [K1 K2 K3 K4].
  destruct Heff as [req d|body keyId secret iv label s d d' Hs Hv Hn Hc Ha|key s d d' Hs Hin Hown Ha|body url cipher events s d Hn Hc|sub d Hin Hown|dl sub s d Hdl Hsub Hid Hown Hst].
  - by apply isolated_refl.
  - eapply isolated_audited; [|clear Ha d'|exact Ha]; [unfold created_key; by rewrite set_table_other|].
    set (r := api_key_row _ _ _ _ _) in *.
    assert (Hnew : forall r', In r' (d partyApiKey) -> ak_id r' <> ak_id r /\ ak_keyId r' <> ak_keyId r).
    { intros r' Hr'. pose proof (conflict_free partyApiKey r d r' Hc Hr') as E. cbn in E. apply orb_false_iff in E as [E1 E2].
      apply bool_decide_eq_false in E1, E2. split; by intros E. }
    assert (Hown : own_key caller r = true) by (by apply bool_decide_eq_true).
    unfold created_key. fold r. split; [| | | | | | | |split]; db_simpl; try done.
    + intros t ? ? ? ?. by rewrite set_table_other.
    + rewrite List.filter_app. cbn. rewrite Hown. cbn. by rewrite app_nil_r.
    + exists []. by rewrite app_nil_r.
    + by rewrite Hs.
    + unfold active_keys in *. rewrite !List.filter_app. cbn. rewrite Hown. cbn. change (active_key r) with true.
      rewrite length_app. cbn. unfold MAX_ACTIVE_KEYS_PER_PARTY in *. lia.
    + lia.
    + apply NoDup_snoc_map; [done|]. intros r' Hr'. by apply Hnew.
    + apply NoDup_snoc_map; [done|]. intros r' Hr'. by apply Hnew.
  - eapply isolated_audited; [|clear Ha d'|exact Ha]; [unfold revoked_key; by rewrite set_table_other|].
    unfold revoked_key. split; [| | | | | | | |split]; db_simpl; try done.
    + intros t ? ? ? ?. by rewrite set_table_other.
    + apply filter_outside. intros r Hr E. apply bool_decide_eq_true in E.
      rewrite (NoDup_map_eq ak_id _ r key K1 Hr Hin E). change (own_key caller (revoke s key)) with (own_key caller key). by rewrite Hown.
    + exists []. by rewrite app_nil_r.
    + by rewrite Hs.
    + unfold active_keys. rewrite !filter_filter. etrans; [apply filter_shrinks|lia].
      intros r _. unfold active_key. cbn. by rewrite andb_false_r.
    + lia.
    + by rewrite map_kept.
    + by rewrite map_kept.
  - set (r := subscription_row _ _ _ _ _) in *.
    assert (Hnew : forall r', In r' (d webhookSubscription) -> ws_id r' <> ws_id r).
    { intros r' Hr'. pose proof (conflict_free webhookSubscription r d r' Hc Hr') as E. cbn in E. apply bool_decide_eq_false in E. by intros E'. }
    assert (Hown : own_subscription caller r = true) by (by apply bool_decide_eq_true).
    split; [| | | | | | | |split]; db_simpl; try done.
    + intros t ? ? ? ?. by rewrite set_table_other.
    + rewrite List.filter_app. cbn. rewrite Hown. cbn. by rewrite app_nil_r.
    + exists []. by rewrite app_nil_r.
    + lia.
    + unfold active_subscriptions in *. rewrite !List.filter_app. cbn. rewrite Hown. cbn. rewrite length_app. cbn.
      unfold MAX_SUBSCRIPTIONS_PER_PARTY in *. lia.
    + by apply NoDup_snoc_map.
  - split; [| | | | | | | |split]; db_simpl; try done.
    + intros t ? ? ? ?. by rewrite set_table_other.
    + apply filter_outside. intros r Hr E. apply bool_decide_eq_true in E.
      rewrite (NoDup_map_eq ws_id _ r sub K3 Hr Hin E). change (own_subscription caller (deactivate sub)) with (own_subscription caller sub). by rewrite Hown.
    + exists []. by rewrite app_nil_r.
    + lia.
    + unfold active_subscriptions. rewrite !filter_filter. etrans; [apply filter_shrinks|lia].
      intros r _. cbn. by rewrite andb_false_r.
    + by rewrite map_kept.
  - split; [| | | | | | | |split]; db_simpl; try done.
    + intros t ? ? ? ?. by rewrite set_table_other.
    + apply filter_outside. intros r Hr E. apply bool_decide_eq_true in E. rewrite (NoDup_map_eq wd_id _ r dl K4 Hr Hdl E).
      assert (own_delivery d dl = true) as Eo.
      { apply existsb_exists. exists sub. split; [done|]. rewrite Hown. by apply bool_decide_eq_true. }
      change (own_delivery d (requeue s dl)) with (own_delivery d dl). by rewrite Eo.
    + exists []. by rewrite app_nil_r.
    + lia.
    + lia.
    + by rewrite map_kept.
Qed.
End Isolation.
