(* ===== verification/AccountView.v ===== *)
(** What a party is answered depends on its own keys, subscriptions and deliveries and on the party
    registry, never on another party's. *)
From S2P Require Import Prelude Prog Settings Schema Rules Api Webhooks ApiKeys Views AccountRoutes AccountSafety.

Section View.
Context `{ApiLib, NodeLib, AuthLib, AccountLib} (config : AccountConfig) (caller : Caller) (e : env WebhookCall).
Notation world := account_world.
Implicit Types (d : Database) (w : world).

Record same_view d1 d2 : Prop := View {
  sv_party : d1 party = d2 party;
  sv_accounts : d1 partyAccount = d2 partyAccount;
  sv_keys : List.filter (own_key caller) (d1 partyApiKey) = List.filter (own_key caller) (d2 partyApiKey);
  sv_subs : List.filter (own_subscription caller) (d1 webhookSubscription) = List.filter (own_subscription caller) (d2 webhookSubscription);
  sv_deliveries : List.filter (own_delivery caller d1) (d1 webhookDelivery) = List.filter (own_delivery caller d2) (d2 webhookDelivery) }.

(** The ids the environment draws are new. *)
Definition fresh_draws d : Prop := forall n,
  let id := st_uuid (stamps e n) in
  (forall r, In r (d partyApiKey) -> ak_id r <> id /\ ak_keyId r <> "bk_" +:+ random_hex 16 id) /\
  (forall r, In r (d webhookSubscription) -> ws_id r <> id) /\ (forall r, In r (d auditLog) -> al_id r <> id).

Hypothesis calm : forall n, db_fault e n = NoFault.

Local Notation alike := (alike e).
Local Notation alike_stmt := (alike_stmt e calm).
Local Notation run_stmt_calm := (run_stmt_calm e calm).

Lemma alike_draw n (k : string -> account_prog HttpReply) w1 w2 :
  w_tick w1 = w_tick w2 ->
  (forall m w1' w2', w_tick w1' = w_tick w2' -> w_db w1' = w_db w1 -> w_db w2' = w_db w2 ->
     alike (k (random_hex n (st_uuid (stamps e m)))) (k (random_hex n (st_uuid (stamps e m)))) w1' w2') ->
  alike (hex <- randomBytes n ;; k hex) (hex <- randomBytes n ;; k hex) w1 w2.
Proof. intros Ht Hk. unfold alike. cbn. rewrite <- Ht. apply Hk; cbn; congruence. Qed.

(** An insertion that conflicts with nothing. *)
Lemma alike_insert t mk (k : unit -> account_prog HttpReply) w1 w2 :
  w_tick w1 = w_tick w2 -> (forall s, in_range t (mk s) = true) ->
  (forall s, references_ok (w_db w1) t (mk s) = references_ok (w_db w2) t (mk s)) ->
  (forall n, conflicts t (mk (stamps e n)) (w_db w1) = false /\ conflicts t (mk (stamps e n)) (w_db w2) = false) ->
  (forall w1' w2', w_tick w1' = w_tick w2' -> (forall t', t' <> t -> w_db w1' t' = w_db w1 t' /\ w_db w2' t' = w_db w2 t') ->
     alike (k tt) (k tt) w1' w2') ->
  alike (stmt (insert t mk) ;;; k tt) (stmt (insert t mk) ;;; k tt) w1 w2.
Proof.
  intros Ht Hr Hf Hc Hk. apply (alike_stmt _ (fun _ => k tt)); [done|]. unfold insert. destruct (Hc (w_tick w1)) as [-> ->].
  rewrite Hr, Hf. cbn [negb]. destruct (references_ok (w_db w2) t _); [|done]. cbn. apply Hk; [cbn; congruence|].
  intros t' Hne. cbn. by rewrite !set_table_other.
Qed.

Lemma alike_update t P f (k : account_prog HttpReply) w1 w2 :
  w_tick w1 = w_tick w2 -> (forall s r, in_range t (f s r) = true) ->
  (forall w1' w2', w_tick w1' = w_tick w2' -> (forall t', t' <> t -> w_db w1' t' = w_db w1 t' /\ w_db w2' t' = w_db w2 t') ->
     alike k k w1' w2') ->
  alike (stmt (update t P f) ;;; k) (stmt (update t P f) ;;; k) w1 w2.
Proof.
  intros Ht Hr Hk. apply (alike_stmt _ (fun _ => k)); [done|]. unfold update.
  assert (Hall : forall s l, forallb (in_range t) (List.map (f s) l) = true).
  { intros s l. apply forallb_forall. intros r (r0 & <- & _)%in_map_iff. apply Hr. }
  rewrite !Hall. cbn. apply Hk; [cbn; congruence|]. intros t' Hne. cbn. by rewrite !set_table_other.
Qed.

Lemma alike_session p w1 w2 : alike p p w1 w2 -> alike (sessionOnly caller p) (sessionOnly caller p) w1 w2.
Proof. unfold sessionOnly. by destruct (is_session caller). Qed.

Lemma alike_keyId (k : string -> account_prog HttpReply) w1 w2 :
  w_tick w1 = w_tick w2 ->
  (forall m w1' w2', w_tick w1' = w_tick w2' -> w_db w1' = w_db w1 -> w_db w2' = w_db w2 ->
     let keyId := "bk_" +:+ random_hex 16 (st_uuid (stamps e m)) in alike (k keyId) (k keyId) w1' w2') ->
  alike (keyId <- newKeyId ;; k keyId) (keyId <- newKeyId ;; k keyId) w1 w2.
Proof. intros Ht Hk. unfold alike. cbn. rewrite <- Ht. apply Hk; cbn; congruence. Qed.

Lemma no_conflict t (r : row t) d : (forall r', In r' (d t) -> conflict t r r' = false) -> conflicts t r d = false.
Proof. intros Hc. apply not_true_iff_false. intros (r' & Hin & E)%existsb_exists. by rewrite Hc in E. Qed.

Lemma alike_audit action keyId (k : account_prog HttpReply) w1 w2 d1 d2 :
  w_tick w1 = w_tick w2 -> fresh_draws d1 -> fresh_draws d2 -> w_db w1 auditLog = d1 auditLog -> w_db w2 auditLog = d2 auditLog ->
  (forall w1' w2', alike k k w1' w2') ->
  alike (audit_key caller action keyId ;;; k) (audit_key caller action keyId ;;; k) w1 w2.
Proof.
  intros Ht F1 F2 E1 E2 Hk. apply (alike_insert auditLog _ (fun _ => k)); try done.
  - intros n. split; apply no_conflict; cbn; intros r' Hr'; apply bool_decide_eq_false; intros E.
    + rewrite E1 in Hr'. by destruct (F1 n) as (_ & _ & F); destruct (F r' Hr').
    + rewrite E2 in Hr'. by destruct (F2 n) as (_ & _ & F); destruct (F r' Hr').
Qed.

Section Requests.
Context (d1 d2 : Database).
Hypotheses (Hk1 : keyed d1) (Hk2 : keyed d2) (F1 : fresh_draws d1) (F2 : fresh_draws d2) (Hview : same_view d1 d2).

Local Notation aligned := (aligned d1 d2).
Local Notation aligned_step := (aligned_step d1 d2).
Local Notation alike_read := (alike_read e calm d1 d2).
Local Notation alike_read_one := (alike_read_one e calm d1 d2).

Lemma keys_within P : (forall k, P k = true -> own_key caller k = true) -> List.filter P (d1 partyApiKey) = List.filter P (d2 partyApiKey).
Proof. intros HP. eapply filter_within; [|apply Hview]. auto. Qed.

Lemma subs_within P : (forall s, P s = true -> own_subscription caller s = true) ->
  List.filter P (d1 webhookSubscription) = List.filter P (d2 webhookSubscription).
Proof. intros HP. eapply filter_within; [|apply Hview]. auto. Qed.

Lemma view_create_key body w1 w2 : aligned w1 w2 -> alike (create_key_route config caller body) (create_key_route config caller body) w1 w2.
Proof.
  intros Ha. apply alike_session. destruct (negb _); [done|]. destruct (createKeySchema _) as [label|]; [|done].
  apply alike_read; [done|by apply keys_within|]. intros w3 w4 Ha3. cbv beta. destruct (_ <=? _)%nat; [done|].
  apply alike_keyId; [apply Ha3|]. intros m w5 w6 Ht5 E5 E6. cbv zeta. set (keyId := "bk_" +:+ _).
  apply alike_draw; [done|]. intros m1 w7 w8 Ht7 E7 E8. apply alike_draw; [done|]. intros m2 w9 w10 Ht9 E9 E10.
  destruct (encryptSecret _ _ _) as [cipher|x]; [|done]. cbn [lift bind]. destruct Ha3 as (_ & D1 & D2).
  rewrite E7, E5, D1 in E9. rewrite E8, E6, D2 in E10.
  apply (alike_insert partyApiKey _ (fun _ => _)); [done|done| | |].
  - intros s. cbn. unfold has_party. by rewrite E9, E10, (sv_party _ _ Hview).
  - intros n. rewrite E9, E10. split; apply no_conflict; cbn; intros r' Hr'; apply orb_false_iff; split; apply bool_decide_eq_false; intros E.
    + by destruct (F1 n) as (F & _); destruct (F r' Hr').
    + by destruct (F1 m) as (F & _); destruct (F r' Hr').
    + by destruct (F2 n) as (F & _); destruct (F r' Hr').
    + by destruct (F2 m) as (F & _); destruct (F r' Hr').
  - intros w11 w12 Ht11 Hf. destruct (Hf auditLog) as [A1 A2]; [done|]. rewrite E9 in A1. rewrite E10 in A2.
    apply (alike_audit _ _ _ _ _ d1 d2); done.
Qed.

Lemma view_list_keys w1 w2 : aligned w1 w2 -> alike (list_keys_route caller) (list_keys_route caller) w1 w2.
Proof. intros Ha. apply alike_session. apply alike_read; [done|by apply keys_within|done]. Qed.

Lemma view_revoke_key keyId w1 w2 : aligned w1 w2 -> alike (revoke_key_route caller keyId) (revoke_key_route caller keyId) w1 w2.
Proof.
  intros Ha. apply alike_session. apply alike_read_one; [done|apply keys_within; by intros k [_ ?]%andb_true_iff|].
  intros [key|] w3 w4 (Ht & D1 & D2) _; [|done]. apply alike_update; [done|done|]. intros w5 w6 Ht5 Hf.
  destruct (Hf auditLog) as [A1 A2]; [done|]. rewrite D1 in A1. rewrite D2 in A2. by apply (alike_audit _ _ _ _ _ d1 d2).
Qed.

Lemma check_aligned raw allowHttp (k : outcome URL -> account_prog HttpReply) w1 w2 :
  aligned w1 w2 -> (forall r w1' w2', aligned w1' w2' -> alike (k r) (k r) w1' w2') ->
  alike (r <- attempt (assertSafeWebhookUrl raw allowHttp) ;; k r) (r <- attempt (assertSafeWebhookUrl raw allowHttp) ;; k r) w1 w2.
Proof.
  intros Ha Hk. unfold alike. rewrite !run_bind, !run_attempt.
  assert (Hc : call_only (assertSafeWebhookUrl raw allowHttp)).
  { unfold assertSafeWebhookUrl. destruct (new_URL raw); [|done]. destruct (negb _ && _); [done|]. destruct (_ || _); [done|].
    cbv zeta. destruct (_ || _); [done|]. destruct (negb _); [|intros [l|x]]; cbn; repeat case_match; done. }
  destruct (run_call_only e _ w1 w2 Hc) as (r & w1' & w2' & -> & -> & Ht & E1 & E2); [apply Ha|].
  apply Hk. by apply (aligned_step w1 w2).
Qed.

Lemma view_create_subscription body w1 w2 : aligned w1 w2 ->
  alike (create_subscription_route config caller body) (create_subscription_route config caller body) w1 w2.
Proof.
  intros Ha. unfold create_subscription_route. destruct (negb _); [done|].
  destruct (match body with Some b => createSubscriptionSchema b | None => _ end) as [[url events]|x]; [|done].
  apply check_aligned; [done|]. intros [u|x] w3 w4 Ha3; [|destruct (eqs _ _); done].
  apply alike_read; [done|by apply subs_within|]. intros w5 w6 Ha5. cbv beta. destruct (_ <=? _)%nat; [done|].
  apply alike_draw; [apply Ha5|]. intros m1 w7 w8 Ht7 E7 E8. apply alike_draw; [done|]. intros m2 w9 w10 Ht9 E9 E10.
  destruct (encryptSecret _ _ _) as [cipher|x]; [|done]. cbn [lift bind]. destruct Ha5 as (_ & D1 & D2).
  rewrite E7, D1 in E9. rewrite E8, D2 in E10.
  apply alike_stmt; [done|]. unfold insert_returning, insert. rewrite E9, E10.
  set (r := subscription_row _ _ _ _ _).
  assert (conflicts webhookSubscription r d1 = false /\ conflicts webhookSubscription r d2 = false) as [-> ->].
  { split; apply no_conflict; cbn; intros r' Hr'; apply bool_decide_eq_false; intros E.
    - by destruct (F1 (w_tick w9)) as (_ & F & _); destruct (F r' Hr').
    - by destruct (F2 (w_tick w9)) as (_ & F & _); destruct (F r' Hr'). }
  cbn [in_range references_ok negb]. assert (has_party d1 (ws_partyId r) = has_party d2 (ws_partyId r)) as -> by (unfold has_party; by rewrite (sv_party _ _ Hview)).
  by destruct (has_party d2 (ws_partyId r)).
Qed.

Lemma view_list_subscriptions w1 w2 : aligned w1 w2 -> alike (list_subscriptions_route caller) (list_subscriptions_route caller) w1 w2.
Proof. intros Ha. by apply alike_read; [|apply subs_within|]. Qed.

Lemma alike_own_subscription id (k : option webhookSubscription_row -> account_prog HttpReply) w1 w2 :
  aligned w1 w2 ->
  (forall sub w1' w2', aligned w1' w2' ->
     (forall s, sub = Some s -> In s (d1 webhookSubscription) /\ In s (d2 webhookSubscription) /\ own_subscription caller s = true) ->
     alike (k sub) (k sub) w1' w2') ->
  alike (sub <- find_own_subscription caller id ;; k sub) (sub <- find_own_subscription caller id ;; k sub) w1 w2.
Proof.
  intros Ha Hk. unfold find_own_subscription, by_uuid. destruct (pg_uuid id); [|done].
  apply (alike_read_one webhookSubscription); [done|apply subs_within; by intros s [_ ?]%andb_true_iff|].
  intros sub w3 w4 Ha3 Hsub. apply Hk; [done|]. intros s Hs. destruct (Hsub s Hs) as (? & ? & [_ ?]%andb_true_iff). done.
Qed.

Lemma view_delete_subscription id w1 w2 : aligned w1 w2 -> alike (delete_subscription_route caller id) (delete_subscription_route caller id) w1 w2.
Proof.
  intros Ha. apply alike_own_subscription; [done|]. intros [sub|] w3 w4 (Ht & _) _; [|done]. by apply alike_update.
Qed.

Lemma own_delivery_of d dl sub : In sub (d webhookSubscription) -> own_subscription caller sub = true -> wd_subscriptionId dl = ws_id sub ->
  own_delivery caller d dl = true.
Proof. intros Hin Hown E. apply existsb_exists. exists sub. rewrite Hown, E. split; [done|]. by apply bool_decide_eq_true. Qed.

Lemma view_list_deliveries id w1 w2 : aligned w1 w2 -> alike (list_deliveries_route caller id) (list_deliveries_route caller id) w1 w2.
Proof.
  intros Ha. apply alike_own_subscription; [done|]. intros [sub|] w3 w4 Ha3 Hsub; [|done]. destruct (Hsub sub eq_refl) as (I1 & I2 & Hown).
  apply alike_read; [done| |done]. eapply filter_within; [|apply Hview]. intros dl E. apply bool_decide_eq_true in E.
  split; by eapply own_delivery_of.
Qed.

Lemma view_party account w1 w2 : aligned w1 w2 -> alike (party_by_account_route account) (party_by_account_route account) w1 w2.
Proof.
  intros Ha. unfold party_by_account_route. destruct (negb _); [done|].
  apply alike_read_one; [done|by rewrite (sv_accounts _ _ Hview)|]. intros [link|] w3 w4 Ha3 _; [|done].
  by apply alike_read_one; [|rewrite (sv_party _ _ Hview)|].
Qed.
End Requests.

(** *** Redelivery: another party's delivery is answered as one that is not there *)
Definition redelivery (dl : webhookDelivery_row) : HttpReply :=
  if eqs (wd_status dl) "dead" then HReply 202 (JObj [("id", JStr (wd_id dl)); ("status", JStr "pending")])
  else HReply 409 (error_body ("delivery is " +:+ wd_status dl)).

Definition own_delivery_by_id d id : option webhookDelivery_row :=
  hd_error (List.filter (fun dl => eqs (wd_id dl) id) (List.filter (own_delivery caller d) (d webhookDelivery))).

Lemma redeliver_says id w : keyed (w_db w) -> pg_uuid id = true ->
  fst (run e (redeliver_route caller id) w) =
  Ok match own_delivery_by_id (w_db w) id with Some dl => redelivery dl | None => HReply 404 (error_body "delivery not found") end.
Proof.
  intros [K1 K2 K3 K4] Hid. unfold redeliver_route, by_uuid. rewrite Hid, run_bind. unfold select_one at 1. rewrite run_bind, run_stmt_op, run_stmt_calm.
  cbn [select run row] in *. destruct (own_delivery_by_id (w_db w) id) as [dl|] eqn:Eo.
  - apply head_filter_In in Eo as [[Hin Hown]%List.filter_In Eid]. apply bool_decide_eq_true in Eid as <-.
    assert (hd_error (List.filter (fun x : webhookDelivery_row => eqs (wd_id x) (wd_id dl)) (w_db w webhookDelivery)) = Some dl) as -> by (by apply head_filter_unique).
    apply existsb_exists in Hown as (sub & Hs & [Hown Esub]%andb_true_iff).
    apply bool_decide_eq_true in Esub. unfold select_one. rewrite !run_bind, run_stmt_op, run_stmt_calm. cbn [select run row tick with_db w_db] in *.
    assert (hd_error (List.filter (fun s : webhookSubscription_row => eqs (ws_id s) (wd_subscriptionId dl)) (w_db w webhookSubscription)) = Some sub) as ->
      by (by apply head_filter_unique).
    rewrite Hown. cbn [negb]. unfold redelivery.
    destruct (eqs (wd_status dl) "dead"); [|done]. cbn [negb]. rewrite run_bind, run_stmt_op, run_stmt_calm. unfold update.
    match goal with |- context [forallb ?p ?l] => replace (forallb p l) with true; [done|] end.
    symmetry. apply forallb_forall. by intros r (r0 & <- & _)%in_map_iff.
  - destruct (hd_error (List.filter (fun x : webhookDelivery_row => eqs (wd_id x) id) (w_db w webhookDelivery))) as [dl|] eqn:Ed; [|done].
    apply head_filter_In in Ed as [Hin Eid]. unfold select_one. rewrite !run_bind, run_stmt_op, run_stmt_calm. cbn [select run row tick with_db w_db] in *.
    destruct (hd_error (List.filter (fun s : webhookSubscription_row => eqs (ws_id s) (wd_subscriptionId dl)) (w_db w webhookSubscription)))
      as [sub|] eqn:Es; [|done].
    apply head_filter_In in Es as [Hs Esub]. destruct (own_subscription caller sub) eqn:Hown; [|done]. exfalso.
    apply bool_decide_eq_true in Esub.
    assert (In dl (List.filter (fun dl : webhookDelivery_row => eqs (wd_id dl) id) (List.filter (own_delivery caller (w_db w)) (w_db w webhookDelivery)))) as Hdl.
    { apply List.filter_In. split; [|done]. apply List.filter_In. split; [done|]. by apply (own_delivery_of _ _ sub). }
    unfold own_delivery_by_id in Eo. by destruct (List.filter _ (List.filter _ _)).
Qed.

Lemma view_redeliver id d1 d2 n l : keyed d1 -> keyed d2 -> same_view d1 d2 ->
  alike (redeliver_route caller id) (redeliver_route caller id) (World d1 n l) (World d2 n l).
Proof.
  intros K1 K2 Hv. destruct (pg_uuid id) eqn:E; [|unfold alike, redeliver_route, by_uuid; by rewrite E].
  unfold alike. rewrite !redeliver_says by done. cbn. unfold own_delivery_by_id. by rewrite (sv_deliveries _ _ Hv).
Qed.

Lemma view_account_route req d1 d2 n l :
  keyed d1 -> keyed d2 -> fresh_draws d1 -> fresh_draws d2 -> same_view d1 d2 ->
  alike (account_route config caller req) (account_route config caller req) (World d1 n l) (World d2 n l).
Proof.
  intros K1 K2 F1 F2 Hv. assert (aligned d1 d2 (World d1 n l) (World d2 n l)) as Ha by done.
  destruct req; cbn [account_route]; [by apply (view_create_key d1 d2)|by apply (view_list_keys d1 d2)|by apply (view_revoke_key d1 d2)|done
    |by apply (view_create_subscription d1 d2)|by apply (view_list_subscriptions d1 d2)|by apply (view_delete_subscription d1 d2)
    |by apply (view_list_deliveries d1 d2)|by apply view_redeliver|by apply (view_party d1 d2)].
Qed.
End View.

(** C25. A party's account requests stay with the party.  Under any answers and database faults a
    request of the account routes is answered, changes none of another party's keys, subscriptions or
    deliveries and nothing outside these tables and the audit log, where it adds entries in the caller's
    name only; without a session it changes no key; the party never gets past ten active keys or
    subscriptions.  And what it is answered depends on its own rows and the party registry: from any two
    databases that agree on those it gets the same reply, when the database does not fail and the ids
    drawn are new, so it learns nothing about other parties' rows, not even that an id exists. *)
Theorem account_requests_stay_with_the_party `{ApiLib, NodeLib, AuthLib, AccountLib} (config : AccountConfig) (caller : Caller)
    (req : AccountRequest) (e : env WebhookCall) (d : Database) n l :
  keyed d ->
  (let '(r, w) := run e (serve_account config caller req) (World d n l) in is_ok r /\ isolated caller d (w_db w)) /\
  (forall d', keyed d' -> (forall m, db_fault e m = NoFault) -> fresh_draws e d -> fresh_draws e d' -> same_view caller d d' ->
     fst (run e (serve_account config caller req) (World d n l)) = fst (run e (serve_account config caller req) (World d' n l))).
Proof.
  intros Hkd. split.
  - pose proof (wp_sound any_answer e _ _ _ (any_answer_respects e) (wp_serve_account config caller req (World d n l))) as Hw.
    destruct (run e _ _) as [r w]. destruct Hw as [Hok [Heff _]]. split; [done|]. by eapply isolated_effect.
  - intros d' Hkd' Hcalm F F' Hv. pose proof (view_account_route config caller e Hcalm req d d' n l Hkd Hkd' F F' Hv) as Ha.
    unfold alike in Ha. unfold serve_account. rewrite !run_catch.
    destruct (run e (account_route config caller req) (World d n l)) as [[r|x] w], (run e (account_route config caller req) (World d' n l)) as [[r'|x'] w'];
      cbn in *; congruence.
Qed.

(** *** Witness: another party's subscription and delivery make no difference. *)
Module ViewSample.
#[local] Instance api : ApiLib := {| chain_txHash := Ok; zod_uuid s := true; pg_uuid s := true; zod_datetime s := true; Date_of s := 0 |}.
#[local] Instance node : NodeLib := {| new_URL s := None; isIP s := 0; hmac_sha256_hex k m := "ab"; decryptSecret c k := Ok c; JSON_stringify v := "" |}.
#[local] Instance auth : AuthLib := {| sha256_hex s := "00"; jwt_verify t s _ _ _ := Err (Error "jwt malformed") |}.
#[local] Instance account : AccountLib := {|
  seal p k iv := p; random_hex n uuid := uuid; jwt_sign secret account opts := account; isValidEd25519PublicKey s := true;
  keypair_of := Ok; buildChallengeTx k a h t p w s := a; readChallengeTx c s := Ok (ch_transaction c);
  verifyChallengeTxSigners c signers s := Ok tt |}.

Definition offline (X : Type) (n : nat) (c : WebhookCall X) : outcome X := Err (Error "offline").
Definition server : env WebhookCall := Env offline (fun _ => NoFault) (fun n => Stamp (Z.of_nat n) ("u" +:+ pretty (N.of_nat n))).
Definition config : AccountConfig := AConfig (Config (Some 3000) "jwt" "S" "home" "auth" "Test SDF Network" "" "" true TrustNone "console") true.
Definition desk : Caller := Caller_of "p" "G" "session".
Definition registry : Database := set_table party [Party "p" "desk" "P" None "approved" None None 0; Party "q" "desk" "Q" None "approved" None None 0] empty_db.
Definition rivals : Database :=
  set_table webhookDelivery [WebhookDelivery "x" "s" "k" "exit.filled" JNull "dead" 6 0 None 0 None]
    (set_table webhookSubscription [WebhookSubscription "s" "q" "https://q.example" (JArr []) "c" true 0] registry).

Lemma rivals_keyed : keyed rivals.
Proof. split; [apply NoDup_nil_2|apply NoDup_nil_2|apply (NoDup_singleton "s")|apply (NoDup_singleton "x")]. Qed.

Lemma rivals_unnoticed : same_view desk rivals registry.
Proof. split; reflexivity. Qed.

Lemma fresh_for_rivals : fresh_draws server rivals.
Proof. intros n id. split; [done|]. split; [|done]. intros r [<-|[]]. by intros E. Qed.

Lemma account_requests_stay_with_the_party_witness :
  fst (run server (serve_account config desk (Redeliver "x")) (World rivals 0 [])) =
  fst (run server (serve_account config desk (Redeliver "x")) (World registry 0 [])).
Proof.
  apply (proj2 (account_requests_stay_with_the_party config desk (Redeliver "x") server rivals 0%nat [] rivals_keyed));
    [split; apply NoDup_nil_2|done|exact fresh_for_rivals|intros n id; done|exact rivals_unnoticed].
Defined.
End ViewSample.
