(* ===== verification/KeyLifecycle.v ===== *)
(** The life of an institution API key, across the routes that create and revoke it and the
    authentication that verifies requests signed with it. *)
From S2P Require Import Prelude Prog Settings Schema Rules Api Webhooks ApiKeys AccountRoutes AccountSafety.

(** ** Verification, seen from the key table *)
(** What stays of a key whatever happens to it. *)
Definition same_key (r r' : partyApiKey_row) : Prop :=
  ak_id r' = ak_id r /\ ak_keyId r' = ak_keyId r /\ ak_partyId r' = ak_partyId r /\
  ak_stellarAccount r' = ak_stellarAccount r /\ ak_secretCiphertext r' = ak_secretCiphertext r.

(** Every key is still there, and those for which [kept] holds have the status they had; any other
    change of status is a revocation. *)
Definition keys_kept (kept : string -> Prop) (d d' : Database) : Prop :=
  forall r, In r (d partyApiKey) -> exists r', In r' (d' partyApiKey) /\ same_key r r' /\
    (ak_status r' = ak_status r \/ (ak_status r' = "revoked" /\ ~ kept (ak_keyId r))).

Lemma same_key_refl r : same_key r r. Proof. done. Qed.
Lemma same_key_trans r1 r2 r3 : same_key r1 r2 -> same_key r2 r3 -> same_key r1 r3.
Proof. unfold same_key. intuition congruence. Qed.

Lemma keys_kept_same kept (d d' : Database) : d' partyApiKey = d partyApiKey -> keys_kept kept d d'.
Proof. intros E r Hr. exists r. rewrite E. auto using same_key_refl. Qed.

Lemma keys_kept_map kept (d d' : Database) (P : partyApiKey_row -> bool) (f : partyApiKey_row -> partyApiKey_row) :
  (forall r, same_key r (f r)) ->
  (forall r, In r (d partyApiKey) -> P r = true -> ak_status (f r) = ak_status r \/ (ak_status (f r) = "revoked" /\ ~ kept (ak_keyId r))) ->
  d' partyApiKey = List.map (fun r => if P r then f r else r) (d partyApiKey) -> keys_kept kept d d'.
Proof.
  intros Hs Hst E r Hr. exists (if P r then f r else r). rewrite E.
  split; [by apply (in_map (fun r => if P r then f r else r))|]. destruct (P r) eqn:Ep; auto using same_key_refl.
Qed.

Section Verification.
Context `{NodeLib, AuthLib} (secretKey : string).
Notation Adm := any_answer.
Implicit Types w : auth_world.

(** A verification marks a use and remembers a nonce. *)
Definition verified_db (d d' : Database) : Prop :=
  (forall t, t <> partyApiKey -> t <> apiKeyNonce -> d' t = d t) /\
  (d' partyApiKey = d partyApiKey \/ exists id now, d' partyApiKey = List.map (fun k => if eqs (ak_id k) id
     then PartyApiKey (ak_id k) (ak_partyId k) (ak_stellarAccount k) (ak_keyId k) (ak_secretCiphertext k) (ak_label k)
            (ak_status k) (ak_createdAt k) (Some now) (ak_revokedAt k) else k) (d partyApiKey)).

Lemma wp_verify_db req nowMs w : wp Adm (verifyApiKeyRequest secretKey req nowMs) (fun _ w' => verified_db (w_db w) (w_db w')) w.
Proof.
  assert (Hno : forall w', w_db w' = w_db w -> verified_db (w_db w) (w_db w')) by (intros w' ->; split; auto).
  unfold verifyApiKeyRequest, select_one. wp_step. wp_step. wp_step; [intros x; by apply Hno|]. wp_step.
  destruct (hd_error _) as [key|]; [|by apply Hno]. wp_step; [by apply Hno|].
  destruct (sr_timestamp req) as [timestamp|]; [|by apply Hno]. wp_step; [by apply Hno|]. wp_step; [by apply Hno|].
  destruct (sr_nonce req) as [nonce|]; [|by apply Hno]. wp_step; [by apply Hno|].
  wp_step. wp_step. destruct (decryptSecret _ _) as [secret|x]; [|by apply Hno]. cbv zeta. wp_step; [by apply Hno|].
  assert (Hnonce : forall l w', w_db w' = set_table apiKeyNonce l (w_db w) -> verified_db (w_db w) (w_db w')).
  { intros l w' ->. split; [intros t H1 H2; by rewrite set_table_other|]. left. by rewrite set_table_other. }
  wp_step. wp_step; [intros x; by apply Hno|intros s _; wp_step; by apply Hno|].
  intros s _ _ _. split; [|intros x; by eapply Hnonce]. wp_step. wp_step; [intros x; by eapply Hnonce|].
  intros s0. world_simpl.
  split; [wp_step|intros x]; (split; [intros t H1 H2; world_simpl; by rewrite !set_table_other|]; right; world_simpl;
    rewrite set_table_same, set_table_other by done; by exists (ak_id key), nowMs).
Qed.

(** No active key of that name: no identity. *)
Lemma wp_verify_refuses req nowMs w :
  (forall r, In r (w_db w partyApiKey) -> ak_keyId r = sr_keyId req -> ak_status r <> "active") ->
  wp Adm (verifyApiKeyRequest secretKey req nowMs) (fun r _ => forall p a k, r <> Ok (KeyOk p a k)) w.
Proof.
  intros Hno. unfold verifyApiKeyRequest, select_one. wp_step. wp_step. wp_step; [done|]. wp_step.
  destruct (hd_error _) as [key|] eqn:Ek; [|done]. apply head_filter_In in Ek as [Hin Hk]. apply bool_decide_eq_true in Hk.
  wp_step; [done|]. apply negb_false_iff, bool_decide_eq_true in E. by destruct (Hno key Hin Hk).
Qed.

(** The next statement works, or the database fails somewhere. *)
Ltac run_works :=
  match goal with |- context [@run_stmt _ _ _ ?X ?e ?q ?w] => destruct (run_stmt_works (X := X) e q w) as [->|]; [|by right] end.

(** A fresh request signed with the secret of an active key is let in, unless the database fails. *)
Lemma run_verify_accepts (e : env NoCall) req nowMs w key secret timestamp nonce :
  NoDup (List.map ak_keyId (w_db w partyApiKey)) -> In key (w_db w partyApiKey) -> ak_keyId key = sr_keyId req ->
  ak_status key = "active" -> decryptSecret (ak_secretCiphertext key) secretKey = Ok secret ->
  sr_timestamp req = Some timestamp -> TIMESTAMP_FORMAT timestamp = true -> stale nowMs timestamp = false ->
  sr_nonce req = Some nonce -> NONCE_FORMAT nonce = true ->
  (forall n, In n (w_db w apiKeyNonce) -> ~ (an_keyId n = sr_keyId req /\ an_nonce n = nonce)) ->
  sr_signature req = signRequest secret (args_of req timestamp nonce) ->
  fst (run e (verifyApiKeyRequest secretKey req nowMs) w) = Ok (KeyOk (ak_partyId key) (ak_stellarAccount key) (ak_keyId key)) \/
  exists n, db_fault e n <> NoFault.
Proof.
  intros Hnd Hin Hk Hst Hdec Ets Hts Hstale En Hnf Hfresh Hsig.
  assert (hd_error (List.filter (fun k => eqs (ak_keyId k) (sr_keyId req)) (w_db w partyApiKey)) = Some key) as Ehd
    by (by apply head_filter_unique).
  assert (existsb (conflict apiKeyNonce (ApiKeyNonce (ak_keyId key) nonce (st_now (stamps e (S (w_tick w)))))) (w_db w apiKeyNonce) = false) as Ec.
  { apply not_true_iff_false. intros (n & Hn & Hc)%existsb_exists. cbn in Hc. apply andb_true_iff in Hc as [E1 E2].
    apply bool_decide_eq_true in E1, E2. apply (Hfresh n Hn). split; congruence. }
  unfold verifyApiKeyRequest, select_one. rewrite !run_bind, run_stmt_op.
  run_works.
  cbn [select run row] in *. rewrite Ehd, Hst. change (negb (eqs "active" "active")) with false. cbv iota.
  rewrite Ets, Hts, Hstale, En, Hnf. cbn [negb]. rewrite run_bind, Hdec. cbn [lift run]. rewrite Hsig, bool_decide_true by done.
  cbn [negb]. rewrite run_bind, run_stmt_op.
  run_works.
  unfold insert_ignore, conflicts. cbn [tick with_db w_db w_tick row] in *. rewrite Ec. cbn [in_range references_ok negb].
  rewrite run_bind, run_stmt_op.
  run_works.
  left. unfold update. cbn.
  match goal with |- context [forallb ?p ?l] => replace (forallb p l) with true; [done|] end.
  symmetry. by apply forallb_forall.
Qed.
End Verification.

(** ** Histories *)
(** What happens to a deployment's keys: requests of logged-in parties, verifications, and whatever
    other services do to other tables. *)
Inductive key_event :=
| Managed (caller : Caller) (req : AccountRequest) (reply : HttpReply)
| Checked (req : SignedRequest) (nowMs : Z)
| Elsewhere.

Section History.
Context `{ApiLib, NodeLib, AuthLib, AccountLib} (config : AccountConfig).
Notation secretKey := (apiKeySecretKey config).

Definition happens (ev : key_event) (d d' : Database) : Prop :=
  match ev with
  | Managed caller req reply => exists (e : env WebhookCall) n l w',
      run e (serve_account config caller req) (World d n l) = (Ok reply, w') /\ w_db w' = d'
  | Checked req nowMs => exists (e : env NoCall) n l r w',
      run e (verifyApiKeyRequest secretKey req nowMs) (World d n l) = (r, w') /\ w_db w' = d'
  | Elsewhere => d' partyApiKey = d partyApiKey /\ keyed d'
  end.

Fixpoint history (events : list key_event) (d d' : Database) : Prop :=
  match events with
  | [] => d' = d
  | ev :: events => exists d1, happens ev d d1 /\ history events d1 d'
  end.

(** Who may revoke key [k]: nobody but [party], in a session. *)
Definition revokes (k party : string) (ev : key_event) : Prop :=
  match ev with
  | Managed caller (RevokeKey k') _ => k' = k /\ ca_partyId caller = party /\ is_session caller = true
  | _ => False
  end.
Definition revocation (k : string) (ev : key_event) : Prop :=
  match ev with Managed _ (RevokeKey k') reply => k' = k /\ rp_code reply = 204 | _ => False end.

Lemma served caller req reply d d' : happens (Managed caller req reply) d d' ->
  account_effect config caller req d d' /\ told config caller req reply d d'.
Proof.
  intros (e & n & l & w' & E & <-).
  pose proof (wp_sound any_answer e _ _ _ (any_answer_respects e) (wp_serve_account config caller req (World d n l))) as Hw.
  rewrite E in Hw. by destruct Hw as [_ [He Ht]].
Qed.

Lemma effect_keeps kept caller req d d' :
  keyed d -> account_effect config caller req d d' ->
  (forall key, In key (d partyApiKey) -> req = RevokeKey (ak_keyId key) -> own_key caller key = true -> is_session caller = true ->
     ~ kept (ak_keyId key)) ->
  keys_kept kept d d'.
Proof.
  intros [K1 K2 _ _] Heff Hno.
  destruct Heff as [req d|body keyId secret iv label s d d' Hs Hv Hn Hc Ha|key s d d' Hs Hin Hown Ha|body url cipher events s d Hn Hc|sub d Hin Hown|dl sub s d Hdl Hsub Hid Hown Hst];
    try (apply keys_kept_same; by rewrite ?set_table_other).
  - intros r Hr. exists r. split; [|auto using same_key_refl].
    destruct Ha as [->|(a & _ & ->)]; rewrite ?(set_table_other auditLog partyApiKey) by done; unfold created_key; rewrite set_table_same;
      apply in_or_app; by left.
  - apply (keys_kept_map _ _ _ (fun r => eqs (ak_id r) (ak_id key)) (revoke s)); [done| |].
    + intros r Hr E. apply bool_decide_eq_true in E. rewrite (NoDup_map_eq ak_id _ r key K1 Hr Hin E). right. split; [done|]. by apply Hno.
    + destruct Ha as [->|(a & _ & ->)]; rewrite ?(set_table_other auditLog partyApiKey) by done; unfold revoked_key; by rewrite set_table_same.
Qed.

Lemma verified_keyed d d' : keyed d -> verified_db d d' -> keyed d' /\ forall kept, keys_kept kept d d'.
Proof.
  intros [K1 K2 K3 K4] [Ho Hk]. split.
  - split; [| |by rewrite Ho|by rewrite Ho]; destruct Hk as [->|(id & now & ->)]; [done|by rewrite map_kept|done|by rewrite map_kept].
  - intros kept. destruct Hk as [E|(id & now & E)]; [by apply keys_kept_same|]. eapply keys_kept_map; [| |exact E]; [done|]. intros r _ _. by left.
Qed.

(** An event keeps the primary keys, and every key's status unless it revokes the key. *)
Lemma happens_keeps ev kept d d' :
  keyed d -> happens ev d d' ->
  (forall caller key reply, In key (d partyApiKey) -> ev = Managed caller (RevokeKey (ak_keyId key)) reply -> own_key caller key = true ->
     is_session caller = true -> ~ kept (ak_keyId key)) ->
  keyed d' /\ keys_kept kept d d'.
Proof.
  intros Hkd Hev Hno. destruct ev as [caller req reply|req nowMs|].
  - destruct (served _ _ _ _ _ Hev) as [Heff _]. split; [by eapply io_keyed, isolated_effect|].
    eapply effect_keeps; [done|exact Heff|]. intros key Hin -> Hown Hs. by eapply Hno.
  - destruct Hev as (e & n & l & r & w' & E & <-).
    pose proof (wp_sound any_answer e _ _ _ (any_answer_respects e) (wp_verify_db secretKey req nowMs (World d n l))) as Hw.
    rewrite E in Hw. destruct (verified_keyed d (w_db w') Hkd Hw). auto.
  - destruct Hev as [E Hkd']. split; [done|]. by apply keys_kept_same.
Qed.

Lemma history_app ev1 ev2 d d' : history (ev1 ++ ev2) d d' <-> exists d1, history ev1 d d1 /\ history ev2 d1 d'.
Proof.
  revert d. induction ev1 as [|ev ev1 IH]; intros d; cbn.
  - split; [by exists d|]. by intros (d1 & -> & ?).
  - split.
    + intros (d0 & H0' & (d1 & H1' & H2')%IH). exists d1. eauto.
    + intros (d1 & (d0 & H0' & H1') & H2'). exists d0. split; [done|]. apply IH. eauto.
Qed.

(** A key nobody revoked is as it was. *)
Lemma unrevoked_stays events d d' r :
  keyed d -> history events d d' -> In r (d partyApiKey) ->
  (forall ev, In ev events -> ~ revokes (ak_keyId r) (ak_partyId r) ev) ->
  keyed d' /\ exists r', In r' (d' partyApiKey) /\ same_key r r' /\ ak_status r' = ak_status r.
Proof.
  revert d r. induction events as [|ev events IH]; intros d r Hkd; cbn; [by intros -> Hr _; eauto using same_key_refl|].
  intros (d1 & Hev & Hh) Hr Hno.
  destruct (happens_keeps ev (fun k => k = ak_keyId r) d d1 Hkd Hev) as [Hkd1 Hkept].
  { intros caller key reply Hin -> Hown Hs Ek. rewrite (NoDup_map_eq ak_keyId _ key r (kd_keyIds d Hkd) Hin Hr Ek) in *.
    apply (Hno _ (or_introl eq_refl)). split; [done|]. split; [|done]. by apply bool_decide_eq_true in Hown. }
  destruct (Hkept r Hr) as (r1 & Hr1 & Hs1 & [Hst1|[_ Hn]]); [|by destruct Hn].
  destruct (IH d1 r1 Hkd1 Hh Hr1) as (Hkd' & r2 & Hr2 & Hs2 & Hst2).
  { destruct Hs1 as (_ & -> & -> & _). intros ev' Hin. apply Hno. by right. }
  split; [done|]. exists r2. split; [done|]. split; [by eapply same_key_trans|congruence].
Qed.

(** A revoked key stays revoked. *)
Lemma revoked_stays events d d' k :
  keyed d -> history events d d' -> (exists r, In r (d partyApiKey) /\ ak_keyId r = k /\ ak_status r = "revoked") ->
  keyed d' /\ exists r, In r (d' partyApiKey) /\ ak_keyId r = k /\ ak_status r = "revoked".
Proof.
  revert d. induction events as [|ev events IH]; intros d Hkd; cbn; [by intros ->|].
  intros (d1 & Hev & Hh) (r & Hr & Hk & Hst).
  destruct (happens_keeps ev (fun _ => False) d d1 Hkd Hev) as [Hkd1 Hkept]; [auto|].
  destruct (Hkept r Hr) as (r1 & Hr1 & (_ & Ek & _) & Hst1). apply (IH d1 Hkd1 Hh). exists r1. split; [done|]. split; [congruence|].
  destruct Hst1 as [->|[-> _]]; done.
Qed.

Lemma history_keyed events d d' : keyed d -> history events d d' -> keyed d'.
Proof.
  revert d. induction events as [|ev events IH]; intros d Hkd; cbn; [by intros ->|]. intros (d1 & Hev & Hh).
  destruct (happens_keeps ev (fun _ => False) _ _ Hkd Hev) as [Hkd1 _]; [auto|]. by eapply IH.
Qed.

Lemma revocation_revokes caller k reply d d' :
  happens (Managed caller (RevokeKey k) reply) d d' -> rp_code reply = 204 ->
  exists r, In r (d' partyApiKey) /\ ak_keyId r = k /\ ak_status r = "revoked".
Proof.
  intros Hev Hcode. destruct (served _ _ _ _ _ Hev) as [_ Ht]. destruct (Ht Hcode) as (key & s & Hin & Hk & _ & E).
  exists (revoke s key). split; [|done]. rewrite E. unfold revoked_key. rewrite set_table_same.
  apply in_map_iff. exists key. unfold eqs. by rewrite bool_decide_true.
Qed.
End History.

(** C17. An institution's key works from its creation to its revocation.  Take any history of a
    deployment: requests of logged-in parties, verifications, changes of other tables, under any faults of
    the database.  If a creation was answered with a key and its secret, then as long as the party did not
    revoke it in a session, a fresh request signed with the secret, with a nonce not used before, is let in
    as that party, unless the database fails; and once a revocation was answered, no request is let in
    with that key, whatever happens in between. *)
Theorem key_works_from_creation_to_revocation `{ApiLib, NodeLib, AuthLib, AccountLib} (config : AccountConfig) (caller : Caller)
    body k secret label (events : list key_event) (d0 d1 d2 : Database) :
  (forall p key iv, isValidSecretKey key = true -> decryptSecret (seal p key iv) key = Ok p) ->
  keyed d0 ->
  happens config (Managed caller (CreateKey body) (HReply 201 (JObj [("keyId", JStr k); ("secret", JStr secret); ("label", label)]))) d0 d1 ->
  history config events d1 d2 ->
  ((forall ev, In ev events -> ~ revokes k (ca_partyId caller) ev) ->
   forall (e : env NoCall) req nowMs timestamp nonce n l,
     sr_keyId req = k -> sr_timestamp req = Some timestamp -> TIMESTAMP_FORMAT timestamp = true -> stale nowMs timestamp = false ->
     sr_nonce req = Some nonce -> NONCE_FORMAT nonce = true ->
     (forall x, In x (d2 apiKeyNonce) -> ~ (an_keyId x = k /\ an_nonce x = nonce)) ->
     sr_signature req = signRequest secret (args_of req timestamp nonce) ->
     fst (run e (verifyApiKeyRequest (apiKeySecretKey config) req nowMs) (World d2 n l)) =
       Ok (KeyOk (ca_partyId caller) (ca_stellarAccount caller) k) \/
     exists m, db_fault e m <> NoFault) /\
  (Exists (revocation k) events ->
   forall (e : env NoCall) req nowMs n l, sr_keyId req = k -> forall p a k',
     fst (run e (verifyApiKeyRequest (apiKeySecretKey config) req nowMs) (World d2 n l)) <> Ok (KeyOk p a k')).
Proof.
  intros Hseal Hkd0 Hcreate Hh. 
  destruct (happens_keeps config _ (fun _ => False) _ _ Hkd0 Hcreate) as [Hkd1 _]; [auto|]. split.
  - intros Hno e req nowMs timestamp nonce n l Hk Hts Htf Hstale Hn Hnf Hfresh Hsig.
    destruct (served _ _ _ _ _ _ Hcreate) as [_ Ht]. destruct (Ht eq_refl) as (keyId & secret' & iv & label' & s & Hbody & Hv & _ & Hd1).
    injection Hbody as <- <- _. set (row := api_key_row caller k (seal secret (apiKeySecretKey config) iv) label' s) in *.
    destruct (unrevoked_stays config events d1 d2 row Hkd1 Hh) as (Hkd2 & r & Hr & (_ & Ek & Ep & Ea & Ec) & Est).
    { rewrite Hd1. unfold created_key. rewrite set_table_same. apply in_or_app. right. by left. }
    { exact Hno. }
    assert (KeyOk (ca_partyId caller) (ca_stellarAccount caller) k = KeyOk (ak_partyId r) (ak_stellarAccount r) (ak_keyId r)) as -> by (by rewrite Ep, Ea, Ek).
    apply (run_verify_accepts (apiKeySecretKey config) e req nowMs (World d2 n l) r secret timestamp nonce); try done.
    + apply (kd_keyIds d2 Hkd2).
    + by rewrite Ek, Hk.
    + rewrite Ec. by apply Hseal.
    + by rewrite Hk.
  - intros (ev & Hin & Hrev)%List.Exists_exists e req nowMs n l Hk p a k' E.
    apply List.in_split in Hin as (before & after & ->). apply (history_app config) in Hh as (d3 & Hb & d4 & Hev & Ha).
    destruct ev as [caller' [] reply| |]; try done. destruct Hrev as [-> Hcode].
    pose proof (history_keyed config _ _ _ Hkd1 Hb) as Hkd3. 
    destruct (happens_keeps config _ (fun _ => False) _ _ Hkd3 Hev) as [Hkd4 _]; [auto|].
    destruct (revoked_stays config after d4 d2 k Hkd4 Ha (revocation_revokes config _ _ _ _ _ Hev Hcode)) as (Hkd2 & r & Hr & Hrk & Hst).
    assert (Hno : forall r', In r' (d2 partyApiKey) -> ak_keyId r' = sr_keyId req -> ak_status r' <> "active").
    { intros r' Hr' Ek Hact. rewrite (NoDup_map_eq ak_keyId _ r' r (kd_keyIds d2 Hkd2) Hr' Hr ltac:(congruence)) in Hact. congruence. }
    pose proof (wp_sound any_answer e _ _ _ (any_answer_respects e) (wp_verify_refuses (apiKeySecretKey config) req nowMs (World d2 n l) Hno)) as Hw.
    destruct (run e _ _) as [res w']. cbn in E. subst res. by eapply Hw.
Qed.

(** *** Witness: a key is created, used, revoked and used again. *)
Module KeySample.
#[local] Instance api : ApiLib := {| chain_txHash := Ok; zod_uuid s := true; pg_uuid s := true; zod_datetime s := true; Date_of s := 0 |}.
#[local] Instance node : NodeLib := {| new_URL s := None; isIP s := 0; hmac_sha256_hex k m := "ab"; decryptSecret c k := Ok c; JSON_stringify v := "" |}.
#[local] Instance auth : AuthLib := {| sha256_hex s := "00"; jwt_verify t s _ _ _ := Err (Error "jwt malformed") |}.
#[local] Instance account : AccountLib := {|
  seal p k iv := p; random_hex n uuid := uuid; jwt_sign secret account opts := account; isValidEd25519PublicKey s := true;
  keypair_of := Ok; buildChallengeTx k a h t p w s := a; readChallengeTx c s := Ok (ch_transaction c);
  verifyChallengeTxSigners c signers s := Ok tt |}.

Definition offline (X : Type) (n : nat) (c : WebhookCall X) : outcome X := Err (Error "offline").
Definition no_answer (X : Type) (n : nat) (c : NoCall X) : outcome X := match c in NoCall X return outcome X with end.
Definition draws (n : nat) : stamp := Stamp (Z.of_nat n) (pretty (N.of_nat n)).
Definition server : env WebhookCall := Env offline (fun _ => NoFault) draws.
Definition verifier : env NoCall := Env no_answer (fun _ => NoFault) draws.

Definition digits : string := "0123456789abcdef".
Definition config : AccountConfig :=
  AConfig (Config (Some 3000) "jwt" "S" "home" "auth" "Test SDF Network" "" (digits +:+ digits +:+ digits +:+ digits) true TrustNone "console") true.
Definition institution : Caller := Caller_of "p" "G" "session".
Definition before : Database := set_table party [Party "p" "institution" "P" None "approved" None None 0] empty_db.
Definition served_by (req : AccountRequest) (d : Database) : outcome HttpReply * Database :=
  let '(r, w) := run server (serve_account config institution req) (World d 0 []) in (r, w_db w).

Definition created : Database := snd (served_by (CreateKey None) before).
Definition closed : Database := snd (served_by (RevokeKey "bk_1") created).
Definition made : HttpReply := HReply 201 (JObj [("keyId", JStr "bk_1"); ("secret", JStr "2"); ("label", JNull)]).
Definition request : SignedRequest := Signed "bk_1" "ab" (Some "1000") (Some "0123456789abcdef") "GET" "/v1/lines" "".

Lemma manages req reply d : fst (served_by req d) = Ok reply -> happens config (Managed institution req reply) d (snd (served_by req d)).
Proof.
  unfold served_by. destruct (run server (serve_account config institution req) (World d 0 [])) as [r w] eqn:E. cbn. intros ->.
  by exists server, 0%nat, [], w.
Qed.

Lemma before_keyed : keyed before.
Proof. split; constructor. Qed.

Lemma key_works_from_creation_to_revocation_witness :
  happens config (Managed institution (CreateKey None) made) before created /\
  (fst (run verifier (verifyApiKeyRequest (apiKeySecretKey config) request 1000000) (World created 0 [])) = Ok (KeyOk "p" "G" "bk_1") \/
   exists m, db_fault verifier m <> NoFault) /\
  happens config (Managed institution (RevokeKey "bk_1") no_content) created closed /\
  fst (run verifier (verifyApiKeyRequest (apiKeySecretKey config) request 1000000) (World closed 0 [])) <> Ok (KeyOk "p" "G" "bk_1").
Proof.
  assert (Hmade : happens config (Managed institution (CreateKey None) made) before created) by (apply manages; vm_compute; reflexivity).
  assert (Hclosed : happens config (Managed institution (RevokeKey "bk_1") no_content) created closed) by (apply manages; vm_compute; reflexivity).
  assert (Hseal : forall p key iv, isValidSecretKey key = true -> decryptSecret (seal p key iv) key = Ok p) by (intros; reflexivity).
  split; [exact Hmade|]. split; [|split; [exact Hclosed|]].
  - apply (proj1 (key_works_from_creation_to_revocation config institution None "bk_1" "2" JNull [] before created created
      Hseal before_keyed Hmade eq_refl) (fun ev Hin => False_ind _ Hin) verifier request 1000000 "1000" "0123456789abcdef" 0%nat []
      eq_refl eq_refl eq_refl eq_refl eq_refl eq_refl); [|reflexivity].
    intros x Hx. vm_compute in Hx. destruct Hx.
  - apply (proj2 (key_works_from_creation_to_revocation config institution None "bk_1" "2" JNull [Managed institution (RevokeKey "bk_1") no_content]
      before created closed Hseal before_keyed Hmade (ex_intro _ closed (conj Hclosed eq_refl)))); [|reflexivity].
    apply Exists_cons_hd. split; reflexivity.
Defined.
End KeySample.
