(* ===== verification/Server.v ===== *)
(** [services/api/src/server.ts]: one request to the API, from its bytes to its reply.  The routes, the
    hooks and the error handler are those of the other files; here they are put together as
    [buildServer] registers them.  Fastify's router and its rate-limit, CORS and header plugins are
    outside: a request comes with the route it is for, and one at a time.  To a route that is not
    registered Fastify replies 404, after the hooks. *)
From S2P Require Import Prelude Prog Embed Settings Schema Rules Intents Api Webhooks ApiKeys Compliance AccountRoutes ReadRoutes LineRoutes DealRoutes.

(** What the process asks of the outside. *)
Inductive ServerCall : Type -> Type :=
| ToContracts {X} (c : ApiCall X) : ServerCall X
| ToChain {X} (c : IntentCall X) : ServerCall X
| ToScreener {X} (c : ComplianceCall X) : ServerCall X
| ToWeb {X} (c : WebhookCall X) : ServerCall X.
Notation server_prog := (prog Database ServerCall string).
Notation server_world := (world Database ServerCall string).

Definition no_call (X : Type) (c : NoCall X) : ServerCall X := match c with end.
Definition contracts {A} : api_prog A -> server_prog A := embed (@ToContracts) (fun o => o).
Definition chain {A} : intent_prog A -> server_prog A := embed (@ToChain) (fun o => o).
Definition web {A} : account_prog A -> server_prog A := embed (@ToWeb) (fun o => o).
Definition screener {A} : gate_prog A -> server_prog A := embed (@ToScreener) (fun _ => "").
Definition database {A} : auth_prog A -> server_prog A := embed no_call (fun _ => "").

(** ** The routes, with the parameters of their URLs *)
Inductive Endpoint :=
| Healthz
| PostChallenge | PostToken | PostDevLogin
| GetAllAssets | GetPriceOf (id : string) | GetPublicMarkets
| PostSubscription | ListAllSubscriptions | DeleteOneSubscription (id : string) | ListDeliveriesOf (id : string)
| PostRedeliver (id : string) | ListWebhookEvents
| PostKey | GetKeys | DeleteKey (keyId : string)
| PostLine | GetLine (id : string) | PostFund (id : string) | PostWithdrawal (id : string) | PostClose (id : string)
| PostPledge (id : string) | DeletePledge (id pledgeId : string) | PostDraw (id : string) | PostRepayment (id : string)
| PostQuote | PostExecute (id : string)
| PostProposal | PostAccept (id : string) | PostUnwind (id : string) | PostTopUp (id : string)
| PostSubmit | PostSettle (hash : string)
| GetParty (account : string) | GetOwnPositions | GetDaily.

(** The method and the URL each is registered under. *)
Definition registered_as (ep : Endpoint) : string * string :=
  match ep with
  | Healthz => ("GET", "/healthz")
  | PostChallenge => ("POST", "/v1/auth/challenge")
  | PostToken => ("POST", "/v1/auth/token")
  | PostDevLogin => ("POST", "/v1/auth/dev-login")
  | GetAllAssets => ("GET", "/v1/assets")
  | GetPriceOf _ => ("GET", "/v1/assets/:id/price")
  | GetPublicMarkets => ("GET", "/v1/public/markets")
  | PostSubscription => ("POST", "/v1/webhooks/subscriptions")
  | ListAllSubscriptions => ("GET", "/v1/webhooks/subscriptions")
  | DeleteOneSubscription _ => ("DELETE", "/v1/webhooks/subscriptions/:id")
  | ListDeliveriesOf _ => ("GET", "/v1/webhooks/subscriptions/:id/deliveries")
  | PostRedeliver _ => ("POST", "/v1/webhooks/deliveries/:id/redeliver")
  | ListWebhookEvents => ("GET", "/v1/webhooks/events")
  | PostKey => ("POST", "/v1/api-keys")
  | GetKeys => ("GET", "/v1/api-keys")
  | DeleteKey _ => ("DELETE", "/v1/api-keys/:keyId")
  | PostLine => ("POST", "/v1/credit-lines")
  | GetLine _ => ("GET", "/v1/credit-lines/:id")
  | PostFund _ => ("POST", "/v1/credit-lines/:id/fund")
  | PostWithdrawal _ => ("POST", "/v1/credit-lines/:id/withdrawals")
  | PostClose _ => ("POST", "/v1/credit-lines/:id/close-liquidation")
  | PostPledge _ => ("POST", "/v1/credit-lines/:id/pledges")
  | DeletePledge _ _ => ("DELETE", "/v1/credit-lines/:id/pledges/:pledgeId")
  | PostDraw _ => ("POST", "/v1/credit-lines/:id/draws")
  | PostRepayment _ => ("POST", "/v1/credit-lines/:id/repayments")
  | PostQuote => ("POST", "/v1/exit/quotes")
  | PostExecute _ => ("POST", "/v1/exit/quotes/:id/execute")
  | PostProposal => ("POST", "/v1/repo/proposals")
  | PostAccept _ => ("POST", "/v1/repo/proposals/:id/accept")
  | PostUnwind _ => ("POST", "/v1/repo/trades/:id/unwind")
  | PostTopUp _ => ("POST", "/v1/repo/trades/:id/top-ups")
  | PostSubmit => ("POST", "/v1/tx/submit")
  | PostSettle _ => ("POST", "/v1/tx/:hash/settle")
  | GetParty _ => ("GET", "/v1/parties/by-account/:account")
  | GetOwnPositions => ("GET", "/v1/positions")
  | GetDaily => ("GET", "/v1/reports/daily")
  end.

(** Those registered with [{ config: { public: true } }]. *)
Definition public (ep : Endpoint) : bool :=
  match ep with
  | Healthz | PostChallenge | PostToken | PostDevLogin | GetAllAssets | GetPriceOf _ | GetPublicMarkets => true
  | _ => false
  end.

Record HttpRequest := Incoming {
  in_endpoint : Endpoint; in_query : jsval; in_url : string; in_ip : string; in_rawBody : option string;
  in_authorization : option string; in_apiKey : option string; in_signature : option string;
  in_timestamp : option string; in_nonce : option string }.

(** The engine's [JSON.parse]. *)
Class BodyLib := { parse_json : string -> outcome jsval }.

(** ** The server *)
(** [buildServer]: the configuration, the environment, and whether the development login is wired up. *)
Record Server := MkServer { sv_config : AccountConfig; sv_settings : ProcessEnv; sv_devLogin : bool }.

Definition buildServer (config : ApiConfig) (settings : ProcessEnv) : outcome Server :=
  let devLogin := bool_decide (settings "ENABLE_DEV_LOGIN" = Some "true") in
  if devLogin && is_production settings
  then Err (Error "services/api: ENABLE_DEV_LOGIN=true with NODE_ENV=production — dev-login has no proof of key ownership and must never run in production")
  else Ok (MkServer (AConfig config (is_production settings)) settings devLogin).

Definition registered (server : Server) (ep : Endpoint) : bool := match ep with PostDevLogin => sv_devLogin server | _ => true end.
Definition open_to_all (server : Server) (ep : Endpoint) : bool := registered server ep && public ep.

Section Serve.
Context `{ApiLib, NodeLib, AuthLib, AccountLib, DateLib, BodyLib}.

(** The parser of [application/json] bodies; an empty one is none. *)
Definition parse_body (rawBody : option string) : outcome (option jsval) :=
  match rawBody with
  | None | Some "" => Ok None
  | Some bytes => v <-? parse_json bytes ;; Ok (Some v)
  end.

Definition auth_request (server : Server) (req : HttpRequest) : ApiKeys.Request :=
  Req (open_to_all server (in_endpoint req)) (in_ip req) (fst (registered_as (in_endpoint req))) (in_url req) (in_rawBody req)
    (in_authorization req) (in_apiKey req) (in_signature req) (in_timestamp req) (in_nonce req).

(** [(request.body ?? {}) as Record<string, unknown>]; what is no object has no property. *)
Definition body_fields (body : option jsval) : list (string * jsval) := match body with Some (JObj l) => l | _ => [] end.

Definition gated_request (ep : Endpoint) (body : option jsval) (partyId : string) : GatedRequest :=
  GReq (fst (registered_as ep)) (snd (registered_as ep)) partyId (body_fields body).

(** [routes/tx.ts]: the body of a submission, and the replies. *)
Definition submitSchema (body : jsval) : string :=
  match field "signedXdr" z_string body with Ok s => s | Err _ => "" end.
Definition settle_json (r : SettleResult) : jsval :=
  JObj [("txHash", JStr (sr_txHash r)); ("kind", JStr (sr_kind r)); ("refId", opt_text (sr_refId r)); ("status", JStr (sr_status r));
        ("ledger", match sr_ledger r with Some n => JNum n | None => JNull end)].
Definition tx_reply (r : Reply) : HttpReply :=
  match r with
  | ReplyError code msg => HReply code (error_body msg)
  | ReplySettle code r => HReply code (settle_json r)
  end.
Definition tx_route (p : intent_prog Reply) : server_prog HttpReply := r <- chain p ;; Ret (tx_reply r).

(** The deal, the account request and the read an endpoint stands for. *)
Definition deal_request (ep : Endpoint) (body : jsval) : option DealRoutes.Request :=
  match ep with
  | PostLine => Some (OpenLineR body)
  | PostFund id => Some (FundR id body)
  | PostWithdrawal id => Some (WithdrawR id body)
  | PostClose id => Some (CloseR id)
  | PostPledge id => Some (PledgeR id body)
  | DeletePledge id pledgeId => Some (ReleaseR id pledgeId)
  | PostDraw id => Some (DrawR id body)
  | PostRepayment id => Some (RepayR id body)
  | PostExecute id => Some (ExecuteR id body)
  | PostProposal => Some (ProposeR body)
  | PostAccept id => Some (AcceptR id body)
  | PostUnwind id => Some (UnwindR id body)
  | PostTopUp id => Some (TopUpR id body)
  | _ => None
  end.

Definition account_request (ep : Endpoint) (body : option jsval) : option AccountRequest :=
  match ep with
  | PostSubscription => Some (CreateSubscription body)
  | ListAllSubscriptions => Some ListSubscriptions
  | DeleteOneSubscription id => Some (DeleteSubscription id)
  | ListDeliveriesOf id => Some (ListDeliveries id)
  | PostRedeliver id => Some (Redeliver id)
  | ListWebhookEvents => Some WebhookEvents
  | PostKey => Some (CreateKey body)
  | GetKeys => Some ListKeys
  | DeleteKey keyId => Some (RevokeKey keyId)
  | GetParty account => Some (PartyByAccount account)
  | _ => None
  end.

Definition read_request (ep : Endpoint) (query : jsval) : option ReadRequest :=
  match ep with
  | GetAllAssets => Some GetAssets
  | GetPriceOf id => Some (GetAssetPrice id)
  | GetPublicMarkets => Some GetMarkets
  | GetOwnPositions => Some (GetPositions query)
  | GetDaily => Some (GetDailyReport query)
  | _ => None
  end.

(** The endpoint's own handler. *)
Definition handler (server : Server) (caller : Caller) (ep : Endpoint) (query : jsval) (body : option jsval) : server_prog HttpReply :=
  let json := default JNull body in
  if negb (registered server ep) then Ret (HReply 404 JNull)
  else match deal_request ep json,
        account_request ep body, read_request ep query with
  | Some r, _, _ => contracts (route (ca_partyId caller) r)
  | None, Some r, _ => web (account_route (sv_config server) caller r)
  | None, None, Some r => contracts (read_route (sv_settings server) (ca_partyId caller) r)
  | None, None, None =>
      match ep with
      | PostChallenge => web (challenge_route (sv_config server) json)
      | PostToken => web (token_route (sv_config server) json)
      | PostDevLogin => web (dev_login_route (sv_config server) json)
      | GetLine id => contracts (get_line_route (ca_partyId caller) id)
      | PostQuote => contracts (quote_route (ca_partyId caller) json)
      | PostSubmit => tx_route (submit_route chain_txHash (ca_partyId caller) (submitSchema json))
      | PostSettle hash => tx_route (settle_route (ca_partyId caller) hash)
      | _ => Ret (HReply 200 (JObj [("ok", JBool true)]))
      end
  end.

(** ** A request *)
(** The compliance hook, where it is registered; its reply, if it replies. *)
Definition held (server : Server) (ep : Endpoint) (body : option jsval) (partyId : string) : server_prog (option Hold) :=
  if complianceEnforced (sv_config server) then screener (compliance_hook (gated_request ep body partyId)) else Ret None.

(** From authentication on: the compliance hook, then the handler, errors going to the error handler.
    A public request has no identity. *)
Definition admitted (server : Server) (req : HttpRequest) (body : option jsval) (caller : Caller) : server_prog HttpReply :=
  hold <- held server (in_endpoint req) body (ca_partyId caller) ;;
  match hold with
  | Some h => Ret (HReply (hd_status h) (error_body (hd_error_text h)))
  | None => handler server caller (in_endpoint req) (in_query req) body
  end.

Definition answered (p : server_prog HttpReply) : server_prog HttpReply := catch p (fun err => Ret (error_reply err)).

Definition nobody : Caller := Caller_of "" "" "".

Definition serve (server : Server) (st : AuthState) (req : HttpRequest) : server_prog (HttpReply * AuthState) :=
  match parse_body (in_rawBody req) with
  | Err err => Ret (error_reply_of (Some 400) err, st)
  | Ok body =>
      authenticated <- attempt (database (buildAuthHook (sv_config server) st (auth_request server req))) ;;
      match authenticated with
      | Err err => Ret (error_reply err, st)
      | Ok (Refused code error, st) => Ret (HReply code (error_body error), st)
      | Ok (PublicRoute, st) => reply <- answered (admitted server req body nobody) ;; Ret (reply, st)
      | Ok (Authenticated partyId account method, st) =>
          reply <- answered (admitted server req body (Caller_of partyId account method)) ;; Ret (reply, st)
      end
  end.
End Serve.
