(* ===== verification/ServerSafety.v ===== *)
(** What a request to the API goes through: nobody gets past the hooks without an identity, and what
    the handler then does is what its own file promises, for that identity and on the books the hooks
    left. *)
From stdpp Require Import relations.
From S2P Require Import Prelude Prog Embed Shape Settings Schema Rules Intents Api Webhooks ApiKeys ApiKeySafety Compliance ComplianceSafety.
From S2P Require Import AccountRoutes AccountSafety ReadRoutes ReadSafety LineRoutes DealRoutes RouteSpec RouteSafety Lifecycle Server.

(** ** What the hooks leave *)
Definition unused (k : partyApiKey_row) : partyApiKey_row :=
  PartyApiKey (ak_id k) (ak_partyId k) (ak_stellarAccount k) (ak_keyId k) (ak_secretCiphertext k) (ak_label k) (ak_status k)
    (ak_createdAt k) None (ak_revokedAt k).

(** Authentication records a nonce and a key's last use, and nothing else. *)
Record entered (d d' : Database) : Prop := Entered {
  en_others : forall t, t <> apiKeyNonce -> t <> partyApiKey -> d' t = d t;
  en_keys : List.map unused (d' partyApiKey) = List.map unused (d partyApiKey);
  en_nonces : exists new, d' apiKeyNonce = d apiKeyNonce ++ new }.

(** The gate adds screenings and their audits. *)
Record screened (d d' : Database) : Prop := ScreenedBooks {
  sd_others : forall t, t <> complianceCheck -> t <> auditLog -> d' t = d t;
  sd_checks : exists new, d' complianceCheck = d complianceCheck ++ new;
  sd_audits : exists new, d' auditLog = d auditLog ++ new }.

Lemma entered_refl d : entered d d.
Proof. split; [done|done|exists []; by rewrite app_nil_r]. Qed.
Lemma entered_same d d' : d' = d -> entered d d'.
Proof. intros ->. apply entered_refl. Qed.
Lemma screened_same d d' : d' = d -> screened d d'.
Proof. intros ->. split; [done|exists []; by rewrite app_nil_r..]. Qed.

Section Hooks.
Context `{NodeLib, AuthLib}.

Lemma entered_nonce d (n : apiKeyNonce_row) : entered d (set_table apiKeyNonce (d apiKeyNonce ++ [n]) d).
Proof. split; [intros t Ht _; by rewrite set_table_other|by rewrite set_table_other|exists [n]; by rewrite set_table_same]. Qed.

Lemma entered_used d d1 (f : partyApiKey_row -> partyApiKey_row) :
  entered d d1 -> (forall k, unused (f k) = unused k) -> entered d (set_table partyApiKey (List.map f (d1 partyApiKey)) d1).
Proof.
  intros [Ho Hk [new Hn]] Hf. split.
  - intros t Ht1 Ht2. rewrite set_table_other by done. by apply Ho.
  - rewrite set_table_same, List.map_map, <- Hk. apply List.map_ext. apply Hf.
  - exists new. by rewrite set_table_other.
Qed.

Lemma wp_verify_entered secretKey req now (w : auth_world) :
  wp any_answer (verifyApiKeyRequest secretKey req now) (fun _ w' => entered (w_db w) (w_db w')) w.
Proof.
  assert (Hsame : forall (w' : auth_world), w_db w' = w_db w -> entered (w_db w) (w_db w')) by (intros; by apply entered_same).
  unfold verifyApiKeyRequest, select_one. wp_step. wp_step. wp_step; [intros x; by apply Hsame|]. wp_step.
  destruct (hd_error _) as [key|]; [|by apply Hsame]. wp_step; [by apply Hsame|].
  destruct (sr_timestamp req) as [ts|]; [|by apply Hsame]. wp_step; [by apply Hsame|]. wp_step; [by apply Hsame|].
  destruct (sr_nonce req) as [nonce|]; [|by apply Hsame]. wp_step; [by apply Hsame|]. wp_step. wp_step.
  destruct (decryptSecret _ _) as [secret|x]; [|by apply Hsame]. cbv zeta. wp_step; [by apply Hsame|].
  wp_step. wp_step; [intros x; by apply Hsame|intros s _; wp_step; by apply Hsame|].
  intros s _ _ _. split; [|intros x; apply entered_nonce]. wp_step. wp_step; [intros x; apply entered_nonce|]. intros s2.
  split; [wp_step|intros x]; (apply entered_used; [apply entered_nonce|]); intros k; destruct (eqs (ak_id k) (ak_id key)); reflexivity.
Qed.

Lemma wp_auth_entered config st request (w : auth_world) :
  wp any_answer (buildAuthHook config st request) (fun _ w' => entered (w_db w) (w_db w')) w.
Proof.
  assert (Hsame : forall (w' : auth_world), w_db w' = w_db w -> entered (w_db w) (w_db w')) by (intros; by apply entered_same).
  unfold buildAuthHook. destruct (rq_public request); [by apply Hsame|].
  assert (Hbearer : forall o, wp any_answer match o with
     | Some authHeader => if starts_with "Bearer " authHeader
         then match verifySessionToken (string_drop 7 authHeader) (jwtSigningSecret config) with
              | Err _ => Ret (Refused 401 "invalid or expired token", st)
              | Ok stellarAccount =>
                  account <- select_one partyAccount (fun a => eqs (pc_stellarAccount a) stellarAccount) ;;
                  match account with
                  | None => Ret (Refused 401 "stellar account not linked to a known party", st)
                  | Some account => Ret (Authenticated (pc_partyId account) stellarAccount "session", st)
                  end
              end
         else Ret (Refused 401 "missing bearer token or api key/signature", st)
     | None => Ret (Refused 401 "missing bearer token or api key/signature", st)
     end (fun _ w' => entered (w_db w) (w_db w')) w).
  { intros [h|]; [|by apply Hsame]. wp_step; [|by apply Hsame]. destruct (verifySessionToken _ _); [|by apply Hsame].
    unfold select_one. wp_step. wp_step. wp_step; [intros x; by apply Hsame|]. wp_step. destruct (hd_error _); by apply Hsame. }
  destruct (rq_apiKey request) as [apiKey|]; [destruct (rq_signature request) as [signature|]|]; [|apply Hbearer..].
  wp_step. wp_step. wp_step; [by apply Hsame|]. wp_step. wp_step. wp_step. eapply wp_mono; [|apply wp_verify_entered].
  intros r w1 Hw. destruct r as [[p a k|f]|x]; [| |exact Hw]; wp_step; wp_step; destruct (hit _ _ _ _ _); cbv zeta; [wp_step; exact Hw|exact Hw].
Qed.
End Hooks.

(** ** What each part of the server may ask *)
Definition no_one (X : Type) (c : ServerCall X) : Prop := False.
Definition the_screener (X : Type) (c : ServerCall X) : Prop := match c with ToScreener _ => True | _ => False end.
Definition the_web (X : Type) (c : ServerCall X) : Prop := match c with ToWeb _ => True | _ => False end.
(** A read of the contracts; an envelope is none. *)
Definition a_read (X : Type) (c : ApiCall X) : Prop := match c with BuildTx _ => False | _ => True end.
Definition contract_read (X : Type) (c : ServerCall X) : Prop := match c with ToContracts c => a_read _ c | _ => False end.
(** A transaction sent is an envelope of the body, for a pending intent of the party's. *)
Definition own_send `{ApiLib} (partyId signedXdr : string) (d : Database) (X : Type) (c : IntentCall X) : Prop :=
  match c with
  | ChainSend xdr => xdr = signedXdr /\ exists h i, chain_txHash xdr = Ok h /\ In i (d txIntent) /\ ti_txHash i = h /\
      ti_partyId i = partyId /\ ti_status i = "pending"
  | _ => True
  end.
Definition no_send (X : Type) (c : IntentCall X) : Prop := match c with ChainSend _ => False | _ => True end.
Definition own_submission `{ApiLib} (partyId signedXdr : string) (d : Database) (X : Type) (c : ServerCall X) : Prop :=
  match c with ToChain c => own_send partyId signedXdr d _ c | _ => False end.

#[local] Hint Extern 1 (a_read _ _) => exact I : within.
#[local] Hint Extern 1 (no_send _ _) => exact I : within.

Section Parts.
Context `{ApiLib, NodeLib, AuthLib, AccountLib, DateLib, BodyLib}.

Lemma auth_asks_no_one config st request : within any_stmt no_one (database (buildAuthHook config st request)).
Proof. by eapply within_embed; [apply within_anything|]. Qed.

Lemma held_asks_the_screener server ep body partyId : within any_stmt the_screener (held server ep body partyId).
Proof. unfold held. destruct (complianceEnforced _); [|done]. by eapply within_embed; [apply within_anything|]. Qed.

Lemma web_asks_the_web {A} (p : account_prog A) : within any_stmt the_web (web p).
Proof. by eapply within_embed; [apply within_anything|]. Qed.

(** A public endpoint reads the database, perhaps, and asks nobody. *)
Lemma public_reads server caller ep query body :
  open_to_all server ep = true -> within leaves_db no_one (handler server caller ep query body).
Proof.
  assert (Hread : forall r, within leaves_db no_one (contracts (read_route (sv_settings server) (ca_partyId caller) r))).
  { intros r. by eapply within_embed; [apply quiet_read_route|]. }
  assert (Hweb : forall p : account_prog HttpReply, within leaves_db (fun _ _ => False) p -> within leaves_db no_one (web p)).
  { intros p Hp. by eapply within_embed. }
  intros [Hr Hp]%andb_true_iff. unfold handler. rewrite Hr. cbn [negb].
  destruct ep; try done; cbn [deal_request account_request read_request]; try apply Hread; try apply Hweb; try done.
  - unfold challenge_route, refuse. auto with within.
  - unfold token_route, log_in, refuse, signSessionToken. cbv zeta. auto 20 with within.
  - unfold dev_login_route, log_in, refuse, signSessionToken. auto 20 with within.
Qed.

(** What an authenticated party reads: a line with the contract's view of it, its positions, its report. *)
Lemma get_line_reads partyId id : within leaves_db a_read (get_line_route partyId id).
Proof.
  unfold get_line_route, with_line, requireCreditLine, by_param, fail, estimateLtvBps, add_collateral, requireAsset,
    latestGuardedPrice, read_chain, outstandingDebt. stay_within.
Qed.

(** A settlement asks the network and the contracts, and sends nothing. *)
Lemma settle_sends_nothing intent : within any_stmt no_send (settle intent).
Proof.
  unfold settle, settle_closed, settle_fail, recordSettleError, readContractState, runWithDb, applySuccess, applyFailure, applyCloseLiquidated,
    applyRepay, applyTopUp, outstandingDebt, findIntent, update_row. stay_within.
Qed.

Lemma poll_sends_nothing n intent : within any_stmt no_send (poll_settle n intent).
Proof.
  induction n as [|n IH]; cbn [poll_settle]; [done|]. pose proof (settle_sends_nothing intent). unfold settleIntent. auto 20 with within.
Qed.

Lemma submit_sends_own partyId signedXdr (w : intent_world) :
  wp any_answer (submit_route chain_txHash partyId signedXdr) (fun _ w' => logged (own_send partyId signedXdr (w_db w)) w w') w.
Proof.
  unfold submit_route. assert (Hsame : forall w', w_log w' = w_log w -> logged (own_send partyId signedXdr (w_db w)) w w') by (intros; by apply logged_same).
  wp_step; [by apply Hsame|]. destruct (chain_txHash signedXdr) as [h|x] eqn:Eh; [|by apply Hsame].
  wp_step. unfold findIntent. wp_step. wp_step; [intros x; by apply Hsame|]. wp_step.
  destruct (hd_error _) as [i|] eqn:Ei; [|by apply Hsame]. apply head_filter_In in Ei as [Hi Hh]. apply bool_decide_eq_true in Hh.
  wp_step; [by apply Hsame|]. apply negb_false_iff, bool_decide_eq_true in E0. wp_step; [by apply Hsame|]. apply negb_false_iff, bool_decide_eq_true in E1.
  wp_step. wp_step. wp_step. set (w1 := note _ _).
  assert (Hsent : logged (own_send partyId signedXdr (w_db w)) w w1).
  { eapply logged_trans; [by apply (Hsame (tick w))|]. apply logged_note. cbn. split; [done|]. by exists h, i. }
  destruct r as [hash|x]; [|exact Hsent]. eapply wp_mono; [|apply (wp_logged _ _ _ _ _ (poll_sends_nothing _ _))].
  intros r w2 (l & El & Hl). eapply logged_trans; [exact Hsent|]. exists l. split; [done|].
  eapply made_by_mono; [|exact Hl]. intros X c. by destruct c.
Qed.

Lemma settle_route_sends_nothing partyId hash : within any_stmt no_send (settle_route partyId hash).
Proof. unfold settle_route, settleIntent, findIntent. pose proof settle_sends_nothing. auto 20 with within. Qed.

(** A quote adds one row, the caller's, open. *)
Definition quoted (partyId : string) (d d' : Database) : Prop :=
  d' = d \/ exists q, eq_holderId q = partyId /\ eq_status q = "open" /\ d' = set_table exitQuote (d exitQuote ++ [q]) d.

Lemma quote_builds_nothing partyId body : within any_stmt a_read (quote_route partyId body).
Proof. unfold quote_route, requireAsset, LineRoutes.created. stay_within. Qed.

Lemma wp_quote partyId body (w : api_world) : wp any_answer (quote_route partyId body) (fun _ w' => quoted partyId (w_db w) (w_db w')) w.
Proof.
  assert (Hsame : forall w' : api_world, w_db w' = w_db w -> quoted partyId (w_db w) (w_db w')) by (by left).
  assert (Hlift : forall A (r : outcome A) (w' : api_world) (k : A -> api_prog HttpReply), w_db w' = w_db w ->
    (forall a, wp any_answer (k a) (fun _ w' => quoted partyId (w_db w) (w_db w')) w') ->
    wp any_answer (bind (lift r) k) (fun _ w' => quoted partyId (w_db w) (w_db w')) w').
  { intros A [a|x] w' k Ed Hk; [apply Hk|by apply Hsame]. }
  unfold quote_route, requireAsset, select_one. apply Hlift; [done|]. intros b. wp_step. wp_step. wp_step. wp_step; [intros x; by apply Hsame|].
  wp_step. wp_step; [|by apply Hsame]. wp_step. wp_step. wp_step. destruct r0 as [q|x]; [|by apply Hsame].
  do 4 (apply Hlift; [done|]; intros ?). wp_step. wp_step; [intros x; by apply Hsame|]. intros s _ _ _.
  match goal with |- context [after ?w' ?d'] => assert (Hq : quoted partyId (w_db w) (w_db (after w' d'))) by (right; eexists; by repeat split) end.
  split; [|intros x; exact Hq]. do 3 (wp_step; wp_step; match goal with |- match ?r with _ => _ end => destruct r; [|exact Hq] end).
  exact Hq.
Qed.

(** ** What the handler of an endpoint does for an identity *)
Section Handled.
Context (server : Server) (e : env ServerCall).
Notation entry := (entry ServerCall string).

(** From books [d] at tick [n]: a deal concluded, an account request, a quote, a submission or a
    settlement of the party's own intents, or reads. *)
Definition handled (caller : Caller) (n : nat) (d : Database) (ep : Endpoint) (body : option jsval) (r : outcome HttpReply)
    (log : list entry) (d' : Database) : Prop :=
  let json := default JNull body in
  match deal_request ep json, account_request ep body with
  | Some _, _ => exists l, log = List.map (embed_entry (@ToContracts) (fun o => o)) l /\
      concluded (stamps e) (ca_partyId caller) n d d' l r
  | None, Some req => Forall (made_by the_web) log /\ account_effect (sv_config server) caller req d d'
  | None, None =>
      match ep with
      | PostQuote => Forall (made_by contract_read) log /\ quoted (ca_partyId caller) d d'
      | PostSubmit => Forall (made_by (own_submission (ca_partyId caller) (submitSchema json) d)) log /\ steps (of_party (ca_partyId caller)) d d'
      | PostSettle _ => Forall (made_by (own_submission (ca_partyId caller) "" d)) log /\ steps (of_party (ca_partyId caller)) d d'
      | _ => Forall (made_by contract_read) log /\ d' = d
      end
  end.

(** The run of an embedded component, from what holds of the component alone. *)
Lemma run_part {E1 : Type -> Type} {O1 A} (calls : forall X, E1 X -> ServerCall X) (outs : O1 -> string) (p : prog Database E1 O1 A) (w : server_world)
    (Q : outcome A -> Database -> Prop) (C1 : forall X, E1 X -> Prop) (C : forall X, ServerCall X -> Prop) :
  wp any_answer p (fun r w' => Q r (w_db w') /\ logged C1 (World (w_db w) (w_tick w) []) w') (World (w_db w) (w_tick w) []) ->
  (forall X c, C1 X c -> C X (calls X c)) ->
  let '(r, w') := run e (embed calls outs p) w in exists log, w_log w' = w_log w ++ log /\ Forall (made_by C) log /\ Q r (w_db w').
Proof.
  intros Hw Hc. apply (wp_sound _ (part calls e)) in Hw; [|apply any_answer_respects].
  rewrite run_embed. destruct (run (part calls e) p _) as [r w']. destruct Hw as (HQ & l & El & Hl). cbn in El.
  exists (List.map (embed_entry calls outs) l). cbn. split; [by rewrite El|]. split; [|done].
  apply List.Forall_map. eapply Forall_impl; [exact Hl|]. intros [X c r'|o]; cbn; auto.
Qed.

Lemma within_part {E1 : Type -> Type} {O1 A} (p : prog Database E1 O1 A) d n Q stmts (C1 : forall X, E1 X -> Prop) :
  within stmts C1 p -> wp any_answer p (fun r w' => Q r (w_db w')) (World d n []) ->
  wp any_answer p (fun r w' => Q r (w_db w') /\ logged C1 (World d n []) w') (World d n []).
Proof. intros Hp Hw. apply wp_and; [done|]. by eapply wp_logged. Qed.

Lemma leaves_part {E1 : Type -> Type} {O1 A} (p : prog Database E1 O1 A) d n (C1 : forall X, E1 X -> Prop) :
  within leaves_db C1 p -> wp any_answer p (fun r w' => w_db w' = d /\ logged C1 (World d n []) w') (World d n []).
Proof. intros Hp. apply (within_part p d n (fun _ d' => d' = d) leaves_db); [done|]. by eapply (wp_leaves_db _ _ p (World d n [])). Qed.

Lemma run_tx partyId signedXdr (p : intent_prog Reply) (w : server_world) :
  wp any_answer p (fun _ w' => steps (of_party partyId) (w_db w) (w_db w') /\
    logged (own_send partyId signedXdr (w_db w)) (World (w_db w) (w_tick w) []) w') (World (w_db w) (w_tick w) []) ->
  let '(r, w') := run e (tx_route p) w in
  exists log, w_log w' = w_log w ++ log /\ Forall (made_by (own_submission partyId signedXdr (w_db w))) log /\
    steps (of_party partyId) (w_db w) (w_db w').
Proof.
  intros Hw. unfold tx_route. rewrite run_bind.
  pose proof (run_part (@ToChain) (fun o => o) p w (fun _ d' => steps (of_party partyId) (w_db w) d') _
    (own_submission partyId signedXdr (w_db w)) Hw (fun _ _ Hc => Hc)) as Hr.
  unfold chain. destruct (run e _ w) as [[r|x] w']; exact Hr.
Qed.

Lemma run_handler caller ep query body (w : server_world) :
  open_to_all server ep = false ->
  let '(r, w') := run e (handler server caller ep query body) w in
  exists log, w_log w' = w_log w ++ log /\ handled caller (w_tick w) (w_db w) ep body r log (w_db w').
Proof.
  intros Hp. unfold handler, handled. cbv zeta. destruct (registered server ep) eqn:Er; cbn [negb].
  2: { destruct ep; try discriminate. exists []. by rewrite app_nil_r. }
  unfold open_to_all in Hp. rewrite Er in Hp. cbn [andb] in Hp. destruct (deal_request ep (default JNull body)) as [rq|] eqn:Ed.
  { unfold contracts. rewrite run_embed. set (w1 := World (w_db w) (w_tick w) []).
    pose proof (wp_sound _ (part (@ToContracts) e) _ _ _ (stamped_by_respects _) (wp_route (part (@ToContracts) e) (ca_partyId caller) w1 rq)) as Hw.
    destruct (run _ _ w1) as [r w']. destruct Hw as (l & El & Hl). exists (List.map (embed_entry (@ToContracts) (fun o => o)) l).
    cbn in El |- *. rewrite El. split; [done|]. exists l. done. }
  destruct (account_request ep body) as [rq|] eqn:Ea.
  { apply (run_part (@ToWeb) (fun o => o) (account_route (sv_config server) caller rq) w
      (fun _ d' => account_effect (sv_config server) caller rq (w_db w) d') any_call the_web); [|done].
    apply (within_part _ _ _ (fun _ d' => account_effect (sv_config server) caller rq (w_db w) d') any_stmt); [apply within_anything|].
    eapply wp_mono; [|apply (wp_account_route (sv_config server) caller rq (World (w_db w) (w_tick w) []))].
    by intros r w' [He _]. }
  destruct ep; try discriminate; cbn [read_request].
  - apply (run_part (@ToContracts) (fun o => o) (get_line_route (ca_partyId caller) id) w (fun _ d' => d' = w_db w) a_read contract_read); [|done]. apply leaves_part, get_line_reads.
  - apply (run_part (@ToContracts) (fun o => o) (quote_route (ca_partyId caller) (default JNull body)) w
      (fun _ d' => quoted (ca_partyId caller) (w_db w) d') a_read contract_read); [|done].
    apply (within_part _ _ _ (fun _ d' => quoted (ca_partyId caller) (w_db w) d') any_stmt); [apply quote_builds_nothing|].
    apply (wp_quote (ca_partyId caller) (default JNull body) (World (w_db w) (w_tick w) [])).
  - apply run_tx. set (w1 := World (w_db w) (w_tick w) []).
    apply wp_and; [apply (wp_submit_steps chain_txHash (ca_partyId caller) _ w1)|apply (submit_sends_own (ca_partyId caller) _ w1)].
  - apply run_tx. set (w1 := World (w_db w) (w_tick w) []). apply wp_and; [apply (wp_settle_route_steps (ca_partyId caller) hash w1)|].
    eapply wp_mono; [|eapply wp_logged, settle_route_sends_nothing]. intros r w' (l & El & Hl). exists l. split; [done|].
    eapply made_by_mono; [|exact Hl]. intros X c. by destruct c.
  - apply (run_part (@ToContracts) (fun o => o) (read_route (sv_settings server) (ca_partyId caller) (GetPositions query)) w
      (fun _ d' => d' = w_db w) (fun _ _ => False) contract_read); [|done]. apply leaves_part, quiet_read_route.
  - apply (run_part (@ToContracts) (fun o => o) (read_route (sv_settings server) (ca_partyId caller) (GetDailyReport query)) w
      (fun _ d' => d' = w_db w) (fun _ _ => False) contract_read); [|done]. apply leaves_part, quiet_read_route.
Qed.

(** ** The checks before the handler *)
(** The caller of a gated endpoint and everyone its body names are cleared. *)
Definition everyone_cleared (ep : Endpoint) (body : option jsval) (partyId : string) (d : Database) : Prop :=
  partyId <> "" -> forall route,
  List.find (fun r => eqs (gr_method r) (fst (registered_as ep)) && eqs (gr_url r) (snd (registered_as ep))) GATED_ROUTES = Some route ->
  forall p, p = partyId \/ In (JStr p) (gr_counterparties route (body_fields body)) -> exists at_, cleared d p at_.
Definition cleared_for (ep : Endpoint) (body : option jsval) (partyId : string) (d : Database) : Prop :=
  complianceEnforced (sv_config server) = true -> everyone_cleared ep body partyId d.

(** What the gate leaves, and its answer. *)
Definition gate_done ep body partyId (d : Database) (r : outcome (option Hold)) (d' : Database) : Prop :=
  screened d d' /\ match r with Ok None => everyone_cleared ep body partyId d' | Ok (Some h) => 400 <= hd_status h | Err _ => True end.

Lemma run_held ep body partyId (w : server_world) :
  let '(r, w') := run e (held server ep body partyId) w in
  exists log, w_log w' = w_log w ++ log /\ Forall (made_by the_screener) log /\ screened (w_db w) (w_db w') /\
    match r with Ok None => cleared_for ep body partyId (w_db w') | Ok (Some h) => 400 <= hd_status h | Err _ => True end.
Proof.
  unfold held, cleared_for. destruct (complianceEnforced (sv_config server)).
  - pose proof (run_part (@ToScreener) (fun _ => "") (compliance_hook (gated_request ep body partyId)) w
      (gate_done ep body partyId (w_db w)) any_call the_screener) as Hp.
    unfold screener. destruct (run e _ w) as [r w'].
    destruct Hp as (log & El & Hl & Hs & Hr); [|done|exists log; split; [done|]; split; [done|]; split; [done|]; by destruct r as [[h|]|x]].
    apply (within_part _ _ _ (gate_done ep body partyId (w_db w)) any_stmt); [apply within_anything|].
    set (w0 := World (w_db w) (w_tick w) []).
    eapply wp_mono; [|apply wp_and; [apply (wp_compliance_hook (gated_request ep body partyId) w0)|apply (wp_hook_audits (gated_request ep body partyId) w0)]].
    intros r' w1 [(Ho & Hn & Hr) Ha]. split; [by split|]. destruct r' as [[h|]|x]; [lia|intros Hp route Hf p; by apply (Hr route)|done].
  - exists []. rewrite app_nil_r. split; [done|]. split; [done|]. split; [by apply screened_same|done].
Qed.

(** ** What becomes of a request *)
Definition identified (req : HttpRequest) (d d1 : Database) (caller : Caller) : Prop :=
  open_to_all server (in_endpoint req) = false /\
  proven (sv_config server) (auth_request server req) d d1 (ca_partyId caller) (ca_stellarAccount caller) (ca_authMethod caller).

Definition final (r : outcome HttpReply) : HttpReply := match r with Ok reply => reply | Err err => error_reply err end.

(** What a request without an identity is told: that it has none, or what the error handler says of a body
    that does not parse and of a database that failed. *)
Inductive refusal : HttpReply -> Prop :=
| NotProven code msg : code = 401 \/ code = 429 -> refusal (HReply code (error_body msg))
| BadBody err : refusal (error_reply_of (Some 400) err)
| Failed err : refusal (error_reply err).

Inductive served (req : HttpRequest) (d : Database) (n0 : nat) (reply : HttpReply) (log : list entry) (d' : Database) : Prop :=
| ServedRefused : refusal reply -> Forall (made_by no_one) log -> entered d d' -> served req d n0 reply log d'
| ServedPublic body :
    open_to_all server (in_endpoint req) = true -> parse_body (in_rawBody req) = Ok body ->
    reply = final (fst (run e (handler server nobody (in_endpoint req) (in_query req) body) (World d n0 []))) ->
    Forall (made_by no_one) log -> d' = d -> served req d n0 reply log d'
| ServedHeld caller d1 :
    identified req d d1 caller -> entered d d1 -> screened d1 d' -> Forall (made_by the_screener) log -> 400 <= rp_code reply ->
    served req d n0 reply log d'
| ServedHandled caller body d1 d2 n log1 log2 r :
    identified req d d1 caller -> entered d d1 ->
    parse_body (in_rawBody req) = Ok body ->
    screened d1 d2 -> Forall (made_by the_screener) log1 -> cleared_for (in_endpoint req) body (ca_partyId caller) d2 ->
    handled caller n d2 (in_endpoint req) body r log2 d' -> log = log1 ++ log2 -> reply = final r ->
    served req d n0 reply log d'.

Lemma error_reply_refuses err : 400 <= rp_code (error_reply err).
Proof. unfold error_reply, error_reply_of. repeat case_match; cbn; lia. Qed.

(** From an identity on. *)
Lemma run_admitted req body caller (w : server_world) :
  open_to_all server (in_endpoint req) = false ->
  let '(r, w') := run e (admitted server req body caller) w in
  exists log, w_log w' = w_log w ++ log /\
  ((screened (w_db w) (w_db w') /\ Forall (made_by the_screener) log /\ 400 <= rp_code (final r)) \/
   exists d2 n log1 log2, screened (w_db w) d2 /\ Forall (made_by the_screener) log1 /\
     cleared_for (in_endpoint req) body (ca_partyId caller) d2 /\ handled caller n d2 (in_endpoint req) body r log2 (w_db w') /\ log = log1 ++ log2).
Proof.
  intros Hp. unfold admitted. rewrite run_bind. pose proof (run_held (in_endpoint req) body (ca_partyId caller) w) as Hh.
  destruct (run e (held server _ body _) w) as [r1 w1]. destruct Hh as (log1 & E1 & Hl1 & Hs & Hr).
  destruct r1 as [[h|]|x].
  - exists log1. split; [done|]. by left.
  - pose proof (run_handler caller (in_endpoint req) (in_query req) body w1 Hp) as Hh. destruct (run e _ w1) as [r w'].
    destruct Hh as (log2 & E2 & Hd2). exists (log1 ++ log2). split; [by rewrite E2, E1, app_assoc|]. right.
    by exists (w_db w1), (w_tick w1), log1, log2.
  - exists log1. split; [done|]. left. split; [done|]. split; [done|]. apply error_reply_refuses.
Qed.

Lemma run_answered' (p : server_prog HttpReply) (w : server_world) :
  run e (answered p) w = (let '(r, w') := run e p w in (Ok (final r), w')).
Proof. unfold answered. rewrite run_catch. by destruct (run e p w) as [[r|x] w']. Qed.

Lemma refusal_refuses reply : refusal reply -> 400 <= rp_code reply.
Proof. intros [code msg [-> | ->]|err|err]; [done..| |apply error_reply_refuses]. unfold error_reply_of. repeat case_match; cbn; lia. Qed.

(** The hook's run: no call, and the identity it found. *)
Lemma run_auth st req (w : server_world) :
  let '(r, w') := run e (database (buildAuthHook (sv_config server) st (auth_request server req))) w in
  exists log, w_log w' = w_log w ++ log /\ Forall (made_by no_one) log /\ entered (w_db w) (w_db w') /\
    forall reply st', r = Ok (reply, st') -> match reply with
      | PublicRoute => open_to_all server (in_endpoint req) = true
      | Refused code _ => code = 401 \/ code = 429
      | Authenticated p a m => proven (sv_config server) (auth_request server req) (w_db w) (w_db w') p a m
      end.
Proof.
  unfold database. rewrite run_embed. set (w1 := World (w_db w) (w_tick w) []). set (p := buildAuthHook _ st _).
  pose proof (wp_sound _ (part no_call e) _ _ _ (any_answer_respects _) (wp_auth_entered (sv_config server) st (auth_request server req) w1)) as H1'.
  pose proof (wp_sound _ (part no_call e) _ _ _ (stamped_by_respects _) (wp_buildAuthHook (part no_call e) (sv_config server) st (auth_request server req) w1)) as H2'.
  pose proof (run_logged any_stmt any_call (part no_call e) p w1 (within_anything p)) as (l & El & Hl). fold p in H1', H2'.
  destruct (run _ p w1) as [r w']. cbn in El. exists (List.map (embed_entry no_call (fun _ => "")) l). cbn. split; [by rewrite El|].
  split; [|by split]. apply List.Forall_map. eapply Forall_impl; [exact Hl|]. by intros [X [] r'|o].
Qed.

(** Without an identity nobody is gated, and a public endpoint only reads. *)
Lemma nobody_is_gated ep body : compliance_hook (gated_request ep body "") = Ret None.
Proof. unfold compliance_hook. by destruct (List.find _ _). Qed.

Lemma nobody_reads req body : open_to_all server (in_endpoint req) = true -> within leaves_db no_one (admitted server req body nobody).
Proof.
  intros Hp. unfold admitted, held. apply within_bind.
  - destruct (complianceEnforced _); [|done]. cbn [ca_partyId nobody]. by rewrite nobody_is_gated.
  - intros [h|]; [done|]. by apply public_reads.
Qed.
End Handled.

(** C6. Nobody gets past the checks, and past them a request does what its endpoint's specification says.
    Whatever the network, the contracts, the screener and the database do, a request to the API is
    answered, in one of four ways.  It is refused, with a code of 400 or more and nothing but the refusal
    or the error handler's text: then nobody outside was asked anything, and the only rows that can have
    changed are nonces and the last use of keys.  Or its endpoint is a public one: it gets what that
    endpoint's handler says to nobody in particular, nobody outside is asked and no row changes.  Or it
    proved who it is, a session or a signed request with an unused nonce of an active key, and the gate
    held it with an error, adding screenings and their audits only.  Or it proved who it is, it and
    everyone it names are cleared where the gate is enforced, and its handler then did what it may do for
    that party on the books the checks left: a deal the party is entitled to, a change to its own keys,
    subscriptions or deliveries, one quote, the submission or settlement of its own intents, or a read. *)
Theorem only_checked_requests_are_handled (server : Server) (e : env ServerCall) (st : AuthState) (req : HttpRequest) (d : Database) n :
  let '(r, w) := run e (serve server st req) (World d n []) in
  exists reply st', r = Ok (reply, st') /\ served server e req d n reply (w_log w) (w_db w) /\
    (refusal reply -> 400 <= rp_code reply).
Proof.
  assert (Hend : forall reply st' log d', served server e req d n reply log d' ->
    exists reply' st'', @Ok (HttpReply * AuthState) (reply, st') = Ok (reply', st'') /\ served server e req d n reply' log d' /\ (refusal reply' -> 400 <= rp_code reply'))
    by (intros reply st' log d' Hs; exists reply, st'; split; [done|]; split; [done|]; apply refusal_refuses).
  unfold serve. destruct (parse_body (in_rawBody req)) as [body|err] eqn:Eb;
    [|apply Hend, ServedRefused; [constructor|done|apply entered_refl]].
  rewrite run_bind, run_attempt. destruct (open_to_all server (in_endpoint req)) eqn:Hpub.
  { unfold buildAuthHook. cbn [auth_request rq_public]. rewrite Hpub. unfold database. cbn [embed run].
    rewrite run_bind, run_answered'. pose proof (nobody_reads server req body Hpub) as Hn.
    pose proof (run_leaves_db _ e _ (World d n []) Hn) as Hd. pose proof (run_logged _ _ e _ (World d n []) Hn) as (l & El & Hl).
    assert (Eh : run e (admitted server req body nobody) (World d n []) = run e (handler server nobody (in_endpoint req) (in_query req) body) (World d n [])).
    { unfold admitted, held. rewrite run_bind. destruct (complianceEnforced _); [|done]. cbn [ca_partyId nobody]. by rewrite nobody_is_gated. }
    rewrite Eh in *. destruct (run e (handler _ _ _ _ _) _) as [r2 w2] eqn:E2. cbn in El, Hd |- *. apply Hend.
    eapply ServedPublic; [done|done|by rewrite E2|by rewrite El|done]. }
  pose proof (run_auth server e st req (World d n [])) as Ha.
  destruct (run e (database _) _) as [r1 w1]. destruct Ha as (log1 & E1 & Hl1 & Hent & Hr). cbn in E1, Hent.
  destruct r1 as [[[|code error|p a m] st1]|err]; specialize (fun reply st' E => Hr reply st' E).
  - specialize (Hr _ _ eq_refl). cbn in Hr. congruence.
  - specialize (Hr _ _ eq_refl). cbn in Hr. apply Hend, ServedRefused; [by constructor|by rewrite E1|done].
  - rewrite run_bind, run_answered'. specialize (Hr _ _ eq_refl). cbn in Hr.
    pose proof (run_admitted server e req body (Caller_of p a m) w1 Hpub) as Hw.
    destruct (run e (admitted _ _ _ _) w1) as [r2 w2]. cbn [run]. destruct Hw as (l & El & Hw). apply Hend.
    assert (Hl0 : Forall (made_by the_screener) log1) by (eapply made_by_mono; [|exact Hl1]; done).
    assert (Hid : identified server req d (w_db w1) (Caller_of p a m)) by (split; [exact Hpub|exact Hr]).
    destruct Hw as [(Hs & Hl & Hc)|(d2 & n2 & log2 & log3 & Hs & Hl2 & Hc & Hh & ->)].
    + eapply ServedHeld; [exact Hid|exact Hent|exact Hs| |exact Hc]. rewrite El, E1. by apply Forall_app.
    + eapply (ServedHandled _ _ _ _ _ _ _ _ _ body (w_db w1) d2 n2 (log1 ++ log2) log3 r2); try done; [by apply Forall_app|].
      by rewrite El, E1, app_assoc.
  - apply Hend, ServedRefused; [constructor|by rewrite E1|done].
Qed.

(** ** Logging in *)
(** A URL without a route is refused, whoever asks. *)
Lemma unregistered_is_refused (server : Server) (e : env ServerCall) st req (w : server_world) :
  registered server (in_endpoint req) = false ->
  forall reply st', fst (run e (serve server st req) w) = Ok (reply, st') -> 400 <= rp_code reply.
Proof.
  intros Hreg reply st'. unfold serve. destruct (parse_body _) as [body|err].
  2: { intros [= <- _]. unfold error_reply_of. repeat case_match; cbn; lia. }
  rewrite run_bind, run_attempt. pose proof (run_auth server e st req w) as Ha.
  destruct (run e (database _) w) as [[[[|code error|p a m] st1]|err] w1]; destruct Ha as (_ & _ & _ & _ & Hr).
  - specialize (Hr _ _ eq_refl). cbn in Hr. unfold open_to_all in Hr. by rewrite Hreg in Hr.
  - intros [= <- _]. specialize (Hr _ _ eq_refl). cbn in Hr |- *. lia.
  - rewrite run_bind, run_answered'. unfold admitted. rewrite run_bind.
    pose proof (run_held server e (in_endpoint req) body p w1) as Hh. cbn [ca_partyId].
    destruct (run e (held _ _ _ _) w1) as [[[h|]|x] w2]; destruct Hh as (_ & _ & _ & _ & Hh).
    + by intros [= <- _].
    + unfold handler. rewrite Hreg. intros [= <- _]. cbn. lia.
    + intros [= <- _]. apply error_reply_refuses.
  - intros [= <- _]. apply error_reply_refuses.
Qed.

(** A body that proves an account: a challenge of this server's for it, signed by it, and the account is
    linked to a party. *)
Definition account_proven (config : AccountConfig) (body : jsval) (d : Database) : Prop :=
  exists transaction serverKey account s link,
    tokenSchema body = Ok transaction /\ loadServerKeypair config = Ok serverKey /\
    readChallengeTx (challenge_args config serverKey transaction) s = Ok account /\
    verifyChallengeTxSigners (challenge_args config serverKey transaction) [account] s = Ok tt /\
    In link (d partyAccount) /\ pc_stellarAccount link = account.

Lemma wp_token config body (w : account_world) :
  wp any_answer (token_route config body) (fun r w' => rp_code (final r) = 200 -> account_proven config body (w_db w)) w.
Proof.
  unfold token_route. destruct (tokenSchema body) as [transaction|x] eqn:Et; [|done]. destruct (loadServerKeypair config) as [key|x] eqn:Ek; [|done].
  cbv zeta. wp_step. wp_step. destruct (readChallengeTx _ s) as [account|x] eqn:Er; cbn [obind]; [|done].
  destruct (verifyChallengeTxSigners _ [account] s) as [[]|x] eqn:Ev; cbn [obind]; [|done].
  unfold log_in, select_one, signSessionToken. wp_step. wp_step. wp_step; [intros x Hc; pose proof (error_reply_refuses x); cbn in Hc; lia|].
  wp_step. destruct (hd_error _) as [link|] eqn:El; [|done]. apply head_filter_In in El as [Hin Hl]. apply bool_decide_eq_true in Hl.
  wp_step. wp_step. wp_step. cbn [wp]. intros _. by exists transaction, key, account, s, link.
Qed.

(** In production a session token is handed out only against a signed challenge: whoever asks, the login
    routes answer 200 only when the body's transaction is a challenge of this server for an account, signed
    by that account, and the account is linked to a party.  The development login, which asks for no proof,
    is not there. *)
Theorem production_logs_in_only_proven_accounts (config : ApiConfig) (settings : ProcessEnv) (e : env ServerCall) (st : AuthState)
    (req : HttpRequest) (d : Database) n :
  match buildServer config settings with
  | Err _ => True
  | Ok server => is_production settings = true -> in_endpoint req = PostToken \/ in_endpoint req = PostDevLogin ->
      forall reply st', fst (run e (serve server st req) (World d n [])) = Ok (reply, st') -> rp_code reply = 200 ->
      in_endpoint req = PostToken /\ exists body, parse_body (in_rawBody req) = Ok body /\ account_proven (AConfig config true) (default JNull body) d
  end.
Proof.
  unfold buildServer. destruct (is_production settings) eqn:Ep; [rewrite andb_true_r|by rewrite andb_false_r].
  destruct (bool_decide _); [done|]. intros _ Hep reply st'.
  destruct Hep as [Ee|Ee].
  2: { intros Hrun Hc. apply unregistered_is_refused in Hrun; [lia|by rewrite Ee]. }
  unfold serve. destruct (parse_body _) as [body|err] eqn:Eb; [|intros [= <- _]; cbn; unfold error_reply_of; by repeat case_match].
  rewrite run_bind, run_attempt. unfold buildAuthHook, auth_request. rewrite Ee. cbn [open_to_all registered andb public rq_public]. unfold database. cbn [embed run].
  rewrite run_bind, run_answered'. unfold admitted, held. rewrite Ee. cbn [ca_partyId nobody sv_config].
  match goal with |- context [run e (bind ?g _) ?w0] => assert (Hg : run e g w0 = (Ok None, w0)) by
    (destruct (complianceEnforced _); [by rewrite nobody_is_gated|done]); rewrite run_bind, Hg end.
  unfold handler. cbn [registered negb deal_request account_request read_request]. unfold web. rewrite run_embed. cbn [w_db w_tick].
  pose proof (wp_sound any_answer (part (@ToWeb) e) _ _ _ (any_answer_respects _)
    (wp_token (AConfig config true) (default JNull body) (World d n []))) as Hw.
  cbn [sv_config]. destruct (run (part _ e) _ _) as [r w]. intros [= <- _] Hc. split; [done|]. exists body. split; [done|]. by apply Hw.
Qed.

(** ** What the gate covers *)
(** Every entry of the gate's table is a registered route. *)
Example gated_routes_are_registered :
  List.map (fun g => (gr_method g, gr_url g)) GATED_ROUTES =
  List.map registered_as [PostLine; PostFund ""; PostPledge ""; PostDraw ""; PostQuote; PostExecute ""; PostProposal; PostAccept ""].
Proof. reflexivity. Qed.

(** A deal the gate does not cover is a way out for the party, the end of a liquidation, or more collateral
    for a repo. *)
Theorem ungated_deals (ep : Endpoint) (body : jsval) (r : DealRoutes.Request) :
  deal_request ep body = Some r ->
  List.find (fun g => eqs (gr_method g) (fst (registered_as ep)) && eqs (gr_url g) (snd (registered_as ep))) GATED_ROUTES = None <->
  match r with WithdrawR _ _ | CloseR _ | ReleaseR _ _ | RepayR _ _ | UnwindR _ _ | TopUpR _ _ => True | _ => False end.
Proof. destruct ep; intros [= <-]; vm_compute; split; done. Qed.

(** ** What an error is taken for *)
(** The error handler goes by words in the message, and the database puts the id of the URL into its
    message: a public request for the price of asset [timeout] is answered that the RPC timed out, and one
    for [hosterror] that the contract rejected it; neither was asked. *)
Theorem words_in_the_url_decide_the_status (e : env ApiCall) (w : api_world) :
  pg_uuid "timeout" = false -> pg_uuid "hosterror" = false ->
  run e (respond (asset_price_route "timeout")) w = (Ok (HReply 503 (error_body "rpc request timed out")), w) /\
  run e (respond (asset_price_route "hosterror")) w = (Ok (HReply 422 (error_body "contract rejected the request")), w).
Proof.
  intros H1' H2'. unfold asset_price_route, by_param. rewrite H1', H2'. split; reflexivity.
Qed.
End Parts.
