(* ===== verification/ApiTimers.v ===== *)
(** [services/api/src/index.ts]: the API's passes beside its requests, the sweep of pending intents, the
    purge of nonces and the webhook round, and the timers that start them. *)
From S2P Require Import Prelude Prog Schema Rules Shape Settings Intents Webhooks ApiKeys.

(** ** The passes.  An exception of one is logged and ends it. *)
Definition SWEEP_INTERVAL_MS (env : ProcessEnv) : option Z :=
  match env "API_INTENT_SWEEP_MS" with Some text => Number_of_text text | None => Some 15000 end.
Definition WEBHOOK_INTERVAL_MS (env : ProcessEnv) : option Z :=
  match env "API_WEBHOOK_INTERVAL_MS" with Some text => Number_of_text text | None => Some 10000 end.

(** The pass, with the tally it logs. *)
Definition sweep_pass : intent_prog (option Tally) :=
  s <- sample ;;
  result <- attempt (sweepPendingIntents (st_now s)) ;;
  Ret match result with Ok tally => Some tally | Err _ => None end.

Definition nonce_pass : auth_prog unit :=
  s <- sample ;; attempt (purgeExpiredNonces (st_now s)) ;;; Ret tt.

Section WebhookPass.
Context `{NodeLib} (config : ApiConfig) (env : ProcessEnv).

(** Webhooks are delivered with a valid key alone. *)
Definition webhooks_enabled : bool := KEY_HEX (webhookSecretKey config).

Definition webhook_pass : webhook_prog (option (Z * DeliverTally)) :=
  result <- attempt (
    s <- sample ;; enqueued <- fanOutRecentEvents (st_now s) ;;
    s <- sample ;; tally <- deliverDue (st_now s) (webhookSecretKey config) (negb (is_production env)) ;;
    Ret (enqueued, tally)) ;;
  Ret match result with Ok done => Some done | Err _ => None end.
End WebhookPass.

(** ** The timers *)
Inductive Pass := SweepPass | NoncePass | WebhookPass.

Definition same_pass (p q : Pass) : bool :=
  match p, q with SweepPass, SweepPass | NoncePass, NoncePass | WebhookPass, WebhookPass => true | _, _ => false end.

Inductive TimerEvent := Fires (pass : Pass) | PassEnds (pass : Pass).

(** [running] are the passes under way, in the order they started. *)
Record ApiTimers := MkTimers { sweeping : bool; delivering : bool; running : list Pass }.
Definition start_timers : ApiTimers := MkTimers false false [].

Fixpoint remove_one (p : Pass) (l : list Pass) : list Pass :=
  match l with [] => [] | q :: l => if same_pass p q then l else q :: remove_one p l end.

Section Timers.
Context (enabled : bool).

Definition timer_step (t : ApiTimers) (event : TimerEvent) : ApiTimers :=
  match event with
  | Fires SweepPass => if sweeping t then t else MkTimers true (delivering t) (running t ++ [SweepPass])
  | Fires NoncePass => MkTimers (sweeping t) (delivering t) (running t ++ [NoncePass])
  | Fires WebhookPass =>
      if negb enabled then t
      else if delivering t then t else MkTimers (sweeping t) true (running t ++ [WebhookPass])
  | PassEnds p =>
      if existsb (same_pass p) (running t)
      then
        MkTimers (match p with SweepPass => false | _ => sweeping t end) (match p with WebhookPass => false | _ => delivering t end)
          (remove_one p (running t))
      else t
  end.
Definition timer_life (events : list TimerEvent) : ApiTimers := foldl timer_step start_timers events.

(** ** A sweep does not overlap a sweep, nor a round a round *)
Definition under_way (p : Pass) (t : ApiTimers) : nat := List.length (List.filter (same_pass p) (running t)).

Lemma passes_app p l l' :
  List.length (List.filter (same_pass p) (l ++ l')) =
  (List.length (List.filter (same_pass p) l) + List.length (List.filter (same_pass p) l'))%nat.
Proof. by rewrite List.filter_app, length_app. Qed.

Lemma count_removed p p' l :
  List.length (List.filter (same_pass p) (remove_one p' l)) =
  (List.length (List.filter (same_pass p) l) - (if same_pass p p' then 1 else 0))%nat.
Proof.
  induction l as [|q l IH]; cbn; [by destruct (same_pass p p')|]. destruct p, p', q; cbn in *; lia.
Qed.

Definition timers_ok (t : ApiTimers) : Prop :=
  under_way SweepPass t = (if sweeping t then 1 else 0)%nat /\ under_way WebhookPass t = (if delivering t then 1 else 0)%nat /\
  (enabled = false -> delivering t = false).

Lemma timers_ok_step t event : timers_ok t -> timers_ok (timer_step t event).
Proof.
  unfold timers_ok, under_way. intros (Hs & Hd & He). destruct event as [[]|p]; cbn [timer_step].
  - destruct (sweeping t) eqn:E; [by rewrite E|]. cbn [sweeping delivering running]. rewrite !passes_app, Hs, Hd. by repeat split.
  - cbn [sweeping delivering running]. rewrite !passes_app, Hs, Hd. cbn. split; [lia|]. split; [lia|done].
  - destruct enabled; cbn [negb]; [|done]. destruct (delivering t) eqn:E; [by rewrite E|]. cbn [sweeping delivering running].
    rewrite !passes_app, Hs, Hd. cbn. split; [lia|]. by split.
  - destruct (existsb _ _); [|done]. cbn [sweeping delivering running]. rewrite !count_removed, Hs, Hd.
    destruct p, (sweeping t), (delivering t); cbn; repeat split; done || tauto.
Qed.

(** Whatever fires and whatever ends in whatever way: there is at most one sweep and at most one webhook
    round under way; a timer that finds none under way starts one, so none is ever locked out by one that
    failed; and without a valid key there is never a round. *)
Lemma passes_do_not_overlap events :
  let t := timer_life events in
  (under_way SweepPass t <= 1)%nat /\ (under_way WebhookPass t <= 1)%nat /\
  (under_way SweepPass t = 0%nat -> under_way SweepPass (timer_step t (Fires SweepPass)) = 1%nat) /\
  (enabled = true -> under_way WebhookPass t = 0%nat -> under_way WebhookPass (timer_step t (Fires WebhookPass)) = 1%nat) /\
  (enabled = false -> under_way WebhookPass t = 0%nat).
Proof.
  cbv zeta. assert (Hok : timers_ok (timer_life events)).
  { unfold timer_life. induction events as [|event events IH] using rev_ind; [by repeat split|].
    rewrite foldl_app. by apply timers_ok_step. }
  destruct Hok as (Hs & Hd & He). set (t := timer_life events) in *.
  split; [rewrite Hs; destruct (sweeping t); lia|]. split; [rewrite Hd; destruct (delivering t); lia|]. split; [|split].
  - intros E0. cbn [timer_step]. destruct (sweeping t); [lia|]. unfold under_way in *. cbn [running]. rewrite passes_app, E0. done.
  - intros En E0. cbn [timer_step]. rewrite En. cbn [negb]. destruct (delivering t); [lia|]. unfold under_way in *. cbn [running].
    rewrite passes_app, E0. done.
  - intros En. rewrite Hd, (He En). done.
Qed.
End Timers.

(** A pass ends without an exception, whatever fails in it. *)
Lemma passes_catch_everything `{NodeLib} config env e1 e2 e3 (w1 : intent_world) w2 w3 :
  is_ok (fst (run e1 sweep_pass w1)) = true /\ is_ok (fst (run e2 nonce_pass w2)) = true /\
  is_ok (fst (run e3 (webhook_pass config env) w3)) = true.
Proof.
  assert (Hend : forall (D : Type) (Ext : Type -> Type) (Out A B : Type) (p : prog D Ext Out A) (f : outcome A -> B) w,
    wp any_answer (r <- attempt p ;; Ret (f r)) (fun r _ => is_ok r = true) w).
  { intros. apply wp_bind, wp_attempt. eapply wp_mono; [|apply (wp_logged any_answer any_stmt any_call), within_anything]. done. }
  assert (Hok : forall (D : Type) (Ext : Type -> Type) (Out A : Type) (p : prog D Ext Out A) e w,
    wp any_answer p (fun r _ => is_ok r = true) w -> is_ok (fst (run e p w)) = true).
  { intros D Ext Out A p e w Hw. pose proof (wp_sound any_answer e _ _ _ (any_answer_respects e) Hw) as Hr. by destruct (run e p w). }
  split; [|split]; apply Hok; [| |apply Hend]; intros s _; apply Hend.
Qed.
