(* ===== verification/Console.v ===== *)
(** [apps/console/src/lib]: what the web console computes and asks of the API.  Its build-time
    configuration ([config.ts]), its amounts ([format.ts]), its API client ([api.ts]), its session
    ([auth.tsx]) and the seam between the last two ([unauthorized.ts]). *)
From S2P Require Import Prelude Prog Memory Domain Floats Webhooks Server.

(** ** config.ts *)
Definition DEV_API_URL : string := "http://localhost:3000".
Record ConfigEnv := CEnv { VITE_API_URL : option string; VITE_STELLAR_NETWORK_PASSPHRASE : option string }.
Record ConfigProblem := Problem { cp_variable : string; cp_message : string }.
Record ConsoleConfig := CConfig { cc_apiUrl : string; cc_networkPassphrase : string }.
Definition LOCAL_HOSTS : list string := ["localhost"; "127.0.0.1"; "[::1]"; "0.0.0.0"].

Section Config.
Context `{NodeLib}.

(** A value, or a problem. *)
Definition validateApiUrl (raw : option string) (production : bool) : string + ConfigProblem :=
  let problem message := inr (Problem "VITE_API_URL" message) in
  let trimmed := match raw with Some s => trim s | None => "" end in
  if eqs trimmed "" then
    if production then problem "is not set. A production build has no default API address; set it at build time."
    else inl DEV_API_URL
  else
    match new_URL trimmed with
    | None => problem (quoted trimmed +:+ " is not a valid URL. Expected something like https://api.example.com.")
    | Some url =>
        if negb (eqs (u_protocol url) "http:") && negb (eqs (u_protocol url) "https:")
        then problem (quoted trimmed +:+ " must start with http:// or https://.")
        else if production && existsb (eqs (u_hostname url)) LOCAL_HOSTS
        then problem (quoted trimmed +:+ " points at this machine. A production build must name the real API address.")
        else inl (without_slashes trimmed)
    end.

Definition validatePassphrase (raw : option string) : string + ConfigProblem :=
  let problem message := inr (Problem "VITE_STELLAR_NETWORK_PASSPHRASE" message) in
  match raw with
  | None => problem ("is not set. It must equal the API's STELLAR_NETWORK_PASSPHRASE, for example " +:+
      quoted "Test SDF Network ; September 2015" +:+ " for testnet.")
  | Some raw =>
      if eqs (trim raw) "" then problem ("is not set. It must equal the API's STELLAR_NETWORK_PASSPHRASE, for example " +:+
        quoted "Test SDF Network ; September 2015" +:+ " for testnet.")
      else if negb (eqs raw (trim raw))
      then problem "has leading or trailing whitespace. Remove it; the passphrase must match the API's exactly."
      else inl raw
  end.

Definition validateConfig (env : ConfigEnv) (production : bool) : ConsoleConfig + list ConfigProblem :=
  match validateApiUrl (VITE_API_URL env) production, validatePassphrase (VITE_STELLAR_NETWORK_PASSPHRASE env) with
  | inl api, inl passphrase => inl (CConfig api passphrase)
  | inr p, inr q => inr [p; q]
  | inr p, inl _ | inl _, inr p => inr [p]
  end.

(** [apiUrl()] and [networkPassphrase()]. *)
Definition apiUrl (env : ConfigEnv) : string :=
  match validateApiUrl (VITE_API_URL env) false with inl url => url | inr _ => DEV_API_URL end.
Definition network_passphrase (env : ConfigEnv) : option string :=
  match VITE_STELLAR_NETWORK_PASSPHRASE env with Some "" => None | v => v end.
End Config.

(** ** explorer.ts *)
Definition txExplorerUrl (env : ConfigEnv) (txHash : string) : option string :=
  let passphrase := default "" (network_passphrase env) in
  if starts_with "Public Global" passphrase then Some ("https://stellar.expert/explorer/public/tx/" +:+ txHash)
  else if starts_with "Test SDF Network" passphrase then Some ("https://stellar.expert/explorer/testnet/tx/" +:+ txHash)
  else None.

(** ** format.ts *)
Definition AMOUNT_HINT : string := "Enter an amount like 100 or 100.25 (at most 7 decimal places).".

(** [/^(\d+\.?\d{0,7}|\.\d{1,7})$/]. *)
Definition AMOUNT_PATTERN (text : string) : bool :=
  let '(whole, rest) := span_digits text in
  if eqs rest "" then negb (eqs whole "")
  else if starts_with "." rest then
    let '(frac, rest) := span_digits (string_drop 1 rest) in
    eqs rest "" && (slen frac <=? 7)%nat && (negb (eqs whole "") || negb (eqs frac ""))
  else false.

Definition toScaled (userInput : string) : outcome Z :=
  let text := trim userInput in
  if negb (AMOUNT_PATTERN text) then Err (Error AMOUNT_HINT)
  else
    let parts := split_on "." text in
    let whole := nth 0 parts "" in
    let frac := nth 1 parts "" in
    let fracPadded := string_take 7 (frac +:+ "0000000") in
    w <-? BigInt (js_or whole "0") ;;
    f <-? BigInt fracPadded ;;
    Ok (w * 10000000 + f).

(** The engine's [toLocaleString] of a number with at most seven fraction digits. *)
Class LocaleLib := { toLocaleString : double -> string }.

Section Format.
Context `{LocaleLib}.
Definition with_ccy (formatted ccy : string) : string := if eqs ccy "" then formatted else formatted +:+ " " +:+ ccy.

Definition formatDecimalString (value ccy : string) : string :=
  let n := Floats.Number value in
  with_ccy (if isFinite n then toLocaleString n else value) ccy.

(** [/^-?\d+$/]. *)
Definition SCALED (value : string) : bool :=
  let digits := if starts_with "-" value then string_drop 1 value else value in
  negb (eqs digits "") && string_forall is_digit digits.

(** [value] is a string as the interfaces declare it; the warning on the console changes nothing. *)
Definition formatScaledBigintString (value ccy : string) : outcome string :=
  if negb (SCALED value) then Ok "--"
  else
    scaled <-? BigInt value ;;
    let whole := Z.quot scaled 10000000 in
    let frac := Z.rem scaled 10000000 in
    let double_of z := nearest (z <? 0) (Z.abs z) 0 in
    let decimal := Floats.add (double_of whole) (div (double_of frac) (double_of 10000000)) in
    Ok (with_ccy (toLocaleString decimal) ccy).
End Format.

Definition shortAddress (addr : string) : string :=
  if (slen addr <=? 12)%nat then addr else string_take 5 addr +:+ "..." +:+ string_drop (slen addr - 5) addr.

(** [(bps / 100).toFixed(2)]: two decimals of the nearest double are those of the hundredth. *)
Definition bpsToPercent (bps : Z) : string :=
  (if bps <? 0 then "-" else "") +:+ Z_to_string (Z.abs bps / 100) +:+ "." +:+ pad_start 2 "0" (Z_to_string (Z.abs bps mod 100)) +:+ "%".

Definition marginBand (ltvBps : Z) : string :=
  if 9000 <=? ltvBps then "liquidation"
  else if 8000 <=? ltvBps then "margin call"
  else if 7000 <=? ltvBps then "warning"
  else "healthy".

(** ** api.ts: the functions of [api] *)
Inductive ApiFunction :=
| markets
| challenge (account : string)
| token (signedTransaction : string)
| submitTx (signedXdr : string)
| settleTx (txHash : string)
| partyByAccount (account : string)
| openCreditLine (lenderId borrowerId loanCcy : string) (limit rateBps cureWindowS : Z) (asset : string)
| exitQuote (assetId : string) (units : Z)
| exitExecute (quoteId : string) (minUsdcOut : Z) (to : string)
| repoPropose (cashLenderId cashBorrowerId assetId : string) (units cashAmount rateBps : Z) (kind maturityAt : string)
| repoAccept (tradeId : string)
| repoTopUp (tradeId : string) (units : Z)
| repoUnwind (tradeId : string)
| assets
| positions (partyId : string)
| creditLine (id : string)
| fund (id : string) (amount : Z)
| withdraw (id kind : string) (amount : Z)
| closeLiquidation (id : string)
| draw (id : string) (amount : Z) (to : string)
| repay (id : string) (amount : Z)
| pledge (id assetId : string) (units : Z) (custodyMode : string)
| releasePledge (lineId pledgeId : string).

(** The request a function makes: method, path, and the value whose JSON text is the body. *)
Record ApiRequest := ARequest { ar_method : string; ar_path : string; ar_body : option jsval }.
Definition get_ (path : string) : ApiRequest := ARequest "GET" path None.
Definition post (path : string) (body : list (string * jsval)) : ApiRequest := ARequest "POST" path (Some (JObj body)).
Definition post_empty (path : string) : ApiRequest := ARequest "POST" path None.
Definition bigint_text (n : Z) : jsval := JStr (Z_to_string n).

(** ["00".repeat(32)]. *)
Definition NO_AGREEMENT : string := "0000000000000000000000000000000000000000000000000000000000000000".

Definition api (f : ApiFunction) : ApiRequest :=
  match f with
  | markets => get_ "/v1/public/markets"
  | challenge account => post "/v1/auth/challenge" [("account", JStr account)]
  | token signedTransaction => post "/v1/auth/token" [("transaction", JStr signedTransaction)]
  | submitTx signedXdr => post "/v1/tx/submit" [("signedXdr", JStr signedXdr)]
  | settleTx txHash => post_empty ("/v1/tx/" +:+ txHash +:+ "/settle")
  | partyByAccount account => get_ ("/v1/parties/by-account/" +:+ account)
  | openCreditLine lenderId borrowerId loanCcy limit rateBps cureWindowS asset =>
      post "/v1/credit-lines"
        [("lenderId", JStr lenderId); ("borrowerId", JStr borrowerId); ("loanCcy", JStr loanCcy); ("limit", bigint_text limit);
         ("rateBps", JNum rateBps); ("cureWindowS", JNum cureWindowS); ("asset", JStr asset); ("feeBps", JNum 0);
         ("agreementHash", JStr NO_AGREEMENT)]
  | exitQuote assetId units => post "/v1/exit/quotes" [("assetId", JStr assetId); ("units", bigint_text units)]
  | exitExecute quoteId minUsdcOut to =>
      post ("/v1/exit/quotes/" +:+ quoteId +:+ "/execute") [("minUsdcOut", bigint_text minUsdcOut); ("to", JStr to)]
  | repoPropose cashLenderId cashBorrowerId assetId units cashAmount rateBps kind maturityAt =>
      post "/v1/repo/proposals"
        [("cashLenderId", JStr cashLenderId); ("cashBorrowerId", JStr cashBorrowerId); ("assetId", JStr assetId);
         ("units", bigint_text units); ("cashAmount", bigint_text cashAmount); ("rateBps", JNum rateBps); ("kind", JStr kind);
         ("maturityAt", JStr maturityAt); ("agreementHash", JStr NO_AGREEMENT)]
  | repoAccept tradeId => post_empty ("/v1/repo/proposals/" +:+ tradeId +:+ "/accept")
  | repoTopUp tradeId units => post ("/v1/repo/trades/" +:+ tradeId +:+ "/top-ups") [("units", bigint_text units)]
  | repoUnwind tradeId => post_empty ("/v1/repo/trades/" +:+ tradeId +:+ "/unwind")
  | assets => get_ "/v1/assets"
  | positions partyId => get_ ("/v1/positions?party=" +:+ partyId)
  | creditLine id => get_ ("/v1/credit-lines/" +:+ id)
  | fund id amount => post ("/v1/credit-lines/" +:+ id +:+ "/fund") [("amount", bigint_text amount)]
  | withdraw id kind amount => post ("/v1/credit-lines/" +:+ id +:+ "/withdrawals") [("kind", JStr kind); ("amount", bigint_text amount)]
  | closeLiquidation id => post_empty ("/v1/credit-lines/" +:+ id +:+ "/close-liquidation")
  | draw id amount to => post ("/v1/credit-lines/" +:+ id +:+ "/draws") [("amount", bigint_text amount); ("to", JStr to)]
  | repay id amount => post ("/v1/credit-lines/" +:+ id +:+ "/repayments") [("amount", bigint_text amount)]
  | pledge id assetId units custodyMode =>
      post ("/v1/credit-lines/" +:+ id +:+ "/pledges")
        [("assetId", JStr assetId); ("units", bigint_text units); ("custodyMode", JStr custodyMode)]
  | releasePledge lineId pledgeId => ARequest "DELETE" ("/v1/credit-lines/" +:+ lineId +:+ "/pledges/" +:+ pledgeId) None
  end.

(** ** The session, and what the page shows of it *)
Record Session := MkSession { ss_token : string; ss_partyId : string; ss_stellarAccount : string }.
Definition STORAGE_KEY : string := "ballast.console.session".

(** [AuthProvider]'s state, and what [localStorage] holds under its key. *)
Record ConsoleMemory := CMemory { cm_session : option Session; cm_stored : option string; cm_error : option string; cm_loading : bool }.

Definition session_json (s : Session) : jsval :=
  JObj [("token", JStr (ss_token s)); ("partyId", JStr (ss_partyId s)); ("stellarAccount", JStr (ss_stellarAccount s))].

(** A response: its status, and what [res.json()] gives. *)
Record WebResponse := WResponse { wr_status : Z; wr_json : outcome jsval }.
Record WebRequest := WRequest { wq_method : string; wq_url : string; wq_headers : list (string * string); wq_body : option jsval }.

(** The API is fetched from, and the wallet asked: it answers an error (for a signature, perhaps without
    a message), or an address or a signed envelope. *)
Inductive ConsoleCall : Type -> Type :=
| WebFetch (req : WebRequest) : ConsoleCall WebResponse
| RequestAccess : ConsoleCall (option string * string)
| SignTransaction (xdr address : string) (networkPassphrase : option string) : ConsoleCall (option (option string) * string).

Notation console := (mem ConsoleCall ConsoleMemory).
Notation console_world := (world unit ConsoleCall unit).

(** A refused request: [ApiError]'s status, message and body. *)
Record ApiError := MkApiError { ae_status : Z; ae_message : string; ae_body : jsval }.
Definition thrown (e : ApiError) : exn := Exn "ApiError" (ae_message e).

Definition SESSION_EXPIRED : string := "Your session expired. Log in again.".

(** The handler [AuthProvider] has registered, which [notifyUnauthorized] calls. *)
Definition notifyUnauthorized : console unit :=
  m_write (fun m => CMemory None None (Some SESSION_EXPIRED) (cm_loading m)).

Section Client.
Context `{NodeLib, BodyLib} (env : ConfigEnv).

(** [parseSession]: a value of three non-empty strings, or none. *)
Definition text_of (v : option jsval) : option string := match v with Some (JStr "") => None | Some (JStr s) => Some s | _ => None end.
Definition parseSession (raw : string) : option Session :=
  match parse_json raw with
  | Ok (JObj l) =>
      match text_of (assoc "token" l), text_of (assoc "partyId" l), text_of (assoc "stellarAccount" l) with
      | Some tok, Some partyId, Some stellarAccount => Some (MkSession tok partyId stellarAccount)
      | _, _, _ => None
      end
  | _ => None
  end.

(** The state [AuthProvider] starts in, given what is stored. *)
Definition restored (stored : option string) : ConsoleMemory :=
  match stored with
  | None | Some "" => CMemory None stored None false
  | Some raw => match parseSession raw with
                | Some s => CMemory (Some s) stored None false
                | None => CMemory None None None false
                end
  end.

(** [request]: the body, or the [ApiError] it throws. *)
Definition request (bearer : option string) (r : ApiRequest) : console (jsval + ApiError) :=
  let authorized := match bearer with None | Some "" => false | Some _ => true end in
  res <~ m_call (WebFetch (WRequest (ar_method r) (apiUrl env +:+ ar_path r)
    ((match ar_body r with Some _ => [("content-type", "application/json")] | None => [] end) ++
     (if authorized then [("authorization", "Bearer " +:+ default "" bearer)] else [])) (ar_body r))) ;;
  let body := match wr_json res with Ok v => v | Err _ => JObj [] end in
  if (wr_status res =? 401) && authorized
  then _ <~ notifyUnauthorized ;; m_ret (inr (MkApiError 401 SESSION_EXPIRED body))
  else if negb ((200 <=? wr_status res) && (wr_status res <=? 299))
  then
    error <~ m_lift (js_field "error" body) ;;
    message <~ m_lift (js_field "message" body) ;;
    let said := match error, message with
                | (None | Some JNull), (None | Some JNull) =>
                    "request to " +:+ ar_path r +:+ " failed with " +:+ Z_to_string (wr_status res)
                | (None | Some JNull), Some v => String_of v
                | Some v, _ => String_of v
                end in
    m_ret (inr (MkApiError (wr_status res) said body))
  else m_ret (inl body).

(** A function of [api] other than [submitTx]. *)
Definition call_api (bearer : option string) (f : ApiFunction) : console jsval :=
  r <~ request bearer (api f) ;; match r with inl body => m_ret body | inr e => m_throw (thrown e) end.

(** [submitTx]: a 422 with a body is a result.  An empty text, zero and [false] are no body. *)
Definition body_given (body : jsval) : bool :=
  match body with JNull | JBool false | JStr "" => false | JNum n | JBig n => negb (n =? 0) | _ => true end.
Definition submit_tx (bearer signedXdr : string) : console jsval :=
  r <~ request (Some bearer) (api (submitTx signedXdr)) ;;
  match r with
  | inl body => m_ret body
  | inr e => if (ae_status e =? 422) && body_given (ae_body e) then m_ret (ae_body e) else m_throw (thrown e)
  end.

(** ** auth.tsx *)
(** A text of a reply.  The interfaces declare it; a reply without it is taken for an error here. *)
Definition reply_text (k : string) (v : jsval) : outcome string :=
  x <-? js_field k v ;; match x with Some (JStr s) => Ok s | _ => Err (Exn "TypeError" (k +:+ " is not a string")) end.

Definition logged_in (next : Session) : console unit :=
  m_write (fun m => CMemory (Some next) (Some (JSON_stringify (session_json next))) (cm_error m) (cm_loading m)).

Definition log_in_steps : console unit :=
  access <~ m_call RequestAccess ;;
  match fst access with
  | Some message => m_throw (Error message)
  | None =>
      let stellarAccount := snd access in
      given <~ call_api None (challenge stellarAccount) ;;
      transaction <~ m_lift (reply_text "transaction" given) ;;
      signed <~ m_call (SignTransaction transaction stellarAccount (network_passphrase env)) ;;
      match fst signed with
      | Some message => m_throw (Error (default "" message))
      | None =>
          result <~ call_api None (token (snd signed)) ;;
          tok <~ m_lift (reply_text "token" result) ;;
          partyId <~ m_lift (reply_text "partyId" result) ;;
          logged_in (MkSession tok partyId stellarAccount)
      end
  end.

Definition login : console unit :=
  _ <~ m_write (fun m => CMemory (cm_session m) (cm_stored m) None true) ;;
  r <~ m_try log_in_steps ;;
  _ <~ match r with
       | Ok _ => m_ret tt
       | Err err => m_write (fun m => CMemory (cm_session m) (cm_stored m) (Some (exn_message err)) (cm_loading m))
       end ;;
  m_write (fun m => CMemory (cm_session m) (cm_stored m) (cm_error m) false).

Definition logout : console unit := m_write (fun m => CMemory None None (cm_error m) (cm_loading m)).
End Client.
