(* ===== verification/ConsolePages.v ===== *)
(** What the console's pages share: the shapes of the API's replies as they read them ([apps/console/src/lib/api.ts]);
    the panel in which an envelope is signed and sent ([components/XdrOutput.tsx]); what the buttons of the
    pages ask of the API; and what the borrower's and the lender's page keep of its books and how they
    refresh it ([reload] of [pages/BorrowerView.tsx] and [LenderView.tsx], [lib/usePolling.ts]).  Refreshes
    overlap: one is started by the page's own timer while another is on its way. *)
From stdpp Require Import gmap strings.
From S2P Require Import Prelude Floats Webhooks Console.

(** * The data of the pages *)
(** ** Replies *)
(** An envelope; a release also says the LTV it would leave. *)
Record BuiltTx := MkBuiltTx { bt_xdr : string; bt_txHash : string; bt_projectedLtvBps : option Z }.

Record AssetPrice := MkAssetPrice { ap_value : string; ap_status : string; ap_asOf : string }.
Record AssetSummary := MkAssetSummary {
  as_id : string; as_code : string; as_contractC : string; as_ccy : string; as_standard : string; as_custodyMode : string;
  as_haircutBps : Z; as_status : string; as_price : option AssetPrice }.

Record CreditLineRow := MkCreditLineRow {
  cr_id : string; cr_lenderId : string; cr_borrowerId : string; cr_loanCcy : string; cr_limitAmount : string;
  cr_rateBps : Z; cr_feeBps : Z; cr_cureWindowS : Z; cr_status : string; cr_contractLineId : option string;
  cr_openedAt : string; cr_closedAt : option string }.

Record PledgeRow := MkPledgeRow {
  pr_id : string; pr_creditLineId : string; pr_assetId : string; pr_units : string; pr_custodyMode : string; pr_status : string }.

Record ExitQuoteResult := MkExitQuoteResult {
  qr_id : string; qr_assetId : string; qr_units : string; qr_price : string; qr_spreadBps : Z; qr_usdcOut : string; qr_expiresAt : string }.

Record ExitQuoteRow := MkExitQuoteRow {
  xr_id : string; xr_assetId : string; xr_units : string; xr_usdcOut : string; xr_spreadBps : Z; xr_expiresAt : string; xr_status : string }.

Record RepoTradeRow := MkRepoTradeRow {
  tr_id : string; tr_cashLenderId : string; tr_cashBorrowerId : string; tr_assetId : string; tr_units : string; tr_cashAmount : string;
  tr_rateBps : Z; tr_kind : string; tr_maturityAt : string; tr_status : string; tr_contractTradeId : option string }.

Record PositionsResult := MkPositionsResult {
  ps_party : string; ps_creditLines : list CreditLineRow; ps_pledges : list PledgeRow; ps_exitQuotes : list ExitQuoteRow;
  ps_repoTrades : list RepoTradeRow }.

Record LiquidationShown := MkLiquidationShown {
  ls_closed : bool; ls_debt : string; ls_recovered : string; ls_surplus : string; ls_shortfall : string }.
Record CreditLineDetail := MkCreditLineDetail {
  cd_id : string; cd_lenderId : string; cd_borrowerId : string; cd_loanCcy : string; cd_limit : string; cd_drawn : string;
  cd_rateBps : Z; cd_feeBps : Z; cd_cureWindowS : Z; cd_status : string; cd_contractLineId : option string; cd_ltvBps : Z;
  cd_marginState : string; cd_funded : option string; cd_undrawn : option string; cd_claimableInterest : option string;
  cd_collateralValue : option string; cd_priceStatus : option string; cd_liquidation : option LiquidationShown }.

Record MarketReading := MkMarketReading { mr_value : string; mr_observedAt : string; mr_ageS : Z }.
Record GuardedPrice := MkGuardedPrice { gp_value : string; gp_status : string; gp_asOf : string; gp_ageS : Z }.
Record Market := MkMarket {
  mk_code : string; mk_issuer : string; mk_issuerCode : string; mk_contract : string; mk_ccy : string; mk_priceBandBps : Z;
  mk_guarded : option GuardedPrice; mk_issuerNav : option MarketReading; mk_redstone : option MarketReading;
  mk_sourceCount : Z; mk_divergenceBps : option Z }.
Record MarketsResult := MkMarketsResult {
  ms_network : string; ms_priceGuardContract : option string; ms_generatedAt : string; ms_markets : list Market }.

(** ** Texts and lists of the pages *)
(** [x && ...] of a text that may be absent: neither [null] nor empty. *)
Definition given (s : option string) : bool := match s with None | Some "" => false | _ => true end.
Definition blank (s : string) : bool := eqs s "".

(** [assets.find((a) => a.id === id)], and the choice of a page: that asset or else the first. *)
Definition find_asset (id : string) (l : list AssetSummary) : option AssetSummary := List.find (fun a => eqs (as_id a) id) l.
Definition chosen_asset (id : string) (l : list AssetSummary) : option AssetSummary :=
  match find_asset id l with Some a => Some a | None => hd_error l end.

(** ** A text of digits is an integer *)
Lemma hex_digit c : is_digit c = true -> exists v, hex_value c = Some v /\ 0 <= v < 10.
Proof.
  intros Hc. unfold hex_value. rewrite Hc. eexists. split; [done|]. unfold is_digit in Hc.
  apply andb_true_iff in Hc as [H1%Z.leb_le H2%Z.leb_le]. unfold digit_value. lia.
Qed.

Lemma read_digits_total s acc : string_forall is_digit s = true -> 0 <= acc ->
  exists n, 0 <= n /\ read_digits 10 hex_value acc s = Some n.
Proof.
  revert acc. induction s as [|c s IH]; intros acc Hs Ha; [by exists acc|].
  unfold string_forall in Hs. cbn in Hs. apply andb_true_iff in Hs as [Hc Hs].
  destruct (hex_digit c Hc) as (v & Ev & Hv). cbn [read_digits]. rewrite Ev. rewrite (proj2 (Z.ltb_lt v 10)) by lia.
  apply IH; [done|lia].
Qed.

Lemma BigInt_total s : s <> "" -> string_forall is_digit s = true -> exists n, 0 <= n /\ BigInt s = Ok n.
Proof.
  intros Hne Hs. destruct (read_digits_total s 0 Hs ltac:(lia)) as (n & Hn & E). exists n. split; [done|]. by apply BigInt_digits.
Qed.

Lemma trim_dense s : string_forall (fun c => negb (is_space c)) s = true -> trim s = s.
Proof.
  assert (Hl : forall s, string_forall (fun c => negb (is_space c)) s = true -> trim_left s = s).
  { intros [|c s']; [done|]. unfold string_forall. cbn. by intros [->%negb_true_iff _]%andb_true_iff. }
  intros Hs. unfold trim. rewrite (Hl s) by done. rewrite Hl by by rewrite string_forall_rev. apply string_rev_involutive.
Qed.

Lemma BigInt_negative s : s <> "" -> string_forall is_digit s = true -> exists n, 0 <= n /\ BigInt (String "-" s) = Ok (- n).
Proof.
  intros Hne Hs. destruct (read_digits_total s 0 Hs ltac:(lia)) as (n & Hn & E). exists n. split; [done|].
  unfold BigInt, parse_bigint. rewrite trim_dense.
  - cbn [starts_with String.prefix]. unfold digits. rewrite (bool_decide_false (s = "")) by done.
    change (bool_decide ("-"%char = "-"%char)) with true. unfold starts_with. cbn. by rewrite E.
  - unfold string_forall in *. cbn. eapply forallb_forall. intros c Hc. rewrite forallb_forall in Hs. specialize (Hs c Hc).
    unfold is_digit, is_space in *. lia.
Qed.

(** [formatScaledBigintString] in a page: it never throws, so what it is given cannot keep a page from
    showing. *)
Section Scaled.
Context `{LocaleLib}.
Lemma formatScaled_total value ccy : exists s, formatScaledBigintString value ccy = Ok s.
Proof.
  unfold formatScaledBigintString. destruct (SCALED value) eqn:E; cbn [negb]; [|by exists "--"].
  assert (Hz : exists z, BigInt value = Ok z); [|destruct Hz as [z ->]; cbn; by eexists].
  unfold SCALED in E. destruct (starts_with "-" value) eqn:Em.
  - apply starts_with_drop in Em. change (slen "-") with 1%nat in Em. apply andb_true_iff in E as [Hne%negb_true_iff%bool_decide_eq_false Hd].
    destruct (BigInt_negative _ Hne Hd) as (n & _ & En). exists (- n). by rewrite Em.
  - apply andb_true_iff in E as [Hne%negb_true_iff%bool_decide_eq_false Hd]. destruct (BigInt_total _ Hne Hd) as (n & _ & En). by exists n.
Qed.

Definition scaled_text (value ccy : string) : string := match formatScaledBigintString value ccy with Ok s => s | Err _ => "" end.
End Scaled.

(** ** Dates *)
(** [Date.parse] of any text, and the engine's text of a date in the user's language. *)
Class ConsoleDates := { Date_time : string -> option Z; Date_toLocaleString : option Z -> string }.

Definition MAX_TIME : Z := 8640000000000000.
(** Four hundred years have the same days; a year past 9999, or before 0, is written with its sign and six
    digits.  An invalid date has no text: [toISOString] throws. *)
Definition iso_text (t : Z) : string :=
  if (-62167219200000 <=? t) && (t <=? 253402300799999) then Webhooks.toISOString t
  else
    let period := 146097 * 86400000 in
    let text := Webhooks.toISOString (t mod period) in
    let year := default 0 (digits_value (string_take 4 text)) + 400 * (t / period) in
    (if year <? 0 then "-" else "+") +:+ pad_start 6 "0" (Z_to_string (Z.abs year)) +:+ string_drop 4 text.
Definition Date_toISOString (time : option Z) : outcome string :=
  match time with
  | Some t => if Z.abs t <=? MAX_TIME then Ok (iso_text t) else Err (Exn "RangeError" "Invalid time value")
  | None => Err (Exn "RangeError" "Invalid time value")
  end.

Example iso_texts :
  List.map Date_toISOString [Some 1700000000123; Some MAX_TIME; Some (- MAX_TIME); Some 253402300800000; Some (-62167219200001)] =
    List.map Ok ["2023-11-14T22:13:20.123Z"; "+275760-09-13T00:00:00.000Z"; "-271821-04-20T00:00:00.000Z";
                 "+010000-01-01T00:00:00.000Z"; "-000001-12-31T23:59:59.999Z"].
Proof. by vm_compute. Qed.

(** ** The numbers of a form *)
(** [Math.round(x) >= 0] and [Math.round(x) > 0]: NaN is neither, and an infinite number rounds to itself. *)
Definition at_least_zero (x : double) : bool :=
  match x with SpecFloat.S754_nan => false | SpecFloat.S754_infinity negative => negb negative | _ => 0 <=? default 0 (Math_round x) end.
Definition above_zero (x : double) : bool :=
  match x with SpecFloat.S754_nan => false | SpecFloat.S754_infinity negative => negb negative | _ => 0 <? default 0 (Math_round x) end.

(** JSON has no infinite number and writes [null] for it. *)
Definition unwritten (k : string) (n : option Z) (r : ApiRequest) : ApiRequest :=
  match n, ar_body r with
  | None, Some (JObj l) => ARequest (ar_method r) (ar_path r) (Some (JObj (List.map (fun kv => (fst kv, if eqs (fst kv) k then JNull else snd kv)) l)))
  | _, _ => r
  end.

(** [slice(0, 8)] of an id. *)
Definition short_id (id : string) : string := string_take 8 id.

(** [[...l].sort((a, b) => key(a) - key(b))]: stable. *)
Fixpoint insert_by {A} (key : A -> Z) (a : A) (l : list A) : list A :=
  match l with [] => [a] | b :: l' => if key a <=? key b then a :: b :: l' else b :: insert_by key a l' end.
Definition sort_by {A} (key : A -> Z) (l : list A) : list A := foldr (insert_by key) [] l.

Lemma insert_by_permuted {A} (key : A -> Z) a l : Permutation (insert_by key a l) (a :: l).
Proof.
  induction l as [|b l IH]; cbn; [done|]. destruct (key a <=? key b); [done|]. rewrite IH. apply perm_swap.
Qed.
Lemma sort_by_permuted {A} (key : A -> Z) l : Permutation (sort_by key l) l.
Proof. induction l as [|a l IH]; cbn; [done|]. by rewrite insert_by_permuted, IH. Qed.

Lemma insert_by_sorted {A} (key : A -> Z) a l :
  StronglySorted (fun x y => key x <= key y) l -> StronglySorted (fun x y => key x <= key y) (insert_by key a l).
Proof.
  induction 1 as [|b l Hl IH Hb]; cbn; [by repeat constructor|]. destruct (Z.leb_spec (key a) (key b)).
  - constructor; [by constructor|]. constructor; [done|]. eapply Forall_impl; [exact Hb|]. intros; cbn in *; lia.
  - constructor; [done|]. rewrite insert_by_permuted. constructor; [lia|done].
Qed.
Lemma sort_by_sorted {A} (key : A -> Z) l : StronglySorted (fun x y => key x <= key y) (sort_by key l).
Proof. induction l as [|a l IH]; cbn; [constructor|]. by apply insert_by_sorted. Qed.

(** * Envelopes and actions *)
(** ** XdrOutput.tsx *)
(** A phase: its own three, or the status of the last [TxResult]. *)
Inductive Phase := ready | signing | submitting | told (status : string).

Definition PHASE_LABEL (phase : Phase) : option string :=
  match phase with
  | ready => Some "UNSIGNED TRANSACTION READY"
  | signing => Some "AWAITING WALLET SIGNATURE"
  | submitting => Some "SUBMITTED / AWAITING LEDGER CLOSE"
  | told "pending" => Some "SUBMITTED / NOT CLOSED YET"
  | told "settled" => Some "SETTLED ON-CHAIN"
  | told "failed" => Some "FAILED ON-CHAIN"
  | told "expired" => Some "EXPIRED / NEVER SIGNED"
  | told _ => None
  end.

(** What the panel is waiting for. *)
Inductive Awaited := WalletSignature | SubmitAnswer (signedXdr : string) | RecheckAnswer.

(** [pn_told] is every status an answer has brought, latest first; the panel shows the first. *)
Record Panel := MkPanel { pn_phase : Phase; pn_error : option string; pn_awaited : list Awaited; pn_told : list string }.
Definition mounted : Panel := MkPanel ready None [] [].

Definition busy (p : Panel) : bool := match pn_phase p with signing | submitting => true | _ => false end.

(** The buttons, where they are rendered and not disabled. *)
Definition can_sign (p : Panel) : bool := match pn_phase p with ready => true | _ => false end.
Definition can_recheck (p : Panel) : bool := match pn_phase p with told "pending" => true | _ => false end.
Definition can_finish (p : Panel) : bool := match pn_phase p with told ("settled" | "failed" | "expired") => true | _ => false end.

Inductive PanelEvent :=
| ClickSign
| WalletSigned (signedXdr : string)
| WalletRefused (message : string)
| SubmitTold (status : string)
| SubmitThrew (message : string)
| ClickRecheck
| RecheckTold (status : string)
| RecheckThrew (message : string).

(** [apply]. *)
Definition apply (p : Panel) (awaited : list Awaited) (status : string) : Panel :=
  MkPanel (told status) (pn_error p) awaited (status :: pn_told p).

(** [signAndSubmit] and [recheck], cut at their awaits: a session is open as long as the panel is. *)
Inductive step (p : Panel) : PanelEvent -> Panel -> Prop :=
| StepSign : can_sign p = true ->
    step p ClickSign (MkPanel signing None (WalletSignature :: pn_awaited p) (pn_told p))
| StepSigned before after_ signedXdr : pn_awaited p = before ++ WalletSignature :: after_ ->
    step p (WalletSigned signedXdr) (MkPanel submitting (pn_error p) (before ++ SubmitAnswer signedXdr :: after_) (pn_told p))
| StepRefused before after_ message : pn_awaited p = before ++ WalletSignature :: after_ ->
    step p (WalletRefused message) (MkPanel ready (Some message) (before ++ after_) (pn_told p))
| StepTold before after_ signedXdr status : pn_awaited p = before ++ SubmitAnswer signedXdr :: after_ ->
    step p (SubmitTold status) (apply p (before ++ after_) status)
| StepThrew before after_ signedXdr message : pn_awaited p = before ++ SubmitAnswer signedXdr :: after_ ->
    step p (SubmitThrew message) (MkPanel ready (Some message) (before ++ after_) (pn_told p))
| StepRecheck : can_recheck p = true ->
    step p ClickRecheck (MkPanel (pn_phase p) None (RecheckAnswer :: pn_awaited p) (pn_told p))
| StepRetold before after_ status : pn_awaited p = before ++ RecheckAnswer :: after_ ->
    step p (RecheckTold status) (apply p (before ++ after_) status)
| StepRethrew before after_ message : pn_awaited p = before ++ RecheckAnswer :: after_ ->
    step p (RecheckThrew message) (MkPanel (pn_phase p) (Some message) (before ++ after_) (pn_told p)).

Inductive steps (p : Panel) : list PanelEvent -> Panel -> Prop :=
| steps_none : steps p [] p
| steps_more events p1 e p2 : steps p events p1 -> step p1 e p2 -> steps p (events ++ [e]) p2.

(** ** What the panel keeps to *)
Definition is_recheck (a : Awaited) : bool := match a with RecheckAnswer => true | _ => false end.

(** The wallet or the submission is awaited exactly in the phase that says so, and only one of them; and
    once an answer is shown only rechecks are awaited, and the answer was given. *)
Definition panel_ok (p : Panel) : Prop :=
  match pn_phase p with
  | ready => pn_awaited p = [] /\ pn_told p = []
  | signing => pn_awaited p = [WalletSignature] /\ pn_told p = []
  | submitting => (exists signedXdr, pn_awaited p = [SubmitAnswer signedXdr]) /\ pn_told p = []
  | told status => Forall (fun a => is_recheck a = true) (pn_awaited p) /\ hd_error (pn_told p) = Some status
  end.

Lemma one_awaited {A} (a b : A) before after_ : [a] = before ++ b :: after_ -> before = [] /\ after_ = [] /\ a = b.
Proof. destruct before as [|c [|]]; [intros [= <- <-]; done|done|done]. Qed.

(** What an awaited answer says of the panel. *)
Lemma awaited_ok p before a after_ :
  panel_ok p -> pn_awaited p = before ++ a :: after_ ->
  match a with
  | RecheckAnswer => exists status, pn_phase p = told status /\ Forall (fun a => is_recheck a = true) (before ++ after_) /\ hd_error (pn_told p) = Some status
  | _ => before = [] /\ after_ = [] /\ pn_told p = []
  end.
Proof.
  unfold panel_ok. intros Hp E. destruct (pn_phase p) as [| | |status].
  - destruct Hp as [E' _]. rewrite E' in E. by destruct before.
  - destruct Hp as [E' Ht]. rewrite E' in E. by apply one_awaited in E as (-> & -> & <-).
  - destruct Hp as [[x E'] Ht]. rewrite E' in E. by apply one_awaited in E as (-> & -> & <-).
  - destruct Hp as [Hf Ht]. rewrite E in Hf. apply Forall_app in Hf as [Hf1 Hf2]. inversion Hf2 as [|? ? Ha Hf3]; subst.
    destruct a; try done. exists status. split; [done|]. split; [by apply Forall_app|done].
Qed.

Lemma step_ok p e p' : panel_ok p -> step p e p' -> panel_ok p'.
Proof.
  intros Hp Hs. destruct Hs as [Hc|? ? x E|? ? x E|? ? x s E|? ? x s E|Hc|? ? s E|? ? s E];
    try (pose proof (awaited_ok _ _ _ _ Hp E) as Ha; cbn in Ha);
    try (destruct Ha as (-> & -> & Ht)); try (destruct Ha as (status & Eph & Hf & Ht)).
  - unfold panel_ok, can_sign in *. destruct (pn_phase p); try done. destruct Hp as [-> ->]. done.
  - split; [by exists x|done].
  - done.
  - split; [by constructor|done].
  - done.
  - unfold panel_ok, can_recheck in *. cbn. destruct (pn_phase p) as [| | |status]; try done.
    destruct Hp as [Hf Ht]. split; [by constructor|done].
  - split; [done|done].
  - unfold panel_ok. cbn. rewrite Eph. done.
Qed.

Lemma steps_ok p events p' : panel_ok p -> steps p events p' -> panel_ok p'.
Proof. intros Hp Hs. induction Hs; [done|]. by eapply step_ok. Qed.

(** Whatever is clicked and answered, in whatever order: the wallet is asked only on a click while
    nothing is awaited, the panel shows a status only if an answer brought it, and once it shows one the
    envelope is neither signed nor sent again. *)
Lemma panel_signs_one_at_a_time events p :
  steps mounted events p ->
  (can_sign p = true -> pn_awaited p = []) /\
  (forall status, pn_phase p = told status -> In (SubmitTold status) events \/ In (RecheckTold status) events) /\
  (pn_told p <> [] -> can_sign p = false /\ busy p = false).
Proof.
  intros Hs. assert (Hok : panel_ok p) by (by apply (steps_ok mounted events)).
  assert (Htold : forall status, In status (pn_told p) -> In (SubmitTold status) events \/ In (RecheckTold status) events).
  { clear Hok. induction Hs as [|events p1 e p2 Hs IH Hstep]; [done|]. intros status Hin. rewrite !in_app_iff.
    destruct Hstep; cbn in Hin; cbn; try (destruct Hin as [<-|Hin]); naive_solver. }
  unfold panel_ok, can_sign, busy in *. destruct (pn_phase p) as [| | |status].
  - destruct Hok as [-> Et]. split; [done|]. split; [done|]. by rewrite Et.
  - destruct Hok as [_ Et]. split; [done|]. split; [done|]. by rewrite Et.
  - destruct Hok as [_ Et]. split; [done|]. split; [done|]. by rewrite Et.
  - destruct Hok as [_ Et]. split; [done|]. split; [|done]. intros ? [= <-]. apply Htold.
    destruct (pn_told p) as [|x l]; [done|]. left. by injection Et.
Qed.

(** Two rechecks may be awaited at once, and the later answer to arrive is the one shown: a panel that has
    shown a settled transaction goes back to pending. *)
Example settled_then_pending :
  exists p, steps mounted [ClickSign; WalletSigned "xdr"; SubmitTold "pending"; ClickRecheck; ClickRecheck; RecheckTold "settled"; RecheckTold "pending"] p /\
    pn_told p = ["pending"; "settled"; "pending"] /\ pn_phase p = told "pending".
Proof.
  eexists. split.
  - change [ClickSign; WalletSigned "xdr"; SubmitTold "pending"; ClickRecheck; ClickRecheck; RecheckTold "settled"; RecheckTold "pending"]
      with (((((([] ++ [ClickSign]) ++ [WalletSigned "xdr"]) ++ [SubmitTold "pending"]) ++ [ClickRecheck]) ++ [ClickRecheck]) ++
        [RecheckTold "settled"] ++ [RecheckTold "pending"]).
    rewrite app_assoc.
    eapply steps_more; [eapply steps_more; [eapply steps_more; [eapply steps_more; [eapply steps_more; [eapply steps_more; [eapply steps_more; [constructor|]|]|]|]|]|]|].
    + by apply StepSign.
    + by apply (StepSigned _ [] []).
    + by eapply (StepTold _ [] [] "xdr").
    + by apply StepRecheck.
    + by apply StepRecheck.
    + by apply (StepRetold _ [] [RecheckAnswer]).
    + by apply (StepRetold _ [] []).
  - done.
Qed.

Lemma keyed_once {A B} (l : list (A * B)) k x y : NoDup (List.map fst l) -> In (k, x) l -> In (k, y) l -> x = y.
Proof.
  induction l as [|[k' z] l IH]; cbn; [done|]. intros Hnd. inversion Hnd as [|? ? Hni Hnd']; subst. rewrite list_elem_of_In in Hni.
  assert (Hno : forall v, In (k', v) l -> False) by (intros v Hv; apply Hni, in_map_iff; by exists (k', v)).
  intros [[= <- <-]|Hx] [[= <-]|Hy]; try done; [by destruct (Hno y)|subst; by destruct (Hno x)|by apply IH].
Qed.

(** ** The lines a page shows ([LenderView.tsx], [BorrowerView.tsx]) *)
Section Details.
Context {Detail : Type} (detail_id : Detail -> string).

(** The answers to [Promise.allSettled(mine.map(...))], each next to the line it was asked for. *)
Notation answers := (list (string * (Detail + string))).

Definition loaded (results : answers) : gmap string Detail :=
  foldl (fun acc r => match snd r with inl d => <[detail_id d := d]> acc | inr _ => acc end) ∅ results.
Definition failed (results : answers) : gmap string string :=
  foldl (fun acc r => match snd r with inl _ => acc | inr message => <[fst r := message]> acc end) ∅ results.

(** [setDetails((prev) => ({ ...those of prev that failed, ...loaded }))]. *)
Definition refreshed (prev : gmap string Detail) (results : answers) : gmap string Detail :=
  loaded results ∪ filter (fun kv => is_Some (failed results !! fst kv)) prev.

Lemma loaded_spec results :
  NoDup (List.map fst results) -> (forall id d, In (id, inl d) results -> detail_id d = id) ->
  forall id d, loaded results !! id = Some d <-> In (id, inl d) results.
Proof.
  unfold loaded. induction results as [|[id' x] results IH] using rev_ind; intros Hnd Hid id d; cbn; [done|].
  rewrite foldl_app, in_app_iff. cbn. rewrite map_app in Hnd. apply NoDup_app in Hnd as (Hnd & Hdis & _).
  assert (Hid' : forall id d, In (id, inl d) results -> detail_id d = id) by (intros; apply Hid, in_app_iff; by left).
  specialize (IH Hnd Hid'). destruct x as [d'|m]; cbn; [|rewrite IH; naive_solver].
  assert (detail_id d' = id') as -> by (apply Hid, in_app_iff; right; by left).
  destruct (decide (id = id')) as [->|Hne]; [rewrite lookup_insert_eq|rewrite lookup_insert_ne by done; rewrite IH; naive_solver].
  split; [intros [= ->]; auto|]. intros [Hin|[[= ->]|[]]]; [|done]. exfalso.
  apply (Hdis id'); [|by left]. apply list_elem_of_In, in_map_iff. by exists (id', inl d).
Qed.

Lemma failed_spec results : NoDup (List.map fst results) -> forall id m, failed results !! id = Some m <-> In (id, inr m) results.
Proof.
  unfold failed. induction results as [|[id' x] results IH] using rev_ind; intros Hnd id m; cbn; [done|].
  rewrite foldl_app, in_app_iff. cbn. rewrite map_app in Hnd. apply NoDup_app in Hnd as (Hnd & Hdis & _).
  specialize (IH Hnd). destruct x as [d|m']; cbn; [rewrite IH; naive_solver|].
  destruct (decide (id = id')) as [->|Hne]; [rewrite lookup_insert_eq|rewrite lookup_insert_ne by done; rewrite IH; naive_solver].
  split; [intros [= ->]; auto|]. intros [Hin|[[= ->]|[]]]; [|done]. exfalso.
  apply (Hdis id'); [|by left]. apply list_elem_of_In, in_map_iff. by exists (id', inr m).
Qed.

(** After a refresh a line that answered shows what it answered, one that did not shows what it showed
    before, and no other line shows anything. *)
Lemma refresh_keeps_last_good prev results :
  NoDup (List.map fst results) -> (forall id d, In (id, inl d) results -> detail_id d = id) ->
  forall id, match List.find (fun r => bool_decide (fst r = id)) results with
             | Some (_, inl d) => refreshed prev results !! id = Some d
             | Some (_, inr m) => refreshed prev results !! id = prev !! id /\ failed results !! id = Some m
             | None => refreshed prev results !! id = None
             end.
Proof.
  intros Hnd Hid id. pose proof (loaded_spec results Hnd Hid id) as Hl. pose proof (failed_spec results Hnd id) as Hf.
  unfold refreshed. rewrite lookup_union. destruct (List.find _ results) as [[id' x]|] eqn:Efind.
  - apply find_some in Efind as [Hin E%bool_decide_eq_true]. cbn in E. subst id'. destruct x as [d|m].
    + rewrite (proj2 (Hl d) Hin). by destruct (filter _ prev !! id).
    + assert (loaded results !! id = None) as ->.
      { apply eq_None_not_Some. intros [d Hd%Hl]. by pose proof (keyed_once _ _ _ _ Hnd Hin Hd). }
      pose proof (proj2 (Hf m) Hin) as Em. rewrite Em. split; [|done]. rewrite map_lookup_filter.
      destruct (prev !! id) as [d|]; [|done]. cbn. rewrite Em. case_guard as Hg; [done|]. by destruct Hg.
  - assert (Hno : forall x, ~ In (id, x) results).
    { intros x Hin. pose proof (find_none _ _ Efind _ Hin) as E. cbn in E. by rewrite bool_decide_true in E. }
    assert (loaded results !! id = None) as -> by (apply eq_None_not_Some; intros [d Hd%Hl]; by eapply Hno).
    assert (Ef : failed results !! id = None) by (apply eq_None_not_Some; intros [d Hd%Hf]; by eapply Hno).
    rewrite map_lookup_filter. destruct (prev !! id) as [d|]; cbn; [|done]. case_guard as Hg; [|done]. exfalso. clear - Ef Hg. cbn in Hg. rewrite Ef in Hg. by destruct Hg.
Qed.
End Details.

(** ** What the buttons ask for *)
Record QuoteShown := Quoted { qs_id : string; qs_assetId : string; qs_usdcOut : string }.
Definition SLIPPAGE_BPS : Z := 50.

(** A click with what the page has at hand: typed amounts are texts; the parties and assets are those
    picked or looked up; a rate and a duration are the numbers the form has worked out.  It comes to a call
    of the client, or to the error it shows. *)
Definition fund_click (id amount : string) : outcome ApiFunction := n <-? toScaled amount ;; Ok (fund id n).
Definition withdraw_click (id kind amount : string) : outcome ApiFunction := n <-? toScaled amount ;; Ok (withdraw id kind n).
Definition close_click (id : string) : outcome ApiFunction := Ok (closeLiquidation id).
Definition open_click (lenderId borrowerId loanCcy limit : string) (rateBps cureWindowS : Z) (asset : string) : outcome ApiFunction :=
  n <-? toScaled limit ;; Ok (openCreditLine lenderId borrowerId (toUpperCase (trim loanCcy)) n rateBps cureWindowS asset).
Definition draw_click (id amount to : string) : outcome ApiFunction := n <-? toScaled amount ;; Ok (draw id n to).
Definition repay_click (id amount : string) : outcome ApiFunction := n <-? toScaled amount ;; Ok (repay id n).
Definition pledge_click (id assetId units : string) (custodyMode : option string) : outcome ApiFunction :=
  n <-? toScaled units ;; Ok (pledge id assetId n (default "escrow" custodyMode)).
Definition release_click (id pledgeId : string) : outcome ApiFunction := Ok (releasePledge id pledgeId).
Definition quote_click (assetId units : string) : outcome ApiFunction := n <-? toScaled units ;; Ok (exitQuote assetId n).
Definition execute_click (quote : QuoteShown) (to : string) : outcome ApiFunction :=
  out <-? BigInt (qs_usdcOut quote) ;; Ok (exitExecute (qs_id quote) (Z.quot (out * (10000 - SLIPPAGE_BPS)) 10000) (trim to)).
Definition propose_click (cashLenderId cashBorrowerId assetId units cash : string) (rateBps : Z) (kind maturityAt : string) : outcome ApiFunction :=
  n <-? toScaled units ;; c <-? toScaled cash ;; Ok (repoPropose cashLenderId cashBorrowerId assetId n c rateBps kind maturityAt).
Definition accept_click (tradeId : string) : outcome ApiFunction := Ok (repoAccept tradeId).
Definition top_up_click (tradeId units : string) : outcome ApiFunction := n <-? toScaled units ;; Ok (repoTopUp tradeId n).
Definition unwind_click (tradeId : string) : outcome ApiFunction := Ok (repoUnwind tradeId).

(** The clicks that ask for an envelope or a quote. *)
Inductive Action :=
| FundLine (id amount : string)
| WithdrawFrom (id kind amount : string)
| CloseLine (id : string)
| OpenLine (lenderId borrowerId loanCcy limit : string) (rateBps cureWindowS : Z) (asset : string)
| DrawFrom (id amount to : string)
| RepayTo (id amount : string)
| PledgeTo (id assetId units : string) (custodyMode : option string)
| ReleaseFrom (id pledgeId : string)
| AskQuote (assetId units : string)
| ExecuteQuote (quote : QuoteShown) (to : string)
| ProposeRepo (cashLenderId cashBorrowerId assetId units cash : string) (rateBps : Z) (kind maturityAt : string)
| AcceptRepo (tradeId : string)
| TopUpRepo (tradeId units : string)
| UnwindRepo (tradeId : string).

Definition asks (a : Action) : outcome ApiFunction :=
  match a with
  | FundLine id amount => fund_click id amount
  | WithdrawFrom id kind amount => withdraw_click id kind amount
  | CloseLine id => close_click id
  | OpenLine lenderId borrowerId loanCcy limit rateBps cureWindowS asset => open_click lenderId borrowerId loanCcy limit rateBps cureWindowS asset
  | DrawFrom id amount to => draw_click id amount to
  | RepayTo id amount => repay_click id amount
  | PledgeTo id assetId units custodyMode => pledge_click id assetId units custodyMode
  | ReleaseFrom id pledgeId => release_click id pledgeId
  | AskQuote assetId units => quote_click assetId units
  | ExecuteQuote quote to => execute_click quote to
  | ProposeRepo cashLenderId cashBorrowerId assetId units cash rateBps kind maturityAt =>
      propose_click cashLenderId cashBorrowerId assetId units cash rateBps kind maturityAt
  | AcceptRepo tradeId => accept_click tradeId
  | TopUpRepo tradeId units => top_up_click tradeId units
  | UnwindRepo tradeId => unwind_click tradeId
  end.

(** The buttons, where they are enabled: one envelope at a time where the page says so. *)
Definition fund_enabled (busy tx_open : bool) (amount : string) (contractLineId : option string) : bool :=
  negb (busy || tx_open || eqs amount "" || match contractLineId with None | Some "" => true | _ => false end).
Definition draw_enabled (busy tx_open : bool) (amount to : string) : bool := negb (busy || tx_open || eqs amount "" || eqs to "").
Definition release_enabled (busy tx_open : bool) (status : string) : bool := negb (busy || tx_open || negb (eqs status "active")).
Definition accept_shown (status : string) (is_borrower matured : bool) (contractTradeId : option string) : bool :=
  eqs status "proposed" && is_borrower && match contractTradeId with None | Some "" => false | _ => true end && negb matured.
Definition unwind_shown (status : string) (matured : bool) : bool := eqs status "settled" && matured.

(** The floor of an exit is at most half a percent below the quote, rounded down. *)
Lemma exit_floor_within_slippage out : 0 <= out ->
  let floor := Z.quot (out * (10000 - SLIPPAGE_BPS)) 10000 in
  10000 * floor <= out * 9950 < 10000 * (floor + 1).
Proof.
  intros Ho. cbv zeta. unfold SLIPPAGE_BPS. rewrite Z.quot_div_nonneg by lia.
  pose proof (Z.div_mod (out * (10000 - 50)) 10000). pose proof (Z.mod_pos_bound (out * (10000 - 50)) 10000). lia.
Qed.

(** * The books of the lines *)
(** Where a refresh is: before the answer with the positions, with the lines' details, with the assets. *)
Inductive Reload := AwaitPositions | AwaitLines (mine : list string) | AwaitAssets.
Inductive ReloadAnswer :=
| PositionsCame (pos : PositionsResult)
| LinesCame (results : list (CreditLineDetail + string))
| AssetsCame (l : list AssetSummary)
| ReloadThrew (message : string).

Record Book := MkBook {
  bk_positions : option PositionsResult; bk_details : gmap string CreditLineDetail; bk_assets : list AssetSummary;
  bk_lineErrors : gmap string string; bk_error : option string; bk_loading : bool; bk_reloads : list Reload }.
Definition book_mounted : Book := MkBook None ∅ [] ∅ None true [].

Section Book.
Context (is_mine : CreditLineRow -> bool).
Implicit Types b : Book.

Definition reload (silent : bool) b : Book :=
  MkBook (bk_positions b) (bk_details b) (bk_assets b) (bk_lineErrors b) (bk_error b) (if silent then bk_loading b else true)
    (bk_reloads b ++ [AwaitPositions]).

(** [usePolling]: at the interval, and when the window regains focus, if the page can be seen. *)
Definition poll (visible : bool) b : Book := if visible then reload true b else b.

(** The refresh numbered [i] goes on with an answer. *)
Definition reload_came (i : nat) (a : ReloadAnswer) b : Book :=
  let '(MkBook pos details listed errors error loading reloads) := b in
  match reloads !! i, a with
  | Some AwaitPositions, PositionsCame p =>
      MkBook (Some p) details listed errors error loading (<[i := AwaitLines (List.map cr_id (List.filter is_mine (ps_creditLines p)))]> reloads)
  | Some (AwaitLines mine), LinesCame results =>
      let answers := zip mine results in
      MkBook pos (refreshed cd_id details answers) listed (failed answers) error loading (<[i := AwaitAssets]> reloads)
  | Some AwaitAssets, AssetsCame l => MkBook pos details l errors None false (delete i reloads)
  | Some (AwaitPositions | AwaitAssets), ReloadThrew message => MkBook pos details listed errors (Some message) false (delete i reloads)
  | _, _ => b
  end.

(** The answer is one the refresh waits for; a line's detail is asked for by its id and answered for it. *)
Definition answer_fits (b : Book) (i : nat) (a : ReloadAnswer) : Prop :=
  match bk_reloads b !! i, a with
  | Some AwaitPositions, PositionsCame _ | Some AwaitAssets, AssetsCame _ | Some (AwaitPositions | AwaitAssets), ReloadThrew _ => True
  | Some (AwaitLines mine), LinesCame results => List.length results = List.length mine
  | _, _ => False
  end.

Definition my_lines b : list CreditLineRow := match bk_positions b with Some p => List.filter is_mine (ps_creditLines p) | None => [] end.

(** ** Every detail is kept under its own id *)
Definition book_keyed b : Prop := forall id d, bk_details b !! id = Some d -> cd_id d = id.

Lemma loaded_keyed (results : list (string * (CreditLineDetail + string))) id d : loaded cd_id results !! id = Some d -> cd_id d = id.
Proof.
  unfold loaded. induction results as [|[k x] results IH] using rev_ind; [done|]. rewrite foldl_app. cbn. destruct x as [d'|]; [|done].
  intros [[<- <-]|[_ Hl]]%lookup_insert_Some; [done|auto].
Qed.

Lemma reload_came_keyed i a b : book_keyed b -> book_keyed (reload_came i a b).
Proof.
  unfold book_keyed. destruct b as [pos details l errors error loading reloads]. intros Hb id d. unfold reload_came.
  destruct (reloads !! i) as [[]|], a; cbn; auto. unfold refreshed. intros [Hl|[_ Hf]]%lookup_union_Some_raw; [by eapply loaded_keyed|].
  apply map_lookup_filter_Some in Hf as [Hf _]. auto.
Qed.

Lemma reload_keyed silent b : book_keyed b -> book_keyed (reload silent b).
Proof. done. Qed.
Lemma poll_keyed visible b : book_keyed b -> book_keyed (poll visible b).
Proof. by destruct visible. Qed.
End Book.
