(* ===== verification/ConsoleSafety.v ===== *)
(** What the console promises to its user and to the API: an amount is read as it was typed, a request
    goes to a route the API has and is read there as it was meant, a session goes to the API alone and ends
    when the API says so. *)
From S2P Require Import Prelude Prog Shape Memory Domain Webhooks Api AccountRoutes ReadRoutes LineRoutes DealRoutes Server Console ConsolePages.

(** ** Amounts *)
(** A text the console takes as an amount is read as the API reads a decimal column, and is not negative. *)
Lemma span_digits_app s : let '(d, rest) := span_digits s in s = d +:+ rest /\ string_forall is_digit d = true.
Proof.
  induction s as [|c s IH]; cbn; [done|]. destruct (is_digit c) eqn:E; [|done].
  destruct (span_digits s) as [d rest]. destruct IH as [-> Hd]. split; [done|]. unfold string_forall in *. cbn. by rewrite E.
Qed.

Lemma digits_no_dot s : string_forall is_digit s = true -> lacks "." s.
Proof. apply string_forall_impl. intros c Hc. apply negb_true_iff, bool_decide_false. by apply digit_char. Qed.

(** The two sides of the point. *)
Lemma amount_parts text : AMOUNT_PATTERN text = true ->
  exists whole frac, string_forall is_digit whole = true /\ string_forall is_digit frac = true /\
    nth 0 (split_on "." text) "" = whole /\ nth 1 (split_on "." text) "" = frac /\ starts_with "-" text = false.
Proof.
  unfold AMOUNT_PATTERN. pose proof (span_digits_app text) as Hs. destruct (span_digits text) as [whole rest].
  destruct Hs as [-> Hw]. unfold eqs. case_bool_decide as Er; [subst rest|].
  - intros Hne%negb_true_iff%bool_decide_eq_false. exists whole, "".
    rewrite no_minus_head, string_app_nil_r, split_on_none by (done || by apply digits_no_dot). done.
  - destruct (starts_with "." rest) eqn:Ed; [|done]. apply starts_with_drop in Ed. change (slen ".") with 1%nat in Ed.
    pose proof (span_digits_app (string_drop 1 rest)) as Hs. destruct (span_digits (string_drop 1 rest)) as [frac rest'].
    destruct Hs as [E Hf]. rewrite !andb_true_iff. intros [[->%bool_decide_eq_true _] Hsome].
    rewrite string_app_nil_r in E. rewrite E in Ed. subst rest. exists whole, frac.
    change ("." +:+ frac) with (String "." frac). rewrite split_on_app by by apply digits_no_dot.
    rewrite split_on_none by by apply digits_no_dot. split; [done|]. split; [done|]. split; [done|]. split; [done|].
    destruct (decide (whole = "")) as [->|Hne]; [|by apply no_minus_head].
    apply not_true_is_false. intros H%(starts_with_head "-" "." frac). done.
Qed.

Lemma padded_fraction frac : string_forall is_digit frac = true ->
  string_take 7 (frac +:+ "0000000") <> "" /\ string_forall is_digit (string_take 7 (frac +:+ "0000000")) = true.
Proof.
  intros Hf. unfold string_take. split.
  - rewrite string_to_list_app. by destruct (string_to_list frac).
  - unfold string_forall in *. rewrite string_to_list_to_string, string_to_list_app, forallb_forall.
    rewrite forallb_forall in Hf. intros c Hc.
    assert (Hn : In c (string_to_list frac ++ string_to_list "0000000")).
    { rewrite <- (firstn_skipn 7 (_ ++ _)). apply in_app_iff. by left. }
    apply in_app_iff in Hn as [Hn|Hn]; [by apply Hf|].
    cbn in Hn. naive_solver.
Qed.

(** A text that is no amount is refused with the hint; one that is an amount is read as a number not less
    than zero, the one the API reads in the same text. *)
Lemma typed_amount s :
  if AMOUNT_PATTERN (trim s)
  then exists n, 0 <= n /\ toScaled s = Ok n /\ decimalStringToScaled (trim s) = Ok n
  else toScaled s = Err (Error AMOUNT_HINT).
Proof.
  unfold toScaled, decimalStringToScaled. destruct (AMOUNT_PATTERN (trim s)) eqn:Ep; [|done]. cbn [negb]. cbv zeta.
  destruct (amount_parts _ Ep) as (whole & frac & Hw & Hf & E0 & E1 & Em). rewrite Em, E0, E1.
  destruct (padded_fraction frac Hf) as [Hne Hd]. destruct (BigInt_total _ Hne Hd) as (f & Hf0 & Ef).
  assert (Hwhole : exists w, 0 <= w /\ BigInt (js_or whole "0") = Ok w).
  { unfold js_or. case_bool_decide as Ew; [by exists 0|by apply BigInt_total]. }
  destruct Hwhole as (w & Hw0 & Ew). rewrite Ew. unfold js_or at 1. rewrite bool_decide_false by done. rewrite Ef. cbn.
  exists (w * 10000000 + f). split; [lia|done].
Qed.

(** ** Requests *)
(** A path of the API with the parameters of its URL filled in. *)
Definition fill_segment (acc : list string * list string) (segment : string) : list string * list string :=
  let '(path, params) := acc in
  if starts_with ":" segment then (path ++ [hd "" params], tl params) else (path ++ [segment], params).
Definition fill (pattern : string) (params : list string) : string :=
  join "/" (fst (List.fold_left fill_segment (split_on "/" pattern) ([], params))).

Definition parameters (ep : Endpoint) : list string :=
  match ep with
  | GetPriceOf id | DeleteOneSubscription id | ListDeliveriesOf id | PostRedeliver id | DeleteKey id | GetLine id | PostFund id
  | PostWithdrawal id | PostClose id | PostPledge id | PostDraw id | PostRepayment id | PostExecute id | PostAccept id
  | PostUnwind id | PostTopUp id | PostSettle id | GetParty id => [id]
  | DeletePledge id pledgeId => [id; pledgeId]
  | _ => []
  end.
Definition address (ep : Endpoint) : string := fill (snd (registered_as ep)) (parameters ep).

(** The route each function of the client is for. *)
Definition meant_for (f : ApiFunction) : Endpoint :=
  match f with
  | markets => GetPublicMarkets
  | challenge _ => PostChallenge
  | token _ => PostToken
  | submitTx _ => PostSubmit
  | settleTx hash => PostSettle hash
  | partyByAccount account => GetParty account
  | openCreditLine _ _ _ _ _ _ _ => PostLine
  | exitQuote _ _ => PostQuote
  | exitExecute id _ _ => PostExecute id
  | repoPropose _ _ _ _ _ _ _ _ => PostProposal
  | repoAccept id => PostAccept id
  | repoTopUp id _ => PostTopUp id
  | repoUnwind id => PostUnwind id
  | assets => GetAllAssets
  | positions _ => GetOwnPositions
  | creditLine id => GetLine id
  | fund id _ => PostFund id
  | withdraw id _ _ => PostWithdrawal id
  | closeLiquidation id => PostClose id
  | draw id _ _ => PostDraw id
  | repay id _ => PostRepayment id
  | pledge id _ _ _ => PostPledge id
  | releasePledge id pledgeId => DeletePledge id pledgeId
  end.

Definition query_of (f : ApiFunction) : string := match f with positions partyId => "?party=" +:+ partyId | _ => "" end.

Lemma request_is_addressed f :
  ar_method (api f) = fst (registered_as (meant_for f)) /\ ar_path (api f) = address (meant_for f) +:+ query_of f.
Proof. by destruct f; cbn; rewrite ?string_app_nil_r. Qed.

(** ** From a click to the API's reading of it *)
Section Arrival.
Context `{ApiLib}.

(** The ids are ids, the amounts are positive, the choices are those offered.  The pickers see to the ids and
    the choices, but not every form to the amounts: what the exit page asks for can be refused
    ([smallest_exit_is_refused]). *)
Definition sensible (f : ApiFunction) : Prop :=
  match f with
  | openCreditLine lenderId borrowerId _ limit rateBps cureWindowS _ =>
      zod_uuid lenderId = true /\ zod_uuid borrowerId = true /\ 0 < limit /\ 0 <= rateBps /\ 0 < cureWindowS
  | exitQuote assetId units => zod_uuid assetId = true /\ 0 < units
  | exitExecute _ minUsdcOut _ => 0 < minUsdcOut
  | repoPropose cashLenderId cashBorrowerId assetId units cashAmount rateBps kind maturityAt =>
      zod_uuid cashLenderId = true /\ zod_uuid cashBorrowerId = true /\ zod_uuid assetId = true /\ 0 < units /\ 0 < cashAmount /\
      0 <= rateBps /\ In kind ["intraday"; "overnight"; "open"; "term"] /\ zod_datetime maturityAt = true
  | repoTopUp _ units => 0 < units
  | fund _ amount | repay _ amount | draw _ amount _ => 0 < amount
  | withdraw _ kind amount => In kind ["undrawn"; "interest"] /\ 0 < amount
  | pledge _ assetId units custodyMode => zod_uuid assetId = true /\ 0 < units /\ In custodyMode ["escrow"; "issuer_lien"; "custodian_lien"]
  | _ => True
  end.

Definition typed_as (text : string) (n : Z) : Prop := decimalStringToScaled (trim text) = Ok n.

(** The API's handler for the endpoint reads from the body what the click said. *)
Definition arrives (a : Action) (ep : Endpoint) (body : jsval) : Prop :=
  match a with
  | FundLine id amount => deal_request ep body = Some (FundR id body) /\ exists n, typed_as amount n /\ amountSchema body = Ok n
  | RepayTo id amount => deal_request ep body = Some (RepayR id body) /\ exists n, typed_as amount n /\ amountSchema body = Ok n
  | WithdrawFrom id kind amount =>
      deal_request ep body = Some (WithdrawR id body) /\ exists n, typed_as amount n /\ withdrawSchema body = Ok (kind, n)
  | DrawFrom id amount to => deal_request ep body = Some (DrawR id body) /\ exists n, typed_as amount n /\ createDrawSchema body = Ok (n, to)
  | OpenLine lenderId borrowerId loanCcy limit rateBps cureWindowS asset =>
      deal_request ep body = Some (OpenLineR body) /\ exists n, typed_as limit n /\
      openCreditLineSchema body = Ok (OpenLineBody lenderId borrowerId (toUpperCase (trim loanCcy)) n rateBps 0 cureWindowS asset (repeat 0 32))
  | PledgeTo id assetId units custodyMode =>
      deal_request ep body = Some (PledgeR id body) /\ exists n, typed_as units n /\
      createPledgeSchema body = Ok (PledgeBody assetId n (default "escrow" custodyMode))
  | AskQuote assetId units => ep = PostQuote /\ exists n, typed_as units n /\ exitQuoteRequestSchema body = Ok (assetId, n)
  | ExecuteQuote quote to =>
      deal_request ep body = Some (ExecuteR (qs_id quote) body) /\ exists out, BigInt (qs_usdcOut quote) = Ok out /\
      exitExecuteSchema body = Ok (Some (Z.quot (out * 9950) 10000), trim to)
  | ProposeRepo cashLenderId cashBorrowerId assetId units cash rateBps kind maturityAt =>
      deal_request ep body = Some (ProposeR body) /\ exists n c, typed_as units n /\ typed_as cash c /\
      repoProposalSchema body = Ok (ProposalBody cashLenderId cashBorrowerId assetId n c rateBps kind maturityAt (repeat 0 32))
  | TopUpRepo tradeId units => deal_request ep body = Some (TopUpR tradeId body) /\ exists n, typed_as units n /\ repoTopUpSchema body = Ok n
  | AcceptRepo tradeId => deal_request ep body = Some (AcceptR tradeId body) /\ repoTradeActionSchema (body_or_empty body) = Ok None
  | UnwindRepo tradeId => deal_request ep body = Some (UnwindR tradeId body) /\ repoTradeActionSchema (body_or_empty body) = Ok None
  | CloseLine id => deal_request ep body = Some (CloseR id)
  | ReleaseFrom id pledgeId => deal_request ep body = Some (ReleaseR id pledgeId)
  end.

Lemma positiveAmount_text n : 0 < n -> positiveAmount (Some (bigint_text n)) = Ok n.
Proof.
  intros Hn. destruct (Z_to_string_nonneg n ltac:(lia)) as (Hne & Hd & _).
  unfold positiveAmount, amount_from, bigint_text, DIGITS_ONLY, eqs. rewrite bool_decide_false, Hd by done. cbn [negb andb].
  rewrite BigInt_Z_to_string by lia. cbn. by rewrite (proj2 (Z.ltb_ge n 1)) by lia.
Qed.

Lemma z_check_text p s : p s = true -> z_check p (Some (JStr s)) = Ok s.
Proof. unfold z_check. cbn. by intros ->. Qed.

Lemma z_enum_text names s : In s names -> z_enum names (Some (JStr s)) = Ok s.
Proof. intros Hin. apply z_check_text, existsb_exists. exists s. split; [done|]. by apply bool_decide_eq_true. Qed.

Lemma z_int_number p z : p z = true -> z_int p (Some (JNum z)) = Ok z.
Proof. cbn. by intros ->. Qed.

Lemma toScaled_typed text n : toScaled text = Ok n -> typed_as text n.
Proof.
  pose proof (typed_amount text) as Ht. destruct (AMOUNT_PATTERN (trim text)); [|congruence].
  destruct Ht as (m & _ & Em & Ed). unfold typed_as. congruence.
Qed.

Lemma agreement_bytes : Buffer_from_hex NO_AGREEMENT = repeat 0 32.
Proof. by vm_compute. Qed.
Lemma hexBuffer_none : hexBuffer (Some (JStr NO_AGREEMENT)) = Ok (repeat 0 32).
Proof. by vm_compute. Qed.

Lemma assoc_here {V} k (v : V) l : assoc k ((k, v) :: l) = Some v.
Proof. cbn. by rewrite bool_decide_true. Qed.
Lemma assoc_there {V} k k' (v : V) l : k <> k' -> assoc k ((k', v) :: l) = assoc k l.
Proof. intros Hne. cbn. by rewrite bool_decide_false. Qed.

(** The fields of a body, one after the other. *)
Ltac read_fields :=
  unfold field, optional, z_default, nonnegative, z_uuid, amountSchema, z_string;
  repeat (first
    [ rewrite assoc_here
    | rewrite assoc_there by discriminate
    | rewrite positiveAmount_text by lia
    | rewrite z_check_text by done
    | rewrite z_enum_text by done
    | rewrite z_int_number by first [apply Z.leb_le; lia|apply Z.ltb_lt; lia]
    | rewrite hexBuffer_none
    | progress cbn [obind assoc] ]);
  reflexivity.

(** C11. A click on sensible input, amounts above zero and ids that are UUIDs, reaches the API as its form says
    it: the request the console makes of it has the method and the address of the route it is meant for, with
    the path parameters filled in, and the route's schema reads in its body the party's own input, each
    amount being the number of units the text typed stands for in the API's own reading of decimal text.
    Other input the schemas refuse; the pages do not keep it all out. *)
Theorem clicks_reach_the_api_as_typed a f (Ha : asks a = Ok f) (Hf : sensible f) :
  ar_method (api f) = fst (registered_as (meant_for f)) /\ ar_path (api f) = address (meant_for f) +:+ query_of f /\
  arrives a (meant_for f) (default JNull (ar_body (api f))).
Proof.
  destruct (request_is_addressed f) as [Hm Hp]. split; [exact Hm|]. split; [exact Hp|]. clear Hm Hp.
  destruct a; cbn [asks] in Ha;
    unfold fund_click, withdraw_click, close_click, open_click, draw_click, repay_click, pledge_click, release_click, quote_click,
      execute_click, propose_click, accept_click, top_up_click, unwind_click in Ha;
    repeat match type of Ha with obind ?r _ = _ => let n := fresh "n" in let E := fresh "E" in
      apply obind_ok in Ha as (n & E & Ha); try apply toScaled_typed in E end;
    injection Ha as <-; cbn [sensible] in Hf; cbn [meant_for api post ar_body default];
    unfold Datatypes.id; destruct_and?; (split; [reflexivity|]) || reflexivity.
  all: try (eexists; split; [eassumption|]).
  all: unfold amountSchema, withdrawSchema, createDrawSchema, createPledgeSchema, exitQuoteRequestSchema, exitExecuteSchema,
    repoTopUpSchema, repoTradeActionSchema, openCreditLineSchema.
  all: try read_fields.
  exists n, n0. split; [done|]. split; [done|]. unfold repoProposalSchema. read_fields.
Qed.
End Arrival.

(** ** Concrete clicks *)
Module ClickSample.
#[local] Instance lib : ApiLib := {| chain_txHash := Ok; zod_uuid s := true; pg_uuid s := true; zod_datetime s := true; Date_of s := 0 |}.

Lemma clicks_reach_the_api_as_typed_witness :
  let a := PledgeTo "l1" "a1" " 100.25" (Some "issuer_lien") in
  let f := pledge "l1" "a1" 1002500000 "issuer_lien" in
  asks a = Ok f /\ sensible f /\
  (ar_method (api f) = "POST" /\ ar_path (api f) = "/v1/credit-lines/l1/pledges" +:+ "" /\
   arrives a (PostPledge "l1") (default JNull (ar_body (api f)))).
Proof.
  cbv zeta. split; [by vm_compute|]. split; [cbn; split; [done|]; split; [lia|auto]|].
  refine (clicks_reach_the_api_as_typed (PledgeTo "l1" "a1" " 100.25" (Some "issuer_lien")) (pledge "l1" "a1" 1002500000 "issuer_lien") _ _);
    [by vm_compute|cbn; split; [done|]; split; [lia|auto]].
Defined.

(** An exit that pays a single unit has a floor of zero, which the API refuses. *)
Example smallest_exit_is_refused :
  exists f, asks (ExecuteQuote (Quoted "q" "a" "1") "G") = Ok f /\
    exitExecuteSchema (default JNull (ar_body (api f))) = Err (ZodError "amount too small").
Proof. exists (exitExecute "q" 0 "G"). split; by vm_compute. Qed.

Example typed_amounts :
  List.map toScaled ["100.25"; "  .5 "; "7."; "1.23456789"; "-1"; "1e3"; ""] =
    [Ok 1002500000; Ok 5000000; Ok 70000000; Err (Error AMOUNT_HINT); Err (Error AMOUNT_HINT); Err (Error AMOUNT_HINT); Err (Error AMOUNT_HINT)].
Proof. by vm_compute. Qed.
End ClickSample.

(** The band shown beside an LTV is the state the API derives at the platform's thresholds. *)
Lemma margin_band_is_the_state ltv :
  marginBand ltv = match classifyMargin ltv (Thresholds 7000 8000 9000) with
                   | Liquidation => "liquidation" | MarginCall => "margin call" | Warning => "warning" | Healthy => "healthy" end.
Proof. unfold marginBand, classifyMargin. cbn. by repeat case_match. Qed.

(** ** The session *)
Section Sessions.
Context `{NodeLib, BodyLib} (env : ConfigEnv).
Implicit Types (m : ConsoleMemory) (w : console_world).

Definition authorized (bearer : option string) : bool := match bearer with None | Some "" => false | Some _ => true end.

(** A request with a session token that is answered 401 ends the session, in memory and in the browser's
    storage, and says so; any other leaves both alone. *)
Lemma request_ends_only_expired_sessions bearer r m w :
  mwp (request env bearer r) (fun o m' _ =>
    match o with
    | Ok (inr e) => if (ae_status e =? 401) && authorized bearer
                    then m' = CMemory None None (Some SESSION_EXPIRED) (cm_loading m) else m' = m
    | _ => m' = m
    end) m w.
Proof.
  unfold request. cbv zeta. apply mwp_bind, mwp_call. intros [res|x]; [|done]. fold (authorized bearer).
  destruct ((wr_status res =? 401) && authorized bearer) eqn:E4.
  { apply mwp_bind, mwp_write. apply andb_true_iff in E4 as [_ Ea]. apply (mwp_lift (Ok _)). cbn. by rewrite Ea. }
  destruct (negb _); [|done]. set (body := match wr_json res with Ok v => v | Err _ => JObj [] end).
  apply mwp_bind, mwp_lift. destruct (js_field "error" body); [|done].
  apply mwp_bind, mwp_lift. destruct (js_field "message" body); [|done]. apply (mwp_lift (Ok _)). cbn. by rewrite E4.
Qed.

(** Without a token nothing does. *)
Lemma call_without_token f m w : mwp (call_api env None f) (fun _ m' _ => m' = m) m w.
Proof.
  unfold call_api. apply mwp_bind. eapply mwp_mono; [|apply request_ends_only_expired_sessions].
  intros [[body|e]|x] m' w' Hr; [done| |done]. rewrite andb_false_r in Hr. by subst.
Qed.

(** A login ends with a session of the wallet's account, remembered by the browser, or with an error and
    whatever session there was. *)
Lemma login_opens_a_session_or_says_why m w :
  mwp (login env) (fun o m' _ => o = Ok tt /\ cm_loading m' = false /\
    match cm_error m' with
    | None => exists s, cm_session m' = Some s /\ cm_stored m' = Some (JSON_stringify (session_json s))
    | Some _ => cm_session m' = cm_session m /\ cm_stored m' = cm_stored m
    end) m w.
Proof.
  unfold login. apply mwp_bind, mwp_write. set (m1 := CMemory _ _ None true). apply mwp_bind, mwp_try.
  assert (Hsteps : mwp (log_in_steps env) (fun o m' _ => match o with
    | Ok _ => cm_error m' = None /\ exists s, cm_session m' = Some s /\ cm_stored m' = Some (JSON_stringify (session_json s))
    | Err _ => m' = m1 end) m1 w).
  { unfold log_in_steps. apply mwp_bind, mwp_call. intros [[[message|] account]|x]; [done| |done]. cbn [fst snd].
    apply mwp_bind. eapply mwp_mono; [|apply call_without_token]. intros [given|x] m2 w2 ->; [|done].
    apply mwp_bind, mwp_lift. destruct (reply_text "transaction" given) as [transaction|x]; [|done].
    apply mwp_bind, mwp_call. intros [[[message|] xdr]|x]; [done| |done]. cbn [fst snd].
    apply mwp_bind. eapply mwp_mono; [|apply call_without_token]. intros [result|x] m3 w3 ->; [|done].
    apply mwp_bind, mwp_lift. destruct (reply_text "token" result) as [tok|x]; [|done].
    apply mwp_bind, mwp_lift. destruct (reply_text "partyId" result) as [partyId|x]; [|done].
    apply mwp_write. split; [done|]. by eexists. }
  eapply mwp_mono; [|exact Hsteps]. intros [u|x] m2 w2 Hm; cbv beta iota in Hm.
  - destruct Hm as (He & s & Es & Et). apply mwp_bind, (mwp_lift (Ok tt)), mwp_write. cbn. rewrite He.
    split; [done|]. split; [done|]. by exists s.
  - subst m2. apply mwp_bind, mwp_write, mwp_write. done.
Qed.

(** The API alone is fetched from, with the session's token at most; the wallet signs only what is
    given to it, for the configured network. *)
Definition sent_home (bearer : option string) (X : Type) (c : ConsoleCall X) : Prop :=
  match c with
  | WebFetch req => (exists path, wq_url req = apiUrl env +:+ path) /\
      forall v, In ("authorization", v) (wq_headers req) -> exists tok, bearer = Some tok /\ v = "Bearer " +:+ tok
  | RequestAccess => True
  | SignTransaction _ _ passphrase => passphrase = network_passphrase env
  end.

Lemma request_sent_home bearer r : mwithin (sent_home bearer) (request env bearer r).
Proof.
  unfold request. cbv zeta. apply mwithin_bind; [|unfold notifyUnauthorized; mem_steps]. apply mwithin_call. split; [by exists (ar_path r)|].
  intros v Hv. cbn in Hv. apply in_app_iff in Hv as [Hv|Hv]; [destruct (ar_body r); naive_solver|].
  destruct bearer as [tok|]; [|done]. exists tok. split; [done|]. destruct tok; [done|]. by destruct Hv as [[= <-]|[]].
Qed.

Lemma call_api_sent_home bearer f : mwithin (sent_home bearer) (call_api env bearer f).
Proof. unfold call_api. apply mwithin_bind; [apply request_sent_home|]. mem_steps. Qed.

Lemma login_sent_home : mwithin (sent_home None) (login env).
Proof.
  pose proof (call_api_sent_home None) as Hc.
  assert (Hw : forall X (c : ConsoleCall X), sent_home None X c -> mwithin (M := ConsoleMemory) (sent_home None) (m_call c)) by (intros; by apply mwithin_call).
  unfold login. apply mwithin_bind; [apply mwithin_write|]. intros _. apply mwithin_bind; [|mem_steps].
  apply mwithin_try. unfold log_in_steps, logged_in. mem_steps; apply Hw; done.
Qed.
End Sessions.
