(* ===== verification/ConsoleUi.v ===== *)
(** What the console renders: the tree of a page, with what each control does; what can be clicked and
    typed on it, and what it says.  Of an element's classes only those that depend on the state are kept,
    and not those of buttons.  The components the pages share ([apps/console/src/components]) are here. *)
From S2P Require Import Prelude Floats Console ConsolePages.

(** ** Trees *)
Section Html.
Context {E : Type}.

(** A text, an element, a [Button], a form's submit button, a form, an [input], a [select] with the values
    and texts of its options, and the panel of an envelope. *)
Inductive Html :=
| Txt (s : string)
| El (tag : string) (attrs : list (string * string)) (children : list Html)
| Click (disabled : bool) (event : E) (children : list Html)
| Submit (disabled : bool) (children : list Html)
| Form (event : E) (children : list Html)
| Input (attrs : list (string * string)) (value : string) (typed : string -> E)
| Select (value : string) (options : list (string * string)) (chosen : string -> E)
| Envelope (xdr txHash : string) (dismissed : E).

(** A form with a submit button is submitted with it, or from a field while the button is not disabled. *)
Fixpoint submits (h : Html) : bool :=
  match h with
  | Submit disabled _ => negb disabled
  | El _ _ l => existsb submits l
  | _ => false
  end.

(** What a click, or a choice in a [select], can set off. *)
Fixpoint clicks (h : Html) : list E :=
  match h with
  | Txt _ | Input _ _ _ | Submit _ _ => []
  | El _ _ l => flat_map clicks l
  | Click disabled e _ => if disabled then [] else [e]
  | Form e l => (if existsb submits l then [e] else []) ++ flat_map clicks l
  | Select _ options chosen => List.map (fun o => chosen (fst o)) options
  | Envelope _ _ dismissed => [dismissed]
  end.

(** What typing into a field sets off. *)
Fixpoint fields (h : Html) : list (string -> E) :=
  match h with
  | Input _ _ typed => [typed]
  | El _ _ l | Form _ l => flat_map fields l
  | _ => []
  end.

(** What the user can do. *)
Definition offered (h : Html) (e : E) : Prop := In e (clicks h) \/ exists typed s, In typed (fields h) /\ e = typed s.

(** What the page says: its texts in their order, those of buttons and options with them. *)
Fixpoint words (h : Html) : list string :=
  match h with
  | Txt s => [s]
  | El _ _ l | Click _ _ l | Submit _ l | Form _ l => flat_map words l
  | Input _ value _ => []
  | Select _ options _ => List.map snd options
  | Envelope _ _ _ => []
  end.

(** The figures shown: the values of its [data] elements. *)
Fixpoint figures (h : Html) : list string :=
  match h with
  | El tag attrs l => (if String.eqb tag "data" then List.map snd (List.filter (fun a => String.eqb (fst a) "value") attrs) else []) ++ flat_map figures l
  | Form _ l => flat_map figures l
  | _ => []
  end.

(** The envelopes shown. *)
Fixpoint envelopes (h : Html) : list string :=
  match h with
  | El _ _ l | Form _ l => flat_map envelopes l
  | Envelope _ txHash _ => [txHash]
  | _ => []
  end.
End Html.
Arguments Html : clear implicits.

Lemma offered_El {E} tag attrs (l : list (Html E)) e : offered (El tag attrs l) e <-> exists h, In h l /\ offered h e.
Proof.
  unfold offered. cbn. rewrite in_flat_map. setoid_rewrite in_flat_map. split.
  - intros [(h & Hh & Hc)|(t & s & (h & Hh & Ht) & ->)]; exists h; eauto 10.
  - intros (h & Hh & [Hc|(t & s & Ht & ->)]); [left|right]; eauto 10.
Qed.

(** What a tree does not set off. *)
Lemma not_offered {E} (P : E -> Prop) (h : Html E) :
  Forall (fun e => ~ P e) (clicks h) -> Forall (fun typed => forall s, ~ P (typed s)) (fields h) -> forall e, P e -> ~ offered h e.
Proof.
  rewrite !List.Forall_forall. intros Hc Hf e He [Hin|(t & s & Ht & ->)]; [by eapply Hc|by eapply Hf].
Qed.

(** Induction through the children. *)
Lemma Html_children_ind {E} (P : Html E -> Prop) :
  (forall s, P (Txt s)) -> (forall tag attrs l, Forall P l -> P (El tag attrs l)) ->
  (forall d e l, Forall P l -> P (Click d e l)) -> (forall d l, Forall P l -> P (Submit d l)) ->
  (forall e l, Forall P l -> P (Form e l)) -> (forall attrs v t, P (Input attrs v t)) ->
  (forall v os c, P (Select v os c)) -> (forall xdr h d, P (Envelope xdr h d)) -> forall h, P h.
Proof.
  intros HT HE HC HS HF HI HO HX. fix IH 1.
  intros h. destruct h as [s|tag attrs l|d e l|d l|e l|attrs v t|v os c|xdr h d];
    [apply HT|apply HE|apply HC|apply HS|apply HF|apply HI|apply HO|apply HX]; (induction l; constructor; [apply IH|assumption]).
Qed.

(** A component inside a page: its events are the page's. *)
Fixpoint html_map {E F} (f : E -> F) (h : Html E) : Html F :=
  match h with
  | Txt s => Txt s
  | El tag attrs l => El tag attrs (List.map (html_map f) l)
  | Click d e l => Click d (f e) (List.map (html_map f) l)
  | Submit d l => Submit d (List.map (html_map f) l)
  | Form e l => Form (f e) (List.map (html_map f) l)
  | Input attrs v typed => Input attrs v (fun s => f (typed s))
  | Select v os chosen => Select v os (fun s => f (chosen s))
  | Envelope xdr h e => Envelope xdr h (f e)
  end.

Section Map.
Context {E F : Type} (f : E -> F).

Lemma flat_map_mapped {A B} (g : Html E -> list A) (g' : Html F -> list B) (m : A -> B) l :
  Forall (fun h => g' (html_map f h) = List.map m (g h)) l -> flat_map g' (List.map (html_map f) l) = List.map m (flat_map g l).
Proof. induction 1 as [|h l Hh _ IH]; [done|]. cbn. by rewrite Hh, IH, List.map_app. Qed.

Lemma submits_map h : submits (html_map f h) = submits h.
Proof.
  induction h as [s|tag attrs l IH|d e l _|d l _|e l _| | |] using Html_children_ind; cbn; try done.
  induction IH as [|h l Hh _ IHl]; cbn; [done|]. by rewrite Hh, IHl.
Qed.

Lemma clicks_html_map h : clicks (html_map f h) = List.map f (clicks h).
Proof.
  induction h as [s|tag attrs l IH|d e l _|d l _|e l IH|attrs v t|v os c|] using Html_children_ind; cbn; try done.
  - by apply flat_map_mapped.
  - by destruct d.
  - rewrite List.map_app. f_equal; [|by apply flat_map_mapped].
    assert (existsb submits (List.map (html_map f) l) = existsb submits l) as ->; [|by destruct (existsb _ _)].
    clear. induction l as [|h l IHl]; cbn; [done|]. by rewrite submits_map, IHl.
  - by rewrite List.map_map.
Qed.

Lemma fields_html_map h : fields (html_map f h) = List.map (fun typed s => f (typed s)) (fields h).
Proof.
  induction h as [s|tag attrs l IH|d e l _|d l _|e l IH|attrs v t|v os c|] using Html_children_ind; cbn; try done; by apply flat_map_mapped.
Qed.

Lemma offered_html_map h e : offered (html_map f h) e <-> exists e', offered h e' /\ e = f e'.
Proof.
  unfold offered. rewrite clicks_html_map, fields_html_map. split.
  - intros [(e' & <- & He)%in_map_iff|(t & s & (t' & <- & Ht)%in_map_iff & ->)]; [exists e'; auto|]. exists (t' s). eauto 10.
  - intros (e' & [He|(t & s & Ht & ->)] & ->); [left; by apply in_map|]. right. exists (fun s => f (t s)), s.
    split; [|done]. by apply (in_map (fun (typed : string -> E) s => f (typed s))).
Qed.
End Map.

(** ** Pieces of JSX *)
Section Pieces.
Context {E : Type}.
Notation Html := (Html E).

(** [{cond && <.../>}]. *)
Definition when {A} (b : bool) (l : list A) : list A := if b then l else [].
(** [{x && ...x...}] for a text: neither [null] nor an empty one is shown. *)
Definition when_text (s : option string) (f : string -> list Html) : list Html :=
  match s with None | Some "" => [] | Some s => f s end.
(** [{x !== null && ...}]. *)
Definition when_some {A B} (x : option A) (f : A -> list B) : list B := match x with Some a => f a | None => [] end.
Definition el (tag : string) (l : list Html) : Html := El tag [] l.
Definition toned (tag tone : string) (l : list Html) : Html := El tag [("class", tone)] l.
Definition p_ (s : string) : Html := el "p" [Txt s].
Definition span (l : list Html) : Html := el "span" l.
Definition br : Html := el "br" [].

(** [Panel.tsx], [Field.tsx] and [StatusBadge.tsx]. *)
Definition panel_ (title : string) (children : list Html) : Html :=
  el "section" [el "header" [span [Txt ("[ " +:+ title +:+ " ]")]]; el "div" children].
Definition Field (label : string) (children : list Html) : Html := el "label" (Txt label :: children).
Definition Stat (label : string) (children : list Html) : Html := el "div" [el "dt" [Txt label]; el "dd" children].

Definition MARGIN_COLOR (state : string) : string :=
  match state with
  | "Healthy" => "text-ok border-ok" | "Warning" => "text-fg border-fg"
  | "MarginCall" | "Liquidation" => "text-accent border-accent" | _ => "text-fg-dim border-line"
  end.
Definition MarginBadge (state : string) : Html := toned "span" (MARGIN_COLOR state) [Txt state].
Definition PRICE_COLOR (status : string) : string :=
  match status with
  | "Ok" => "text-ok border-ok" | "Degraded" => "text-fg border-fg" | "Halted" => "text-accent border-accent"
  | _ => "text-fg-dim border-line"
  end.
Definition PriceStatusBadge (status : string) : Html := toned "span" (PRICE_COLOR status) [Txt ("PRICE: " +:+ status)].

Definition link (href : string) (l : list Html) : Html := El "a" [("href", href)] l.

Definition error_line (error : option string) : list Html := when_text error (fun m => [p_ ("ERROR: " +:+ m)]).
End Pieces.

(** What pieces add to what is read off a tree. *)
Section Reading.
Context {E B : Type} (g : Html E -> list B).
Implicit Types l : list (Html E).

Lemma read_when b l : flat_map g (when b l) = when b (flat_map g l).
Proof. by destruct b. Qed.
Lemma read_when_text s (f : string -> list (Html E)) : (forall s, flat_map g (f s) = []) -> flat_map g (when_text s f) = [].
Proof. intros Hf. destruct s as [[|c s]|]; cbn; auto. Qed.
Lemma read_when_some {A} (x : option A) (f : A -> list (Html E)) : (forall a, flat_map g (f a) = []) -> flat_map g (when_some x f) = [].
Proof. intros Hf. destruct x; cbn; auto. Qed.
Lemma read_if (b : bool) (h h' : Html E) : g h = [] -> g h' = [] -> g (if b then h else h') = [].
Proof. by destruct b. Qed.
Lemma read_map {A} (f : A -> Html E) (xs : list A) : flat_map g (List.map f xs) = flat_map (fun x => g (f x)) xs.
Proof. induction xs as [|x xs IH]; [done|]. cbn. by rewrite IH. Qed.
Lemma read_quiet_map {A} (f : A -> Html E) (xs : list A) : (forall x, g (f x) = []) -> flat_map g (List.map f xs) = [].
Proof. intros Hf. rewrite read_map. induction xs as [|x xs IH]; [done|]. cbn. by rewrite Hf. Qed.
End Reading.

Lemma when_nil {A} b : when b (@nil A) = [].
Proof. by destruct b. Qed.
Lemma in_when {A} b (l : list A) e : In e (when b l) <-> b = true /\ In e l.
Proof. destruct b; cbn; naive_solver. Qed.
Lemma clicks_error_line {E} error : flat_map clicks (error_line (E := E) error) = [].
Proof. by apply read_when_text. Qed.
Lemma fields_error_line {E} error : flat_map fields (error_line (E := E) error) = [].
Proof. by apply read_when_text. Qed.

(** Read off the clicks, or the fields, of a tree. *)
Ltac ui_read := repeat progress
  (cbn [clicks fields flat_map el toned p_ span br panel_ Field Stat MarginBadge PriceStatusBadge app];
   rewrite ?flat_map_app, ?read_when, ?clicks_error_line, ?fields_error_line, ?app_nil_r, ?when_nil;
   rewrite ?read_when_text, ?read_when_some, ?read_if, ?read_quiet_map by (intros; reflexivity)).

(** ** [XdrOutput.tsx]: what the panel of an envelope shows *)
Inductive PanelClick := SignClick | RecheckClick | CopyClick | DismissClick.

Definition phase_line (phase : Phase) : option string :=
  match phase with
  | told "settled" => Some "Books updated. Dismiss to refresh positions."
  | told "failed" => Some "The network rejected this transaction; nothing moved."
  | told "expired" => Some "This transaction was never signed in time; nothing moved. Build it again."
  | told "pending" => Some "Sent, but no verdict yet. Check again in a few seconds."
  | told _ => None
  | ready | signing | submitting => Some "Signed in your wallet. Your key never reaches Ballast."
  end.

(** [copy]: the clipboard takes the envelope, for a moment the button says so; or the user is told. *)
Definition COPY_DENIED : string := "Could not copy to the clipboard. Select the XDR above and copy it by hand.".
Definition copy (taken : bool) (p : Panel) (copied : bool) : Panel * bool :=
  if taken then (p, true) else (MkPanel (pn_phase p) (Some COPY_DENIED) (pn_awaited p) (pn_told p), copied).

(** [copied] and the ledger of the last result are the rest of its state. *)
Definition xdr_output (env : ConfigEnv) (xdr txHash : string) (p : Panel) (copied : bool) (ledger : option Z) : Html PanelClick :=
  let phase := pn_phase p in
  let is_ready := can_sign p in
  let tone := match phase with told ("failed" | "expired") => ("border-accent", "text-accent") | _ => ("border-ok", "text-ok") end in
  El "div" [("class", fst tone); ("aria-live", "polite")]
   ([el "div"
       [toned "output" (snd tone) [Txt (">>> " +:+ default "" (PHASE_LABEL phase))];
        Click false DismissClick [Txt "[ X ]"]];
     el "dl"
       ([el "dt" [Txt "TX"];
         el "dd" (el "samp" [Txt txHash] ::
           when_text (txExplorerUrl env txHash) (fun url => [El "a" [("href", url)] [Txt "view on explorer"]]))] ++
        when_some ledger (fun n => [el "dt" [Txt "LEDGER"]; el "dd" [el "samp" [Txt (Z_to_string n)]]]))] ++
    when is_ready [El "textarea" [("readOnly", ""); ("aria-label", "Unsigned transaction XDR")] [Txt xdr]] ++
    error_line (pn_error p) ++
    [el "div"
      [el "p" (when_some (phase_line phase) (fun t => [Txt t]));
       el "div"
        (when is_ready [Click false CopyClick [Txt (if copied then "COPIED" else "COPY XDR")]] ++
         when (is_ready || busy p) [Click (busy p) SignClick [Txt (if busy p then "WORKING..." else "SIGN + SUBMIT")]] ++
         when (can_recheck p) [Click false RecheckClick [Txt "CHECK STATUS"]] ++
         when (can_finish p) [Click false DismissClick [Txt "DONE"]])]]).

(** The panel's buttons are its steps' guards: it offers to sign, or to ask again, exactly when that step
    is one it can take. *)
Lemma panel_offers env xdr txHash p copied ledger :
  (In SignClick (clicks (xdr_output env xdr txHash p copied ledger)) <-> can_sign p = true) /\
  (In RecheckClick (clicks (xdr_output env xdr txHash p copied ledger)) <-> can_recheck p = true) /\
  In DismissClick (clicks (xdr_output env xdr txHash p copied ledger)).
Proof.
  assert (E : clicks (xdr_output env xdr txHash p copied ledger) =
    [DismissClick] ++ when (can_sign p) [CopyClick] ++ when (can_sign p || busy p) (if busy p then [] else [SignClick]) ++
    when (can_recheck p) [RecheckClick] ++ when (can_finish p) [DismissClick]).
  { unfold xdr_output. cbv zeta. ui_read. reflexivity. }
  assert (Hb : can_sign p = true -> busy p = false) by (unfold can_sign, busy; by destruct (pn_phase p)).
  rewrite E. destruct (can_sign p), (busy p), (can_recheck p), (can_finish p); cbn; naive_solver.
Qed.
