(* ===== verification/ConsoleBorrower.v ===== *)
(** [apps/console/src/pages/BorrowerView.tsx]: the borrower's page, with what it shows, what its controls
    do and what comes back from the API in between.  A session is open as long as the page is shown. *)
From stdpp Require Import gmap strings.
From S2P Require Import Prelude Floats Console ConsolePages ConsoleUi.

(** ** The detail of a line *)
Record DetailState := MkDetail {
  bd_tx : option BuiltTx; bd_drawAmount : string; bd_drawTo : string; bd_repayAmount : string; bd_chosenAssetId : string;
  bd_pledgeUnits : string; bd_busy : bool; bd_actionError : option string;
  bd_awaited : list ApiFunction (** the requests not answered yet *) }.
Definition detail_mounted (stellarAccount : string) : DetailState := MkDetail None "" stellarAccount "" "" "" false None [].

Inductive DetailEvent :=
| TypeDrawAmount (s : string) | TypeDrawTo (s : string) | TypeRepayAmount (s : string)
| ChoosePledgeAsset (id : string) | TypePledgeUnits (s : string)
| BuildDraw | BuildRepay | BuildPledge | ReleasePledge (pledgeId : string)
| DismissTx
| BuiltAnswer (answer : BuiltTx + string).

(** The properties it is given. *)
Record DetailProps := MkProps { dp_detail : CreditLineDetail; dp_pledges : list PledgeRow; dp_assets : list AssetSummary }.

Section Detail.
Context `{LocaleLib, NumberLib} (props : DetailProps).
Notation detail := (dp_detail props).
Implicit Types (s : DetailState) (e : DetailEvent).

(** [chosenAssetId || assets[0]?.id || ""]. *)
Definition pledgeAssetId s : string := js_or (bd_chosenAssetId s) (match hd_error (dp_assets props) with Some a => as_id a | None => "" end).

(** What a click on a button asks for. *)
Definition detail_action s e : option Action :=
  let id := cd_id detail in
  match e with
  | BuildDraw => Some (DrawFrom id (bd_drawAmount s) (bd_drawTo s))
  | BuildRepay => Some (RepayTo id (bd_repayAmount s))
  | BuildPledge => Some (PledgeTo id (pledgeAssetId s) (bd_pledgeUnits s) (as_custodyMode <$> find_asset (pledgeAssetId s) (dp_assets props)))
  | ReleasePledge pledgeId => Some (ReleaseFrom id pledgeId)
  | _ => None
  end.

(** [withBusy]: the request is sent, or what kept it from being made is shown. *)
Definition detail_ask s (a : Action) : DetailState :=
  match asks a with
  | Ok f => MkDetail (bd_tx s) (bd_drawAmount s) (bd_drawTo s) (bd_repayAmount s) (bd_chosenAssetId s) (bd_pledgeUnits s) true None (bd_awaited s ++ [f])
  | Err x => MkDetail (bd_tx s) (bd_drawAmount s) (bd_drawTo s) (bd_repayAmount s) (bd_chosenAssetId s) (bd_pledgeUnits s) false (Some (exn_message x)) (bd_awaited s)
  end.

Definition detail_update s e : DetailState :=
  let '(MkDetail tx amount to repaid asset units busy error awaited) := s in
  match e with
  | TypeDrawAmount x => MkDetail tx x to repaid asset units busy error awaited
  | TypeDrawTo x => MkDetail tx amount x repaid asset units busy error awaited
  | TypeRepayAmount x => MkDetail tx amount to x asset units busy error awaited
  | ChoosePledgeAsset x => MkDetail tx amount to repaid x units busy error awaited
  | TypePledgeUnits x => MkDetail tx amount to repaid asset x busy error awaited
  | DismissTx => MkDetail None amount to repaid asset units busy error awaited
  | BuiltAnswer (inl built) => MkDetail (Some built) amount to repaid asset units false error (tail awaited)
  | BuiltAnswer (inr message) => MkDetail tx amount to repaid asset units false (Some message) (tail awaited)
  | _ => match detail_action s e with Some a => detail_ask s a | None => s end
  end.

Definition tx_open s : bool := bool_decide (is_Some (bd_tx s)).
Definition text_input (value placeholder : string) (typed : string -> DetailEvent) : Html DetailEvent :=
  Input [("placeholder", placeholder)] value typed.
Definition stat (label value : string) : Html DetailEvent := el "div" [el "div" [Txt label]; el "div" [Txt value]].

Definition pledge_line s (p : PledgeRow) : Html DetailEvent :=
  el "div"
    [span [Txt (pr_status p +:+ " / " +:+ formatDecimalString (pr_units p) "" +:+ " units")];
     Click (negb (release_enabled (bd_busy s) (tx_open s) (pr_status p))) (ReleasePledge (pr_id p)) [Txt "Release"]].

Definition headroom_panel : Html DetailEvent :=
  panel_ ("Headroom / " +:+ short_id (cd_id detail))
    ([el "div"
       [stat "Limit" (scaled_text (cd_limit detail) (cd_loanCcy detail));
        stat "Drawn" (scaled_text (cd_drawn detail) (cd_loanCcy detail));
        stat "LTV" (bpsToPercent (cd_ltvBps detail));
        el "div" [el "div" [Txt "State"]; MarginBadge (cd_marginState detail)]];
     el "p" [Txt "Headroom to 100% LTV: "; span [Txt (bpsToPercent (Z.max (10000 - cd_ltvBps detail) 0))]];
     el "div"
       [stat "Funded" (if given (cd_funded detail) then scaled_text (default "" (cd_funded detail)) (cd_loanCcy detail) else "--");
        stat "Collateral value" (if given (cd_collateralValue detail) then scaled_text (default "" (cd_collateralValue detail)) "USD" else "--");
        el "div" [el "div" [Txt "Oracle"];
                  if given (cd_priceStatus detail) then PriceStatusBadge (default "" (cd_priceStatus detail)) else span [Txt "--"]]];
     el "div"
       [stat "APR" (bpsToPercent (cd_rateBps detail)); stat "Fee" (bpsToPercent (cd_feeBps detail));
        stat "Cure window" (formatDuration (cd_cureWindowS detail))]] ++
     when (negb (given (cd_contractLineId detail)))
       [p_ "/// NOT ON-CHAIN YET. The lender still has to sign the opening transaction."]).

(** What a release would leave, next to the envelope of one. *)
Definition release_preview (tx : option BuiltTx) : list (Html DetailEvent) :=
  when_some (tx ≫= bt_projectedLtvBps) (fun ltv =>
    [El "p" [("role", "status")]
       [Txt "LTV after release: "; span [Txt (bpsToPercent ltv)]; Txt " ";
        toned "span" (if eqs (marginBand ltv) "healthy" then "text-ok" else "text-accent") [Txt ("(" +:+ marginBand ltv +:+ ")")]]]).

Definition BorrowerLineDetail s : Html DetailEvent :=
  let busy := bd_busy s in
  let txOpen := tx_open s in
  el "div"
   ([headroom_panel;
     panel_ "Draw"
       [el "div"
          [text_input (bd_drawAmount s) "amount (e.g. 500.00)" TypeDrawAmount;
           text_input (bd_drawTo s) "destination G..." TypeDrawTo;
           Click (negb (draw_enabled busy txOpen (bd_drawAmount s) (bd_drawTo s))) BuildDraw [Txt "Build draw tx"]]];
     panel_ "Repay"
       [el "div"
          [text_input (bd_repayAmount s) "amount (e.g. 500.00)" TypeRepayAmount;
           Click (busy || txOpen || blank (bd_repayAmount s)) BuildRepay [Txt "Build repay tx"]]];
     panel_ "Pledge collateral"
       ([el "div"
           [Select (pledgeAssetId s) (List.map (fun a => (as_id a, as_code a)) (dp_assets props)) ChoosePledgeAsset;
            text_input (bd_pledgeUnits s) "units" TypePledgeUnits;
            Click (busy || txOpen || blank (bd_pledgeUnits s) || blank (pledgeAssetId s)) BuildPledge [Txt "Build pledge tx"]]] ++
        when (negb (bool_decide (dp_pledges props = []))) [el "div" (List.map (pledge_line s) (dp_pledges props))])] ++
    error_line (bd_actionError s) ++
    when txOpen [p_ "Finish or dismiss the open transaction below before building another."] ++
    release_preview (bd_tx s) ++
    when_some (bd_tx s) (fun tx => [Envelope (bt_xdr tx) (bt_txHash tx) DismissTx])).

(** ** What can be clicked in it *)
Definition building s : bool := bd_busy s || tx_open s.

Lemma detail_clicks s :
  clicks (BorrowerLineDetail s) =
    (if building s || blank (bd_drawAmount s) || blank (bd_drawTo s) then [] else [BuildDraw]) ++
    (if building s || blank (bd_repayAmount s) then [] else [BuildRepay]) ++
    List.map ChoosePledgeAsset (List.map as_id (dp_assets props)) ++
    (if building s || blank (bd_pledgeUnits s) || blank (pledgeAssetId s) then [] else [BuildPledge]) ++
    flat_map (fun p => if building s || negb (eqs (pr_status p) "active") then [] else [ReleasePledge (pr_id p)]) (dp_pledges props) ++
    when_some (bd_tx s) (fun _ => [DismissTx]).
Proof.
  unfold BorrowerLineDetail, headroom_panel, text_input, stat, release_preview, building, draw_enabled. cbv zeta.
  ui_read.
  assert (Hpledges : when (negb (bool_decide (dp_pledges props = []))) (flat_map clicks (List.map (pledge_line s) (dp_pledges props))) =
    flat_map (fun p => if bd_busy s || tx_open s || negb (eqs (pr_status p) "active") then [] else [ReleasePledge (pr_id p)]) (dp_pledges props)).
  { rewrite read_map. transitivity (flat_map (fun p => clicks (pledge_line s p)) (dp_pledges props)); [by destruct (dp_pledges props)|].
    apply flat_map_ext. intros p. unfold pledge_line, release_enabled. ui_read. by rewrite negb_involutive. }
  rewrite Hpledges, negb_involutive, !List.map_map, <- !app_assoc. cbn [app fst]. unfold when_some. by destruct (bd_tx s).
Qed.

Lemma detail_fields s : fields (BorrowerLineDetail s) = [TypeDrawAmount; TypeDrawTo; TypeRepayAmount; TypePledgeUnits].
Proof. unfold BorrowerLineDetail, headroom_panel, text_input, stat, release_preview, pledge_line. cbv zeta. by ui_read. Qed.

(** A button is there to ask only while nothing is asked and no envelope is open. *)
Lemma detail_asks s e a : detail_action s e = Some a -> offered (BorrowerLineDetail s) e -> building s = false.
Proof.
  intros Ha [Hc|(typed & x & Hf & ->)].
  - rewrite detail_clicks in Hc. destruct (building s); [|done]. exfalso. cbn [orb app] in Hc. rewrite !in_app_iff in Hc.
    destruct Hc as [(x & <- & _)%in_map_iff|[Hc|Hc]]; [done| |].
    + apply in_flat_map in Hc as (p & _ & []).
    + unfold when_some in Hc. destruct (bd_tx s); [destruct Hc as [<-|[]]|]; done.
  - rewrite detail_fields in Hf. cbn in Hf. naive_solver.
Qed.

(** A pledge is released only from a line that shows it, and while it is active. *)
Lemma release_shown s pledgeId : offered (BorrowerLineDetail s) (ReleasePledge pledgeId) ->
  exists p, In p (dp_pledges props) /\ pr_id p = pledgeId /\ pr_status p = "active".
Proof.
  intros [Hc|(typed & x & Hf & E)]; [|rewrite detail_fields in Hf; cbn in Hf; naive_solver].
  rewrite detail_clicks, !in_app_iff in Hc. destruct Hc as [Hc|[Hc|[Hc|[Hc|[Hc|Hc]]]]].
  1,2,4: destruct (_ || _); [done|]; by destruct Hc.
  - by apply in_map_iff in Hc as (x & ? & _).
  - apply in_flat_map in Hc as (p & Hp & Hin). destruct (building s || negb _) eqn:Eb; [done|]. destruct Hin as [[= <-]|[]].
    apply orb_false_iff in Eb as [_ Eb%negb_false_iff%bool_decide_eq_true]. by exists p.
  - unfold when_some in Hc. destruct (bd_tx s); [by destruct Hc|done].
Qed.

(** ** What it keeps to *)
(** At most one request is awaited, and none while an envelope is open. *)
Definition detail_ok s : Prop :=
  match bd_awaited s with [] => bd_busy s = false | [_] => bd_busy s = true /\ bd_tx s = None | _ => False end.

(** What may happen: what is offered, or an answer to a request. *)
Definition detail_possible s e : Prop := match e with BuiltAnswer _ => bd_awaited s <> [] | _ => offered (BorrowerLineDetail s) e end.

Lemma detail_ask_ok s a : detail_ok s -> building s = false -> detail_ok (detail_ask s a).
Proof.
  unfold detail_ok, building, tx_open, detail_ask. intros Hs [Hb Ht%bool_decide_eq_false]%orb_false_iff.
  destruct (bd_awaited s) as [|f [|]]; [|destruct Hs; congruence|done]. destruct (asks a); cbn; [|done]. split; [done|].
  destruct (bd_tx s); [by destruct Ht|done].
Qed.

Lemma detail_update_ok s e : detail_ok s -> detail_possible s e -> detail_ok (detail_update s e).
Proof.
  intros Hs He. assert (Hask : forall a, detail_action s e = Some a -> offered (BorrowerLineDetail s) e -> detail_ok (detail_ask s a)).
  { intros a Ha Ho. apply detail_ask_ok; [done|]. by eapply detail_asks. }
  destruct s as [tx amount to repaid asset units busy error awaited]. destruct e as [| | | | | | | | | |[built|message]];
    try exact Hs; try exact (Hask _ eq_refl He).
  - unfold detail_ok in *. cbn in *. destruct awaited as [|f [|]]; [done|naive_solver|done].
  - unfold detail_ok in *. cbn in *. by destruct awaited as [|f [|]].
  - unfold detail_ok in *. cbn in *. by destruct awaited as [|f [|]].
Qed.

(** An envelope open after a step was open before, or answers the one request on its way. *)
Lemma detail_tx s e tx : detail_ok s -> detail_possible s e -> bd_tx (detail_update s e) = Some tx ->
  bd_tx s = Some tx \/ exists f, bd_awaited s = [f] /\ bd_awaited (detail_update s e) = [] /\ e = BuiltAnswer (inl tx).
Proof.
  intros Hs He Htx. destruct s as [tx0 amount to repaid asset units busy error awaited].
  destruct e as [| | | | | | | | | |[built|message]]; cbn in Htx; try (by left); try done.
  4: { injection Htx as ->. right. unfold detail_ok in Hs. cbn in *. destruct awaited as [|f [|]]; [done|by exists f|done]. }
  all: left; unfold detail_ask in Htx; by destruct (asks _).
Qed.
End Detail.

(** ** The page *)
(** [bw_child] is the detail mounted, under its key, which is the line's id; [bw_left] holds the requests on
    their way that details no longer mounted had made. *)
Record BorrowerState := MkBorrower {
  bw_book : Book; bw_selectedId : option string; bw_child : option (string * DetailState); bw_left : list ApiFunction }.

Inductive BorrowerEvent :=
| SelectLine (id : string)
| RetryClick
| PollTick (visible : bool) (** of [usePolling]: the interval, or the window's focus *)
| ReloadCame (i : nat) (a : ReloadAnswer)
| OnDetail (e : DetailEvent)
| LeftAnswer (i : nat) (answer : BuiltTx + string) (** to a request of a detail that is gone *).

Definition RISK_ORDER (marginState : string) : Z :=
  match marginState with "Liquidation" => 0 | "MarginCall" => 1 | "Warning" => 2 | _ => 3 end.

Section Page.
Context `{LocaleLib, NumberLib} (session : Session).
Implicit Types (w : BorrowerState) (e : BorrowerEvent).

Definition borrowed (l : CreditLineRow) : bool := eqs (cr_borrowerId l) (ss_partyId session).

Definition detail_of w (id : string) : option CreditLineDetail := bk_details (bw_book w) !! id.
Definition selected w : option CreditLineDetail := match bw_selectedId w with None | Some "" => None | Some id => detail_of w id end.

Definition props_of w (d : CreditLineDetail) : DetailProps :=
  MkProps d
    (List.filter (fun p => eqs (pr_creditLineId p) (cd_id d)) (match bk_positions (bw_book w) with Some p => ps_pledges p | None => [] end))
    (bk_assets (bw_book w)).

(** React keeps the mounted detail while its key stays, and mounts a new one for another. *)
Definition child_of w : option (string * DetailState) :=
  option_map (fun d =>
    let mounted := (cd_id d, detail_mounted (ss_stellarAccount session)) in
    match bw_child w with Some (k, s) => if eqs k (cd_id d) then (k, s) else mounted | None => mounted end) (selected w).

(** What a detail that goes had asked for stays on its way. *)
Definition leaves w : list ApiFunction :=
  match bw_child w with
  | Some (k, s) => if match selected w with Some d => eqs k (cd_id d) | None => false end then [] else bd_awaited s
  | None => []
  end.

Definition reconcile w : BorrowerState := MkBorrower (bw_book w) (bw_selectedId w) (child_of w) (bw_left w ++ leaves w).

Definition on_book (f : Book -> Book) w : BorrowerState := MkBorrower (f (bw_book w)) (bw_selectedId w) (bw_child w) (bw_left w).

Definition borrower_step w e : BorrowerState :=
  match e with
  | SelectLine id => MkBorrower (bw_book w) (Some id) (bw_child w) (bw_left w)
  | RetryClick => on_book (reload false) w
  | PollTick visible => on_book (poll visible) w
  | ReloadCame i a => on_book (reload_came borrowed i a) w
  | OnDetail e' =>
      match selected w, bw_child w with
      | Some d, Some (k, s) =>
          let w := MkBorrower (bw_book w) (bw_selectedId w) (Some (k, detail_update (props_of w d) s e')) (bw_left w) in
          match e' with DismissTx => on_book (reload false) w | _ => w end
      | _, _ => w
      end
  | LeftAnswer i _ => MkBorrower (bw_book w) (bw_selectedId w) (bw_child w) (take i (bw_left w) ++ drop (S i) (bw_left w))
  end.
Definition borrower_update w e : BorrowerState := reconcile (borrower_step w e).
Definition borrower_mounted : BorrowerState := MkBorrower (reload false book_mounted) None None [].

(** The lines shown, riskiest first, those whose detail is not there last. *)
Definition risk_of w (l : CreditLineRow) : Z := match detail_of w (cr_id l) with Some d => RISK_ORDER (cd_marginState d) | None => 4 end.
Definition lines_shown w : list CreditLineRow := sort_by (risk_of w) (my_lines borrowed (bw_book w)).

Definition borrower_line w (line : CreditLineRow) : Html BorrowerEvent :=
  let d := detail_of w (cr_id line) in
  let failure := given (bk_lineErrors (bw_book w) !! cr_id line) in
  el "div"
    ([Click false (SelectLine (cr_id line))
        [span ([Txt ("LINE / " +:+ short_id (cr_id line) +:+ " "); span [Txt (cr_loanCcy line)]] ++
           when_some d (fun d => [span [Txt (scaled_text (cd_drawn d) "" +:+ " / " +:+ scaled_text (cd_limit d) "" +:+ " / LTV " +:+ bpsToPercent (cd_ltvBps d))]]));
         match d with Some d => MarginBadge (cd_marginState d) | None => if failure then Txt "" else span [Txt "..."] end]] ++
     when failure [span [Txt "could not load"; Click false RetryClick [Txt "Retry"]]]).

Definition BorrowerView w : Html BorrowerEvent :=
  let b := bw_book w in
  let myLines := lines_shown w in
  el "div"
    [panel_ "My Credit Lines"
       (when_text (bk_error b) (fun m => [p_ m]) ++
        when (bk_loading b) [p_ "LOADING..."] ++
        when (negb (bk_loading b) && bool_decide (myLines = [])) [p_ "No credit lines found for this account."] ++
        [el "div" (List.map (borrower_line w) myLines)]);
     match selected w, bw_child w with
     | Some d, Some (_, s) => html_map OnDetail (BorrowerLineDetail (props_of w d) s)
     | _, _ => panel_ "Line Detail" [p_ "Select a credit line to view headroom and take action."]
     end].

(** What may happen: what the page offers, the timer, or an answer. *)
Definition borrower_possible w e : Prop :=
  match e with
  | PollTick _ => True
  | ReloadCame i a => answer_fits (bw_book w) i a
  | OnDetail (BuiltAnswer _) => exists k s, bw_child w = Some (k, s) /\ bd_awaited s <> []
  | LeftAnswer i _ => (i < List.length (bw_left w))%nat
  | _ => offered (BorrowerView w) e
  end.

(** The page's histories, from where it is shown on. *)
Inductive borrower_life : BorrowerState -> Prop :=
| life_mounted : borrower_life borrower_mounted
| life_goes_on w e : borrower_life w -> borrower_possible w e -> borrower_life (borrower_update w e).

(** The request a click asks the API for. *)
Definition borrower_action w e : option Action :=
  match e, selected w, bw_child w with
  | OnDetail e', Some d, Some (_, s) => detail_action (props_of w d) s e'
  | _, _, _ => None
  end.

(** ** What the page keeps to *)
Record borrower_ok w : Prop := BorrowerOk {
  bo_keyed : book_keyed (bw_book w);
  bo_child : forall k s, bw_child w = Some (k, s) -> detail_ok s /\ exists d, selected w = Some d /\ cd_id d = k;
  bo_none : bw_child w = None -> selected w = None }.

Lemma mounted_ok account : detail_ok (detail_mounted account).
Proof. done. Qed.

Lemma borrower_line_quiet w l : fields (borrower_line w l) = [] /\
  clicks (borrower_line w l) = SelectLine (cr_id l) :: when (given (bk_lineErrors (bw_book w) !! cr_id l)) [RetryClick].
Proof. unfold borrower_line. cbv zeta. split; by ui_read. Qed.

(** What the page offers of a detail is what that offers. *)
Lemma borrower_offers w (e' : DetailEvent) : offered (BorrowerView w) (OnDetail e') ->
  exists d k s, selected w = Some d /\ bw_child w = Some (k, s) /\ offered (BorrowerLineDetail (props_of w d) s) e'.
Proof.
  unfold BorrowerView. cbv zeta. intros (h & [<-|[<-|[]]] & Ho)%offered_El.
  - exfalso. revert Ho. apply (not_offered (fun e => exists e' : DetailEvent, e = OnDetail e')); [| |by eexists].
    + ui_read. rewrite read_map. apply List.Forall_forall. intros e (l & _ & Hl)%in_flat_map.
      rewrite (proj2 (borrower_line_quiet w l)) in Hl. destruct Hl as [<-|[_ [<-|[]]]%in_when]; by intros [].
    + ui_read. rewrite read_quiet_map; [constructor|]. intros l. apply borrower_line_quiet.
  - destruct (selected w) as [d|] eqn:Ed; [destruct (bw_child w) as [[k s]|] eqn:Ew|].
    + apply offered_html_map in Ho as (e2 & Ho & [= ->]). by exists d, k, s.
    + exfalso. by destruct Ho as [[]|(? & ? & [] & _)].
    + exfalso. by destruct Ho as [[]|(? & ? & [] & _)].
Qed.

Lemma child_possible w d k s (e' : DetailEvent) : selected w = Some d -> bw_child w = Some (k, s) -> borrower_possible w (OnDetail e') ->
  detail_possible (props_of w d) s e'.
Proof.
  intros Ed Ew He.
  assert (Ho : offered (BorrowerView w) (OnDetail e') -> offered (BorrowerLineDetail (props_of w d) s) e').
  { intros (d' & k' & s' & Ed' & Ew' & Ho)%borrower_offers. congruence. }
  destruct e'; try exact (Ho He). destruct He as (k' & s' & E & Hne). by rewrite Ew in E; injection E as <- <-.
Qed.

(** What a step leaves, before the detail is mounted anew. *)
Lemma borrower_step_ok w e : borrower_ok w -> borrower_possible w e ->
  book_keyed (bw_book (borrower_step w e)) /\ forall k s, bw_child (borrower_step w e) = Some (k, s) -> detail_ok s.
Proof.
  intros [Hk Hc _] He. assert (Hold : forall k s, bw_child w = Some (k, s) -> detail_ok s) by (intros k s E; by destruct (Hc k s E)).
  destruct e as [id| |visible|i a|e'|i a]; cbn [borrower_step].
  - by split.
  - split; [exact Hk|exact Hold].
  - split; [by apply poll_keyed|exact Hold].
  - split; [by apply reload_came_keyed|exact Hold].
  - destruct (selected w) as [d|] eqn:Ed; [|split; [exact Hk|exact Hold]].
    destruct (bw_child w) as [[k s]|] eqn:Ew; [|split; [exact Hk|intros k s E; by apply (Hold k); rewrite <- E]].
    assert (Hnew : detail_ok (detail_update (props_of w d) s e'))
      by (apply detail_update_ok; [by eapply Hold|by eapply child_possible]).
    assert (Hbk : book_keyed (bw_book (match e' with
      DismissTx => on_book (reload false) (MkBorrower (bw_book w) (bw_selectedId w) (Some (k, detail_update (props_of w d) s e')) (bw_left w))
      | _ => MkBorrower (bw_book w) (bw_selectedId w) (Some (k, detail_update (props_of w d) s e')) (bw_left w) end))) by by destruct e'.
    split; [exact Hbk|]. intros k' s' E. assert (detail_update (props_of w d) s e' = s') as <-; [|done].
    destruct e'; cbn in E; by injection E.
  - split; [exact Hk|exact Hold].
Qed.

Lemma borrower_update_ok w e : borrower_ok w -> borrower_possible w e -> borrower_ok (borrower_update w e).
Proof.
  intros Hw He. destruct (borrower_step_ok w e Hw He) as [Hk Hc]. split; [exact Hk| |].
  2: { unfold borrower_update, reconcile, child_of. cbn [bw_child]. by destruct (selected (borrower_step w e)) eqn:E. }
  intros k s E. unfold borrower_update, reconcile, child_of in *. cbn [bw_child] in E.
  destruct (selected (borrower_step w e)) as [d|] eqn:Ed; [|done]. cbn in E.
  assert (Hd : cd_id d = k /\ detail_ok s).
  { destruct (bw_child (borrower_step w e)) as [[k0 s0]|] eqn:Ew; [|by injection E as <- <-].
    unfold eqs in E. case_bool_decide; injection E as <- <-; [by split; [done|eapply Hc]|done]. }
  destruct Hd as [Hd Hs]. split; [exact Hs|]. exists d. split; [|exact Hd]. exact Ed.
Qed.

Lemma borrower_life_ok w : borrower_life w -> borrower_ok w.
Proof. induction 1; [by split|by apply borrower_update_ok]. Qed.

(** ** The lines and the envelopes *)
Lemma lines_riskiest_first w :
  Permutation (lines_shown w) (my_lines borrowed (bw_book w)) /\
  StronglySorted (fun l l' => risk_of w l <= risk_of w l') (lines_shown w).
Proof. split; [apply sort_by_permuted|apply sort_by_sorted]. Qed.

Definition line_of (a : Action) : option string :=
  match a with DrawFrom id _ _ | RepayTo id _ | PledgeTo id _ _ _ | ReleaseFrom id _ => Some id | _ => None end.
Definition released (a : Action) : option string := match a with ReleaseFrom _ pledgeId => Some pledgeId | _ => None end.

Lemma release_of_line w d k s (e' : DetailEvent) a pledgeId :
  selected w = Some d -> bw_child w = Some (k, s) -> borrower_possible w (OnDetail e') ->
  detail_action (props_of w d) s e' = Some a -> released a = Some pledgeId ->
  exists pos p, bk_positions (bw_book w) = Some pos /\ In p (ps_pledges pos) /\ pr_id p = pledgeId /\ pr_creditLineId p = cd_id d /\ pr_status p = "active".
Proof.
  intros Ed Ew He Ha Hr. pose proof (child_possible _ _ _ _ _ Ed Ew He) as Hp.
  destruct e'; cbn in Ha; try discriminate; injection Ha as <-; try discriminate. injection Hr as <-.
  apply release_shown in Hp as (p & Hin & <- & Hst). cbn in Hin. apply List.filter_In in Hin as [Hin Hl%bool_decide_eq_true].
  destruct (bk_positions (bw_book w)) as [pos|]; [|done]. by exists pos, p.
Qed.

(** The detail after a step is the step's, or one newly mounted. *)
Lemma reconciled_child w e k s : bw_child (borrower_update w e) = Some (k, s) ->
  bw_child (borrower_step w e) = Some (k, s) \/ s = detail_mounted (ss_stellarAccount session).
Proof.
  unfold borrower_update, reconcile, child_of. cbn [bw_child]. destruct (selected (borrower_step w e)) as [d|]; [|done]. cbn.
  destruct (bw_child (borrower_step w e)) as [[k0 s0]|]; [|intros [= <- <-]; by right].
  unfold eqs. case_bool_decide; intros [= <- <-]; [by left|by right].
Qed.

(** The requests on their way, and what a step makes of them: an answer takes one away, a click that asks adds
    one, and nothing else changes them. *)
Definition awaited_by (child : option (string * DetailState)) : list ApiFunction := match child with Some (_, s) => bd_awaited s | None => [] end.
Definition on_their_way w : list ApiFunction := bw_left w ++ awaited_by (bw_child w).
Definition requests_change w e (l l' : list ApiFunction) : Prop :=
  match e with
  | LeftAnswer _ _ | OnDetail (BuiltAnswer _) => exists f, Permutation l (f :: l')
  | _ =>
      match borrower_action w e with
      | Some a => match asks a with Ok f => Permutation l' (f :: l) | Err _ => Permutation l' l end
      | None => Permutation l' l
      end
  end.

Lemma reconcile_keeps w : on_their_way (reconcile w) = on_their_way w.
Proof.
  unfold on_their_way, reconcile, child_of, leaves. cbn [bw_left bw_child]. destruct (selected w) as [d|]; cbn.
  - destruct (bw_child w) as [[k s]|]; cbn; [|by rewrite !app_nil_r]. destruct (eqs k (cd_id d)); cbn; by rewrite ?app_nil_r.
  - destruct (bw_child w) as [[k s]|]; cbn; by rewrite ?app_nil_r.
Qed.

Lemma detail_asked props (s : DetailState) (e : DetailEvent) : (forall a, e <> BuiltAnswer a) ->
  bd_awaited (detail_update props s e) = match detail_action props s e with
    | Some a => match asks a with Ok f => bd_awaited s ++ [f] | Err _ => bd_awaited s end | None => bd_awaited s end.
Proof.
  intros Hne. destruct s as [tx amount to repaid asset units busy error awaited].
  destruct e as [| | | | | | | | | |answer]; try done; [..|by destruct (Hne answer)]; unfold detail_update, detail_action, detail_ask; by destruct (asks _).
Qed.

Lemma on_book_way f w : on_their_way (on_book f w) = on_their_way w.
Proof. done. Qed.

Lemma requests_step w e : borrower_ok w -> borrower_possible w e -> requests_change w e (on_their_way w) (on_their_way (borrower_update w e)).
Proof.
  intros Hw He. unfold borrower_update. rewrite reconcile_keeps. destruct e as [id| |visible|i a|e'|i a]; try exact (Permutation_refl _).
  - cbn [borrower_step]. unfold requests_change. cbn [borrower_action]. destruct (selected w) as [d|] eqn:Ed.
    2: { destruct e'; try exact (Permutation_refl _). destruct He as (k & s & Ew & _). destruct (bo_child w Hw k s Ew) as (_ & d & Ed' & _). congruence. }
    destruct (bw_child w) as [[k s]|] eqn:Ew; [|destruct e'; try exact (Permutation_refl _); destruct He as (k & s & Ew' & _); congruence].
    set (w1 := MkBorrower _ _ _ _).
    assert (E : on_their_way (match e' with DismissTx => on_book (reload false) w1 | _ => w1 end) =
      bw_left w ++ bd_awaited (detail_update (props_of w d) s e')) by (by destruct e').
    rewrite E. unfold on_their_way. rewrite Ew. cbn [awaited_by].
    assert (Hcase : (exists a, e' = BuiltAnswer a) \/ forall a, e' <> BuiltAnswer a) by (destruct e'; (by right) || (left; by eexists)).
    destruct Hcase as [[a ->]|Hn].
    + destruct He as (k' & s' & Ew' & Hne). rewrite Ew in Ew'. injection Ew' as <- <-.
      destruct s as [tx amount to repaid asset units busy error [|f awaited]]; [done|]. exists f.
      destruct a as [built|m]; cbn; by rewrite Permutation_middle.
    + rewrite detail_asked by done. fold (borrower_action w (OnDetail e')).
      assert (Hc : match detail_action (props_of w d) s e' with
        | Some a => match asks a with Ok f => Permutation (bw_left w ++ bd_awaited s ++ [f]) (f :: bw_left w ++ bd_awaited s) | Err _ => True end | None => True end).
      { destruct (detail_action _ _ _) as [a|]; [|done]. destruct (asks a) as [f|]; [|done]. by rewrite app_assoc, <- Permutation_cons_append. }
      destruct e'; try (by destruct (Hn answer)); destruct (detail_action _ _ _) as [a|]; try done; by destruct (asks a).
  - cbn [borrower_step requests_change]. unfold on_their_way. cbn [bw_left bw_child].
    destruct (lookup_lt_is_Some_2 (bw_left w) i He) as [f Hf]. exists f. rewrite <- (take_drop_middle _ _ _ Hf) at 1. by rewrite <- !Permutation_middle.
Qed.

(** C12. A line's detail on the borrower's page builds one envelope at a time.  Take any history of the
    page: any clicks on the buttons it shows, anything typed, any refreshes of its timer, overlapping or
    not, and any answers of the API in any order.  When a click asks for an envelope, the detail that is
    mounted has asked for no other and shows none; it is asked for the line whose detail it is, which the
    page keeps under that line's own id, with what the form's fields hold; a pledge is released only if the
    positions last answered list it as an active pledge of that line.  An envelope comes up only as the
    answer to the one request the detail had on its way, and stays until it is dismissed or the line is left.
    What a detail had asked for when its line was left stays on its way ([two_lines_two_requests]); its
    answer changes nothing that is shown. *)
Theorem borrower_builds_one_at_a_time w e : borrower_life w -> borrower_possible w e ->
  (forall a, borrower_action w e = Some a ->
     exists d s, selected w = Some d /\ bw_child w = Some (cd_id d, s) /\ bd_awaited s = [] /\ bd_tx s = None /\
       line_of a = Some (cd_id d) /\ bw_selectedId w = Some (cd_id d) /\
       (forall pledgeId, released a = Some pledgeId -> exists pos p, bk_positions (bw_book w) = Some pos /\ In p (ps_pledges pos) /\
          pr_id p = pledgeId /\ pr_creditLineId p = cd_id d /\ pr_status p = "active") /\
       bw_child (borrower_update w e) = Some (cd_id d, detail_ask s a) /\
       forall f, asks a = Ok f -> bd_awaited (detail_ask s a) = [f]) /\
  (forall k s' tx, bw_child (borrower_update w e) = Some (k, s') -> bd_tx s' = Some tx ->
     exists s, bw_child w = Some (k, s) /\
       (bd_tx s = Some tx \/ exists f, bd_awaited s = [f] /\ bd_awaited s' = [] /\ e = OnDetail (BuiltAnswer (inl tx)))) /\
  (forall i answer, e = LeftAnswer i answer -> bw_book (borrower_update w e) = bw_book w /\ bw_child (borrower_update w e) = bw_child w) /\
  requests_change w e (on_their_way w) (on_their_way (borrower_update w e)).
Proof.
  intros Hw He. pose proof (borrower_life_ok w Hw) as Hok. split; [|split].
  - intros a Ha. unfold borrower_action in Ha. destruct e as [| | | |e'|]; try done.
    destruct (selected w) as [d|] eqn:Ed; [|done]. destruct (bw_child w) as [[k s]|] eqn:Ew; [|done].
    destruct (bo_child w Hok k s Ew) as (Hs & d' & Ed' & <-). rewrite Ed in Ed'. injection Ed' as <-.
    pose proof (child_possible _ _ _ _ _ Ed Ew He) as Hp.
    assert (Hb : building s = false) by (eapply detail_asks; [exact Ha|]; destruct e'; done).
    apply orb_false_iff in Hb as [Hb Ht%bool_decide_eq_false]. exists d, s. split; [done|]. split; [done|].
    assert (Haw : bd_awaited s = []) by (unfold detail_ok in Hs; destruct (bd_awaited s) as [|f [|]]; [done|destruct Hs; congruence|done]).
    split; [done|]. split; [by destruct (bd_tx s); [destruct Ht|]|].
    split; [destruct e'; cbn in Ha; try discriminate; by injection Ha as <-|]. split.
    { unfold selected in Ed. destruct (bw_selectedId w) as [[|c id]|]; [done| |done]. f_equal. symmetry. by apply (bo_keyed w Hok). }
    split; [intros pledgeId; by eapply release_of_line|]. split.
    + assert (Hup : detail_update (props_of w d) s e' = detail_ask s a).
      { destruct s. destruct e'; cbn in Ha |- *; try discriminate; by injection Ha as <-. }
      unfold borrower_update, borrower_step. rewrite Ed, Ew, Hup. destruct e'; cbn in Ha; try discriminate; clear Ha;
        unfold reconcile, child_of; cbn [bw_book bw_selectedId bw_child];
        (assert (selected (MkBorrower (bw_book w) (bw_selectedId w) (Some (cd_id d, detail_ask s a)) (bw_left w)) = Some d) as -> by exact Ed);
        cbn; unfold eqs; by rewrite bool_decide_true.
    + intros f Hf. unfold detail_ask. rewrite Hf. cbn. by rewrite Haw.
  - intros k s' tx Hc Htx. apply reconciled_child in Hc as [Hc|Hm]; [|by rewrite Hm in Htx].
    destruct e as [| | | |e'|i ans]; try (exists s'; split; [exact Hc|by left]). cbn [borrower_step] in Hc.
    destruct (selected w) as [d|] eqn:Ed; [|exists s'; split; [exact Hc|by left]].
    destruct (bw_child w) as [[k0 s]|] eqn:Ew; [|by exists s'; split; [rewrite <- Ew|left]].
    pose proof (child_possible _ _ _ _ _ Ed Ew He) as Hp. destruct (bo_child w Hok k0 s Ew) as (Hs & _).
    assert (k0 = k /\ s' = detail_update (props_of w d) s e') as [-> ->] by (destruct e'; cbn in Hc; by injection Hc as <- <-).
    exists s. split; [done|]. destruct (detail_tx (props_of w d) s e' tx Hs Hp Htx) as [?|(f & ? & ? & ->)]; [by left|right; by exists f].
  - split; [|by apply requests_step]. intros i answer ->. split; [done|]. unfold borrower_update, reconcile, child_of. cbn [bw_child borrower_step].
    change (selected (MkBorrower _ _ _ _)) with (selected w). destruct (bw_child w) as [[k s]|] eqn:Ew; [|by rewrite (bo_none w Hok Ew)].
    destruct (bo_child w Hok k s Ew) as (_ & d & -> & <-). cbn. unfold eqs. by rewrite bool_decide_true.
Qed.
End Page.

(** ** A visit *)
Module BorrowerSample.
#[local] Instance plain_locale : LocaleLib := {| toLocaleString _ := "1" |}.
#[local] Instance plain_numbers : NumberLib := {| Number_toString _ := "1" |}.

Definition me : Session := MkSession "token" "p1" "GACCOUNT".
Definition row : CreditLineRow := MkCreditLineRow "l1" "p2" "p1" "USDC" "100" 700 0 86400 "active" (Some "0") "" None.
Definition detail : CreditLineDetail :=
  MkCreditLineDetail "l1" "p2" "p1" "USDC" "1000000000" "0" 700 0 86400 "active" (Some "0") 0 "Healthy" None None None None None None.
Definition positions_ : PositionsResult := MkPositionsResult "p1" [row] [MkPledgeRow "g1" "l1" "a1" "5" "escrow" "active"] [] [].
Definition envelope : BuiltTx := MkBuiltTx "AAAA" "hash" None.

(** Refreshed, a line picked and an amount typed; a timer's refresh may start at any time. *)
Definition visit : list BorrowerEvent :=
  [PollTick true; ReloadCame 0 (PositionsCame positions_); ReloadCame 0 (LinesCame [inl detail]); SelectLine "l1"; ReloadCame 0 (AssetsCame []);
   OnDetail (TypeDrawAmount "12.5")].
Definition at_ (n : nat) : BorrowerState := foldl (borrower_update me) (borrower_mounted) (take n visit).

Lemma borrower_visit_goes_on n e : visit !! n = Some e -> borrower_life me (at_ n) -> borrower_possible me (at_ n) e -> borrower_life me (at_ (S n)).
Proof.
  intros E Hl Hp. unfold at_. rewrite (take_S_r _ _ _ E), foldl_app. by apply life_goes_on.
Qed.

Lemma borrower_visited : borrower_life me (at_ 6).
Proof.
  assert (H0 : borrower_life me (at_ 0)) by constructor.
  assert (H1 : borrower_life me (at_ 1)) by (by eapply borrower_visit_goes_on).
  assert (H2 : borrower_life me (at_ 2)) by (by eapply borrower_visit_goes_on).
  assert (H3 : borrower_life me (at_ 3)) by (by eapply borrower_visit_goes_on).
  assert (H4 : borrower_life me (at_ 4)) by (eapply borrower_visit_goes_on; [reflexivity|done|left; vm_compute; auto]).
  assert (H5 : borrower_life me (at_ 5)) by (by eapply borrower_visit_goes_on).
  eapply borrower_visit_goes_on; [reflexivity|done|]. right. exists (fun s => OnDetail (TypeDrawAmount s)), "12.5".
  split; [vm_compute; auto|done].
Qed.

(** A draw asked for on one line, another line picked, and a draw asked for there: two requests are on their
    way, and the answer to the first shows nothing. *)
Definition other : CreditLineDetail :=
  MkCreditLineDetail "l2" "p2" "p1" "USDC" "1000000000" "0" 700 0 86400 "active" (Some "0") 0 "Healthy" None None None None None None.
Definition two_lines : list BorrowerEvent :=
  [PollTick true; ReloadCame 0 (PositionsCame (MkPositionsResult "p1" [row; MkCreditLineRow "l2" "p2" "p1" "USDC" "100" 700 0 86400 "active" (Some "0") "" None] [] [] []));
   ReloadCame 0 (LinesCame [inl detail; inl other]); SelectLine "l1"; OnDetail (TypeDrawAmount "1"); OnDetail BuildDraw;
   SelectLine "l2"; OnDetail (TypeDrawAmount "2"); OnDetail BuildDraw].
Example two_lines_two_requests :
  let w := foldl (borrower_update me) borrower_mounted two_lines in
  let w' := borrower_update me w (LeftAnswer 0 (inl envelope)) in
  (List.length (bw_left w), List.length (on_their_way w)) = (1, 2)%nat /\
  List.length (on_their_way w') = 1%nat /\ (bd_tx <$> (snd <$> bw_child w')) = Some None.
Proof. vm_compute. auto. Qed.

Lemma borrower_builds_one_at_a_time_witness : exists s,
  borrower_action (at_ 6) (OnDetail BuildDraw) = Some (DrawFrom "l1" "12.5" "GACCOUNT") /\
  bw_child (at_ 6) = Some ("l1", s) /\ bd_awaited s = [] /\ bd_tx s = None.
Proof.
  assert (Hp : borrower_possible me (at_ 6) (OnDetail BuildDraw)) by (left; vm_compute; auto).
  destruct (borrower_builds_one_at_a_time me (at_ 6) (OnDetail BuildDraw) borrower_visited Hp) as [H _].
  assert (Ha : borrower_action (at_ 6) (OnDetail BuildDraw) = Some (DrawFrom "l1" "12.5" "GACCOUNT")) by reflexivity.
  destruct (H _ Ha) as (d & s & Hd & Hc & Haw & Htx & Hline & _). exists s. injection Hline as Hline.
  split; [exact Ha|]. split; [|by split]. rewrite Hline. exact Hc.
Defined.
End BorrowerSample.
