(* ===== verification/ConsoleLender.v ===== *)
(** [apps/console/src/pages/LenderView.tsx]: the lender's page, with the form that opens a line.  Its
    buttons are disabled for the line being asked about and while an envelope is open; the form has a state
    of its own. *)
From stdpp Require Import gmap strings.
From S2P Require Import Prelude Floats Console ConsolePages ConsoleUi.

(** ** [OpenLineForm] *)
(** The terms as they were when the form was submitted; an infinite number is [None]. *)
Record OpenTerms := MkOpenTerms { ot_loanCcy : string; ot_limit : string; ot_rateBps : option Z; ot_cureWindowS : option Z; ot_asset : string }.
Inductive FormStage := AwaitParty (account : string) (terms : OpenTerms) | AwaitOpening (request : ApiRequest).

Record OpenForm := MkOpenForm {
  of_borrower : string; of_assetId : string; of_limit : string; of_ratePct : string; of_cureHours : string; of_loanCcy : string;
  of_busy : bool; of_error : option string; of_stages : list FormStage (** the submissions not answered yet *) }.
Definition form_mounted : OpenForm := MkOpenForm "" "" "" "7" "24" "USDC" false None [].

Inductive FormEvent :=
| TypeBorrower (s : string) | TypeLimit (s : string) | TypeRate (s : string) | TypeCure (s : string) | TypeCcy (s : string)
| ChooseCollateral (id : string)
| SubmitOpen
| PartyCame (answer : string + string)
| OpeningCame (answer : BuiltTx + string).

Section Form.
Context (session : Session) (listed : list AssetSummary).
Implicit Types (f : OpenForm) (e : FormEvent).

Definition form_asset f : option AssetSummary := chosen_asset (of_assetId f) listed.
Definition form_rate f : double := mul (Number_of (of_ratePct f)) (double_of 100).
Definition form_cure f : double := mul (Number_of (of_cureHours f)) (double_of 3600).
Definition form_valid f : bool :=
  bool_decide (is_Some (form_asset f)) && negb (blank (trim (of_borrower f))) && negb (blank (of_limit f)) &&
  at_least_zero (form_rate f) && above_zero (form_cure f).

Definition form_with (busy : bool) (error : option string) (stages : list FormStage) f : OpenForm :=
  MkOpenForm (of_borrower f) (of_assetId f) (of_limit f) (of_ratePct f) (of_cureHours f) (of_loanCcy f) busy error stages.

(** [submit], to its first await. *)
Definition form_submit f : OpenForm :=
  match form_asset f with
  | None => f
  | Some asset =>
      form_with true None
        (of_stages f ++ [AwaitParty (trim (of_borrower f))
           (MkOpenTerms (of_loanCcy f) (of_limit f) (Math_round (form_rate f)) (Math_round (form_cure f)) (as_contractC asset))]) f
  end.

(** The request once the party is known: the limit is only read now. *)
Definition opening_action (party : string) (t : OpenTerms) : Action :=
  OpenLine (ss_partyId session) party (ot_loanCcy t) (ot_limit t) (default 0 (ot_rateBps t)) (default 0 (ot_cureWindowS t)) (ot_asset t).
Definition opening_request (party : string) (t : OpenTerms) : outcome ApiRequest :=
  omap' (fun q => unwritten "rateBps" (ot_rateBps t) (unwritten "cureWindowS" (ot_cureWindowS t) (api q))) (asks (opening_action party t)).

(** The form's next state, and the envelope it hands to the page. *)
Definition form_update f e : OpenForm * option BuiltTx :=
  let '(MkOpenForm borrower assetId limit rate cure ccy busy error stages) := f in
  match e with
  | TypeBorrower s => (MkOpenForm s assetId limit rate cure ccy busy error stages, None)
  | ChooseCollateral id => (MkOpenForm borrower id limit rate cure ccy busy error stages, None)
  | TypeLimit s => (MkOpenForm borrower assetId s rate cure ccy busy error stages, None)
  | TypeRate s => (MkOpenForm borrower assetId limit s cure ccy busy error stages, None)
  | TypeCure s => (MkOpenForm borrower assetId limit rate s ccy busy error stages, None)
  | TypeCcy s => (MkOpenForm borrower assetId limit rate cure s busy error stages, None)
  | SubmitOpen => (form_submit f, None)
  | PartyCame (inr message) => (form_with false (Some message) (tail stages) f, None)
  | PartyCame (inl party) =>
      match stages with
      | AwaitParty _ terms :: rest =>
          match opening_request party terms with
          | Ok request => (form_with busy error (AwaitOpening request :: rest) f, None)
          | Err x => (form_with false (Some (exn_message x)) rest f, None)
          end
      | _ => (f, None)
      end
  | OpeningCame (inr message) => (form_with false (Some message) (tail stages) f, None)
  | OpeningCame (inl tx) => (MkOpenForm "" assetId "" rate cure ccy false error (tail stages), Some tx)
  end.

Definition form_input (label value placeholder : string) (typed : string -> FormEvent) : Html FormEvent :=
  Field label [Input [("placeholder", placeholder)] value typed].
Definition asset_option (a : AssetSummary) : string * string := (as_id a, as_code a +:+ " / haircut " +:+ bpsToPercent (as_haircutBps a)).

Definition OpenLineForm f : Html FormEvent :=
  panel_ "Open credit line"
    ([Form SubmitOpen
        [form_input "Borrower account" (of_borrower f) "G..." TypeBorrower;
         Field "Collateral asset"
           [Select (default "" (as_id <$> form_asset f)) (List.map asset_option listed) ChooseCollateral];
         form_input "Loan ccy" (of_loanCcy f) "" TypeCcy;
         form_input "Limit" (of_limit f) "10000.00" TypeLimit;
         form_input "APR %" (of_ratePct f) "" TypeRate;
         form_input "Cure window h" (of_cureHours f) "" TypeCure;
         el "div" [Submit (of_busy f || negb (form_valid f)) [Txt (if of_busy f then "BUILDING..." else "BUILD OPEN TX")]]]] ++
     error_line (of_error f) ++
     when (bool_decide (listed = [])) [p_ "No collateral assets are listed yet."]).

Lemma form_clicks f :
  clicks (OpenLineForm f) = when (negb (of_busy f || negb (form_valid f))) [SubmitOpen] ++ List.map ChooseCollateral (List.map as_id listed).
Proof.
  unfold OpenLineForm, form_input. ui_read. cbn [existsb submits]. rewrite orb_false_r, !List.map_map. unfold asset_option. cbn [fst].
  by destruct (of_busy f || negb (form_valid f)).
Qed.
Lemma form_fields f : fields (OpenLineForm f) = [TypeBorrower; TypeCcy; TypeLimit; TypeRate; TypeCure].
Proof. unfold OpenLineForm, form_input. by ui_read. Qed.

(** A submission is on its way exactly while the form says so, and there is one at most. *)
Definition form_ok f : Prop := match of_stages f with [] => of_busy f = false | [_] => of_busy f = true | _ => False end.
Definition form_possible f e : Prop :=
  match e with
  | PartyCame _ => exists account t, hd_error (of_stages f) = Some (AwaitParty account t)
  | OpeningCame _ => exists request, hd_error (of_stages f) = Some (AwaitOpening request)
  | _ => offered (OpenLineForm f) e
  end.

Lemma submit_possible f : form_possible f SubmitOpen -> of_busy f = false /\ form_valid f = true.
Proof.
  intros [Hc|(t & s & Ht & E)]; [|rewrite form_fields in Ht; cbn in Ht; naive_solver].
  rewrite form_clicks, in_app_iff, in_when in Hc. destruct Hc as [[Hb _]|(x & ? & _)%in_map_iff]; [|done].
  apply negb_true_iff, orb_false_iff in Hb as [Hb Hv%negb_false_iff]. done.
Qed.

Lemma form_update_ok f e : form_ok f -> form_possible f e -> form_ok (fst (form_update f e)).
Proof.
  intros Hf He. destruct e as [| | | | | | |[party|message]|[tx|message]]; try (by destruct f).
  - apply submit_possible in He as [Hb _]. unfold form_ok in Hf. destruct f as [b a l r c y busy error stages]. cbn in *.
    unfold form_submit. destruct (form_asset _); cbn; [|by unfold form_ok; cbn]. unfold form_ok. cbn. destruct stages as [|? [|]]; [done|congruence|done].
  - destruct f as [b a l r c y busy error stages]. destruct He as (account & t & Hs). cbn in Hs. unfold form_ok in *. cbn in *.
    destruct stages as [|x [|]]; [done| |done]. injection Hs as ->. cbn. destruct (opening_request party t); cbn; [exact Hf|done].
  - destruct f as [b a l r c y busy error stages]. destruct He as (account & t & Hs). unfold form_ok in *. cbn in *. by destruct stages as [|x [|]].
  - destruct f as [b a l r c y busy error stages]. destruct He as (q & Hs). unfold form_ok in *. cbn in *. by destruct stages as [|x [|]].
  - destruct f as [b a l r c y busy error stages]. destruct He as (q & Hs). unfold form_ok in *. cbn in *. by destruct stages as [|x [|]].
Qed.
End Form.

(** ** The page *)
(** [lv_awaited] are the requests of the lines' buttons that are on their way, in the order they were made. *)
Record LenderState := MkLender {
  lv_book : Book; lv_fundAmounts : gmap string string; lv_withdrawAmounts : gmap string string;
  lv_tx : option BuiltTx; lv_busyId : option string; lv_awaited : list ApiFunction; lv_form : OpenForm }.

Inductive LenderEvent :=
| TypeFund (id s : string) | TypeWithdraw (id s : string)
| ClickFund (id : string) | ClickWithdraw (id kind : string) | ClickClose (id : string)
| RetryLines
| LenderTick (visible : bool) (** of [usePolling] *)
| LenderCame (i : nat) (a : ReloadAnswer)
| LineBuilt (i : nat) (answer : BuiltTx + string)
| OnForm (e : FormEvent)
| DismissEnvelope.

Section Page.
Context `{LocaleLib} (session : Session).
Implicit Types (w : LenderState) (e : LenderEvent).

Definition lent (l : CreditLineRow) : bool := eqs (cr_lenderId l) (ss_partyId session).
Definition lender_lines w : list CreditLineRow := my_lines lent (lv_book w).

Definition with_error (error : option string) (b : Book) : Book :=
  MkBook (bk_positions b) (bk_details b) (bk_assets b) (bk_lineErrors b) error (bk_loading b) (bk_reloads b).

(** What a button asks for, with the amount typed for its line. *)
Definition lender_action w e : option Action :=
  match e with
  | ClickFund id => Some (FundLine id (default "" (lv_fundAmounts w !! id)))
  | ClickWithdraw id kind => Some (WithdrawFrom id kind (default "" (lv_withdrawAmounts w !! id)))
  | ClickClose id => Some (CloseLine id)
  | _ => None
  end.

(** A button's handler: the request is sent, or what kept it from being made is shown. *)
Definition lender_ask w (id : string) (a : Action) : LenderState :=
  match asks a with
  | Ok f => MkLender (with_error None (lv_book w)) (lv_fundAmounts w) (lv_withdrawAmounts w) (lv_tx w) (Some id) (lv_awaited w ++ [f]) (lv_form w)
  | Err x => MkLender (with_error (Some (exn_message x)) (lv_book w)) (lv_fundAmounts w) (lv_withdrawAmounts w) (lv_tx w) None (lv_awaited w) (lv_form w)
  end.

Definition lender_book (f : Book -> Book) w : LenderState :=
  MkLender (f (lv_book w)) (lv_fundAmounts w) (lv_withdrawAmounts w) (lv_tx w) (lv_busyId w) (lv_awaited w) (lv_form w).

Definition line_event e : string := match e with ClickFund id | ClickWithdraw id _ | ClickClose id => id | _ => "" end.

Definition lender_update w e : LenderState :=
  let '(MkLender book funds withdrawals tx busyId awaited form) := w in
  match e with
  | TypeFund id s => MkLender book (<[id := s]> funds) withdrawals tx busyId awaited form
  | TypeWithdraw id s => MkLender book funds (<[id := s]> withdrawals) tx busyId awaited form
  | ClickFund _ | ClickWithdraw _ _ | ClickClose _ =>
      match lender_action w e with Some a => lender_ask w (line_event e) a | None => w end
  | RetryLines => lender_book (reload false) w
  | LenderTick visible => lender_book (poll visible) w
  | LenderCame i a => lender_book (reload_came lent i a) w
  | LineBuilt i (inl built) => MkLender book funds withdrawals (Some built) None (delete i awaited) form
  | LineBuilt i (inr message) => MkLender (with_error (Some message) book) funds withdrawals tx None (delete i awaited) form
  | OnForm e' =>
      let '(form', built) := form_update session (bk_assets book) form e' in
      MkLender book funds withdrawals (match built with Some tx' => Some tx' | None => tx end) busyId awaited form'
  | DismissEnvelope => MkLender (reload false book) funds withdrawals None busyId awaited form
  end.
Definition lender_mounted : LenderState := MkLender (reload false book_mounted) ∅ ∅ None None [] form_mounted.

(** ** What it shows *)
Definition at_risk w (l : CreditLineRow) : bool :=
  match bk_details (lv_book w) !! cr_id l with Some d => eqs (cd_marginState d) "MarginCall" || eqs (cd_marginState d) "Liquidation" | None => false end.

Definition asking w (id : string) : bool := bool_decide (lv_busyId w = Some id).
Definition envelope_open w : bool := bool_decide (is_Some (lv_tx w)).
Definition line_input (value placeholder : string) (typed : string -> LenderEvent) : Html LenderEvent := Input [("placeholder", placeholder)] value typed.

(** [d ? text(d) : "..."]. *)
Definition or_dots (d : option CreditLineDetail) (text : CreditLineDetail -> string) : Html LenderEvent :=
  span [Txt (match d with Some d => text d | None => "..." end)].
(** A figure the chain may not have given. *)
Definition chain_figure (d : option CreditLineDetail) (figure : CreditLineDetail -> option string) : Html LenderEvent :=
  span [Txt (match d with Some d => match figure d with Some v => scaled_text v (cd_loanCcy d) | None => "..." end | None => "..." end)].

Definition loss (label value : string) : bool :=
  starts_with "Shortfall" label && negb (blank value) && string_forall is_digit value && match BigInt value with Ok n => 0 <? n | Err _ => false end.
Definition liquidation_figures (d : CreditLineDetail) (x : LiquidationShown) : Html LenderEvent :=
  el "dl"
    (List.map (fun '(label, value) =>
       el "div" [el "dt" [Txt label]; toned "dd" (if loss label value then "text-accent" else "text-fg") [Txt (scaled_text value (cd_loanCcy d))]])
     [("Debt at liquidation", ls_debt x); ("Collateral value", ls_recovered x); ("Paid to borrower", ls_surplus x); ("Shortfall (loss)", ls_shortfall x)]).

Definition withdraw_off w (line : CreditLineRow) : bool :=
  asking w (cr_id line) || envelope_open w || blank (default "" (lv_withdrawAmounts w !! cr_id line)) || negb (given (cr_contractLineId line)).

Definition line_head w (line : CreditLineRow) (d : option CreditLineDetail) : list (Html LenderEvent) :=
  [span
     ([Txt ("LINE / " +:+ short_id (cr_id line) +:+ " "); span [Txt (toUpperCase (cr_status line))]; br;
       span [Txt ("BORROWER " +:+ shortAddress (cr_borrowerId line))]] ++
      when (given (bk_lineErrors (lv_book w) !! cr_id line)) [span [Txt "could not load details"; Click false RetryLines [Txt "Retry"]]]);
   span [Txt "LIMIT "; or_dots d (fun d => scaled_text (cd_limit d) (cd_loanCcy d))];
   span [Txt "DRAWN "; or_dots d (fun d => scaled_text (cd_drawn d) (cd_loanCcy d))];
   span ([Txt "LTV "; or_dots d (fun d => bpsToPercent (cd_ltvBps d))] ++ when_some d (fun d => [Txt " "; MarginBadge (cd_marginState d)]))].

Definition lender_line w (line : CreditLineRow) : Html LenderEvent :=
  let id := cr_id line in
  let d := bk_details (lv_book w) !! id in
  el "div"
    (line_head w line d ++
     [el "div"
        [line_input (default "" (lv_fundAmounts w !! id)) "fund amt" (TypeFund id);
         Click (negb (fund_enabled (asking w id) (envelope_open w) (default "" (lv_fundAmounts w !! id)) (cr_contractLineId line)))
           (ClickFund id) [Txt "Fund"]];
      el "div"
        ([span [Txt "Undrawn "; chain_figure d cd_undrawn; Txt " / Interest "; chain_figure d cd_claimableInterest];
          line_input (default "" (lv_withdrawAmounts w !! id)) "withdraw amt" (TypeWithdraw id)] ++
         List.map (fun kind => Click (withdraw_off w line) (ClickWithdraw id kind) [Txt ("Withdraw " +:+ kind)]) ["undrawn"; "interest"])] ++
     when (eqs (cr_status line) "liquidating")
       [el "div"
          [p_ "LIQUIDATED. The collateral has been sent to you in kind. Closing books it at the price confirmed when the breach was flagged. If it is worth more than the debt you pay the difference to the borrower in USDC in the same transaction.";
           Click (asking w id || envelope_open w) (ClickClose id) [Txt "Close liquidated line"]]] ++
     when_some d (fun d => when_some (cd_liquidation d) (fun x => when (ls_closed x) [liquidation_figures d x]))).

Definition LenderView w : Html LenderEvent :=
  let b := lv_book w in
  let myLines := lender_lines w in
  let risky := List.length (List.filter (at_risk w) myLines) in
  el "div"
    (error_line (bk_error b) ++
     [panel_ "Exposure Summary"
        [el "div"
           [el "div" [el "div" [Txt "Lines"]; el "div" [Txt (Z_to_string (Z.of_nat (List.length myLines)))]];
            el "div" [el "div" [Txt "In default watch"];
                      toned "div" (if (0 <? risky)%nat then "text-accent" else "text-ok") [Txt (Z_to_string (Z.of_nat risky))]]]];
      html_map OnForm (OpenLineForm (bk_assets b) (lv_form w));
      panel_ "Lines / margin status"
        (when (bk_loading b) [p_ "LOADING..."] ++
         when (negb (bk_loading b) && bool_decide (myLines = [])) [p_ "No lines lent from this account."] ++
         [el "div" (List.map (lender_line w) myLines)])] ++
     when_some (lv_tx w) (fun tx => [Envelope (bt_xdr tx) (bt_txHash tx) DismissEnvelope])).

Definition lender_possible w e : Prop :=
  match e with
  | LenderTick _ => True
  | LenderCame i a => answer_fits (lv_book w) i a
  | LineBuilt i _ => (i < List.length (lv_awaited w))%nat
  | OnForm e' => form_possible (bk_assets (lv_book w)) (lv_form w) e'
  | _ => offered (LenderView w) e
  end.

Inductive lender_life : list LenderEvent -> LenderState -> Prop :=
| lender_start : lender_life [] lender_mounted
| lender_more events w e : lender_life events w -> lender_possible w e -> lender_life (events ++ [e]) (lender_update w e).

(** ** What can be clicked on it *)
Lemma line_reads w line :
  clicks (lender_line w line) =
    when (given (bk_lineErrors (lv_book w) !! cr_id line)) [RetryLines] ++
    when (fund_enabled (asking w (cr_id line)) (envelope_open w) (default "" (lv_fundAmounts w !! cr_id line)) (cr_contractLineId line)) [ClickFund (cr_id line)] ++
    (if withdraw_off w line then [] else [ClickWithdraw (cr_id line) "undrawn"; ClickWithdraw (cr_id line) "interest"]) ++
    when (eqs (cr_status line) "liquidating") (if asking w (cr_id line) || envelope_open w then [] else [ClickClose (cr_id line)]) /\
  fields (lender_line w line) = [TypeFund (cr_id line); TypeWithdraw (cr_id line)].
Proof.
  assert (Hq : forall (B : Type) (g : Html LenderEvent -> list B), (forall tag attrs l, g (El tag attrs l) = flat_map g l) -> (forall t, g (Txt t) = []) ->
    flat_map g (when_some (bk_details (lv_book w) !! cr_id line) (fun d => when_some (cd_liquidation d) (fun x => when (ls_closed x) [liquidation_figures d x]))) = []).
  { intros B g Hel Ht. apply read_when_some. intros d. apply read_when_some. intros x. rewrite read_when. unfold liquidation_figures, el, toned.
    cbn. rewrite !Hel; cbn; rewrite !Hel; cbn; rewrite !Hel; cbn; rewrite !Ht. by destruct (ls_closed x). }
  unfold lender_line, line_head, or_dots, chain_figure, line_input. cbv zeta. split.
  - ui_read. rewrite Hq by done. ui_read. destruct (fund_enabled _ _ _ _), (withdraw_off w line); done.
  - ui_read. rewrite Hq by done. by ui_read.
Qed.

(** The events a tree sets off come from one of its parts. *)
Lemma lender_offers_line w e : (forall e' : FormEvent, e <> OnForm e') -> e <> DismissEnvelope -> offered (LenderView w) e ->
  exists line, In line (lender_lines w) /\ offered (lender_line w line) e.
Proof.
  intros Hform Hd. unfold LenderView. cbv zeta. intros (h & Hin & Ho)%offered_El. rewrite !in_app_iff in Hin.
  destruct Hin as [Hin|[[<-|[<-|[<-|[]]]]|Hin]].
  - exfalso. unfold error_line, when_text in Hin. destruct (bk_error _) as [[|]|]; [done| |done]. destruct Hin as [<-|[]].
    by destruct Ho as [[]|(? & ? & [] & _)].
  - exfalso. by destruct Ho as [[]|(? & ? & [] & _)].
  - exfalso. apply offered_html_map in Ho as (e' & _ & ->). by eapply Hform.
  - assert (Hl : offered (el "div" (List.map (lender_line w) (lender_lines w))) e).
    { revert Ho. unfold offered. cbn [clicks fields panel_ el flat_map span app]. rewrite !flat_map_app, !read_when, !app_nil_r. cbn. by rewrite !when_nil, !app_nil_r. }
    apply offered_El in Hl as (h & (line & <- & Hline)%in_map_iff & Hl). by exists line.
  - exfalso. unfold when_some in Hin. destruct (lv_tx w); [|done]. destruct Hin as [<-|[]]. destruct Ho as [[<-|[]]|(? & ? & [] & _)]. done.
Qed.

Lemma lender_offers w e a : lender_action w e = Some a -> offered (LenderView w) e ->
  exists line, In line (lender_lines w) /\ cr_id line = line_event e /\ asking w (cr_id line) = false /\ envelope_open w = false /\
    match e with
    | ClickFund id => default "" (lv_fundAmounts w !! id) <> "" /\ given (cr_contractLineId line) = true
    | ClickWithdraw id kind => default "" (lv_withdrawAmounts w !! id) <> "" /\ In kind ["undrawn"; "interest"] /\ given (cr_contractLineId line) = true
    | _ => cr_status line = "liquidating"
    end.
Proof.
  intros Ha Ho. apply lender_offers_line in Ho as (line & Hline & Ho); [|intros e' ->; done|by intros ->].
  exists line. split; [done|]. destruct (line_reads w line) as [Ec Ef]. destruct Ho as [Hc|(t & s & Ht & ->)]; [|rewrite Ef in Ht; cbn in Ht; naive_solver].
  rewrite Ec, !in_app_iff, !in_when in Hc. destruct Hc as [[_ [<-|[]]]|[[He [<-|[]]]|[Hc|[Hs Hc]]]]; [done| | |].
  - unfold fund_enabled in He. apply negb_true_iff in He. rewrite !orb_false_iff in He. destruct He as [[[Hb Ht] Hn%bool_decide_eq_false] Hg].
    split_and!; try done. by destruct (cr_contractLineId line) as [[|]|].
  - destruct (withdraw_off w line) eqn:Eo; [done|]. unfold withdraw_off in Eo. rewrite !orb_false_iff in Eo.
    destruct Eo as [[[Hb Ht] Hn%bool_decide_eq_false] Hg%negb_false_iff]. destruct Hc as [<-|[<-|[]]]; split_and!; cbn; auto.
  - destruct (asking w (cr_id line) || envelope_open w) eqn:Eo; [done|]. apply orb_false_iff in Eo as [Hb Ht]. destruct Hc as [<-|[]].
    split_and!; try done. by apply bool_decide_eq_true in Hs.
Qed.

Lemma lender_lines_mine w line : In line (lender_lines w) ->
  exists pos, bk_positions (lv_book w) = Some pos /\ In line (ps_creditLines pos) /\ cr_lenderId line = ss_partyId session.
Proof.
  unfold lender_lines, my_lines. destruct (bk_positions (lv_book w)) as [pos|]; [|done]. intros [Hin Hl%bool_decide_eq_true]%List.filter_In. by exists pos.
Qed.

(** ** What is on its way *)
Definition sane_terms (t : OpenTerms) : Prop :=
  ot_limit t <> "" /\ (forall r, ot_rateBps t = Some r -> 0 <= r) /\ (forall c, ot_cureWindowS t = Some c -> 0 < c).
Definition stage_sane (events : list LenderEvent) (stage : FormStage) : Prop :=
  match stage with
  | AwaitParty account t => account <> "" /\ sane_terms t
  | AwaitOpening request => exists party t, In (OnForm (PartyCame (inl party))) events /\ opening_request session party t = Ok request /\ sane_terms t
  end.

Lemma stage_sane_more events e stage : stage_sane events stage -> stage_sane (events ++ [e]) stage.
Proof. destruct stage; cbn; [done|]. intros (party & t & Hin & ?). exists party, t. split; [apply in_app_iff; by left|done]. Qed.

Lemma form_valid_sane listed f asset : form_valid listed f = true -> form_asset listed f = Some asset ->
  trim (of_borrower f) <> "" /\
  sane_terms (MkOpenTerms (of_loanCcy f) (of_limit f) (Math_round (form_rate f)) (Math_round (form_cure f)) (as_contractC asset)).
Proof.
  unfold form_valid. rewrite !andb_true_iff. intros [[[[_ Hb] Hl] Hr] Hc] _.
  apply negb_true_iff, bool_decide_eq_false in Hb. apply negb_true_iff, bool_decide_eq_false in Hl. split; [done|]. split; [done|]. cbn.
  split; [intros r E|intros c E].
  - unfold at_least_zero in Hr. destruct (form_rate f); try discriminate E; rewrite E in Hr; by apply Z.leb_le in Hr.
  - unfold above_zero in Hc. destruct (form_cure f); try discriminate E; rewrite E in Hc; by apply Z.ltb_lt in Hc.
Qed.

Lemma form_stages_sane events listed f (e : FormEvent) : Forall (stage_sane events) (of_stages f) -> form_possible listed f e ->
  Forall (stage_sane (events ++ [OnForm e])) (of_stages (fst (form_update session listed f e))).
Proof.
  intros Hs He. assert (Hold : Forall (stage_sane (events ++ [OnForm e])) (of_stages f)) by (eapply Forall_impl; [exact Hs|intros; by apply stage_sane_more]).
  destruct e as [| | | | | | |[party|message]|[tx|message]]; try (by destruct f).
  - apply submit_possible in He as [_ Hv]. destruct f as [b a l r c y busy error stages]. cbn [form_update fst]. unfold form_submit.
    destruct (form_asset listed _) as [asset|] eqn:Ea; [|exact Hold]. cbn [form_with of_stages]. apply Forall_app. split; [exact Hold|].
    repeat constructor; by eapply form_valid_sane.
  - destruct f as [b a l r c y busy error stages]. cbn in *. destruct stages as [|[account t|q] rest]; try exact Hold. apply Forall_cons in Hold as [[Ha Ht] Hr].
    destruct (opening_request session party t) as [q|] eqn:Eq; cbn; [|exact Hr]. constructor; [|exact Hr].
    exists party, t. split; [apply in_app_iff; right; by left|done].
  - destruct f as [b a l r c y busy error [|]]; cbn in *; [constructor|by inversion Hold].
  - destruct f as [b a l r c y busy error [|]]; cbn in *; [constructor|by inversion Hold].
  - destruct f as [b a l r c y busy error [|]]; cbn in *; [constructor|by inversion Hold].
Qed.

Definition envelope_came (events : list LenderEvent) (tx : BuiltTx) : Prop :=
  (exists i, In (LineBuilt i (inl tx)) events) \/ In (OnForm (OpeningCame (inl tx))) events.

(** The form is the page's, and only its own events change it. *)
Lemma form_of_update w e : (forall (e' : FormEvent), e <> OnForm e') -> lv_form (lender_update w e) = lv_form w.
Proof.
  intros Hf. destruct w as [book funds withdrawals tx busyId awaited form].
  destruct e as [| |id|id kind|id| | | |i [built|message]|e'|]; try done; try (by destruct (Hf e')); cbn; unfold lender_ask; by destruct (asks _).
Qed.

Lemma tx_of_update w e tx : lv_tx (lender_update w e) = Some tx -> lv_tx w = Some tx \/ envelope_came [e] tx.
Proof.
  destruct w as [book funds withdrawals tx0 busyId awaited form]. unfold envelope_came.
  destruct e as [| |id|id kind|id| | | |i [built|message]|e'|]; cbn; try (by left); try done;
    try (unfold lender_ask; destruct (asks _); cbn; by left).
  - intros [= ->]. right. left. exists i. by left.
  - destruct (form_update session (bk_assets book) form e') as [form' built] eqn:E. cbn. destruct built as [tx'|]; [|by left].
    intros [= ->]. right. right. left. f_equal. destruct form as [b a l r c y busy error stages].
    destruct e' as [| | | | | | |[party|message]|[tx'|message]]; cbn in E; try (by injection E); [|].
    + destruct stages as [|[account t|q] rest]; try (by injection E). by destruct (opening_request session party t); injection E.
    + injection E as _ ->. done.
Qed.

Lemma lender_keeps events w : lender_life events w ->
  Forall (stage_sane events) (of_stages (lv_form w)) /\ forall tx, lv_tx w = Some tx -> envelope_came events tx.
Proof.
  induction 1 as [|events w e Hl [IHs IHt] Hp]; [by split|]. split.
  - destruct e as [| | | | | | | | |e'|].
    10: { destruct w as [book funds withdrawals tx busyId awaited form]. cbn [lender_update].
      pose proof (form_stages_sane events (bk_assets book) form e' IHs Hp) as Hs. by destruct (form_update session (bk_assets book) form e'). }
    all: rewrite form_of_update by done; eapply Forall_impl; [exact IHs|intros; by apply stage_sane_more].
  - unfold envelope_came in *. intros tx [Ht%IHt|Ht]%tx_of_update; setoid_rewrite in_app_iff; [|unfold envelope_came in Ht]; naive_solver.
Qed.

(** The lender's page asks only as the lender of its own lines.  Take any history of it.  A line's button
    asks the API about that line, which the positions last answered list as one the party lends; no
    envelope is open and the line is not being asked about; funding and withdrawing need an amount typed for
    that very line and a line on the chain, and only a liquidating line is closed.  A request to open a line
    is made in the party's own name for the borrower the API found, with the terms of the form as it was
    submitted, none of them empty or negative.  And an envelope shown is one the API answered. *)
Theorem lender_asks_only_as_lender events w e : lender_life events w -> lender_possible w e ->
  (forall a, lender_action w e = Some a ->
     exists pos line, bk_positions (lv_book w) = Some pos /\ In line (ps_creditLines pos) /\ cr_lenderId line = ss_partyId session /\
       lv_tx w = None /\ lv_busyId w <> Some (cr_id line) /\
       match a with
       | FundLine id amount => id = cr_id line /\ amount = default "" (lv_fundAmounts w !! id) /\ amount <> "" /\ given (cr_contractLineId line) = true
       | WithdrawFrom id kind amount =>
           id = cr_id line /\ amount = default "" (lv_withdrawAmounts w !! id) /\ amount <> "" /\ given (cr_contractLineId line) = true /\
           In kind ["undrawn"; "interest"]
       | CloseLine id => id = cr_id line /\ cr_status line = "liquidating"
       | _ => False
       end) /\
  (forall request, In (AwaitOpening request) (of_stages (lv_form w)) ->
     exists party t, In (OnForm (PartyCame (inl party))) events /\ opening_request session party t = Ok request /\ sane_terms t) /\
  (forall tx, lv_tx w = Some tx -> envelope_came events tx).
Proof.
  intros Hl Hp. destruct (lender_keeps events w Hl) as [Hs Ht]. split; [|split; [|exact Ht]].
  - intros a Ha. assert (Ho : offered (LenderView w) e) by (destruct e; try done; discriminate Ha).
    destruct (lender_offers w e a Ha Ho) as (line & Hline & Hid & Hb%bool_decide_eq_false & Ho2%bool_decide_eq_false & Hm).
    destruct (lender_lines_mine w line Hline) as (pos & Hpos & Hin & Hmine). exists pos, line. split_and!; try done.
    + destruct (lv_tx w); [by destruct Ho2|done].
    + destruct e; try discriminate Ha; injection Ha as <-; cbn in Hid; subst; naive_solver.
  - intros request Hin. apply list_elem_of_In in Hin. exact (proj1 (Forall_forall _ _) Hs _ Hin).
Qed.
End Page.

(** ** Visits *)
Module LenderSample.
#[local] Instance plain_locale : LocaleLib := {| toLocaleString _ := "1" |}.

Definition me : Session := MkSession "token" "p2" "GLENDER".
Definition row (id : string) : CreditLineRow := MkCreditLineRow id "p2" "p1" "USDC" "100" 700 0 86400 "active" (Some "0") "" None.
Definition detail (id : string) : CreditLineDetail :=
  MkCreditLineDetail id "p2" "p1" "USDC" "1000000000" "0" 700 0 86400 "active" (Some "0") 0 "Healthy" None None None None None None.
Definition positions_ : PositionsResult := MkPositionsResult "p2" [row "l1"; row "l2"] [] [] [].
Definition bond : AssetSummary := MkAssetSummary "a1" "BOND" "CBOND" "USD" "sep41" "escrow" 500 "active" None.
Definition fund_tx : BuiltTx := MkBuiltTx "AAAA" "fund" None.
Definition second_tx : BuiltTx := MkBuiltTx "BBBB" "second" None.
Definition open_tx : BuiltTx := MkBuiltTx "CCCC" "open" None.

Definition arrived : list LenderEvent :=
  [LenderCame 0 (PositionsCame positions_); LenderCame 0 (LinesCame [inl (detail "l1"); inl (detail "l2")]); LenderCame 0 (AssetsCame [bond]);
   TypeFund "l1" "12.5"; TypeFund "l2" "7"].
(** The page asks about one line while it waits for the other. *)
Definition two_lines : list LenderEvent :=
  arrived ++ [ClickFund "l1"; ClickFund "l2"; LineBuilt 0 (inl fund_tx); LineBuilt 0 (inl second_tx)].
(** A line is opened while the envelope of a funding waits for its signature. *)
Definition open_meanwhile : list LenderEvent :=
  arrived ++ [ClickFund "l1"; LineBuilt 0 (inl fund_tx); OnForm (TypeBorrower "GB"); OnForm (TypeLimit "100"); OnForm SubmitOpen;
    OnForm (PartyCame (inl "p1")); OnForm (OpeningCame (inl open_tx))].

Definition after (events : list LenderEvent) : LenderState := foldl (lender_update me) (lender_mounted) events.

Lemma lender_after_app events e : after (events ++ [e]) = lender_update me (after events) e.
Proof. unfold after. by rewrite foldl_app. Qed.
Lemma lender_lived events : (forall n e, events !! n = Some e -> lender_possible me (after (take n events)) e) -> lender_life me events (after events).
Proof.
  induction events as [|e events IH] using rev_ind; intros Hp; [constructor|]. rewrite lender_after_app. apply lender_more.
  - apply IH. intros n e' E. specialize (Hp n e'). rewrite take_app_le in Hp by (apply lookup_lt_Some in E; lia). apply Hp. by apply lookup_app_l_Some.
  - specialize (Hp (length events) e). rewrite take_app_length in Hp. apply Hp. by rewrite list_lookup_middle.
Qed.

Ltac pick := (left; reflexivity) + (right; pick).
(** Each event is what the page offers at that point, or an answer it waits for. *)
Ltac each_possible :=
  apply lender_lived; intros n e E;
  repeat (destruct n as [|n]; [injection E as <-; first
    [ exact I | reflexivity | solve [left; vm_compute; tauto] | solve [vm_compute; lia]
    | solve [vm_compute; right; eexists; eexists; split; [pick|reflexivity]] | solve [vm_compute; eauto] ]|]); discriminate E.

Lemma two_lines_lived : lender_life me two_lines (after two_lines).
Proof. each_possible. Qed.
Lemma open_meanwhile_lived : lender_life me open_meanwhile (after open_meanwhile).
Proof. each_possible. Qed.

(** Either way an envelope that may already be signed is replaced by another, and lost from view. *)
Example envelope_replaced :
  lv_tx (after (take 8 two_lines)) = Some fund_tx /\ lv_tx (after two_lines) = Some second_tx /\
  lv_tx (after (take 11 open_meanwhile)) = Some fund_tx /\ lv_tx (after open_meanwhile) = Some open_tx.
Proof. vm_compute. auto. Qed.

Lemma lender_asks_only_as_lender_witness : exists pos line,
  lender_action (after (arrived ++ [ClickFund "l1"])) (ClickFund "l2") = Some (FundLine "l2" "7") /\
  bk_positions (lv_book (after (arrived ++ [ClickFund "l1"]))) = Some pos /\ In line (ps_creditLines pos) /\ cr_id line = "l2" /\ cr_lenderId line = "p2".
Proof.
  assert (Hl : lender_life me (arrived ++ [ClickFund "l1"]) (after (arrived ++ [ClickFund "l1"]))) by each_possible.
  assert (Hp : lender_possible me (after (arrived ++ [ClickFund "l1"])) (ClickFund "l2")) by (left; vm_compute; tauto).
  destruct (lender_asks_only_as_lender me _ _ (ClickFund "l2") Hl Hp) as [H _].
  destruct (H (FundLine "l2" "7") eq_refl) as (pos & line & Hpos & Hin & Hmine & _ & _ & Hid & _).
  exists pos, line. split_and!; [reflexivity|exact Hpos|exact Hin|by rewrite <- Hid|exact Hmine].
Defined.
End LenderSample.
