(* ===== verification/ConsoleDeals.v ===== *)
(** The pages of the deals.  [apps/console/src/pages/ExitView.tsx], on which a position is sold to the desk: a
    quote that runs out, and the envelope that executes it.  [pages/RepoView.tsx], on which repo trades are
    proposed, accepted and unwound; what it shows depends on the clock when it was last rendered, which is
    whenever something happened on it. *)
From stdpp Require Import gmap strings.
From S2P Require Import Prelude Floats Console ConsolePages ConsoleUi.

(** * The exit desk *)
(** [xv_secondsLeft] is [None] for a quote whose expiry is no date; [xv_awaited] are the requests on their
    way, [xv_reloads] the number of refreshes on theirs. *)
Record ExitState := MkExit {
  xv_assets : list AssetSummary; xv_history : list ExitQuoteRow; xv_assetId : string; xv_units : string; xv_to : string;
  xv_quote : option ExitQuoteResult; xv_secondsLeft : option Z; xv_tx : option BuiltTx; xv_busy : bool; xv_error : option string;
  xv_awaited : list ApiFunction; xv_reloads : nat }.

Inductive ExitEvent :=
| ChooseExitAsset (id : string) | TypeExitUnits (s : string) | TypeExitTo (s : string)
| SubmitQuote
| BuildExit
| ExitTick (** the timer of the quote *)
| ExitCame (answer : (list AssetSummary * list ExitQuoteRow) + string)
| QuoteCame (answer : ExitQuoteResult + string)
| ExitBuilt (answer : BuiltTx + string)
| DismissExit.

Section Page.
Context `{LocaleLib, ConsoleDates} (session : Session).
Implicit Types (w : ExitState) (e : ExitEvent).

Definition exit_asset w : option AssetSummary := chosen_asset (xv_assetId w) (xv_assets w).
Definition seconds_left (now : Z) (q : ExitQuoteResult) : option Z :=
  (fun t => Z.max 0 (round_thousandth (t - now))) <$> Date_time (qr_expiresAt q).
Definition expired w : bool := bool_decide (is_Some (xv_quote w)) && bool_decide (xv_secondsLeft w = Some 0).

Definition shown (q : ExitQuoteResult) : QuoteShown := Quoted (qr_id q) (qr_assetId q) (qr_usdcOut q).
Definition exit_action w e : option Action :=
  match e with
  | SubmitQuote => (fun a => AskQuote (as_id a) (xv_units w)) <$> exit_asset w
  | BuildExit => (fun q => ExecuteQuote (shown q) (xv_to w)) <$> xv_quote w
  | _ => None
  end.

(** [guarded]: the request is sent, or what kept it from being made is shown; asking for a quote puts away
    the envelope of the last one first. *)
Definition guarded w (tx : option BuiltTx) (a : Action) : ExitState :=
  let '(MkExit listed history assetId units to quote secs _ busy error awaited reloads) := w in
  match asks a with
  | Ok f => MkExit listed history assetId units to quote secs tx true None (awaited ++ [f]) reloads
  | Err x => MkExit listed history assetId units to quote secs tx false (Some (exn_message x)) awaited reloads
  end.

Definition exit_update (now : Z) w e : ExitState :=
  let '(MkExit listed history assetId units to quote secs tx busy error awaited reloads) := w in
  match e with
  | ChooseExitAsset id => MkExit listed history id units to quote secs tx busy error awaited reloads
  | TypeExitUnits s => MkExit listed history assetId s to quote secs tx busy error awaited reloads
  | TypeExitTo s => MkExit listed history assetId units s quote secs tx busy error awaited reloads
  | SubmitQuote => match exit_action w e with Some a => guarded w None a | None => w end
  | BuildExit => match exit_action w e with Some a => guarded w tx a | None => w end
  | ExitTick => MkExit listed history assetId units to quote (match quote with Some q => seconds_left now q | None => secs end) tx busy error awaited reloads
  | ExitCame (inl (listed', history')) => MkExit listed' history' assetId units to quote secs tx busy None awaited (pred reloads)
  | ExitCame (inr message) => MkExit listed history assetId units to quote secs tx busy (Some message) awaited (pred reloads)
  | QuoteCame (inl q) => MkExit listed history assetId units to (Some q) (seconds_left now q) tx false error (tail awaited) reloads
  | ExitBuilt (inl built) => MkExit listed history assetId units to quote secs (Some built) false error (tail awaited) reloads
  | QuoteCame (inr message) | ExitBuilt (inr message) =>
      MkExit listed history assetId units to quote secs tx false (Some message) (tail awaited) reloads
  | DismissExit => MkExit listed history assetId units to None secs None busy error awaited (S reloads)
  end.
Definition exit_mounted : ExitState := MkExit [] [] "" "" (ss_stellarAccount session) None (Some 0) None false None [] 1.

(** ** What it shows *)
Definition whole (s : string) : bool := negb (blank s) && string_forall is_digit s.
(** The USDC a unit nets. *)
Definition effectiveRate (q : ExitQuoteResult) : option string :=
  if whole (qr_usdcOut q) && whole (qr_units q) then
    match BigInt (qr_usdcOut q), BigInt (qr_units q) with
    | Ok out, Ok n => if 0 <? n then Some (scaled_text (Z_to_string (Z.quot (out * 10000000) n)) "") else None
    | _, _ => None
    end
  else None.

Definition exit_input (label value placeholder : string) (typed : string -> ExitEvent) : Html ExitEvent :=
  Field label [Input [("placeholder", placeholder)] value typed].
Definition seconds_text (s : option Z) : string := match s with Some n => Z_to_string n | None => "NaN" end.

Definition quote_form w : Html ExitEvent :=
  let asset := exit_asset w in
  panel_ "Exit desk / quote"
    ([Form SubmitQuote
        [Field "Asset" [Select (default "" (as_id <$> asset)) (List.map (fun a => (as_id a, as_code a)) (xv_assets w)) ChooseExitAsset];
         exit_input "Units" (xv_units w) "100.00" TypeExitUnits;
         el "div" [Submit (xv_busy w || negb (bool_decide (is_Some asset)) || blank (xv_units w)) [Txt (if xv_busy w then "WORKING..." else "GET QUOTE")]]]] ++
     when_some asset (fun a =>
       [el "div" [span [Txt "ORACLE"]; match as_price a with Some p => PriceStatusBadge (ap_status p) | None => span [Txt "NO PRICE YET"] end]]) ++
     when (bool_decide (xv_assets w = [])) [p_ "No assets are listed yet."]).

Definition quote_figures w (q : ExitQuoteResult) : list (Html ExitEvent) :=
  let quotedAsset := find_asset (qr_assetId q) (xv_assets w) in
  [Stat "You sell" [Txt (scaled_text (qr_units q) (default "" (as_code <$> quotedAsset)))];
   Stat "You receive" [Txt (scaled_text (qr_usdcOut q) "USDC")];
   Stat "Desk price" [Txt (scaled_text (qr_price q) "USD")];
   Stat "Effective rate" [Txt (if given (effectiveRate q) then default "" (effectiveRate q) +:+ " USDC / unit" else "--")];
   Stat "Spread" [Txt (bpsToPercent (qr_spreadBps q))];
   Stat "Valid for"
     [toned "span" (if expired w then "text-accent" else "text-ok") [Txt (if expired w then "EXPIRED" else seconds_text (xv_secondsLeft w) +:+ "s")]]].

Definition quote_panel w (q : ExitQuoteResult) : Html ExitEvent :=
  panel_ ("Quote / " +:+ short_id (qr_id q))
    [el "dl" (quote_figures w q);
     el "div"
       [Field "Pay USDC to" [Input [] (xv_to w) TypeExitTo];
        Click (xv_busy w || expired w || blank (xv_to w)) BuildExit [Txt "BUILD EXIT TX"]];
     p_ ("/// The contract re-prices at execution and refuses to pay less than " +:+ bpsToPercent SLIPPAGE_BPS +:+ " below this quote.")].

Definition quote_row w (q : ExitQuoteRow) : Html ExitEvent :=
  el "div"
    [span [Txt (formatDecimalString (xr_units q) "" +:+ " " +:+ default "UNITS" (as_code <$> find_asset (xr_assetId q) (xv_assets w)))];
     span [Txt (formatDecimalString (xr_usdcOut q) "USDC")];
     toned "span" (if eqs (xr_status q) "filled" then "text-ok" else "text-fg-dim") [Txt (xr_status q)]].

Definition ExitView w : Html ExitEvent :=
  el "div"
    [el "div"
       ([quote_form w] ++
        when_some (xv_quote w) (fun q => [quote_panel w q]) ++
        error_line (xv_error w) ++
        when_some (xv_tx w) (fun tx => [Envelope (bt_xdr tx) (bt_txHash tx) DismissExit]));
     panel_ "Quote log"
       (when (bool_decide (xv_history w = [])) [p_ "No exits requested from this account."] ++
        [el "div" (List.map (quote_row w) (rev (xv_history w)))])].

(** ** What may happen *)
Definition is_quote (f : ApiFunction) : bool := match f with exitQuote _ _ => true | _ => false end.
Definition exit_possible w e : Prop :=
  match e with
  | ExitTick => is_Some (xv_quote w)
  | ExitCame _ => (0 < xv_reloads w)%nat
  | QuoteCame _ => exists f rest, xv_awaited w = f :: rest /\ is_quote f = true
  | ExitBuilt _ => exists f rest, xv_awaited w = f :: rest /\ is_quote f = false
  | _ => offered (ExitView w) e
  end.

Inductive exit_life : list (Z * ExitEvent) -> ExitState -> Prop :=
| exit_start : exit_life [] exit_mounted
| exit_more events w now e : exit_life events w -> exit_possible w e -> exit_life (events ++ [(now, e)]) (exit_update now w e).

Lemma quote_panel_reads w q :
  clicks (quote_panel w q) = (if xv_busy w || expired w || blank (xv_to w) then [] else [BuildExit]) /\ fields (quote_panel w q) = [TypeExitTo].
Proof. unfold quote_panel, quote_figures. cbv zeta. split; by ui_read. Qed.

Lemma exit_reads w :
  clicks (ExitView w) =
    (if xv_busy w || negb (bool_decide (is_Some (exit_asset w))) || blank (xv_units w) then [] else [SubmitQuote]) ++
    List.map ChooseExitAsset (List.map as_id (xv_assets w)) ++
    when_some (xv_quote w) (fun _ => if xv_busy w || expired w || blank (xv_to w) then [] else [BuildExit]) ++
    when_some (xv_tx w) (fun _ => [DismissExit]) /\
  fields (ExitView w) = TypeExitUnits :: when_some (xv_quote w) (fun _ => [TypeExitTo]).
Proof.
  assert (Hprice : forall (B : Type) (g : Html ExitEvent -> list B), (forall tag attrs l, g (El tag attrs l) = flat_map g l) -> (forall t, g (Txt t) = []) ->
    flat_map g (when_some (exit_asset w) (fun a =>
       [el "div" [span [Txt "ORACLE"]; match as_price a with Some p => PriceStatusBadge (ap_status p) | None => span [Txt "NO PRICE YET"] end]])) = []).
  { intros B g Hel Ht. apply read_when_some. intros a. unfold PriceStatusBadge, el, span, toned.
    destruct (as_price a); cbn; unfold el; rewrite !Hel; cbn; rewrite !Hel; cbn; by rewrite !Ht. }
  unfold ExitView, quote_form, exit_input. cbv zeta. split; ui_read; rewrite Hprice by done; ui_read.
  - cbn [existsb submits]. rewrite orb_false_r, !List.map_map. cbn [fst]. rewrite <- !app_assoc.
    assert (Hq : flat_map clicks (when_some (xv_quote w) (fun q => [quote_panel w q])) =
      when_some (xv_quote w) (fun _ => if xv_busy w || expired w || blank (xv_to w) then [] else [BuildExit])).
    { destruct (xv_quote w) as [q|]; [|done]. cbn [when_some flat_map]. rewrite app_nil_r. apply quote_panel_reads. }
    rewrite Hq. destruct (xv_busy w || _ || blank (xv_units w)), (xv_tx w); done.
  - assert (Hq : flat_map fields (when_some (xv_quote w) (fun q => [quote_panel w q])) = when_some (xv_quote w) (fun _ => [TypeExitTo])).
    { destruct (xv_quote w) as [q|]; [|done]. cbn [when_some flat_map]. rewrite app_nil_r. apply quote_panel_reads. }
    rewrite Hq. by destruct (xv_quote w), (xv_tx w).
Qed.

(** ** What the page keeps to *)
(** One request at most is on its way; while it is one for a quote, no envelope is open. *)
Definition exit_ok w : Prop :=
  match xv_awaited w with
  | [] => xv_busy w = false
  | [f] => xv_busy w = true /\ (is_quote f = true -> xv_tx w = None)
  | _ => False
  end.

Lemma exit_asks_possible w e a : exit_action w e = Some a -> exit_possible w e ->
  xv_busy w = false /\
  match e with
  | SubmitQuote => exists asset, exit_asset w = Some asset /\ a = AskQuote (as_id asset) (xv_units w) /\ xv_units w <> ""
  | _ => exists q, xv_quote w = Some q /\ a = ExecuteQuote (shown q) (xv_to w) /\ xv_to w <> "" /\ xv_secondsLeft w <> Some 0
  end.
Proof.
  intros Ha Hp. destruct (exit_reads w) as [Ec Ef].
  assert (Ho : In e (clicks (ExitView w))).
  { destruct e; try discriminate Ha; destruct Hp as [Hc|(t & s & Ht & E)]; try exact Hc; rewrite Ef in Ht; destruct Ht as [<-|Ht]; try discriminate E;
      (destruct (xv_quote w); [destruct Ht as [<-|[]]; discriminate E|destruct Ht]). }
  rewrite Ec, !in_app_iff in Ho. destruct Ho as [Ho|[Ho|[Ho|Ho]]].
  - destruct (xv_busy w); [done|]. destruct (blank (xv_units w)) eqn:Eu; [by rewrite orb_true_r in Ho|]. destruct (bool_decide _); [|done].
    destruct Ho as [<-|[]]. cbn in Ha. destruct (exit_asset w) as [asset|]; [|done]. injection Ha as <-.
    split; [done|]. exists asset. by apply bool_decide_eq_false in Eu.
  - apply in_map_iff in Ho as (x & <- & _). done.
  - destruct (xv_quote w) as [q|] eqn:Eq; [|done]. cbn [when_some] in Ho. destruct (xv_busy w); [done|].
    destruct (expired w) eqn:Ee; [done|]. destruct (blank (xv_to w)) eqn:Et; [done|]. destruct Ho as [<-|[]]. cbn in Ha. rewrite Eq in Ha. injection Ha as <-.
    split; [done|]. exists q. apply bool_decide_eq_false in Et. split_and!; try done. intros E0. unfold expired in Ee. rewrite Eq, E0 in Ee. done.
  - destruct (xv_tx w); [|done]. destruct Ho as [<-|[]]. done.
Qed.

Lemma asks_kind w e a f : exit_action w e = Some a -> asks a = Ok f -> is_quote f = match e with SubmitQuote => true | _ => false end.
Proof.
  destruct e; try discriminate; cbn.
  - destruct (exit_asset w); [|done]. intros [= <-]. cbn. unfold quote_click. by intros (n & _ & [= <-])%obind_ok.
  - destruct (xv_quote w); [|done]. intros [= <-]. cbn. unfold execute_click. by intros (n & _ & [= <-])%obind_ok.
Qed.

Lemma exit_update_ok now w e : exit_ok w -> exit_possible w e -> exit_ok (exit_update now w e).
Proof.
  intros Hw Hp. assert (Hask : forall tx a, exit_action w e = Some a -> (tx = None \/ e = BuildExit) -> exit_ok (guarded w tx a)).
  { intros tx a Ha Htx. destruct (exit_asks_possible w e a Ha Hp) as [Hb _].
    destruct w as [listed history assetId units to quote secs tx0 busy error awaited reloads]. unfold exit_ok in *. cbn in *.
    assert (awaited = []) as -> by (destruct awaited as [|f [|]]; [done|destruct Hw; congruence|done]).
    destruct (asks a) as [f|] eqn:Ea; cbn; [|done]. split; [done|]. pose proof (asks_kind _ _ _ _ Ha Ea) as Hk. destruct Htx as [->| ->]; [done|congruence]. }
  destruct w as [listed history assetId units to quote secs tx busy error awaited reloads].
  destruct e as [| | | | | |[[]|]|[q|]|[built|]|]; try exact Hw; cbn [exit_update].
  - destruct (exit_action _ SubmitQuote) as [a|] eqn:Ea; [apply Hask; auto|exact Hw].
  - destruct (exit_action _ BuildExit) as [a|] eqn:Ea; [apply Hask; auto|exact Hw].
  - destruct Hp as (f & rest & E & _). cbn in E. subst. unfold exit_ok in *. cbn in *. by destruct rest.
  - destruct Hp as (f & rest & E & _). cbn in E. subst. unfold exit_ok in *. cbn in *. by destruct rest.
  - destruct Hp as (f & rest & E & _). cbn in E. subst. unfold exit_ok in *. cbn in *. by destruct rest.
  - destruct Hp as (f & rest & E & _). cbn in E. subst. unfold exit_ok in *. cbn in *. by destruct rest.
  - unfold exit_ok in *. cbn in *. destruct awaited as [|f [|]]; [done|by destruct Hw|done].
Qed.

(** The quote shown is one the API answered, its seconds those at a moment since; the envelope shown is one
    the API answered. *)
Definition exit_shows (events : list (Z * ExitEvent)) w : Prop :=
  (forall q, xv_quote w = Some q ->
     (exists at_, In (at_, QuoteCame (inl q)) events) /\ exists at_ (e : ExitEvent), In (at_, e) events /\ xv_secondsLeft w = seconds_left at_ q) /\
  (forall tx, xv_tx w = Some tx -> exists at_, In (at_, ExitBuilt (inl tx)) events).

Lemma guarded_shows w tx a :
  xv_quote (guarded w tx a) = xv_quote w /\ xv_secondsLeft (guarded w tx a) = xv_secondsLeft w /\ xv_tx (guarded w tx a) = tx.
Proof. destruct w. unfold guarded. by destruct (asks a). Qed.

(** What a step does to the quote, its seconds and the envelope. *)
Lemma exit_update_shows now w e :
  (xv_quote (exit_update now w e) = xv_quote w /\ xv_secondsLeft (exit_update now w e) = xv_secondsLeft w \/
   xv_quote (exit_update now w e) = None \/
   (exists q, xv_quote (exit_update now w e) = Some q /\ xv_secondsLeft (exit_update now w e) = seconds_left now q /\
      (xv_quote w = Some q \/ e = QuoteCame (inl q)))) /\
  (xv_tx (exit_update now w e) = xv_tx w \/ xv_tx (exit_update now w e) = None \/ exists tx, xv_tx (exit_update now w e) = Some tx /\ e = ExitBuilt (inl tx)).
Proof.
  destruct w as [listed history assetId units to quote secs tx busy error awaited reloads].
  destruct e as [| | | | | |[[]|]|[q|]|[built|]|]; cbn [exit_update]; try (cbn; split; [by left|by left]).
  - destruct (exit_action _ _) as [a|]; [|split; by left]. destruct (guarded_shows (MkExit listed history assetId units to quote secs tx busy error awaited reloads) None a) as (-> & -> & ->).
    split; [by left|by right; left].
  - destruct (exit_action _ _) as [a|]; [|split; by left]. destruct (guarded_shows (MkExit listed history assetId units to quote secs tx busy error awaited reloads) tx a) as (-> & -> & ->).
    split; by left.
  - split; [|by left]. destruct quote as [q|]; [|by left]. right. right. exists q. auto.
  - split; [|by left]. right. right. exists q. auto.
  - split; [by left|]. right. right. by exists built.
  - split; [by right; left|by right; left].
Qed.

Lemma exit_keeps events w : exit_life events w -> exit_ok w /\ exit_shows events w.
Proof.
  induction 1 as [|events w now e Hl [IHok [IHq IHt]] Hp]; [by split; [|split]|]. split; [by apply exit_update_ok|].
  destruct (exit_update_shows now w e) as [Hq Ht]. split.
  - intros q Eq. setoid_rewrite in_app_iff. destruct Hq as [[Eq' Es]|[Eq'|(q' & Eq' & Es & Hfrom)]]; [|congruence|].
    + rewrite Eq' in Eq. destruct (IHq q Eq) as [[at_ ?] (at2 & e2 & ? & ?)]. split; [exists at_; by left|]. exists at2, e2. split; [by left|congruence].
    + rewrite Eq' in Eq. injection Eq as ->. split; [|exists now, e; split; [right; by left|done]].
      destruct Hfrom as [Hold| ->]; [|exists now; right; by left]. destruct (IHq q Hold) as [[at_ ?] _]. exists at_. by left.
  - intros tx Et. setoid_rewrite in_app_iff. destruct Ht as [Et'|[Et'|(tx' & Et' & ->)]]; [|congruence|].
    + rewrite Et' in Et. destruct (IHt tx Et) as [at_ ?]. exists at_. by left.
    + rewrite Et' in Et. injection Et as ->. exists now. right. by left.
Qed.

(** The exit page executes the quote it shows.  Take any history of it, the clock going as it likes.  It
    asks for one thing at a time; a quote is asked for a listed asset, and no envelope is open while it is.
    A click that builds an exit is for the quote on the page, which the API answered and which had not run
    out when its seconds were last counted, with a floor half a percent below the quote, to the account in
    the field.  And the envelope shown is one the API answered. *)
Theorem exit_executes_the_quote_shown events w e : exit_life events w -> exit_possible w e ->
  (forall a, exit_action w e = Some a -> xv_awaited w = [] /\
     match e with
     | SubmitQuote => exists asset, exit_asset w = Some asset /\ a = AskQuote (as_id asset) (xv_units w) /\ xv_units w <> ""
     | _ => exists q, xv_quote w = Some q /\ xv_to w <> "" /\ (exists at_, In (at_, QuoteCame (inl q)) events) /\
         (exists at_ (e' : ExitEvent), In (at_, e') events /\ forall t, Date_time (qr_expiresAt q) = Some t -> at_ + 500 <= t) /\
         forall f, asks a = Ok f -> exists out, BigInt (qr_usdcOut q) = Ok out /\ f = exitExecute (qr_id q) (Z.quot (out * 9950) 10000) (trim (xv_to w))
     end) /\
  (List.length (xv_awaited w) <= 1)%nat /\
  (forall f, In f (xv_awaited w) -> is_quote f = true -> xv_tx w = None) /\
  (forall tx, xv_tx w = Some tx -> exists at_, In (at_, ExitBuilt (inl tx)) events).
Proof.
  intros Hl Hp. destruct (exit_keeps events w Hl) as [Hok [Hq Ht]]. unfold exit_ok in Hok. split; [|split; [|split; [|exact Ht]]].
  - intros a Ha. destruct (exit_asks_possible w e a Ha Hp) as [Hb Hm].
    split; [destruct (xv_awaited w) as [|f [|]]; [done|destruct Hok; congruence|done]|].
    destruct e; try discriminate Ha; [exact Hm|]. destruct Hm as (q & Eq & -> & Hto & Hs).
    destruct (Hq q Eq) as [Hcame (at_ & e' & Hin & Es)]. exists q. split_and!; try done.
    + exists at_, e'. split; [done|]. intros t E. rewrite Es in Hs. unfold seconds_left in Hs. rewrite E in Hs. cbn in Hs.
      destruct (decide (at_ + 500 <= t)) as [|Hn]; [done|]. destruct Hs. f_equal. unfold round_thousandth.
      assert ((t - at_ + 500) / 1000 < 1) by (apply Z.div_lt_upper_bound; lia). lia.
    + cbn. unfold execute_click. intros f (out & Eo & [= <-])%obind_ok. by exists out.
  - destruct (xv_awaited w) as [|f [|]]; cbn; [lia|lia|done].
  - intros f Hin Hf. destruct (xv_awaited w) as [|f' [|]]; [done| |done]. destruct Hin as [->|[]]. by apply Hok.
Qed.
End Page.

(** ** A visit *)
Module ExitSample.
#[local] Instance plain_locale : LocaleLib := {| toLocaleString _ := "1" |}.
#[local] Instance plain_dates : ConsoleDates := {| Date_time := digits_value; Date_toLocaleString _ := "then" |}.

Definition me : Session := MkSession "token" "p1" "GSELLER".
Definition bond : AssetSummary := MkAssetSummary "a1" "BOND" "CBOND" "USD" "sep41" "escrow" 500 "active" None.
Definition quote_ : ExitQuoteResult := MkExitQuoteResult "q1" "a1" "1000000000" "10000000" 50 "995000000" "60000".

(** A quote is asked for and comes; half a minute later it is executed. *)
Definition visit : list (Z * ExitEvent) :=
  [(0, ExitCame (inl ([bond], []))); (100, TypeExitUnits "100"); (200, SubmitQuote); (300, QuoteCame (inl quote_)); (30000, ExitTick)].

Definition after (events : list (Z * ExitEvent)) : ExitState := foldl (fun w e => exit_update (fst e) w (snd e)) (exit_mounted me) events.

Lemma exit_after_app events now e : after (events ++ [(now, e)]) = exit_update now (after events) e.
Proof. unfold after. by rewrite foldl_app. Qed.
Lemma exit_lived events : (forall n now e, events !! n = Some (now, e) -> exit_possible (after (take n events)) e) -> exit_life me events (after events).
Proof.
  induction events as [|[now e] events IH] using rev_ind; intros Hp; [constructor|]. rewrite exit_after_app. apply exit_more.
  - apply IH. intros n now' e' E. specialize (Hp n now' e'). rewrite take_app_le in Hp by (apply lookup_lt_Some in E; lia). apply Hp. by apply lookup_app_l_Some.
  - specialize (Hp (length events) now e). rewrite take_app_length in Hp. apply Hp. by rewrite list_lookup_middle.
Qed.

Lemma exit_visited : exit_life me visit (after visit).
Proof.
  apply exit_lived. intros n now e E. repeat (destruct n as [|n]; [injection E as <- <-|]).
  - vm_compute. lia.
  - right. exists TypeExitUnits, "100". split; [vm_compute; auto|done].
  - left. vm_compute. auto.
  - vm_compute. eauto.
  - vm_compute. eauto.
  - discriminate E.
Qed.

(** Half of the minute is left; a minute later the quote has run out and nothing can be built. *)
Example seconds_run :
  xv_secondsLeft (after visit) = Some 30 /\ In BuildExit (clicks (ExitView (after visit))) /\
  xv_secondsLeft (exit_update 90000 (after visit) ExitTick) = Some 0 /\ clicks (ExitView (exit_update 90000 (after visit) ExitTick)) = [SubmitQuote; ChooseExitAsset "a1"].
Proof. vm_compute. tauto. Qed.

Lemma exit_executes_the_quote_shown_witness : exists q at_ e',
  xv_quote (after visit) = Some q /\ In (at_, e') visit /\ (forall t, Date_time (qr_expiresAt q) = Some t -> at_ + 500 <= t) /\
  forall f, asks (ExecuteQuote (shown quote_) "GSELLER") = Ok f ->
    exists out, BigInt (qr_usdcOut q) = Ok out /\ f = exitExecute (qr_id q) (Z.quot (out * 9950) 10000) (trim "GSELLER").
Proof.
  assert (Hp : exit_possible (after visit) BuildExit) by (left; vm_compute; auto).
  destruct (exit_executes_the_quote_shown me visit (after visit) BuildExit exit_visited Hp) as [H _].
  destruct (H (ExecuteQuote (shown quote_) "GSELLER") eq_refl) as (_ & q & Hq & _ & _ & (at_ & e' & Hin & Ht) & Hf).
  exists q, at_, e'. split_and!; assumption.
Defined.
End ExitSample.

(** * Repo *)
(** ** [ProposeForm] *)
Definition KINDS : list string := ["intraday"; "overnight"; "term"; "open"].

(** The terms as they were when the form was submitted; an infinite number is [None]. *)
Record ProposalTerms := MkProposalTerms {
  pt_assetId : string; pt_units : string; pt_cash : string; pt_rateBps : option Z; pt_termMs : option Z; pt_kind : string }.
Inductive ProposalStage := AwaitBorrower (account : string) (terms : ProposalTerms) | AwaitProposal (request : ApiRequest).

Record ProposeState := MkPropose {
  pf_borrower : string; pf_assetId : string; pf_units : string; pf_cash : string; pf_ratePct : string; pf_kind : string; pf_termHours : string;
  pf_busy : bool; pf_error : option string; pf_stages : list ProposalStage (** the submissions not answered yet *) }.
Definition propose_mounted : ProposeState := MkPropose "" "" "" "" "5" "intraday" "8" false None [].

Inductive ProposeEvent :=
| TypeCounterparty (s : string) | TypeUnits (s : string) | TypeCash (s : string) | TypeRepoRate (s : string) | TypeTerm (s : string)
| ChooseRepoAsset (id : string) | ChooseKind (kind : string)
| SubmitProposal
| BorrowerCame (answer : string + string)
| ProposalCame (answer : BuiltTx + string).

Section Proposing.
Context (session : Session) (listed : list AssetSummary).
Implicit Types (f : ProposeState) (e : ProposeEvent).

Definition propose_asset f : option AssetSummary := chosen_asset (pf_assetId f) listed.
Definition propose_rate f : double := mul (Number_of (pf_ratePct f)) (double_of 100).
Definition propose_term f : double := mul (Number_of (pf_termHours f)) (double_of 3600000).
Definition propose_valid f : bool :=
  bool_decide (is_Some (propose_asset f)) && negb (blank (trim (pf_borrower f))) && negb (blank (pf_units f)) && negb (blank (pf_cash f)) &&
  at_least_zero (propose_rate f) && above_zero (propose_term f).

Definition propose_with (busy : bool) (error : option string) (stages : list ProposalStage) f : ProposeState :=
  MkPropose (pf_borrower f) (pf_assetId f) (pf_units f) (pf_cash f) (pf_ratePct f) (pf_kind f) (pf_termHours f) busy error stages.

Definition propose_submit f : ProposeState :=
  match propose_asset f with
  | None => f
  | Some asset =>
      propose_with true None
        (pf_stages f ++ [AwaitBorrower (trim (pf_borrower f))
           (MkProposalTerms (as_id asset) (pf_units f) (pf_cash f) (Math_round (propose_rate f)) (Math_round (propose_term f)) (pf_kind f))]) f
  end.

(** The request once the party is known, at that time: the term runs from it.  Adding to the clock is exact
    up to the latest date there is. *)
Definition proposal_request (now : Z) (party : string) (t : ProposalTerms) : outcome ApiRequest :=
  units <-? toScaled (pt_units t) ;;
  cash <-? toScaled (pt_cash t) ;;
  maturityAt <-? Date_toISOString (Z.add now <$> pt_termMs t) ;;
  Ok (unwritten "rateBps" (pt_rateBps t)
        (api (repoPropose (ss_partyId session) party (pt_assetId t) units cash (default 0 (pt_rateBps t)) (pt_kind t) maturityAt))).

Definition propose_update (now : Z) f e : ProposeState * option BuiltTx :=
  let '(MkPropose borrower assetId units cash rate kind term busy error stages) := f in
  match e with
  | TypeCounterparty s => (MkPropose s assetId units cash rate kind term busy error stages, None)
  | ChooseRepoAsset id => (MkPropose borrower id units cash rate kind term busy error stages, None)
  | TypeUnits s => (MkPropose borrower assetId s cash rate kind term busy error stages, None)
  | TypeCash s => (MkPropose borrower assetId units s rate kind term busy error stages, None)
  | TypeRepoRate s => (MkPropose borrower assetId units cash s kind term busy error stages, None)
  | ChooseKind k => (MkPropose borrower assetId units cash rate k term busy error stages, None)
  | TypeTerm s => (MkPropose borrower assetId units cash rate kind s busy error stages, None)
  | SubmitProposal => (propose_submit f, None)
  | BorrowerCame (inr message) | ProposalCame (inr message) => (propose_with false (Some message) (tail stages) f, None)
  | BorrowerCame (inl party) =>
      match stages with
      | AwaitBorrower _ terms :: rest =>
          match proposal_request now party terms with
          | Ok request => (propose_with busy error (AwaitProposal request :: rest) f, None)
          | Err x => (propose_with false (Some (exn_message x)) rest f, None)
          end
      | _ => (f, None)
      end
  | ProposalCame (inl tx) => (propose_with false error (tail stages) f, Some tx)
  end.

Definition propose_input (label value placeholder : string) (typed : string -> ProposeEvent) : Html ProposeEvent :=
  Field label [Input [("placeholder", placeholder)] value typed].

Definition ProposeForm f : Html ProposeEvent :=
  panel_ "Propose repo / you lend cash"
    ([Form SubmitProposal
        [propose_input "Cash borrower account" (pf_borrower f) "G..." TypeCounterparty;
         Field "Collateral asset"
           [Select (default "" (as_id <$> propose_asset f)) (List.map (fun a => (as_id a, as_code a)) listed) ChooseRepoAsset];
         Field "Kind" [Select (pf_kind f) (List.map (fun k => (k, toUpperCase k)) KINDS) ChooseKind];
         propose_input "Collateral units" (pf_units f) "1000.00" TypeUnits;
         propose_input "Cash amount" (pf_cash f) "900.00" TypeCash;
         propose_input "Rate %" (pf_ratePct f) "" TypeRepoRate;
         propose_input "Term h" (pf_termHours f) "" TypeTerm;
         el "div" [Submit (pf_busy f || negb (propose_valid f)) [Txt (if pf_busy f then "BUILDING..." else "BUILD PROPOSAL TX")]]];
      p_ "/// Signing the proposal authorizes the contract to pay the cash out of your wallet when the borrower accepts."] ++
     error_line (pf_error f)).

Lemma propose_clicks f :
  clicks (ProposeForm f) =
    when (negb (pf_busy f || negb (propose_valid f))) [SubmitProposal] ++ List.map ChooseRepoAsset (List.map as_id listed) ++ List.map ChooseKind KINDS.
Proof.
  unfold ProposeForm, propose_input. ui_read. cbn [existsb submits]. rewrite orb_false_r, !List.map_map. cbn [fst].
  by destruct (pf_busy f || negb (propose_valid f)).
Qed.
Lemma propose_fields f : fields (ProposeForm f) = [TypeCounterparty; TypeUnits; TypeCash; TypeRepoRate; TypeTerm].
Proof. unfold ProposeForm, propose_input. by ui_read. Qed.

Definition propose_possible f e : Prop :=
  match e with
  | BorrowerCame _ => exists account t, hd_error (pf_stages f) = Some (AwaitBorrower account t)
  | ProposalCame _ => exists request, hd_error (pf_stages f) = Some (AwaitProposal request)
  | _ => offered (ProposeForm f) e
  end.

Lemma propose_submit_possible f : propose_possible f SubmitProposal -> pf_busy f = false /\ propose_valid f = true.
Proof.
  intros [Hc|(t & s & Ht & E)]; [|rewrite propose_fields in Ht; cbn in Ht; naive_solver].
  rewrite propose_clicks, !in_app_iff, in_when in Hc. destruct Hc as [[Hb _]|[(x & ? & _)%in_map_iff|(x & ? & _)%in_map_iff]]; [|done|done].
  apply negb_true_iff, orb_false_iff in Hb as [Hb Hv%negb_false_iff]. done.
Qed.

Lemma kind_possible f kind : propose_possible f (ChooseKind kind) -> In kind KINDS.
Proof.
  intros [Hc|(t & s & Ht & E)]; [|rewrite propose_fields in Ht; cbn in Ht; naive_solver].
  rewrite propose_clicks, !in_app_iff, in_when in Hc. destruct Hc as [[_ [?|[]]]|[(x & ? & _)%in_map_iff|(x & [= ->] & Hx)%in_map_iff]]; done.
Qed.

(** A submission is on its way exactly while the form says so, and there is one at most. *)
Definition propose_ok f : Prop :=
  In (pf_kind f) KINDS /\ match pf_stages f with [] => pf_busy f = false | [_] => pf_busy f = true | _ => False end.

Lemma propose_update_ok now f e : propose_ok f -> propose_possible f e -> propose_ok (fst (propose_update now f e)).
Proof.
  intros [Hk Hf] He. destruct e as [| | | | | |kind| |[party|message]|[tx|message]]; try (destruct f; by split).
  - apply kind_possible in He. destruct f. by split.
  - apply propose_submit_possible in He as [Hb _]. destruct f as [b a u c r k h busy error stages]. cbn in *.
    unfold propose_submit. destruct (propose_asset _); cbn; [|by split]. split; [done|]. cbn. destruct stages as [|? [|]]; [done|congruence|done].
  - destruct f as [b a u c r k h busy error stages]. destruct He as (account & t & Hs). cbn in *.
    destruct stages as [|x [|]]; [done| |done]. injection Hs as ->. cbn. by destruct (proposal_request now party t).
  - destruct f as [b a u c r k h busy error stages]. destruct He as (account & t & Hs). cbn in *. by destruct stages as [|x [|]].
  - destruct f as [b a u c r k h busy error stages]. destruct He as (q & Hs). cbn in *. by destruct stages as [|x [|]].
  - destruct f as [b a u c r k h busy error stages]. destruct He as (q & Hs). cbn in *. by destruct stages as [|x [|]].
Qed.

(** The terms a submission takes along. *)
Definition sane_proposal (t : ProposalTerms) : Prop :=
  pt_units t <> "" /\ pt_cash t <> "" /\ In (pt_kind t) KINDS /\ (forall r, pt_rateBps t = Some r -> 0 <= r) /\ (forall d, pt_termMs t = Some d -> 0 < d).

Lemma propose_valid_sane f asset : In (pf_kind f) KINDS -> propose_valid f = true ->
  trim (pf_borrower f) <> "" /\
  sane_proposal (MkProposalTerms (as_id asset) (pf_units f) (pf_cash f) (Math_round (propose_rate f)) (Math_round (propose_term f)) (pf_kind f)).
Proof.
  unfold propose_valid. rewrite !andb_true_iff. intros Hk [[[[[_ Hb] Hu] Hc] Hr] Ht].
  apply negb_true_iff, bool_decide_eq_false in Hb, Hu, Hc. unfold sane_proposal. cbn. split_and!; try done.
  - intros r E. unfold at_least_zero in Hr. destruct (propose_rate f); try discriminate E; rewrite E in Hr; by apply Z.leb_le in Hr.
  - intros d E. unfold above_zero in Ht. destruct (propose_term f); try discriminate E; rewrite E in Ht; by apply Z.ltb_lt in Ht.
Qed.

(** What is asked of the API is the proposal of the page's actions, maturing the term after now. *)
Lemma proposal_is_the_click now party t request : proposal_request now party t = Ok request ->
  exists term maturityAt q, pt_termMs t = Some term /\ Date_toISOString (Some (now + term)) = Ok maturityAt /\
    asks (ProposeRepo (ss_partyId session) party (pt_assetId t) (pt_units t) (pt_cash t) (default 0 (pt_rateBps t)) (pt_kind t) maturityAt) = Ok q /\
    request = unwritten "rateBps" (pt_rateBps t) (api q).
Proof.
  unfold proposal_request. intros (n & En & (c & Ec & (m & Em & [= <-])%obind_ok)%obind_ok)%obind_ok.
  destruct (pt_termMs t) as [term|]; [|done]. exists term, m. eexists. split; [done|]. split; [done|].
  cbn. unfold propose_click. rewrite En, Ec. done.
Qed.
End Proposing.

(** ** The page *)
(** [rv_now] is the clock when the page was last rendered, [rv_awaited] the requests of the trades' buttons
    on their way, [rv_reloads] the number of refreshes on theirs. *)
Record RepoState := MkRepo {
  rv_assets : list AssetSummary; rv_trades : list RepoTradeRow; rv_topUps : gmap string string; rv_tx : option BuiltTx;
  rv_busyId : option string; rv_error : option string; rv_loading : bool; rv_awaited : list ApiFunction; rv_reloads : nat;
  rv_form : ProposeState; rv_now : Z }.

Inductive RepoEvent :=
| TypeTopUp (id s : string)
| ClickAccept (id : string) | ClickTopUp (id : string) | ClickUnwind (id : string)
| RepoCame (answer : (list AssetSummary * list RepoTradeRow) + string)
| TradeBuilt (i : nat) (answer : BuiltTx + string)
| OnProposal (e : ProposeEvent)
| DismissTrade.

Definition STATUS_TONE (status : string) : string :=
  match status with
  | "proposed" => "text-fg border-fg" | "settled" => "text-ok border-ok" | "unwound" => "text-fg-dim border-line"
  | "failed" => "text-accent border-accent" | _ => "text-fg-dim border-line"
  end.

Section Page.
Context `{LocaleLib, ConsoleDates} (session : Session).
Implicit Types (w : RepoState) (e : RepoEvent).

Definition repo_action w e : option Action :=
  match e with
  | ClickAccept id => Some (AcceptRepo id)
  | ClickTopUp id => Some (TopUpRepo id (default "" (rv_topUps w !! id)))
  | ClickUnwind id => Some (UnwindRepo id)
  | _ => None
  end.
Definition trade_event e : string := match e with ClickAccept id | ClickTopUp id | ClickUnwind id => id | _ => "" end.

(** [build]. *)
Definition repo_build w (id : string) (a : Action) (now : Z) : RepoState :=
  let '(MkRepo listed trades topUps tx busyId error loading awaited reloads form _) := w in
  match asks a with
  | Ok f => MkRepo listed trades topUps tx (Some id) None loading (awaited ++ [f]) reloads form now
  | Err x => MkRepo listed trades topUps tx None (Some (exn_message x)) loading awaited reloads form now
  end.

(** What happens at a time, after which the page is rendered anew. *)
Definition repo_update (now : Z) w e : RepoState :=
  let '(MkRepo listed trades topUps tx busyId error loading awaited reloads form _) := w in
  match e with
  | TypeTopUp id s => MkRepo listed trades (<[id := s]> topUps) tx busyId error loading awaited reloads form now
  | ClickAccept _ | ClickTopUp _ | ClickUnwind _ =>
      match repo_action w e with Some a => repo_build w (trade_event e) a now | None => w end
  | RepoCame (inl (listed', trades')) => MkRepo listed' trades' topUps tx busyId error false awaited (pred reloads) form now
  | RepoCame (inr message) => MkRepo listed trades topUps tx busyId (Some message) false awaited (pred reloads) form now
  | TradeBuilt i (inl built) => MkRepo listed trades topUps (Some built) None error loading (delete i awaited) reloads form now
  | TradeBuilt i (inr message) => MkRepo listed trades topUps tx None (Some message) loading (delete i awaited) reloads form now
  | OnProposal e' =>
      let '(form', built) := propose_update session listed now form e' in
      MkRepo listed trades topUps (match built with Some tx' => Some tx' | None => tx end) busyId error loading awaited reloads form' now
  | DismissTrade => MkRepo listed trades topUps None busyId error loading awaited (S reloads) form now
  end.
Definition repo_mounted (now : Z) : RepoState := MkRepo [] [] ∅ None None None true [] 1 propose_mounted now.

(** ** What it shows *)
Definition is_borrower (trade : RepoTradeRow) : bool := eqs (tr_cashBorrowerId trade) (ss_partyId session).
(** [new Date(maturityAt).getTime() <= Date.now()]: no date is not past. *)
Definition matured w (trade : RepoTradeRow) : bool := match Date_time (tr_maturityAt trade) with Some t => t <=? rv_now w | None => false end.
Definition building_ w (trade : RepoTradeRow) : bool := bool_decide (rv_busyId w = Some (tr_id trade)).

Definition trade_buttons w (trade : RepoTradeRow) : list (Html RepoEvent) :=
  let id := tr_id trade in
  when (accept_shown (tr_status trade) (is_borrower trade) (matured w trade) (tr_contractTradeId trade))
    [Click (building_ w trade) (ClickAccept id) [Txt "Accept"]] ++
  when (eqs (tr_status trade) "settled" && is_borrower trade && negb (matured w trade))
    [Input [("placeholder", "add units"); ("aria-label", "Units of collateral to add")] (default "" (rv_topUps w !! id)) (TypeTopUp id);
     Click (building_ w trade || blank (default "" (rv_topUps w !! id))) (ClickTopUp id) [Txt "Add collateral"]] ++
  when (unwind_shown (tr_status trade) (matured w trade)) [Click (building_ w trade) (ClickUnwind id) [Txt "Unwind"]].

Definition repo_trade w (trade : RepoTradeRow) : Html RepoEvent :=
  let code := default "UNITS" (as_code <$> find_asset (tr_assetId trade) (rv_assets w)) in
  el "div"
    [span [Txt ("TRADE / " +:+ short_id (tr_id trade)); br; span [Txt (if is_borrower trade then "YOU BORROW CASH" else "YOU LEND CASH")]];
     span [Txt "CASH "; span [Txt (formatDecimalString (tr_cashAmount trade) "")]; br; Txt "RATE "; span [Txt (bpsToPercent (tr_rateBps trade))]];
     span [Txt "COLLATERAL"; br; span [Txt (formatDecimalString (tr_units trade) "" +:+ " " +:+ code)]];
     span [Txt (toUpperCase (tr_kind trade) +:+ " / MATURES"); br;
           El "time" [("dateTime", tr_maturityAt trade); ("class", if matured w trade then "text-fg" else "text-fg-dim")]
             [Txt (Date_toLocaleString (Date_time (tr_maturityAt trade)))]];
     el "div"
       (toned "span" (STATUS_TONE (tr_status trade))
          [Txt (if eqs (tr_status trade) "proposed" && negb (given (tr_contractTradeId trade)) then "unsigned" else tr_status trade)] ::
        trade_buttons w trade)].

Definition RepoView w : Html RepoEvent :=
  el "div"
    ([html_map OnProposal (ProposeForm (rv_assets w) (rv_form w))] ++
     error_line (rv_error w) ++
     when_some (rv_tx w) (fun tx => [Envelope (bt_xdr tx) (bt_txHash tx) DismissTrade]) ++
     [panel_ "Trades"
        (when (rv_loading w) [p_ "LOADING..."] ++
         when (negb (rv_loading w) && bool_decide (rv_trades w = [])) [p_ "No repo trades on this account."] ++
         [el "div" (List.map (repo_trade w) (rev (rv_trades w)))])]).

Definition repo_possible w e : Prop :=
  match e with
  | RepoCame _ => (0 < rv_reloads w)%nat
  | TradeBuilt i _ => (i < List.length (rv_awaited w))%nat
  | OnProposal e' => propose_possible (rv_assets w) (rv_form w) e'
  | _ => offered (RepoView w) e
  end.

(** The clock may go anywhere between two events. *)
Inductive repo_life : list (Z * RepoEvent) -> RepoState -> Prop :=
| repo_start now : repo_life [] (repo_mounted now)
| repo_more events w now e : repo_life events w -> repo_possible w e -> repo_life (events ++ [(now, e)]) (repo_update now w e).

(** ** What can be clicked on it *)
Lemma trade_reads w trade :
  clicks (repo_trade w trade) =
    when (accept_shown (tr_status trade) (is_borrower trade) (matured w trade) (tr_contractTradeId trade))
      (if building_ w trade then [] else [ClickAccept (tr_id trade)]) ++
    when (eqs (tr_status trade) "settled" && is_borrower trade && negb (matured w trade))
      (if building_ w trade || blank (default "" (rv_topUps w !! tr_id trade)) then [] else [ClickTopUp (tr_id trade)]) ++
    when (unwind_shown (tr_status trade) (matured w trade)) (if building_ w trade then [] else [ClickUnwind (tr_id trade)]) /\
  fields (repo_trade w trade) = when (eqs (tr_status trade) "settled" && is_borrower trade && negb (matured w trade)) [TypeTopUp (tr_id trade)].
Proof. unfold repo_trade, trade_buttons. cbv zeta. split; by ui_read. Qed.

Lemma repo_offers_trade w e a : repo_action w e = Some a -> offered (RepoView w) e ->
  exists trade, In trade (rv_trades w) /\ offered (repo_trade w trade) e.
Proof.
  intros Ha. unfold RepoView. intros (h & Hin & Ho)%offered_El. rewrite !in_app_iff in Hin.
  destruct Hin as [[<-|[]]|[Hin|[Hin|[<-|[]]]]].
  - exfalso. by apply offered_html_map in Ho as (e' & _ & ->).
  - exfalso. unfold error_line, when_text in Hin. destruct (rv_error _) as [[|]|]; [done| |done]. destruct Hin as [<-|[]].
    by destruct Ho as [[]|(? & ? & [] & _)].
  - exfalso. unfold when_some in Hin. destruct (rv_tx w); [|done]. destruct Hin as [<-|[]]. destruct Ho as [[<-|[]]|(? & ? & [] & _)]. done.
  - assert (Hl : offered (el "div" (List.map (repo_trade w) (rev (rv_trades w)))) e).
    { revert Ho. unfold offered. cbn [clicks fields panel_ el flat_map span app]. rewrite !flat_map_app, !read_when, !app_nil_r. cbn. by rewrite !when_nil, !app_nil_r. }
    apply offered_El in Hl as (h & (trade & <- & Ht)%in_map_iff & Hl). exists trade. split; [by apply in_rev|done].
Qed.

Definition maturing w (trade : RepoTradeRow) : Prop := forall t, Date_time (tr_maturityAt trade) = Some t -> rv_now w < t.
Lemma matured_no w trade : matured w trade = false -> maturing w trade.
Proof. unfold matured, maturing. intros Hm t E. rewrite E in Hm. lia. Qed.

Lemma repo_offers w e a : repo_action w e = Some a -> offered (RepoView w) e ->
  exists trade, In trade (rv_trades w) /\ tr_id trade = trade_event e /\ rv_busyId w <> Some (tr_id trade) /\
    match a with
    | AcceptRepo _ => tr_status trade = "proposed" /\ tr_cashBorrowerId trade = ss_partyId session /\ given (tr_contractTradeId trade) = true /\ maturing w trade
    | TopUpRepo _ units => tr_status trade = "settled" /\ tr_cashBorrowerId trade = ss_partyId session /\ units <> "" /\ maturing w trade
    | UnwindRepo _ => tr_status trade = "settled" /\ exists t, Date_time (tr_maturityAt trade) = Some t /\ t <= rv_now w
    | _ => False
    end.
Proof.
  intros Ha Ho. destruct (repo_offers_trade w e a Ha Ho) as (trade & Hin & [Hc|(t & s & Ht & ->)]); destruct (trade_reads w trade) as [Ec Ef].
  2: { rewrite Ef, in_when in Ht. destruct Ht as [_ [<-|[]]]. done. }
  exists trade. split; [done|]. rewrite Ec, !in_app_iff, !in_when in Hc. unfold building_, eqs in Hc.
  destruct Hc as [[Hs Hc]|[[Hs Hc]|[Hs Hc]]].
  - case_bool_decide as Hb; [done|]. destruct Hc as [<-|[]]. injection Ha as <-. unfold accept_shown in Hs. rewrite !andb_true_iff in Hs.
    destruct Hs as [[[Hst%bool_decide_eq_true Hbo%bool_decide_eq_true] Hg] Hm%negb_true_iff%matured_no]. by split_and!.
  - case_bool_decide as Hb; [done|]. cbn [orb] in Hc. destruct (blank _) eqn:Eu; [done|]. apply bool_decide_eq_false in Eu. destruct Hc as [<-|[]]. injection Ha as <-.
    rewrite !andb_true_iff in Hs. destruct Hs as [[Hst%bool_decide_eq_true Hbo%bool_decide_eq_true] Hm%negb_true_iff%matured_no]. by split_and!.
  - case_bool_decide as Hb; [done|]. destruct Hc as [<-|[]]. injection Ha as <-. unfold unwind_shown in Hs.
    apply andb_true_iff in Hs as [Hst%bool_decide_eq_true Hm]. split_and!; try done. unfold matured in Hm.
    destruct (Date_time (tr_maturityAt trade)) as [t|]; [|done]. exists t. split; [done|lia].
Qed.

(** ** What is on its way *)
Definition proposal_stage_sane (events : list (Z * RepoEvent)) (stage : ProposalStage) : Prop :=
  match stage with
  | AwaitBorrower account t => account <> "" /\ sane_proposal t
  | AwaitProposal request => exists now party t,
      In (now, OnProposal (BorrowerCame (inl party))) events /\ proposal_request session now party t = Ok request /\ sane_proposal t
  end.

Lemma proposal_stage_more events (e : Z * RepoEvent) stage : proposal_stage_sane events stage -> proposal_stage_sane (events ++ [e]) stage.
Proof. destruct stage; cbn; [done|]. intros (now & party & t & Hin & ?). exists now, party, t. split; [apply in_app_iff; by left|done]. Qed.

Lemma propose_stages_sane events listed now f (e : ProposeEvent) :
  propose_ok f -> Forall (proposal_stage_sane events) (pf_stages f) -> propose_possible listed f e ->
  Forall (proposal_stage_sane (events ++ [(now, OnProposal e)])) (pf_stages (fst (propose_update session listed now f e))).
Proof.
  intros [Hk _] Hs He.
  assert (Hold : Forall (proposal_stage_sane (events ++ [(now, OnProposal e)])) (pf_stages f)) by (eapply Forall_impl; [exact Hs|intros; by apply proposal_stage_more]).
  assert (Htail : Forall (proposal_stage_sane (events ++ [(now, OnProposal e)])) (tail (pf_stages f))) by (destruct (pf_stages f); [constructor|by inversion Hold]).
  destruct e as [| | | | | | | |[party|message]|[tx|message]]; try (by destruct f).
  - apply propose_submit_possible in He as [_ Hv]. destruct f as [b a u c r k h busy error stages]. cbn [propose_update fst]. unfold propose_submit.
    destruct (propose_asset listed _) as [asset|] eqn:Ea; [|exact Hold]. cbn [propose_with pf_stages]. apply Forall_app. split; [exact Hold|].
    apply Forall_singleton. exact (propose_valid_sane listed _ asset Hk Hv).
  - destruct f as [b a u c r k h busy error stages]. cbn in *. destruct stages as [|[account t|q] rest]; try exact Hold.
    apply Forall_cons in Hold as [[Ha Ht] Hr]. destruct (proposal_request session now party t) as [q|] eqn:Eq; cbn; [|exact Hr]. constructor; [|exact Hr].
    exists now, party, t. split; [apply in_app_iff; right; by left|done].
Qed.

Definition trade_envelope_came (events : list (Z * RepoEvent)) (tx : BuiltTx) : Prop :=
  exists now, (exists i, In (now, TradeBuilt i (inl tx)) events) \/ In (now, OnProposal (ProposalCame (inl tx))) events.

Lemma propose_of_update now w e : (forall (e' : ProposeEvent), e <> OnProposal e') -> rv_form (repo_update now w e) = rv_form w.
Proof.
  intros Hf. destruct w. destruct e as [| | | |[[]|]|i [|]|e'|]; try done; try (by destruct (Hf e')); cbn -[asks]; by destruct (asks _).
Qed.

Lemma propose_built now listed f (e : ProposeEvent) tx : snd (propose_update session listed now f e) = Some tx -> e = ProposalCame (inl tx).
Proof.
  destruct f as [b a u c r k h busy error stages]. destruct e as [| | | | | | | |[party|message]|[tx'|message]]; cbn; try done; [|by intros [= ->]].
  destruct stages as [|[account t|q] rest]; try done. by destruct (proposal_request session now party t).
Qed.

Lemma repo_tx_of_update now w e tx : rv_tx (repo_update now w e) = Some tx -> rv_tx w = Some tx \/ trade_envelope_came [(now, e)] tx.
Proof.
  destruct w as [listed trades topUps tx0 busyId error loading awaited reloads form at_]. unfold trade_envelope_came.
  destruct e as [| | | |[[]|]|i [built|message]|e'|]; cbn -[asks]; try (by left); try done; try (destruct (asks _); by left).
  - intros [= ->]. right. exists now. left. exists i. by left.
  - pose proof (propose_built now listed form e') as Hb. destruct (propose_update session listed now form e') as [form' [tx'|]]; cbn in *; [|by left].
    intros [= ->]. right. exists now. right. left. by rewrite (Hb tx eq_refl).
Qed.

Lemma repo_keeps events w : repo_life events w ->
  propose_ok (rv_form w) /\ Forall (proposal_stage_sane events) (pf_stages (rv_form w)) /\
  forall tx, rv_tx w = Some tx -> trade_envelope_came events tx.
Proof.
  induction 1 as [now|events w now e Hl (IHf & IHs & IHt) Hp]; [split_and!; [|constructor|done]; by split; [left|]|].
  assert (Hform : (exists e' : ProposeEvent, e = OnProposal e') \/ forall (e' : ProposeEvent), e <> OnProposal e') by (destruct e; eauto).
  assert (Htx : forall tx, rv_tx (repo_update now w e) = Some tx -> trade_envelope_came (events ++ [(now, e)]) tx).
  { unfold trade_envelope_came in *. intros tx [Ht%IHt|Ht]%repo_tx_of_update; setoid_rewrite in_app_iff; [|unfold trade_envelope_came in Ht]; naive_solver. }
  destruct Hform as [[e' ->]|Hno]; [|rewrite propose_of_update by done; split_and!; [done| |done]; eapply Forall_impl; [exact IHs|intros; by apply proposal_stage_more]].
  cbn in Hp. pose proof (propose_stages_sane events (rv_assets w) now (rv_form w) e' IHf IHs Hp) as Hs.
  pose proof (propose_update_ok session (rv_assets w) now (rv_form w) e' IHf Hp) as Hf. clear Hp IHf IHs IHt.
  split_and!; [| |exact Htx]; destruct w as [listed trades topUps tx0 busyId error loading awaited reloads form at_]; cbn in *;
    by destruct (propose_update session listed now form e').
Qed.

(** The repo page asks only what the trade it shows allows.  Take any history of it, the clock going as it
    likes.  A trade's button asks the API about a trade of the positions last answered that is not being
    asked about: the cash borrower accepts a proposal that is on the chain, or adds collateral to a settled
    trade, while the page was last rendered before the maturity, and a settled trade is unwound once it was
    rendered after.  A proposal is made with the party as the cash lender, to the cash borrower the API found,
    with terms typed into the form, maturing the term after the borrower was found.  And an envelope shown is
    one the API answered. *)
Theorem repo_asks_what_the_trade_allows events w e : repo_life events w -> repo_possible w e ->
  (forall a, repo_action w e = Some a ->
     exists trade, In trade (rv_trades w) /\ tr_id trade = trade_event e /\ rv_busyId w <> Some (tr_id trade) /\
       match a with
       | AcceptRepo _ => tr_status trade = "proposed" /\ tr_cashBorrowerId trade = ss_partyId session /\ given (tr_contractTradeId trade) = true /\ maturing w trade
       | TopUpRepo _ units => tr_status trade = "settled" /\ tr_cashBorrowerId trade = ss_partyId session /\ units <> "" /\ maturing w trade
       | UnwindRepo _ => tr_status trade = "settled" /\ exists t, Date_time (tr_maturityAt trade) = Some t /\ t <= rv_now w
       | _ => False
       end) /\
  (forall request, In (AwaitProposal request) (pf_stages (rv_form w)) ->
     exists now party t term maturityAt q, In (now, OnProposal (BorrowerCame (inl party))) events /\ sane_proposal t /\
       pt_termMs t = Some term /\ Date_toISOString (Some (now + term)) = Ok maturityAt /\
       asks (ProposeRepo (ss_partyId session) party (pt_assetId t) (pt_units t) (pt_cash t) (default 0 (pt_rateBps t)) (pt_kind t) maturityAt) = Ok q /\
       request = unwritten "rateBps" (pt_rateBps t) (api q)) /\
  (forall tx, rv_tx w = Some tx -> trade_envelope_came events tx).
Proof.
  intros Hl Hp. destruct (repo_keeps events w Hl) as (_ & Hs & Ht). split; [|split; [|exact Ht]].
  - intros a Ha. apply repo_offers; [done|]. by destruct e.
  - intros request Hin%list_elem_of_In. apply (proj1 (Forall_forall _ _) Hs) in Hin as (now & party & t & Hin & Hq & Ht').
    apply proposal_is_the_click in Hq as (term & m & q & ? & ? & ? & ?). by exists now, party, t, term, m, q.
Qed.
End Page.

(** ** Visits *)
Module RepoSample.
#[local] Instance plain_locale : LocaleLib := {| toLocaleString _ := "1" |}.
#[local] Instance plain_dates : ConsoleDates := {| Date_time := digits_value; Date_toLocaleString _ := "then" |}.

Definition me : Session := MkSession "token" "p1" "GBORROWER".
Definition trade (id status : string) : RepoTradeRow := MkRepoTradeRow id "p2" "p1" "a1" "10" "9" 500 "intraday" "1000" status (Some "0").
Definition bond : AssetSummary := MkAssetSummary "a1" "BOND" "CBOND" "USD" "sep41" "escrow" 500 "active" None.
Definition built (hash : string) : BuiltTx := MkBuiltTx "AAAA" hash None.

(** A trade is accepted, collateral is added to another while the first envelope waits for its signature,
    and a proposal is made meanwhile. *)
Definition visit : list (Z * RepoEvent) :=
  [(10, RepoCame (inl ([bond], [trade "t1" "proposed"; trade "t2" "settled"]))); (20, ClickAccept "t1"); (30, TradeBuilt 0 (inl (built "accept")));
   (40, TypeTopUp "t2" "5"); (50, ClickTopUp "t2"); (60, TradeBuilt 0 (inl (built "top-up")));
   (70, OnProposal (TypeCounterparty "GC")); (80, OnProposal (TypeUnits "100")); (90, OnProposal (TypeCash "90")); (100, OnProposal SubmitProposal);
   (110, OnProposal (BorrowerCame (inl "p3"))); (120, OnProposal (ProposalCame (inl (built "proposal")))); (2000, DismissTrade)].

Definition after (events : list (Z * RepoEvent)) : RepoState := foldl (fun w e => repo_update me (fst e) w (snd e)) (repo_mounted 0) events.

Lemma repo_after_app events now e : after (events ++ [(now, e)]) = repo_update me now (after events) e.
Proof. unfold after. by rewrite foldl_app. Qed.
Lemma repo_lived events : (forall n now e, events !! n = Some (now, e) -> repo_possible me (after (take n events)) e) -> repo_life me events (after events).
Proof.
  induction events as [|[now e] events IH] using rev_ind; intros Hp; [constructor|]. rewrite repo_after_app. apply repo_more.
  - apply IH. intros n now' e' E. specialize (Hp n now' e'). rewrite take_app_le in Hp by (apply lookup_lt_Some in E; lia). apply Hp. by apply lookup_app_l_Some.
  - specialize (Hp (length events) now e). rewrite take_app_length in Hp. apply Hp. by rewrite list_lookup_middle.
Qed.

Ltac pick := (left; reflexivity) + (right; pick).
(** Each event is what the page offers at that point, or an answer it waits for. *)
Ltac each_possible :=
  apply repo_lived; intros n now e E;
  repeat (destruct n as [|n]; [injection E as <- <-; first
    [ solve [left; vm_compute; tauto] | solve [vm_compute; lia] | solve [vm_compute; eauto]
    | solve [vm_compute; right; eexists; eexists; split; [pick|reflexivity]] ]|]); discriminate E.

Lemma repo_visited : repo_life me visit (after visit).
Proof. each_possible. Qed.

(** Each envelope replaces the one before it, signed or not, which is lost from view; the settled trade is
    unwound once a rendering finds it matured. *)
Example envelopes_replaced :
  List.map (fun n => bt_txHash <$> rv_tx (after (take n visit))) [3%nat; 6%nat; 12%nat] = [Some "accept"; Some "top-up"; Some "proposal"] /\
  clicks (El "div" [] (trade_buttons me (after visit) (trade "t2" "settled"))) = [ClickUnwind "t2"].
Proof. vm_compute. auto. Qed.

Lemma repo_asks_what_the_trade_allows_witness : exists request now party t term maturityAt q,
  rv_form (after (take 11 visit)) = MkPropose "GC" "" "100" "90" "5" "intraday" "8" true None [AwaitProposal request] /\
  In (now, OnProposal (BorrowerCame (inl party))) (take 11 visit) /\ sane_proposal t /\ pt_termMs t = Some term /\
  Date_toISOString (Some (now + term)) = Ok maturityAt /\ request = unwritten "rateBps" (pt_rateBps t) (api q).
Proof.
  assert (Hl : repo_life me (take 11 visit) (after (take 11 visit))) by each_possible.
  assert (Hp : repo_possible me (after (take 11 visit)) (OnProposal (ProposalCame (inl (built "proposal"))))) by (vm_compute; eauto).
  destruct (repo_asks_what_the_trade_allows me _ _ _ Hl Hp) as (_ & H & _).
  destruct (pf_stages (rv_form (after (take 11 visit)))) as [|[|request] []] eqn:E; try (vm_compute in E; discriminate E).
  destruct (H request) as (now & party & t & term & m & q & Hin & Ht & Et & Em & _ & Eq); [by left|].
  exists request, now, party, t, term, m, q. split_and!; try assumption.
  vm_compute in E. injection E as <-. by vm_compute.
Defined.
End RepoSample.
