(* ===== verification/ConsoleFrame.v ===== *)
(** The console around its pages: what is started ([apps/console/src/main.tsx]), the routes ([App.tsx]), the
    frame with its tabs ([pages/ConsoleShell.tsx]), the login page ([pages/Login.tsx]) and what is shown when
    rendering fails ([components/ErrorBoundary.tsx], [ConfigError.tsx]).  And the public page of prices, refreshed every minute ([pages/Markets.tsx]). *)
From S2P Require Import Prelude Floats Prog Memory Webhooks Server Console ConsolePages ConsoleUi ConsoleSafety.

(** * The price page *)
Section Row.
Context `{NumberLib} {E : Type}.
Notation Html := (Html E).

Definition STALE_AFTER_S : Z := 6 * 3600.
Definition STATUS_CLASS (status : string) : string :=
  match status with
  | "Ok" => "text-ok border-ok" | "Degraded" => "text-fg border-fg" | "Halted" => "text-accent border-accent"
  | _ => "border-line text-fg-dim"
  end.
Definition explorer (network : string) : string :=
  if eqs network "mainnet" then "https://stellar.expert/explorer/public" else "https://stellar.expert/explorer/testnet".

Definition stale (reading : MarketReading) : bool := STALE_AFTER_S <? mr_ageS reading.

Definition Reading (label : string) (reading : option MarketReading) : Html :=
  el "div"
    [el "dt" [Txt label];
     match reading with
     | Some r =>
         el "dd"
           [El "data" [("value", mr_value r)] [Txt (toFixed (Number_of (mr_value r)) 6)];
            toned "span" (if stale r then "text-accent" else "text-fg-dim")
              [Txt (formatAge (mr_ageS r) +:+ " old" +:+ (if stale r then " / STALE" else ""))]]
     | None => el "dd" [Txt "NO READING"]
     end].

(** [market.guarded?.value ?? issuerNav?.value ?? redstone?.value ?? null]. *)
Definition headline (market : Market) : option string :=
  match gp_value <$> mk_guarded market with
  | Some v => Some v
  | None => match mr_value <$> mk_issuerNav market with Some v => Some v | None => mr_value <$> mk_redstone market end
  end.

Definition guard_badge (market : Market) : Html :=
  let status := gp_status <$> mk_guarded market in
  toned "span" (if given status then STATUS_CLASS (default "" status) else "border-line text-fg-dim")
    [Txt (if given status then "GUARD: " +:+ default "" status else "SHADOW / NOT ON-CHAIN")].

Definition price_shown (market : Market) : Html :=
  el "div"
    [p_ (match mk_guarded market with Some _ => "Guarded price (on-chain)" | None => "Latest reading" end);
     if given (headline market) then
       El "data" [("value", default "" (headline market))] [Txt (toFixed (Number_of (default "" (headline market))) 4)]
     else p_ "NO DATA YET";
     p_ (match mk_guarded market with
         | Some g => "PUBLISHED " +:+ formatAge (gp_ageS g) +:+ " AGO"
         | None => "WATCHED OFF-CHAIN. NO GUARDED PRICE PUBLISHED."
         end)].

Definition source_spread (market : Market) : Html :=
  el "div"
    [el "dt" [Txt "Source spread"];
     el "dd"
       (match mk_divergenceBps market with
        | Some bps =>
            [toned "span" (if mk_priceBandBps market <? bps then "text-accent" else "") [Txt (Z_to_string bps +:+ " bps")];
             span [Txt ("BAND " +:+ Z_to_string (mk_priceBandBps market) +:+ " bps")]]
        | None => [span [Txt (Z_to_string (mk_sourceCount market) +:+ " OF 2 SOURCES")]]
        end)].

Definition MarketRow (network : string) (market : Market) : Html :=
  let base := explorer network in
  el "article"
    [el "header" [el "h2" [Txt ("[ " +:+ mk_code market +:+ " / " +:+ mk_ccy market +:+ " ]")]; guard_badge market];
     el "div"
       [price_shown market;
        el "dl" [Reading "Issuer NAV" (mk_issuerNav market); Reading "RedStone feed" (mk_redstone market); source_spread market]];
     el "footer"
       [link (base +:+ "/asset/" +:+ mk_code market +:+ "-" +:+ mk_issuer market) [Txt ("ISSUER " +:+ shortAddress (mk_issuer market) +:+ " >>>")];
        link (base +:+ "/contract/" +:+ mk_contract market) [Txt ("SAC " +:+ shortAddress (mk_contract market) +:+ " >>>")];
        span [Txt ("SOURCE / " +:+ toUpperCase (mk_issuerCode market))]]].

(** What a market's figures are. *)
Definition readings_of (market : Market) : list string :=
  option_list (gp_value <$> mk_guarded market) ++ option_list (mr_value <$> mk_issuerNav market) ++ option_list (mr_value <$> mk_redstone market).

Lemma row_figures network market v : In v (figures (MarketRow network market)) -> In v (readings_of market).
Proof.
  unfold MarketRow, guard_badge, price_shown, source_spread, Reading, readings_of, headline.
  destruct (mk_guarded market) as [g|], (mk_issuerNav market) as [n|], (mk_redstone market) as [r|], (mk_divergenceBps market);
    cbn; repeat match goal with |- context [match ?s with EmptyString => _ | String _ _ => _ end] => destruct s end; cbn; tauto.
Qed.

(** A market without a price on the chain says so, and one with a price shows that one first. *)
Lemma row_says_where_it_stands network market :
  match mk_guarded market with
  | None => In "SHADOW / NOT ON-CHAIN" (words (MarketRow network market)) /\
            In "WATCHED OFF-CHAIN. NO GUARDED PRICE PUBLISHED." (words (MarketRow network market))
  | Some g => gp_status g <> "" -> gp_value g <> "" ->
      In ("GUARD: " +:+ gp_status g) (words (MarketRow network market)) /\ hd_error (figures (MarketRow network market)) = Some (gp_value g)
  end.
Proof.
  destruct (mk_guarded market) as [g|] eqn:Eg.
  - intros Hs Hv. unfold MarketRow, guard_badge, price_shown, headline. rewrite Eg. cbn.
    destruct (gp_status g) as [|c s]; [done|]. destruct (gp_value g) as [|d v]; [done|]. cbn. auto.
  - unfold MarketRow, guard_badge, price_shown. rewrite Eg. cbn. split; [auto|].
    destruct (given (headline market)); cbn; auto 10.
Qed.
End Row.

(** ** The page *)
Record MarketsState := MkMarketsState { mp_data : option MarketsResult; mp_error : option string; mp_awaited : nat }.
Inductive MarketsEvent := MarketsTick | MarketsCame (result : MarketsResult) | MarketsThrew (message : string).

Definition markets_mounted : MarketsState := MkMarketsState None None 1.
(** An answer after the page was left changes nothing: the page is no more. *)
Definition markets_update (s : MarketsState) (e : MarketsEvent) : MarketsState :=
  match e with
  | MarketsTick => MkMarketsState (mp_data s) (mp_error s) (S (mp_awaited s))
  | MarketsCame result => MkMarketsState (Some result) None (pred (mp_awaited s))
  | MarketsThrew message => MkMarketsState (mp_data s) (Some message) (pred (mp_awaited s))
  end.
Definition markets_possible (s : MarketsState) (e : MarketsEvent) : Prop := match e with MarketsTick => True | _ => (0 < mp_awaited s)%nat end.
Inductive markets_life : list MarketsEvent -> MarketsState -> Prop :=
| markets_start : markets_life [] markets_mounted
| markets_more events s e : markets_life events s -> markets_possible s e -> markets_life (events ++ [e]) (markets_update s e).

Section Page.
Context `{NumberLib, ConsoleDates} {E : Type}.
Notation Html := (Html E).

Definition quoted (s : string) : string := String (Ascii.ascii_of_nat 34) (s +:+ String (Ascii.ascii_of_nat 34) EmptyString).
Definition markets_text : list Html :=
  [el "h1" [Txt "Live RWA"; br; Txt "price feed"];
   p_ "Tokenized treasury prices read from the issuer and from RedStone's on-chain oracle, then checked against each other by the PriceGuard contract. Nothing on this page is simulated.";
   el "div"
     [p_ "[ Trust model ]";
      p_ ("Issuers publish prices as plain data; none signs them. Ballast's publisher key signs what it read, so the on-chain signature means " +:+
          quoted "Ballast saw this value from the issuer's API" +:+ ", not " +:+ quoted "the issuer attested it" +:+
          ". Lending is not open: this page is the price layer only.")]].

Definition generated (data : MarketsResult) : outcome string := Date_toISOString (Date_time (ms_generatedAt data)).

Definition markets_listed (data : MarketsResult) : outcome (list Html) :=
  at_ <-? generated data ;;
  Ok [el "div" (when (bool_decide (ms_markets data = [])) [p_ "NO ASSETS ARE BEING TRACKED YET."] ++ List.map (MarketRow (ms_network data)) (ms_markets data));
      el "p" (Txt ("REFRESHES EVERY 60S / GENERATED " +:+ at_) ::
        when_text (ms_priceGuardContract data) (fun c => [Txt (" / PRICEGUARD " +:+ shortAddress c)]))].

Definition Markets (s : MarketsState) : outcome Html :=
  listed <-? match mp_data s with Some data => markets_listed data | None => Ok [] end ;;
  Ok (el "div"
    [el "header"
       [span [Txt "BALLAST"];
        el "div" (when_some (mp_data s) (fun data => [span [Txt ("NET / " +:+ ms_network data)]]) ++ [link "/login" [Txt "Operator access"]])];
     el "main"
       (markets_text ++ error_line (mp_error s) ++
        when (negb (bool_decide (is_Some (mp_data s))) && negb (given (mp_error s))) [p_ "Loading..."] ++ listed)]).

(** The page shows no figure but a reading of the answer that came last, whatever went wrong after it. *)
Lemma markets_data events s : markets_life events s -> forall data, mp_data s = Some data -> In (MarketsCame data) events.
Proof.
  induction 1 as [|events s e Hl IH Hp]; [done|]. intros data Hd. apply in_app_iff.
  destruct e as [|result|message]; cbn in Hd; [left; by apply IH| |left; by apply IH]. injection Hd as ->. right. by left.
Qed.

Lemma figures_rows data v :
  In v (flat_map figures (List.map (MarketRow (E := E) (ms_network data)) (ms_markets data))) -> exists m, In m (ms_markets data) /\ In v (readings_of m).
Proof.
  rewrite read_map. intros (m & Hm & Hv)%in_flat_map. exists m. split; [done|]. by eapply row_figures.
Qed.

Theorem price_page_shows_only_readings events s page v :
  markets_life events s -> Markets s = Ok page -> In v (figures page) ->
  exists data m, In (MarketsCame data) events /\ mp_data s = Some data /\ In m (ms_markets data) /\ In v (readings_of m).
Proof.
  intros Hl Hpage Hv. unfold Markets in Hpage. apply obind_ok in Hpage as (listed & El & [= <-]).
  assert (Hin : In v (flat_map figures listed)).
  { cbn in Hv. rewrite !flat_map_app, app_nil_r in Hv. cbn in Hv. rewrite !in_app_iff in Hv. unfold error_line in Hv. rewrite read_when_text in Hv by done.
    rewrite read_when in Hv. cbn in Hv. rewrite when_nil, read_when_some in Hv by done. cbn in Hv. tauto. }
  destruct (mp_data s) as [data|] eqn:Ed; [|by injection El as <-]. unfold markets_listed in El.
  apply obind_ok in El as (at_ & _ & [= <-]). cbn in Hin. rewrite !flat_map_app, read_when, !in_app_iff in Hin. cbn in Hin.
  rewrite when_nil, read_when_text in Hin by done. cbn in Hin. 
  assert (In v (flat_map figures (List.map (MarketRow (E := E) (ms_network data)) (ms_markets data)))) as Hrows by tauto. clear Hin. rename Hrows into Hin.
  apply figures_rows in Hin as (m & Hm & Hr). exists data, m. split; [by eapply markets_data|done].
Qed.

(** A refresh that fails leaves the last prices up, next to what went wrong. *)
Lemma markets_kept s message : mp_data (markets_update s (MarketsThrew message)) = mp_data s /\
  mp_error (markets_update s (MarketsThrew message)) = Some message.
Proof. done. Qed.
End Page.

(** ** A market that is only watched *)
Module MarketSample.
#[local] Instance plain_numbers : NumberLib := {| Number_toString _ := "1" |}.
#[local] Instance plain_dates : ConsoleDates := {| Date_time := digits_value; Date_toLocaleString _ := "then" |}.

Definition watched : Market :=
  MkMarket "BOND" "GISSUER" "acme" "CBOND" "USD" 50 None (Some (MkMarketReading "1.0432" "" 21601)) None 1 None.
Definition page : outcome (Html unit) :=
  Markets (markets_update markets_mounted (MarketsCame (MkMarketsResult "testnet" None "1700000000123" [watched]))).

(** It says that it has no price on the chain, and shows the issuer's reading in large figures all the same;
    after six hours the reading is marked as stale. *)
Example watched_market :
  match page with
  | Ok h => figures h = ["1.0432"; "1.0432"] /\ In "SHADOW / NOT ON-CHAIN" (words h) /\ In "Latest reading" (words h) /\
            In "6h 0m old / STALE" (words h) /\ In "REFRESHES EVERY 60S / GENERATED 2023-11-14T22:13:20.123Z" (words h)
  | Err _ => False
  end.
Proof. vm_compute. tauto. Qed.

Lemma price_page_shows_only_readings_witness : forall h, page = Ok h -> exists data m, mp_data (markets_update markets_mounted
  (MarketsCame (MkMarketsResult "testnet" None "1700000000123" [watched]))) = Some data /\ In m (ms_markets data) /\ In "1.0432" (readings_of m).
Proof.
  intros h Hh.
  assert (Hv : In "1.0432" (figures h)) by (revert Hh; vm_compute; intros [= <-]; vm_compute; tauto).
  assert (Hl : markets_life ([] ++ [MarketsCame (MkMarketsResult "testnet" None "1700000000123" [watched])])
    (markets_update markets_mounted (MarketsCame (MkMarketsResult "testnet" None "1700000000123" [watched])))) by (apply markets_more; [constructor|cbn; lia]).
  destruct (price_page_shows_only_readings _ _ h "1.0432" Hl Hh Hv) as (data & m & _ & Hd & Hm & Hr). by exists data, m.
Defined.
End MarketSample.

(** * The frame *)
(** ** App.tsx: which route a path is for is the router's answer *)
Inductive RoutePath := AtMarkets | AtLogin | AtIndex | AtBorrower | AtLender | AtExit | AtRepo | Unmatched.
#[export] Instance RoutePath_eq_dec : EqDecision RoutePath.
Proof. solve_decision. Defined.
Inductive Screen := MarketsScreen | LoginScreen | BorrowerScreen | LenderScreen | ExitScreen | RepoScreen | BlankScreen.

(** The screens inside [ConsoleShell]. *)
Definition in_shell (s : Screen) : bool := match s with BorrowerScreen | LenderScreen | ExitScreen | RepoScreen => true | _ => false end.

(** What a path shows, or where [Navigate] goes on to. *)
Definition inside (session : option Session) (s : Screen + RoutePath) : Screen + RoutePath :=
  match session with Some _ => s | None => inr AtLogin end.
Definition routed (session : option Session) (p : RoutePath) : Screen + RoutePath :=
  match p with
  | AtMarkets => inl MarketsScreen
  | AtLogin => match session with Some _ => inr AtIndex | None => inl LoginScreen end
  | AtIndex => inside session (inr AtBorrower)
  | AtBorrower => inside session (inl BorrowerScreen)
  | AtLender => inside session (inl LenderScreen)
  | AtExit => inside session (inl ExitScreen)
  | AtRepo => inside session (inl RepoScreen)
  | Unmatched => inl BlankScreen
  end.

Inductive arrives_at (session : option Session) : RoutePath -> RoutePath -> Screen -> Prop :=
| arrived p s : routed session p = inl s -> arrives_at session p p s
| sent_on p p' q s : routed session p = inr p' -> arrives_at session p' q s -> arrives_at session p q s.

(** Whatever the path, redirections come to an end, on one screen; the pages with a party's business are
    shown only in a session, and the login page only without. *)
Lemma visitor_arrives session p :
  exists q s, arrives_at session p q s /\ (forall q' s', arrives_at session p q' s' -> q' = q /\ s' = s) /\
    (in_shell s = true -> is_Some session) /\ (s = LoginScreen -> session = None) /\
    (is_Some session -> p = AtLogin \/ p = AtIndex -> q = AtBorrower /\ s = BorrowerScreen) /\
    (session = None -> p <> AtMarkets -> p <> Unmatched -> q = AtLogin /\ s = LoginScreen).
Proof.
  assert (Hone : forall p q s, arrives_at session p q s -> forall q' s', arrives_at session p q' s' -> q' = q /\ s' = s).
  { induction 1 as [p1 s1 E|p1 p2 q s1 E _ IH]; intros q' s' Ha; inversion Ha; subst; try congruence; [split; congruence|].
    rewrite E in *. simplify_eq. by apply IH. }
  assert (Hex : exists q s, arrives_at session p q s /\
    (in_shell s = true -> is_Some session) /\ (s = LoginScreen -> session = None) /\
    (is_Some session -> p = AtLogin \/ p = AtIndex -> q = AtBorrower /\ s = BorrowerScreen) /\
    (session = None -> p <> AtMarkets -> p <> Unmatched -> q = AtLogin /\ s = LoginScreen)).
  { destruct session as [ses|], p; do 2 eexists; (split; [repeat (first [by apply arrived|eapply sent_on; [reflexivity|]])|]); split_and!; try done; naive_solver. }
  destruct Hex as (q & s & Ha & H1 & H2 & H3 & H4). exists q, s. split_and!; try done. by apply Hone.
Qed.

(** ** What surrounds a screen *)
Section Frame.
Context {E : Type} (disconnect reload_window : E).
Notation Html := (Html E).

Definition TABS : list (RoutePath * string * string) :=
  [(AtBorrower, "/borrower", "Borrower"); (AtLender, "/lender", "Lender"); (AtExit, "/exit", "Exit"); (AtRepo, "/repo", "Repo")].
Definition tabClass (isActive : bool) : string := if isActive then "border-fg bg-fg text-bg" else "border-line text-fg-dim hover:text-fg".

Definition error_panel : Html :=
  panel_ "Console error"
    [El "div" [("role", "alert")]
       [el "h1" [Txt "Unable to display this page"];
        p_ "An unexpected error interrupted this view. Reload to try again, or disconnect to return to login.";
        el "div" [Click false reload_window [Txt "Reload"]; Click false disconnect [Txt "Disconnect"]]]].

(** [ErrorBoundary], keyed by the path: what failed at one path has not at another. *)
Record Boundary := MkBoundary { eb_key : RoutePath; eb_failed : bool }.
Definition boundary_at (b : Boundary) (p : RoutePath) : Boundary := if decide (eb_key b = p) then b else MkBoundary p false.
Definition boundary_render (b : Boundary) (children : outcome Html) : Boundary * Html :=
  if eb_failed b then (b, error_panel)
  else match children with Ok h => (b, h) | Err _ => (MkBoundary (eb_key b) true, error_panel) end.

Definition tab (current : RoutePath) (t : RoutePath * string * string) : Html :=
  let '(p, to, name) := t in El "a" [("href", to); ("class", tabClass (bool_decide (p = current)))] [Txt name].
Definition ConsoleShell (session : Session) (current : RoutePath) (outlet : Html) : Html :=
  el "div"
    [el "header"
       [el "div" [span [Txt "BALLAST"]; el "nav" (List.map (tab current) TABS)];
        el "div" [span [Txt "UNIT / "; span [Txt (shortAddress (ss_stellarAccount session))]]; Click false disconnect [Txt "DISCONNECT"]]];
     el "main" [outlet]].
End Frame.

(** What fails at one path keeps its panel there; at another path the console renders anew. *)
Lemma boundary_recovers {E} (disconnect reload_window : E) b p h x :
  let failed := fst (boundary_render disconnect reload_window (boundary_at b p) (Err x)) in
  snd (boundary_render disconnect reload_window (boundary_at failed p) (Ok h)) = error_panel disconnect reload_window /\
  forall q, q <> p -> snd (boundary_render disconnect reload_window (boundary_at failed q) (Ok h)) = h.
Proof.
  assert (Hkey : forall c, eb_key (fst (boundary_render disconnect reload_window (boundary_at b p) c)) = p).
  { intros c. unfold boundary_at. case_decide as Ek; unfold boundary_render; [destruct (eb_failed b)|]; by destruct c. }
  assert (Hfail : eb_failed (fst (boundary_render disconnect reload_window (boundary_at b p) (Err x))) = true).
  { unfold boundary_at. case_decide; unfold boundary_render; [by destruct (eb_failed b) eqn:Ef|done]. }
  cbv zeta. split.
  - unfold boundary_at at 1. rewrite decide_True by apply Hkey. unfold boundary_render at 1. by rewrite Hfail.
  - intros q Hq. unfold boundary_at at 1. rewrite decide_False by (rewrite Hkey; congruence). done.
Qed.

(** ** Login.tsx *)
Inductive WalletState := checking | not_installed | wallet_ready.
Inductive LoginEvent := WalletFound (error : bool) (isConnected : bool) | ConnectClick.

(** [checkWallet], once the wallet has said whether it is there. *)
Definition wallet_update (e : LoginEvent) (s : WalletState) : WalletState :=
  match e with
  | WalletFound error isConnected => if error || negb isConnected then not_installed else wallet_ready
  | ConnectClick => s
  end.

(** In a session the page goes on to the index, so what is here is shown without one. *)
Definition Login (wallet : WalletState) (loading : bool) (error : option string) : Html LoginEvent :=
  el "div"
    [el "h1" [Txt "BALLAST"]; p_ "Collateral / liquidity terminal";
     panel_ "Operator Access"
       [el "div"
          ((match wallet with
            | checking => [p_ "Checking for Freighter..."]
            | not_installed =>
                [p_ "No Stellar wallet extension detected. Install Freighter to authenticate — Ballast never asks for a raw secret key.";
                 link "https://www.freighter.app/" [Txt "Install Freighter"]]
            | wallet_ready => [Click loading ConnectClick [Txt (if loading then "CONNECTING..." else "CONNECT FREIGHTER")]]
            end) ++ error_line error)];
     link "/markets" [Txt "View live prices >>>"];
     p_ "Authentication is real SEP-10: Ballast issues a challenge transaction, Freighter signs it with your account's own Stellar key, and the signed challenge proves ownership before a session is issued. Your key never leaves the extension."].

Lemma login_offers wallet loading error :
  clicks (Login wallet loading error) = (match wallet with wallet_ready => if loading then [] else [ConnectClick] | _ => [] end) /\
  fields (Login wallet loading error) = [].
Proof. unfold Login. cbv zeta. destruct wallet; split; ui_read; by destruct loading. Qed.

Section Connect.
Context `{NodeLib, BodyLib} (env : ConfigEnv).

(** [onConnect] and the shell's [onLogout]: where they go in the end.  What the wallet says of its
    permissions beforehand is not looked at. *)
Definition onConnect : console RoutePath := _ <~ login env ;; m_ret AtIndex.
Definition onLogout : console RoutePath := _ <~ logout ;; m_ret AtLogin.

(** A click on the login page's button ends on the borrower's page, in a session the browser remembers, or
    back on the login page, which says what went wrong. *)
Theorem connect_lands m w : cm_session m = None ->
  mwp onConnect (fun o m' _ => exists p q s, o = Ok p /\ arrives_at (cm_session m') p q s /\ cm_loading m' = false /\
    ((exists ses, cm_session m' = Some ses /\ cm_stored m' = Some (JSON_stringify (session_json ses)) /\ s = BorrowerScreen) \/
     (exists message, cm_session m' = None /\ cm_stored m' = cm_stored m /\ cm_error m' = Some message /\ s = LoginScreen))) m w.
Proof.
  intros Hm. unfold onConnect. apply mwp_bind. eapply mwp_mono; [|apply login_opens_a_session_or_says_why].
  intros o m' w' (-> & Hl & He). cbv beta iota. apply (mwp_lift (Ok _)).
  destruct (visitor_arrives (cm_session m') AtIndex) as (q & s & Ha & _ & _ & _ & Hin & Hout). exists AtIndex, q, s. split_and!; try done.
  destruct (cm_error m') as [message|].
  - right. exists message. destruct He as [Es Et]. rewrite Es, Hm in *. by destruct (Hout eq_refl).
  - left. destruct He as (ses & Es & Et). exists ses. rewrite Es in *. destruct (Hin ltac:(by eexists) ltac:(by right)) as [_ ->]. done.
Qed.

(** Disconnecting leaves no session, in memory or in the browser, and ends on the login page. *)
Lemma logout_lands m w :
  mwp onLogout (fun o m' _ => o = Ok AtLogin /\ cm_session m' = None /\ cm_stored m' = None /\ arrives_at (cm_session m') AtLogin AtLogin LoginScreen) m w.
Proof. unfold onLogout. apply mwp_bind, mwp_write, (mwp_lift (Ok _)). split_and!; try done. by apply arrived. Qed.
End Connect.

(** ** main.tsx and ConfigError.tsx *)
Definition problem_line {E} (p : ConfigProblem) : Html E := el "li" [el "code" [Txt (cp_variable p)]; Txt " "; span [Txt (cp_message p)]].
Definition ConfigError {E} (problems : list ConfigProblem) : Html E :=
  el "main"
    [panel_ "Configuration error"
       [El "div" [("role", "alert")]
          [el "h1" [Txt "This console was built with invalid settings"];
           el "ul" (List.map problem_line problems);
           p_ "These are fixed when the console is built. Set them and rebuild; reloading will not help."]]].

Section Main.
Context `{NodeLib} {E : Type} (App : Html E).
(** The app is rendered only with a valid configuration. *)
Definition main (env : ConfigEnv) (production : bool) : Html E :=
  match validateConfig env production with inl _ => App | inr problems => ConfigError problems end.

(** Otherwise every problem is named and explained, and nothing can be done on the page. *)
Lemma misconfigured_console_says_why env production problems : validateConfig env production = inr problems ->
  (forall e, ~ offered (main env production) e) /\
  forall p, In p problems -> In (cp_variable p) (words (main env production)) /\ In (cp_message p) (words (main env production)).
Proof.
  intros E0. unfold main. rewrite E0. unfold ConfigError. split.
  - intros e. apply (not_offered (fun _ => True)); [| |done]; ui_read; constructor.
  - intros p Hp.
    assert (Hw : In (cp_variable p) (flat_map words (List.map (problem_line (E := E)) problems)) /\
      In (cp_message p) (flat_map words (List.map (problem_line (E := E)) problems)))
      by (rewrite read_map, !in_flat_map; split; exists p; (split; [done|]); cbn; tauto).
    cbn [words el panel_ p_ flat_map app span]. rewrite !app_nil_r. cbn [In]. rewrite !in_app_iff. tauto.
Qed.
End Main.
